(* ===== verification/_CoqProject ===== *)
-Q . S2P
Prelude.v
GoStd.v
GoText.v
GoPath.v
GoSha.v
SortedPaths.v
GoBytes.v
KeyedDiff.v
Model.v
Domain.v
FactEqual.v
SymbolIntern.v
SymbolStore.v
FactTable.v
TransitionDiff.v
PathDelta.v
SymbolDelta.v
TransportManifest.v
StringTable.v
CompactDemands.v
DemandGroup.v
SessionDemands.v
Modules.v
Proc.v
Contributions.v
ContributionStore.v
Closure.v
SymbolClosure.v
SymbolDrain.v
SymbolRows.v
SymbolPatch.v
SymbolClosureTheorems.v
SampleClosure.v
Materialize.v
MaterializeSpec.v
DemandEdits.v
MaterializeTable.v
ClosureSpec.v
Overlay.v
Compiler.v
SemanticTypes.v
ImportGraph.v
Identity.v
Exports.v
References.v
ReferencesTheorems.v
SampleReferences.v
SemanticTypesTheorems.v
Project.v
ProjectTheorems.v
SampleProject.v
Protocol.v
Writer.v
Stream.v
Rows.v
Transition.v
SparseDelta.v
AnalysisSpec.v
Session.v
SampleSession.v
SessionSpec.v
SessionLife.v
SessionClient.v
ClosureTheorems.v
Totality.v
Reader.v
Emits.v
RowsRoundtrip.v
DictionaryRoundtrip.v
EntityRoundtrip.v
OpsRoundtrip.v
FrameRoundtrip.v
Codec.v
EncoderLife.v
Arena.v
Wire.v
WireTheorems.v
Service.v
ServiceTheorems.v
SampleService.v
