(* ===== verification/Prelude.v ===== *)
(** * Type Facts producer: a verification library

    The repository answers semantic questions about TypeScript files to a Rust
    client. A Go process ([src/cmd/solid-typefacts]) reads requests from its
    input and holds one session ([src/internal/typefacts]); the session asks a compiler backend
    ([src/internal/typefacts/tsgo]), keeps what it was answered between
    requests, and sends each new state as a binary transition from the state
    the client has. This library models the service around the session, the
    session and everything below it down to the bytes of a transition, the
    client's reader of those bytes, and the part of the compiler backend that
    keeps state of its own.

    ** The parts and how they interact

    The service ([Service.step]) reads frames, queues them, runs them one by one
    and writes the responses in order while further frames, among them
    cancellations, arrive. A request that runs enters [Session.lifecycle]. An update ([Closure.Update]) tells
    the backend of changed files and forgets what depended on them. An analysis
    begins a demand transaction ([SessionDemands]) on the demand runs, builds a
    table for them ([Materialize], over the contributions kept in
    [ContributionStore]), plans the transition from the table the client has
    ([TransitionDiff]), writes it ([Transition], [Rows], [Writer]) and, if all
    of that succeeds, commits; if not, it rolls the runs back and resets the
    closure. The transition travels in a shared file ([Arena]) or in the
    response itself ([Wire]). The client reads the frame ([Reader]) and applies
    it.

    Behind the session's backend is a project of the compiler adapter
    ([Project]): it edits an overlay over the disk ([Overlay]), builds the next
    program, finds the files a change affects over the import graph
    ([ImportGraph]), names symbols so that names outlive programs ([Identity],
    [Exports]) and keeps an index of references ([References]).

    ** Files and what they model

    Foundations: [Prelude] (results, errors, lists), [GoStd], [GoText],
    [GoPath], [GoSha] and [GoBytes] (the Go standard library the code uses:
    slices, [sort], machine words, file paths, hexadecimal, SHA-256), [KeyedDiff] (merges of
    keyed streams), [Proc] (procedures that change a state and may fail, with
    their weakest preconditions), [Emits] and [Totality] (what a writer program
    puts out, and when it succeeds).

    Facts. [Model]: the records of typefacts.go and model.go. [Domain]:
    PrimitiveValueDomain. [FactEqual]: facttable_equal.go. [Modules]: the module
    inventory of typefacts.go. [FactTable]: FactTable with its wire views and
    path cursor (model.go, wire_transition_diff.go). [SymbolIntern]:
    symbol_intern.go. [SymbolStore]: symbol_store.go. [SortedPaths]: the path
    compactions of session_demands.go and wire_transition_diff.go.

    Demands. [CompactDemands]: protocolv3_compact.go. [DemandGroup]: the run
    of one file (semantic_retained.go, semantic_demand.go). [SessionDemands]:
    session_demands.go. [DemandEdits]: transactions around a materialization.

    Retained state. [Contributions] and [ContributionStore]:
    retained_contributions.go. [Closure]: closure.go. [Materialize]:
    semantic_retained.go and semantic_demand.go; [MaterializeSpec],
    [MaterializeTable], [ClosureSpec] and [ClosureTheorems] say what it builds
    and what the closure keeps. [SymbolClosure]: symbol_closure.go, with
    [SymbolDrain] (its worklist and tier), [SymbolRows] (the rows it collects
    and their order), [SymbolPatch] (the store it patches),
    [SymbolClosureTheorems]; [SampleClosure] is a concrete
    generation. The repository constructs this builder in tests only.

    Transitions. [TransportManifest]: transport_manifest.go. [TransitionDiff]:
    wire_transition_diff.go, with [PathDelta] and [SymbolDelta] for what its
    plans do. [StringTable] and [Writer]: protocolv3_compact.go and
    wire_transition_codec.go. [Rows]: wire_transition_rows.go. [Transition]:
    wire_transition.go. [SparseDelta] and [AnalysisSpec]: what a
    client's rows become. [Stream] and [EncoderLife]: the encoder between calls.
    [Reader]: the frame decoder of src/crates/typefacts/src/v3.rs, with
    [RowsRoundtrip], [DictionaryRoundtrip], [EntityRoundtrip], [OpsRoundtrip],
    [FrameRoundtrip] and [Codec] for the round trips.

    Sessions. [Protocol]: protocolv3.go. [Session]: session.go;
    [SessionSpec], [SessionLife] and [SessionClient] say what
    a request can do to a session and to its client; [SampleSession] is a
    concrete backend the witnesses run on.

    Compiler adapter, in src/internal/typefacts/tsgo. [Compiler]: what the
    adapter reads of the vendored compiler, as a class. [Overlay]: overlay.go.
    [ImportGraph], [Identity], [Exports] and [Project]:
    the import graph, the identities of symbols and of exports, and the updates
    of project.go, with [ProjectTheorems]. [References]: references.go, with
    [ReferencesTheorems]. [SampleReferences] and
    [SampleProject] are a concrete compiler and runs over it: witnesses, and
    the runs in which the adapter answers wrongly. [SemanticTypes]: the
    verdicts on types of semantic_entities.go, array_shapes.go,
    library_types.go and object_construction_shapes.go, over the class
    [TypeChecker]; [SemanticTypesTheorems] says what they mean, with a sample
    checker.

    Service. [Arena]: transition_arena.go and the client's attach of
    src/crates/typefacts/src/shared_transition_arena.rs. [Wire]: the framing and
    the response encoding of src/cmd/solid-typefacts/main.go and the limits of
    src/internal/wirecbor/codec.go; [WireTheorems] says what they put out.
    [Service]: serve, its queues and goroutines and the responder of main.go, as
    a step relation; [ServiceTheorems] says what its runs do; [SampleService] is
    a concrete codec, decoder and responder the witnesses run on.

    ** What the theorems show

    - Sessions: the invariant of every reachable session, the moves of its
      state machine, what a closed one answers, and that a client that applies
      the frames it is sent follows the runs ([SessionClient]).
    - The service: in every interleaving the requests are answered in order and
      the output is the frames of the answers ([serve_in_order]); it ends, from
      every state it can reach ([serve_finishes]); a cancellation reaches the
      request it names and no other ([cancel_hits_target]).
    - Transport: what the client attaches from the arena is the frame that was
      streamed ([arena_transports]); a response written in pieces is the frame
      of its whole encoding ([WireTheorems]).
    - The closure: what a demand table is built from, what an update forgets,
      what the demand hash tells apart ([ClosureTheorems]).
    - Symbol closures: whichever path is taken, the rows are those of what the
      alias targets reach, with the references the tier asks for
      ([closeSymbols_refines]); the specialization for an unchanged universe
      leaves what the closure would ([stable_universe_sound]); ordering by the preceding
      generation is sorting ([orderSymbolFacts_sorts]).
    - Retained contributions: exact reverse indexes in every reachable state,
      invalidation, the in-place merge ([ContributionStore], [Contributions]).
    - Demands: transactions and their rollback, grouping, compact frames and
      their round trip, bounds and selective reads.
    - Plans: deltas, exact or by a merge of both tables, applied to the base
      give the target; manifests are closed under aliases.
    - Bytes: a frame is read back as the plan it was written from; rows stay
      within their schema; streaming hands out the detached frame in pieces.
    - The compiler adapter: what an update affects and keeps
      ([update_affects_importers]), the invariant of every project that updates
      reach which leave the other files alone when they edit one path
      ([project_invariant]; [SampleProject] shows an update that does not), the repair of the reference index and what a new
      one answers ([ReferencesTheorems]), identities that tell symbols apart,
      outlive their generation and survive edits that keep the declarations
      ([Identity], [Exports]), the walk of the import graph and its end
      ([ImportGraph]), reads and listings of the overlay ([Overlay]).
    - Types: which values a domain admits, the literals it names, what a tuple
      shape promises of a union and when a type can be called
      ([SemanticTypesTheorems]).
    - Data: equality, domains, stores, sets and dictionaries against their
      mathematical counterparts.

    ** Conventions

    Machine words are integers with their wrap-around written out ([u64],
    [i64]); byte strings are lists of integers. A Go map is a [gmap] or a
    function of one; where the code ranges over a map, the order is the class
    [MapRange], any permutation of the entries. Whether two slices share an
    array is the class [Backing], and the hash of a demand list is the class
    [Maphash]. The backend, the cancellation of a call and the file system are
    the classes [ClosureBackend] and [FileSystem] over a world type, the file of
    the arena is the class [OS], the CBOR library [CBOR] and [Decoder], the
    output pipe [Pipe], the session behind the service [Responder], the file
    system below the overlay [VFS], and the vendored compiler [Compiler], with
    the construction of its programs in [Toolchain] and its types in
    [TypeChecker]: every
    theorem holds for any of them, and those that need the documented behaviour
    of the CBOR library name it as a hypothesis. Mutable contributions live in a heap
    addressed by positives. Errors are [error]: sentinels are constructors,
    formatted texts keep their text but not the values printed into them.

    Loops are structural where the code ranges over a slice; the others take
    fuel: the expansion of a packed run takes one turn per byte
    ([CompactDemands.Expand_reads_all] shows that this is enough), the merges
    of two cursors take the sum of their lengths, the alias closure of a
    manifest takes the number of symbols of both tables plus the queue, an
    append to the arena takes the length of its chunk, the walk of the import
    graph takes the changed paths plus the importers of its graphs, the
    directories above a file take the length of its path, the resolution of
    aliases takes the 64 turns the code gives it, the worklist of a symbol
    closure takes more than the symbols of the universe, its tier one pass more
    than there are rows, and the
    eviction loop of an update takes the length of its bucket plus one, and a
    walk over types takes more than the types it can meet; their
    files show that they end by their own conditions.

    ** What is not modelled

    Of the semantic queries of the compiler adapter the verdicts on types are
    here; the walks over its syntax and signatures (resolved_calls.go,
    semantic_runs.go, async_flow.go, module_graph.go, constant_values.go) read
    the nodes of the vendored compiler, which is not part of the repository:
    they enter as the backend class of the closure. The caches of types and calls that the project
    keeps for them are left out with them, as are the checker's lease and pool,
    which are locking. The shims
    are generated. The CBOR configuration selects options of a third-party
    library. The rest of the Rust client is in another language; its frame
    decoder and its attach of an arena are here, as the contract of the writers.
    The start of the process (flags, profiles, the handshake) and its crash
    markers are left out. Timers, traces, memory
    statistics, mutexes and reused scratch buffers are left out: every request
    holds the session's lock from beginning to end, so sessions see one request
    after the other; the goroutines of the service do interleave in [Service].
    Where [Update] would hand a missing checker to the collection of exports,
    the model collects none.
*)

From stdpp Require Export base list strings gmap sorting.
From Stdlib Require Export ZArith Lia.
From Stdlib Require OrdersEx.

(** ** Results

    A Go call that returns [(value, error)] is a [result]; the sentinels of the
    package and the texts of [fmt.Errorf] and [errors.New] are an inductive
    type, so that [errors.Is] is a case analysis. *)

Inductive error : Type :=
| ErrText (msg : string)
| ErrWrap (msg : string) (inner : error)
| ErrGenerationMismatch
| ErrNotFound
| ErrSessionClosed
| ErrSparseTransitionUnavailable
| ErrModuleGraphUnavailable
| ErrCanceled.

Inductive result (A : Type) : Type :=
| Ok (a : A)
| Err (e : error).
Arguments Ok {A} a.
Arguments Err {A} e.

#[export] Instance error_eq_dec : EqDecision error.
Proof. solve_decision. Defined.

#[export] Instance result_eq_dec `{EqDecision A} : EqDecision (result A).
Proof. solve_decision. Defined.

Declare Scope go_scope.
Delimit Scope go_scope with go.

Definition result_bind {A B} (r : result A) (k : A -> result B) : result B :=
  match r with Ok a => k a | Err e => Err e end.

Notation "'let?' x ':=' e 'in' k" :=
  (result_bind e (fun x => k))
  (at level 10, x pattern, e at level 200, k at level 200) : go_scope.
Open Scope go_scope.

(** [fmt.Errorf("...: %w", err)]. *)
Definition wrap_err {A} (msg : string) (r : result A) : result A :=
  match r with Ok a => Ok a | Err e => Err (ErrWrap msg e) end.

Definition is_ok {A} (r : result A) : bool :=
  match r with Ok _ => true | Err _ => false end.

(** [errors.Is(err, target)] for a sentinel. *)
Fixpoint error_is (target e : error) : bool :=
  bool_decide (e = target) || match e with ErrWrap _ inner => error_is target inner | _ => false end.

Lemma result_bind_ok {A B} (r : result A) (k : A -> result B) b :
  result_bind r k = Ok b <-> exists a, r = Ok a /\ k a = Ok b.
Proof. destruct r; simpl; naive_solver. Qed.

Lemma wrap_err_ok {A} msg (r : result A) a : wrap_err msg r = Ok a <-> r = Ok a.
Proof. destruct r; simpl; naive_solver. Qed.

Lemma is_ok_true {A} (r : result A) : is_ok r = true <-> exists a, r = Ok a.
Proof. destruct r; simpl; naive_solver. Qed.

(** [P] of a value that is there. *)
Definition when_some {A} (P : A -> Prop) (o : option A) : Prop := forall a, o = Some a -> P a.

Lemma when_some_intro {A} (P : A -> Prop) (a : A) : P a -> when_some P (Some a).
Proof. by intros H b [= <-]. Qed.

(** ** The development's tactics *)

(** Splits the hypotheses and goals the result monad leaves behind. *)
Ltac result_solve :=
  repeat match goal with
  | H : result_bind _ _ = Ok _ |- _ =>
      apply result_bind_ok in H; destruct H as (? & ? & ?)
  | H : wrap_err _ _ = Ok _ |- _ => apply wrap_err_ok in H
  | H : Ok _ = Ok _ |- _ => injection H as H
  | H : Err _ = Ok _ |- _ => discriminate H
  | H : Ok _ = Err _ |- _ => discriminate H
  end; simplify_eq/=.

(** Case analysis on every [if] and [match] of the goal. *)
Ltac split_ifs := repeat (case_match; simplify_eq/=).

(** Conjunctions of boolean guards. *)
Ltac bool_hyps :=
  repeat match goal with
  | H : andb _ _ = true |- _ => apply andb_prop in H; destruct H
  | H : orb _ _ = false |- _ => apply orb_false_elim in H; destruct H
  | H : negb _ = true |- _ => apply negb_true_iff in H
  | H : negb _ = false |- _ => apply negb_false_iff in H
  end.

Create HintDb facts.

(** ** Byte-wise string order (Go's [<] on strings) *)

Definition slt (a b : string) : Prop := String.ltb a b = true.
Definition sle (a b : string) : Prop := String.ltb b a = false.

#[export] Instance slt_dec : RelDecision slt.
Proof. intros a b. unfold slt. apply _. Defined.
#[export] Instance sle_dec : RelDecision sle.
Proof. intros a b. unfold sle. apply _. Defined.

Module StringOrder.
Lemma compare_ot a b : String.compare a b = OrdersEx.String_as_OT.compare a b.
Proof.
  revert b; induction a as [|x a IH]; intros [|y b]; simpl; try done.
Qed.

Lemma slt_ot a b : slt a b <-> OrdersEx.String_as_OT.lt a b.
Proof.
  unfold slt, String.ltb, OrdersEx.String_as_OT.lt. rewrite compare_ot.
  by destruct (OrdersEx.String_as_OT.compare a b).
Qed.
End StringOrder.

Lemma slt_irrefl a : ~ slt a a.
Proof.
  rewrite StringOrder.slt_ot.
  destruct OrdersEx.String_as_OT.lt_strorder as [H _]. apply H.
Qed.

#[export] Instance slt_trans : Transitive slt.
Proof.
  intros a b c. rewrite !StringOrder.slt_ot.
  destruct OrdersEx.String_as_OT.lt_strorder as [_ H]. apply H.
Qed.

Lemma slt_total a b : slt a b \/ a = b \/ slt b a.
Proof.
  rewrite !StringOrder.slt_ot.
  destruct (OrdersEx.String_as_OT.compare_spec a b) as [H|H|H]; auto.
Qed.

Lemma slt_asym a b : slt a b -> ~ slt b a.
Proof. intros H1 H2. exact (slt_irrefl a (slt_trans _ _ _ H1 H2)). Qed.

Lemma sle_not_slt a b : sle a b <-> ~ slt b a.
Proof. unfold sle, slt. destruct (String.ltb b a); intuition congruence. Qed.

Lemma slt_not_sle a b : slt a b <-> ~ sle b a.
Proof. unfold sle, slt. destruct (String.ltb a b); intuition congruence. Qed.

Lemma sle_lt_eq a b : sle a b <-> slt a b \/ a = b.
Proof.
  rewrite sle_not_slt. destruct (slt_total a b) as [H|[->|H]].
  - split; [by left|intros _; by apply slt_asym].
  - split; [by right|intros _; apply slt_irrefl].
  - split; [done|]. intros [H'| ->] _; [by apply (slt_asym _ _ H)|by apply (slt_irrefl b)].
Qed.

#[export] Instance sle_refl : Reflexive sle.
Proof. intros a. apply sle_not_slt, slt_irrefl. Qed.

#[export] Instance sle_trans : Transitive sle.
Proof.
  intros a b c. rewrite !sle_lt_eq. intros [H1| ->] [H2| ->]; auto.
  left. by transitivity b.
Qed.

#[export] Instance sle_total : Total sle.
Proof. intros a b. rewrite !sle_lt_eq. destruct (slt_total a b) as [|[|]]; auto. Qed.

#[export] Instance sle_antisym : AntiSymm (=) sle.
Proof.
  intros a b. rewrite !sle_lt_eq. intros [H1|?] [H2|?]; auto.
  by destruct (slt_asym _ _ H1).
Qed.

Lemma slt_le a b : slt a b -> sle a b.
Proof. rewrite sle_lt_eq. auto. Qed.

Lemma slt_le_trans a b c : slt a b -> sle b c -> slt a c.
Proof. rewrite sle_lt_eq. intros H [H'| <-]; [by transitivity b|done]. Qed.

Lemma sle_lt_trans a b c : sle a b -> slt b c -> slt a c.
Proof. rewrite sle_lt_eq. intros [H| ->] H'; [by transitivity b|done]. Qed.

Lemma slt_neq a b : slt a b -> a <> b.
Proof. intros H ->. by apply (slt_irrefl b). Qed.

#[export] Hint Resolve slt_le slt_irrefl slt_trans : facts.

(** Contradictions between string comparisons. *)
Ltac string_order :=
  repeat match goal with
  | H : String.ltb ?a ?b = true |- _ => change (slt a b) in H
  | H : String.ltb ?a ?b = false |- _ => change (sle b a) in H
  end;
  try solve
    [ eauto with facts
    | exfalso; repeat match goal with
      | H : sle _ _ |- _ => rewrite sle_not_slt in H
      end; eauto using slt_irrefl, slt_asym ].

(** ** Sorting

    [sort.SliceStable], and [sort.Slice] where equal keys cannot be told
    apart, by insertion with the code's own [less]. *)
Section Sort.
Context {A : Type} (less : A -> A -> bool).

Fixpoint sort_insert (x : A) (l : list A) : list A :=
  match l with
  | [] => [x]
  | y :: l' => if less y x then y :: sort_insert x l' else x :: l
  end.

Definition sort_slice (l : list A) : list A := foldr sort_insert [] l.

Lemma sort_insert_perm x l : sort_insert x l ≡ₚ x :: l.
Proof.
  induction l as [|y l IH]; simpl; [done|]. destruct (less y x); [|done].
  rewrite IH. apply Permutation_swap.
Qed.

Lemma sort_slice_perm l : sort_slice l ≡ₚ l.
Proof. induction l as [|x l IH]; simpl; [done|]. by rewrite sort_insert_perm, IH. Qed.

Definition not_after (a b : A) : Prop := less b a = false.

Lemma sort_slice_id l : StronglySorted not_after l -> sort_slice l = l.
Proof.
  induction 1 as [|x l Hl IH Hx]; [done|]. simpl. rewrite IH.
  destruct Hx as [|y l Hy _]; [done|]. simpl. unfold not_after in Hy. by rewrite Hy.
Qed.

Context (less_trans : forall a b c, not_after a b -> not_after b c -> not_after a c).
Context (less_asym : forall a b, less a b = true -> less b a = false).

Lemma sort_insert_sorted x l :
  StronglySorted not_after l -> StronglySorted not_after (sort_insert x l).
Proof.
  induction 1 as [|y l Hl IH Hy]; simpl; [repeat constructor|].
  destruct (less y x) eqn:E.
  - constructor; [done|]. rewrite sort_insert_perm. constructor; [|done].
    by apply less_asym.
  - constructor; [by constructor|]. constructor; [done|].
    eapply Forall_impl; [exact Hy|]. intros z Hz. simpl in Hz. by apply (less_trans _ y).
Qed.

Lemma sort_slice_sorted l : StronglySorted not_after (sort_slice l).
Proof. induction l; simpl; [constructor|]. by apply sort_insert_sorted. Qed.
End Sort.

Lemma reverse_rev {A} (l : list A) : reverse l = rev l.
Proof. symmetry. apply rev_alt. Qed.

(** ** Lists keyed by a string *)
Section Keyed.
Context {A : Type} (key : A -> string).

Definition key_less (a b : A) : bool := String.ltb (key a) (key b).

(** Strictly increasing keys: Go's "strictly path-ordered" rows. *)
Definition keys_sorted (l : list A) : Prop := StronglySorted slt (key <$> l).

Lemma key_not_after a b : not_after key_less a b <-> sle (key a) (key b).
Proof. done. Qed.

Lemma sort_slice_key_sorted l : StronglySorted (fun a b => sle (key a) (key b)) (sort_slice key_less l).
Proof.
  apply (sort_slice_sorted key_less).
  - intros a b c. rewrite !key_not_after. apply sle_trans.
  - intros a b. exact (fun H => proj2 (sle_not_slt _ _) (slt_asym _ _ H)).
Qed.

Lemma sort_slice_keys_sorted l :
  NoDup (key <$> l) -> keys_sorted (sort_slice key_less l).
Proof.
  intros Hnd. pose proof (sort_slice_key_sorted l) as Hs.
  assert (NoDup (key <$> sort_slice key_less l)) as Hnd'
    by (by rewrite sort_slice_perm).
  unfold keys_sorted. induction Hs as [|x l' Hl IH Hx]; simpl; [constructor|].
  simpl in Hnd'. apply NoDup_cons in Hnd' as [Hn Hnd'].
  constructor; [by apply IH|]. apply Forall_fmap, Forall_forall. intros y Hy. simpl.
  rewrite Forall_forall in Hx. specialize (Hx y Hy).
  apply sle_lt_eq in Hx as [|Heq]; [done|]. destruct Hn. rewrite Heq.
  apply list_elem_of_fmap. eauto.
Qed.

Lemma keys_sorted_nil : keys_sorted [].
Proof. constructor. Qed.

Lemma keys_sorted_cons x l :
  keys_sorted (x :: l) <-> keys_sorted l /\ Forall (fun y => slt (key x) (key y)) l.
Proof.
  unfold keys_sorted. rewrite fmap_cons. split.
  - intros H. apply StronglySorted_inv in H as [? H]. split; [done|].
    by rewrite Forall_fmap in H.
  - intros [? ?]. constructor; [done|]. by rewrite Forall_fmap.
Qed.

Lemma keys_sorted_app l1 l2 :
  keys_sorted (l1 ++ l2) <->
  keys_sorted l1 /\ keys_sorted l2 /\
  (forall x y, x ∈ l1 -> y ∈ l2 -> slt (key x) (key y)).
Proof.
  induction l1 as [|a l1 IH]; simpl.
  - split; [intros; split; [constructor|split; [done|set_solver]]|naive_solver].
  - rewrite !keys_sorted_cons, IH, Forall_app, !Forall_forall.
    split; [|set_solver]. intros [(?&?&?) [??]]. repeat split; auto.
    intros x y [->|?]%elem_of_cons ?; auto.
Qed.

Lemma keys_sorted_NoDup l : keys_sorted l -> NoDup (key <$> l).
Proof.
  induction l as [|x l IH]; [constructor|].
  rewrite keys_sorted_cons. intros [Hl Hx]. simpl. constructor; [|by apply IH].
  intros (y & Hy & Hin)%list_elem_of_fmap. rewrite Forall_forall in Hx.
  apply (slt_irrefl (key x)). rewrite Hy at 2. by apply Hx.
Qed.

(** A strictly sorted list is determined by its elements. *)
Lemma keys_sorted_unique l1 l2 :
  keys_sorted l1 -> keys_sorted l2 -> (forall x, x ∈ l1 <-> x ∈ l2) -> l1 = l2.
Proof.
  revert l2. induction l1 as [|a l1 IH]; intros [|b l2] H1 H2 He.
  - done.
  - destruct (not_elem_of_nil b). apply He. left.
  - destruct (not_elem_of_nil a). apply He. left.
  - apply keys_sorted_cons in H1 as [H1 Ha], H2 as [H2 Hb].
    rewrite Forall_forall in Ha, Hb.
    assert (a = b) as ->.
    { pose proof (proj1 (He a) ltac:(left)) as Ha'.
      pose proof (proj2 (He b) ltac:(left)) as Hb'.
      apply elem_of_cons in Ha' as [Ha'|Ha']; [done|].
      apply elem_of_cons in Hb' as [Hb'|Hb']; [done|].
      destruct (slt_asym _ _ (Ha _ Hb') (Hb _ Ha')). }
    f_equal. apply IH; [done|done|]. intros x. specialize (He x).
    rewrite !elem_of_cons in He. split; intros Hx.
    + destruct (proj1 He (or_intror Hx)) as [Hxb|]; [|done].
      subst x. destruct (slt_irrefl _ (Ha _ Hx)).
    + destruct (proj2 He (or_intror Hx)) as [Hxb|]; [|done].
      subst x. destruct (slt_irrefl _ (Hb _ Hx)).
Qed.
End Keyed.
#[export] Hint Resolve keys_sorted_nil : facts.

(** ** [sort.Search]

    The library's binary search: [i, j := 0, n] and, while [i < j], probe
    [h := (i + j) / 2]. [n] turns are enough. *)
Section Search.
Fixpoint search_loop (fuel : nat) (f : nat -> bool) (i j : nat) : nat :=
  match fuel with
  | O => i
  | S fuel' =>
      if i <? j then
        let h := (i + j) / 2 in
        if f h then search_loop fuel' f i h else search_loop fuel' f (S h) j
      else i
  end%nat.

Definition sort_Search (n : nat) (f : nat -> bool) : nat := search_loop n f 0 n.

Lemma search_loop_range fuel f i j :
  (i <= j)%nat -> (i <= search_loop fuel f i j <= j)%nat.
Proof.
  revert i j. induction fuel as [|fuel IH]; intros i j Hij; cbn [search_loop]; [lia|].
  destruct (i <? j)%nat eqn:E; [|lia]. apply Nat.ltb_lt in E.
  assert (i <= (i + j) / 2 < j)%nat as Hh.
  { split; [apply Nat.div_le_lower_bound; lia|apply Nat.Div0.div_lt_upper_bound; lia]. }
  destruct (f ((i + j) / 2)%nat).
  - specialize (IH i ((i + j) / 2)%nat ltac:(lia)). lia.
  - specialize (IH (S ((i + j) / 2)) j ltac:(lia)). lia.
Qed.

Lemma search_loop_spec fuel f i j :
  (j - i <= fuel)%nat -> (i <= j)%nat ->
  (forall a b, (a <= b)%nat -> f a = true -> f b = true) ->
  let r := search_loop fuel f i j in
  (forall k, (i <= k < r)%nat -> f k = false) /\ (forall k, (r <= k < j)%nat -> f k = true).
Proof.
  revert i j. induction fuel as [|fuel IH]; intros i j Hf Hij Hmono; cbn [search_loop]; [split; intros; lia|].
  destruct (i <? j)%nat eqn:E; [|apply Nat.ltb_ge in E; split; intros; lia].
  apply Nat.ltb_lt in E.
  assert (i <= (i + j) / 2 < j)%nat as Hh.
  { split; [apply Nat.div_le_lower_bound; lia|apply Nat.Div0.div_lt_upper_bound; lia]. }
  destruct (f ((i + j) / 2)%nat) eqn:Ef.
  - destruct (IH i ((i + j) / 2)%nat) as [H1 H2]; [lia|lia|done|]. split; [done|].
    intros k Hk. destruct (decide (k < (i + j) / 2)%nat); [apply H2; lia|].
    apply (Hmono ((i + j) / 2)%nat); [lia|done].
  - destruct (IH (S ((i + j) / 2)) j) as [H1 H2]; [lia|lia|done|]. split; [|done].
    intros k Hk. destruct (decide (S ((i + j) / 2) <= k)%nat); [apply H1; lia|].
    destruct (f k) eqn:Ek; [|done].
    rewrite (Hmono k ((i + j) / 2)%nat) in Ef; [done|lia|done].
Qed.

Lemma sort_Search_spec n f :
  (forall a b, (a <= b)%nat -> f a = true -> f b = true) ->
  (sort_Search n f <= n)%nat /\
  (forall k, (k < sort_Search n f)%nat -> f k = false) /\
  (forall k, (sort_Search n f <= k < n)%nat -> f k = true).
Proof.
  intros Hm. unfold sort_Search. pose proof (search_loop_range n f 0 n ltac:(lia)).
  destruct (search_loop_spec n f 0 n ltac:(lia) ltac:(lia) Hm) as [H1 H2].
  split; [lia|]. split; [intros; apply H1; lia|done].
Qed.
End Search.

(** [sort.Search] for the first row whose key is at least [p]. *)
Section SearchKey.
Context {A : Type} (key : A -> string).

Definition search_key (l : list A) (p : string) : nat :=
  sort_Search (length l)
    (fun i => match l !! i with Some x => negb (String.ltb (key x) p) | None => true end).

(** On ordered rows the index splits them at [p]. *)
Lemma search_key_split_weak l p :
  StronglySorted sle (key <$> l) ->
  exists l1 l2, l = l1 ++ l2 /\ length l1 = search_key l p /\
    Forall (fun x => slt (key x) p) l1 /\ Forall (fun x => sle p (key x)) l2.
Proof.
  intros Hs. unfold search_key.
  set (f := fun i => match l !! i with Some x => negb (String.ltb (key x) p) | None => true end).
  destruct (sort_Search_spec (length l) f) as (Hle & Hlt & Hge).
  { intros a b Hab. unfold f. destruct (l !! a) as [x|] eqn:Ea; destruct (l !! b) as [y|] eqn:Eb; try done.
    - intros Hx. apply negb_true_iff in Hx. apply negb_true_iff.
      destruct (decide (a = b)) as [->|]; [by rewrite Ea in Eb; simplify_eq|].
      assert (sle (key x) (key y)) as Hxy.
      { rewrite <- (take_drop (S a) l), fmap_app in Hs.
        apply StronglySorted_app in Hs as (Hs & _ & _). apply Hs.
        - apply list_elem_of_fmap. exists x. split; [done|].
          apply list_elem_of_lookup; exists a; by rewrite lookup_take_lt by lia.
        - apply list_elem_of_fmap. exists y. split; [done|].
          apply list_elem_of_lookup. exists (b - S a)%nat. rewrite lookup_drop.
          rewrite <- Eb. f_equal. lia. }
      by apply sle_trans with (key x).
    - apply lookup_ge_None_1 in Ea. apply lookup_lt_Some in Eb. lia. }
  exists (take (sort_Search (length l) f) l), (drop (sort_Search (length l) f) l).
  split; [by rewrite take_drop|]. split; [by rewrite length_take_le|]. split; apply Forall_forall.
  - intros x (k & Hk)%list_elem_of_lookup. pose proof (lookup_lt_Some _ _ _ Hk) as Hl.
    rewrite length_take in Hl. rewrite lookup_take_lt in Hk by lia.
    specialize (Hlt k ltac:(lia)). unfold f in Hlt. rewrite Hk in Hlt.
    by apply negb_false_iff in Hlt.
  - intros x (k & Hk)%list_elem_of_lookup. rewrite lookup_drop in Hk.
    pose proof (lookup_lt_Some _ _ _ Hk) as Hl.
    specialize (Hge (sort_Search (length l) f + k)%nat ltac:(lia)). unfold f in Hge.
    fold f in Hge. rewrite Hk in Hge. by apply negb_true_iff in Hge.
Qed.

Lemma keys_sorted_weak l : keys_sorted key l -> StronglySorted sle (key <$> l).
Proof.
  unfold keys_sorted. induction 1 as [|x l' Hl IH Hx]; constructor; [done|].
  eapply Forall_impl; [exact Hx|]. apply slt_le.
Qed.

Lemma search_key_split l p :
  keys_sorted key l ->
  exists l1 l2, l = l1 ++ l2 /\ length l1 = search_key l p /\
    Forall (fun x => slt (key x) p) l1 /\ Forall (fun x => sle p (key x)) l2.
Proof. intros H. by apply search_key_split_weak, keys_sorted_weak. Qed.

(** The library's idiom: search, then compare the key found. *)
Definition find_key (l : list A) (p : string) : option A :=
  match l !! search_key l p with
  | Some x => if String.eqb (key x) p then Some x else None
  | None => None
  end.

Lemma find_key_spec l p x :
  keys_sorted key l -> find_key l p = Some x <-> x ∈ l /\ key x = p.
Proof.
  intros Hs. unfold find_key.
  destruct (search_key_split l p Hs) as (l1 & l2 & -> & Hlen & H1 & H2).
  rewrite lookup_app_r by lia. rewrite Hlen, Nat.sub_diag.
  apply keys_sorted_app in Hs as (_ & Hs & _). rewrite Forall_forall in H1.
  assert (forall y, y ∈ l1 -> key y <> p) as Hne
    by (intros y Hy; apply slt_neq; by apply H1).
  destruct l2 as [|y l2]; simpl.
  { split; [done|]. rewrite app_nil_r. intros [Hin Hk]. by destruct (Hne x). }
  apply keys_sorted_cons in Hs as [_ Hy]. rewrite Forall_forall in Hy.
  apply Forall_cons in H2 as [Hpy _].
  destruct (String.eqb_spec (key y) p) as [E|E].
  - split; [intros; simplify_eq; split; [apply elem_of_app; right; left|done]|].
    intros [Hin Hk]. apply elem_of_app in Hin as [Hin|[->|Hin]%elem_of_cons]; [by destruct (Hne x)|done|].
    specialize (Hy _ Hin). rewrite E, Hk in Hy. by destruct (slt_irrefl p).
  - split; [done|]. intros [Hin Hk].
    apply elem_of_app in Hin as [Hin|[->|Hin]%elem_of_cons]; [by destruct (Hne x)|done|].
    specialize (Hy _ Hin). rewrite Hk in Hy.
    destruct (slt_irrefl p). by apply sle_lt_trans with (key y).
Qed.

Lemma find_key_None l p :
  keys_sorted key l -> find_key l p = None <-> p ∉ key <$> l.
Proof.
  intros Hs. rewrite list_elem_of_fmap. destruct (find_key l p) as [x|] eqn:E.
  - apply find_key_spec in E as [? ?]; [|done]. split; [done|]. intros []. eauto.
  - split; [|done]. intros _ (x & Hx & Hin).
    assert (find_key l p = Some x) by (by apply find_key_spec). congruence.
Qed.
End SearchKey.

(** ** Stability and slices *)

Lemma sort_insert_filter {A} (less : A -> A -> bool) (P : A -> Prop) `{!forall x, Decision (P x)} x l :
  (forall a b, P a -> P b -> less a b = false) ->
  filter P (sort_insert less x l) = filter P (x :: l).
Proof.
  intros HP. induction l as [|y l IH]; [done|]. simpl. destruct (less y x) eqn:E; [|done].
  rewrite filter_cons, IH. rewrite !filter_cons.
  destruct (decide (P x)), (decide (P y)); try done. by rewrite HP in E.
Qed.

(** The order of the rows a [less] cannot tell apart is kept. *)
Lemma sort_slice_stable {A} (less : A -> A -> bool) (P : A -> Prop) `{!forall x, Decision (P x)} l :
  (forall a b, P a -> P b -> less a b = false) ->
  filter P (sort_slice less l) = filter P l.
Proof.
  intros HP. induction l as [|x l IH]; [done|]. simpl.
  rewrite sort_insert_filter by done. rewrite !filter_cons, IH. done.
Qed.

(** [groups = append(groups, zero); copy(groups[i+1:], groups[i:]); groups[i] = x]. *)
Definition slice_insert {A} (i : nat) (x : A) (l : list A) : list A := take i l ++ x :: drop i l.

(** [copy(groups[i:], groups[i+1:]); groups = groups[:len(groups)-1]]. *)
Definition slice_remove {A} (i : nat) (l : list A) : list A := take i l ++ drop (S i) l.

Lemma slice_insert_split {A} (x : A) l1 l2 :
  slice_insert (length l1) x (l1 ++ l2) = l1 ++ x :: l2.
Proof. unfold slice_insert. by rewrite take_app_length, drop_app_length. Qed.

Lemma slice_remove_split {A} (x : A) l1 l2 :
  slice_remove (length l1) (l1 ++ x :: l2) = l1 ++ l2.
Proof.
  unfold slice_remove. rewrite take_app_length. f_equal.
  rewrite drop_app. rewrite drop_ge by lia.
  by replace (S (length l1) - length l1)%nat with 1%nat by lia.
Qed.

Lemma slice_remove_insert {A} i (x : A) l :
  (i <= length l)%nat -> slice_remove i (slice_insert i x l) = l.
Proof.
  intros Hi. rewrite <- (take_drop i l) at 2. rewrite <- (take_drop i l) at 1.
  assert (i = length (take i l)) as Hl by (by rewrite length_take_le).
  rewrite Hl at 1 2. rewrite slice_insert_split. by rewrite slice_remove_split.
Qed.

Lemma slice_insert_remove {A} i (x : A) l :
  l !! i = Some x -> slice_insert i x (slice_remove i l) = l.
Proof.
  intros Hi. pose proof (take_drop_middle _ _ _ Hi) as Hl.
  assert (i = length (take i l)) as Hlen by (rewrite length_take_le; [done|apply lookup_lt_Some in Hi; lia]).
  rewrite <- Hl at 2. rewrite <- Hl at 1.
  rewrite Hlen at 1 2. rewrite slice_remove_split. by rewrite slice_insert_split.
Qed.

(** ** Filters that keep nothing, or everything *)

Lemma filter_none {A} (P : A -> Prop) `{!forall x, Decision (P x)} l :
  Forall (fun x => ~ P x) l -> filter P l = [].
Proof.
  induction 1 as [|x l Hx _ IH]; [done|]. rewrite filter_cons. by rewrite decide_False.
Qed.

Lemma filter_all {A} (P : A -> Prop) `{!forall x, Decision (P x)} l :
  Forall P l -> filter P l = l.
Proof.
  induction 1 as [|x l Hx _ IH]; [done|]. rewrite filter_cons. by rewrite decide_True, IH.
Qed.

Lemma omap_ext_in {A B} (f g : A -> option B) (l : list A) :
  (forall x, x ∈ l -> f x = g x) -> omap f l = omap g l.
Proof.
  unfold omap. induction l as [|x l IH]; intros H; [done|]. simpl. rewrite (H x) by left.
  rewrite IH; [done|]. intros y Hy. apply H. by right.
Qed.

Lemma omap_cons_option {A B} (f : A -> option B) x (l : list A) :
  omap f (x :: l) = option_list (f x) ++ omap f l.
Proof. unfold omap. simpl. by destruct (f x). Qed.
