(* ===== verification/GoStd.v ===== *)
(** * The Go standard library the producer uses

    Machine integers, [encoding/binary] varints, [sort.Search],
    [filepath.Clean] (the Unix rules) and the UTF-8 routines of
    [unicode/utf8] and [strings.ToValidUTF8], as executable definitions.
    They model the language's own library, so no entry of the source map
    names them. *)

From S2P Require Import Prelude.
Open Scope Z_scope.

(** ** Machine integers *)

(** [lia] with [/] and [mod] by constants. *)
Ltac mlia := Z.to_euclidean_division_equations; lia.

Definition u64 (z : Z) : Z := z mod 2 ^ 64.
Definition i64 (z : Z) : Z := (z + 2 ^ 63) mod 2 ^ 64 - 2 ^ 63.
Definition i32 (z : Z) : Z := (z + 2 ^ 31) mod 2 ^ 32 - 2 ^ 31.
Definition u32 (z : Z) : Z := z mod 2 ^ 32.
Definition u16 (z : Z) : Z := z mod 2 ^ 16.
Definition u8 (z : Z) : Z := z mod 2 ^ 8.

Definition is_u64 (z : Z) : Prop := 0 <= z < 2 ^ 64.
Definition is_i64 (z : Z) : Prop := - 2 ^ 63 <= z < 2 ^ 63.

Lemma u64_range z : is_u64 (u64 z).
Proof. unfold is_u64, u64. mlia. Qed.

Lemma u64_id z : is_u64 z -> u64 z = z.
Proof. unfold is_u64, u64. mlia. Qed.

Lemma i64_range z : is_i64 (i64 z).
Proof. unfold is_i64, i64. mlia. Qed.

Lemma i64_id z : is_i64 z -> i64 z = z.
Proof. unfold is_i64, i64. mlia. Qed.

Lemma i32_id z : - 2 ^ 31 <= z < 2 ^ 31 -> i32 z = z.
Proof. unfold i32. mlia. Qed.

Lemma i64_u64 z : i64 (u64 z) = i64 z.
Proof. unfold i64, u64. mlia. Qed.

Lemma u64_i64 z : u64 (i64 z) = u64 z.
Proof. unfold i64, u64. mlia. Qed.

(** Addition modulo the width. *)
Lemma i64_add_congr a b c : i64 a = i64 b -> i64 (i64 (a + c)) = i64 (b + c).
Proof.
  intros H. assert (u64 a = u64 b) as Hu by (rewrite <- (u64_i64 a), H; apply u64_i64).
  rewrite i64_id by apply i64_range. rewrite <- (i64_u64 (a + c)), <- (i64_u64 (b + c)). f_equal.
  unfold u64 in *. by rewrite Z.add_mod, Hu, <- Z.add_mod by lia.
Qed.

#[export] Hint Resolve u64_range i64_range : facts.

(** [bit] of a boolean, and disjoint [|]. *)
Definition bool_bit (b : bool) : Z := if b then 1 else 0.

Lemma lor_shiftl_add a b n : 0 <= n -> 0 <= a < 2 ^ n -> 0 <= b -> Z.lor a (Z.shiftl b n) = a + b * 2 ^ n.
Proof.
  intros Hn Ha Hb. rewrite <- Z.shiftl_mul_pow2 by done. rewrite <- Z.add_lor_land.
  replace (Z.land a (Z.shiftl b n)) with 0; [lia|]. symmetry.
  apply Z.bits_inj'. intros k Hk. rewrite Z.land_spec, Z.bits_0.
  destruct (decide (k < n)).
  - rewrite (Z.shiftl_spec_low b) by lia. by rewrite andb_false_r.
  - rewrite <- (Z.mod_small a (2 ^ n)) by lia. by rewrite Z.mod_pow2_bits_high by lia.
Qed.

Lemma lor_bound n a b : 0 <= n -> 0 <= a < 2 ^ n -> 0 <= b < 2 ^ n -> 0 <= Z.lor a b < 2 ^ n.
Proof.
  intros Hn Ha Hb. enough (Z.lor a b = Z.lor a b mod 2 ^ n) as ->.
  { apply Z.mod_pos_bound. apply Z.pow_pos_nonneg; lia. }
  rewrite <- (Z.mod_small a (2 ^ n)), <- (Z.mod_small b (2 ^ n)) by lia.
  rewrite <- !Z.land_ones by lia. rewrite <- Z.land_lor_distr_l.
  by rewrite <- Z.land_assoc, Z.land_diag.
Qed.

(** [flags&bit != 0]. *)
Definition has_flag (flags bit : Z) : bool := negb (Z.land flags bit =? 0).

Lemma has_flag_bit flags k : 0 <= k -> has_flag flags (Z.shiftl 1 k) = Z.testbit flags k.
Proof.
  intros Hk. unfold has_flag. rewrite Z.shiftl_1_l.
  destruct (Z.testbit flags k) eqn:E.
  - apply negb_true_iff, Z.eqb_neq. intros H. apply (f_equal (fun z => Z.testbit z k)) in H.
    by rewrite Z.land_spec, E, Z.pow2_bits_true, Z.bits_0 in H by done.
  - apply negb_false_iff, Z.eqb_eq. apply Z.bits_inj'. intros n Hn.
    rewrite Z.land_spec, Z.bits_0. destruct (decide (n = k)) as [->|]; [by rewrite E|].
    by rewrite Z.pow2_bits_false, andb_false_r by done.
Qed.

(** [if b { flags |= bit }]. *)
Definition or_flag (b : bool) (bit flags : Z) : Z := if b then Z.lor flags bit else flags.

Lemma or_flag_bit b flags j k :
  0 <= j -> 0 <= k -> Z.testbit (or_flag b (Z.shiftl 1 j) flags) k =
  if j =? k then b || Z.testbit flags k else Z.testbit flags k.
Proof.
  intros Hj Hk. unfold or_flag. rewrite Z.shiftl_1_l. destruct b; [|by destruct (j =? k)].
  rewrite Z.lor_spec, Z.pow2_bits_eqb by done. destruct (j =? k); [by rewrite orb_true_r|].
  by rewrite orb_false_r.
Qed.

Lemma or_flag_range b flags j n :
  0 <= j < n -> 0 <= flags < 2 ^ n -> 0 <= or_flag b (Z.shiftl 1 j) flags < 2 ^ n.
Proof.
  intros Hj Hf. unfold or_flag. destruct b; [|done]. rewrite Z.shiftl_1_l.
  apply lor_bound; [lia|done|]. split; [apply Z.pow_nonneg; lia|apply Z.pow_lt_mono_r; lia].
Qed.

(** Reads one bit of a word built by [or_flag]; the caller unfolds the word. *)
Ltac or_flag_bits :=
  rewrite ?has_flag_bit by lia;
  repeat (rewrite or_flag_bit by lia; cbv beta iota delta [Z.eqb Pos.eqb]);
  rewrite ?Z.bits_0, ?orb_false_r; try done.

(** ** [encoding/binary] unsigned varints *)

Definition MaxVarintLen64 : nat := 10.

(** [for x >= 0x80 { append byte(x)|0x80; x >>= 7 }; append byte(x)]; a
    64-bit [x] takes at most nine turns. *)
Fixpoint uvarint_bytes (fuel : nat) (x : Z) : list Z :=
  match fuel with
  | O => [u8 x]
  | S fuel' =>
      if x <? 128 then [u8 x]
      else Z.lor (u8 x) 128 :: uvarint_bytes fuel' (Z.shiftr x 7)
  end.

Definition append_uvarint (buf : list Z) (x : Z) : list Z := buf ++ uvarint_bytes 9 x.

(** [binary.Uvarint]: the value and the count of bytes read; the count is 0
    when the buffer is too short, and negative on overflow. *)
Fixpoint uvarint_loop (i : nat) (x s : Z) (buf : list Z) : Z * Z :=
  match buf with
  | [] => (0, 0)
  | b :: buf' =>
      if Nat.eqb i MaxVarintLen64 then (0, - (Z.of_nat i + 1))
      else if b <? 128 then
        if (Nat.eqb i (MaxVarintLen64 - 1) && (1 <? b))%bool then (0, - (Z.of_nat i + 1))
        else (Z.lor x (u64 (Z.shiftl b s)), Z.of_nat i + 1)
      else uvarint_loop (S i) (Z.lor x (u64 (Z.shiftl (Z.land b 127) s))) (s + 7) buf'
  end.

Definition uvarint (buf : list Z) : Z * Z := uvarint_loop 0 0 0 buf.

Definition is_byte (b : Z) : Prop := 0 <= b < 256.

Lemma uvarint_bytes_byte fuel x : 0 <= x -> Forall is_byte (uvarint_bytes fuel x).
Proof.
  revert x. induction fuel as [|fuel IH]; intros x Hx; simpl.
  { repeat constructor; unfold u8; mlia. }
  destruct (x <? 128) eqn:E; [repeat constructor; unfold u8; mlia|constructor].
  - apply (lor_bound 8); [lia| |lia]. unfold u8. mlia.
  - apply IH. rewrite Z.shiftr_div_pow2 by lia. mlia.
Qed.

Lemma uvarint_bytes_nonempty fuel x : uvarint_bytes fuel x <> [].
Proof. destruct fuel; simpl; [done|]. by destruct (x <? 128). Qed.

Lemma uvarint_bytes_length fuel x : (1 <= length (uvarint_bytes fuel x) <= S fuel)%nat.
Proof.
  revert x. induction fuel as [|fuel IH]; intros x; simpl; [lia|].
  destruct (x <? 128); simpl; [lia|]. specialize (IH (Z.shiftr x 7)). lia.
Qed.

Lemma land_127_lor_128 x : 0 <= x -> Z.land (Z.lor (u8 x) 128) 127 = x mod 128.
Proof.
  intros Hx. rewrite Z.land_lor_distr_l. change (Z.land 128 127) with 0.
  rewrite Z.lor_0_r. change 127 with (Z.ones 7). rewrite Z.land_ones by lia.
  unfold u8. change (2 ^ 7) with 128. change (2 ^ 8) with (128 * 2).
  rewrite <- Znumtheory.Zmod_div_mod; [done|lia|lia|]. by exists 2.
Qed.

Lemma lor_128_ge x : 0 <= x -> 128 <= Z.lor (u8 x) 128.
Proof.
  intros Hx. rewrite Z.lor_comm. change 128 with (2 ^ 7).
  assert (0 <= Z.lor (2 ^ 7) (u8 x)) by (apply Z.lor_nonneg; unfold u8; mlia).
  destruct (Z.le_gt_cases (2 ^ 7) (Z.lor (2 ^ 7) (u8 x))) as [|Hlt]; [done|].
  assert (Z.testbit (Z.lor (2 ^ 7) (u8 x)) 7 = true) as Hb
    by (rewrite Z.lor_spec; apply orb_true_iff; by left).
  destruct (decide (Z.lor (2 ^ 7) (u8 x) = 0)) as [E|].
  { by rewrite E in Hb. }
  rewrite Z.bits_above_log2 in Hb; [done|lia|]. apply Z.log2_lt_pow2; lia.
Qed.

Lemma uvarint_loop_bytes fuel i x acc rest :
  (i + fuel = 9)%nat ->
  0 <= acc < 2 ^ (7 * Z.of_nat i) ->
  0 <= x < 2 ^ (64 - 7 * Z.of_nat i) ->
  uvarint_loop i acc (7 * Z.of_nat i) (uvarint_bytes fuel x ++ rest) =
  (acc + x * 2 ^ (7 * Z.of_nat i), Z.of_nat (i + length (uvarint_bytes fuel x))).
Proof.
  revert i x acc. induction fuel as [|fuel IH]; intros i x acc Hi Hacc Hx.
  { assert (i = 9%nat) as -> by lia. change (64 - 7 * Z.of_nat 9) with 1 in Hx. simpl.
    assert (u8 x = x) as -> by (unfold u8; mlia).
    replace (x <? 128) with true by (symmetry; apply Z.ltb_lt; lia).
    replace (1 <? x) with false by (symmetry; apply Z.ltb_ge; lia).
    rewrite u64_id, lor_shiftl_add; simpl in *; try lia; [done|].
    unfold is_u64. rewrite Z.shiftl_mul_pow2 by lia. lia. }
  assert (2 ^ 64 = 2 ^ (64 - 7 * Z.of_nat i) * 2 ^ (7 * Z.of_nat i)) as Hpow
    by (rewrite <- Z.pow_add_r by lia; f_equal; lia).
  assert (0 < 2 ^ (7 * Z.of_nat i)) as Hpos by (apply Z.pow_pos_nonneg; lia).
  assert (Nat.eqb i MaxVarintLen64 = false) as E10 by (apply Nat.eqb_neq; unfold MaxVarintLen64; lia).
  assert (Nat.eqb i (MaxVarintLen64 - 1) = false) as E9
    by (apply Nat.eqb_neq; unfold MaxVarintLen64; lia).
  cbn [uvarint_bytes]. destruct (x <? 128) eqn:E; cbn [app uvarint_loop]; rewrite E10.
  - apply Z.ltb_lt in E. assert (u8 x = x) as -> by (unfold u8; mlia).
    replace (x <? 128) with true by (symmetry; apply Z.ltb_lt; lia). rewrite E9. cbn [andb].
    rewrite u64_id, lor_shiftl_add by
      (try lia; unfold is_u64; rewrite Z.shiftl_mul_pow2 by lia; nia).
    f_equal. cbn [length]. lia.
  - apply Z.ltb_ge in E.
    pose proof (lor_128_ge x ltac:(lia)).
    replace (Z.lor (u8 x) 128 <? 128) with false by (symmetry; apply Z.ltb_ge; lia).
    rewrite land_127_lor_128 by lia.
    assert (2 ^ (7 * Z.of_nat (S i)) = 128 * 2 ^ (7 * Z.of_nat i)) as HS
      by (replace (7 * Z.of_nat (S i)) with (7 + 7 * Z.of_nat i) by lia;
          by rewrite Z.pow_add_r by lia).
    assert (2 ^ (64 - 7 * Z.of_nat i) = 128 * 2 ^ (64 - 7 * Z.of_nat (S i))) as HS'
      by (replace (64 - 7 * Z.of_nat i) with (7 + (64 - 7 * Z.of_nat (S i))) by lia;
          by rewrite Z.pow_add_r by lia).
    assert (0 <= x mod 128 < 128) as Hm by mlia.
    assert (x mod 128 <= x) as Hle by mlia.
    rewrite u64_id, lor_shiftl_add by
      (try lia; unfold is_u64; rewrite Z.shiftl_mul_pow2 by lia; nia).
    replace (7 * Z.of_nat i + 7) with (7 * Z.of_nat (S i)) by lia.
    rewrite Z.shiftr_div_pow2 by lia. change (2 ^ 7) with 128.
    pose proof (Z.div_mod x 128 ltac:(lia)) as Hdm.
    rewrite IH; [|lia|rewrite HS; nia|split; [apply Z.div_pos; lia|apply Z.div_lt_upper_bound; lia]].
    f_equal; [rewrite HS; nia|cbn [length]; lia].
Qed.

(** [Uvarint] reads back what [AppendUvarint] wrote, whatever follows. *)
Lemma uvarint_append x rest :
  is_u64 x ->
  uvarint (uvarint_bytes 9 x ++ rest) = (x, Z.of_nat (length (uvarint_bytes 9 x))).
Proof.
  intros Hx. unfold uvarint. pose proof (uvarint_loop_bytes 9 0 x 0 rest) as H.
  simpl (Z.of_nat 0) in H. rewrite Z.mul_0_r in H. rewrite H; [|done|lia|exact Hx].
  f_equal; lia.
Qed.

Lemma uvarint_loop_count i x s buf :
  (i <= 10)%nat -> snd (uvarint_loop i x s buf) <= Z.of_nat (i + length buf).
Proof.
  revert i x s. induction buf as [|b buf IH]; intros i x s Hi; simpl; [lia|].
  destruct (Nat.eqb i MaxVarintLen64) eqn:E10; simpl; [lia|].
  apply Nat.eqb_neq in E10. unfold MaxVarintLen64 in E10.
  destruct (b <? 128); [destruct (_ && _)%bool; simpl; lia|].
  etransitivity; [apply IH; lia|]. lia.
Qed.

Lemma lor_u64 a b : is_u64 a -> is_u64 b -> is_u64 (Z.lor a b).
Proof.
  unfold is_u64. intros. by apply lor_bound.
Qed.

Lemma uvarint_loop_u64 i x s buf : is_u64 x -> is_u64 (fst (uvarint_loop i x s buf)).
Proof.
  assert (is_u64 0) by (unfold is_u64; mlia).
  revert i x s. induction buf as [|b buf IH]; intros i x s Hx; simpl; [done|].
  destruct (Nat.eqb i MaxVarintLen64); [done|].
  destruct (b <? 128); [destruct (_ && _)%bool; [done|]|apply IH];
    apply lor_u64; auto with facts.
Qed.

Lemma uvarint_u64 buf : is_u64 (fst (uvarint buf)).
Proof. apply uvarint_loop_u64. unfold is_u64. mlia. Qed.

#[global] Arguments uvarint_bytes : simpl never.
#[global] Arguments uvarint_loop : simpl never.

(** ** Maps

    A map is ranged over in an order the language leaves open: a program is
    given some order of the entries and may not depend on which. *)
Class MapRange := {
  range_map {K : Type} `{Countable K} {V : Type} : gmap K V -> list (K * V);
  range_map_perm {K : Type} `{Countable K} {V : Type} (m : gmap K V) : range_map m ≡ₚ map_to_list m;
}.

(** Some order. *)
#[export] Instance storage_order : MapRange.
Proof. by refine {| range_map K _ _ V m := map_to_list m |}. Defined.

(** [for key := range set]. *)
Definition range_set `{MR : !MapRange} `{Countable K} (s : gset K) : list K :=
  (range_map (gset_to_gmap () s)).*1.

Lemma range_map_elem `{MR : !MapRange} `{Countable K} {V} (m : gmap K V) k v :
  (k, v) ∈ range_map m <-> m !! k = Some v.
Proof. rewrite range_map_perm. apply elem_of_map_to_list. Qed.

Lemma range_map_NoDup `{MR : !MapRange} `{Countable K} {V} (m : gmap K V) : NoDup (range_map m).*1.
Proof. rewrite range_map_perm. apply NoDup_fst_map_to_list. Qed.

Lemma range_set_elem `{MR : !MapRange} `{Countable K} (s : gset K) k : k ∈ range_set s <-> k ∈ s.
Proof.
  unfold range_set. rewrite list_elem_of_fmap. split.
  - intros ([k' u] & -> & Hk). by apply range_map_elem, lookup_gset_to_gmap_Some in Hk as [? _].
  - intros Hk. exists (k, ()). split; [done|]. by apply range_map_elem, lookup_gset_to_gmap_Some.
Qed.

Lemma range_set_NoDup `{MR : !MapRange} `{Countable K} (s : gset K) : NoDup (range_set s).
Proof. apply range_map_NoDup. Qed.
