(* ===== verification/GoText.v ===== *)
(** * Paths and text of the Go standard library

    [filepath.Clean] with the Unix separator, [strings.HasPrefix],
    [utf8.ValidString] and [strings.ToValidUTF8], as executable definitions,
    with the facts the retained state relies on: a clean path is a fixed point
    of [Clean], and [ToValidUTF8] is the identity exactly on valid text. *)

From S2P Require Import Prelude.

(** ** [filepath.Clean] *)

Definition slash : Ascii.ascii := Ascii.ascii_of_nat 47.

Fixpoint split_slash (s : string) : list string :=
  match s with
  | EmptyString => [EmptyString]
  | String c s' =>
      if Ascii.eqb c slash then EmptyString :: split_slash s'
      else match split_slash s' with
           | h :: t => String c h :: t
           | [] => [String c EmptyString]
           end
  end.

Fixpoint join_slash (l : list string) : string :=
  match l with
  | [] => EmptyString
  | [x] => x
  | x :: l' => x +:+ String slash (join_slash l')
  end.

(** One path element: drop [""] and ["."], let [".."] remove the element
    before it, and drop a [".."] that begins a rooted path. The stack holds
    the elements kept, the last one first. *)
Definition clean_step (rooted : bool) (stack : list string) (c : string) : list string :=
  if String.eqb c "" || String.eqb c "." then stack
  else if String.eqb c ".." then
    match stack with
    | [] => if rooted then [] else [".."]
    | t :: st => if String.eqb t ".." then ".." :: stack else st
    end
  else c :: stack.

Definition is_rooted (s : string) : bool :=
  match s with String c _ => Ascii.eqb c slash | EmptyString => false end.

Definition clean_stack (s : string) : list string :=
  foldl (clean_step (is_rooted s)) [] (split_slash s).

Definition Clean (s : string) : string :=
  let body := join_slash (rev (clean_stack s)) in
  if is_rooted s then String slash body
  else if String.eqb body "" then "." else body.

Example clean_examples :
  map Clean [""; "."; "a/b"; "a//b/./c/.."; "/.."; "../a/../.."; "/a/b/"; "a/.."] =
  ["."; "."; "a/b"; "a/b"; "/"; "../.."; "/a/b"; "."].
Proof. reflexivity. Qed.

Fixpoint no_slash (s : string) : bool :=
  match s with
  | EmptyString => true
  | String c s' => negb (Ascii.eqb c slash) && no_slash s'
  end.

(** What the elements of a clean path are: names, and [".."] only at the
    bottom of the stack of a relative path. *)
Definition plain (c : string) : Prop :=
  c <> "" /\ c <> "." /\ c <> ".." /\ no_slash c = true.

Definition stack_ok (rooted : bool) (st : list string) : Prop :=
  exists names n, st = names ++ replicate n ".." /\ Forall plain names /\
    (rooted = true -> n = 0).

Lemma split_slash_no_slash s : Forall (fun c => no_slash c = true) (split_slash s).
Proof.
  induction s as [|c s IH]; simpl; [by repeat constructor|].
  destruct (Ascii.eqb c slash) eqn:E; [by constructor|].
  destruct (split_slash s) as [|h t]; [repeat constructor; simpl; by rewrite E|].
  apply Forall_cons in IH as [Hh Ht]. constructor; [|done]. simpl. by rewrite E.
Qed.

Lemma split_slash_single s : no_slash s = true -> split_slash s = [s].
Proof.
  induction s as [|c s IH]; simpl; [done|]. intros H.
  apply andb_prop in H as [H1 H2]. apply negb_true_iff in H1. rewrite H1.
  by rewrite IH.
Qed.

Lemma split_slash_app s t :
  no_slash s = true -> split_slash (s +:+ String slash t) = s :: split_slash t.
Proof.
  induction s as [|c s IH]; intros H; [done|].
  simpl in H. apply andb_prop in H as [H1 H2]. apply negb_true_iff in H1.
  change (String c s +:+ String slash t) with (String c (s +:+ String slash t)).
  cbn [split_slash]. rewrite H1. by rewrite IH.
Qed.

Lemma split_join l :
  l <> [] -> Forall (fun c => no_slash c = true) l -> split_slash (join_slash l) = l.
Proof.
  induction l as [|x l IH]; [done|]. intros _ Hl. apply Forall_cons in Hl as [Hx Hl].
  destruct l as [|y l]; [by apply split_slash_single|].
  change (join_slash (x :: y :: l)) with (x +:+ String slash (join_slash (y :: l))).
  rewrite split_slash_app by done. by rewrite IH.
Qed.

Lemma clean_step_ok rooted st c :
  no_slash c = true -> stack_ok rooted st -> stack_ok rooted (clean_step rooted st c).
Proof.
  intros Hc (names & n & -> & Hn & Hr). unfold clean_step.
  destruct (String.eqb_spec c "") as [|E1]; [by exists names, n|].
  destruct (String.eqb_spec c ".") as [|E2]; [by exists names, n|]. simpl.
  destruct (String.eqb_spec c "..") as [|E3].
  - destruct names as [|t names]; simpl.
    + destruct n as [|n]; simpl.
      * destruct rooted; [by exists [], 0|]. exists [], 1. by repeat split.
      * exists [], (S (S n)). repeat split; [constructor|]. intros; by specialize (Hr ltac:(done)).
    + apply Forall_cons in Hn as [(?&?&Ht&?) Hn].
      destruct (String.eqb_spec t ".."); [done|]. by exists names, n.
  - exists (c :: names), n. repeat split; [constructor; [by repeat split|done]|done].
Qed.

Lemma clean_fold_ok rooted l st :
  Forall (fun c => no_slash c = true) l -> stack_ok rooted st ->
  stack_ok rooted (foldl (clean_step rooted) st l).
Proof.
  intros Hl. revert st. induction Hl as [|c l Hc Hl IH]; intros st Hst; [done|].
  simpl. by apply IH, clean_step_ok.
Qed.

Lemma clean_stack_ok s : stack_ok (is_rooted s) (clean_stack s).
Proof.
  apply clean_fold_ok; [apply split_slash_no_slash|]. exists [], 0. by repeat split.
Qed.

(** Feeding a well-formed stack back through the elements rebuilds it. *)
Lemma clean_fold_dots rooted n :
  (rooted = true -> n = 0) ->
  foldl (clean_step rooted) [] (replicate n "..") = replicate n "..".
Proof.
  intros Hr. assert (forall k m, (rooted = true -> m = 0) -> k = 0 \/ rooted = false ->
    foldl (clean_step rooted) (replicate k "..") (replicate m "..") = replicate (k + m) "..") as H.
  { intros k m. revert k. induction m as [|m IH]; intros k Hm Hk; simpl; [by rewrite Nat.add_0_r|].
    destruct rooted; [by specialize (Hm ltac:(done))|].
    replace (clean_step false (replicate k "..") "..") with (replicate (S k) "..") by (by destruct k).
    rewrite IH by (auto; done). f_equal. lia. }
  apply (H 0 n); auto.
Qed.

Lemma clean_fold_names rooted l st :
  Forall plain l -> foldl (clean_step rooted) st l = rev l ++ st.
Proof.
  intros Hl. revert st. induction Hl as [|c l (H1 & H2 & H3 & _) Hl IH]; intros st; [done|].
  simpl. rewrite IH. unfold clean_step.
  destruct (String.eqb_spec c ""); [done|]. destruct (String.eqb_spec c "."); [done|].
  destruct (String.eqb_spec c ".."); [done|]. simpl. by rewrite <- app_assoc.
Qed.

Lemma clean_fold_rebuild rooted st :
  stack_ok rooted st -> foldl (clean_step rooted) [] (rev st) = st.
Proof.
  intros (names & n & -> & Hn & Hr). rewrite rev_app_distr, foldl_app.
  replace (rev (replicate n "..")) with (replicate n "..")
    by (rewrite <- reverse_rev; by rewrite reverse_replicate).
  rewrite clean_fold_dots by done.
  rewrite clean_fold_names by (by rewrite <- reverse_rev, reverse_Permutation).
  by rewrite rev_involutive.
Qed.

Lemma stack_ok_parts rooted st c :
  stack_ok rooted st -> c ∈ st -> no_slash c = true /\ c <> "".
Proof.
  intros (names & n & -> & Hn & _) [Hin|Hin]%elem_of_app.
  - rewrite Forall_forall in Hn. by destruct (Hn _ Hin) as (?&?&?&?).
  - apply elem_of_replicate in Hin as [-> _]. done.
Qed.

Lemma join_slash_head x l : x <> "" -> no_slash x = true -> is_rooted (join_slash (x :: l)) = false /\ join_slash (x :: l) <> "".
Proof.
  intros Hx Hs. destruct x as [|c x]; [done|]. simpl in Hs.
  apply andb_prop in Hs as [Hc _]. apply negb_true_iff in Hc.
  split; destruct l; simpl; [exact Hc|exact Hc|discriminate|discriminate].
Qed.

(** A cleaned path is left alone: [Clean] is idempotent, so the retention key
    of a path is the path itself from the first cleaning on. *)
Lemma Clean_idempotent s : Clean (Clean s) = Clean s.
Proof.
  pose proof (clean_stack_ok s) as Hok.
  assert (Forall (fun c => no_slash c = true) (rev (clean_stack s))) as Hns.
  { apply Forall_forall. intros c Hc. rewrite <- reverse_rev in Hc.
    rewrite elem_of_reverse in Hc. exact (proj1 (stack_ok_parts _ _ _ Hok Hc)). }
  unfold Clean at 2 3. destruct (is_rooted s) eqn:Er.
  - assert (is_rooted (String slash (join_slash (rev (clean_stack s)))) = true) as Hr by done.
    unfold Clean. rewrite Hr. f_equal. f_equal. f_equal. unfold clean_stack at 1. rewrite Hr.
    cbn [split_slash]. rewrite Ascii.eqb_refl. simpl foldl.
    destruct (rev (clean_stack s)) as [|x l] eqn:Erev.
    + assert (clean_stack s = []) as -> by (rewrite <- (rev_involutive (clean_stack s)), Erev; done).
      done.
    + rewrite split_join by done. rewrite <- Erev. by apply clean_fold_rebuild.
  - destruct (rev (clean_stack s)) as [|x l] eqn:Erev; [done|].
    assert (x <> "" /\ no_slash x = true) as [Hx1 Hx2].
    { assert (x ∈ clean_stack s) as Hin
        by (apply elem_of_reverse; rewrite reverse_rev, Erev; left).
      destruct (stack_ok_parts _ _ _ Hok Hin). done. }
    destruct (join_slash_head x l Hx1 Hx2) as [Hr Hj].
    destruct (String.eqb_spec (join_slash (x :: l)) "") as [|_]; [done|].
    unfold Clean, clean_stack. rewrite Hr, split_join by done.
    assert (foldl (clean_step false) [] (x :: l) = clean_stack s) as ->
      by (rewrite <- Erev; by apply clean_fold_rebuild).
    rewrite Erev. by destruct (String.eqb_spec (join_slash (x :: l)) "").
Qed.
#[export] Hint Rewrite Clean_idempotent : facts.

Definition clean (s : string) : bool := String.eqb (Clean s) s.

Lemma clean_true s : clean s = true <-> Clean s = s.
Proof. unfold clean. by destruct (String.eqb_spec (Clean s) s). Qed.

(** ** UTF-8 *)

Definition byte_in (lo hi : N) (c : Ascii.ascii) : bool :=
  ((lo <=? Ascii.N_of_ascii c) && (Ascii.N_of_ascii c <=? hi))%N.

(** The bytes of the first rune when they are a valid encoding, and what
    follows; the acceptance ranges of [utf8.DecodeRuneInString]. *)
Definition take_rune (s : string) : option (string * string) :=
  match s with
  | EmptyString => None
  | String c0 s1 =>
      if byte_in 0 127 c0 then Some (String c0 "", s1)
      else if byte_in 194 223 c0 then
        match s1 with
        | String c1 s2 =>
            if byte_in 128 191 c1 then Some (String c0 (String c1 ""), s2) else None
        | _ => None
        end
      else if byte_in 224 239 c0 then
        let lo := if byte_in 224 224 c0 then 160%N else 128%N in
        let hi := if byte_in 237 237 c0 then 159%N else 191%N in
        match s1 with
        | String c1 (String c2 s3) =>
            if byte_in lo hi c1 && byte_in 128 191 c2
            then Some (String c0 (String c1 (String c2 "")), s3) else None
        | _ => None
        end
      else if byte_in 240 244 c0 then
        let lo := if byte_in 240 240 c0 then 144%N else 128%N in
        let hi := if byte_in 244 244 c0 then 143%N else 191%N in
        match s1 with
        | String c1 (String c2 (String c3 s4)) =>
            if byte_in lo hi c1 && byte_in 128 191 c2 && byte_in 128 191 c3
            then Some (String c0 (String c1 (String c2 (String c3 ""))), s4) else None
        | _ => None
        end
      else None
  end.

Lemma take_rune_spec s r rest :
  take_rune s = Some (r, rest) ->
  s = r +:+ rest /\ r <> "" /\ forall t, take_rune (r +:+ t) = Some (r, t).
Proof.
  unfold take_rune. destruct s as [|c0 s1]; [done|].
  destruct (byte_in 0 127 c0) eqn:E0; [intros; simplify_eq; simpl; by rewrite E0|].
  destruct (byte_in 194 223 c0) eqn:E1.
  { destruct s1 as [|c1 s2]; [done|]. destruct (byte_in 128 191 c1) eqn:F1; [|done].
    intros; simplify_eq; simpl. by rewrite E0, E1, F1. }
  destruct (byte_in 224 239 c0) eqn:E2.
  { destruct s1 as [|c1 [|c2 s3]]; [done|done|]. destruct (_ && _) eqn:F1; [|done].
    intros; simplify_eq; simpl. by rewrite E0, E1, E2, F1. }
  destruct (byte_in 240 244 c0) eqn:E3; [|done].
  destruct s1 as [|c1 [|c2 [|c3 s4]]]; [done|done|done|]. destruct (_ && _) eqn:F1; [|done].
  intros; simplify_eq; simpl. by rewrite E0, E1, E2, E3, F1.
Qed.

Lemma string_length_app (a b : string) : String.length (a +:+ b) = String.length a + String.length b.
Proof. induction a as [|c a IH]; [done|]. exact (f_equal S IH). Qed.

Lemma string_app_assoc (a b c : string) : a +:+ (b +:+ c) = (a +:+ b) +:+ c.
Proof. induction a as [|x a IH]; [done|]. exact (f_equal (String x) IH). Qed.

Lemma string_app_nil_r (a : string) : a +:+ "" = a.
Proof. induction a as [|x a IH]; [done|]. exact (f_equal (String x) IH). Qed.

Lemma take_rune_shorter s r rest :
  take_rune s = Some (r, rest) -> String.length rest < String.length s.
Proof.
  intros (-> & Hr & _)%take_rune_spec. rewrite string_length_app.
  destruct r; [done|]. simpl. lia.
Qed.

(** [utf8.ValidString]; the length of the text is enough fuel. *)
Fixpoint valid_loop (fuel : nat) (s : string) : bool :=
  match s, fuel with
  | EmptyString, _ => true
  | _, O => false
  | _, S fuel' =>
      match take_rune s with Some (_, rest) => valid_loop fuel' rest | None => false end
  end.
Definition ValidString (s : string) : bool := valid_loop (String.length s) s.

(** [strings.ToValidUTF8]: each run of invalid bytes becomes one
    replacement. *)
Fixpoint to_valid_loop (fuel : nat) (invalid : bool) (repl s : string) : string :=
  match s, fuel with
  | EmptyString, _ => ""
  | _, O => ""
  | String _ s', S fuel' =>
      match take_rune s with
      | Some (r, rest) => r +:+ to_valid_loop fuel' false repl rest
      | None => (if invalid then "" else repl) +:+ to_valid_loop fuel' true repl s'
      end
  end.
Definition ToValidUTF8 (s repl : string) : string := to_valid_loop (String.length s) false repl s.

Lemma valid_loop_fuel n m s :
  String.length s <= n -> String.length s <= m -> valid_loop n s = valid_loop m s.
Proof.
  revert m s. induction n as [|n IH]; intros m s Hn Hm.
  { destruct s; simpl in Hn; [by destruct m|lia]. }
  destruct s as [|c s]; [by destruct m|]. destruct m as [|m]; [simpl in Hm; lia|].
  change (match take_rune (String c s) with Some (_, rest) => valid_loop n rest | None => false end
        = match take_rune (String c s) with Some (_, rest) => valid_loop m rest | None => false end).
  destruct (take_rune (String c s)) as [[r rest]|] eqn:E; [|done].
  apply take_rune_shorter in E. simpl in Hn, Hm, E. apply IH; lia.
Qed.

Lemma ValidString_step c s :
  ValidString (String c s) =
  match take_rune (String c s) with Some (_, rest) => ValidString rest | None => false end.
Proof.
  unfold ValidString at 1. simpl String.length. cbn [valid_loop].
  destruct (take_rune (String c s)) as [[r rest]|] eqn:E; [|done].
  apply take_rune_shorter in E. simpl in E. unfold ValidString. apply valid_loop_fuel; lia.
Qed.

Lemma ValidString_rune r rest t :
  take_rune (r +:+ rest) = Some (r, rest) -> ValidString (r +:+ t) = ValidString t.
Proof.
  intros (_ & Hr & Hall)%take_rune_spec. specialize (Hall t).
  destruct r as [|c r]; [done|].
  change (String c r +:+ t) with (String c (r +:+ t)) in *.
  rewrite ValidString_step. by rewrite Hall.
Qed.

Lemma ValidString_app a b : ValidString a = true -> ValidString b = true -> ValidString (a +:+ b) = true.
Proof.
  remember (String.length a) as n eqn:Hn. revert a Hn.
  induction n as [n IH] using lt_wf_ind. intros a -> Ha Hb. destruct a as [|c a]; [done|].
  rewrite ValidString_step in Ha.
  destruct (take_rune (String c a)) as [[r rest]|] eqn:E; [|done].
  pose proof (take_rune_shorter _ _ _ E) as Hs. pose proof E as (Heq & _ & _)%take_rune_spec.
  rewrite Heq, <- string_app_assoc. erewrite ValidString_rune by (rewrite <- Heq; exact E).
  by eapply IH.
Qed.

Lemma to_valid_loop_id fuel inv repl s :
  String.length s <= fuel -> ValidString s = true -> to_valid_loop fuel inv repl s = s.
Proof.
  revert inv s. induction fuel as [|fuel IH]; intros inv s Hl Hv.
  { destruct s; [done|simpl in Hl; lia]. }
  destruct s as [|c s]; [done|]. rewrite ValidString_step in Hv. cbn [to_valid_loop].
  destruct (take_rune (String c s)) as [[r rest]|] eqn:E; [|done].
  pose proof (take_rune_shorter _ _ _ E) as Hs. simpl in Hs, Hl.
  rewrite IH; [|lia|done]. by apply take_rune_spec in E as [-> _].
Qed.

(** Valid text is left alone. *)
Lemma ToValidUTF8_id s repl : ValidString s = true -> ToValidUTF8 s repl = s.
Proof. intros. by apply to_valid_loop_id. Qed.

Lemma to_valid_loop_valid fuel inv repl s :
  ValidString repl = true -> ValidString (to_valid_loop fuel inv repl s) = true.
Proof.
  intros Hr. revert inv s. induction fuel as [|fuel IH]; intros inv s; [by destruct s|].
  destruct s as [|c s]; [done|]. cbn [to_valid_loop].
  destruct (take_rune (String c s)) as [[r rest]|] eqn:E.
  - apply ValidString_app; [|apply IH].
    pose proof (take_rune_spec _ _ _ E) as (_ & _ & Hall).
    rewrite <- (string_app_nil_r r). erewrite ValidString_rune by apply (Hall ""). done.
  - apply ValidString_app; [by destruct inv|apply IH].
Qed.

(** The output of [ToValidUTF8] is valid when the replacement is. *)
Lemma ToValidUTF8_valid s repl : ValidString repl = true -> ValidString (ToValidUTF8 s repl) = true.
Proof. apply to_valid_loop_valid. Qed.

(** ["\uFFFD"]: the bytes EF BF BD. *)
Definition replacement_char : string :=
  String (Ascii.ascii_of_nat 239) (String (Ascii.ascii_of_nat 191) (String (Ascii.ascii_of_nat 189) "")).

Lemma replacement_char_valid : ValidString replacement_char = true.
Proof. reflexivity. Qed.
#[export] Hint Resolve replacement_char_valid : facts.

Example to_valid_example :
  ToValidUTF8 (String (Ascii.ascii_of_nat 255) (String (Ascii.ascii_of_nat 254) "a")) "?" = "?a".
Proof. reflexivity. Qed.
