(* ===== verification/GoPath.v ===== *)
(** * Paths of the Go standard library, continued

    [filepath.Dir], [filepath.Base] and [filepath.Rel] with the Unix
    separator, and what they are on rooted clean paths, which are lists of
    plain names ([abs]). *)

From S2P Require Import Prelude GoText.

(** Everything before the last separator, cleaned. *)
Definition Dir (path : string) : string := Clean (join_slash (removelast (split_slash path) ++ [""])).

(** The last element; an empty path is ["."] and separators alone ["/"]. *)
Definition Base (path : string) : string :=
  if String.eqb path "" then "."
  else default "/" (last (filter (fun c => c <> "") (split_slash path))).

(** The elements [filepath.Rel] walks over. *)
Definition rel_elements (path : string) : list string :=
  if String.eqb path "" then [] else if String.eqb path "/" then [""] else split_slash path.

Fixpoint drop_common (b t : list string) : list string * list string :=
  match b, t with
  | x :: b', y :: t' => if String.eqb x y then drop_common b' t' else (b, t)
  | _, _ => (b, t)
  end.

(** [None] for an error. *)
Definition Rel (basepath targpath : string) : option string :=
  let base := Clean basepath in
  let targ := Clean targpath in
  if String.eqb targ base then Some "."
  else
    let base := if String.eqb base "." then "" else base in
    if negb (Bool.eqb (is_rooted base) (is_rooted targ)) then None
    else
      let '(b, t) := drop_common (rel_elements base) (rel_elements targ) in
      match b with
      | [] => Some (join_slash t)
      | x :: _ => if String.eqb x ".." then None else Some (join_slash (replicate (length b) ".." ++ t))
      end.

Example rel_examples :
  [Rel "/a/b" "/a/b/c/d"; Rel "/a/b" "/a/c"; Rel "/" "/a"; Rel "/a" "/a"; Rel "/a/b" "/a"; Rel "." "a"; Rel "../a" "b"; Rel "/a" "b"] =
  [Some "c/d"; Some "../c"; Some "a"; Some "."; Some ".."; Some "a"; None; None].
Proof. reflexivity. Qed.

(** ** Prefixes *)

Lemma prefix_rest p s : String.prefix p s = true -> exists r, s = p +:+ r.
Proof.
  revert s. induction p as [|c p IH]; intros s; [by exists s|]. destruct s as [|d s]; [done|]. cbn [String.prefix].
  destruct (Ascii.ascii_dec c d) as [->|]; [|done]. intros H. destruct (IH s H) as [r ->]. by exists r.
Qed.

Lemma prefix_self p r : String.prefix p (p +:+ r) = true.
Proof.
  induction p as [|c p IH]; [by destruct r|]. change (String c p +:+ r) with (String c (p +:+ r)). cbn [String.prefix].
  by destruct (Ascii.ascii_dec c c).
Qed.

(** ** Rooted clean paths *)

Definition abs (names : list string) : string := String slash (join_slash names).

Lemma plain_no_slash names : Forall plain names -> Forall (fun c => no_slash c = true) names.
Proof. intros H. eapply Forall_impl; [exact H|]. by intros c (?&?&?&?). Qed.

Lemma plain_nonempty names : Forall plain names -> Forall (fun c => c <> "") names.
Proof. intros H. eapply Forall_impl; [exact H|]. by intros c (?&?&?&?). Qed.

Lemma split_abs names : names <> [] -> Forall plain names -> split_slash (abs names) = "" :: names.
Proof.
  intros Hn Hp. unfold abs. cbn [split_slash]. rewrite Ascii.eqb_refl. f_equal. apply split_join; [done|by apply plain_no_slash].
Qed.

Lemma clean_stack_abs names : Forall plain names -> clean_stack (abs names) = rev names.
Proof.
  intros Hp. destruct names as [|x names]; [done|]. unfold clean_stack. rewrite split_abs by done.
  change (is_rooted (abs (x :: names))) with true.
  change (foldl (clean_step true) [] ("" :: x :: names)) with (foldl (clean_step true) [] (x :: names)).
  by rewrite clean_fold_names, app_nil_r.
Qed.

Lemma Clean_abs names : Forall plain names -> Clean (abs names) = abs names.
Proof. intros Hp. unfold Clean. change (is_rooted (abs names)) with true. by rewrite clean_stack_abs, rev_involutive. Qed.

Lemma Clean_rooted path : is_rooted path = true -> exists names, Clean path = abs names /\ Forall plain names.
Proof.
  intros Hr. exists (rev (clean_stack path)). unfold Clean. rewrite Hr. split; [done|].
  destruct (clean_stack_ok path) as (names & n & -> & Hn & H0). rewrite (H0 Hr). simpl. rewrite app_nil_r.
  by rewrite <- reverse_rev, reverse_Permutation.
Qed.

Lemma join_slash_inj a b : a <> [] -> b <> [] -> Forall (fun c => no_slash c = true) a -> Forall (fun c => no_slash c = true) b ->
  join_slash a = join_slash b -> a = b.
Proof. intros Ha Hb H1 H2 H. rewrite <- (split_join a), <- (split_join b) by done. by rewrite H. Qed.

Lemma join_plain_nonempty names : names <> [] -> Forall plain names -> join_slash names <> "".
Proof.
  destruct names as [|x names]; [done|]. intros _ Hp. apply Forall_cons in Hp as [(H1 & _ & _ & H4) _].
  by apply join_slash_head.
Qed.

Lemma abs_inj a b : Forall plain a -> Forall plain b -> abs a = abs b -> a = b.
Proof.
  intros Ha Hb H. injection H as H. destruct a as [|x a], b as [|y b]; [done| | |].
  - symmetry in H. by apply join_plain_nonempty in H.
  - by apply join_plain_nonempty in H.
  - apply join_slash_inj; auto using plain_no_slash.
Qed.

Lemma Dir_abs names c : Forall plain names -> plain c -> Dir (abs (names ++ [c])) = abs names.
Proof.
  intros Hp Hc. unfold Dir. rewrite split_abs; [|by destruct names|by apply Forall_app; auto].
  change ("" :: names ++ [c]) with (("" :: names) ++ [c]). rewrite removelast_last.
  destruct names as [|x names]; [done|]. change ((("" :: x :: names) ++ [""])) with ("" :: (x :: names) ++ [""]).
  change (join_slash ("" :: (x :: names) ++ [""])) with (String slash (join_slash ((x :: names) ++ [""]))).
  unfold Clean. cbn [is_rooted]. rewrite Ascii.eqb_refl. unfold abs. f_equal. f_equal.
  unfold clean_stack. cbn [is_rooted split_slash]. rewrite Ascii.eqb_refl.
  rewrite split_join; [|done|apply Forall_app; split; [by apply plain_no_slash|by repeat constructor]].
  change (foldl (clean_step true) [] ("" :: (x :: names) ++ [""])) with (foldl (clean_step true) [] ((x :: names) ++ [""])).
  rewrite foldl_app, (clean_fold_names true (x :: names)) by done.
  cbn [foldl]. change (clean_step true (rev (x :: names) ++ []) "") with (rev (x :: names) ++ []). by rewrite app_nil_r, rev_involutive.
Qed.

Lemma Base_abs names c : Forall plain names -> plain c -> Base (abs (names ++ [c])) = c.
Proof.
  intros Hp Hc. unfold Base. change (String.eqb (abs (names ++ [c])) "") with false. cbn iota.
  rewrite split_abs; [|by destruct names|by apply Forall_app; auto].
  rewrite filter_cons, decide_False by naive_solver. rewrite filter_all, last_snoc; [done|].
  apply Forall_app. split; [by apply plain_nonempty|]. destruct Hc. by repeat constructor.
Qed.

Lemma rel_elements_abs names : Forall plain names -> rel_elements (abs names) = "" :: names.
Proof.
  intros Hp. unfold rel_elements. change (String.eqb (abs names) "") with false. cbn iota.
  destruct names as [|x names]; [done|]. destruct (String.eqb_spec (abs (x :: names)) "/") as [E|_]; [|by apply split_abs].
  injection E as E. by destruct (join_plain_nonempty (x :: names) ltac:(done) Hp E).
Qed.

Lemma drop_common_spec b t : let '(b', t') := drop_common b t in
  exists common, b = common ++ b' /\ t = common ++ t'.
Proof.
  revert t. induction b as [|x b IH]; intros [|y t]; simpl; try (by exists []).
  destruct (String.eqb_spec x y) as [->|]; [|by exists []]. specialize (IH t). destruct (drop_common b t) as [b' t'].
  destruct IH as (l & -> & ->). by exists (y :: l).
Qed.

Lemma drop_common_prefix b t : drop_common b (b ++ t) = ([], t).
Proof. induction b as [|x b IH]; simpl; [by destruct t|]. by rewrite String.eqb_refl. Qed.

(** What is left to name of a path below a directory. *)
Lemma Rel_below names rest : Forall plain names -> Forall plain rest -> rest <> [] ->
  Rel (abs names) (abs (names ++ rest)) = Some (join_slash rest).
Proof.
  intros Hn Hr Hne. assert (Forall plain (names ++ rest)) by (by apply Forall_app). unfold Rel. rewrite !Clean_abs by done.
  destruct (String.eqb_spec (abs (names ++ rest)) (abs names)) as [E|_].
  { apply abs_inj in E; [|done..]. rewrite <- (app_nil_r names) in E at 2. by apply app_inv_head in E. }
  change (String.eqb (abs names) ".") with false. cbn iota. change (is_rooted (abs names)) with true.
  change (is_rooted (abs (names ++ rest))) with true. cbn [Bool.eqb negb]. rewrite !rel_elements_abs by done.
  change ("" :: names ++ rest) with (("" :: names) ++ rest). by rewrite drop_common_prefix.
Qed.

(** A path that is not below a directory is the directory, or leads up first. *)
Lemma Rel_not_below names path : Forall plain names -> Forall plain path ->
  (forall rest, rest <> [] -> path <> names ++ rest) ->
  Rel (abs names) (abs path) = Some "." \/ Rel (abs names) (abs path) = Some ".." \/
  exists s, Rel (abs names) (abs path) = Some ("../" +:+ s).
Proof.
  intros Hn Hp Hnot. unfold Rel. rewrite !Clean_abs by done.
  destruct (String.eqb_spec (abs path) (abs names)) as [E|Hne]; [by left|]. right.
  change (String.eqb (abs names) ".") with false. cbn iota. change (is_rooted (abs names)) with true.
  change (is_rooted (abs path)) with true. cbn [Bool.eqb negb]. rewrite !rel_elements_abs by done.
  change (drop_common ("" :: names) ("" :: path)) with (drop_common names path).
  pose proof (drop_common_spec names path) as H. destruct (drop_common _ _) as [b t].
  destruct H as (l & Hb & Ht). destruct b as [|x b].
  { exfalso. rewrite app_nil_r in Hb. subst l. destruct t as [|y t]; [rewrite app_nil_r in Ht; congruence|]. by apply (Hnot (y :: t)). }
  assert (plain x) as (_ & _ & Hx & _).
  { rewrite Hb in Hn. apply Forall_app in Hn as [_ Hn]. by apply Forall_cons in Hn as [? _]. }
  destruct (String.eqb_spec x ".."); [done|]. destruct b as [|y b]; simpl.
  - destruct t as [|z t]; [by left|right]. by eexists.
  - right. by eexists.
Qed.
