(* ===== verification/GoSha.v ===== *)
(** * [crypto/sha256]

    The digest the source identities are built from (FIPS 180-4), executable;
    it models the language's own library. *)

From S2P Require Import Prelude GoStd.
Open Scope Z_scope.

Module Sha256.
(** The primes below 312 by trial division, the first sixty-four. *)
Definition is_prime (n : nat) : bool :=
  forallb (fun d => negb (Nat.modulo n d =? 0)%nat) (List.seq 2 (n - 2)).
Definition primes : list Z :=
  Eval vm_compute in map Z.of_nat (List.filter is_prime (List.seq 2 310)).

(** The integer cube root, bit by bit from the top. *)
Fixpoint cube_root (n : nat) (r x : Z) : Z :=
  match n with
  | O => r
  | S n' =>
      let r' := r + 2 ^ Z.of_nat n' in
      cube_root n' (if r' * r' * r' <=? x then r' else r) x
  end.

(** The first 32 bits of the fractional parts of the primes' cube roots, and,
    of the first eight, square roots. *)
Definition round_constants : list Z :=
  Eval vm_compute in map (fun p => u32 (cube_root 36 0 (p * 2 ^ 96))) primes.
Definition initial_hash : list Z :=
  Eval vm_compute in map (fun p => u32 (Z.sqrt (p * 2 ^ 64))) (take 8 primes).

Definition add32 (a b : Z) : Z := u32 (a + b).
Definition rotr (n x : Z) : Z := Z.lor (Z.shiftr x n) (u32 (Z.shiftl x (32 - n))).
Definition not32 (x : Z) : Z := 2 ^ 32 - 1 - x.
Definition ch (x y z : Z) : Z := Z.lxor (Z.land x y) (Z.land (not32 x) z).
Definition maj (x y z : Z) : Z := Z.lxor (Z.lxor (Z.land x y) (Z.land x z)) (Z.land y z).
Definition big_sigma0 (x : Z) : Z := Z.lxor (Z.lxor (rotr 2 x) (rotr 13 x)) (rotr 22 x).
Definition big_sigma1 (x : Z) : Z := Z.lxor (Z.lxor (rotr 6 x) (rotr 11 x)) (rotr 25 x).
Definition small_sigma0 (x : Z) : Z := Z.lxor (Z.lxor (rotr 7 x) (rotr 18 x)) (Z.shiftr x 3).
Definition small_sigma1 (x : Z) : Z := Z.lxor (Z.lxor (rotr 17 x) (rotr 19 x)) (Z.shiftr x 10).

Definition word_be (b : list Z) : Z := foldl (fun acc x => acc * 256 + x) 0 b.
Definition bytes_be (n : nat) (w : Z) : list Z :=
  map (fun i => u8 (Z.shiftr w (8 * Z.of_nat i))) (rev (List.seq 0 n)).

(** The message, the byte 0x80, zeros, and the 64-bit length in bits. *)
Definition pad (msg : list Z) : list Z :=
  let zeros := Z.to_nat ((55 - Z.of_nat (length msg)) mod 64) in
  msg ++ [128] ++ replicate zeros 0 ++ bytes_be 8 (u64 (8 * Z.of_nat (length msg))).

Fixpoint chunks (fuel n : nat) (l : list Z) : list (list Z) :=
  match fuel, l with
  | O, _ | _, [] => []
  | S fuel', _ => take n l :: chunks fuel' n (drop n l)
  end.

(** The message schedule, the last word first. *)
Fixpoint schedule (n : nat) (w : list Z) : list Z :=
  match n with
  | O => w
  | S n' =>
      let get i := default 0 (w !! i) in
      let next := add32 (add32 (small_sigma1 (get 1%nat)) (get 6%nat))
                        (add32 (small_sigma0 (get 14%nat)) (get 15%nat)) in
      schedule n' (next :: w)
  end.

Definition round (st : list Z) (kw : Z * Z) : list Z :=
  match st with
  | [a; b; c; d; e; f; g; h] =>
      let t1 := add32 (add32 (add32 h (big_sigma1 e)) (add32 (ch e f g) (fst kw))) (snd kw) in
      let t2 := add32 (big_sigma0 a) (maj a b c) in
      [add32 t1 t2; a; b; c; add32 d t1; e; f; g]
  | _ => st
  end.

Definition compress (hash block : list Z) : list Z :=
  let words := map word_be (chunks 16 4 block) in
  let w := rev (schedule 48 (rev words)) in
  zip_with add32 hash (foldl round hash (zip round_constants w)).

Definition Sum256 (msg : list Z) : list Z :=
  let padded := pad msg in
  concat (map (bytes_be 4) (foldl compress initial_hash (chunks (length padded) 64 padded))).

(** The test vector of the standard for the message "abc". *)
Example sum_abc :
  word_be (Sum256 [97; 98; 99]) = 0xba7816bf8f01cfea414140de5dae2223b00361a396177a9cb410ff61f20015ad.
Proof. vm_compute. reflexivity. Qed.

Lemma add32_range a b : 0 <= add32 a b < 2 ^ 32.
Proof. unfold add32, u32. mlia. Qed.

Lemma round_length st kw : length (round st kw) = length st.
Proof. by do 9 (destruct st as [|? st]; [done|]). Qed.

Lemma rounds_length l st : length (foldl round st l) = length st.
Proof. revert st. induction l as [|x l IH]; intros st; [done|]. simpl. by rewrite IH, round_length. Qed.

Lemma compress_length hash block : length (compress hash block) = length hash.
Proof. unfold compress. rewrite length_zip_with, rounds_length. lia. Qed.

Lemma compress_all_length bs hash : length (foldl compress hash bs) = length hash.
Proof. revert hash. induction bs as [|b bs IH]; intros hash; [done|]. simpl. by rewrite IH, compress_length. Qed.

(** A digest is [sha256.Size] bytes. *)
Lemma Sum256_length msg : length (Sum256 msg) = 32%nat.
Proof.
  unfold Sum256. cbv zeta.
  set (h := foldl compress _ _). assert (length h = 8%nat) as Hh by apply compress_all_length.
  do 8 (destruct h as [|? h]; [done|]). by destruct h.
Qed.
End Sha256.
