(* ===== verification/SortedPaths.v ===== *)
(** * Sorted path lists

    The in-place removal of adjacent duplicates that [session_demands.go]
    ([compactSortedPaths]), [wire_transition_diff.go]
    ([sortUniqueWireTransitionPaths]) and [retained_contributions.go] write out
    in the same way: a read index over the slice and a write index behind it,
    in one shared array. *)

From S2P Require Import Prelude GoText.

(** One pass from the read index [i]: [n] rows are left to read. *)
Fixpoint compact_loop (n i write : nat) (paths : list string) : list string * nat :=
  match n with
  | O => (paths, write)
  | S n' =>
      match paths !! i with
      | None => (paths, write)
      | Some path =>
          if negb (Nat.eqb write 0) &&
             match paths !! (write - 1) with Some q => String.eqb q path | None => false end
          then compact_loop n' (S i) write paths
          else compact_loop n' (S i) (S write) (<[write := path]> paths)
      end
  end.

Definition compactSortedPaths (paths : list string) : list string :=
  let '(paths, write) := compact_loop (length paths) 0 0 paths in
  take write paths.

(** [sort.Strings] first, then the same pass. *)
Definition sort_Strings (paths : list string) : list string := sort_slice String.ltb paths.

Definition sortUniqueWireTransitionPaths (paths : list string) : list string :=
  let paths := sort_Strings paths in
  let '(paths, write) := compact_loop (length paths) 0 0 paths in
  take write paths.

(** The functional reading: drop a row equal to the one kept before it. *)
Definition dedup_step (acc : list string) (x : string) : list string :=
  match last acc with
  | Some y => if String.eqb y x then acc else acc ++ [x]
  | None => acc ++ [x]
  end.
Definition dedup (l : list string) : list string := foldl dedup_step [] l.

Lemma compact_loop_spec n i write paths todo :
  drop i paths = todo -> n = length todo -> (write <= i)%nat ->
  let '(paths', write') := compact_loop n i write paths in
  take write' paths' = foldl dedup_step (take write paths) todo.
Proof.
  revert i write paths todo. induction n as [|n IH]; intros i write paths todo Ht Hn Hw.
  { destruct todo; [done|]. simpl in Hn. lia. }
  destruct todo as [|x todo]; [simpl in Hn; lia|]. cbn [compact_loop].
  assert (paths !! i = Some x) as Hi.
  { rewrite <- (Nat.add_0_r i), <- lookup_drop, Ht. done. }
  assert (drop (S i) paths = todo) as Ht'.
  { rewrite <- Nat.add_1_r, <- drop_drop, Ht. done. }
  rewrite Hi. pose proof (lookup_lt_Some _ _ _ Hi) as Hlt.
  assert (last (take write paths) = if decide (write = 0) then None else paths !! (write - 1)) as Hlast.
  { destruct (decide (write = 0)) as [->|]; [done|].
    rewrite last_lookup, length_take_le by lia.
    replace (pred write) with (write - 1) by lia. rewrite lookup_take_lt by lia. done. }
  cbn [foldl]. unfold dedup_step at 2. rewrite Hlast.
  assert (forall acc, take (S write) (<[write := x]> paths) = acc ++ [x] <-> acc = take write paths) as Hins.
  { intros acc. rewrite (take_S_r _ _ x) by (by apply list_lookup_insert_eq; lia).
    rewrite take_insert_ge by lia. split; [intros H; apply app_inj_tail in H; symmetry; apply H|by intros ->]. }
  destruct (Nat.eqb_spec write 0) as [->|Hne]; simpl negb; cbn [andb].
  - rewrite decide_True by done.
    specialize (IH (S i) 1 (<[0 := x]> paths) todo).
    destruct (compact_loop n (S i) 1 _). rewrite IH; [|rewrite drop_insert_lt by lia; done|simpl in Hn; lia|lia].
    f_equal. by apply Hins.
  - rewrite decide_False by done.
    destruct (paths !! (write - 1)) as [y|] eqn:Ey; [|apply lookup_ge_None in Ey; lia].
    destruct (String.eqb y x).
    + specialize (IH (S i) write paths todo). destruct (compact_loop n (S i) write _).
      apply IH; [done|simpl in Hn; lia|lia].
    + specialize (IH (S i) (S write) (<[write := x]> paths) todo).
      destruct (compact_loop n (S i) (S write) _).
      rewrite IH; [|rewrite drop_insert_lt by lia; done|simpl in Hn; lia|lia].
      f_equal. by apply Hins.
Qed.

Lemma compactSortedPaths_dedup paths : compactSortedPaths paths = dedup paths.
Proof.
  unfold compactSortedPaths, dedup.
  pose proof (compact_loop_spec (length paths) 0 0 paths paths eq_refl eq_refl ltac:(lia)) as H.
  by destruct (compact_loop _ _ _ _).
Qed.

Lemma dedup_step_spec acc x :
  keys_sorted id acc -> (forall y, y ∈ acc -> sle y x) ->
  keys_sorted id (dedup_step acc x) /\ (forall y, y ∈ dedup_step acc x <-> y ∈ acc \/ y = x).
Proof.
  intros Hs Hle. unfold dedup_step.
  assert (forall y, last acc = Some y -> y ∈ acc) as Hin
    by (intros y Hy; rewrite last_lookup in Hy; apply list_elem_of_lookup; eauto).
  assert ((forall y, y ∈ acc -> slt y x) ->
    keys_sorted id (acc ++ [x]) /\ (forall y, y ∈ acc ++ [x] <-> y ∈ acc \/ y = x)) as Hsnoc.
  { intros Hlt. split; [|intros y; rewrite elem_of_app, list_elem_of_singleton; done].
    apply keys_sorted_app. split; [done|]. split.
    - apply keys_sorted_cons. split; [constructor|done].
    - intros a b Ha ->%list_elem_of_singleton. by apply Hlt. }
  destruct (last acc) as [y|] eqn:El.
  - destruct (String.eqb_spec y x) as [->|Hne].
    + split; [done|]. intros z. split; [by left|]. intros [?| ->]; [done|by apply Hin].
    + apply Hsnoc. intros z Hz. pose proof (Hle _ (Hin _ eq_refl)) as Hyx.
      apply sle_lt_eq in Hyx as [Hyx|Hyx]; [|done].
      apply last_Some in El as [l ->]. apply elem_of_app in Hz as [Hz|Hz].
      * apply keys_sorted_app in Hs as (_ & _ & Hs). transitivity y; [|done].
        apply Hs; [done|]. by apply list_elem_of_singleton.
      * apply list_elem_of_singleton in Hz as ->. done.
  - apply last_None in El as ->. apply Hsnoc. intros z Hz. by apply not_elem_of_nil in Hz.
Qed.

(** On sorted input the result is strictly sorted and names the same paths. *)
Lemma dedup_spec l :
  StronglySorted sle l -> keys_sorted id (dedup l) /\ (forall y, y ∈ dedup l <-> y ∈ l).
Proof.
  unfold dedup. assert (forall acc, keys_sorted id acc -> StronglySorted sle l ->
    (forall a b, a ∈ acc -> b ∈ l -> sle a b) ->
    keys_sorted id (foldl dedup_step acc l) /\
    (forall y, y ∈ foldl dedup_step acc l <-> y ∈ acc \/ y ∈ l)) as H.
  { induction l as [|x l IH]; intros acc Hacc Hl Hle; simpl.
    { split; [done|]. intros y. rewrite elem_of_nil. tauto. }
    apply StronglySorted_inv in Hl as [Hl Hx]. rewrite Forall_forall in Hx.
    destruct (dedup_step_spec acc x Hacc) as [H1 H2].
    { intros y Hy. apply Hle; [done|left]. }
    destruct (IH (dedup_step acc x) H1 Hl) as [H3 H4].
    { intros a b [Ha| ->]%H2 Hb; [apply Hle; [done|by right]|by apply Hx]. }
    split; [done|]. intros y. rewrite H4, H2, elem_of_cons. tauto. }
  intros Hl. destruct (H [] (keys_sorted_nil id) Hl) as [H1 H2].
  { intros a b Ha. by apply not_elem_of_nil in Ha. }
  split; [done|]. intros y. rewrite H2. split; [|by right].
  intros [Hy|]; [by apply not_elem_of_nil in Hy|done].
Qed.

Lemma sort_Strings_sorted l : StronglySorted sle (sort_Strings l).
Proof. apply (sort_slice_key_sorted id). Qed.

Lemma sort_Strings_elem l y : y ∈ sort_Strings l <-> y ∈ l.
Proof. unfold sort_Strings. by rewrite sort_slice_perm. Qed.

Lemma compact_sorted_spec l :
  let r := compactSortedPaths (sort_Strings l) in
  keys_sorted id r /\ (forall y, y ∈ r <-> y ∈ l).
Proof.
  simpl. rewrite compactSortedPaths_dedup.
  destruct (dedup_spec _ (sort_Strings_sorted l)) as [H1 H2]. split; [done|].
  intros y. by rewrite H2, sort_Strings_elem.
Qed.

Lemma sortUnique_spec l :
  keys_sorted id (sortUniqueWireTransitionPaths l) /\
  (forall y, y ∈ sortUniqueWireTransitionPaths l <-> y ∈ l).
Proof. exact (compact_sorted_spec l). Qed.

(** Sorting paths and compacting them in place gives the strictly sorted list of the same
    paths, the only such list. *)
Theorem compactSortedPaths_set l :
  keys_sorted id (compactSortedPaths (sort_Strings l)) /\
  (forall y, y ∈ compactSortedPaths (sort_Strings l) <-> y ∈ l) /\
  sortUniqueWireTransitionPaths l = compactSortedPaths (sort_Strings l) /\
  (forall r, keys_sorted id r -> (forall y, y ∈ r <-> y ∈ l) ->
     r = compactSortedPaths (sort_Strings l)).
Proof.
  destruct (compact_sorted_spec l) as [H1 H2]. split; [done|]. split; [done|].
  split; [done|]. intros r Hr He. apply (keys_sorted_unique id); [done|done|].
  intros x. by rewrite He, H2.
Qed.
