(* ===== verification/GoBytes.v ===== *)
(** * Bytes of strings and hexadecimal

    The conversions [[]byte(s)] and [string(b)], slicing, and [encoding/hex]
    of the Go standard library. *)

From S2P Require Import Prelude GoStd.
Open Scope Z_scope.

Definition byte_of (c : Ascii.ascii) : Z := Z.of_N (Ascii.N_of_ascii c).
Definition char_of (b : Z) : Ascii.ascii := Ascii.ascii_of_N (Z.to_N b).

Fixpoint string_bytes (s : string) : list Z :=
  match s with
  | EmptyString => []
  | String c s' => byte_of c :: string_bytes s'
  end.

Fixpoint bytes_string (b : list Z) : string :=
  match b with
  | [] => EmptyString
  | x :: b' => String (char_of x) (bytes_string b')
  end.

(** [s[n:]]. *)
Fixpoint string_drop (n : nat) (s : string) : string :=
  match n, s with
  | O, _ => s
  | _, EmptyString => EmptyString
  | S n', String _ s' => string_drop n' s'
  end.

Lemma byte_of_range c : is_byte (byte_of c).
Proof. unfold is_byte, byte_of. pose proof (Ascii.N_ascii_bounded c). lia. Qed.

Lemma char_byte c : char_of (byte_of c) = c.
Proof. unfold char_of, byte_of. by rewrite N2Z.id, Ascii.ascii_N_embedding. Qed.

Lemma byte_char b : is_byte b -> byte_of (char_of b) = b.
Proof. unfold is_byte, byte_of, char_of. intros. rewrite Ascii.N_ascii_embedding; lia. Qed.

Lemma bytes_string_bytes s : bytes_string (string_bytes s) = s.
Proof. induction s as [|c s IH]; simpl; [done|]. by rewrite char_byte, IH. Qed.

Lemma string_bytes_string b : Forall is_byte b -> string_bytes (bytes_string b) = b.
Proof. induction 1 as [|x b Hx Hb IH]; simpl; [done|]. by rewrite byte_char, IH. Qed.

Lemma string_bytes_range s : Forall is_byte (string_bytes s).
Proof. induction s; simpl; constructor; auto using byte_of_range. Qed.

Lemma string_bytes_length s : length (string_bytes s) = String.length s.
Proof. induction s; simpl; auto. Qed.

Lemma string_bytes_app a b : string_bytes (a +:+ b) = string_bytes a ++ string_bytes b.
Proof. induction a as [|c a IH]; [done|]. exact (f_equal (cons (byte_of c)) IH). Qed.

Lemma string_bytes_drop n s : string_bytes (string_drop n s) = drop n (string_bytes s).
Proof. revert s. induction n as [|n IH]; intros [|c s]; simpl; auto. Qed.

Lemma string_bytes_inj a b : string_bytes a = string_bytes b -> a = b.
Proof. intros H. by rewrite <- (bytes_string_bytes a), H, bytes_string_bytes. Qed.

(** ** [encoding/hex] *)

(** [reverseHexTable]: the value of a hexadecimal digit of either case. *)
Definition hex_value (b : Z) : option Z :=
  if (48 <=? b) && (b <=? 57) then Some (b - 48)
  else if (97 <=? b) && (b <=? 102) then Some (b - 87)
  else if (65 <=? b) && (b <=? 70) then Some (b - 55)
  else None.

(** [hex.Decode] of a text of even length; [None] for its errors. *)
Fixpoint hex_Decode (src : list Z) : option (list Z) :=
  match src with
  | p :: q :: src' =>
      match hex_value p, hex_value q, hex_Decode src' with
      | Some a, Some b, Some raw => Some (Z.lor (Z.shiftl a 4) b :: raw)
      | _, _, _ => None
      end
  | [] => Some []
  | [_] => None
  end.

(** The lower-case digit of a half byte. *)
Definition hex_digit (n : Z) : Z := if n <? 10 then n + 48 else n + 87.

Definition hex_Encode (raw : list Z) : list Z :=
  mbind (fun b => [hex_digit (Z.shiftr b 4); hex_digit (Z.land b 15)]) raw.

Lemma hex_value_digit n : 0 <= n < 16 -> hex_value (hex_digit n) = Some n.
Proof.
  intros Hn. unfold hex_digit, hex_value. destruct (n <? 10) eqn:E.
  - apply Z.ltb_lt in E. replace (_ && _) with true by lia. f_equal. lia.
  - apply Z.ltb_ge in E. replace (_ && _) with false by lia.
    replace (_ && _) with true by lia. f_equal. lia.
Qed.

Lemma hex_value_range b n : hex_value b = Some n -> 0 <= n < 16.
Proof.
  unfold hex_value. intros H. repeat case_match; simplify_eq; bool_hyps; lia.
Qed.

Lemma hex_nibbles a b :
  0 <= a < 16 -> 0 <= b < 16 ->
  Z.shiftr (Z.lor (Z.shiftl a 4) b) 4 = a /\ Z.land (Z.lor (Z.shiftl a 4) b) 15 = b /\
  is_byte (Z.lor (Z.shiftl a 4) b).
Proof.
  intros Ha Hb. rewrite Z.lor_comm, lor_shiftl_add by lia.
  rewrite Z.shiftr_div_pow2 by lia. change 15 with (Z.ones 4). rewrite Z.land_ones by lia.
  unfold is_byte. change (2 ^ 4) with 16. split_and!; mlia.
Qed.

Lemma hex_Decode_Encode raw : Forall is_byte raw -> hex_Decode (hex_Encode raw) = Some raw.
Proof.
  induction 1 as [|b raw Hb _ IH]; [done|]. unfold is_byte in Hb.
  change (hex_Encode (b :: raw)) with
    (hex_digit (Z.shiftr b 4) :: hex_digit (Z.land b 15) :: hex_Encode raw).
  cbn [hex_Decode]. rewrite IH.
  assert (Z.shiftr b 4 = b / 16) as -> by (by rewrite Z.shiftr_div_pow2 by lia).
  assert (Z.land b 15 = b mod 16) as -> by (change 15 with (Z.ones 4); by rewrite Z.land_ones by lia).
  rewrite !hex_value_digit by mlia. f_equal. f_equal.
  rewrite Z.lor_comm, lor_shiftl_add by mlia. change (2 ^ 4) with 16. mlia.
Qed.

Lemma hex_Decode_bytes src raw :
  hex_Decode src = Some raw -> Forall is_byte raw /\ length src = (2 * length raw)%nat.
Proof.
  revert raw. induction src as [src IH] using (induction_ltof1 _ length).
  intros raw. destruct src as [|p [|q src]]; simpl; [intros; simplify_eq; by split|done|].
  destruct (hex_value p) as [a|] eqn:Ea; [|done]. destruct (hex_value q) as [b|] eqn:Eb; [|done].
  destruct (hex_Decode src) as [raw'|] eqn:E; [|done]. intros; simplify_eq.
  destruct (IH src ltac:(unfold ltof; simpl; lia) raw' E) as [Hr Hl]. simpl. split; [|lia].
  constructor; [|done]. apply hex_nibbles; eauto using hex_value_range.
Qed.

(** Lower-case text survives a decode and an encode. *)
Definition lower_hex (b : Z) : bool := ((48 <=? b) && (b <=? 57)) || ((97 <=? b) && (b <=? 102)).

Lemma hex_digit_value b n : lower_hex b = true -> hex_value b = Some n -> hex_digit n = b.
Proof.
  unfold lower_hex, hex_value, hex_digit. intros H1 H2.
  destruct ((48 <=? b) && (b <=? 57)) eqn:E1; simplify_eq/=.
  - apply andb_prop in E1 as [? ?]. replace (_ <? 10) with true by lia. lia.
  - rewrite H1 in H2. simplify_eq. apply andb_prop in H1 as [? ?].
    replace (_ <? 10) with false by lia. lia.
Qed.

Lemma hex_Encode_Decode src raw :
  forallb lower_hex src = true -> hex_Decode src = Some raw -> hex_Encode raw = src.
Proof.
  revert raw. induction src as [src IH] using (induction_ltof1 _ length).
  intros raw. destruct src as [|p [|q src]]; simpl; [intros; simplify_eq; done|done|].
  intros Hlow. apply andb_prop in Hlow as [Hp Hlow]. apply andb_prop in Hlow as [Hq Hlow].
  destruct (hex_value p) as [a|] eqn:Ea; [|done]. destruct (hex_value q) as [b|] eqn:Eb; [|done].
  destruct (hex_Decode src) as [raw'|] eqn:E; [|done]. intros; simplify_eq.
  pose proof (hex_nibbles a b (hex_value_range _ _ Ea) (hex_value_range _ _ Eb)) as (H1 & H2 & _).
  change (hex_Encode (?x :: raw')) with
    (hex_digit (Z.shiftr x 4) :: hex_digit (Z.land x 15) :: hex_Encode raw').
  rewrite H1, H2, (IH src ltac:(unfold ltof; simpl; lia) raw') by done.
  by rewrite (hex_digit_value p), (hex_digit_value q).
Qed.

Example hex_upper : hex_Decode (string_bytes "aB") = Some [171].
Proof. reflexivity. Qed.
