(* ===== verification/KeyedDiff.v ===== *)
(** * Merging two keyed streams

    The planner walks strictly keyed rows from their heads. A step of such a
    walk takes the least key off the streams that stand at it; the difference
    of two streams is the keyed difference of what they hold. *)

From S2P Require Import Prelude SortedPaths.

Section Advance.
Context {A : Type} (key : A -> string).

(** The stream once the row at [m] has been taken. *)
Definition advance (l : list A) (m : string) : list A :=
  match l with x :: l' => if String.eqb (key x) m then l' else l | [] => [] end.

Definition head_at (l : list A) (m : string) : option A :=
  match l with x :: _ => if String.eqb (key x) m then Some x else None | [] => None end.

Lemma advance_sorted l m : keys_sorted key l -> keys_sorted key (advance l m).
Proof.
  destruct l as [|x l]; [done|]. simpl. intros H. destruct (String.eqb _ _); [|done].
  by apply keys_sorted_cons in H as [? _].
Qed.

Lemma advance_length l m : (length (advance l m) <= length l)%nat.
Proof. destruct l as [|x l]; [done|]. simpl. destruct (String.eqb _ _); simpl; lia. Qed.

Context (l : list A) (m : string) (Hs : keys_sorted key l) (Hm : forall x, x ∈ l -> sle m (key x)).

Lemma advance_elem x : x ∈ advance l m <-> x ∈ l /\ slt m (key x).
Proof.
  destruct l as [|y l']; [simpl; split; [intros H; by apply not_elem_of_nil in H|by intros [? _]]|]. simpl.
  apply keys_sorted_cons in Hs as [_ Hy]. rewrite Forall_forall in Hy.
  destruct (String.eqb_spec (key y) m) as [E|E].
  - rewrite elem_of_cons. split.
    + intros Hx. split; [by right|]. rewrite <- E. by apply Hy.
    + intros [[->|Hx] Hlt]; [|done]. rewrite E in Hlt. by apply slt_irrefl in Hlt.
  - split; [|by intros [? _]]. intros Hx. split; [done|].
    assert (slt m (key y)) as Hmy.
    { specialize (Hm y ltac:(left)). apply sle_lt_eq in Hm as [|]; [done|congruence]. }
    apply elem_of_cons in Hx as [->|Hx]; [done|]. transitivity (key y); [done|by apply Hy].
Qed.

Lemma find_head : find_key key l m = head_at l m.
Proof.
  apply option_eq. intros x. rewrite find_key_spec by done.
  destruct l as [|y l']; [simpl; split; [intros [H _]; by apply not_elem_of_nil in H|done]|]. simpl.
  apply keys_sorted_cons in Hs as [_ Hy]. rewrite Forall_forall in Hy.
  destruct (String.eqb_spec (key y) m) as [E|E]; split.
  - intros [[->|Hx]%elem_of_cons Hk]; [done|]. specialize (Hy x Hx). rewrite E, Hk in Hy. by apply slt_irrefl in Hy.
  - intros [= ->]. split; [left|done].
  - intros [[->|Hx]%elem_of_cons Hk]; [done|]. specialize (Hy x Hx). rewrite Hk in Hy.
    destruct (slt_irrefl m). apply sle_lt_trans with (key y); [apply Hm; left|done].
  - done.
Qed.

Lemma find_advance p : slt m p -> find_key key (advance l m) p = find_key key l p.
Proof.
  intros Hp. apply option_eq. intros x. rewrite !find_key_spec by (done || by apply advance_sorted).
  rewrite advance_elem. split; [intros [[? _] ?]; done|]. intros [? <-]. done.
Qed.
End Advance.

Lemma head_le {A} (key : A -> string) x l m :
  keys_sorted key (x :: l) -> sle m (key x) -> forall y, y ∈ x :: l -> sle m (key y).
Proof.
  intros [_ Hx]%keys_sorted_cons Hm y [->|Hy]%elem_of_cons; [done|]. rewrite Forall_forall in Hx.
  apply sle_trans with (key x); [done|]. by apply slt_le, Hx.
Qed.

Lemma advance_keys {A} (key : A -> string) l m p :
  keys_sorted key l -> (forall x, x ∈ l -> sle m (key x)) ->
  p ∈ map key (advance key l m) <-> p ∈ map key l /\ slt m p.
Proof.
  intros Hs Hm. rewrite !list_elem_of_fmap. split.
  - intros (x & -> & Hx). apply advance_elem in Hx as [Hx Hlt]; [|done|done]. eauto.
  - intros [(x & -> & Hx) Hlt]. exists x. split; [done|]. by apply advance_elem.
Qed.

Lemma head_at_key {A} (key : A -> string) l m : head_at key l m <> None -> m ∈ map key l.
Proof.
  destruct l as [|x l]; [done|]. simpl. destruct (String.eqb_spec (key x) m) as [<-|]; [|done]. intros _. left.
Qed.

Lemma advance_other {A} (key : A -> string) l m :
  (forall x, x ∈ l -> slt m (key x)) -> advance key l m = l /\ head_at key l m = None.
Proof.
  destruct l as [|x l]; intros H; [done|]. simpl. destruct (String.eqb_spec (key x) m) as [E|]; [|done].
  specialize (H x ltac:(left)). rewrite E in H. by apply slt_irrefl in H.
Qed.

Lemma keys_sorted_drop {A} (key : A -> string) l n : keys_sorted key l -> keys_sorted key (drop n l).
Proof.
  intros H. pose proof (take_drop n l) as Hl. rewrite <- Hl in H. by apply keys_sorted_app in H as (_ & H & _).
Qed.

(** Two strictly ordered lists with the same interesting elements. *)
Lemma omap_sorted_ext {B} (f : string -> option B) l1 l2 :
  keys_sorted id l1 -> keys_sorted id l2 ->
  (forall p, f p <> None -> p ∈ l1 <-> p ∈ l2) -> omap f l1 = omap f l2.
Proof.
  intros H1 H2 Hf.
  assert (forall l : list string, omap f l = omap f (filter (fun p => f p <> None) l)) as Hfil.
  { induction l as [|x l IH]; [done|]. rewrite omap_cons_option, filter_cons, IH.
    destruct (decide (f x <> None)) as [Hx|Hx]; [by rewrite omap_cons_option|].
    apply dec_stable in Hx. by rewrite Hx. }
  rewrite (Hfil l1), (Hfil l2). f_equal.
  assert (forall l, keys_sorted id l -> keys_sorted id (filter (fun p => f p <> None) l)) as Hs.
  { unfold keys_sorted. intros l. rewrite !list_fmap_id. induction 1 as [|x l Hl IH Hx]; [constructor|].
    rewrite filter_cons. destruct (decide _); [|done]. constructor; [done|].
    apply Forall_forall. intros y [_ Hy]%list_elem_of_filter. rewrite Forall_forall in Hx. by apply Hx. }
  apply (keys_sorted_unique id); [by apply Hs|by apply Hs|].
  intros p. rewrite !list_elem_of_filter. specialize (Hf p). tauto.
Qed.

(** ** The difference of two keyed streams *)

Section KeyedDiff.
Context {A B : Type} (key : A -> string) (f : string -> option A -> option A -> option B).

Definition keyed_diff (l1 l2 : list A) : list B :=
  omap (fun p => f p (find_key key l1 p) (find_key key l2 p))
       (sortUniqueWireTransitionPaths (map key l1 ++ map key l2)).

(** Taking the least key off both streams takes its difference off the
    result. *)
Lemma keyed_diff_step l1 l2 m :
  keys_sorted key l1 -> keys_sorted key l2 ->
  (forall x, x ∈ l1 -> sle m (key x)) -> (forall x, x ∈ l2 -> sle m (key x)) ->
  m ∈ map key l1 \/ m ∈ map key l2 ->
  keyed_diff l1 l2 =
    option_list (f m (head_at key l1 m) (head_at key l2 m)) ++ keyed_diff (advance key l1 m) (advance key l2 m).
Proof.
  intros H1 H2 M1 M2 Hm. unfold keyed_diff.
  assert (sortUniqueWireTransitionPaths (map key l1 ++ map key l2) =
    m :: sortUniqueWireTransitionPaths (map key (advance key l1 m) ++ map key (advance key l2 m))) as ->.
  { destruct (sortUnique_spec (map key l1 ++ map key l2)) as [S1 E1].
    destruct (sortUnique_spec (map key (advance key l1 m) ++ map key (advance key l2 m))) as [S2 E2].
    apply (keys_sorted_unique id); [done| |].
    - apply keys_sorted_cons. split; [done|]. apply Forall_forall. intros p Hp. apply E2, elem_of_app in Hp.
      by destruct Hp as [Hp|Hp]; apply advance_keys in Hp as [_ ?].
    - intros p. rewrite elem_of_cons, E1, E2, !elem_of_app, !advance_keys by done.
      destruct (slt_total m p) as [Hlt|[->|Hlt]].
      + split; [tauto|]. intros [->|?]; [by apply slt_irrefl in Hlt|tauto].
      + tauto.
      + split; [|intros [->|?]; [by apply slt_irrefl in Hlt|tauto]]. intros H. exfalso.
        apply sle_not_slt in Hlt; [done|].
        destruct H as [(x & -> & Hx)%list_elem_of_fmap|(x & -> & Hx)%list_elem_of_fmap]; auto. }
  rewrite omap_cons_option, !find_head by done. f_equal.
  apply omap_ext_in. intros p Hp. apply (proj2 (sortUnique_spec _)), elem_of_app in Hp.
  assert (slt m p) as Hlt by (by destruct Hp as [Hp|Hp]; apply advance_keys in Hp as [_ ?]).
  by rewrite !find_advance.
Qed.

Lemma keyed_diff_nil : keyed_diff [] [] = [].
Proof. done. Qed.
End KeyedDiff.
