(* ===== verification/Model.v ===== *)
(** * The fact model

    The data of [internal/typefacts/typefacts.go] and [model.go]: locations,
    descriptors, resolved calls, demands, entity, symbol and file facts. A Go
    [string] type is a [string] and stays open, so the wire layer's rejection
    of unknown values is reachable; a pointer is an [option]; an [int] is the
    [Z] it holds; a [float64] is its bit pattern. A slice whose nil-ness the
    code tests is an [option (list _)], every other slice is a [list]. *)

From S2P Require Import Prelude GoStd GoText.
Open Scope Z_scope.

Notation SymbolID := string (only parsing).
Notation RuntimeSymbolID := string (only parsing).

(** ** Locations and declarations *)

Record Location := mkLocation {
  Path : string;
  StartByte : Z;
  EndByte : Z;
}.
#[export] Instance Location_eq_dec : EqDecision Location.
Proof. solve_decision. Defined.

Record Declaration := mkDeclaration {
  decl_Name : string;
  decl_Kind : string;
  decl_Location : Location;
}.
#[export] Instance Declaration_eq_dec : EqDecision Declaration.
Proof. solve_decision. Defined.

Record TypeDescriptor := mkTypeDescriptor {
  Text : string;
  td_OriginModule : string;
  AliasDeclarations : list Declaration;
}.
#[export] Instance TypeDescriptor_eq_dec : EqDecision TypeDescriptor.
Proof. solve_decision. Defined.

(** ** Closed vocabularies, carried as open strings *)

Definition Callability := string.
Definition CallabilityCallable : Callability := "callable".
Definition CallabilityUntypedCallable : Callability := "untypedCallable".
Definition CallabilityNonCallable : Callability := "nonCallable".
Definition CallabilityMixed : Callability := "mixed".
Definition CallabilityUnknown : Callability := "unknown".

(** [uint8], counted from [iota]. *)
Definition Constructability := Z.
Definition ConstructabilityAbsent : Constructability := 0.
Definition ConstructabilityConstructable : Constructability := 1.
Definition ConstructabilityNonConstructable : Constructability := 2.
Definition ConstructabilityMixed : Constructability := 3.
Definition ConstructabilityUnknown : Constructability := 4.
Definition Constructability_IsPresent (c : Constructability) : bool :=
  negb (c =? ConstructabilityAbsent).

Record RuntimeValueDomain := mkRuntimeValueDomain {
  MayBeCallable : bool;
  MayBeUndefined : bool;
  MayBeOther : bool;
  Unknown : bool;
}.
#[export] Instance RuntimeValueDomain_eq_dec : EqDecision RuntimeValueDomain.
Proof. solve_decision. Defined.

(** [struct{ bits uint16 }]; its operations are in [Domain.v]. *)
Record PrimitiveValueDomain := mkPrimitiveValueDomain { bits : Z }.
#[export] Instance PrimitiveValueDomain_eq_dec : EqDecision PrimitiveValueDomain.
Proof. solve_decision. Defined.

Definition PrimitiveLiteralKind := string.
Definition PrimitiveLiteralString : PrimitiveLiteralKind := "string".
Definition PrimitiveLiteralNumber : PrimitiveLiteralKind := "number".
Definition PrimitiveLiteralBoolean : PrimitiveLiteralKind := "boolean".

Record PrimitiveLiteralCandidate := mkPrimitiveLiteralCandidate {
  plc_Kind : PrimitiveLiteralKind;
  plc_String : string;
  plc_Number : Z;
  plc_Boolean : bool;
}.
#[export] Instance PrimitiveLiteralCandidate_eq_dec : EqDecision PrimitiveLiteralCandidate.
Proof. solve_decision. Defined.

Definition ConstantValueKind := string.
Definition ConstantValueString : ConstantValueKind := "string".
Definition ConstantValueNumber : ConstantValueKind := "number".

Record ConstantValue := mkConstantValue {
  cv_Kind : ConstantValueKind;
  cv_String : string;
  cv_Number : Z;
}.
#[export] Instance ConstantValue_eq_dec : EqDecision ConstantValue.
Proof. solve_decision. Defined.

Definition ArrayShape := string.
Definition ArrayShapeArray : ArrayShape := "array".
Definition ArrayShapeNotArray : ArrayShape := "notArray".
Definition ArrayShapeMixed : ArrayShape := "mixed".
Definition ArrayShapeUnknown : ArrayShape := "unknown".

Record TupleShape := mkTupleShape {
  FixedLength : Z;
  ExactLength : Z;
  ExactLengthKnown : bool;
  HasRest : bool;
  ElementZero : Callability;
  ElementZeroMinimumParameters : Z;
}.
#[export] Instance TupleShape_eq_dec : EqDecision TupleShape.
Proof. solve_decision. Defined.

Definition ReferenceSpace := string.
Definition ReferenceSpaceValue : ReferenceSpace := "value".
Definition ReferenceSpaceType : ReferenceSpace := "type".
Definition ReferenceSpaceBoth : ReferenceSpace := "both".
Definition ReferenceSpaceNeither : ReferenceSpace := "neither".

(** ** Resolved calls *)

Definition ResolvedCallValidity := string.
Definition ResolvedCallValid : ResolvedCallValidity := "valid".
Definition ResolvedCallRecovery : ResolvedCallValidity := "recovery".
Definition ResolvedCallUnresolved : ResolvedCallValidity := "unresolved".

Definition CallKind := string.
Definition CallKindUnknown : CallKind := "unknown".
Definition CallKindCall : CallKind := "call".
Definition CallKindConstruct : CallKind := "construct".

Record DeclarationOwner := mkDeclarationOwner {
  own_Symbol : SymbolID;
  own_Name : string;
  own_Kind : string;
  own_Location : Location;
}.
#[export] Instance DeclarationOwner_eq_dec : EqDecision DeclarationOwner.
Proof. solve_decision. Defined.

Record ResolvedDeclaration := mkResolvedDeclaration {
  rd_Symbol : SymbolID;
  rd_Name : string;
  rd_Kind : string;
  rd_Location : Location;
  Owners : list DeclarationOwner;
  QualifiedName : string;
  rd_OriginModule : string;
  rd_SourceFile : string;
  StandardLibrary : bool;
}.
#[export] Instance ResolvedDeclaration_eq_dec : EqDecision ResolvedDeclaration.
Proof. solve_decision. Defined.

Definition ArgumentMappingStatus := string.
Definition ArgumentMappingResolved : ArgumentMappingStatus := "resolved".
Definition ArgumentMappingUnresolved : ArgumentMappingStatus := "unresolved".

Definition ArgumentMappingReason := string.
Definition ArgumentMappingCallUnresolved : ArgumentMappingReason := "callUnresolved".
Definition ArgumentMappingRecoverySignature : ArgumentMappingReason := "recoverySignature".
Definition ArgumentMappingCompositeSignature : ArgumentMappingReason := "compositeSignature".
Definition ArgumentMappingSpreadArgument : ArgumentMappingReason := "spreadArgument".
Definition ArgumentMappingParameterUnavailable : ArgumentMappingReason := "parameterUnavailable".

Definition ConstructionWitness := string.
Definition ConstructionWitnessUnknown : ConstructionWitness := "unknown".
Definition ConstructionWitnessEmptyArray : ConstructionWitness := "emptyArray".
Definition ConstructionWitnessEmptyObject : ConstructionWitness := "emptyObject".

Record ObjectConstructionProperty := mkObjectConstructionProperty {
  ocp_Name : string;
  Witness : ConstructionWitness;
}.
#[export] Instance ObjectConstructionProperty_eq_dec : EqDecision ObjectConstructionProperty.
Proof. solve_decision. Defined.

Record ObjectConstructionShape := mkObjectConstructionShape {
  RequiredProperties : list ObjectConstructionProperty;
}.
#[export] Instance ObjectConstructionShape_eq_dec : EqDecision ObjectConstructionShape.
Proof. solve_decision. Defined.

Record ParameterFact := mkParameterFact {
  pf_Index : Z;
  pf_Symbol : SymbolID;
  pf_Declaration : option Declaration;
  Rest : bool;
  Optional : bool;
  pf_Callability : Callability;
  pf_TypeDescriptor : option TypeDescriptor;
  ObjectShape : option ObjectConstructionShape;
}.
#[export] Instance ParameterFact_eq_dec : EqDecision ParameterFact.
Proof. solve_decision. Defined.

Record ArgumentMapping := mkArgumentMapping {
  ArgumentIndex : Z;
  Status : ArgumentMappingStatus;
  Unresolved : ArgumentMappingReason;
  Parameter_ : option ParameterFact;
}.
#[export] Instance ArgumentMapping_eq_dec : EqDecision ArgumentMapping.
Proof. solve_decision. Defined.

Record CallTargetSet := mkCallTargetSet {
  Exhaustive : bool;
  Candidates : list ResolvedDeclaration;
}.
#[export] Instance CallTargetSet_eq_dec : EqDecision CallTargetSet.
Proof. solve_decision. Defined.

Record Call := mkCall {
  call_Target : SymbolID;
  ReturnTypeText : string;
  Validity : ResolvedCallValidity;
  call_Kind : CallKind;
  call_Declaration : option ResolvedDeclaration;
  Targets : option CallTargetSet;
  call_Arguments : list ArgumentMapping;
}.
#[export] Instance Call_eq_dec : EqDecision Call.
Proof. solve_decision. Defined.

(** ** Demands *)

Record EntityDemand := mkEntityDemand {
  dem_Location : Location;
  QueryLocation : option Location;
  dem_Symbol : bool;
  dem_TypeDescriptor : bool;
  dem_ResolvedCall : bool;
  dem_Callability : bool;
  dem_Constructability : bool;
  dem_RuntimeValueDomain : bool;
  dem_PrimitiveValueDomain : bool;
  dem_PrimitiveLiteralCandidates : bool;
  dem_ParameterObjectShape : bool;
  dem_CallResultDomain : bool;
  dem_ConstantValue : bool;
  dem_ArrayShape : bool;
  dem_TupleShape : bool;
  dem_LibraryTypes : bool;
  dem_ReferenceSpace : bool;
  dem_RuntimeIdentity : bool;
  dem_References : bool;
  dem_Async : bool;
  dem_StructuralAccessor : bool;
}.
#[export] Instance EntityDemand_eq_dec : EqDecision EntityDemand.
Proof. solve_decision. Defined.

(** The demand [d] moved to [l] and [q]: the only fields the path cleaning
    rewrites. *)
Definition with_locations (d : EntityDemand) (l : Location) (q : option Location) : EntityDemand :=
  mkEntityDemand l q (dem_Symbol d) (dem_TypeDescriptor d) (dem_ResolvedCall d)
    (dem_Callability d) (dem_Constructability d) (dem_RuntimeValueDomain d)
    (dem_PrimitiveValueDomain d) (dem_PrimitiveLiteralCandidates d)
    (dem_ParameterObjectShape d) (dem_CallResultDomain d) (dem_ConstantValue d)
    (dem_ArrayShape d) (dem_TupleShape d) (dem_LibraryTypes d) (dem_ReferenceSpace d)
    (dem_RuntimeIdentity d) (dem_References d) (dem_Async d) (dem_StructuralAccessor d).

Definition with_path (l : Location) (p : string) : Location :=
  mkLocation p (StartByte l) (EndByte l).

(** ** Facts *)

Record EntityFact := mkEntityFact {
  ef_Location : Location;
  ef_Symbol : SymbolID;
  SymbolUnresolved : bool;
  ef_TypeDescriptor : option TypeDescriptor;
  ResolvedCall : option Call;
  ef_Callability : Callability;
  ef_RuntimeValueDomain : option RuntimeValueDomain;
  ef_PrimitiveValueDomain : PrimitiveValueDomain;
  PrimitiveLiteralCandidates : list PrimitiveLiteralCandidate;
  ef_Constructability : Constructability;
  CallResultDomain : option RuntimeValueDomain;
  ef_ConstantValue : option ConstantValue;
  ef_ArrayShape : ArrayShape;
  ef_TupleShape : option TupleShape;
  LibraryTypes : option (list string);
  ef_ReferenceSpace : ReferenceSpace;
  RuntimeIdentity : RuntimeSymbolID;
}.
#[export] Instance EntityFact_eq_dec : EqDecision EntityFact.
Proof. solve_decision. Defined.

(** [EntityFact{Location: location}]. *)
Definition empty_entity (l : Location) : EntityFact :=
  mkEntityFact l "" false None None "" None (mkPrimitiveValueDomain 0) [] 0 None None "" None None "" "".

Record SymbolFact := mkSymbolFact {
  ID : SymbolID;
  AliasTarget : SymbolID;
  Declarations : list Declaration;
  References : list Location;
}.
#[export] Instance SymbolFact_eq_dec : EqDecision SymbolFact.
Proof. solve_decision. Defined.

Record SourceCall := mkSourceCall {
  sc_Location : Location;
  Callee : Location;
  sc_Arguments : list Location;
  sc_Target : SymbolID;
}.
#[export] Instance SourceCall_eq_dec : EqDecision SourceCall.
Proof. solve_decision. Defined.

Record SourceBinding := mkSourceBinding {
  Array : bool;
  Names : list Location;
  Initializer : SourceCall;
}.
#[export] Instance SourceBinding_eq_dec : EqDecision SourceBinding.
Proof. solve_decision. Defined.

Record SourceFunction := mkSourceFunction {
  sf_Name : Location;
  Body : Location;
  sf_Parameters : list Location;
  Exported : bool;
  sf_Async : bool;
  Arrow : bool;
}.
#[export] Instance SourceFunction_eq_dec : EqDecision SourceFunction.
Proof. solve_decision. Defined.

Record AsyncFunctionFact := mkAsyncFunctionFact {
  Expression : Location;
  af_Symbol : SymbolID;
  af_Target : SymbolID;
  CanReturnAsync : bool;
  CallsAfterAwait : list Location;
}.
#[export] Instance AsyncFunctionFact_eq_dec : EqDecision AsyncFunctionFact.
Proof. solve_decision. Defined.

Record FileFact := mkFileFact {
  ff_Path : string;
  Calls : list SourceCall;
  Bindings : list SourceBinding;
  Functions : list SourceFunction;
  AsyncFunctions : list AsyncFunctionFact;
}.
#[export] Instance FileFact_eq_dec : EqDecision FileFact.
Proof. solve_decision. Defined.

(** The zero values the code returns beside [false]. *)
Definition empty_symbol : SymbolFact := mkSymbolFact "" "" [] [].
Definition empty_file : FileFact := mkFileFact "" [] [] [] [].

Record SourceFile := mkSourceFile {
  src_Path : string;
  Source : list Z;
}.

Record SourceDigest := mkSourceDigest {
  dig_Path : string;
  SHA256 : list Z;
}.
#[export] Instance SourceDigest_eq_dec : EqDecision SourceDigest.
Proof. solve_decision. Defined.
Definition empty_digest : SourceDigest := mkSourceDigest "" (replicate 32 0).

Record SemanticDemandRun := mkSemanticDemandRun {
  run_Path : string;
  run_Demands : list EntityDemand;
}.

Record SemanticDemandRunResult := mkSemanticDemandRunResult {
  Entities : list EntityFact;
  Structural : list SymbolID;
  Dependencies : list string;
  Durable : bool;
}.

(** [func DurableSymbolID]: an identity that survives its generation. *)
Definition DurableSymbolID (id : SymbolID) : bool :=
  String.eqb id "" || String.prefix "symbol:h:" id.

Definition durableAsyncFunctions (facts : list AsyncFunctionFact) : bool :=
  forallb (fun fact => DurableSymbolID (af_Symbol fact) && DurableSymbolID (af_Target fact)) facts.

(** ** Floating point equality

    Go's [==] on [float64]: a NaN equals nothing and the two zeros are
    equal. *)
Definition is_nan (f : Z) : bool :=
  (Z.land (Z.shiftr f 52) 2047 =? 2047) && negb (Z.land f (2 ^ 52 - 1) =? 0).
Definition is_inf (f : Z) : bool :=
  (Z.land (Z.shiftr f 52) 2047 =? 2047) && (Z.land f (2 ^ 52 - 1) =? 0).
Definition is_zero (f : Z) : bool := Z.land f (2 ^ 63 - 1) =? 0.
Definition float_eqb (a b : Z) : bool :=
  negb (is_nan a) && negb (is_nan b) && ((a =? b) || (is_zero a && is_zero b)).

Example float_eq_zeros : float_eqb 0 (2 ^ 63) = true.
Proof. reflexivity. Qed.
Example float_eq_nan : float_eqb 9221120237041090561 9221120237041090561 = false.
Proof. reflexivity. Qed.

Lemma float_eqb_eq a b :
  is_zero a = false -> float_eqb a b = true -> a = b.
Proof. unfold float_eqb. intros ->. intros H. bool_hyps. by rewrite orb_false_r, Z.eqb_eq in *. Qed.

Lemma float_eqb_refl a : is_nan a = false -> float_eqb a a = true.
Proof. unfold float_eqb. intros ->. by rewrite Z.eqb_refl. Qed.

(** ** Rebuilding a record from its fields *)

Lemma location_eta l : mkLocation (Path l) (StartByte l) (EndByte l) = l.
Proof. by destruct l. Qed.

Lemma with_locations_eta d l q : dem_Location d = l -> QueryLocation d = q -> with_locations d l q = d.
Proof. destruct d. simpl. by intros <- <-. Qed.

Lemma with_locations_twice d l q l' q' :
  with_locations (with_locations d l q) l' q' = with_locations d l' q'.
Proof. done. Qed.
