(* ===== verification/Domain.v ===== *)
(** * Primitive value domains

    The packed [PrimitiveValueDomain] of [typefacts.go]: eight kind bits, a
    finiteness bit and an explicit bit for the known empty domain, so that the
    zero word stays the absence of the fact. *)

From S2P Require Import Prelude GoStd Model.
Open Scope Z_scope.

Definition primitiveMayBeString : Z := Z.shiftl 1 0.
Definition primitiveMayBeNumber : Z := Z.shiftl 1 1.
Definition primitiveMayBeBoolean : Z := Z.shiftl 1 2.
Definition primitiveMayBeBigInt : Z := Z.shiftl 1 3.
Definition primitiveMayBeSymbol : Z := Z.shiftl 1 4.
Definition primitiveMayBeNull : Z := Z.shiftl 1 5.
Definition primitiveMayBeUndefined : Z := Z.shiftl 1 6.
Definition primitiveMayBeObject : Z := Z.shiftl 1 7.
Definition primitiveNumbersFinite : Z := Z.shiftl 1 8.
Definition primitiveEmpty : Z := Z.shiftl 1 9.

Definition boolDomainBit (value : bool) (bit : Z) : Z := if value then bit else 0.

Definition NewPrimitiveValueDomain
    (stringValue number boolean bigint symbol nullValue undefined object numbersFinite : bool) :
    PrimitiveValueDomain :=
  let bits :=
    Z.lor (Z.lor (Z.lor (Z.lor (Z.lor (Z.lor (Z.lor (Z.lor
      (boolDomainBit stringValue primitiveMayBeString)
      (boolDomainBit number primitiveMayBeNumber))
      (boolDomainBit boolean primitiveMayBeBoolean))
      (boolDomainBit bigint primitiveMayBeBigInt))
      (boolDomainBit symbol primitiveMayBeSymbol))
      (boolDomainBit nullValue primitiveMayBeNull))
      (boolDomainBit undefined primitiveMayBeUndefined))
      (boolDomainBit object primitiveMayBeObject))
      (boolDomainBit (number && numbersFinite) primitiveNumbersFinite) in
  mkPrimitiveValueDomain (if bits =? 0 then primitiveEmpty else bits).

(** [^uint16(0)]. *)
Definition allDomainBits : Z := 2 ^ 16 - 1.
Definition UnknownPrimitiveValueDomain : PrimitiveValueDomain := mkPrimitiveValueDomain allDomainBits.

Definition IsPresent (d : PrimitiveValueDomain) : bool := negb (bits d =? 0).
Definition MayBeString (d : PrimitiveValueDomain) : bool := has_flag (bits d) primitiveMayBeString.
Definition MayBeNumber (d : PrimitiveValueDomain) : bool := has_flag (bits d) primitiveMayBeNumber.
Definition MayBeBoolean (d : PrimitiveValueDomain) : bool := has_flag (bits d) primitiveMayBeBoolean.
Definition MayBeBigInt (d : PrimitiveValueDomain) : bool := has_flag (bits d) primitiveMayBeBigInt.
Definition MayBeSymbol (d : PrimitiveValueDomain) : bool := has_flag (bits d) primitiveMayBeSymbol.
Definition MayBeNull (d : PrimitiveValueDomain) : bool := has_flag (bits d) primitiveMayBeNull.
Definition MayBeUndefined (d : PrimitiveValueDomain) : bool := has_flag (bits d) primitiveMayBeUndefined.
Definition MayBeObject (d : PrimitiveValueDomain) : bool := has_flag (bits d) primitiveMayBeObject.
Definition NumbersAreFinite (d : PrimitiveValueDomain) : bool :=
  MayBeNumber d && has_flag (bits d) primitiveNumbersFinite.
Definition IsUnknown (d : PrimitiveValueDomain) : bool := bits d =? allDomainBits.

Definition Union (d other : PrimitiveValueDomain) : PrimitiveValueDomain :=
  if IsUnknown d || IsUnknown other then UnknownPrimitiveValueDomain
  else
    let b := Z.ldiff (Z.lor (bits d) (bits other)) (Z.lor primitiveEmpty primitiveNumbersFinite) in
    let b :=
      if has_flag b primitiveMayBeNumber &&
         (negb (MayBeNumber d) || NumbersAreFinite d) &&
         (negb (MayBeNumber other) || NumbersAreFinite other)
      then Z.lor b primitiveNumbersFinite else b in
    let b := if (b =? 0) && (IsPresent d || IsPresent other) then primitiveEmpty else b in
    mkPrimitiveValueDomain b.

(** ** Well-formed words *)

(** The kinds a word admits, bit by bit. *)
Definition kind (k : nat) (d : PrimitiveValueDomain) : bool := Z.testbit (bits d) (Z.of_nat k).

(** A closed domain: ten bits, finiteness only of numbers, and the empty bit
    exactly on the domain without kinds. *)
Definition closed (d : PrimitiveValueDomain) : Prop :=
  0 < bits d < 2 ^ 10 /\ (kind 8 d = true -> kind 1 d = true) /\
  kind 9 d = negb (existsb (fun k => kind k d) [0; 1; 2; 3; 4; 5; 6; 7]%nat).

Definition domain_ok (d : PrimitiveValueDomain) : Prop :=
  bits d = 0 \/ d = UnknownPrimitiveValueDomain \/ closed d.

(** Words below [2 ^ 10] are equal when their ten bits are. *)
Lemma bits_ext d e :
  0 <= bits d < 2 ^ 10 -> 0 <= bits e < 2 ^ 10 ->
  (forall k, (k < 10)%nat -> kind k d = kind k e) -> d = e.
Proof.
  destruct d as [a], e as [b]. unfold kind. simpl. intros Ha Hb H. f_equal. apply Z.bits_inj'. intros j Hj. destruct (decide (j < 10)).
  - rewrite <- (Z2Nat.id j) by done. apply H. lia.
  - rewrite <- (Z.mod_small a (2 ^ 10)), <- (Z.mod_small b (2 ^ 10)) by lia.
    by rewrite !Z.mod_pow2_bits_high by lia.
Qed.

Lemma bits_zero b : 0 <= b < 2 ^ 10 -> (forall k, (k < 10)%nat -> Z.testbit b (Z.of_nat k) = false) -> b = 0.
Proof.
  intros Hb H. enough (mkPrimitiveValueDomain b = mkPrimitiveValueDomain 0) as E by (by injection E).
  apply bits_ext; [done|simpl; lia|]. intros k Hk. unfold kind. simpl. by rewrite H, Z.bits_0.
Qed.

Lemma kind_flag k d : has_flag (bits d) (Z.shiftl 1 (Z.of_nat k)) = kind k d.
Proof. apply has_flag_bit. lia. Qed.

Lemma MayBeNumber_kind d : MayBeNumber d = kind 1 d.
Proof. exact (kind_flag 1 d). Qed.

Lemma NumbersAreFinite_kind d : NumbersAreFinite d = kind 1 d && kind 8 d.
Proof. unfold NumbersAreFinite, MayBeNumber. by rewrite <- !kind_flag. Qed.

Lemma closed_known d : closed d -> IsUnknown d = false /\ IsPresent d = true.
Proof. intros [Hb _]. unfold IsUnknown, IsPresent, allDomainBits. split; [apply Z.eqb_neq|apply negb_true_iff, Z.eqb_neq]; lia. Qed.

Lemma kind_unknown k : (k < 16)%nat -> kind k UnknownPrimitiveValueDomain = true.
Proof. intros Hk. do 16 (destruct k as [|k]; [reflexivity|]). lia. Qed.

Lemma kind_absent d k : bits d = 0 -> kind k d = false.
Proof. unfold kind. intros ->. apply Z.bits_0. Qed.

(** A well-formed word is determined by what its methods report. *)
Lemma domain_ok_ext d e :
  domain_ok d -> domain_ok e -> IsPresent d = IsPresent e -> IsUnknown d = IsUnknown e ->
  (forall k, (k < 8)%nat -> kind k d = kind k e) -> NumbersAreFinite d = NumbersAreFinite e -> d = e.
Proof.
  rewrite !NumbersAreFinite_kind. intros Hd He Hp Hu Hk Hf.
  destruct Hd as [Hd|[->|Hd]], He as [He|[->|He]];
    try (destruct (closed_known _ Hd) as [Hdu Hdp]); try (destruct (closed_known _ He) as [Heu Hep]);
    try (unfold IsPresent, IsUnknown, UnknownPrimitiveValueDomain, allDomainBits in *; simpl in *;
         rewrite ?Hd, ?He in *; simpl in *; congruence).
  - destruct d, e. simpl in *. congruence.
  - destruct Hd as (Ha & Ha8 & Ha9), He as (Hb & Hb8 & Hb9).
    apply bits_ext; [lia|lia|]. intros k Hk10. destruct (decide (k < 8)%nat); [by apply Hk|].
    destruct (decide (k = 8)%nat) as [->|].
    + rewrite (Hk 1%nat) in Hf, Ha8 by lia.
      destruct (kind 1 e); [exact Hf|].
      destruct (kind 8 d); [by specialize (Ha8 eq_refl)|].
      destruct (kind 8 e); [by specialize (Hb8 eq_refl)|done].
    + replace k with 9%nat by lia. rewrite Ha9, Hb9. cbn [existsb]. by rewrite !Hk by lia.
Qed.

(** The kinds left by clearing the two marks. *)
Lemma cleared_bit a b k :
  (k < 10)%nat ->
  Z.testbit (Z.ldiff (Z.lor a b) (Z.lor primitiveEmpty primitiveNumbersFinite)) (Z.of_nat k) =
  (k <? 8)%nat && (Z.testbit a (Z.of_nat k) || Z.testbit b (Z.of_nat k)).
Proof.
  intros Hk. rewrite Z.ldiff_spec, Z.lor_spec. rewrite andb_comm. f_equal.
  do 10 (destruct k as [|k]; [reflexivity|]). lia.
Qed.

Lemma cleared_range a b :
  0 <= a < 2 ^ 10 -> 0 <= b < 2 ^ 10 ->
  0 <= Z.ldiff (Z.lor a b) (Z.lor primitiveEmpty primitiveNumbersFinite) < 2 ^ 8.
Proof.
  intros Ha Hb. pose proof (lor_bound 10 a b ltac:(lia) Ha Hb) as Hl.
  assert (Z.ldiff (Z.lor a b) (Z.lor primitiveEmpty primitiveNumbersFinite) = Z.lor a b mod 2 ^ 8) as ->; [|apply Z.mod_pos_bound; lia].
  apply Z.bits_inj'. intros j Hj. destruct (decide (j < 10)).
  - rewrite <- (Z2Nat.id j) by done. rewrite cleared_bit by lia. rewrite <- Z.lor_spec.
    destruct (Nat.ltb_spec (Z.to_nat j) 8); simpl.
    + by rewrite Z.mod_pow2_bits_low by lia.
    + by rewrite Z.mod_pow2_bits_high by lia.
  - rewrite Z.mod_pow2_bits_high by lia. rewrite Z.ldiff_spec.
    rewrite <- (Z.mod_small (Z.lor a b) (2 ^ 10)) by lia. by rewrite Z.mod_pow2_bits_high by lia.
Qed.

Lemma no_kinds d : existsb (fun k => kind k d) [0; 1; 2; 3; 4; 5; 6; 7]%nat = false ->
  forall k, (k < 8)%nat -> kind k d = false.
Proof. intros H k Hk. simpl in H. repeat (apply orb_false_elim in H as [? H]). do 8 (destruct k as [|k]; [done|]). lia. Qed.

Definition bounded (d : PrimitiveValueDomain) : Prop := bits d = 0 \/ closed d.

Lemma bounded_ok d : bounded d -> domain_ok d.
Proof. unfold bounded, domain_ok. tauto. Qed.

Lemma bounded_range d : bounded d -> 0 <= bits d < 2 ^ 10.
Proof. intros [->|[H _]]; lia. Qed.

Lemma bounded_known d : bounded d -> IsUnknown d = false.
Proof. intros [H|H]; [unfold IsUnknown; by rewrite H|by apply closed_known]. Qed.

(** The finiteness both sides agree on. *)
Definition agree_finite (d o : PrimitiveValueDomain) : bool :=
  (negb (MayBeNumber d) || NumbersAreFinite d) && (negb (MayBeNumber o) || NumbersAreFinite o).

(** The three cases of the final word: only numbers can be finite, and the
    empty mark is set exactly when no kind is. *)
Lemma union_word d o :
  bounded d -> bounded o ->
  let b := Z.ldiff (Z.lor (bits d) (bits o)) (Z.lor primitiveEmpty primitiveNumbersFinite) in
  let b' := if has_flag b primitiveMayBeNumber && agree_finite d o then Z.lor b primitiveNumbersFinite else b in
  0 <= b < 2 ^ 8 /\ 0 <= b' < 2 ^ 9 /\ (b' = 0 <-> b = 0) /\
  Z.testbit b' 8 = Z.testbit b 1 && agree_finite d o /\
  (forall k, (k < 8)%nat -> Z.testbit b' (Z.of_nat k) = Z.testbit b (Z.of_nat k)) /\
  Union d o = mkPrimitiveValueDomain (if (b' =? 0) && (IsPresent d || IsPresent o) then primitiveEmpty else b').
Proof.
  intros Hd Ho b b'. pose proof (cleared_range (bits d) (bits o) (bounded_range d Hd) (bounded_range o Ho)) as Hb.
  fold b in Hb. assert (has_flag b primitiveMayBeNumber = Z.testbit b 1) as Hn by (by apply has_flag_bit).
  assert (Z.testbit b 8 = false) as Hb8 by (unfold b; by rewrite (cleared_bit _ _ 8) by lia).
  assert (Union d o = mkPrimitiveValueDomain (if (b' =? 0) && (IsPresent d || IsPresent o) then primitiveEmpty else b')) as HU.
  { unfold Union. rewrite (bounded_known d), (bounded_known o) by done. cbn [orb]. fold b.
    unfold b', agree_finite. by rewrite <- andb_assoc. }
  unfold b' in *. clear b'. rewrite Hn in *. clearbody b.
  set (b' := if _ && _ then _ else b) in *. split; [done|].
  assert (0 <= b' < 2 ^ 9 /\ (b' = 0 <-> b = 0) /\ Z.testbit b' 8 = Z.testbit b 1 && agree_finite d o /\
    (forall k, (k < 8)%nat -> Z.testbit b' (Z.of_nat k) = Z.testbit b (Z.of_nat k))); [|tauto].
  clear HU. subst b'. destruct (Z.testbit b 1 && agree_finite d o) eqn:E; [|by repeat split; try lia; rewrite ?Hb8].
  assert (Z.testbit b 1 = true) as E1 by (by apply andb_prop in E as [? _]).
  unfold primitiveNumbersFinite. split; [|split; [|split]].
  - apply (lor_bound 9); [lia|lia|by vm_compute].
  - rewrite Z.lor_eq_0_iff. split; [naive_solver|]. intros ->. by rewrite Z.bits_0 in E1.
  - by rewrite Z.lor_spec, orb_true_r.
  - intros k Hk. rewrite Z.lor_spec. rewrite (Z.shiftl_spec_low 1) by lia. by rewrite orb_false_r.
Qed.

Lemma union_bounded d o :
  bounded d -> bounded o ->
  bounded (Union d o) /\ IsPresent (Union d o) = IsPresent d || IsPresent o /\
  (forall k, (k < 8)%nat -> kind k (Union d o) = kind k d || kind k o) /\
  NumbersAreFinite (Union d o) = (MayBeNumber d || MayBeNumber o) && agree_finite d o.
Proof.
  intros Hd Ho. destruct (union_word d o Hd Ho) as (Hb & Hb' & Hz & H8 & Hk & HU).
  set (b := Z.ldiff _ _) in *. set (b' := if _ && _ then _ else b) in *.
  assert (forall k, (k < 8)%nat -> Z.testbit b (Z.of_nat k) = kind k d || kind k o) as Hbk.
  { intros k Hlt. unfold b. rewrite cleared_bit by lia. by destruct (Nat.ltb_spec k 8); [|lia]. }
  pose proof (Hbk 1%nat ltac:(lia)) as Hb1. change (Z.of_nat 1) with 1 in Hb1.
  rewrite NumbersAreFinite_kind, !MayBeNumber_kind. rewrite HU.
  destruct (Z.eqb_spec b' 0) as [E|E].
  - assert (forall k, (k < 8)%nat -> kind k d || kind k o = false) as Hnone.
    { intros k Hlt. rewrite <- Hbk by done. rewrite (proj1 Hz E). apply Z.bits_0. }
    rewrite (Hnone 1%nat) by lia. cbn [andb]. destruct (IsPresent d || IsPresent o) eqn:Ep.
    + split; [right|split; [done|split; [|done]]].
      * split; [done|]. split; done.
      * intros k Hlt. rewrite Hnone by done. do 8 (destruct k as [|k]; [done|]). lia.
    + rewrite E. split; [by left|]. split; [done|]. split; [|done].
      intros k Hlt. rewrite Hnone by done. apply Z.bits_0.
  - cbn [andb]. assert (exists k, (k < 8)%nat /\ Z.testbit b (Z.of_nat k) = true) as (k & Hlt & Hkb).
    { destruct (existsb (fun k => kind k (mkPrimitiveValueDomain b)) [0; 1; 2; 3; 4; 5; 6; 7]%nat) eqn:Ee.
      - apply existsb_exists in Ee as (k & Hin & Hkk). exists k. split; [|done].
        simpl in Hin. repeat (destruct Hin as [<-|Hin]; [lia|]). done.
      - exfalso. apply E, Hz. apply bits_zero; [lia|]. intros k Hlt. destruct (decide (k < 8)%nat).
        + by apply (no_kinds _ Ee).
        + rewrite <- (Z.mod_small b (2 ^ 8)) by done. by rewrite Z.mod_pow2_bits_high by lia. }
    assert (IsPresent d || IsPresent o = true) as ->.
    { rewrite Hbk in Hkb by done. unfold IsPresent, kind in *. apply orb_true_iff.
      apply orb_true_iff in Hkb as [Hkb|Hkb]; [left|right]; apply negb_true_iff, Z.eqb_neq; intros H0;
        by rewrite H0, Z.bits_0 in Hkb. }
    assert (forall k, (k < 8)%nat -> kind k (mkPrimitiveValueDomain b') = kind k d || kind k o) as Hkk
      by (intros j Hj; unfold kind at 1; simpl; by rewrite Hk, Hbk).
    split; [right|split; [|split; [done|]]].
    + split; [simpl; lia|]. split.
      * rewrite (Hkk 1%nat) by lia. change (kind 8 (mkPrimitiveValueDomain b')) with (Z.testbit b' 8).
        rewrite H8, Hb1. by intros [? _]%andb_prop.
      * replace (kind 9 (mkPrimitiveValueDomain b')) with false.
        -- symmetry. apply negb_false_iff. apply existsb_exists. exists k. split.
           ++ simpl. lia.
           ++ unfold kind. simpl. by rewrite Hk.
        -- change (kind 9 (mkPrimitiveValueDomain b')) with (Z.testbit b' 9). rewrite <- (Z.mod_small b' (2 ^ 9)) by done. by rewrite Z.mod_pow2_bits_high by lia.
    + unfold IsPresent. apply negb_true_iff, Z.eqb_neq. done.
    + rewrite (Hkk 1%nat) by lia. change (kind 8 (mkPrimitiveValueDomain b')) with (Z.testbit b' 8).
      rewrite H8, Hb1.
      by destruct (kind 1 d || kind 1 o).
Qed.

(** ** The union laws *)

(** [MayBe...] of a method's bit. *)
Definition reports (m : PrimitiveValueDomain -> bool) : Prop :=
  m = MayBeString \/ m = MayBeNumber \/ m = MayBeBoolean \/ m = MayBeBigInt \/
  m = MayBeSymbol \/ m = MayBeNull \/ m = MayBeUndefined \/ m = MayBeObject.

Lemma reports_kind m : reports m -> exists k, (k < 8)%nat /\ forall d, m d = kind k d.
Proof.
  unfold reports. intros [->|[->|[->|[->|[->|[->|[->| ->]]]]]]].
  - exists 0%nat. split; [lia|exact (kind_flag 0)].
  - exists 1%nat. split; [lia|exact (kind_flag 1)].
  - exists 2%nat. split; [lia|exact (kind_flag 2)].
  - exists 3%nat. split; [lia|exact (kind_flag 3)].
  - exists 4%nat. split; [lia|exact (kind_flag 4)].
  - exists 5%nat. split; [lia|exact (kind_flag 5)].
  - exists 6%nat. split; [lia|exact (kind_flag 6)].
  - exists 7%nat. split; [lia|exact (kind_flag 7)].
Qed.

Lemma union_unknown d o : IsUnknown d || IsUnknown o = true -> Union d o = UnknownPrimitiveValueDomain.
Proof. unfold Union. by intros ->. Qed.

Lemma union_unknown_l o : Union UnknownPrimitiveValueDomain o = UnknownPrimitiveValueDomain.
Proof. done. Qed.

Lemma union_unknown_r d : Union d UnknownPrimitiveValueDomain = UnknownPrimitiveValueDomain.
Proof. apply union_unknown. apply orb_true_r. Qed.

Lemma domain_cases d : domain_ok d -> d = UnknownPrimitiveValueDomain \/ bounded d.
Proof. unfold domain_ok, bounded. tauto. Qed.

Lemma union_comm d o : domain_ok d -> domain_ok o -> Union d o = Union o d.
Proof.
  intros Hd Ho. destruct (domain_cases d Hd) as [->|Bd]; [by rewrite ?union_unknown_l, ?union_unknown_r, ?union_unknown_l|].
  destruct (domain_cases o Ho) as [->|Bo]; [by rewrite ?union_unknown_l, ?union_unknown_r, ?union_unknown_l|].
  destruct (union_bounded d o Bd Bo) as (B1 & P1 & K1 & F1).
  destruct (union_bounded o d Bo Bd) as (B2 & P2 & K2 & F2).
  apply domain_ok_ext; [by apply bounded_ok|by apply bounded_ok| | | |].
  - by rewrite P1, P2, orb_comm.
  - by rewrite !bounded_known.
  - intros k Hk. by rewrite K1, K2, orb_comm.
  - rewrite F1, F2. unfold agree_finite.
    by destruct (MayBeNumber d), (MayBeNumber o), (NumbersAreFinite d), (NumbersAreFinite o).
Qed.

Lemma union_ok d o : domain_ok d -> domain_ok o -> domain_ok (Union d o).
Proof.
  intros Hd Ho. destruct (IsUnknown d || IsUnknown o) eqn:E; [rewrite union_unknown by done; right; by left|].
  destruct (domain_cases d Hd) as [->|Bd]; [done|].
  destruct (domain_cases o Ho) as [->|Bo]; [by rewrite orb_true_r in E|].
  destruct (union_bounded d o Bd Bo) as ([B|B] & _); unfold domain_ok; auto.
Qed.

Lemma union_assoc d o p :
  domain_ok d -> domain_ok o -> domain_ok p -> Union d (Union o p) = Union (Union d o) p.
Proof.
  intros Hd Ho Hp. destruct (domain_cases d Hd) as [->|Bd]; [by rewrite !union_unknown_l|].
  destruct (domain_cases o Ho) as [->|Bo].
  { by rewrite !union_unknown_r, !union_unknown_l. }
  destruct (domain_cases p Hp) as [->|Bp]; [by rewrite ?union_unknown_l, ?union_unknown_r, ?union_unknown_l|].
  destruct (union_bounded o p Bo Bp) as (B1 & P1 & K1 & F1).
  destruct (union_bounded d o Bd Bo) as (B2 & P2 & K2 & F2).
  destruct (union_bounded d _ Bd B1) as (B3 & P3 & K3 & F3).
  destruct (union_bounded _ p B2 Bp) as (B4 & P4 & K4 & F4).
  apply domain_ok_ext; [by apply bounded_ok|by apply bounded_ok| | | |].
  - by rewrite P3, P4, P1, P2, orb_assoc.
  - by rewrite !bounded_known.
  - intros k Hk. by rewrite K3, K4, K1, K2, orb_assoc.
  - rewrite F3, F4. unfold agree_finite. rewrite F1, F2, !MayBeNumber_kind, K1, K2 by lia.
    unfold agree_finite. rewrite !MayBeNumber_kind.
    by destruct (kind 1 d), (kind 1 o), (kind 1 p), (NumbersAreFinite d), (NumbersAreFinite o), (NumbersAreFinite p).
Qed.

Lemma finite_number d : NumbersAreFinite d = true -> kind 1 d = true.
Proof. rewrite NumbersAreFinite_kind. by intros [? _]%andb_prop. Qed.

Lemma union_idemp d : domain_ok d -> Union d d = d.
Proof.
  intros Hd. destruct (domain_cases d Hd) as [->|Bd]; [done|].
  destruct (union_bounded d d Bd Bd) as (B1 & P1 & K1 & F1).
  apply domain_ok_ext; [by apply bounded_ok|by apply bounded_ok| | | |].
  - by rewrite P1, orb_diag.
  - by rewrite !bounded_known.
  - intros k Hk. by rewrite K1, orb_diag.
  - rewrite F1. unfold agree_finite. pose proof (finite_number d). rewrite MayBeNumber_kind.
    destruct (NumbersAreFinite d), (kind 1 d); naive_solver.
Qed.

Lemma union_absent d : domain_ok d -> Union (mkPrimitiveValueDomain 0) d = d.
Proof.
  intros Hd. destruct (domain_cases d Hd) as [->|Bd]; [done|].
  destruct (union_bounded (mkPrimitiveValueDomain 0) d ltac:(by left) Bd) as (B1 & P1 & K1 & F1).
  apply domain_ok_ext; [by apply bounded_ok|by apply bounded_ok| | | |].
  - by rewrite P1.
  - by rewrite !bounded_known.
  - intros k Hk. rewrite K1 by done. by rewrite kind_absent.
  - rewrite F1. unfold agree_finite. simpl. pose proof (finite_number d). rewrite MayBeNumber_kind.
    destruct (NumbersAreFinite d), (kind 1 d); naive_solver.
Qed.

(** [closed], decided. *)
Definition closedb (d : PrimitiveValueDomain) : bool :=
  (0 <? bits d) && (bits d <? 2 ^ 10) && implb (kind 8 d) (kind 1 d) &&
  Bool.eqb (kind 9 d) (negb (existsb (fun k => kind k d) [0; 1; 2; 3; 4; 5; 6; 7]%nat)).

Lemma closedb_closed d : closedb d = true -> closed d.
Proof.
  unfold closedb. intros H. bool_hyps. split; [lia|]. split; [by destruct (kind 8 d), (kind 1 d)|].
  by apply eqb_prop.
Qed.

Lemma new_ok a b c d e f g h i : domain_ok (NewPrimitiveValueDomain a b c d e f g h i).
Proof.
  right. right. apply closedb_closed. by destruct a, b, c, d, e, f, g, h, i.
Qed.

(** Union keeps domains well-formed and is a join: commutative, associative, idempotent,
    with the absent domain as unit; every MayBe query of a union is the disjunction, and
    finiteness is what both sides agree on. *)
Theorem Union_semilattice d o p :
  domain_ok d -> domain_ok o -> domain_ok p ->
  domain_ok (Union d o) /\ Union d o = Union o d /\ Union d (Union o p) = Union (Union d o) p /\
  Union d d = d /\ Union (mkPrimitiveValueDomain 0) d = d /\
  (forall m, reports m -> m (Union d o) = m d || m o) /\
  IsUnknown (Union d o) = IsUnknown d || IsUnknown o /\
  (IsUnknown d || IsUnknown o = false ->
     IsPresent (Union d o) = IsPresent d || IsPresent o /\
     NumbersAreFinite (Union d o) =
       (MayBeNumber d || MayBeNumber o) &&
       (negb (MayBeNumber d) || NumbersAreFinite d) && (negb (MayBeNumber o) || NumbersAreFinite o)).
Proof.
  intros Hd Ho Hp. split; [by apply union_ok|]. split; [by apply union_comm|]. split; [by apply union_assoc|].
  split; [by apply union_idemp|]. split; [by apply union_absent|].
  destruct (IsUnknown d || IsUnknown o) eqn:E.
  { rewrite union_unknown by done. split; [|done]. intros m (k & Hk & Hm)%reports_kind.
    rewrite !Hm, kind_unknown by lia. symmetry. apply orb_true_iff. apply orb_true_iff in E.
    destruct E as [E|E]; [left|right]; unfold IsUnknown in E; apply Z.eqb_eq in E; unfold kind; rewrite E;
      apply kind_unknown; lia. }
  destruct (domain_cases d Hd) as [->|Bd]; [done|].
  destruct (domain_cases o Ho) as [->|Bo]; [by rewrite orb_true_r in E|].
  destruct (union_bounded d o Bd Bo) as (B1 & P1 & K1 & F1).
  split; [intros m (k & Hk & Hm)%reports_kind; by rewrite !Hm, K1|].
  split; [by rewrite bounded_known|]. intros _. split; [done|]. by rewrite F1, <- andb_assoc.
Qed.

Lemma Union_semilattice_witness :
  let s := NewPrimitiveValueDomain true true false false false false false false true in
  let n := NewPrimitiveValueDomain false false false false false false false false false in
  let u := UnknownPrimitiveValueDomain in
  Union s n = Union n s /\ Union s (Union n u) = Union (Union s n) u /\ MayBeString (Union s n) = true.
Proof.
  intros s n u.
  destruct (Union_semilattice s n u (new_ok _ _ _ _ _ _ _ _ _) (new_ok _ _ _ _ _ _ _ _ _)
    (or_intror (or_introl eq_refl))) as (_ & H1 & H2 & _ & _ & H3 & _).
  split; [exact H1|]. split; [exact H2|]. rewrite (H3 MayBeString); [reflexivity|by left].
Defined.

(** A constructed domain is present, closed, and reports exactly the possibilities it was
    given; finiteness only of numbers. *)
Theorem NewPrimitiveValueDomain_reports a b c d e f g h i :
  let D := NewPrimitiveValueDomain a b c d e f g h i in
  domain_ok D /\ IsPresent D = true /\ IsUnknown D = false /\
  MayBeString D = a /\ MayBeNumber D = b /\ MayBeBoolean D = c /\ MayBeBigInt D = d /\
  MayBeSymbol D = e /\ MayBeNull D = f /\ MayBeUndefined D = g /\ MayBeObject D = h /\
  NumbersAreFinite D = b && i.
Proof.
  intros D. split; [apply new_ok|].
  enough ((IsPresent D, IsUnknown D, MayBeString D, MayBeNumber D, MayBeBoolean D, MayBeBigInt D,
    MayBeSymbol D, MayBeNull D, MayBeUndefined D, MayBeObject D, NumbersAreFinite D) =
    (true, false, a, b, c, d, e, f, g, h, b && i)) by naive_solver.
  by destruct a, b, c, d, e, f, g, h, i.
Qed.
