(* ===== verification/FactEqual.v ===== *)
(** * Row equality

    [facttable_equal.go], the equality the delta planner decides rows with.
    Two lists that share their backing array are equal without being looked
    at; the interface [Backing] says when the code may see that. Numbers are
    compared with Go's [==], so a NaN differs from itself and the two zeros
    agree, and a nil list equals an empty one. *)

From S2P Require Import Prelude GoStd Model.
Open Scope Z_scope.

(** [&left[0] == &right[0]] on two non-empty lists of one length: where it
    holds the lists hold the same rows. *)
Class Backing := {
  shares_locations : list Location -> list Location -> bool;
  shares_entities : list EntityFact -> list EntityFact -> bool;
  shares_symbols : list SymbolFact -> list SymbolFact -> bool;
  shares_locations_eq l r : length l = length r -> shares_locations l r = true -> l = r;
  shares_entities_eq l r : length l = length r -> shares_entities l r = true -> l = r;
  shares_symbols_eq l r : length l = length r -> shares_symbols l r = true -> l = r;
}.

(** Nothing is shared: every list has a backing array of its own. *)
#[export] Instance fresh_backing : Backing.
Proof.
  refine {| shares_locations _ _ := false; shares_entities _ _ := false; shares_symbols _ _ := false |};
    done.
Defined.

(** [slices.EqualFunc], and [slices.Equal] with the element's [==]. *)
Fixpoint equal_func {A} (eqb : A -> A -> bool) (left right : list A) : bool :=
  match left, right with
  | [], [] => true
  | l :: left', r :: right' => eqb l r && equal_func eqb left' right'
  | _, _ => false
  end.

(** [left == right] where Go's [==] is structural equality. *)
Definition go_eq `{EqDecision A} (left right : A) : bool := bool_decide (left = right).

(** [if left == nil || right == nil { return left == right }]. *)
Definition pointer_equal {A} (eqb : A -> A -> bool) (left right : option A) : bool :=
  match left, right with
  | Some l, Some r => eqb l r
  | None, None => true
  | _, _ => false
  end.

Section Equal.
Context `{BK : !Backing}.

Definition locationsEqual (left right : list Location) : bool :=
  if negb (length left =? length right)%nat then false
  else if (length left =? 0)%nat || shares_locations left right then true
  else equal_func go_eq left right.

Definition symbolFactEqual (left right : SymbolFact) : bool :=
  go_eq (ID left) (ID right) &&
  go_eq (AliasTarget left) (AliasTarget right) &&
  equal_func go_eq (Declarations left) (Declarations right) &&
  locationsEqual (References left) (References right).

Definition typeDescriptorEqual : option TypeDescriptor -> option TypeDescriptor -> bool :=
  pointer_equal (fun left right =>
    go_eq (Text left) (Text right) &&
    go_eq (td_OriginModule left) (td_OriginModule right) &&
    equal_func go_eq (AliasDeclarations left) (AliasDeclarations right)).

Definition resolvedDeclarationEqual : option ResolvedDeclaration -> option ResolvedDeclaration -> bool :=
  pointer_equal (fun left right =>
    go_eq (rd_Symbol left) (rd_Symbol right) &&
    go_eq (rd_Name left) (rd_Name right) &&
    go_eq (rd_Kind left) (rd_Kind right) &&
    go_eq (rd_Location left) (rd_Location right) &&
    go_eq (QualifiedName left) (QualifiedName right) &&
    go_eq (rd_OriginModule left) (rd_OriginModule right) &&
    go_eq (rd_SourceFile left) (rd_SourceFile right) &&
    go_eq (StandardLibrary left) (StandardLibrary right) &&
    equal_func go_eq (Owners left) (Owners right)).

Definition callTargetSetEqual : option CallTargetSet -> option CallTargetSet -> bool :=
  pointer_equal (fun left right =>
    go_eq (Exhaustive left) (Exhaustive right) &&
    equal_func (fun l r => resolvedDeclarationEqual (Some l) (Some r)) (Candidates left) (Candidates right)).

Definition objectConstructionShapeEqual :
    option ObjectConstructionShape -> option ObjectConstructionShape -> bool :=
  pointer_equal (fun left right => equal_func go_eq (RequiredProperties left) (RequiredProperties right)).

Definition parameterFactEqual : option ParameterFact -> option ParameterFact -> bool :=
  pointer_equal (fun left right =>
    if negb (go_eq (pf_Index left) (pf_Index right)) ||
       negb (go_eq (pf_Symbol left) (pf_Symbol right)) ||
       negb (go_eq (Rest left) (Rest right)) ||
       negb (go_eq (Optional left) (Optional right)) ||
       negb (go_eq (pf_Callability left) (pf_Callability right)) ||
       negb (objectConstructionShapeEqual (ObjectShape left) (ObjectShape right)) ||
       negb (typeDescriptorEqual (pf_TypeDescriptor left) (pf_TypeDescriptor right))
    then false
    else pointer_equal go_eq (pf_Declaration left) (pf_Declaration right)).

Definition argumentMappingEqual (left right : ArgumentMapping) : bool :=
  go_eq (ArgumentIndex left) (ArgumentIndex right) &&
  go_eq (Status left) (Status right) &&
  go_eq (Unresolved left) (Unresolved right) &&
  parameterFactEqual (Parameter_ left) (Parameter_ right).

Definition resolvedCallEqual : option Call -> option Call -> bool :=
  pointer_equal (fun left right =>
    go_eq (call_Target left) (call_Target right) &&
    go_eq (ReturnTypeText left) (ReturnTypeText right) &&
    go_eq (Validity left) (Validity right) &&
    go_eq (call_Kind left) (call_Kind right) &&
    resolvedDeclarationEqual (call_Declaration left) (call_Declaration right) &&
    callTargetSetEqual (Targets left) (Targets right) &&
    equal_func argumentMappingEqual (call_Arguments left) (call_Arguments right)).

Definition runtimeValueDomainEqual : option RuntimeValueDomain -> option RuntimeValueDomain -> bool :=
  pointer_equal go_eq.

Definition tupleShapeEqual : option TupleShape -> option TupleShape -> bool := pointer_equal go_eq.

(** [==] on the two structs that carry a [float64]. *)
Definition constant_eq (left right : ConstantValue) : bool :=
  go_eq (cv_Kind left) (cv_Kind right) && go_eq (cv_String left) (cv_String right) &&
  float_eqb (cv_Number left) (cv_Number right).

Definition literal_eq (left right : PrimitiveLiteralCandidate) : bool :=
  go_eq (plc_Kind left) (plc_Kind right) && go_eq (plc_String left) (plc_String right) &&
  float_eqb (plc_Number left) (plc_Number right) && go_eq (plc_Boolean left) (plc_Boolean right).

Definition constantValueEqual : option ConstantValue -> option ConstantValue -> bool :=
  pointer_equal constant_eq.

Definition entityFactEqual (left right : EntityFact) : bool :=
  go_eq (ef_Location left) (ef_Location right) &&
  go_eq (ef_Symbol left) (ef_Symbol right) &&
  go_eq (SymbolUnresolved left) (SymbolUnresolved right) &&
  go_eq (ef_Callability left) (ef_Callability right) &&
  go_eq (ef_Constructability left) (ef_Constructability right) &&
  go_eq (ef_ReferenceSpace left) (ef_ReferenceSpace right) &&
  go_eq (RuntimeIdentity left) (RuntimeIdentity right) &&
  runtimeValueDomainEqual (ef_RuntimeValueDomain left) (ef_RuntimeValueDomain right) &&
  go_eq (ef_PrimitiveValueDomain left) (ef_PrimitiveValueDomain right) &&
  equal_func literal_eq (PrimitiveLiteralCandidates left) (PrimitiveLiteralCandidates right) &&
  runtimeValueDomainEqual (CallResultDomain left) (CallResultDomain right) &&
  constantValueEqual (ef_ConstantValue left) (ef_ConstantValue right) &&
  go_eq (ef_ArrayShape left) (ef_ArrayShape right) &&
  tupleShapeEqual (ef_TupleShape left) (ef_TupleShape right) &&
  equal_func go_eq (default [] (LibraryTypes left)) (default [] (LibraryTypes right)) &&
  typeDescriptorEqual (ef_TypeDescriptor left) (ef_TypeDescriptor right) &&
  resolvedCallEqual (ResolvedCall left) (ResolvedCall right).

Definition entityFactsEqual (left right : list EntityFact) : bool :=
  if negb (length left =? length right)%nat then false
  else if (length left =? 0)%nat || shares_entities left right then true
  else equal_func entityFactEqual left right.

Definition sourceCallEqual (left right : SourceCall) : bool :=
  go_eq (sc_Location left) (sc_Location right) &&
  go_eq (Callee left) (Callee right) &&
  go_eq (sc_Target left) (sc_Target right) &&
  locationsEqual (sc_Arguments left) (sc_Arguments right).

Definition sourceBindingEqual (left right : SourceBinding) : bool :=
  go_eq (Array left) (Array right) &&
  locationsEqual (Names left) (Names right) &&
  sourceCallEqual (Initializer left) (Initializer right).

Definition sourceFunctionEqual (left right : SourceFunction) : bool :=
  go_eq (sf_Name left) (sf_Name right) &&
  go_eq (Body left) (Body right) &&
  go_eq (Exported left) (Exported right) &&
  go_eq (sf_Async left) (sf_Async right) &&
  go_eq (Arrow left) (Arrow right) &&
  locationsEqual (sf_Parameters left) (sf_Parameters right).

Definition asyncFunctionFactEqual (left right : AsyncFunctionFact) : bool :=
  go_eq (Expression left) (Expression right) &&
  go_eq (af_Symbol left) (af_Symbol right) &&
  go_eq (af_Target left) (af_Target right) &&
  go_eq (CanReturnAsync left) (CanReturnAsync right) &&
  locationsEqual (CallsAfterAwait left) (CallsAfterAwait right).

Definition fileFactEqual (left right : FileFact) : bool :=
  go_eq (ff_Path left) (ff_Path right) &&
  equal_func sourceCallEqual (Calls left) (Calls right) &&
  equal_func sourceBindingEqual (Bindings left) (Bindings right) &&
  equal_func sourceFunctionEqual (Functions left) (Functions right) &&
  equal_func asyncFunctionFactEqual (AsyncFunctions left) (AsyncFunctions right).

End Equal.

(** ** What the equality decides *)

Lemma go_eq_true `{EqDecision A} (l r : A) : go_eq l r = true <-> l = r.
Proof. apply bool_decide_eq_true. Qed.

Lemma equal_func_map {A B} (eqb : A -> A -> bool) (f : A -> B) (P : A -> Prop) l r :
  (forall a b, eqb a b = true <-> P a /\ f a = f b) ->
  equal_func eqb l r = true <-> Forall P l /\ map f l = map f r.
Proof.
  intros H. revert r. induction l as [|a l IH]; intros [|b r]; simpl.
  - split; [split; [constructor|done]|done].
  - split; [done|]. by intros [_ ?].
  - split; [done|]. by intros [_ ?].
  - rewrite andb_true_iff, H, IH, Forall_cons.
    split; [intros [[? ?] [? ?]]; split; [done|congruence]|intros [[? ?] [= ? ?]]; done].
Qed.

Lemma equal_func_eq {A} (eqb : A -> A -> bool) l r :
  (forall a b, eqb a b = true <-> a = b) -> equal_func eqb l r = true <-> l = r.
Proof.
  intros H. rewrite (equal_func_map eqb id (fun _ => True)).
  - rewrite !map_id. split; [by intros [_ ?]|]. intros ->. split; [by apply Forall_true|done].
  - intros a b. rewrite H. naive_solver.
Qed.

Lemma equal_func_go_eq `{EqDecision A} (l r : list A) : equal_func go_eq l r = true <-> l = r.
Proof. apply equal_func_eq, go_eq_true. Qed.

Lemma pointer_equal_eq {A} (eqb : A -> A -> bool) l r :
  (forall a b, eqb a b = true <-> a = b) -> pointer_equal eqb l r = true <-> l = r.
Proof. intros H. destruct l, r; simpl; rewrite ?H; split; congruence. Qed.

Lemma pointer_equal_map {A B} (eqb : A -> A -> bool) (f : A -> B) (P : A -> Prop) l r :
  (forall a b, eqb a b = true <-> P a /\ f a = f b) ->
  pointer_equal eqb l r = true <-> from_option P True l /\ f <$> l = f <$> r.
Proof.
  intros H. destruct l, r; simpl; rewrite ?H; split; try (intros [? ?]); try split; try congruence; done.
Qed.

(** Numbers: [==] holds away from NaN, up to the sign of zero. *)
Definition norm_float (f : Z) : Z := if is_zero f then 0 else f.

Lemma zero_not_nan f : is_zero f = true -> is_nan f = false.
Proof.
  unfold is_zero, is_nan. intros H. apply Z.eqb_eq in H. apply andb_false_iff. right.
  apply negb_false_iff, Z.eqb_eq. apply (f_equal (fun z => Z.land z (2 ^ 52 - 1))) in H.
  rewrite <- Z.land_assoc in H. exact H.
Qed.

Lemma float_eqb_norm a b : float_eqb a b = true <-> is_nan a = false /\ norm_float a = norm_float b.
Proof.
  unfold float_eqb, norm_float. rewrite !andb_true_iff, orb_true_iff, andb_true_iff, !negb_true_iff, Z.eqb_eq.
  destruct (is_zero a) eqn:Ea, (is_zero b) eqn:Eb.
  - rewrite !zero_not_nan by done. naive_solver.
  - split; [intros [[? ?] [->|[_ ?]]]; congruence|]. intros [_ <-]. done.
  - split; [intros [[? ?] [->|[? _]]]; congruence|]. intros [_ ->]. done.
  - split; [intros [[? ?] [->|[? _]]]; [done|congruence]|]. intros [? ->]. tauto.
Qed.

(** Reads a chain of comparisons. *)
Ltac read_equal :=
  rewrite ?andb_true_iff, ?go_eq_true, ?equal_func_go_eq.

(** Closes an equality of records against the comparison of their fields. *)
Ltac record_equal :=
  simpl; split;
  [ intros; destruct_and?; subst; reflexivity
  | let H := fresh in intros H; injection H; clear H; intros; subst; repeat split ].

Section EqualFacts.
Context `{BK : !Backing}.

Lemma shared_or_equal {A} (shares : list A -> list A -> bool) (eqb : list A -> list A -> bool) l r :
  (length l = length r -> shares l r = true -> l = r) ->
  (if negb (length l =? length r)%nat then false
   else if (length l =? 0)%nat || shares l r then true else eqb l r) = true <->
  length l = length r /\ (l = r /\ ((length l =? 0)%nat || shares l r) = true \/ eqb l r = true).
Proof.
  intros Hs. destruct (Nat.eqb_spec (length l) (length r)) as [E|E]; simpl; [|naive_solver].
  destruct (_ || _) eqn:Eo; [|naive_solver]. split; [|done]. intros _. split; [done|]. left. split; [|done].
  apply orb_true_iff in Eo as [Eo|Eo]; [|by apply Hs]. apply Nat.eqb_eq in Eo.
  destruct l; [|done]. by destruct r.
Qed.

Lemma locationsEqual_eq l r : locationsEqual l r = true <-> l = r.
Proof.
  unfold locationsEqual. rewrite shared_or_equal by apply shares_locations_eq.
  rewrite equal_func_go_eq. naive_solver.
Qed.

Lemma symbolFactEqual_eq l r : symbolFactEqual l r = true <-> l = r.
Proof. unfold symbolFactEqual. read_equal. rewrite locationsEqual_eq. destruct l, r; record_equal. Qed.

Lemma typeDescriptorEqual_eq l r : typeDescriptorEqual l r = true <-> l = r.
Proof. apply pointer_equal_eq. intros a b. read_equal. destruct a, b; record_equal. Qed.

Lemma resolvedDeclarationEqual_eq l r : resolvedDeclarationEqual l r = true <-> l = r.
Proof. apply pointer_equal_eq. intros a b. read_equal. destruct a, b; record_equal. Qed.

Lemma callTargetSetEqual_eq l r : callTargetSetEqual l r = true <-> l = r.
Proof.
  apply pointer_equal_eq. intros a b. read_equal.
  rewrite (equal_func_eq (fun l r => resolvedDeclarationEqual (Some l) (Some r))).
  - destruct a, b; record_equal.
  - intros c d. rewrite resolvedDeclarationEqual_eq. naive_solver.
Qed.

Lemma objectConstructionShapeEqual_eq l r : objectConstructionShapeEqual l r = true <-> l = r.
Proof. apply pointer_equal_eq. intros a b. read_equal. destruct a, b; record_equal. Qed.

Lemma guard_false (b c : bool) : (if b then false else c) = true <-> b = false /\ c = true.
Proof. destruct b; naive_solver. Qed.

Lemma parameterFactEqual_eq l r : parameterFactEqual l r = true <-> l = r.
Proof.
  apply pointer_equal_eq. intros a b. rewrite guard_false, !orb_false_iff, !negb_false_iff.
  rewrite (pointer_equal_eq go_eq) by (intros; apply go_eq_true).
  read_equal. rewrite objectConstructionShapeEqual_eq, typeDescriptorEqual_eq.
  destruct a, b; record_equal.
Qed.

Lemma argumentMappingEqual_eq l r : argumentMappingEqual l r = true <-> l = r.
Proof. unfold argumentMappingEqual. read_equal. rewrite parameterFactEqual_eq. destruct l, r; record_equal. Qed.

Lemma resolvedCallEqual_eq l r : resolvedCallEqual l r = true <-> l = r.
Proof.
  apply pointer_equal_eq. intros a b. read_equal.
  rewrite resolvedDeclarationEqual_eq, callTargetSetEqual_eq, equal_func_eq by apply argumentMappingEqual_eq.
  destruct a, b; record_equal.
Qed.

Lemma sourceCallEqual_eq l r : sourceCallEqual l r = true <-> l = r.
Proof. unfold sourceCallEqual. read_equal. rewrite locationsEqual_eq. destruct l, r; record_equal. Qed.

Lemma sourceBindingEqual_eq l r : sourceBindingEqual l r = true <-> l = r.
Proof.
  unfold sourceBindingEqual. read_equal. rewrite locationsEqual_eq, sourceCallEqual_eq.
  destruct l, r; record_equal.
Qed.

Lemma sourceFunctionEqual_eq l r : sourceFunctionEqual l r = true <-> l = r.
Proof. unfold sourceFunctionEqual. read_equal. rewrite locationsEqual_eq. destruct l, r; record_equal. Qed.

Lemma asyncFunctionFactEqual_eq l r : asyncFunctionFactEqual l r = true <-> l = r.
Proof. unfold asyncFunctionFactEqual. read_equal. rewrite locationsEqual_eq. destruct l, r; record_equal. Qed.

Lemma fileFactEqual_eq l r : fileFactEqual l r = true <-> l = r.
Proof.
  unfold fileFactEqual. read_equal.
  rewrite (equal_func_eq sourceCallEqual) by apply sourceCallEqual_eq.
  rewrite (equal_func_eq sourceBindingEqual) by apply sourceBindingEqual_eq.
  rewrite (equal_func_eq sourceFunctionEqual) by apply sourceFunctionEqual_eq.
  rewrite (equal_func_eq asyncFunctionFactEqual) by apply asyncFunctionFactEqual_eq.
  destruct l, r; record_equal.
Qed.

(** The row as the equality sees it, and the rows it can call equal. *)
Definition norm_constant (c : ConstantValue) : ConstantValue :=
  mkConstantValue (cv_Kind c) (cv_String c) (norm_float (cv_Number c)).

Definition norm_literal (c : PrimitiveLiteralCandidate) : PrimitiveLiteralCandidate :=
  mkPrimitiveLiteralCandidate (plc_Kind c) (plc_String c) (norm_float (plc_Number c)) (plc_Boolean c).

Definition norm_entity (e : EntityFact) : EntityFact :=
  mkEntityFact (ef_Location e) (ef_Symbol e) (SymbolUnresolved e) (ef_TypeDescriptor e) (ResolvedCall e)
    (ef_Callability e) (ef_RuntimeValueDomain e) (ef_PrimitiveValueDomain e)
    (map norm_literal (PrimitiveLiteralCandidates e)) (ef_Constructability e) (CallResultDomain e)
    (norm_constant <$> ef_ConstantValue e) (ef_ArrayShape e) (ef_TupleShape e)
    (Some (default [] (LibraryTypes e))) (ef_ReferenceSpace e) (RuntimeIdentity e).

Definition comparable (e : EntityFact) : Prop :=
  Forall (fun c => is_nan (plc_Number c) = false) (PrimitiveLiteralCandidates e) /\
  from_option (fun c => is_nan (cv_Number c) = false) True (ef_ConstantValue e).

Lemma constant_eq_norm a b :
  constant_eq a b = true <-> is_nan (cv_Number a) = false /\ norm_constant a = norm_constant b.
Proof. unfold constant_eq, norm_constant. read_equal. rewrite float_eqb_norm. destruct a, b; simpl.
  split; [intros E; destruct_and? E; subst; split; [done|congruence]|intros [? E]; injection E; intros; subst; repeat split; done]. Qed.

Lemma literal_eq_norm a b :
  literal_eq a b = true <-> is_nan (plc_Number a) = false /\ norm_literal a = norm_literal b.
Proof. unfold literal_eq, norm_literal. read_equal. rewrite float_eqb_norm. destruct a, b; simpl.
  split; [intros E; destruct_and? E; subst; split; [done|congruence]|intros [? E]; injection E; intros; subst; repeat split; done]. Qed.

Lemma entityFactEqual_norm l r :
  entityFactEqual l r = true <-> comparable l /\ norm_entity l = norm_entity r.
Proof.
  unfold entityFactEqual, comparable, norm_entity, runtimeValueDomainEqual, tupleShapeEqual, constantValueEqual.
  read_equal. rewrite !(pointer_equal_eq go_eq) by (intros; apply go_eq_true).
  rewrite (equal_func_map literal_eq norm_literal) by (intros; apply literal_eq_norm).
  rewrite (pointer_equal_map constant_eq norm_constant) by (intros; apply constant_eq_norm).
  rewrite typeDescriptorEqual_eq, resolvedCallEqual_eq.
  split.
  - intros E. destruct_and? E. split; [done|]. f_equal; (done || congruence).
  - intros [[? ?] E]. injection E. intros. repeat split; done.
Qed.
End EqualFacts.

Section EqualRows.
Context `{BK : !Backing}.

Lemma entityFactsEqual_norm l r :
  (entityFactsEqual l r = true -> map norm_entity l = map norm_entity r) /\
  (Forall comparable l -> map norm_entity l = map norm_entity r -> entityFactsEqual l r = true).
Proof.
  pose proof (equal_func_map entityFactEqual norm_entity comparable l r entityFactEqual_norm) as E.
  unfold entityFactsEqual. rewrite shared_or_equal by apply shares_entities_eq. split.
  - intros [_ [[-> _]|Heq]]; [done|]. by apply E.
  - intros Hc Hm. split; [|right; by apply E]. by rewrite <- (length_map norm_entity l), Hm, length_map.
Qed.
End EqualRows.

(** Whatever backing arrays the lists share, symbol, file and call equality decide
    equality, and entity equality decides equality up to a nil list and the sign of zero on rows
    without NaN. *)
Theorem row_equality_decides `{BK : !Backing} :
  (forall l r, symbolFactEqual l r = true <-> l = r) /\
  (forall l r, fileFactEqual l r = true <-> l = r) /\
  (forall l r, resolvedCallEqual l r = true <-> l = r) /\
  (forall l r, entityFactsEqual l r = true -> map norm_entity l = map norm_entity r) /\
  (forall l r, Forall comparable l -> map norm_entity l = map norm_entity r -> entityFactsEqual l r = true).
Proof.
  split; [apply symbolFactEqual_eq|]. split; [apply fileFactEqual_eq|]. split; [apply resolvedCallEqual_eq|].
  split; intros l r; apply entityFactsEqual_norm.
Qed.

Lemma row_equality_decides_witness :
  symbolFactEqual (mkSymbolFact "a" "" [] [mkLocation "f" 0 1]) (mkSymbolFact "a" "" [] [mkLocation "f" 0 2]) = false.
Proof.
  destruct (@row_equality_decides fresh_backing) as (H & _).
  destruct (symbolFactEqual _ _) eqn:E; [|reflexivity]. apply H in E. discriminate E.
Defined.

(** The sign of zero is invisible to the row equality. *)
Example zero_sign_invisible :
  let row n := mkEntityFact (mkLocation "a" 0 1) "" false None None "" None (mkPrimitiveValueDomain 0)
      [mkPrimitiveLiteralCandidate PrimitiveLiteralNumber "" n false] 0 None None "" None None "" "" in
  entityFactEqual (row 0) (row (2 ^ 63)) = true /\ row 0 <> row (2 ^ 63).
Proof. split; [reflexivity|discriminate]. Qed.
