(* ===== verification/SymbolIntern.v ===== *)
(** * Symbol interning

    [symbol_intern.go]: dense [int32] handles for symbol identities, and the
    per-generation bitsets over them. A set's pointer to its interner is a
    parameter of its operations, because sets of one generation share it; a
    set is built on a scratch array whose stale contents must not show. *)

From S2P Require Import Prelude GoStd Model.
Open Scope Z_scope.

Record symbolInterner := mkSymbolInterner {
  handles : gmap string Z;
  interned : Z;
}.

Definition newSymbolInterner : symbolInterner := mkSymbolInterner ∅ 0.

Definition handle (n : symbolInterner) (id : SymbolID) : Z * symbolInterner :=
  match handles n !! id with
  | Some h => (h, n)
  | None =>
      let h := interned n in
      (h, mkSymbolInterner (<[id := h]> (handles n)) (i32 (interned n + 1)))
  end.

Definition lookup_handle (n : symbolInterner) (id : SymbolID) : option Z := handles n !! id.

Definition interner_size (n : symbolInterner) : Z := interned n.

Record symbolHandleSet := mkSymbolHandleSet {
  members : list bool;
  set_count : Z;
}.

(** [scratch] is the array up to its capacity. *)
Definition newSymbolHandleSet (n : symbolInterner) (scratch : list bool) : symbolHandleSet :=
  if Z.of_nat (length scratch) <? interner_size n
  then mkSymbolHandleSet (replicate (Z.to_nat (interner_size n)) false) 0
  else mkSymbolHandleSet (map (fun _ => false) scratch) 0.

(** The members grown to hold [h]: geometrically, and at least to the
    interner's size. *)
Definition grow (n : symbolInterner) (ms : list bool) (h : Z) : list bool :=
  let len := Z.of_nat (length ms) in
  if len <=? h then
    let next := Z.max 64 (len * 2) in
    let next := Z.max (Z.max next (interner_size n)) (h + 1) in
    ms ++ replicate (Z.to_nat next - length ms) false
  else ms.

Definition set_add (n : symbolInterner) (s : symbolHandleSet) (h : Z) : bool * symbolHandleSet :=
  let ms := grow n (members s) h in
  match ms !! Z.to_nat h with
  | Some false => (true, mkSymbolHandleSet (<[Z.to_nat h := true]> ms) (set_count s + 1))
  | _ => (false, mkSymbolHandleSet ms (set_count s))
  end.

Definition addID (n : symbolInterner) (s : symbolHandleSet) (id : SymbolID) :
    bool * symbolInterner * symbolHandleSet :=
  let '(h, n) := handle n id in
  let '(added, s) := set_add n s h in
  (added, n, s).

Definition contains (s : symbolHandleSet) (h : Z) : bool :=
  (h <? Z.of_nat (length (members s))) && default false (members s !! Z.to_nat h).

Definition containsID (n : symbolInterner) (s : symbolHandleSet) (id : SymbolID) : bool :=
  match lookup_handle n id with Some h => contains s h | None => false end.

Definition set_len (s : symbolHandleSet) : Z := set_count s.

(** [changedSymbolSet]: a set with its insertions in order. *)
Record changedSymbolSet := mkChangedSymbolSet {
  cs_set : symbolHandleSet;
  cs_ids : list SymbolID;
}.

Definition newChangedSymbolSet (n : symbolInterner) (scratch : list bool) : changedSymbolSet :=
  mkChangedSymbolSet (newSymbolHandleSet n scratch) [].

Definition changed_add (st : symbolInterner * changedSymbolSet) (id : SymbolID) :
    symbolInterner * changedSymbolSet :=
  let '(n, c) := st in
  let '(added, n, s) := addID n (cs_set c) id in
  (n, mkChangedSymbolSet s (if added then cs_ids c ++ [id] else cs_ids c)).

Definition changed_containsID (n : symbolInterner) (c : changedSymbolSet) (id : SymbolID) : bool :=
  containsID n (cs_set c) id.

Definition changed_len (c : changedSymbolSet) : Z := Z.of_nat (length (cs_ids c)).

(** ** Invariants *)

(** Handles are dense, distinct and fit their width. *)
Record interner_ok (n : symbolInterner) : Prop := {
  handles_range id h : handles n !! id = Some h -> 0 <= h < interned n;
  handles_inj id1 id2 h : handles n !! id1 = Some h -> handles n !! id2 = Some h -> id1 = id2;
  handles_dense h : 0 <= h < interned n -> exists id, handles n !! id = Some h;
  handles_fit : 0 <= interned n < 2 ^ 31;
}.

(** The set holds exactly [X], and counts it. *)
Record holds (n : symbolInterner) (s : symbolHandleSet) (X : gset string) : Prop := {
  holds_member id : containsID n s id = true <-> id ∈ X;
  holds_count : set_count s = Z.of_nat (size X);
  holds_assigned k : members s !! k = Some true -> Z.of_nat k < interned n;
}.

Lemma newSymbolInterner_ok : interner_ok newSymbolInterner.
Proof. split; simpl; [done|done|lia|lia]. Qed.

Lemma handle_spec n id :
  interner_ok n -> interned n + 1 < 2 ^ 31 ->
  let '(h, n') := handle n id in
  interner_ok n' /\ handles n' !! id = Some h /\ interned n <= interned n' <= interned n + 1 /\
  (forall id', id' <> id -> handles n' !! id' = handles n !! id') /\
  (forall h', handles n !! id = Some h' -> h' = h /\ n' = n).
Proof.
  intros [Hr Hi Hd Hf] Hlt. unfold handle. destruct (handles n !! id) as [h|] eqn:E.
  { split; [done|]. split; [done|]. split; [lia|]. naive_solver. }
  simpl. rewrite i32_id by lia. split; [split; simpl|split; [by rewrite lookup_insert_eq|split; [lia|split; [|done]]]].
  - intros id' h [[-> <-]|[? H']]%lookup_insert_Some; [lia|]. specialize (Hr _ _ H'). lia.
  - intros a b h [[<- <-]|[? Ha]]%lookup_insert_Some [[<- Hb]|[? Hb]]%lookup_insert_Some; subst.
    + done.
    + specialize (Hr _ _ Hb). lia.
    + specialize (Hr _ _ Ha). lia.
    + by apply (Hi a b h).
  - intros h Hh. destruct (decide (h = interned n)) as [->|].
    + exists id. apply lookup_insert_eq.
    + destruct (Hd h) as [id' H']; [lia|]. exists id'. rewrite lookup_insert_ne; [done|]. congruence.
  - lia.
  - intros id' Hne. by rewrite lookup_insert_ne.
Qed.

Lemma contains_member s h : 0 <= h -> contains s h = true <-> members s !! Z.to_nat h = Some true.
Proof.
  intros Hh. unfold contains. rewrite andb_true_iff, Z.ltb_lt.
  destruct (members s !! Z.to_nat h) as [b|] eqn:E; simpl.
  - apply lookup_lt_Some in E. destruct b; split; naive_solver lia.
  - split; naive_solver.
Qed.

Lemma new_set_false n scratch k b : members (newSymbolHandleSet n scratch) !! k = Some b -> b = false.
Proof.
  unfold newSymbolHandleSet. destruct (_ <? _); simpl.
  - intros H%list_elem_of_lookup_2. by apply elem_of_replicate in H as [? _].
  - rewrite list_lookup_fmap. by destruct (scratch !! k) as [c|]; intros ?; simplify_eq/=.
Qed.

Lemma newSymbolHandleSet_holds n scratch : holds n (newSymbolHandleSet n scratch) ∅.
Proof.
  split.
  - intros id. split; [|set_solver]. unfold containsID, contains. destruct (lookup_handle n id) as [h|]; [|done].
    intros [_ H]%andb_prop. destruct (_ !! Z.to_nat h) as [b|] eqn:E; [|done].
    apply new_set_false in E. by subst.
  - unfold newSymbolHandleSet. by destruct (_ <? _).
  - intros k H. by apply new_set_false in H.
Qed.

Lemma grow_spec n ms h : 0 <= h ->
  (Z.to_nat h < length (grow n ms h))%nat /\
  (forall k, grow n ms h !! k = Some true <-> ms !! k = Some true).
Proof.
  intros Hh. unfold grow. destruct (Z.leb_spec (Z.of_nat (length ms)) h); [|split; [lia|done]].
  split; [rewrite length_app, length_replicate; lia|].
  intros k. rewrite lookup_app. destruct (ms !! k) as [b|] eqn:E; [done|].
  split; [|done]. intros H'%list_elem_of_lookup_2. by apply elem_of_replicate in H' as [? _].
Qed.

Lemma set_add_members n s h :
  0 <= h ->
  let '(added, s') := set_add n s h in
  (forall k, members s' !! k = Some true <-> k = Z.to_nat h \/ members s !! k = Some true) /\
  added = negb (contains s h) /\ set_count s' = set_count s + (if added then 1 else 0).
Proof.
  intros Hh. pose proof (grow_spec n (members s) h Hh) as [Hl Hg]. unfold set_add.
  pose proof (contains_member s h Hh) as Hc.
  destruct (lookup_lt_is_Some_2 _ _ Hl) as [b Hb]. rewrite Hb.
  assert (contains s h = b) as ->.
  { destruct b; [by apply Hc, Hg|]. apply not_true_iff_false. rewrite Hc, <- Hg, Hb. done. }
  destruct b; simpl; (split; [|split; [done|lia]]); intros k.
  - rewrite Hg. split; [auto|]. intros [->|?]; [by apply Hg|done].
  - destruct (decide (k = Z.to_nat h)) as [->|Hne].
    + rewrite list_lookup_insert_eq by done. naive_solver.
    + rewrite list_lookup_insert_ne by done. rewrite Hg. naive_solver.
Qed.

Lemma addID_holds n s X id :
  interner_ok n -> interned n + 1 < 2 ^ 31 -> holds n s X ->
  let '(added, n', s') := addID n s id in
  interner_ok n' /\ interned n <= interned n' <= interned n + 1 /\
  holds n' s' ({[id]} ∪ X) /\ added = bool_decide (id ∉ X) /\
  (forall id', handles n !! id' = None -> id' <> id -> handles n' !! id' = None).
Proof.
  intros Hn Hlt [Hm Hc Ha]. unfold addID. pose proof (handle_spec n id Hn Hlt) as Hh.
  destruct (handle n id) as [h n']. destruct Hh as (Hn' & Hid & Hi & Hother & Hold).
  pose proof (handles_range n' Hn' _ _ Hid) as Hhr.
  pose proof (set_add_members n' s h ltac:(lia)) as Hs. destruct (set_add n' s h) as [added s'].
  destruct Hs as (Hms & Hadd & Hcount).
  assert (contains s h = bool_decide (id ∈ X)) as Hcon.
  { apply eq_bool_prop_intro. rewrite !Is_true_true, bool_decide_eq_true, <- Hm.
    unfold containsID, lookup_handle. destruct (handles n !! id) as [h'|] eqn:E.
    - by destruct (Hold h' eq_refl) as [-> _].
    - split; [|done]. rewrite contains_member by lia. intros Hk%Ha.
      exfalso. rewrite Z2Nat.id in Hk by lia.
      destruct (handles_dense n Hn h ltac:(lia)) as [id' Hid'].
      assert (id' <> id) as Hne by congruence. rewrite <- (Hother id' Hne) in Hid'.
      by apply Hne, (handles_inj n' Hn' _ _ h). }
  split; [done|]. split; [done|]. split; [split|split].
  - intros id'. rewrite elem_of_union, elem_of_singleton. unfold containsID, lookup_handle.
    destruct (decide (id' = id)) as [->|Hne].
    + rewrite Hid. rewrite contains_member by lia. rewrite Hms. naive_solver.
    + rewrite (Hother id' Hne). rewrite <- Hm. unfold containsID, lookup_handle.
      destruct (handles n !! id') as [h'|] eqn:E; [|naive_solver].
      pose proof (handles_range n Hn _ _ E). rewrite !contains_member, Hms by lia.
      split; [intros [Heq|?]; [|auto]|intros [?|?]; [done|auto]].
      exfalso. assert (h' = h) as -> by lia. apply Hne, (handles_inj n' Hn' _ _ h); [|done].
      by rewrite Hother.
  - rewrite Hcount, Hadd, Hcon, Hc. case_bool_decide as HX; simpl.
    + by rewrite subseteq_union_1_L, Z.add_0_r by set_solver.
    + rewrite size_union by set_solver. rewrite size_singleton. lia.
  - intros k Hk. apply Hms in Hk as [->|Hk]; [lia|]. specialize (Ha k Hk). lia.
  - by rewrite Hadd, Hcon, <- bool_decide_not.
  - intros id' H' Hne. by rewrite Hother.
Qed.

(** ** A generation of insertions *)

Definition changed_adds (n : symbolInterner) (c : changedSymbolSet) (ids : list string) :
    symbolInterner * changedSymbolSet :=
  foldl changed_add (n, c) ids.

(** The reference: first occurrences, in order. *)
Definition first_step (acc : list string) (id : string) : list string :=
  if bool_decide (id ∈ acc) then acc else acc ++ [id].
Definition first_occurrences (ids : list string) : list string := foldl first_step [] ids.

Record changed_ok (n : symbolInterner) (c : changedSymbolSet) : Prop := {
  changed_interner : interner_ok n;
  changed_holds : holds n (cs_set c) (list_to_set (cs_ids c));
  changed_NoDup : NoDup (cs_ids c);
}.

Lemma changed_adds_spec ids n c :
  changed_ok n c -> interned n + Z.of_nat (length ids) < 2 ^ 31 ->
  let '(n', c') := changed_adds n c ids in
  changed_ok n' c' /\ cs_ids c' = foldl first_step (cs_ids c) ids /\
  interned n <= interned n' <= interned n + Z.of_nat (length ids).
Proof.
  revert n c. induction ids as [|id ids IH]; intros n c Hok Hlt; [split; [done|]; split; [done|simpl; lia]|].
  rewrite length_cons in Hlt. destruct Hok as [Hn Hh Hnd].
  pose proof (addID_holds n (cs_set c) _ id Hn ltac:(lia) Hh) as Ha.
  unfold changed_adds in *. simpl. destruct (addID n (cs_set c) id) as [[added n1] s1].
  destruct Ha as (Hn1 & Hi & Hh1 & Hadd & _).
  assert ((if added then cs_ids c ++ [id] else cs_ids c) = first_step (cs_ids c) id) as Heq.
  { rewrite Hadd. unfold first_step. destruct (decide (id ∈ cs_ids c)).
    - rewrite (bool_decide_eq_true_2 (id ∈ cs_ids c)) by done. by rewrite bool_decide_eq_false_2 by set_solver.
    - rewrite (bool_decide_eq_false_2 (id ∈ cs_ids c)) by done. by rewrite bool_decide_eq_true_2 by set_solver. }
  rewrite Heq. specialize (IH n1 (mkChangedSymbolSet s1 (first_step (cs_ids c) id))).
  destruct (foldl changed_add _ ids) as [n' c']. destruct IH as (H1 & H2 & H3); [|lia|].
  - split; [done| |]; simpl; unfold first_step; destruct (decide (id ∈ cs_ids c)).
    + rewrite bool_decide_eq_true_2 by done. by replace (list_to_set (cs_ids c)) with ({[id]} ∪ list_to_set (cs_ids c) : gset string) by set_solver.
    + rewrite bool_decide_eq_false_2 by done.
      replace (list_to_set (cs_ids c ++ [id])) with ({[id]} ∪ list_to_set (cs_ids c) : gset string); [done|].
      rewrite list_to_set_app_L. set_solver.
    + by rewrite bool_decide_eq_true_2.
    + rewrite bool_decide_eq_false_2 by done. apply NoDup_app. split; [done|]. split; [|apply NoDup_singleton].
      intros x Hx ->%list_elem_of_singleton. done.
  - split; [done|]. split; [done|]. lia.
Qed.

(** A changed-symbol set built over a stale scratch array contains exactly the inserted
    identities, lists their first occurrences in order, counts them once and keeps the interner
    dense and injective. *)
Theorem changedSymbolSet_inserts n scratch ids :
  interner_ok n -> interned n + Z.of_nat (length ids) < 2 ^ 31 ->
  let '(n', c) := foldl changed_add (n, newChangedSymbolSet n scratch) ids in
  interner_ok n' /\ interned n <= interned n' <= interned n + Z.of_nat (length ids) /\
  (forall id, changed_containsID n' c id = true <-> id ∈ ids) /\
  cs_ids c = first_occurrences ids /\
  changed_len c = Z.of_nat (size (list_to_set ids : gset string)) /\
  set_len (cs_set c) = changed_len c.
Proof.
  intros Hn Hlt. pose proof (changed_adds_spec ids n (newChangedSymbolSet n scratch)) as H.
  unfold changed_adds in H. destruct (foldl changed_add _ ids) as [n' c]. destruct H as (Hok & Hids & Hi).
  { split; [done|apply newSymbolHandleSet_holds|constructor]. }
  { done. }
  destruct Hok as [Hn' Hh Hnd].
  assert (forall acc id, id ∈ foldl first_step acc ids <-> id ∈ acc \/ id ∈ ids) as Hin.
  { clear. induction ids as [|x ids IH]; intros acc id; [simpl; rewrite elem_of_nil; tauto|].
    simpl. rewrite IH, elem_of_cons. unfold first_step. case_bool_decide; [naive_solver|].
    rewrite elem_of_app, list_elem_of_singleton. tauto. }
  assert ((list_to_set (cs_ids c) : gset string) = list_to_set ids) as Hset.
  { apply set_eq. intros id. rewrite !elem_of_list_to_set, Hids, Hin. simpl. rewrite elem_of_nil. tauto. }
  split; [done|]. split; [done|]. split; [|split; [done|split]].
  - intros id. unfold changed_containsID. rewrite (holds_member _ _ _ Hh), Hset. apply elem_of_list_to_set.
  - unfold changed_len. rewrite <- Hset. by rewrite size_list_to_set.
  - unfold set_len, changed_len. rewrite (holds_count _ _ _ Hh). by rewrite size_list_to_set.
Qed.

Lemma changedSymbolSet_inserts_witness :
  cs_ids (foldl changed_add (newSymbolInterner, newChangedSymbolSet newSymbolInterner [true; true]) ["b"; "a"; "b"]).2
  = ["b"; "a"].
Proof.
  pose proof (changedSymbolSet_inserts newSymbolInterner [true; true] ["b"; "a"; "b"] newSymbolInterner_ok ltac:(done)) as H.
  destruct (foldl changed_add _ _) as [n' c]. destruct H as (_ & _ & _ & H & _). cbn [snd]. rewrite H. vm_compute. reflexivity.
Defined.
