(* ===== verification/SymbolStore.v ===== *)
(** * The symbol store

    [symbol_store.go]: the canonical symbol rows in identity order, cut into
    chunks of at most 256 that the next generation shares when it can. A nil
    store is [None]. *)

From S2P Require Import Prelude GoStd Model SymbolIntern.
Open Scope Z_scope.

Definition symbolFactChunkSize : nat := 256.

Record symbolFactStore := mkSymbolFactStore {
  chunks : list (list SymbolFact);
  store_length : nat;
}.

(** The chunk loop of [newSymbolFactStore] and [Patch]; each turn takes at
    least one row, so the number of rows is enough fuel. *)
Fixpoint chunk_rows (fuel : nat) (rows : list SymbolFact) : list (list SymbolFact) :=
  match rows, fuel with
  | [], _ | _, O => []
  | _, S fuel' => take symbolFactChunkSize rows :: chunk_rows fuel' (drop symbolFactChunkSize rows)
  end.

Definition newSymbolFactStore (facts : list SymbolFact) : symbolFactStore :=
  match facts with
  | [] => mkSymbolFactStore [] 0
  | _ => mkSymbolFactStore (chunk_rows (length facts) facts) (length facts)
  end.

Definition Len (s : option symbolFactStore) : nat :=
  match s with None => 0 | Some s => store_length s end.

(** The rows [Range] visits. *)
Definition Range (s : option symbolFactStore) : list SymbolFact :=
  match s with None => [] | Some s => concat (chunks s) end.

Definition chunkFor (s : symbolFactStore) (id : SymbolID) : nat :=
  let index :=
    sort_Search (length (chunks s))
      (fun i => match chunks s !! i with
                | Some chunk => match last chunk with Some f => negb (String.ltb (ID f) id) | None => true end
                | None => true
                end) in
  if (index =? length (chunks s))%nat then (length (chunks s) - 1)%nat else index.

Definition Get (s : option symbolFactStore) (id : SymbolID) : option SymbolFact :=
  match s with
  | None => None
  | Some s =>
      match chunks s !! chunkFor s id with
      | None => None
      | Some chunk => find_key ID chunk id
      end
  end.

#[global] Arguments Get : simpl never.
#[global] Arguments chunkFor : simpl never.

Section Patch.
Context `{MR : !MapRange}.

Definition sort_symbols (rows : list SymbolFact) : list SymbolFact := sort_slice (key_less ID) rows.

(** The loop over the patches: additions and affected chunks. *)
Definition patch_step (s : symbolFactStore) (st : gmap nat (list SymbolFact) * gset nat)
    (patch : SymbolID * SymbolFact) : gmap nat (list SymbolFact) * gset nat :=
  let '(additions, affected) := st in
  let '(id, fact) := patch in
  let chunkIndex := chunkFor s id in
  match Get (Some s) id with
  | Some _ => (additions, {[chunkIndex]} ∪ affected)
  | None =>
      (<[chunkIndex := default [] (additions !! chunkIndex) ++ [fact]]> additions,
       {[chunkIndex]} ∪ affected)
  end.

(** The loop over the removal candidates. *)
Definition removal_step (n : symbolInterner) (present : symbolHandleSet) (s : symbolFactStore)
    (st : list SymbolID * gset nat) (id : SymbolID) : list SymbolID * gset nat :=
  let '(removed, affected) := st in
  if containsID n present id then st
  else match Get (Some s) id with
       | None => st
       | Some _ => (removed ++ [id], {[chunkFor s id]} ∪ affected)
       end.

(** One affected chunk rewritten. *)
Definition patch_chunk (patches : gmap string SymbolFact) (removedSet : gset string)
    (additions : list SymbolFact) (chunk : list SymbolFact) : list SymbolFact :=
  let kept := filter (fun fact => ID fact ∉ removedSet) chunk in
  let rows := map (fun fact => default fact (patches !! ID fact)) kept in
  sort_symbols (rows ++ additions).

(** The loop that assembles the next generation: chunks, rows, shared. *)
Fixpoint patch_chunks (index : nat) (patches : gmap string SymbolFact) (removedSet : gset string)
    (additions : gmap nat (list SymbolFact)) (affected : gset nat) (cs : list (list SymbolFact)) :
    list (list SymbolFact) * nat * nat :=
  match cs with
  | [] => ([], 0%nat, 0%nat)
  | chunk :: cs' =>
      let '(next, len, shared) := patch_chunks (S index) patches removedSet additions affected cs' in
      if decide (index ∈ affected) then
        let rows := patch_chunk patches removedSet (default [] (additions !! index)) chunk in
        (chunk_rows (length rows) rows ++ next, (length rows + len)%nat, shared)
      else (chunk :: next, (length chunk + len)%nat, S shared)
  end.

Definition Patch (s : option symbolFactStore) (n : symbolInterner) (present : symbolHandleSet)
    (patches : gmap string SymbolFact) (removalCandidates : gset string) :
    symbolFactStore * nat * list SymbolID * bool :=
  match s with
  | None | Some (mkSymbolFactStore [] _) =>
      let facts := map snd (range_map patches) in
      let store := newSymbolFactStore (sort_symbols facts) in
      (store, 0%nat, [], Z.of_nat (Len (Some store)) =? set_len present)
  | Some s =>
      let '(additions, affected) := foldl (patch_step s) (∅, ∅) (range_map patches) in
      let '(removed, affected) :=
        foldl (removal_step n present s) ([], affected) (range_set removalCandidates) in
      let removedSet := list_to_set removed in
      let '(next, len, shared) := patch_chunks 0 patches removedSet additions affected (chunks s) in
      let next := mkSymbolFactStore next len in
      (next, shared, removed, Z.of_nat (Len (Some next)) =? set_len present)
  end.

(** [PatchExisting]; [None] when it refuses. *)
Definition PatchExisting (s : option symbolFactStore) (patches : gmap string SymbolFact) :
    option (symbolFactStore * nat) :=
  match s with
  | None => None
  | Some s =>
      let ids := map fst (range_map patches) in
      if forallb (fun id => match Get (Some s) id with Some _ => true | None => false end) ids then
        let affected : gset nat := list_to_set (map (chunkFor s) ids) in
        let rewrite_rows := map (fun fact => default fact (patches !! ID fact)) in
        Some (mkSymbolFactStore
                (imap (fun i chunk => if decide (i ∈ affected) then rewrite_rows chunk else chunk) (chunks s))
                (store_length s),
              length (filter (fun i => i ∉ affected) (List.seq 0 (length (chunks s)))))
      else None
  end.

End Patch.

(** ** The store invariant *)

Record store_ok (s : symbolFactStore) : Prop := {
  store_chunks : Forall (fun c => c <> [] /\ (length c <= symbolFactChunkSize)%nat) (chunks s);
  store_sorted : keys_sorted ID (concat (chunks s));
  store_count : store_length s = length (concat (chunks s));
}.

Lemma chunk_rows_spec fuel rows :
  (length rows <= fuel)%nat ->
  concat (chunk_rows fuel rows) = rows /\
  Forall (fun c => c <> [] /\ (length c <= symbolFactChunkSize)%nat) (chunk_rows fuel rows).
Proof.
  revert rows. induction fuel as [|fuel IH]; intros rows Hl.
  { destruct rows; [split; [done|constructor]|simpl in Hl; lia]. }
  destruct rows as [|x rows]; [split; [done|constructor]|].
  cbn [chunk_rows]. set (r := x :: rows) in *.
  destruct (IH (drop symbolFactChunkSize r)) as [H1 H2].
  { rewrite length_drop. unfold symbolFactChunkSize, r in *. simpl in *. lia. }
  split; [cbn [concat]; by rewrite H1, take_drop|]. constructor; [|done].
  split; [done|]. rewrite length_take. lia.
Qed.

Lemma newSymbolFactStore_ok facts :
  keys_sorted ID facts ->
  store_ok (newSymbolFactStore facts) /\ Range (Some (newSymbolFactStore facts)) = facts.
Proof.
  intros Hs. destruct facts as [|x facts]; [split; [split; [constructor|done|done]|done]|].
  set (l := x :: facts) in *. change (newSymbolFactStore l) with (mkSymbolFactStore (chunk_rows (length l) l) (length l)).
  destruct (chunk_rows_spec (length l) l ltac:(done)) as [H1 H2].
  clearbody l. unfold Range. cbn [chunks]. split; [|done].
  constructor; cbn [chunks store_length]; rewrite ?H1; done.
Qed.

(** ** Finding a chunk *)

Section ChunkFor.
Context (s : symbolFactStore) (Hok : store_ok s).

Lemma chunk_order i j c d x y :
  (i < j)%nat -> chunks s !! i = Some c -> chunks s !! j = Some d -> x ∈ c -> y ∈ d ->
  slt (ID x) (ID y).
Proof.
  intros Hij Hi Hj Hx Hy. pose proof (store_sorted s Hok) as Hs.
  rewrite <- (take_drop (S i) (chunks s)), concat_app in Hs.
  apply keys_sorted_app in Hs as (_ & _ & Hs). apply Hs; apply list_elem_of_In, in_concat.
  - exists c. split; [|by apply list_elem_of_In]. apply list_elem_of_In, list_elem_of_lookup. exists i.
    by rewrite lookup_take_lt by lia.
  - exists d. split; [|by apply list_elem_of_In]. apply list_elem_of_In, list_elem_of_lookup. exists (j - S i)%nat.
    rewrite lookup_drop. rewrite <- Hj. f_equal. lia.
Qed.

Lemma chunk_sorted i c : chunks s !! i = Some c -> keys_sorted ID c.
Proof.
  intros Hi. pose proof (store_sorted s Hok) as Hs. rewrite <- (take_drop_middle _ _ _ Hi), concat_app in Hs.
  apply keys_sorted_app in Hs as (_ & Hs & _). simpl in Hs. by apply keys_sorted_app in Hs as (Hs & _).
Qed.

Lemma chunk_nonempty i c : chunks s !! i = Some c -> exists l x, c = l ++ [x].
Proof.
  intros Hi. pose proof (store_chunks s Hok) as Hc. rewrite Forall_lookup in Hc.
  destruct (Hc i c Hi) as [Hne _]. destruct c as [|x l _] using rev_ind; [done|eauto].
Qed.

Definition reaches (id : string) (i : nat) : bool :=
  match chunks s !! i with
  | Some chunk => match last chunk with Some f => negb (String.ltb (ID f) id) | None => true end
  | None => true
  end.

Lemma reaches_mono id a b : (a <= b)%nat -> reaches id a = true -> reaches id b = true.
Proof.
  intros Hab. unfold reaches. destruct (chunks s !! b) as [d|] eqn:Eb; [|done].
  destruct (lookup_lt_is_Some_2 (chunks s) a) as [c Ea]; [apply lookup_lt_Some in Eb; lia|].
  rewrite Ea. destruct (chunk_nonempty _ _ Ea) as (c' & x & ->), (chunk_nonempty _ _ Eb) as (d' & y & ->).
  rewrite !last_snoc. intros Hx%negb_true_iff. apply negb_true_iff.
  destruct (decide (a = b)) as [->|]; [rewrite Ea in Eb; injection Eb as Eb|].
  - apply app_inj_tail in Eb as [_ <-]. done.
  - apply sle_trans with (ID x); [done|]. apply slt_le.
    apply (chunk_order a b _ _ x y ltac:(lia) Ea Eb); set_solver.
Qed.

Lemma chunkFor_spec id :
  chunks s <> [] ->
  (chunkFor s id < length (chunks s))%nat /\
  (forall k c x, (k < chunkFor s id)%nat -> chunks s !! k = Some c -> x ∈ c -> slt (ID x) id) /\
  (forall k c x, (chunkFor s id < k)%nat -> chunks s !! k = Some c -> x ∈ c -> slt id (ID x)).
Proof.
  intros Hne. assert (length (chunks s) <> 0%nat) as Hlen by (by destruct (chunks s)).
  unfold chunkFor. fold (reaches id).
  destruct (sort_Search_spec (length (chunks s)) (reaches id) (reaches_mono id)) as (Hle & Hlt & Hge).
  set (r := sort_Search _ _) in *.
  assert (forall k c x, (k < r)%nat -> chunks s !! k = Some c -> x ∈ c -> slt (ID x) id) as Hbelow.
  { intros k c x Hk Hc Hx. specialize (Hlt k Hk). unfold reaches in Hlt. rewrite Hc in Hlt.
    destruct (chunk_nonempty _ _ Hc) as (c' & y & ->). rewrite last_snoc in Hlt.
    apply negb_false_iff in Hlt. apply elem_of_app in Hx as [Hx| ->%list_elem_of_singleton]; [|done].
    transitivity (ID y); [|done]. apply (chunk_sorted _ _) in Hc. apply keys_sorted_app in Hc as (_ & _ & Hc).
    apply Hc; set_solver. }
  destruct (Nat.eqb_spec r (length (chunks s))) as [E|E].
  - split; [lia|]. split; intros k c x Hk Hc Hx.
    + apply (Hbelow k c x); [lia|done|done].
    + apply lookup_lt_Some in Hc. lia.
  - split; [lia|]. split; [done|]. intros k c x Hk Hc Hx.
    specialize (Hge r ltac:(lia)). unfold reaches in Hge.
    destruct (lookup_lt_is_Some_2 (chunks s) r ltac:(lia)) as [d Hd]. rewrite Hd in Hge.
    destruct (chunk_nonempty _ _ Hd) as (d' & y & Hdy). rewrite Hdy, last_snoc in Hge.
    apply negb_true_iff in Hge. apply sle_lt_trans with (ID y); [done|].
    apply (chunk_order r k d c y x Hk Hd Hc); [rewrite Hdy; set_solver|done].
Qed.

Lemma chunkFor_mono a b : sle a b -> (chunkFor s a <= chunkFor s b)%nat.
Proof.
  intros Hab. unfold chunkFor. fold (reaches a) (reaches b).
  destruct (sort_Search_spec (length (chunks s)) (reaches a) (reaches_mono a)) as (Hlea & Hlta & _).
  destruct (sort_Search_spec (length (chunks s)) (reaches b) (reaches_mono b)) as (Hleb & _ & Hgeb).
  set (ra := sort_Search _ (reaches a)) in *. set (rb := sort_Search _ (reaches b)) in *.
  assert (ra <= rb)%nat; [|destruct (Nat.eqb_spec ra (length (chunks s))), (Nat.eqb_spec rb (length (chunks s))); lia].
  destruct (decide (ra <= rb)%nat); [done|]. exfalso.
  specialize (Hlta rb ltac:(lia)). specialize (Hgeb rb ltac:(lia)). unfold reaches in *.
  destruct (chunks s !! rb) as [c|]; [|done]. destruct (last c) as [f|]; [|done].
  apply negb_false_iff in Hlta. apply negb_true_iff in Hgeb.
  apply (slt_irrefl a). apply sle_lt_trans with b; [done|]. apply sle_lt_trans with (ID f); done.
Qed.

Lemma chunkFor_member i c x : chunks s !! i = Some c -> x ∈ c -> chunkFor s (ID x) = i.
Proof.
  intros Hc Hx. assert (chunks s <> []) as Hne by (intros E; by rewrite E in Hc).
  destruct (chunkFor_spec (ID x) Hne) as (_ & H1 & H2).
  destruct (Nat.lt_trichotomy i (chunkFor s (ID x))) as [H|[->|H]]; [|done|].
  - destruct (slt_irrefl (ID x)). by apply (H1 i c x).
  - destruct (slt_irrefl (ID x)). by apply (H2 i c x).
Qed.

Lemma Get_spec id x : Get (Some s) id = Some x <-> x ∈ concat (chunks s) /\ ID x = id.
Proof.
  unfold Get. rewrite list_elem_of_In, in_concat. setoid_rewrite <- list_elem_of_In. split.
  - destruct (chunks s !! chunkFor s id) as [c|] eqn:E; [|done].
    intros [Hx Hid]%find_key_spec; [|by eapply chunk_sorted]. split; [|done]. exists c.
    split; [by eapply list_elem_of_lookup_2|done].
  - intros [(c & Hc & Hx) <-]. apply list_elem_of_lookup in Hc as [i Hi].
    rewrite (chunkFor_member i c x) by done. rewrite Hi. apply find_key_spec; [by eapply chunk_sorted|done].
Qed.

Lemma Get_find id : Get (Some s) id = find_key ID (Range (Some s)) id.
Proof.
  apply option_eq. intros x. rewrite Get_spec. by rewrite find_key_spec by apply Hok.
Qed.
End ChunkFor.

(** ** What the loops of [Patch] compute *)

Section PatchLoops.
Context `{MR : !MapRange} (s : symbolFactStore).

Definition missing (id : string) : Prop := Get (Some s) id = None.

(** The additions to a chunk are the new rows it would hold, in the order the
    patches are ranged over; a chunk is affected when a patch falls into it. *)
Lemma patch_steps_spec l :
  let st := foldl (patch_step s) (∅, ∅) l in
  (forall i, default [] (st.1 !! i) = map snd (filter (fun p => missing p.1 /\ chunkFor s p.1 = i) l)) /\
  (forall i, i ∈ st.2 <-> exists p, p ∈ l /\ chunkFor s p.1 = i).
Proof.
  induction l as [|[id fact] l IH] using rev_ind; simpl.
  { split; intros i; [done|]. split; [set_solver|]. intros (p & Hp & _). by apply not_elem_of_nil in Hp. }
  rewrite foldl_app. simpl. destruct (foldl (patch_step s) (∅, ∅) l) as [additions affected].
  destruct IH as [IH1 IH2]. simpl in *. split; intros i.
  - rewrite filter_app, map_app, <- IH1, filter_cons, filter_nil.
    destruct (Get (Some s) id) as [x|] eqn:Eg; simpl.
    + rewrite decide_False by (intros [Hm _]; change (Get (Some s) id = None) in Hm; congruence). simpl. by rewrite app_nil_r.
    + destruct (decide (chunkFor s id = i)) as [<-|Hne].
      * rewrite decide_True by (split; [exact Eg|done]). by rewrite lookup_insert_eq.
      * rewrite decide_False by (intros [_ ?]; done). rewrite lookup_insert_ne by done. simpl. by rewrite app_nil_r.
  - assert (i ∈ {[chunkFor s id]} ∪ affected <-> exists p, p ∈ l ++ [(id, fact)] /\ chunkFor s p.1 = i) as H.
    { rewrite elem_of_union, elem_of_singleton, IH2. split.
      - intros [->|(p & Hp & He)]; [exists (id, fact)|exists p]; set_solver.
      - intros (p & [Hp| ->%list_elem_of_singleton]%elem_of_app & He); [right; eauto|by left]. }
    by destruct (Get (Some s) id).
Qed.

Definition removable (n : symbolInterner) (present : symbolHandleSet) (id : string) : Prop :=
  containsID n present id = false /\ Get (Some s) id <> None.
#[global] Instance removable_dec n present id : Decision (removable n present id).
Proof. unfold removable. apply _. Defined.

Lemma removal_steps_spec n present l affected :
  let st := foldl (removal_step n present s) ([], affected) l in
  st.1 = filter (removable n present) l /\
  (forall i, i ∈ st.2 <-> i ∈ affected \/ exists id, id ∈ st.1 /\ chunkFor s id = i).
Proof.
  induction l as [|id l IH] using rev_ind; simpl.
  { split; [done|]. intros i. split; [auto|]. intros [?|(id & Hid & _)]; [done|by apply not_elem_of_nil in Hid]. }
  rewrite foldl_app. simpl. destruct (foldl (removal_step n present s) ([], affected) l) as [removed aff].
  destruct IH as [IH1 IH2]. simpl in *. subst removed.
  rewrite filter_app, filter_cons, filter_nil.
  destruct (containsID n present id) eqn:Ec.
  { rewrite decide_False by (intros [? _]; congruence). by rewrite app_nil_r. }
  destruct (Get (Some s) id) as [x|] eqn:Eg.
  - rewrite decide_True by (split; [done|congruence]). split; [done|]. simpl. intros i.
    rewrite elem_of_union, elem_of_singleton, IH2. split.
    + intros [->|[?|(id' & Hid & He)]]; [right; exists id; set_solver|by left|right; exists id'; set_solver].
    + intros [?|(id' & [Hid| ->%list_elem_of_singleton]%elem_of_app & He)]; [auto|right; right; eauto|by left].
  - rewrite decide_False by (intros [_ ?]; congruence). by rewrite app_nil_r.
Qed.

(** The rows a chunk turns into, affected or not. *)
Lemma patch_chunks_spec patches removedSet additions affected cs i next len shared :
  Forall (fun c => c <> [] /\ (length c <= symbolFactChunkSize)%nat) cs ->
  patch_chunks i patches removedSet additions affected cs = (next, len, shared) ->
  concat next = concat (imap (fun k chunk =>
      if decide (i + k ∈ affected)%nat then patch_chunk patches removedSet (default [] (additions !! (i + k)%nat)) chunk
      else chunk) cs) /\
  Forall (fun c => c <> [] /\ (length c <= symbolFactChunkSize)%nat) next /\
  len = length (concat next) /\
  shared = length (filter (fun k => k ∉ affected) (List.seq i (length cs))).
Proof.
  revert i next len shared. induction cs as [|chunk cs IH]; intros i next len shared Hcs; simpl.
  { intros ?. simplify_eq. repeat split; try done. }
  apply Forall_cons in Hcs as [Hchunk Hcs].
  destruct (patch_chunks (S i) patches removedSet additions affected cs) as [[next' len'] shared'] eqn:E.
  destruct (IH (S i) _ _ _ Hcs E) as (H1 & H2 & H3 & H4). clear IH E.
  rewrite Nat.add_0_r, filter_cons.
  assert (forall A (f : nat -> list SymbolFact -> A), imap (f ∘ S) cs = imap (fun k => f (S k)) cs) as Hi by done.
  assert (concat next' = concat (imap ((fun k chunk0 =>
      if decide (i + k ∈ affected)%nat then patch_chunk patches removedSet (default [] (additions !! (i + k)%nat)) chunk0
      else chunk0) ∘ S) cs)) as Hn.
  { rewrite H1. f_equal. apply imap_ext. intros k c _. simpl. by rewrite Nat.add_succ_r. }
  destruct (decide (i ∈ affected)); intros ?; simplify_eq.
  - set (rows := patch_chunk _ _ _ _) in *. destruct (chunk_rows_spec (length rows) rows ltac:(done)) as [R1 R2].
    rewrite decide_False by naive_solver. rewrite concat_app, R1, length_app, Hn.
    split; [done|]. split; [by apply Forall_app|]. done.
  - rewrite decide_True by done. simpl. rewrite length_app, Hn. split; [done|]. split; [by constructor|]. done.
Qed.
End PatchLoops.

(** ** The rows of the next generation *)

Section PatchRows.
Context `{MR : !MapRange} (s : symbolFactStore) (Hok : store_ok s).
Context (patches : gmap string SymbolFact) (Hids : forall id f, patches !! id = Some f -> ID f = id).
Context (removedSet : gset string).

(** The rows new to chunk [i]. *)
Definition added_rows (i : nat) : list SymbolFact :=
  map snd (filter (fun p => missing s p.1 /\ chunkFor s p.1 = i) (range_map patches)).

Definition next_rows (i : nat) (chunk : list SymbolFact) : list SymbolFact :=
  patch_chunk patches removedSet (added_rows i) chunk.

Lemma added_rows_elem i x :
  x ∈ added_rows i <-> patches !! ID x = Some x /\ missing s (ID x) /\ chunkFor s (ID x) = i.
Proof.
  unfold added_rows. rewrite list_elem_of_fmap. split.
  - intros ([id f] & -> & Hin). apply list_elem_of_filter in Hin as [[Hm Hc] Hin].
    apply range_map_elem in Hin. simpl in *. by rewrite (Hids _ _ Hin).
  - intros (Hp & Hm & Hc). exists (ID x, x). split; [done|]. apply list_elem_of_filter.
    split; [done|]. by apply range_map_elem.
Qed.

Lemma added_rows_NoDup i : NoDup (ID <$> added_rows i).
Proof.
  unfold added_rows. change (map snd ?l) with (snd <$> l). rewrite <- list_fmap_compose.
  assert (forall l, (forall p, p ∈ l -> patches !! p.1 = Some p.2) -> NoDup l.*1 -> NoDup (ID ∘ snd <$> l)) as H.
  { intros l Hl. replace (ID ∘ snd <$> l) with l.*1; [done|]. apply list_fmap_ext. intros k p Hp. symmetry.
    apply Hids, Hl. by eapply list_elem_of_lookup_2. }
  apply H.
  - intros p Hp. apply list_elem_of_filter in Hp as [_ Hp]. destruct p as [id f]. by apply range_map_elem in Hp.
  - eapply sublist_NoDup; [apply (range_map_NoDup patches)|]. apply fmap_sublist, sublist_filter.
Qed.

(** A row of the rewritten chunk. *)
Definition rewritten (x y : SymbolFact) : Prop := ID y ∉ removedSet /\ x = default y (patches !! ID y).

Lemma rewritten_ID x y : rewritten x y -> ID x = ID y.
Proof. intros [_ ->]. destruct (patches !! ID y) as [f|] eqn:E; [simpl; by apply Hids|done]. Qed.

Lemma next_rows_elem i chunk x :
  x ∈ next_rows i chunk <-> (exists y, y ∈ chunk /\ rewritten x y) \/ x ∈ added_rows i.
Proof.
  unfold next_rows, patch_chunk, sort_symbols. rewrite sort_slice_perm, elem_of_app, list_elem_of_fmap.
  split; (intros [H|H]; [left|by right]).
  - destruct H as (y & -> & Hy). apply list_elem_of_filter in Hy as [Hr Hy]. by exists y.
  - destruct H as (y & Hy & Hr & ->). exists y. split; [done|]. by apply list_elem_of_filter.
Qed.

Lemma next_rows_chunk i chunk x :
  chunks s !! i = Some chunk -> x ∈ next_rows i chunk -> chunkFor s (ID x) = i.
Proof.
  intros Hc [(y & Hy & Hr)|Ha]%next_rows_elem; [|by apply added_rows_elem in Ha as (_ & _ & ?)].
  rewrite (rewritten_ID _ _ Hr). by apply (chunkFor_member s Hok i chunk).
Qed.

Lemma next_rows_sorted i chunk : chunks s !! i = Some chunk -> keys_sorted ID (next_rows i chunk).
Proof.
  intros Hc. apply sort_slice_keys_sorted.
  set (kept := filter (fun fact => ID fact ∉ removedSet) chunk).
  assert (ID <$> map (fun fact => default fact (patches !! ID fact)) kept = ID <$> kept) as Hk.
  { change (map ?f ?l) with (f <$> l). rewrite <- list_fmap_compose. apply list_fmap_ext. intros k y Hy. simpl.
    destruct (patches !! ID y) as [f|] eqn:E; [simpl; by apply Hids|done]. }
  rewrite fmap_app, Hk. apply NoDup_app. split; [|split; [|apply added_rows_NoDup]].
  - eapply sublist_NoDup; [apply (keys_sorted_NoDup ID chunk), (chunk_sorted s Hok i); done|].
    apply fmap_sublist, sublist_filter.
  - intros id (y & -> & Hy)%list_elem_of_fmap (z & Hid & Hz)%list_elem_of_fmap.
    apply list_elem_of_filter in Hy as [_ Hy]. apply added_rows_elem in Hz as (_ & Hm & _).
    unfold missing in Hm. rewrite <- Hid in Hm.
    assert (Get (Some s) (ID y) = Some y) as Hg; [|congruence]. apply (Get_spec s Hok). split; [|done].
    apply list_elem_of_In, in_concat. exists chunk.
    split; apply list_elem_of_In; [by eapply list_elem_of_lookup_2|done].
Qed.

(** A chunk no patch, removal or addition falls into is left alone. *)
Lemma next_rows_unaffected i chunk :
  chunks s !! i = Some chunk ->
  (forall id f, patches !! id = Some f -> chunkFor s id <> i) ->
  (forall id, id ∈ removedSet -> chunkFor s id <> i) ->
  next_rows i chunk = chunk.
Proof.
  intros Hc Hp Hr. unfold next_rows, patch_chunk.
  assert (forall y, y ∈ chunk -> chunkFor s (ID y) = i) as Hy by (intros y Hy; by apply (chunkFor_member s Hok i chunk)).
  assert (added_rows i = []) as ->.
  { destruct (added_rows i) as [|x l] eqn:E; [done|].
    destruct (proj1 (added_rows_elem i x)) as (H1 & _ & H2); [rewrite E; left|]. by destruct (Hp _ _ H1). }
  rewrite filter_all.
  - rewrite app_nil_r. rewrite (map_ext_in _ id).
    + rewrite map_id. apply sort_slice_id. pose proof (chunk_sorted s Hok i chunk Hc) as Hs.
      clear -Hs. induction chunk as [|x chunk IH]; [constructor|].
      apply keys_sorted_cons in Hs as [Hs Hx]. constructor; [by apply IH|].
      eapply Forall_impl; [exact Hx|]. intros y Hxy. by apply slt_le.
    + intros y Hin%list_elem_of_In. destruct (patches !! ID y) as [f|] eqn:E; [|done].
      by destruct (Hp _ _ E); apply Hy.
  - apply Forall_forall. intros y Hin Hrem. by destruct (Hr _ Hrem); apply Hy.
Qed.

(** All chunks together. *)
Definition all_next_rows : list SymbolFact := concat (imap next_rows (chunks s)).

Lemma concat_imap_elem {A B} (f : nat -> A -> list B) (l : list A) x :
  x ∈ concat (imap f l) <-> exists i a, l !! i = Some a /\ x ∈ f i a.
Proof.
  rewrite list_elem_of_In, in_concat. split.
  - intros (r & Hr & Hx). apply list_elem_of_In, list_elem_of_lookup in Hr as [i Hi].
    rewrite list_lookup_imap in Hi. destruct (l !! i) as [a|] eqn:E; simplify_eq/=.
    exists i, a. split; [done|]. by apply list_elem_of_In.
  - intros (i & a & Hi & Hx). exists (f i a). split; [|by apply list_elem_of_In].
    apply list_elem_of_In, list_elem_of_lookup. exists i. by rewrite list_lookup_imap, Hi.
Qed.

Lemma concat_imap_sorted (f : nat -> list SymbolFact -> list SymbolFact) (l : list (list SymbolFact)) :
  (forall i c, l !! i = Some c -> keys_sorted ID (f i c)) ->
  (forall i j c d x y, (i < j)%nat -> l !! i = Some c -> l !! j = Some d -> x ∈ f i c -> y ∈ f j d -> slt (ID x) (ID y)) ->
  keys_sorted ID (concat (imap f l)).
Proof.
  revert f. induction l as [|c l IH]; intros f Hs Ho; [apply keys_sorted_nil|].
  simpl. apply keys_sorted_app. split; [by apply (Hs 0%nat)|]. split.
  - apply IH; [intros i d Hd; by apply (Hs (S i))|]. intros i j d e x y Hij Hd He.
    apply (Ho (S i) (S j)); [lia|done|done].
  - intros x y Hx (j & d & Hd & Hy)%concat_imap_elem. by apply (Ho 0%nat (S j) c d); [lia|..].
Qed.

Lemma all_next_rows_sorted : keys_sorted ID all_next_rows.
Proof.
  apply concat_imap_sorted; [intros i c Hc; by apply next_rows_sorted|].
  intros i j c d x y Hij Hc Hd Hx Hy. apply (next_rows_chunk i c x Hc) in Hx. apply (next_rows_chunk j d y Hd) in Hy.
  apply slt_not_sle. intros Hle%(chunkFor_mono s Hok). lia.
Qed.

Lemma all_next_rows_elem x :
  chunks s <> [] ->
  x ∈ all_next_rows <->
  (exists y, y ∈ concat (chunks s) /\ rewritten x y) \/ (patches !! ID x = Some x /\ missing s (ID x)).
Proof.
  intros Hne. unfold all_next_rows. rewrite concat_imap_elem. split.
  - intros (i & c & Hc & [(y & Hy & Hr)|Ha]%next_rows_elem); [left; exists y|right; by apply added_rows_elem in Ha as (? & ? & _)].
    split; [|done]. apply list_elem_of_In, in_concat. exists c.
    split; apply list_elem_of_In; [by eapply list_elem_of_lookup_2|done].
  - intros [(y & Hy & Hr)|[Hp Hm]].
    + apply list_elem_of_In, in_concat in Hy as (c & Hc & Hy). apply list_elem_of_In, list_elem_of_lookup in Hc as [i Hi].
      exists i, c. split; [done|]. apply next_rows_elem. left. exists y. split; [by apply list_elem_of_In|done].
    + destruct (chunkFor_spec s Hok (ID x) Hne) as [Hlt _]. destruct (lookup_lt_is_Some_2 _ _ Hlt) as [c Hc].
      exists (chunkFor s (ID x)), c. split; [done|]. apply next_rows_elem. right. by apply added_rows_elem.
Qed.

Lemma all_next_rows_find id :
  chunks s <> [] -> (forall id, id ∈ removedSet -> Get (Some s) id <> None) ->
  find_key ID all_next_rows id =
  if decide (id ∈ removedSet) then None
  else match patches !! id with Some f => Some f | None => Get (Some s) id end.
Proof.
  intros Hne Hrem. apply option_eq. intros x. rewrite find_key_spec by apply all_next_rows_sorted.
  rewrite all_next_rows_elem by done. unfold missing. split.
  - intros [[(y & Hy & Hr)|[Hp Hm]] <-].
    + pose proof (rewritten_ID _ _ Hr) as Hid. destruct Hr as [Hr ->]. rewrite Hid, decide_False by done.
      assert (Get (Some s) (ID y) = Some y) as Hg by (by apply (Get_spec s Hok)).
      rewrite Hg. by destruct (patches !! ID y).
    + rewrite decide_False; [by rewrite Hp|]. intros H. by destruct (Hrem _ H).
  - destruct (decide (id ∈ removedSet)) as [|Hr]; [done|].
    destruct (patches !! id) as [f|] eqn:E.
    + intros ?. simplify_eq. pose proof (Hids _ _ E) as Hid. split; [|done].
      destruct (Get (Some s) id) as [y|] eqn:Eg.
      * left. apply (Get_spec s Hok) in Eg as [Hy Hyid]. exists y. split; [done|]. split; [congruence|].
        by rewrite Hyid, E.
      * right. by rewrite Hid.
    + intros Hg. apply (Get_spec s Hok) in Hg as [Hy Hyid]. split; [|done]. left. exists x. split; [done|].
      split; [congruence|]. by rewrite Hyid, E.
Qed.
End PatchRows.

(** ** The two operations *)

Definition patches_ok (patches : gmap string SymbolFact) : Prop :=
  forall id f, patches !! id = Some f -> ID f = id.

(** The identities a store holds. *)
Definition universe (s : option symbolFactStore) : gset string := list_to_set (ID <$> Range s).

Lemma universe_elem s id : store_ok s -> id ∈ universe (Some s) <-> Get (Some s) id <> None.
Proof.
  intros Hok. unfold universe. rewrite elem_of_list_to_set, (Get_find s Hok).
  rewrite (find_key_None ID); [|apply Hok]. split; [auto|]. apply dec_stable.
Qed.

Lemma universe_size s : store_ok s -> size (universe (Some s)) = store_length s.
Proof.
  intros Hok. unfold universe. rewrite size_list_to_set by (apply keys_sorted_NoDup, Hok).
  rewrite length_fmap. by rewrite (store_count s Hok).
Qed.

Section PatchSpec.
Context `{MR : !MapRange}.

(** The empty store's branch. *)
Lemma patch_fresh patches :
  patches_ok patches ->
  let store := newSymbolFactStore (sort_symbols (map snd (range_map patches))) in
  store_ok store /\ forall id, Get (Some store) id = patches !! id.
Proof.
  intros Hp store.
  assert (map ID (map snd (range_map patches)) = (range_map patches).*1) as Hids.
  { rewrite map_map. apply map_ext_in. intros [id f] Hin%list_elem_of_In. apply range_map_elem in Hin.
    simpl. by apply Hp. }
  assert (keys_sorted ID (sort_symbols (map snd (range_map patches)))) as Hs.
  { apply sort_slice_keys_sorted. change (ID <$> ?l) with (map ID l). rewrite Hids. apply range_map_NoDup. }
  destruct (newSymbolFactStore_ok _ Hs) as [Hok Hr]. split; [done|]. intros id.
  rewrite (Get_find _ Hok). unfold store. rewrite Hr. apply option_eq. intros x.
  rewrite find_key_spec by done. unfold sort_symbols. rewrite sort_slice_perm, list_elem_of_fmap. split.
  - intros [([k f] & -> & Hin) <-]. apply range_map_elem in Hin. simpl in *. by rewrite (Hp _ _ Hin).
  - intros Hx. split; [|by apply Hp]. exists (id, x). split; [done|]. by apply range_map_elem.
Qed.

Lemma Patch_spec s n present patches removalCandidates :
  store_ok s -> patches_ok patches ->
  let '(next, shared, removed, ok) := Patch (Some s) n present patches removalCandidates in
  store_ok next /\
  (forall id, id ∈ removed <->
     id ∈ removalCandidates /\ containsID n present id = false /\ Get (Some s) id <> None) /\
  (forall id, Get (Some next) id =
     if decide (id ∈ removed) then None
     else match patches !! id with Some f => Some f | None => Get (Some s) id end) /\
  ok = (Z.of_nat (size (universe (Some next))) =? set_len present) /\
  NoDup removed /\ (shared <= length (chunks s))%nat.
Proof.
  intros Hok Hp. destruct (chunks s) as [|c cs] eqn:Ecs.
  { assert (s = mkSymbolFactStore [] 0) as ->.
    { destruct s as [ch len]. simpl in Ecs. subst ch. f_equal. apply (store_count _ Hok). }
    unfold Patch. pose proof (patch_fresh patches Hp) as [Hn Hg]. cbn [negb].
    split; [done|]. split; [intros id; split; [by intros ?%not_elem_of_nil|by intros (_ & _ & ?)]|].
    split; [|split; [|split; [constructor|simpl; lia]]].
    - intros id. rewrite Hg. rewrite decide_False by apply not_elem_of_nil. by destruct (patches !! id).
    - f_equal. rewrite universe_size by done. done. }
  assert (chunks s <> []) as Hne by (by rewrite Ecs).
  unfold Patch. destruct s as [ch len]. simpl in Ecs. subst ch.
  set (s := mkSymbolFactStore (c :: cs) len) in *.
  destruct (patch_steps_spec s (range_map patches)) as [Hadd Haff].
  destruct (foldl (patch_step s) (∅, ∅) (range_map patches)) as [additions affected].
  destruct (removal_steps_spec s n present (range_set removalCandidates) affected) as [Hrem Haff2].
  destruct (foldl (removal_step n present s) ([], affected) _) as [removed affected2].
  cbn [fst snd chunks s] in *.
  destruct (patch_chunks 0 patches (list_to_set removed) additions affected2 (c :: cs)) as [[next nlen] shared] eqn:E.
  destruct (patch_chunks_spec _ _ _ _ _ _ _ _ _ (store_chunks s Hok) E) as (H1 & H2 & H3 & H4).
  assert (forall id, id ∈ removed <->
     id ∈ removalCandidates /\ containsID n present id = false /\ Get (Some s) id <> None) as Hr.
  { intros id. rewrite Hrem, list_elem_of_filter, range_set_elem. unfold removable. tauto. }
  assert (concat next = all_next_rows s patches (list_to_set removed)) as Hrows.
  { rewrite H1. unfold all_next_rows. f_equal. apply imap_ext. intros i chunk Hi. simpl.
    rewrite Hadd. destruct (decide (i ∈ affected2)) as [|Hn]; [done|]. symmetry.
    apply next_rows_unaffected; [done|done|done| |].
    - intros id f Hf He. apply Hn, Haff2. left. apply Haff. exists (id, f). split; [by apply range_map_elem|done].
    - intros id Hid%elem_of_list_to_set He. apply Hn, Haff2. right. by exists id. }
  assert (store_ok (mkSymbolFactStore next nlen)) as Hnext.
  { split; simpl; [done| |done]. rewrite Hrows. by apply all_next_rows_sorted. }
  split; [done|]. split; [done|]. split; [|split; [|split]].
  - intros id. rewrite (Get_find _ Hnext). unfold Range. cbn [chunks]. rewrite Hrows.
    rewrite all_next_rows_find; [|done|done|done|].
    + destruct (decide (id ∈ removed)); [by rewrite decide_True by set_solver|by rewrite decide_False by set_solver].
    + intros id' Hin%elem_of_list_to_set. by apply Hr in Hin as (_ & _ & ?).
  - f_equal. by rewrite universe_size.
  - rewrite Hrem. apply NoDup_filter, range_set_NoDup.
  - rewrite H4. etransitivity; [apply length_filter|]. by rewrite length_seq.
Qed.

End PatchSpec.

(** C38: Patching a chunked symbol store gives a well-formed store that holds the old rows with
    the patches applied and exactly the removable candidates gone, and its completeness flag
    says whether the present universe was reached. *)
Theorem Patch_refines `{MR : !MapRange} s n present patches removalCandidates :
  store_ok s -> patches_ok patches ->
  let '(next, _, removed, ok) := Patch (Some s) n present patches removalCandidates in
  store_ok next /\
  (forall id, id ∈ removed <->
     id ∈ removalCandidates /\ containsID n present id = false /\ Get (Some s) id <> None) /\
  (forall id, Get (Some next) id =
     if decide (id ∈ removed) then None
     else match patches !! id with Some f => Some f | None => Get (Some s) id end) /\
  (forall X, holds n present X -> dom patches ⊆ X -> universe (Some s) ∖ X ⊆ removalCandidates ->
     ok = true <-> universe (Some next) = X).
Proof.
  intros Hok Hp. pose proof (Patch_spec s n present patches removalCandidates Hok Hp) as H.
  destruct (Patch _ _ _ _ _) as [[[next shared] removed] ok]. destruct H as (H1 & H2 & H3 & H4 & _).
  split; [done|]. split; [done|]. split; [done|]. intros X Hh Hd Hc.
  assert (universe (Some next) ⊆ X) as Hsub.
  { intros id Hid%universe_elem; [|done]. rewrite H3 in Hid.
    destruct (decide (id ∈ removed)) as [|Hr]; [done|].
    destruct (patches !! id) as [f|] eqn:E; [apply Hd, elem_of_dom; by exists f|].
    destruct (decide (id ∈ X)) as [|HX]; [done|]. destruct Hr. apply H2.
    assert (id ∈ universe (Some s)) as Hu by (by apply universe_elem).
    split; [apply Hc; set_solver|]. split; [|done].
    destruct (containsID n present id) eqn:Ec; [|done]. by apply (holds_member _ _ _ Hh) in Ec. }
  rewrite H4, Z.eqb_eq. unfold set_len. rewrite (holds_count _ _ _ Hh). split.
  - intros He. apply set_eq. intros id. split; [apply Hsub|].
    assert (size (universe (Some next)) = size X) as Hsz by lia.
    pose proof (set_subseteq_size_eq _ _ Hsub ltac:(lia)) as Heq. set_solver.
  - by intros ->.
Qed.

Definition store_row (id : string) (line : Z) : SymbolFact := mkSymbolFact id "" [] [mkLocation "f.ts" line (line + 1)].
Definition sample_store : symbolFactStore := newSymbolFactStore [store_row "a" 1; store_row "c" 2].

Lemma sample_store_ok : store_ok sample_store.
Proof. apply newSymbolFactStore_ok. repeat constructor. Qed.

Lemma Patch_refines_witness :
  let '(next, _, removed, _) :=
    Patch (Some sample_store) newSymbolInterner (newSymbolHandleSet newSymbolInterner []) {["b" := store_row "b" 7]} {["a"]} in
  Get (Some next) "a" = None /\ Get (Some next) "b" = Some (store_row "b" 7).
Proof.
  assert (patches_ok {["b" := store_row "b" 7]}) as Hp by (by intros id f [<- <-]%lookup_singleton_Some).
  pose proof (Patch_refines sample_store newSymbolInterner (newSymbolHandleSet newSymbolInterner [])
    {["b" := store_row "b" 7]} {["a"]} sample_store_ok Hp) as H.
  destruct (Patch _ _ _ _ _) as [[[next shared] removed] ok]. destruct H as (_ & H2 & H3 & _).
  rewrite !H3. split.
  - rewrite decide_True; [reflexivity|]. apply H2. split; [set_solver|]. split; [reflexivity|discriminate].
  - rewrite decide_False; [reflexivity|]. rewrite H2. intros (Hin & _ & _). set_solver.
Defined.

(** PatchExisting succeeds exactly when every patched symbol is stored, keeps the chunks
    and the universe, and replaces exactly the patched rows. *)
Theorem PatchExisting_refines `{MR : !MapRange} s patches :
  store_ok s -> patches_ok patches ->
  match PatchExisting (Some s) patches with
  | None => exists id, id ∈ dom patches /\ Get (Some s) id = None
  | Some (next, shared) =>
      (forall id, id ∈ dom patches -> Get (Some s) id <> None) /\
      store_ok next /\ length (chunks next) = length (chunks s) /\
      universe (Some next) = universe (Some s) /\
      (forall id, Get (Some next) id = match patches !! id with Some f => Some f | None => Get (Some s) id end) /\
      (shared <= length (chunks s))%nat
  end.
Proof.
  intros Hok Hp. unfold PatchExisting. destruct (forallb _ _) eqn:Ef.
  - rewrite forallb_forall in Ef.
    assert (forall id, id ∈ dom patches -> Get (Some s) id <> None) as Hall.
    { intros id [f Hf]%elem_of_dom. specialize (Ef id). destruct (Get (Some s) id); [done|]. exfalso.
      enough (false = true) by done. apply Ef, in_map_iff. exists (id, f). split; [done|].
      by apply list_elem_of_In, range_map_elem. }
    set (affected := list_to_set _). set (rewrite_rows := map _).
    assert (imap (fun i chunk => if decide (i ∈ affected) then rewrite_rows chunk else chunk) (chunks s) =
      map rewrite_rows (chunks s)) as Hc.
    { apply list_eq. intros i. rewrite list_lookup_imap, list_lookup_fmap.
      destruct (chunks s !! i) as [chunk|] eqn:Ec; [|done]. simpl. f_equal.
      destruct (decide _) as [|Hn]; [done|]. unfold rewrite_rows. symmetry. rewrite (map_ext_in _ id); [apply map_id|].
      intros y Hy%list_elem_of_In. destruct (patches !! ID y) as [f|] eqn:E; [|done]. destruct Hn.
      apply elem_of_list_to_set, list_elem_of_fmap. exists (ID y).
      split; [symmetry; by apply (chunkFor_member s Hok i chunk)|]. apply list_elem_of_fmap. exists (ID y, f).
      split; [done|by apply range_map_elem]. }
    rewrite Hc. assert (forall y, ID (default y (patches !! ID y)) = ID y) as Hid.
    { intros y. destruct (patches !! ID y) as [f|] eqn:E; [simpl; by apply Hp|done]. }
    assert (concat (map rewrite_rows (chunks s)) = map (fun y => default y (patches !! ID y)) (concat (chunks s))) as Hcat
      by (by rewrite concat_map).
    assert (ID <$> concat (map rewrite_rows (chunks s)) = ID <$> concat (chunks s)) as Hids.
    { rewrite Hcat. change (map ?f ?l) with (f <$> l). rewrite <- list_fmap_compose. apply list_fmap_ext.
      intros k y _. apply Hid. }
    set (next := mkSymbolFactStore _ _).
    assert (store_ok next) as Hnext.
    { split; simpl.
      - apply Forall_fmap. eapply Forall_impl; [apply (store_chunks s Hok)|]. intros c [Hne Hlen]. simpl.
        unfold rewrite_rows. rewrite length_map. split; [|done]. by destruct c.
      - unfold keys_sorted. rewrite Hids. apply (store_sorted s Hok).
      - rewrite Hcat, length_map. apply (store_count s Hok). }
    split; [done|]. split; [done|]. split; [simpl; by rewrite length_map|].
    split; [unfold universe, Range; simpl; by rewrite Hids|]. split.
    + intros id. apply option_eq. intros x. rewrite (Get_spec next Hnext). unfold next. cbn [chunks].
      rewrite Hcat, list_elem_of_fmap. split.
      * intros [(y & -> & Hy) <-]. rewrite Hid. assert (Get (Some s) (ID y) = Some y) as -> by (by apply (Get_spec s Hok)).
        by destruct (patches !! ID y).
      * destruct (patches !! id) as [f|] eqn:E; intros Hx.
        -- simplify_eq. split; [|by apply Hp]. destruct (Get (Some s) id) as [y|] eqn:Eg.
           ++ apply (Get_spec s Hok) in Eg as [Hy Hyid]. exists y. by rewrite Hyid, E.
           ++ destruct (Hall id); [by apply elem_of_dom|done].
        -- apply (Get_spec s Hok) in Hx as [Hy Hyid]. split; [|done]. exists x. by rewrite Hyid, E.
    + etransitivity; [apply length_filter|]. by rewrite length_seq.
  - apply not_true_iff_false in Ef. rewrite forallb_forall in Ef.
    destruct (decide (Forall (fun p => Get (Some s) p.1 <> None) (range_map patches))) as [Hf|Hf].
    + destruct Ef. intros id Hin%in_map_iff. destruct Hin as (p & <- & Hin%list_elem_of_In).
      rewrite Forall_forall in Hf. specialize (Hf p Hin). by destruct (Get (Some s) p.1).
    + apply not_Forall_Exists, Exists_exists in Hf as ([id f] & Hin & Hn); [|apply _].
      apply range_map_elem in Hin. exists id. split; [apply elem_of_dom; by exists f|].
      simpl in Hn. by apply dec_stable.
Qed.

Lemma PatchExisting_refines_witness :
  match PatchExisting (Some sample_store) {["c" := store_row "c" 9]} with
  | Some (next, _) => Get (Some next) "c" = Some (store_row "c" 9) /\ Get (Some next) "a" = Some (store_row "a" 1)
  | None => False
  end.
Proof.
  assert (patches_ok {["c" := store_row "c" 9]}) as Hp by (by intros id f [<- <-]%lookup_singleton_Some).
  pose proof (PatchExisting_refines sample_store _ sample_store_ok Hp) as H.
  destruct (PatchExisting _ _) as [[next shared]|].
  - destruct H as (_ & _ & _ & _ & H & _). rewrite !H. split; reflexivity.
  - destruct H as (id & Hd & Hg). apply elem_of_dom in Hd as [f [<- _]%lookup_singleton_Some]. discriminate Hg.
Defined.
