(* ===== verification/FactTable.v ===== *)
(** * The fact table and its path rows

    [FactTable] of [model.go], the canonical lookups of
    [transport_manifest.go] and [wire_transition_diff.go], and the cursor that
    merge-walks a table's three path streams. A nil slice or map the code
    tests is [None]. *)

From S2P Require Import Prelude GoStd GoSha SortedPaths KeyedDiff Model FactEqual SymbolStore.
Open Scope Z_scope.

(** The schema of the table inside the producer. *)
Definition TypeFactsSchemaVersion : Z := 1.

Record factTableTransportChanges := mkTransportChanges {
  baseGeneration : Z;
  baseStateID : Z;
  sourcePaths : gset string;
  entityPaths : gset string;
  filePaths : gset string;
  symbolIDs : gset string;
  exact : bool;
}.

Record FactTable := mkFactTable {
  Schema : Z;
  Generation : Z;
  ProjectID : string;
  Sources : list SourceFile;
  ft_Entities : list EntityFact;
  Symbols : list SymbolFact;
  Files : list FileFact;
  stateID : Z;
  transport : option factTableTransportChanges;
  ft_symbols : option symbolFactStore;
  sourceDigests : option (list SourceDigest);
  pathSymbols : option (gmap string (list SymbolID));
  entityRuns : option (list (list EntityFact));
}.

(** ** Wire views *)

Definition wireEntityCount (t : option FactTable) : nat :=
  match t with
  | None => 0
  | Some t =>
      match entityRuns t with
      | None => length (ft_Entities t)
      | Some runs => foldl (fun count run => count + length run)%nat 0%nat runs
      end
  end.

(** The rows [rangeWireEntities] visits, in order. *)
Definition rangeWireEntities (t : FactTable) : list EntityFact :=
  match entityRuns t with
  | None => ft_Entities t
  | Some runs => concat runs
  end.

Definition digest_source (f : SourceFile) : SourceDigest := mkSourceDigest (src_Path f) (Sha256.Sum256 (Source f)).

(** [wireSourceDigests] returns the digests it has, or derives and keeps
    them; [keepSourceDigests] is the table it leaves. *)
Definition wireSourceDigests (t : option FactTable) : list SourceDigest :=
  match t with
  | None => []
  | Some t =>
      match sourceDigests t with
      | Some ds => ds
      | None => map digest_source (Sources t)
      end
  end.

Definition keepSourceDigests (t : FactTable) : FactTable :=
  match sourceDigests t, Sources t with
  | None, _ :: _ =>
      mkFactTable (Schema t) (Generation t) (ProjectID t) (Sources t) (ft_Entities t) (Symbols t) (Files t)
        (stateID t) (transport t) (ft_symbols t) (Some (map digest_source (Sources t))) (pathSymbols t) (entityRuns t)
  | _, _ => t
  end.

Definition symbolFactsCount (t : FactTable) : nat :=
  match ft_symbols t with Some s => Len (Some s) | None => length (Symbols t) end.

Definition rangeSymbolFacts (t : FactTable) : list SymbolFact :=
  match ft_symbols t with Some s => Range (Some s) | None => Symbols t end.

Definition canonicalSymbolFact (facts : list SymbolFact) (id : SymbolID) : option SymbolFact := find_key ID facts id.

Definition canonicalSymbol (t : FactTable) (id : SymbolID) : option SymbolFact :=
  match ft_symbols t with
  | Some s => Get (Some s) id
  | None => canonicalSymbolFact (Symbols t) id
  end.

Definition canonicalFileFact (facts : list FileFact) (path : string) : option FileFact :=
  find_key ff_Path facts path.

Definition wireTransitionSource (sources : list SourceDigest) (path : string) : option SourceDigest :=
  find_key dig_Path sources path.

(** ** Entity runs *)

Definition entity_path (e : EntityFact) : string := Path (ef_Location e).

(** The rows at the head of [l] with this path. *)
Fixpoint run_length (path : string) (l : list EntityFact) : nat :=
  match l with
  | e :: l' => if String.eqb (entity_path e) path then S (run_length path l') else 0
  | [] => 0
  end.

Definition entityPathEnd (entities : list EntityFact) (start : nat) : nat :=
  match entities !! start with
  | Some e => (start + 1 + run_length (entity_path e) (drop (start + 1) entities))%nat
  | None => start
  end.

Definition canonicalEntityPath (entities : list EntityFact) (path : string) : list EntityFact :=
  let start := search_key entity_path entities path in
  match entities !! start with
  | Some e =>
      if String.eqb (entity_path e) path
      then take (entityPathEnd entities start - start) (drop start entities)
      else []
  | None => []
  end.

Definition run_path (run : list EntityFact) : string :=
  match run with e :: _ => entity_path e | [] => "" end.

Definition wireTransitionEntityRunCount (t : FactTable) : nat :=
  match entityRuns t with Some runs => length runs | None => length (ft_Entities t) end.

Definition wireTransitionEntityRunPath (t : FactTable) (index : nat) : string :=
  match entityRuns t with
  | Some runs => from_option run_path "" (runs !! index)
  | None => from_option entity_path "" (ft_Entities t !! index)
  end.

Definition wireTransitionEntityRun (t : FactTable) (index : nat) : list EntityFact :=
  match entityRuns t with
  | Some runs => default [] (runs !! index)
  | None => take (entityPathEnd (ft_Entities t) index - index) (drop index (ft_Entities t))
  end.

Definition wireTransitionEntityPath (t : FactTable) (path : string) : list EntityFact :=
  match entityRuns t with
  | None => canonicalEntityPath (ft_Entities t) path
  | Some runs => default [] (find_key run_path runs path)
  end.

(** ** The rows of one path *)

(** A row with its presence flag is an [option]. *)
Record wireTransitionPathRows := mkPathRows {
  rows_path : string;
  rows_source : option SourceDigest;
  rows_entities : list EntityFact;
  rows_file : option FileFact;
}.

Definition empty_rows (path : string) : wireTransitionPathRows := mkPathRows path None [] None.

Definition wireTransitionPathRowsAt (t : FactTable) (path : string) : wireTransitionPathRows :=
  mkPathRows path
    (wireTransitionSource (wireSourceDigests (Some t)) path)
    (wireTransitionEntityPath t path)
    (canonicalFileFact (Files t) path).

(** ** The path cursor *)

Record wireTransitionTablePathCursor := mkPathCursor {
  cur_source : nat;
  cur_entity : nat;
  cur_file : nat;
}.

Definition newWireTransitionTablePathCursor : wireTransitionTablePathCursor := mkPathCursor 0 0 0.

Section Cursor.
Context (t : FactTable).

Definition path_cursor_valid (c : wireTransitionTablePathCursor) : bool :=
  (cur_source c <? length (wireSourceDigests (Some t)))%nat ||
  (cur_entity c <? wireTransitionEntityRunCount t)%nat ||
  (cur_file c <? length (Files t))%nat.

(** [consider] of [path]. *)
Definition consider (path : option string) (candidate : string) : option string :=
  match path with
  | None => Some candidate
  | Some p => if String.ltb candidate p then Some candidate else Some p
  end.

Definition path_cursor_path (c : wireTransitionTablePathCursor) : string :=
  let path := None in
  let path :=
    match wireSourceDigests (Some t) !! cur_source c with
    | Some d => consider path (dig_Path d) | None => path end in
  let path :=
    if (cur_entity c <? wireTransitionEntityRunCount t)%nat
    then consider path (wireTransitionEntityRunPath t (cur_entity c)) else path in
  let path :=
    match Files t !! cur_file c with
    | Some f => consider path (ff_Path f) | None => path end in
  default "" path.

(** Whether each stream stands at the path. *)
Definition at_source (c : wireTransitionTablePathCursor) (path : string) : option SourceDigest :=
  match wireSourceDigests (Some t) !! cur_source c with
  | Some d => if String.eqb (dig_Path d) path then Some d else None
  | None => None
  end.

Definition at_entity (c : wireTransitionTablePathCursor) (path : string) : bool :=
  (cur_entity c <? wireTransitionEntityRunCount t)%nat &&
  String.eqb (wireTransitionEntityRunPath t (cur_entity c)) path.

Definition at_file (c : wireTransitionTablePathCursor) (path : string) : option FileFact :=
  match Files t !! cur_file c with
  | Some f => if String.eqb (ff_Path f) path then Some f else None
  | None => None
  end.

Definition path_cursor_rows (c : wireTransitionTablePathCursor) : wireTransitionPathRows :=
  let path := path_cursor_path c in
  mkPathRows path
    (at_source c path)
    (if at_entity c path then wireTransitionEntityRun t (cur_entity c) else [])
    (at_file c path).

Definition path_cursor_next (c : wireTransitionTablePathCursor) : wireTransitionTablePathCursor :=
  let path := path_cursor_path c in
  mkPathCursor
    (match at_source c path with Some _ => S (cur_source c) | None => cur_source c end)
    (if at_entity c path then
       match entityRuns t with
       | Some _ => S (cur_entity c)
       | None => entityPathEnd (ft_Entities t) (cur_entity c)
       end
     else cur_entity c)
    (match at_file c path with Some _ => S (cur_file c) | None => cur_file c end).

(** [for cursor.valid() { visit(cursor.rows()); cursor.next() }]. *)
Fixpoint path_cursor_walk (fuel : nat) (c : wireTransitionTablePathCursor) : list wireTransitionPathRows :=
  match fuel with
  | O => []
  | S fuel' =>
      if path_cursor_valid c then path_cursor_rows c :: path_cursor_walk fuel' (path_cursor_next c) else []
  end.

(** Every turn advances a stream, so this many turns are enough. *)
Definition path_cursor_fuel : nat :=
  (length (wireSourceDigests (Some t)) + wireTransitionEntityRunCount t + length (Files t))%nat.

End Cursor.

(** ** Canonical tables *)

Definition run_ok (run : list EntityFact) : Prop := run <> [] /\ Forall (fun e => entity_path e = run_path run) run.

Record table_ok (t : FactTable) : Prop := {
  table_sources : keys_sorted dig_Path (wireSourceDigests (Some t));
  table_files : keys_sorted ff_Path (Files t);
  table_entities :
    match entityRuns t with
    | Some runs => keys_sorted run_path runs /\ Forall run_ok runs
    | None => StronglySorted sle (entity_path <$> ft_Entities t)
    end;
  table_symbols :
    match ft_symbols t with
    | Some s => store_ok s
    | None => keys_sorted ID (Symbols t)
    end;
}.

Lemma keepSourceDigests_digests t :
  wireSourceDigests (Some (keepSourceDigests t)) = wireSourceDigests (Some t) /\
  keepSourceDigests (keepSourceDigests t) = keepSourceDigests t.
Proof. unfold keepSourceDigests, wireSourceDigests. destruct t as []; simpl. by repeat case_match; simplify_eq/=. Qed.

Lemma canonicalSymbol_find t id : table_ok t -> canonicalSymbol t id = find_key ID (rangeSymbolFacts t) id.
Proof.
  intros [_ _ _ Hs]. unfold canonicalSymbol, rangeSymbolFacts.
  destruct (ft_symbols t) as [s|]; [by apply Get_find|done].
Qed.

Lemma rangeSymbolFacts_sorted t : table_ok t -> keys_sorted ID (rangeSymbolFacts t).
Proof. intros [_ _ _ Hs]. unfold rangeSymbolFacts. destruct (ft_symbols t); [by apply store_sorted|done]. Qed.

Lemma wireEntityCount_length t : wireEntityCount (Some t) = length (rangeWireEntities t).
Proof.
  unfold wireEntityCount, rangeWireEntities. destruct (entityRuns t) as [runs|]; [|done].
  rewrite <- (Nat.add_0_l (length (concat runs))). generalize 0%nat.
  induction runs as [|r runs IH]; intros k; simpl; [lia|]. rewrite IH, length_app. lia.
Qed.

(** ** Runs of a path-ordered list *)

Fixpoint group_runs (fuel : nat) (es : list EntityFact) : list (list EntityFact) :=
  match es, fuel with
  | [], _ | _, O => []
  | e :: es', S fuel' =>
      let n := run_length (entity_path e) es' in
      (e :: take n es') :: group_runs fuel' (drop n es')
  end.

Definition group (es : list EntityFact) : list (list EntityFact) := group_runs (length es) es.

Lemma run_length_le p l : (run_length p l <= length l)%nat.
Proof. induction l as [|e l IH]; simpl; [lia|]. destruct (String.eqb _ _); lia. Qed.

Lemma group_runs_fuel fuel es : (length es <= fuel)%nat -> group_runs fuel es = group es.
Proof.
  unfold group. enough (forall n m es, (length es <= n)%nat -> (length es <= m)%nat ->
    group_runs n es = group_runs m es) as H by (intros; apply H; lia). clear fuel es.
  induction n as [|n IH]; intros m es Hn Hm; destruct es as [|e es]; simpl in Hn; try lia; [by destruct m|by destruct m|].
  destruct m as [|m]; simpl in Hm; [lia|]. simpl. f_equal.
  apply IH; rewrite length_drop; lia.
Qed.

Lemma group_cons e es :
  group (e :: es) = (e :: take (run_length (entity_path e) es) es) :: group (drop (run_length (entity_path e) es) es).
Proof. unfold group at 1. simpl. by rewrite group_runs_fuel by (rewrite length_drop; lia). Qed.

Lemma run_length_split p l :
  Forall (fun e => entity_path e = p) (take (run_length p l) l) /\
  match drop (run_length p l) l with e :: _ => entity_path e <> p | [] => True end.
Proof.
  induction l as [|e l [IH1 IH2]]; [split; [constructor|done]|]. simpl.
  destruct (String.eqb_spec (entity_path e) p) as [E|E]; simpl; [|split; [constructor|done]].
  split; [by constructor|done].
Qed.

Lemma group_ind (P : list EntityFact -> Prop) :
  P [] ->
  (forall e es, P (drop (run_length (entity_path e) es) es) -> P (e :: es)) ->
  forall es, P es.
Proof.
  intros H0 Hs es. remember (length es) as n eqn:Hn. revert es Hn.
  induction n as [n IH] using lt_wf_ind. intros es ->. destruct es as [|e es]; [done|].
  apply Hs. eapply IH; [|done]. rewrite length_drop. simpl. lia.
Qed.

Lemma group_concat es : concat (group es) = es.
Proof.
  induction es as [|e es IH] using group_ind; [done|]. rewrite group_cons. simpl.
  by rewrite IH, take_drop.
Qed.

(** A path-ordered list splits into its runs. *)
Lemma group_ok es :
  StronglySorted sle (entity_path <$> es) -> keys_sorted run_path (group es) /\ Forall run_ok (group es).
Proof.
  induction es as [|e es IH] using group_ind; intros Hs; [split; [apply keys_sorted_nil|constructor]|].
  rewrite group_cons. set (n := run_length (entity_path e) es) in *.
  simpl in Hs. apply StronglySorted_inv in Hs as [Hs He].
  pose proof Hs as Hs'. rewrite <- (take_drop n es), fmap_app in Hs'.
  apply StronglySorted_app in Hs' as (_ & _ & Hd). destruct (IH Hd) as [IH1 IH2].
  destruct (run_length_split (entity_path e) es) as [Ht Hh]. fold n in Ht, Hh.
  split; [|constructor; [|done]].
  - apply keys_sorted_cons. split; [done|]. apply Forall_forall. intros run Hrun. simpl.
    rewrite Forall_forall in IH2. destruct (IH2 run Hrun) as [Hne _].
    destruct run as [|x run]; [done|]. simpl.
    assert (x ∈ drop n es) as Hx.
    { rewrite <- (group_concat (drop n es)). apply list_elem_of_In, in_concat. exists (x :: run).
      split; [by apply list_elem_of_In|by left]. }
    destruct (drop n es) as [|y ys] eqn:Ey; [by apply not_elem_of_nil in Hx|].
    assert (sle (entity_path y) (entity_path x)) as Hyx.
    { simpl in Hd. apply StronglySorted_inv in Hd as [_ Hd]. apply elem_of_cons in Hx as [->|Hx]; [done|].
      rewrite Forall_forall in Hd. apply Hd, list_elem_of_fmap. eauto. }
    apply slt_le_trans with (entity_path y); [|done].
    assert (sle (entity_path e) (entity_path y)) as Hey.
    { rewrite Forall_forall in He. apply He, list_elem_of_fmap. exists y. split; [done|].
      rewrite <- (take_drop n es), Ey. set_solver. }
    apply sle_lt_eq in Hey as [|Heq]; [done|congruence].
  - split; [done|]. constructor; [done|]. done.
Qed.

Lemma group_find es p :
  StronglySorted sle (entity_path <$> es) ->
  default [] (find_key run_path (group es) p) = filter (fun e => entity_path e = p) es.
Proof.
  intros Hs. destruct (group_ok es Hs) as [Hk Hr].
  rewrite <- (group_concat es) at 2. rewrite Forall_forall in Hr.
  assert (forall runs, (forall r, r ∈ runs -> run_ok r) ->
    (forall r, r ∈ runs -> run_path r <> p) -> filter (fun e => entity_path e = p) (concat runs) = []) as Hnone.
  { intros runs Hok Hne. apply filter_none, Forall_forall. intros e (r & Hin & He)%list_elem_of_In%in_concat Hp.
    apply list_elem_of_In in Hin, He. destruct (Hok r Hin) as [_ Hall]. rewrite Forall_forall in Hall.
    apply (Hne r Hin). by rewrite <- (Hall e He). }
  destruct (find_key run_path (group es) p) as [run|] eqn:E; simpl.
  - apply find_key_spec in E as [Hin Hp]; [|done]. apply list_elem_of_split in Hin as (l1 & l2 & Hg).
    rewrite Hg in *. rewrite concat_app. simpl. rewrite !filter_app.
    apply keys_sorted_NoDup in Hk. rewrite fmap_app, fmap_cons in Hk.
    apply NoDup_app in Hk as (_ & Hd1 & Hk). apply NoDup_cons in Hk as [Hd2 _].
    rewrite (Hnone l1), (Hnone l2), app_nil_r; simpl.
    + symmetry. apply filter_all. destruct (Hr run) as [_ Hall]; [set_solver|]. by rewrite Hp in Hall.
    + intros r Hin. apply Hr. set_solver.
    + intros r Hin Heq. apply Hd2. rewrite Hp, <- Heq. apply list_elem_of_fmap. eauto.
    + intros r Hin. apply Hr. set_solver.
    + intros r Hin Heq. apply (Hd1 p); [rewrite <- Heq; apply list_elem_of_fmap; eauto|]. rewrite Hp. left.
  - apply find_key_None in E; [|done]. symmetry. apply Hnone; [done|].
    intros r Hin Heq. apply E. rewrite <- Heq. apply list_elem_of_fmap. eauto.
Qed.

Lemma run_length_filter p l :
  StronglySorted sle (entity_path <$> l) -> (forall e, e ∈ l -> sle p (entity_path e)) ->
  take (run_length p l) l = filter (fun e => entity_path e = p) l.
Proof.
  induction l as [|e l IH]; intros Hs Hp; [done|]. simpl in *. apply StronglySorted_inv in Hs as [Hs He].
  rewrite filter_cons. destruct (String.eqb_spec (entity_path e) p) as [E|E].
  - rewrite decide_True by done. simpl. f_equal. apply IH; [done|]. intros x Hx. apply Hp. by right.
  - rewrite decide_False by done. simpl. symmetry. apply filter_none, Forall_forall. intros x Hx Hxp.
    rewrite Forall_forall in He. specialize (He (entity_path x)). apply E.
    apply (anti_symm sle); [rewrite <- Hxp; apply He, list_elem_of_fmap; eauto|apply Hp; left].
Qed.

Lemma canonicalEntityPath_filter es p :
  StronglySorted sle (entity_path <$> es) ->
  canonicalEntityPath es p = filter (fun e => entity_path e = p) es.
Proof.
  intros Hs. unfold canonicalEntityPath.
  destruct (search_key_split_weak entity_path es p Hs) as (l1 & l2 & Hl & Hlen & H1 & H2).
  rewrite <- Hlen. rewrite Hl in *. rewrite filter_app, (filter_none _ l1); simpl.
  2: { eapply Forall_impl; [exact H1|]. intros e He. simpl in He. by apply slt_neq. }
  rewrite lookup_app_r, Nat.sub_diag, drop_app_length by lia.
  rewrite fmap_app in Hs. apply StronglySorted_app in Hs as (_ & _ & Hs).
  rewrite Forall_forall in H2. rewrite <- run_length_filter by done.
  destruct l2 as [|e l2]; [done|]. cbn [lookup list_lookup run_length].
  destruct (String.eqb_spec (entity_path e) p) as [E|E]; [|done].
  unfold entityPathEnd. rewrite lookup_app_r, Nat.sub_diag by lia. simpl.
  rewrite Nat.add_1_r. rewrite drop_app, drop_ge by lia. replace (S (length l1) - length l1)%nat with 1%nat by lia.
  simpl. rewrite E. change (drop 0 l2) with l2.
  replace (S (length l1 + run_length p l2) - length l1)%nat with (S (run_length p l2)) by lia. done.
Qed.

(** The table's entity runs, in either representation. *)
Definition table_runs (t : FactTable) : list (list EntityFact) :=
  match entityRuns t with Some runs => runs | None => group (ft_Entities t) end.

Lemma table_runs_ok t : table_ok t -> keys_sorted run_path (table_runs t) /\ Forall run_ok (table_runs t).
Proof. intros [_ _ He _]. unfold table_runs. destruct (entityRuns t); [done|by apply group_ok]. Qed.

Lemma entity_path_rows t p :
  table_ok t -> wireTransitionEntityPath t p = default [] (find_key run_path (table_runs t) p).
Proof.
  intros [_ _ He _]. unfold wireTransitionEntityPath, table_runs. destruct (entityRuns t); [done|].
  by rewrite canonicalEntityPath_filter, group_find.
Qed.

(** ** Merging three path streams *)

(** The least head of the three streams. *)
Definition min_path (S : list SourceDigest) (E : list (list EntityFact)) (F : list FileFact) : option string :=
  let path := None in
  let path := match S with d :: _ => consider path (dig_Path d) | [] => path end in
  let path := match E with r :: _ => consider path (run_path r) | [] => path end in
  match F with f :: _ => consider path (ff_Path f) | [] => path end.

Definition stream_paths (S : list SourceDigest) (E : list (list EntityFact)) (F : list FileFact) : list string :=
  sortUniqueWireTransitionPaths (map dig_Path S ++ map run_path E ++ map ff_Path F).

Definition stream_rows (S : list SourceDigest) (E : list (list EntityFact)) (F : list FileFact) (p : string) :
    wireTransitionPathRows :=
  mkPathRows p (find_key dig_Path S p) (default [] (find_key run_path E p)) (find_key ff_Path F p).

Definition streams_sorted (S : list SourceDigest) (E : list (list EntityFact)) (F : list FileFact) : Prop :=
  keys_sorted dig_Path S /\ keys_sorted run_path E /\ keys_sorted ff_Path F.

Lemma consider_spec path c :
  exists m, consider path c = Some m /\ sle m c /\
    match path with Some p => sle m p /\ (m = p \/ m = c) | None => m = c end.
Proof.
  unfold consider. destruct path as [p|]; [|by exists c]. destruct (String.ltb c p) eqn:E.
  - exists c. split; [done|]. split; [done|]. split; [by apply slt_le|by right].
  - exists p. split; [done|]. split; [done|]. split; [done|by left].
Qed.

(** The least path bounds every stream and stands at one of the heads. *)
Lemma min_path_spec S E F :
  streams_sorted S E F ->
  match min_path S E F with
  | None => S = [] /\ E = [] /\ F = []
  | Some m =>
      (forall x, x ∈ S -> sle m (dig_Path x)) /\ (forall x, x ∈ E -> sle m (run_path x)) /\
      (forall x, x ∈ F -> sle m (ff_Path x)) /\
      (head_at dig_Path S m <> None \/ head_at run_path E m <> None \/ head_at ff_Path F m <> None)
  end.
Proof.
  intros (HS & HE & HF). unfold min_path.
  set (p1 := match S with d :: _ => consider None (dig_Path d) | [] => None end).
  set (p2 := match E with r :: _ => consider p1 (run_path r) | [] => p1 end).
  assert (match p1 with
    | None => S = []
    | Some m => (forall x, x ∈ S -> sle m (dig_Path x)) /\ head_at dig_Path S m <> None end) as H1.
  { unfold p1. destruct S as [|d S]; [done|]. simpl. split; [by apply head_le|]. by rewrite String.eqb_refl. }
  assert (match p2 with
    | None => S = [] /\ E = []
    | Some m => (forall x, x ∈ S -> sle m (dig_Path x)) /\ (forall x, x ∈ E -> sle m (run_path x)) /\
        (head_at dig_Path S m <> None \/ head_at run_path E m <> None) end) as H2.
  { unfold p2. destruct E as [|r E].
    { destruct p1 as [m|]; [|done]. destruct H1 as [H1 H1']. split; [done|]. split; [|auto].
      intros x Hx. by apply not_elem_of_nil in Hx. }
    destruct (consider_spec p1 (run_path r)) as (m & -> & Hm & Hp).
    assert (forall x, x ∈ r :: E -> sle m (run_path x)) as HEm by (by apply head_le).
    destruct p1 as [p|].
    - destruct H1 as [H1 H1']. destruct Hp as [Hmp Hor]. split; [intros x Hx; apply sle_trans with p; auto|].
      split; [done|]. destruct Hor as [->|Heq]; [by left|]. right. simpl. by rewrite <- Heq, String.eqb_refl.
    - subst S. split; [intros x Hx; by apply not_elem_of_nil in Hx|]. split; [done|]. right. simpl.
      by rewrite Hp, String.eqb_refl. }
  clear H1. destruct F as [|f F].
  { destruct p2 as [m|]; [|tauto]. destruct H2 as (H2 & H3 & H4). split; [done|]. split; [done|].
    split; [intros x Hx; by apply not_elem_of_nil in Hx|]. tauto. }
  destruct (consider_spec p2 (ff_Path f)) as (m & -> & Hm & Hp).
  assert (forall x, x ∈ f :: F -> sle m (ff_Path x)) as HFm by (by apply head_le).
  destruct p2 as [p|].
  - destruct H2 as (H2 & H3 & H4). destruct Hp as [Hmp Hor].
    split; [intros x Hx; apply sle_trans with p; auto|]. split; [intros x Hx; apply sle_trans with p; auto|].
    split; [done|]. destruct Hor as [->|Heq]; [tauto|]. right. right. simpl. by rewrite <- Heq, String.eqb_refl.
  - destruct H2 as [-> ->]. split; [intros x Hx; by apply not_elem_of_nil in Hx|].
    split; [intros x Hx; by apply not_elem_of_nil in Hx|]. split; [done|]. right. right. simpl.
    by rewrite Hp, String.eqb_refl.
Qed.

Lemma stream_paths_elem S E F p :
  p ∈ stream_paths S E F <-> p ∈ map dig_Path S \/ p ∈ map run_path E \/ p ∈ map ff_Path F.
Proof. unfold stream_paths. rewrite (proj2 (sortUnique_spec _)). by rewrite !elem_of_app. Qed.

Lemma stream_paths_sorted S E F : keys_sorted id (stream_paths S E F).
Proof. apply sortUnique_spec. Qed.

Lemma stream_step S E F m :
  streams_sorted S E F -> min_path S E F = Some m ->
  let S' := advance dig_Path S m in
  let E' := advance run_path E m in
  let F' := advance ff_Path F m in
  streams_sorted S' E' F' /\
  stream_paths S E F = m :: stream_paths S' E' F' /\
  stream_rows S E F m = mkPathRows m (head_at dig_Path S m) (default [] (head_at run_path E m)) (head_at ff_Path F m) /\
  (forall p, slt m p -> stream_rows S' E' F' p = stream_rows S E F p) /\
  (length S' + length E' + length F' < length S + length E + length F)%nat.
Proof.
  intros Hs Hmin. pose proof (min_path_spec S E F Hs) as Hm. rewrite Hmin in Hm.
  destruct Hm as (MS & ME & MF & Hhead). destruct Hs as (HS & HE & HF).
  split; [split; [by apply advance_sorted|split; by apply advance_sorted]|]. split; [|split; [|split]].
  - apply (keys_sorted_unique id); [apply stream_paths_sorted| |].
    + apply keys_sorted_cons. split; [apply stream_paths_sorted|]. apply Forall_forall. intros p Hp.
      apply stream_paths_elem in Hp. by destruct Hp as [Hp|[Hp|Hp]]; apply advance_keys in Hp as [_ ?].
    + intros p. rewrite elem_of_cons, !stream_paths_elem, !advance_keys by done.
      destruct (slt_total m p) as [Hlt|[->|Hlt]].
      * split; [|intros [->|?]; [by apply slt_irrefl in Hlt|tauto]]. intros. right. tauto.
      * split; [auto|]. intros _. destruct Hhead as [H|[H|H]]; apply head_at_key in H; tauto.
      * split.
        -- intros H. exfalso. apply sle_not_slt in Hlt; [done|].
           destruct H as [(x & -> & Hx)%list_elem_of_fmap|[(x & -> & Hx)%list_elem_of_fmap|(x & -> & Hx)%list_elem_of_fmap]]; auto.
        -- intros [->|H]; [by apply slt_irrefl in Hlt|]. tauto.
  - unfold stream_rows. by rewrite !find_head.
  - intros p Hp. unfold stream_rows. by rewrite !find_advance.
  - pose proof (advance_length dig_Path S m). pose proof (advance_length run_path E m).
    pose proof (advance_length ff_Path F m).
    assert (forall A (key : A -> string) l, head_at key l m <> None -> (length (advance key l m) < length l)%nat) as Hlen.
    { intros A key l. destruct l as [|x l]; [done|]. simpl. destruct (String.eqb _ _); [simpl; lia|done]. }
    destruct Hhead as [Hh|[Hh|Hh]]; apply Hlen in Hh; lia.
Qed.

(** ** The cursor walks the merged streams *)

Section CursorFacts.
Context (t : FactTable) (Hok : table_ok t).

(** What a cursor has still to visit. *)
Definition rest_sources (c : wireTransitionTablePathCursor) := drop (cur_source c) (wireSourceDigests (Some t)).
Definition rest_entities (c : wireTransitionTablePathCursor) :=
  match entityRuns t with
  | Some runs => drop (cur_entity c) runs
  | None => group (drop (cur_entity c) (ft_Entities t))
  end.
Definition rest_files (c : wireTransitionTablePathCursor) := drop (cur_file c) (Files t).

Lemma rest_entities_head c :
  (cur_entity c <? wireTransitionEntityRunCount t)%nat = true ->
  rest_entities c = wireTransitionEntityRun t (cur_entity c) ::
    match entityRuns t with
    | Some runs => drop (S (cur_entity c)) runs
    | None => group (drop (entityPathEnd (ft_Entities t) (cur_entity c)) (ft_Entities t))
    end /\
  run_path (wireTransitionEntityRun t (cur_entity c)) = wireTransitionEntityRunPath t (cur_entity c).
Proof.
  unfold rest_entities, wireTransitionEntityRunCount, wireTransitionEntityRun, wireTransitionEntityRunPath.
  rewrite Nat.ltb_lt. destruct (entityRuns t) as [runs|]; intros Hlt.
  - destruct (lookup_lt_is_Some_2 _ _ Hlt) as [r Hr]. rewrite Hr. simpl. split; [by apply drop_S|done].
  - destruct (lookup_lt_is_Some_2 _ _ Hlt) as [e He]. rewrite He. simpl.
    rewrite (drop_S _ _ _ He), group_cons. unfold entityPathEnd. rewrite He.
    set (n := run_length _ _).
    assert (n = run_length (entity_path e) (drop (cur_entity c + 1) (ft_Entities t))) as Hn
      by (unfold n; by rewrite Nat.add_1_r).
    rewrite <- Hn. replace (cur_entity c + 1 + n - cur_entity c)%nat with (S n) by lia. simpl.
    split; [|done]. f_equal. f_equal. rewrite drop_drop. f_equal. lia.
Qed.

Lemma rest_entities_end c :
  (cur_entity c <? wireTransitionEntityRunCount t)%nat = false -> rest_entities c = [].
Proof.
  unfold rest_entities, wireTransitionEntityRunCount. rewrite Nat.ltb_ge.
  destruct (entityRuns t); intros H; by rewrite drop_ge.
Qed.

Lemma drop_lookup {A} (l : list A) i :
  match l !! i with Some x => drop i l = x :: drop (S i) l | None => drop i l = [] end.
Proof.
  destruct (l !! i) as [x|] eqn:E; [by apply drop_S|]. apply drop_ge. by apply lookup_ge_None_1.
Qed.

#[local] Arguments consider : simpl never.

Lemma cursor_min c :
  path_cursor_valid t c = bool_decide (is_Some (min_path (rest_sources c) (rest_entities c) (rest_files c))) /\
  path_cursor_path t c = default "" (min_path (rest_sources c) (rest_entities c) (rest_files c)).
Proof.
  unfold path_cursor_valid, path_cursor_path, min_path, rest_sources, rest_files.
  pose proof (drop_lookup (wireSourceDigests (Some t)) (cur_source c)) as HS.
  pose proof (drop_lookup (Files t) (cur_file c)) as HF.
  assert (forall A (l : list A) i, (i <? length l)%nat = match l !! i with Some _ => true | None => false end) as Hl.
  { intros A l i. destruct (l !! i) eqn:E; [apply Nat.ltb_lt; by eapply lookup_lt_Some|].
    apply Nat.ltb_ge. by apply lookup_ge_None_1. }
  rewrite (Hl _ (wireSourceDigests (Some t))), (Hl _ (Files t)).
  assert (forall path x, consider path x <> None) as Hc
    by (intros path x; destruct (consider_spec path x) as (m & -> & _); done).
  assert (forall o : option string, o <> None -> true = bool_decide (is_Some o)) as Htrue
    by (intros o H; symmetry; apply bool_decide_eq_true_2; by apply not_eq_None_Some).
  destruct (wireSourceDigests (Some t) !! cur_source c) as [d|]; rewrite HS; clear HS;
    (destruct (cur_entity c <? wireTransitionEntityRunCount t)%nat eqn:Ee;
     [destruct (rest_entities_head c Ee) as [-> Hp]; rewrite Hp|rewrite (rest_entities_end c Ee)]);
    destruct (Files t !! cur_file c) as [f|]; rewrite HF; clear HF; (split; [|done]);
    cbn [orb]; first [apply Htrue, Hc|done].
Qed.

(** The cursor's row and step are those of the streams. *)
Lemma cursor_step c m :
  min_path (rest_sources c) (rest_entities c) (rest_files c) = Some m ->
  path_cursor_rows t c =
    mkPathRows m (head_at dig_Path (rest_sources c) m) (default [] (head_at run_path (rest_entities c) m))
      (head_at ff_Path (rest_files c) m) /\
  rest_sources (path_cursor_next t c) = advance dig_Path (rest_sources c) m /\
  rest_entities (path_cursor_next t c) = advance run_path (rest_entities c) m /\
  rest_files (path_cursor_next t c) = advance ff_Path (rest_files c) m.
Proof.
  intros Hm. destruct (cursor_min c) as [_ Hp]. rewrite Hm in Hp. simpl in Hp.
  unfold path_cursor_rows, path_cursor_next. rewrite Hp.
  assert (at_source t c m = head_at dig_Path (rest_sources c) m /\
    drop (match at_source t c m with Some _ => S (cur_source c) | None => cur_source c end)
      (wireSourceDigests (Some t)) = advance dig_Path (rest_sources c) m) as [-> HS].
  { unfold at_source, rest_sources. pose proof (drop_lookup (wireSourceDigests (Some t)) (cur_source c)) as H.
    destruct (_ !! cur_source c) as [d|]; rewrite H; [|done]. simpl. by destruct (String.eqb _ _). }
  assert (at_file t c m = head_at ff_Path (rest_files c) m /\
    drop (match at_file t c m with Some _ => S (cur_file c) | None => cur_file c end)
      (Files t) = advance ff_Path (rest_files c) m) as [-> HF].
  { unfold at_file, rest_files. pose proof (drop_lookup (Files t) (cur_file c)) as H.
    destruct (_ !! cur_file c) as [d|]; rewrite H; [|done]. simpl. by destruct (String.eqb _ _). }
  unfold at_entity. destruct (cur_entity c <? wireTransitionEntityRunCount t)%nat eqn:Ee; simpl.
  - destruct (rest_entities_head c Ee) as [Hr Hrp]. rewrite Hr. simpl. rewrite Hrp.
    destruct (String.eqb (wireTransitionEntityRunPath t (cur_entity c)) m).
    + split; [done|]. split; [exact HS|]. split; [|exact HF]. unfold rest_entities. simpl.
      by destruct (entityRuns t).
    + split; [done|]. split; [exact HS|]. split; [|exact HF]. exact Hr.
  - rewrite (rest_entities_end c Ee). split; [done|]. split; [exact HS|]. split; [|exact HF].
    exact (rest_entities_end c Ee).
Qed.

Lemma cursor_walk_streams fuel c S E F :
  rest_sources c = S -> rest_entities c = E -> rest_files c = F ->
  streams_sorted S E F -> (length S + length E + length F <= fuel)%nat ->
  path_cursor_walk t fuel c = map (stream_rows S E F) (stream_paths S E F).
Proof.
  revert c S E F. induction fuel as [|fuel IH]; intros c S E F HS HE HF Hs Hlen.
  { destruct S, E, F; simpl in Hlen; try lia. done. }
  cbn [path_cursor_walk]. destruct (cursor_min c) as [Hv _]. rewrite Hv, HS, HE, HF.
  destruct (min_path S E F) as [m|] eqn:Em.
  - rewrite bool_decide_eq_true_2 by eauto.
    destruct (cursor_step c m) as (Hr & NS & NE & NF); [by rewrite HS, HE, HF|].
    destruct (stream_step S E F m Hs Em) as (Hs' & Hp & Hrow & Hrest & Hlen').
    rewrite Hp. cbn [map]. rewrite Hrow, Hr, HS, HE, HF. f_equal.
    rewrite (IH (path_cursor_next t c) _ _ _ NS NE NF); rewrite ?HS, ?HE, ?HF; [|done|lia].
    apply map_ext_in. intros p Hin%list_elem_of_In. apply Hrest.
    pose proof (stream_paths_sorted S E F) as Hk. rewrite Hp in Hk. apply keys_sorted_cons in Hk as [_ Hk].
    rewrite Forall_forall in Hk. by apply Hk.
  - rewrite bool_decide_eq_false_2 by (by intros [? ?]).
    pose proof (min_path_spec S E F Hs) as H. rewrite Em in H. destruct H as (-> & -> & ->). done.
Qed.

(** The paths a table has rows for. *)
Definition table_paths : list string := stream_paths (wireSourceDigests (Some t)) (table_runs t) (Files t).

Lemma table_streams_sorted : streams_sorted (wireSourceDigests (Some t)) (table_runs t) (Files t).
Proof. split; [apply Hok|]. split; [by apply table_runs_ok|apply Hok]. Qed.

Lemma rows_at_streams p :
  wireTransitionPathRowsAt t p = stream_rows (wireSourceDigests (Some t)) (table_runs t) (Files t) p.
Proof. unfold wireTransitionPathRowsAt, stream_rows. by rewrite entity_path_rows. Qed.

Lemma group_length es : (length (group es) <= length es)%nat.
Proof.
  induction es as [|e es IH] using group_ind; [done|]. rewrite group_cons. simpl.
  rewrite length_drop in IH. lia.
Qed.

Lemma cursor_walk_rows fuel :
  (path_cursor_fuel t <= fuel)%nat ->
  path_cursor_walk t fuel newWireTransitionTablePathCursor = map (wireTransitionPathRowsAt t) table_paths.
Proof.
  intros Hf. rewrite (map_ext _ _ rows_at_streams).
  apply cursor_walk_streams; [done| |done|apply table_streams_sorted|].
  - unfold rest_entities, table_runs. by destruct (entityRuns t).
  - unfold path_cursor_fuel, wireTransitionEntityRunCount, table_runs in *.
    pose proof (group_length (ft_Entities t)). destruct (entityRuns t); lia.
Qed.
End CursorFacts.

(** The table path cursor visits every path that has rows once, in order, with exactly the
    rows the keyed lookups give, for tables that hold entity rows or entity runs, and terminates
    within its fuel. *)
Theorem path_cursor_visits t fuel :
  table_ok t -> (path_cursor_fuel t <= fuel)%nat ->
  path_cursor_walk t fuel newWireTransitionTablePathCursor = map (wireTransitionPathRowsAt t) (table_paths t) /\
  keys_sorted id (table_paths t) /\
  (forall p, p ∈ table_paths t <-> wireTransitionPathRowsAt t p <> empty_rows p).
Proof.
  intros Hok Hf. split; [by apply cursor_walk_rows|]. split; [apply stream_paths_sorted|]. intros p.
  pose proof (table_streams_sorted t Hok) as (HS & HE & HF).
  unfold table_paths. rewrite stream_paths_elem, (rows_at_streams t Hok). unfold stream_rows, empty_rows.
  assert (p ∈ map run_path (table_runs t) <-> default [] (find_key run_path (table_runs t) p) <> []) as ->.
  { destruct (find_key run_path (table_runs t) p) as [r|] eqn:E; simpl.
    - apply find_key_spec in E as [Hin Hp]; [|done]. split; intros _.
      + destruct (table_runs_ok t Hok) as [_ Hr]. rewrite Forall_forall in Hr. by destruct (Hr r Hin).
      + rewrite <- Hp. apply list_elem_of_fmap. eauto.
    - apply find_key_None in E; [|done]. done. }
  assert (forall A (key : A -> string) l, keys_sorted key l -> p ∈ map key l <-> find_key key l p <> None) as Hin.
  { intros A key l Hl. rewrite (find_key_None key l p Hl). split; [auto|apply dec_stable]. }
  rewrite (Hin _ dig_Path), (Hin _ ff_Path) by done.
  destruct (find_key dig_Path _ p) as [d|]; [split; [done|intros _; by left]|].
  destruct (find_key ff_Path _ p) as [f|]; [split; [done|intros _; by right; right]|].
  destruct (default [] _) as [|e r]; [|split; [done|intros _; by right; left]].
  split; [|done]. by intros [?|[?|?]].
Qed.

Definition table_row (path : string) (a : Z) : EntityFact := empty_entity (mkLocation path a (a + 1)).

(** A small table over three paths, with entity rows or runs. *)
Definition sample_table (runs : bool) : FactTable :=
  mkFactTable 1 1 "p" [mkSourceFile "b.ts" []] (if runs then [] else [table_row "a.ts" 1; table_row "a.ts" 5; table_row "c.ts" 2])
    [store_row "a" 1; store_row "c" 2] [mkFileFact "c.ts" [] [] [] []] 7 None None None None
    (if runs then Some [[table_row "a.ts" 1; table_row "a.ts" 5]; [table_row "c.ts" 2]] else None).

Lemma sample_table_ok runs : table_ok (sample_table runs).
Proof. destruct runs; split; simpl; repeat first [done | split | constructor]. Qed.

Lemma path_cursor_visits_witness :
  map rows_path (path_cursor_walk (sample_table true) 10 newWireTransitionTablePathCursor) = ["a.ts"; "b.ts"; "c.ts"] /\
  map rows_path (path_cursor_walk (sample_table false) 10 newWireTransitionTablePathCursor) = ["a.ts"; "b.ts"; "c.ts"].
Proof.
  split.
  - rewrite (proj1 (path_cursor_visits (sample_table true) 10 (sample_table_ok true) ltac:(vm_compute; lia))).
    vm_compute. reflexivity.
  - rewrite (proj1 (path_cursor_visits (sample_table false) 10 (sample_table_ok false) ltac:(vm_compute; lia))).
    vm_compute. reflexivity.
Defined.
