(* ===== verification/TransitionDiff.v ===== *)
(** * The transition planner

    [wire_transition_diff.go]: what a transition from one fact table to the
    next has to say. An exact manifest names the candidate rows; without one
    the planner merge-walks both tables. A plan is the scratch the encoder
    appends to. *)

From S2P Require Import Prelude GoStd SortedPaths Model FactEqual SymbolStore FactTable.
Open Scope Z_scope.

Inductive wireTransitionCollectionOp :=
| wireTransitionUnchanged
| wireTransitionReplace
| wireTransitionRemove.
#[export] Instance collection_op_eq_dec : EqDecision wireTransitionCollectionOp.
Proof. solve_decision. Defined.

Definition collection_op_tag (op : wireTransitionCollectionOp) : Z :=
  match op with wireTransitionUnchanged => 0 | wireTransitionReplace => 1 | wireTransitionRemove => 2 end.

Record wireTransitionPathOp := mkPathOp {
  op_path : string;
  sourceOp : wireTransitionCollectionOp;
  op_source : SourceDigest;
  entityOp : wireTransitionCollectionOp;
  op_entities : list EntityFact;
  fileOp : wireTransitionCollectionOp;
  op_file : FileFact;
}.

Inductive wireTransitionSymbolOpTag :=
| wireTransitionReplaceSymbol
| wireTransitionRemoveSymbol
| wireTransitionReplaceReferencePath.
#[export] Instance symbol_op_tag_eq_dec : EqDecision wireTransitionSymbolOpTag.
Proof. solve_decision. Defined.

Definition symbol_op_tag (tag : wireTransitionSymbolOpTag) : Z :=
  match tag with
  | wireTransitionReplaceSymbol => 0 | wireTransitionRemoveSymbol => 1 | wireTransitionReplaceReferencePath => 2
  end.

Record wireTransitionSymbolOp := mkSymbolOp {
  sop_id : SymbolID;
  sop_tag : wireTransitionSymbolOpTag;
  sop_fact : SymbolFact;
  sop_referencePath : string;
  sop_references : list Location;
}.

Definition remove_symbol (id : SymbolID) : wireTransitionSymbolOp :=
  mkSymbolOp id wireTransitionRemoveSymbol empty_symbol "" [].
Definition replace_symbol (id : SymbolID) (fact : SymbolFact) : wireTransitionSymbolOp :=
  mkSymbolOp id wireTransitionReplaceSymbol fact "" [].
Definition replace_reference_path (id : SymbolID) (path : string) (references : list Location) :
    wireTransitionSymbolOp :=
  mkSymbolOp id wireTransitionReplaceReferencePath empty_symbol path references.

(** The encoder's plan: [paths], [symbolIDs], [pathOps] and [symbolOps]. *)
Record wirePlan := mkPlan {
  plan_paths : list string;
  plan_symbolIDs : list SymbolID;
  plan_pathOps : list wireTransitionPathOp;
  plan_symbolOps : list wireTransitionSymbolOp;
}.

Definition releasePlan (e : wirePlan) : wirePlan := mkPlan [] [] [] [].

(** ** Path differences *)

Section Paths.
Context `{BK : !Backing} `{MR : !MapRange}.

(** The three collections of a path: the operation and what it carries. *)
Definition source_difference (candidate : bool) (previous next : option SourceDigest) :
    wireTransitionCollectionOp * SourceDigest :=
  if candidate then
    match previous, next with
    | Some _, None => (wireTransitionRemove, empty_digest)
    | None, Some s => (wireTransitionReplace, s)
    | Some p, Some s =>
        if go_eq (SHA256 p) (SHA256 s) then (wireTransitionUnchanged, empty_digest)
        else (wireTransitionReplace, s)
    | None, None => (wireTransitionUnchanged, empty_digest)
    end
  else (wireTransitionUnchanged, empty_digest).

Definition entity_difference (candidate : bool) (previous next : list EntityFact) :
    wireTransitionCollectionOp * list EntityFact :=
  if candidate then
    if negb (length previous =? 0)%nat && (length next =? 0)%nat
    then (wireTransitionRemove, [])
    else if negb (length next =? 0)%nat && negb (entityFactsEqual previous next)
    then (wireTransitionReplace, next)
    else (wireTransitionUnchanged, [])
  else (wireTransitionUnchanged, []).

Definition file_difference (candidate : bool) (previous next : option FileFact) :
    wireTransitionCollectionOp * FileFact :=
  if candidate then
    match previous, next with
    | Some _, None => (wireTransitionRemove, empty_file)
    | None, Some f => (wireTransitionReplace, f)
    | Some p, Some f =>
        if fileFactEqual p f then (wireTransitionUnchanged, empty_file) else (wireTransitionReplace, f)
    | None, None => (wireTransitionUnchanged, empty_file)
    end
  else (wireTransitionUnchanged, empty_file).

Definition wireTransitionPathRowsDifference (previous next : wireTransitionPathRows)
    (sourceCandidate entityCandidate fileCandidate : bool) : wireTransitionPathOp * bool :=
  let '(sop, s) := source_difference sourceCandidate (rows_source previous) (rows_source next) in
  let '(eop, es) := entity_difference entityCandidate (rows_entities previous) (rows_entities next) in
  let '(fop, f) := file_difference fileCandidate (rows_file previous) (rows_file next) in
  let operation := mkPathOp (rows_path next) sop s eop es fop f in
  (operation,
   negb (go_eq sop wireTransitionUnchanged) || negb (go_eq eop wireTransitionUnchanged) ||
   negb (go_eq fop wireTransitionUnchanged)).

(** [if operation, changed := ...; changed { append }]. *)
Definition append_changed (difference : wireTransitionPathOp * bool) (ops : list wireTransitionPathOp) :
    list wireTransitionPathOp :=
  let '(operation, changed) := difference in
  if changed then ops ++ [operation] else ops.

Definition wireTransitionPathDifference (base : option FactTable) (target : FactTable) (path : string)
    (sourceCandidate entityCandidate fileCandidate : bool) : wireTransitionPathOp * bool :=
  let previous := match base with Some b => wireTransitionPathRowsAt b path | None => empty_rows path end in
  let next := wireTransitionPathRowsAt target path in
  wireTransitionPathRowsDifference previous next sourceCandidate entityCandidate fileCandidate.

Definition planFull (target : FactTable) (e : wirePlan) : wirePlan :=
  let walked := path_cursor_walk target (path_cursor_fuel target) newWireTransitionTablePathCursor in
  mkPlan (plan_paths e ++ map rows_path walked) (plan_symbolIDs e) (plan_pathOps e) (plan_symbolOps e).

Definition planExactPathDelta (base target : FactTable) (manifest : factTableTransportChanges) (e : wirePlan) : wirePlan :=
  let paths := plan_paths e ++ range_set (sourcePaths manifest) in
  let paths := paths ++ range_set (entityPaths manifest) in
  let paths := paths ++ range_set (filePaths manifest) in
  let paths := sortUniqueWireTransitionPaths paths in
  let ops :=
    foldl (fun ops path =>
             append_changed
               (wireTransitionPathDifference (Some base) target path
                  (bool_decide (path ∈ sourcePaths manifest))
                  (bool_decide (path ∈ entityPaths manifest))
                  (bool_decide (path ∈ filePaths manifest))) ops)
          (plan_pathOps e) paths in
  mkPlan paths (plan_symbolIDs e) ops (plan_symbolOps e).

(** The three loops of [planFallbackPathDelta]. Every turn advances a cursor. *)
Fixpoint fallback_merge (fuel : nat) (base target : FactTable)
    (previous next : wireTransitionTablePathCursor) (ops : list wireTransitionPathOp) :
    wireTransitionTablePathCursor * wireTransitionTablePathCursor * list wireTransitionPathOp :=
  match fuel with
  | O => (previous, next, ops)
  | S fuel' =>
      if path_cursor_valid base previous && path_cursor_valid target next then
        let previousRows := path_cursor_rows base previous in
        let nextRows := path_cursor_rows target next in
        if String.ltb (rows_path previousRows) (rows_path nextRows) then
          fallback_merge fuel' base target (path_cursor_next base previous) next
            (append_changed (wireTransitionPathRowsDifference previousRows
               (empty_rows (rows_path previousRows)) true true true) ops)
        else if String.ltb (rows_path nextRows) (rows_path previousRows) then
          fallback_merge fuel' base target previous (path_cursor_next target next)
            (append_changed (wireTransitionPathRowsDifference (empty_rows (rows_path nextRows))
               nextRows true true true) ops)
        else
          fallback_merge fuel' base target (path_cursor_next base previous) (path_cursor_next target next)
            (append_changed (wireTransitionPathRowsDifference previousRows nextRows true true true) ops)
      else (previous, next, ops)
  end.

Fixpoint fallback_removed (fuel : nat) (base : FactTable) (previous : wireTransitionTablePathCursor)
    (ops : list wireTransitionPathOp) : list wireTransitionPathOp :=
  match fuel with
  | O => ops
  | S fuel' =>
      if path_cursor_valid base previous then
        let rows := path_cursor_rows base previous in
        fallback_removed fuel' base (path_cursor_next base previous)
          (append_changed (wireTransitionPathRowsDifference rows (empty_rows (rows_path rows)) true true true) ops)
      else ops
  end.

Fixpoint fallback_added (fuel : nat) (target : FactTable) (next : wireTransitionTablePathCursor)
    (ops : list wireTransitionPathOp) : list wireTransitionPathOp :=
  match fuel with
  | O => ops
  | S fuel' =>
      if path_cursor_valid target next then
        let rows := path_cursor_rows target next in
        fallback_added fuel' target (path_cursor_next target next)
          (append_changed (wireTransitionPathRowsDifference (empty_rows (rows_path rows)) rows true true true) ops)
      else ops
  end.

Definition planFallbackPathDelta (base target : FactTable) (e : wirePlan) : wirePlan :=
  let '(previous, next, ops) :=
    fallback_merge (path_cursor_fuel base + path_cursor_fuel target) base target
      newWireTransitionTablePathCursor newWireTransitionTablePathCursor (plan_pathOps e) in
  let ops := fallback_removed (path_cursor_fuel base) base previous ops in
  let ops := fallback_added (path_cursor_fuel target) target next ops in
  mkPlan (plan_paths e) (plan_symbolIDs e) ops (plan_symbolOps e).

(** ** Symbol differences *)

Fixpoint referencePathEnd (references : list Location) (path : string) : nat :=
  match references with
  | r :: references' => if String.eqb (Path r) path then S (referencePathEnd references' path) else 0
  | [] => 0
  end.

(** Every turn takes a run from one side, so the rows bound the turns. *)
Fixpoint planExactReferenceDelta (fuel : nat) (id : SymbolID) (previous next : list Location)
    (ops : list wireTransitionSymbolOp) : list wireTransitionSymbolOp :=
  match fuel with
  | O => ops
  | S fuel' =>
      let turn path :=
        let previousEnd := referencePathEnd previous path in
        let nextEnd := referencePathEnd next path in
        let previousRun := take previousEnd previous in
        let nextRun := take nextEnd next in
        let ops :=
          if negb (locationsEqual previousRun nextRun)
          then ops ++ [replace_reference_path id path nextRun] else ops in
        planExactReferenceDelta fuel' id (drop previousEnd previous) (drop nextEnd next) ops in
      match previous, next with
      | [], [] => ops
      | [], n :: _ => turn (Path n)
      | p :: _, [] => turn (Path p)
      | p :: _, n :: _ => if String.ltb (Path p) (Path n) then turn (Path p) else turn (Path n)
      end
  end.

(** One candidate of [planExactSymbolDelta]. *)
Definition exact_symbol_step (base target : FactTable) (ops : list wireTransitionSymbolOp) (id : SymbolID) :
    list wireTransitionSymbolOp :=
  match canonicalSymbol base id, canonicalSymbol target id with
  | Some _, None => ops ++ [remove_symbol id]
  | None, Some next => ops ++ [replace_symbol id next]
  | Some previous, Some next =>
      if negb (go_eq (AliasTarget previous) (AliasTarget next)) ||
         negb (equal_func go_eq (Declarations previous) (Declarations next))
      then ops ++ [replace_symbol id next]
      else planExactReferenceDelta (length (References previous) + length (References next)) id
             (References previous) (References next) ops
  | None, None => ops
  end.

Definition planExactSymbolDelta (base target : FactTable) (manifest : factTableTransportChanges) (e : wirePlan) : wirePlan :=
  let ids := sort_Strings (plan_symbolIDs e ++ range_set (symbolIDs manifest)) in
  mkPlan (plan_paths e) ids (plan_pathOps e) (foldl (exact_symbol_step base target) (plan_symbolOps e) ids).

(** ** The symbol cursor *)

Record symbolFactCursor := mkSymbolCursor {
  sc_chunks : list (list SymbolFact);
  sc_chunk : nat;
  sc_row : nat;
}.

Definition newSymbolFactCursor (table : FactTable) : symbolFactCursor :=
  match ft_symbols table with
  | Some s => mkSymbolCursor (chunks s) 0 0
  | None =>
      match Symbols table with
      | [] => mkSymbolCursor [] 0 0
      | _ => mkSymbolCursor [Symbols table] 0 0
      end
  end.

Definition symbol_cursor_valid (c : symbolFactCursor) : bool := (sc_chunk c <? length (sc_chunks c))%nat.

Definition cursor_chunk (c : symbolFactCursor) : list SymbolFact := default [] (sc_chunks c !! sc_chunk c).

Definition symbol_cursor_fact (c : symbolFactCursor) : SymbolFact :=
  default empty_symbol (cursor_chunk c !! sc_row c).

Definition symbol_cursor_next (c : symbolFactCursor) : symbolFactCursor :=
  if (S (sc_row c) =? length (cursor_chunk c))%nat
  then mkSymbolCursor (sc_chunks c) (S (sc_chunk c)) 0
  else mkSymbolCursor (sc_chunks c) (sc_chunk c) (S (sc_row c)).

(** [c.chunk++] alone: the shared chunk is skipped whole. *)
Definition symbol_cursor_skip (c : symbolFactCursor) : symbolFactCursor :=
  mkSymbolCursor (sc_chunks c) (S (sc_chunk c)) (sc_row c).

Definition at_shared_chunk (left right : symbolFactCursor) : bool :=
  (sc_row left =? 0)%nat && (sc_row right =? 0)%nat &&
  negb (length (cursor_chunk left) =? 0)%nat &&
  (length (cursor_chunk left) =? length (cursor_chunk right))%nat &&
  shares_symbols (cursor_chunk left) (cursor_chunk right).

Fixpoint symbol_merge (fuel : nat) (left right : symbolFactCursor) (ops : list wireTransitionSymbolOp) :
    symbolFactCursor * symbolFactCursor * list wireTransitionSymbolOp :=
  match fuel with
  | O => (left, right, ops)
  | S fuel' =>
      if symbol_cursor_valid left && symbol_cursor_valid right then
        if at_shared_chunk left right
        then symbol_merge fuel' (symbol_cursor_skip left) (symbol_cursor_skip right) ops
        else
          let previous := symbol_cursor_fact left in
          let next := symbol_cursor_fact right in
          if String.ltb (ID previous) (ID next) then
            symbol_merge fuel' (symbol_cursor_next left) right (ops ++ [remove_symbol (ID previous)])
          else if String.ltb (ID next) (ID previous) then
            symbol_merge fuel' left (symbol_cursor_next right) (ops ++ [replace_symbol (ID next) next])
          else
            symbol_merge fuel' (symbol_cursor_next left) (symbol_cursor_next right)
              (if negb (symbolFactEqual previous next)
               then ops ++ [replace_symbol (ID next) next] else ops)
      else (left, right, ops)
  end.

Fixpoint symbol_removed (fuel : nat) (left : symbolFactCursor) (ops : list wireTransitionSymbolOp) :
    list wireTransitionSymbolOp :=
  match fuel with
  | O => ops
  | S fuel' =>
      if symbol_cursor_valid left
      then symbol_removed fuel' (symbol_cursor_next left) (ops ++ [remove_symbol (ID (symbol_cursor_fact left))])
      else ops
  end.

Fixpoint symbol_added (fuel : nat) (right : symbolFactCursor) (ops : list wireTransitionSymbolOp) :
    list wireTransitionSymbolOp :=
  match fuel with
  | O => ops
  | S fuel' =>
      if symbol_cursor_valid right
      then symbol_added fuel' (symbol_cursor_next right)
             (ops ++ [replace_symbol (ID (symbol_cursor_fact right)) (symbol_cursor_fact right)])
      else ops
  end.

(** Every turn passes at least one row. *)
Definition symbol_cursor_fuel (table : FactTable) : nat := length (concat (sc_chunks (newSymbolFactCursor table))).

Definition planFallbackSymbolDelta (base target : FactTable) (e : wirePlan) : wirePlan :=
  let '(previous, next, ops) :=
    symbol_merge (symbol_cursor_fuel base + symbol_cursor_fuel target)
      (newSymbolFactCursor base) (newSymbolFactCursor target) (plan_symbolOps e) in
  let ops := symbol_removed (symbol_cursor_fuel base) previous ops in
  let ops := symbol_added (symbol_cursor_fuel target) next ops in
  mkPlan (plan_paths e) (plan_symbolIDs e) (plan_pathOps e) ops.

(** ** The plan of a delta *)

Definition exact_manifest (base target : FactTable) : option factTableTransportChanges :=
  match transport target with
  | Some manifest =>
      if exact manifest && negb (stateID base =? 0) && (baseGeneration manifest =? Generation base) &&
         (baseStateID manifest =? stateID base)
      then Some manifest else None
  | None => None
  end.

Definition planDelta (base target : FactTable) (e : wirePlan) : wirePlan :=
  match exact_manifest base target with
  | Some manifest => planExactSymbolDelta base target manifest (planExactPathDelta base target manifest e)
  | None => planFallbackSymbolDelta base target (planFallbackPathDelta base target e)
  end.

End Paths.
