(* ===== verification/PathDelta.v ===== *)
(** * Path deltas

    What the path half of a plan says: the fallback merge is the difference of
    the two tables path by path, an exact manifest that names every changed
    path gives the same operations, and applying the operations to the base
    gives the target. *)

From S2P Require Import Prelude GoStd SortedPaths KeyedDiff Model FactEqual SymbolStore FactTable TransitionDiff.
Open Scope Z_scope.

(** ** What an operation does to a path's rows *)

Definition apply_collection {A} (op : wireTransitionCollectionOp) (value old gone : A) : A :=
  match op with
  | wireTransitionUnchanged => old
  | wireTransitionReplace => value
  | wireTransitionRemove => gone
  end.

(** The receiver of an operation. *)
Definition apply_path_op (op : wireTransitionPathOp) (rows : wireTransitionPathRows) : wireTransitionPathRows :=
  mkPathRows (rows_path rows)
    (apply_collection (sourceOp op) (Some (op_source op)) (rows_source rows) None)
    (apply_collection (entityOp op) (op_entities op) (rows_entities rows) [])
    (apply_collection (fileOp op) (Some (op_file op)) (rows_file rows) None).

(** Rows the row equality cannot tell apart. *)
Definition rows_equiv (a b : wireTransitionPathRows) : Prop :=
  rows_path a = rows_path b /\ rows_source a = rows_source b /\
  map norm_entity (rows_entities a) = map norm_entity (rows_entities b) /\ rows_file a = rows_file b.

#[export] Instance rows_equiv_equivalence : Equivalence rows_equiv.
Proof.
  split.
  - by intros a.
  - intros a b (? & ? & ? & ?). by repeat split.
  - intros a b c (? & ? & ? & ?) (? & ? & ? & ?). unfold rows_equiv. repeat split; congruence.
Qed.

(** A path's rows carry its path. *)
Definition rows_keyed (r : wireTransitionPathRows) : Prop :=
  match rows_source r with Some d => dig_Path d = rows_path r | None => True end.

#[local] Arguments entityFactsEqual : simpl never.

Section Difference.
Context `{BK : !Backing}.

(** The operation a difference appends, if any. *)
Definition difference_op (d : wireTransitionPathOp * bool) : option wireTransitionPathOp :=
  if d.2 then Some d.1 else None.

Lemma append_changed_op d ops : append_changed d ops = ops ++ option_list (difference_op d).
Proof. destruct d as [op [|]]; simpl; [done|by rewrite app_nil_r]. Qed.

Definition diff (previous next : wireTransitionPathRows) : option wireTransitionPathOp :=
  difference_op (wireTransitionPathRowsDifference previous next true true true).

Lemma digest_equal p d1 d2 : dig_Path d1 = p -> dig_Path d2 = p -> SHA256 d1 = SHA256 d2 -> d1 = d2.
Proof. destruct d1, d2. simpl. by intros -> -> ->. Qed.

(** Each collection's operation carries its new contents. *)
Lemma source_difference_apply p s s' :
  (forall d, s = Some d -> dig_Path d = p) -> (forall d, s' = Some d -> dig_Path d = p) ->
  let '(op, d) := source_difference true s s' in apply_collection op (Some d) s None = s'.
Proof.
  intros H H'. unfold source_difference. destruct s as [d|], s' as [d'|]; try done.
  destruct (go_eq (SHA256 d) (SHA256 d')) eqn:E; [|done]. rewrite go_eq_true in E. simpl.
  f_equal. apply (digest_equal p); auto.
Qed.

Lemma entity_difference_apply es es' :
  let '(op, l) := entity_difference true es es' in
  map norm_entity (apply_collection op l es []) = map norm_entity es'.
Proof.
  unfold entity_difference. destruct es' as [|e' es']; [by destruct es|].
  rewrite andb_false_r. cbn [length Nat.eqb negb andb].
  destruct (entityFactsEqual es (e' :: es')) eqn:E; [|done]. by apply entityFactsEqual_norm in E.
Qed.

Lemma file_difference_apply f f' :
  let '(op, g) := file_difference true f f' in apply_collection op (Some g) f None = f'.
Proof.
  unfold file_difference. destruct f as [g|], f' as [g'|]; try done.
  destruct (fileFactEqual g g') eqn:E; [|done]. by apply fileFactEqual_eq in E as ->.
Qed.

(** Applying what the planner appends turns one path's rows into the other's. *)
Lemma diff_apply previous next :
  rows_path previous = rows_path next -> rows_keyed previous -> rows_keyed next ->
  match diff previous next with
  | Some op => op_path op = rows_path next /\ rows_equiv (apply_path_op op previous) next
  | None => rows_equiv previous next
  end.
Proof.
  intros Hp Hk Hk'. unfold rows_keyed in *.
  pose proof (source_difference_apply (rows_path next) (rows_source previous) (rows_source next)) as Hs.
  pose proof (entity_difference_apply (rows_entities previous) (rows_entities next)) as He.
  pose proof (file_difference_apply (rows_file previous) (rows_file next)) as Hf.
  unfold diff, difference_op, wireTransitionPathRowsDifference.
  destruct (source_difference true _ _) as [sop s], (entity_difference true _ _) as [eop es],
    (file_difference true _ _) as [fop f]. cbn [fst snd].
  specialize (Hs ltac:(intros d E; rewrite E in Hk; congruence) ltac:(intros d E; by rewrite E in Hk')).
  destruct (_ || _) eqn:Ec; [done|].
  bool_hyps. rewrite go_eq_true in *. subst sop eop fop. done.
Qed.

Lemma diff_path previous next op : diff previous next = Some op -> op_path op = rows_path next.
Proof.
  unfold diff, difference_op, wireTransitionPathRowsDifference. repeat case_match; simplify_eq/=; intros; by simplify_eq/=.
Qed.

(** Nothing to say about a path without rows on either side. *)
Lemma diff_empty p : diff (empty_rows p) (empty_rows p) = None.
Proof. done. Qed.

(** ** Differences of two streams of rows *)

Definition row_at (l : list wireTransitionPathRows) (p : string) : wireTransitionPathRows :=
  default (empty_rows p) (find_key rows_path l p).

Definition stream_diff (l1 l2 : list wireTransitionPathRows) : list wireTransitionPathOp :=
  keyed_diff rows_path (fun p r1 r2 => diff (default (empty_rows p) r1) (default (empty_rows p) r2)) l1 l2.
End Difference.

(** ** The rows a cursor has still to visit *)

Definition remaining (t : FactTable) (c : wireTransitionTablePathCursor) : list wireTransitionPathRows :=
  path_cursor_walk t (path_cursor_fuel t) c.

Section Remaining.
Context (t : FactTable) (Hok : table_ok t).

Lemma rest_streams_sorted c : streams_sorted (rest_sources t c) (rest_entities t c) (rest_files t c).
Proof.
  destruct Hok as [HS HF HE _]. split; [by apply keys_sorted_drop|]. split; [|by apply keys_sorted_drop].
  unfold rest_entities. destruct (entityRuns t) as [runs|]; [apply keys_sorted_drop, HE|].
  apply group_ok. rewrite fmap_drop. rewrite <- (take_drop (cur_entity c) (entity_path <$> ft_Entities t)) in HE.
  by apply StronglySorted_app in HE as (_ & _ & ?).
Qed.

Lemma rest_length c :
  (length (rest_sources t c) + length (rest_entities t c) + length (rest_files t c) <= path_cursor_fuel t)%nat.
Proof.
  unfold rest_sources, rest_files, rest_entities, path_cursor_fuel, wireTransitionEntityRunCount.
  rewrite !length_drop. destruct (entityRuns t) as [runs|]; [rewrite length_drop; lia|].
  pose proof (group_length (drop (cur_entity c) (ft_Entities t))) as H. rewrite length_drop in H. lia.
Qed.

Lemma remaining_streams c :
  remaining t c = map (stream_rows (rest_sources t c) (rest_entities t c) (rest_files t c))
    (stream_paths (rest_sources t c) (rest_entities t c) (rest_files t c)).
Proof. apply cursor_walk_streams; [done|done|done|apply rest_streams_sorted|apply rest_length]. Qed.

Lemma remaining_paths c :
  map rows_path (remaining t c) = stream_paths (rest_sources t c) (rest_entities t c) (rest_files t c).
Proof. rewrite remaining_streams, map_map. apply map_id. Qed.

Lemma remaining_sorted c : keys_sorted rows_path (remaining t c).
Proof.
  unfold keys_sorted. change (rows_path <$> remaining t c) with (map rows_path (remaining t c)).
  rewrite remaining_paths. pose proof (stream_paths_sorted (rest_sources t c) (rest_entities t c) (rest_files t c)) as H.
  unfold keys_sorted in H. by rewrite list_fmap_id in H.
Qed.

Lemma remaining_unfold c :
  remaining t c =
  if path_cursor_valid t c then path_cursor_rows t c :: remaining t (path_cursor_next t c) else [].
Proof.
  transitivity (path_cursor_walk t (S (path_cursor_fuel t)) c); [|done].
  rewrite remaining_streams. symmetry.
  apply cursor_walk_streams; [done|done|done|apply rest_streams_sorted|].
  pose proof (rest_length c). lia.
Qed.

(** The head row bounds the rest. *)
Lemma remaining_head c :
  path_cursor_valid t c = true ->
  let m := rows_path (path_cursor_rows t c) in
  (forall x, x ∈ remaining t c -> sle m (rows_path x)) /\
  head_at rows_path (remaining t c) m = Some (path_cursor_rows t c) /\
  advance rows_path (remaining t c) m = remaining t (path_cursor_next t c).
Proof.
  intros Hv m. pose proof (remaining_sorted c) as Hs. rewrite remaining_unfold, Hv in *.
  split; [by apply head_le|]. simpl. by rewrite String.eqb_refl.
Qed.

End Remaining.

(** ** The fallback merge *)

Section Fallback.
Context `{BK : !Backing} (base target : FactTable) (Hb : table_ok base) (Ht : table_ok target).

Lemma stream_diff_head m r1 r2 l1 l2 :
  keys_sorted rows_path l1 -> keys_sorted rows_path l2 ->
  (forall x, x ∈ l1 -> sle m (rows_path x)) -> (forall x, x ∈ l2 -> sle m (rows_path x)) ->
  default (empty_rows m) (head_at rows_path l1 m) = r1 ->
  default (empty_rows m) (head_at rows_path l2 m) = r2 ->
  head_at rows_path l1 m <> None \/ head_at rows_path l2 m <> None ->
  stream_diff l1 l2 =
    option_list (difference_op (wireTransitionPathRowsDifference r1 r2 true true true)) ++
    stream_diff (advance rows_path l1 m) (advance rows_path l2 m).
Proof.
  intros H1 H2 M1 M2 <- <- Hm. unfold stream_diff.
  rewrite (keyed_diff_step rows_path _ l1 l2 m); [done|done|done|done|done|].
  by destruct Hm as [Hm|Hm]; apply head_at_key in Hm; [left|right].
Qed.

Lemma below_next t (Hok : table_ok t) c m :
  path_cursor_valid t c = true -> slt m (rows_path (path_cursor_rows t c)) ->
  forall x, x ∈ remaining t c -> slt m (rows_path x).
Proof.
  intros Hv Hlt x Hx. destruct (remaining_head t Hok c Hv) as [Hm _].
  apply slt_le_trans with (rows_path (path_cursor_rows t c)); [done|by apply Hm].
Qed.

(** The main loop stops with one side spent and owes the difference of what
    is left. *)
Lemma fallback_merge_spec fuel previous next ops :
  (length (remaining base previous) + length (remaining target next) <= fuel)%nat ->
  let '(previous', next', ops') := fallback_merge fuel base target previous next ops in
  ops' ++ stream_diff (remaining base previous') (remaining target next') =
    ops ++ stream_diff (remaining base previous) (remaining target next) /\
  (remaining base previous' = [] \/ remaining target next' = []).
Proof.
  revert previous next ops. induction fuel as [|fuel IH]; intros previous next ops Hlen.
  { simpl. split; [done|]. left. destruct (remaining base previous); [done|simpl in Hlen; lia]. }
  cbn [fallback_merge].
  destruct (path_cursor_valid base previous) eqn:V1; cbn [andb].
  2: { split; [done|]. left. by rewrite (remaining_unfold base Hb), V1. }
  destruct (path_cursor_valid target next) eqn:V2.
  2: { split; [done|]. right. by rewrite (remaining_unfold target Ht), V2. }
  destruct (remaining_head base Hb previous V1) as (M1 & A1 & N1).
  destruct (remaining_head target Ht next V2) as (M2 & A2 & N2).
  pose proof (remaining_sorted base Hb previous) as S1. pose proof (remaining_sorted target Ht next) as S2.
  set (r1 := path_cursor_rows base previous) in *. set (r2 := path_cursor_rows target next) in *.
  assert (length (remaining base previous) = S (length (remaining base (path_cursor_next base previous)))) as L1
    by (by rewrite (remaining_unfold base Hb previous), V1).
  assert (length (remaining target next) = S (length (remaining target (path_cursor_next target next)))) as L2
    by (by rewrite (remaining_unfold target Ht next), V2).
  destruct (String.ltb (rows_path r1) (rows_path r2)) eqn:E1;
    [|destruct (String.ltb (rows_path r2) (rows_path r1)) eqn:E2].
  - pose proof (below_next target Ht next _ V2 E1) as Hlt.
    destruct (advance_other rows_path _ _ Hlt) as [O1 O2].
    rewrite (stream_diff_head (rows_path r1) r1 (empty_rows (rows_path r1)));
      [|done|done|done|intros x Hx; by apply slt_le, Hlt|by rewrite A1|by rewrite O2|left; by rewrite A1].
    rewrite N1, O1, app_assoc, <- append_changed_op. apply IH. lia.
  - pose proof (below_next base Hb previous _ V1 E2) as Hlt.
    destruct (advance_other rows_path _ _ Hlt) as [O1 O2].
    rewrite (stream_diff_head (rows_path r2) (empty_rows (rows_path r2)) r2);
      [|done|done|intros x Hx; by apply slt_le, Hlt|done|by rewrite O2|by rewrite A2|right; by rewrite A2].
    rewrite N2, O1, app_assoc, <- append_changed_op. apply IH. lia.
  - assert (rows_path r1 = rows_path r2) as Heq by (apply (anti_symm sle); done).
    rewrite (stream_diff_head (rows_path r1) r1 r2);
      [|done|done|done|by rewrite Heq|by rewrite A1|by rewrite Heq, A2|left; by rewrite A1].
    rewrite <- Heq in N2. rewrite N1, N2, app_assoc, <- append_changed_op. apply IH. lia.
Qed.

Lemma fallback_removed_spec fuel previous ops :
  (length (remaining base previous) <= fuel)%nat ->
  fallback_removed fuel base previous ops = ops ++ stream_diff (remaining base previous) [].
Proof.
  revert previous ops. induction fuel as [|fuel IH]; intros previous ops Hlen.
  { destruct (remaining base previous); [by rewrite app_nil_r|simpl in Hlen; lia]. }
  cbn [fallback_removed]. destruct (path_cursor_valid base previous) eqn:V1.
  2: { by rewrite (remaining_unfold base Hb), V1, app_nil_r. }
  destruct (remaining_head base Hb previous V1) as (M1 & A1 & N1).
  rewrite (stream_diff_head (rows_path (path_cursor_rows base previous)) (path_cursor_rows base previous)
    (empty_rows (rows_path (path_cursor_rows base previous))) (remaining base previous) []);
    [|by apply remaining_sorted|apply keys_sorted_nil|done|intros x Hx; by apply not_elem_of_nil in Hx
     |by rewrite A1|done|left; by rewrite A1].
  rewrite N1, app_assoc, <- append_changed_op. apply IH.
  rewrite (remaining_unfold base Hb previous), V1 in Hlen. simpl in Hlen. lia.
Qed.

Lemma fallback_added_spec fuel next ops :
  (length (remaining target next) <= fuel)%nat ->
  fallback_added fuel target next ops = ops ++ stream_diff [] (remaining target next).
Proof.
  revert next ops. induction fuel as [|fuel IH]; intros next ops Hlen.
  { destruct (remaining target next); [by rewrite app_nil_r|simpl in Hlen; lia]. }
  cbn [fallback_added]. destruct (path_cursor_valid target next) eqn:V1.
  2: { by rewrite (remaining_unfold target Ht), V1, app_nil_r. }
  destruct (remaining_head target Ht next V1) as (M1 & A1 & N1).
  rewrite (stream_diff_head (rows_path (path_cursor_rows target next))
    (empty_rows (rows_path (path_cursor_rows target next))) (path_cursor_rows target next) [] (remaining target next));
    [|apply keys_sorted_nil|by apply remaining_sorted|intros x Hx; by apply not_elem_of_nil in Hx|done
     |done|by rewrite A1|right; by rewrite A1].
  rewrite N1, app_assoc, <- append_changed_op. apply IH.
  rewrite (remaining_unfold target Ht next), V1 in Hlen. simpl in Hlen. lia.
Qed.

Lemma remaining_length t (Hok : table_ok t) c : (length (remaining t c) <= path_cursor_fuel t)%nat.
Proof.
  unfold remaining. generalize (path_cursor_fuel t) as n. intros n. revert c.
  induction n as [|n IH]; intros c; simpl; [lia|]. destruct (path_cursor_valid t c); simpl; [|lia].
  specialize (IH (path_cursor_next t c)). lia.
Qed.

Lemma planFallbackPathDelta_ops e :
  planFallbackPathDelta base target e =
  mkPlan (plan_paths e) (plan_symbolIDs e)
    (plan_pathOps e ++ stream_diff (map (wireTransitionPathRowsAt base) (table_paths base))
                                   (map (wireTransitionPathRowsAt target) (table_paths target)))
    (plan_symbolOps e).
Proof.
  unfold planFallbackPathDelta.
  pose proof (fallback_merge_spec (path_cursor_fuel base + path_cursor_fuel target)
    newWireTransitionTablePathCursor newWireTransitionTablePathCursor (plan_pathOps e)) as H.
  pose proof (remaining_length base Hb newWireTransitionTablePathCursor) as L1.
  pose proof (remaining_length target Ht newWireTransitionTablePathCursor) as L2.
  specialize (H ltac:(lia)). destruct (fallback_merge _ _ _ _ _ _) as [[previous next] ops].
  destruct H as [H Hend].
  rewrite fallback_removed_spec, fallback_added_spec by (by apply remaining_length).
  f_equal. rewrite <- (cursor_walk_rows base Hb _ (le_n _)), <- (cursor_walk_rows target Ht _ (le_n _)).
  change (path_cursor_walk base _ _) with (remaining base newWireTransitionTablePathCursor).
  change (path_cursor_walk target _ _) with (remaining target newWireTransitionTablePathCursor).
  rewrite <- H, <- app_assoc. f_equal. destruct Hend as [-> | ->]; [done|by rewrite app_nil_r].
Qed.
End Fallback.

(** ** Exact manifests *)

(** The manifest names every path whose rows the two tables do not share. *)
Definition manifest_covers `{BK : !Backing} (base target : FactTable) (m : factTableTransportChanges) : Prop :=
  forall p,
    let previous := wireTransitionPathRowsAt base p in
    let next := wireTransitionPathRowsAt target p in
    (p ∉ sourcePaths m -> rows_source previous = rows_source next) /\
    (p ∉ entityPaths m -> entityFactsEqual (rows_entities previous) (rows_entities next) = true) /\
    (p ∉ filePaths m -> rows_file previous = rows_file next).

(** No rows at all, and nothing left over in the plan. *)
Definition fresh_plan : wirePlan := mkPlan [] [] [] [].

Section Exact.
Context `{BK : !Backing} `{MR : !MapRange} (base target : FactTable) (Hb : table_ok base) (Ht : table_ok target).

Definition path_diff (p : string) : option wireTransitionPathOp :=
  diff (wireTransitionPathRowsAt base p) (wireTransitionPathRowsAt target p).

Lemma row_at_table t (Hok : table_ok t) p :
  row_at (map (wireTransitionPathRowsAt t) (table_paths t)) p = wireTransitionPathRowsAt t p.
Proof.
  unfold row_at.
  assert (keys_sorted rows_path (map (wireTransitionPathRowsAt t) (table_paths t))) as Hs.
  { unfold keys_sorted. change (rows_path <$> ?l) with (map rows_path l). rewrite map_map. simpl.
    rewrite map_id. pose proof (stream_paths_sorted (wireSourceDigests (Some t)) (table_runs t) (Files t)) as H.
    unfold keys_sorted in H. by rewrite list_fmap_id in H. }
  destruct (find_key rows_path _ p) as [r|] eqn:E; simpl.
  - apply find_key_spec in E as [(q & -> & _)%list_elem_of_fmap Hp]; [|done]. simpl in Hp. by subst.
  - apply find_key_None in E; [|done].
    destruct (decide (p ∈ table_paths t)) as [Hin|Hn].
    { destruct E. change (rows_path <$> ?l) with (map rows_path l). rewrite map_map. simpl. by rewrite map_id. }
    rewrite (rows_at_streams t Hok). unfold table_paths in Hn. rewrite stream_paths_elem in Hn.
    pose proof (table_streams_sorted t Hok) as (HS & HE & HF). unfold stream_rows, empty_rows.
    rewrite (proj2 (find_key_None dig_Path _ p HS)) by tauto.
    rewrite (proj2 (find_key_None run_path _ p HE)) by tauto.
    by rewrite (proj2 (find_key_None ff_Path _ p HF)) by tauto.
Qed.

Lemma table_diff_paths :
  stream_diff (map (wireTransitionPathRowsAt base) (table_paths base))
              (map (wireTransitionPathRowsAt target) (table_paths target)) =
  omap path_diff (sortUniqueWireTransitionPaths (table_paths base ++ table_paths target)).
Proof.
  unfold stream_diff, keyed_diff. rewrite !map_map. simpl. rewrite !map_id.
  apply omap_ext_in. intros p _. unfold path_diff.
  by rewrite <- (row_at_table base Hb), <- (row_at_table target Ht).
Qed.

Lemma path_diff_union p : path_diff p <> None -> p ∈ sortUniqueWireTransitionPaths (table_paths base ++ table_paths target).
Proof.
  intros H. apply (proj2 (sortUnique_spec _)), elem_of_app.
  destruct (decide (p ∈ table_paths base)) as [|H1]; [by left|].
  destruct (decide (p ∈ table_paths target)) as [|H2]; [by right|].
  destruct H. unfold path_diff. rewrite <- (row_at_table base Hb), <- (row_at_table target Ht). unfold row_at.
  assert (forall t, table_ok t -> p ∉ table_paths t ->
    find_key rows_path (map (wireTransitionPathRowsAt t) (table_paths t)) p = None) as Hn.
  { intros t Hok Hn. apply find_key_None.
    - unfold keys_sorted. change (rows_path <$> ?l) with (map rows_path l). rewrite map_map. simpl.
      rewrite map_id. pose proof (stream_paths_sorted (wireSourceDigests (Some t)) (table_runs t) (Files t)) as Hs.
      unfold keys_sorted in Hs. by rewrite list_fmap_id in Hs.
    - change (rows_path <$> ?l) with (map rows_path l). rewrite map_map. simpl. by rewrite map_id. }
  by rewrite !Hn.
Qed.

(** Candidate flags do not matter where the manifest covers the change. *)
Lemma covered_difference m p :
  manifest_covers base target m ->
  wireTransitionPathDifference (Some base) target p (bool_decide (p ∈ sourcePaths m))
    (bool_decide (p ∈ entityPaths m)) (bool_decide (p ∈ filePaths m)) =
  wireTransitionPathRowsDifference (wireTransitionPathRowsAt base p) (wireTransitionPathRowsAt target p) true true true.
Proof.
  intros Hm. destruct (Hm p) as (Hs & He & Hf). unfold wireTransitionPathDifference.
  set (previous := wireTransitionPathRowsAt base p) in *. set (next := wireTransitionPathRowsAt target p) in *.
  unfold wireTransitionPathRowsDifference.
  assert (forall c, (c = false -> rows_source previous = rows_source next) ->
    source_difference c (rows_source previous) (rows_source next) =
    source_difference true (rows_source previous) (rows_source next)) as ->.
  { intros [|] H; [done|]. rewrite H by done. unfold source_difference. destruct (rows_source next) as [d|]; [|done].
    by rewrite (proj2 (go_eq_true (SHA256 d) (SHA256 d)) eq_refl). }
  2: { intros H%bool_decide_eq_false. by apply Hs. }
  assert (forall c, (c = false -> entityFactsEqual (rows_entities previous) (rows_entities next) = true) ->
    entity_difference c (rows_entities previous) (rows_entities next) =
    entity_difference true (rows_entities previous) (rows_entities next)) as ->.
  { intros [|] H; [done|]. specialize (H eq_refl). unfold entity_difference. rewrite H, andb_false_r.
    apply entityFactsEqual_norm in H. apply (f_equal length) in H. rewrite !length_map in H. rewrite H.
    by destruct (length (rows_entities next) =? 0)%nat. }
  2: { intros H%bool_decide_eq_false. by apply He. }
  assert (forall c, (c = false -> rows_file previous = rows_file next) ->
    file_difference c (rows_file previous) (rows_file next) =
    file_difference true (rows_file previous) (rows_file next)) as ->.
  { intros [|] H; [done|]. rewrite H by done. unfold file_difference. destruct (rows_file next) as [f|]; [|done].
    by rewrite (proj2 (fileFactEqual_eq f f) eq_refl). }
  2: { intros H%bool_decide_eq_false. by apply Hf. }
  done.
Qed.

Lemma fold_append_changed (f : string -> wireTransitionPathOp * bool) l ops :
  foldl (fun ops p => append_changed (f p) ops) ops l = ops ++ omap (fun p => difference_op (f p)) l.
Proof.
  revert ops. induction l as [|p l IH]; intros ops; [by rewrite app_nil_r|].
  cbn [foldl]. rewrite IH, append_changed_op, omap_cons_option. by rewrite app_assoc.
Qed.

Lemma planExactPathDelta_ops m e :
  manifest_covers base target m ->
  plan_pathOps (planExactPathDelta base target m e) = plan_pathOps (planFallbackPathDelta base target e).
Proof.
  intros Hm. rewrite (planFallbackPathDelta_ops base target Hb Ht), table_diff_paths.
  unfold planExactPathDelta. cbn [plan_pathOps].
  rewrite fold_append_changed. f_equal.
  rewrite (omap_ext_in _ path_diff) by (intros p _; by rewrite covered_difference).
  apply omap_sorted_ext; [apply sortUnique_spec|apply sortUnique_spec|].
  intros p Hp. rewrite !(proj2 (sortUnique_spec _)). split; [|intros _].
  - intros _. by apply (proj2 (sortUnique_spec _)), path_diff_union.
  - rewrite !elem_of_app, !range_set_elem.
    destruct (decide (p ∈ sourcePaths m)) as [|H1]; [tauto|].
    destruct (decide (p ∈ entityPaths m)) as [|H2]; [tauto|].
    destruct (decide (p ∈ filePaths m)) as [|H3]; [tauto|]. exfalso. apply Hp.
    unfold path_diff, diff. rewrite <- (covered_difference m p Hm).
    rewrite !bool_decide_eq_false_2 by done. done.
Qed.
End Exact.

(** ** The path half of a plan *)

Section PathPlan.
Context `{BK : !Backing} (base target : FactTable) (Hb : table_ok base) (Ht : table_ok target).

Definition delta_ops : list wireTransitionPathOp :=
  omap (path_diff base target) (sortUniqueWireTransitionPaths (table_paths base ++ table_paths target)).

Lemma path_diff_path p op : path_diff base target p = Some op -> op_path op = p.
Proof. apply diff_path. Qed.

Lemma delta_ops_elem op : op ∈ delta_ops <-> path_diff base target (op_path op) = Some op.
Proof.
  unfold delta_ops. rewrite list_elem_of_omap. split.
  - intros (p & _ & Hp). by rewrite (path_diff_path p op Hp).
  - intros H. exists (op_path op). split; [|done]. apply path_diff_union; [done|done|]. by rewrite H.
Qed.

Lemma delta_ops_sorted : keys_sorted op_path delta_ops.
Proof.
  unfold delta_ops. destruct (sortUnique_spec (table_paths base ++ table_paths target)) as [Hs _].
  unfold keys_sorted in *. rewrite list_fmap_id in Hs. induction Hs as [|p l Hl IH Hp]; [constructor|].
  rewrite omap_cons_option. destruct (path_diff base target p) as [op|] eqn:E; [|done]. simpl.
  constructor; [done|]. apply Forall_fmap, Forall_forall. intros op' (q & Hq & Hop')%list_elem_of_omap. simpl.
  rewrite (path_diff_path _ _ E), (path_diff_path _ _ Hop'). rewrite Forall_forall in Hp. by apply Hp.
Qed.

Lemma delta_ops_find p : find_key op_path delta_ops p = path_diff base target p.
Proof.
  apply option_eq. intros op. rewrite find_key_spec by apply delta_ops_sorted. rewrite delta_ops_elem.
  split; [intros [? <-]; done|]. intros H. pose proof (path_diff_path p op H) as Hp. by rewrite Hp.
Qed.

Lemma rows_at_keyed t p : table_ok t -> rows_keyed (wireTransitionPathRowsAt t p).
Proof.
  intros Hok. unfold rows_keyed, wireTransitionPathRowsAt, wireTransitionSource. cbn [rows_source rows_path].
  destruct (find_key dig_Path _ p) as [d|] eqn:E; [|done]. by apply find_key_spec in E as [_ ?]; [|apply Hok].
Qed.
End PathPlan.

(** C36: The path operations of the fallback plan are strictly path-ordered and, applied to the
    base table's rows of any path, give the target's rows of that path, up to what the row
    equality ignores. *)
Theorem path_delta_applies `{BK : !Backing} base target e p :
  table_ok base -> table_ok target -> plan_pathOps e = [] ->
  let ops := plan_pathOps (planFallbackPathDelta base target e) in
  keys_sorted op_path ops /\
  rows_equiv
    (match find_key op_path ops p with
     | Some op => apply_path_op op (wireTransitionPathRowsAt base p)
     | None => wireTransitionPathRowsAt base p
     end)
    (wireTransitionPathRowsAt target p).
Proof.
  intros Hb Ht He. rewrite (planFallbackPathDelta_ops base target Hb Ht), table_diff_paths by done.
  cbn [plan_pathOps]. rewrite He. fold (delta_ops base target). cbn [app].
  split; [apply delta_ops_sorted|]. rewrite delta_ops_find by done. unfold path_diff.
  pose proof (diff_apply (wireTransitionPathRowsAt base p) (wireTransitionPathRowsAt target p) eq_refl
    (rows_at_keyed base p Hb) (rows_at_keyed target p Ht)) as H.
  by destruct (diff _ _) as [op|]; [destruct H|].
Qed.

(** A later table: a digest gone, a file gone, rows moved. *)
Definition later_table : FactTable :=
  mkFactTable 1 2 "p" [] [table_row "a.ts" 1; table_row "c.ts" 2; table_row "d.ts" 3]
    [store_row "a" 1; store_row "b" 2] [] 8 None None None None None.

Lemma later_table_ok : table_ok later_table.
Proof. split; simpl; repeat first [done | split | constructor]. Qed.

Lemma path_delta_applies_witness :
  rows_equiv
    (match find_key op_path (plan_pathOps (planFallbackPathDelta (sample_table true) later_table fresh_plan)) "a.ts" with
     | Some op => apply_path_op op (wireTransitionPathRowsAt (sample_table true) "a.ts")
     | None => wireTransitionPathRowsAt (sample_table true) "a.ts"
     end)
    (wireTransitionPathRowsAt later_table "a.ts").
Proof.
  exact (proj2 (path_delta_applies (sample_table true) later_table fresh_plan "a.ts" (sample_table_ok true)
    later_table_ok eq_refl)).
Defined.

(** When the manifest names every path whose rows changed, the exact plan has the path
    operations the fallback merge of both tables has. *)
Theorem exact_path_delta_agrees `{BK : !Backing} `{MR : !MapRange} base target m e :
  table_ok base -> table_ok target -> manifest_covers base target m ->
  plan_pathOps (planExactPathDelta base target m e) = plan_pathOps (planFallbackPathDelta base target e).
Proof. intros Hb Ht Hm. by apply planExactPathDelta_ops. Qed.

Definition later_manifest : factTableTransportChanges :=
  mkTransportChanges 1 7 {["b.ts"]} {["a.ts"; "d.ts"]} {["c.ts"]} ∅ true.

(** Every path but the named ones has no rows on either side, or equal ones. *)
Lemma later_manifest_covers : manifest_covers (sample_table true) later_table later_manifest.
Proof.
  intros p. cbn [sourcePaths entityPaths filePaths later_manifest].
  pose proof (sample_table_ok true) as Hs. pose proof later_table_ok as Hl.
  split; [|split]; intros Hp.
  - transitivity (@None SourceDigest); [|symmetry]; apply find_key_None;
      first [apply (table_sources _ Hs)|apply (table_sources _ Hl)|vm_compute; set_solver].
  - cbn [rows_entities wireTransitionPathRowsAt]. rewrite !entity_path_rows by done.
    destruct (decide (p = "c.ts")) as [->|Hc]; [vm_compute; reflexivity|].
    rewrite (proj2 (find_key_None run_path _ p (proj1 (table_runs_ok _ Hs)))) by (vm_compute; set_solver).
    rewrite (proj2 (find_key_None run_path _ p (proj1 (table_runs_ok _ Hl)))) by (vm_compute; set_solver).
    done.
  - transitivity (@None FileFact); [|symmetry]; apply find_key_None;
      first [apply (table_files _ Hs)|apply (table_files _ Hl)|vm_compute; set_solver].
Qed.

Lemma exact_path_delta_agrees_witness :
  map op_path (plan_pathOps (planExactPathDelta (sample_table true) later_table later_manifest fresh_plan)) =
  ["a.ts"; "b.ts"; "c.ts"; "d.ts"].
Proof.
  rewrite (exact_path_delta_agrees (sample_table true) later_table later_manifest fresh_plan (sample_table_ok true)
    later_table_ok later_manifest_covers).
  vm_compute. reflexivity.
Defined.
