(* ===== verification/SymbolDelta.v ===== *)
(** * Symbol deltas

    What the symbol half of a plan says: both plans, the fallback merge over
    chunks and the exact one with its reference runs, turn the base's symbols
    into the target's. *)

From S2P Require Import Prelude GoStd SortedPaths KeyedDiff Model FactEqual SymbolStore FactTable TransitionDiff.
Open Scope Z_scope.

(** ** The receiver *)

(** The references of one path replaced; the others stay in path order. *)
Definition replace_run (path : string) (run references : list Location) : list Location :=
  filter (fun l => slt (Path l) path) references ++ run ++ filter (fun l => slt path (Path l)) references.

Definition with_references (f : SymbolFact) (refs : list Location) : SymbolFact :=
  mkSymbolFact (ID f) (AliasTarget f) (Declarations f) refs.

Definition apply_symbol_op (m : gmap string SymbolFact) (op : wireTransitionSymbolOp) : gmap string SymbolFact :=
  match sop_tag op with
  | wireTransitionReplaceSymbol => <[sop_id op := sop_fact op]> m
  | wireTransitionRemoveSymbol => delete (sop_id op) m
  | wireTransitionReplaceReferencePath =>
      alter (fun f => with_references f (replace_run (sop_referencePath op) (sop_references op) (References f)))
        (sop_id op) m
  end.

Definition apply_symbol_ops (ops : list wireTransitionSymbolOp) (m : gmap string SymbolFact) : gmap string SymbolFact :=
  foldl apply_symbol_op m ops.

Definition rows_map (l : list SymbolFact) : gmap string SymbolFact := list_to_map ((fun f => (ID f, f)) <$> l).

(** The symbols a table holds. *)
Definition symbol_map (t : FactTable) : gmap string SymbolFact := rows_map (rangeSymbolFacts t).

Lemma rows_map_lookup l id : keys_sorted ID l -> rows_map l !! id = find_key ID l id.
Proof.
  intros Hs. apply option_eq. intros f. rewrite find_key_spec by done. unfold rows_map.
  rewrite <- elem_of_list_to_map.
  - rewrite list_elem_of_fmap. split; [intros (g & [= -> ->] & Hg); done|intros [Hf <-]; eauto].
  - rewrite <- list_fmap_compose. by apply keys_sorted_NoDup.
Qed.

Lemma symbol_map_lookup t id : table_ok t -> symbol_map t !! id = canonicalSymbol t id.
Proof.
  intros Hok. rewrite canonicalSymbol_find by done. apply rows_map_lookup. by apply rangeSymbolFacts_sorted.
Qed.

(** ** Operations that touch one identity *)

Definition about (id : string) (op : wireTransitionSymbolOp) : Prop := sop_id op = id.

Lemma apply_other m op id : sop_id op <> id -> apply_symbol_op m op !! id = m !! id.
Proof.
  intros Hne. unfold apply_symbol_op. destruct (sop_tag op);
    [by rewrite lookup_insert_ne|by rewrite lookup_delete_ne|by rewrite lookup_alter_ne].
Qed.

Lemma apply_others m ops id :
  Forall (fun op => sop_id op <> id) ops -> apply_symbol_ops ops m !! id = m !! id.
Proof.
  intros H. revert m. induction H as [|op ops Hop _ IH]; intros m; [done|].
  unfold apply_symbol_ops in *. simpl. rewrite IH. by apply apply_other.
Qed.

(** What operations on one identity make of its row. *)
Definition apply_row_op (o : option SymbolFact) (op : wireTransitionSymbolOp) : option SymbolFact :=
  match sop_tag op with
  | wireTransitionReplaceSymbol => Some (sop_fact op)
  | wireTransitionRemoveSymbol => None
  | wireTransitionReplaceReferencePath =>
      (fun f => with_references f (replace_run (sop_referencePath op) (sop_references op) (References f))) <$> o
  end.

Lemma apply_same m ops id :
  Forall (about id) ops -> apply_symbol_ops ops m !! id = foldl apply_row_op (m !! id) ops.
Proof.
  intros H. revert m. induction H as [|op ops Hop _ IH]; intros m; [done|].
  unfold apply_symbol_ops in *. simpl. rewrite IH. f_equal. unfold about in Hop.
  unfold apply_symbol_op, apply_row_op. rewrite Hop.
  destruct (sop_tag op); [by rewrite lookup_insert_eq|by rewrite lookup_delete_eq|by rewrite lookup_alter_eq].
Qed.

(** Operations planned identity by identity act on each row alone. *)
Lemma apply_planned (plan : string -> list wireTransitionSymbolOp) ids m id :
  NoDup ids -> (forall i, Forall (about i) (plan i)) ->
  apply_symbol_ops (concat (map plan ids)) m !! id =
  if decide (id ∈ ids) then foldl apply_row_op (m !! id) (plan id) else m !! id.
Proof.
  intros Hnd Hp. revert m. induction Hnd as [|i ids Hi Hnd IH]; intros m; [done|].
  cbn [map concat]. unfold apply_symbol_ops. rewrite foldl_app. fold (apply_symbol_ops (plan i) m).
  fold (apply_symbol_ops (concat (map plan ids)) (apply_symbol_ops (plan i) m)). rewrite IH.
  destruct (decide (i = id)) as [->|Hne].
  - rewrite decide_False by done. rewrite decide_True by left. by apply apply_same.
  - rewrite (apply_others _ (plan i)).
    + destruct (decide (id ∈ ids)); [by rewrite decide_True by (by right)|].
      rewrite decide_False; [done|]. by intros [->|]%elem_of_cons.
    + eapply Forall_impl; [apply Hp|]. intros op ->. done.
Qed.

(** ** The fallback plan *)

Section Fallback.
Context `{BK : !Backing}.

(** One identity of the fallback plan. *)
Definition symbol_diff (id : string) (previous next : option SymbolFact) : option wireTransitionSymbolOp :=
  match previous, next with
  | Some p, None => Some (remove_symbol (ID p))
  | None, Some n => Some (replace_symbol (ID n) n)
  | Some p, Some n => if symbolFactEqual p n then None else Some (replace_symbol (ID n) n)
  | None, None => None
  end.

Definition symbols_diff : list SymbolFact -> list SymbolFact -> list wireTransitionSymbolOp :=
  keyed_diff ID symbol_diff.

(** What a symbol cursor has still to visit. *)
Definition symbol_rest (c : symbolFactCursor) : list SymbolFact :=
  drop (sc_row c) (cursor_chunk c) ++ concat (drop (S (sc_chunk c)) (sc_chunks c)).

Record symbol_cursor_ok (c : symbolFactCursor) : Prop := {
  cursor_chunks : Forall (fun ch => ch <> []) (sc_chunks c);
  cursor_row : if symbol_cursor_valid c then (sc_row c < length (cursor_chunk c))%nat else sc_row c = 0%nat;
}.

Lemma symbol_cursor_chunk c : symbol_cursor_valid c = true -> sc_chunks c !! sc_chunk c = Some (cursor_chunk c).
Proof.
  unfold symbol_cursor_valid, cursor_chunk. intros H%Nat.ltb_lt. by destruct (lookup_lt_is_Some_2 _ _ H) as [ch ->].
Qed.

Lemma symbol_rest_invalid c : symbol_cursor_valid c = false -> symbol_rest c = [].
Proof.
  unfold symbol_cursor_valid, symbol_rest, cursor_chunk. intros H%Nat.ltb_ge.
  rewrite (lookup_ge_None_2 (sc_chunks c)) by done. simpl. rewrite drop_nil. by rewrite drop_ge by lia.
Qed.

(** The cursor at the start of chunk [i]. *)
Lemma chunk_start cs i :
  Forall (fun ch => ch <> []) cs ->
  symbol_cursor_ok (mkSymbolCursor cs i 0) /\ symbol_rest (mkSymbolCursor cs i 0) = concat (drop i cs).
Proof.
  intros Hcs. split.
  - split; [done|]. unfold symbol_cursor_valid, cursor_chunk. simpl.
    destruct (Nat.ltb_spec i (length cs)) as [H|H]; [|done].
    destruct (lookup_lt_is_Some_2 _ _ H) as [ch Hch]. rewrite Hch. simpl.
    rewrite Forall_lookup in Hcs. specialize (Hcs i ch Hch). destruct ch; [done|simpl; lia].
  - unfold symbol_rest, cursor_chunk. simpl. rewrite drop_0. destruct (cs !! i) as [ch|] eqn:E; simpl.
    + by rewrite (drop_S _ _ _ E).
    + apply lookup_ge_None_1 in E. by rewrite !drop_ge by lia.
Qed.

Lemma symbol_cursor_step c :
  symbol_cursor_ok c -> symbol_cursor_valid c = true ->
  symbol_rest c = symbol_cursor_fact c :: symbol_rest (symbol_cursor_next c) /\
  symbol_cursor_ok (symbol_cursor_next c).
Proof.
  intros [Hcs Hrow] Hv. rewrite Hv in Hrow. pose proof (symbol_cursor_chunk c Hv) as Hch.
  destruct (lookup_lt_is_Some_2 _ _ Hrow) as [f Hf]. unfold symbol_cursor_next, symbol_cursor_fact.
  unfold symbol_rest at 1. rewrite (drop_S _ _ _ Hf), Hf. cbn [app from_option id].
  destruct (Nat.eqb_spec (S (sc_row c)) (length (cursor_chunk c))) as [E|E].
  - destruct (chunk_start (sc_chunks c) (S (sc_chunk c)) Hcs) as [H1 H2]. split; [|done].
    rewrite H2. by rewrite drop_ge by lia.
  - split; [done|]. split; [done|]. unfold symbol_cursor_valid, cursor_chunk in *. simpl.
    rewrite Hv. lia.
Qed.

Lemma symbol_cursor_skip_spec c :
  symbol_cursor_ok c -> sc_row c = 0%nat -> symbol_cursor_valid c = true ->
  symbol_rest c = cursor_chunk c ++ symbol_rest (symbol_cursor_skip c) /\ symbol_cursor_ok (symbol_cursor_skip c).
Proof.
  intros [Hcs _] Hr Hv. unfold symbol_cursor_skip. rewrite Hr.
  destruct (chunk_start (sc_chunks c) (S (sc_chunk c)) Hcs) as [H1 H2]. split; [|done].
  rewrite H2. unfold symbol_rest. by rewrite Hr, drop_0.
Qed.

Lemma symbol_diff_same id x : symbol_diff id (Some x) (Some x) = None.
Proof. unfold symbol_diff. by rewrite (proj2 (symbolFactEqual_eq x x) eq_refl). Qed.

(** Rows both sides share at the head have nothing to say. *)
Lemma symbols_diff_same ch l1 l2 :
  keys_sorted ID (ch ++ l1) -> keys_sorted ID (ch ++ l2) ->
  symbols_diff (ch ++ l1) (ch ++ l2) = symbols_diff l1 l2.
Proof.
  induction ch as [|x ch IH]; intros H1 H2; [done|]. unfold symbols_diff in *. simpl in *.
  rewrite (keyed_diff_step ID symbol_diff _ _ (ID x)); [|done|done|by apply head_le|by apply head_le|left; left].
  simpl. rewrite String.eqb_refl, symbol_diff_same. simpl.
  apply keys_sorted_cons in H1 as [H1 _], H2 as [H2 _]. by apply IH.
Qed.

Lemma symbols_diff_head x l1 y l2 m o1 o2 :
  keys_sorted ID l1 -> keys_sorted ID l2 ->
  (forall z, z ∈ l1 -> sle m (ID z)) -> (forall z, z ∈ l2 -> sle m (ID z)) ->
  head_at ID l1 m = o1 -> head_at ID l2 m = o2 -> o1 = Some x \/ o2 = Some y ->
  symbols_diff l1 l2 = option_list (symbol_diff m o1 o2) ++ symbols_diff (advance ID l1 m) (advance ID l2 m).
Proof.
  intros H1 H2 M1 M2 <- <- Hm. unfold symbols_diff.
  rewrite (keyed_diff_step ID symbol_diff l1 l2 m); [done|done|done|done|done|].
  destruct Hm as [Hm|Hm]; [left|right]; apply head_at_key; by rewrite Hm.
Qed.

Lemma symbol_merge_spec fuel l r ops :
  symbol_cursor_ok l -> symbol_cursor_ok r -> keys_sorted ID (symbol_rest l) -> keys_sorted ID (symbol_rest r) ->
  (length (symbol_rest l) + length (symbol_rest r) <= fuel)%nat ->
  let '(l', r', ops') := symbol_merge fuel l r ops in
  ops' ++ symbols_diff (symbol_rest l') (symbol_rest r') = ops ++ symbols_diff (symbol_rest l) (symbol_rest r) /\
  symbol_cursor_ok l' /\ symbol_cursor_ok r' /\ keys_sorted ID (symbol_rest l') /\ keys_sorted ID (symbol_rest r') /\
  (length (symbol_rest l') <= length (symbol_rest l))%nat /\ (length (symbol_rest r') <= length (symbol_rest r))%nat /\
  (symbol_rest l' = [] \/ symbol_rest r' = []).
Proof.
  revert l r ops. induction fuel as [|fuel IH]; intros l r ops Hl Hr Sl Sr Hlen.
  { simpl. split_and!; try done.
    left. destruct (symbol_rest l); [done|simpl in Hlen; lia]. }
  cbn [symbol_merge].
  destruct (symbol_cursor_valid l) eqn:Vl; cbn [andb].
  2: { rewrite (symbol_rest_invalid l Vl) in *. split_and!; try done. by left. }
  destruct (symbol_cursor_valid r) eqn:Vr.
  2: { rewrite (symbol_rest_invalid r Vr) in *. split_and!; try done. by right. }
  destruct (at_shared_chunk l r) eqn:Es.
  { unfold at_shared_chunk in Es. bool_hyps. rewrite !Nat.eqb_eq in *.
    assert (cursor_chunk l = cursor_chunk r) as Hch by (by apply shares_symbols_eq).
    destruct (symbol_cursor_skip_spec l Hl) as [Rl Ol]; [done|done|].
    destruct (symbol_cursor_skip_spec r Hr) as [Rr Or]; [done|done|].
    rewrite Rl, Rr, <- Hch in *. rewrite symbols_diff_same by done. rewrite !length_app in *.
    apply keys_sorted_app in Sl as (_ & Sl & _), Sr as (_ & Sr & _).
    assert (length (cursor_chunk l) <> 0%nat) as Hn by (by apply Nat.eqb_neq).
    specialize (IH (symbol_cursor_skip l) (symbol_cursor_skip r) ops Ol Or Sl Sr ltac:(lia)).
    destruct (symbol_merge fuel _ _ ops) as [[l' r'] ops']. destruct IH as (? & ? & ? & ? & ? & ? & ? & ?).
    split_and!; try done; lia. }
  clear Es. destruct (symbol_cursor_step l Hl Vl) as [Rl Ol]. destruct (symbol_cursor_step r Hr Vr) as [Rr Or].
  set (p := symbol_cursor_fact l) in *. set (n := symbol_cursor_fact r) in *.
  rewrite Rl in Sl, Hlen |- *. rewrite Rr in Sr, Hlen |- *.
  set (l1 := symbol_rest (symbol_cursor_next l)) in *. set (r1 := symbol_rest (symbol_cursor_next r)) in *.
  pose proof Sl as Sl'. apply keys_sorted_cons in Sl' as [Sl1 Hp].
  pose proof Sr as Sr'. apply keys_sorted_cons in Sr' as [Sr1 Hn].
  simpl in Hlen. rewrite Forall_forall in Hp, Hn.
  assert (length (symbol_rest (symbol_cursor_next l)) = length l1) as Ll by done.
  assert (length (symbol_rest (symbol_cursor_next r)) = length r1) as Lr by done.
  destruct (String.ltb (ID p) (ID n)) eqn:E1; [|destruct (String.ltb (ID n) (ID p)) eqn:E2].
  - specialize (IH (symbol_cursor_next l) r (ops ++ [remove_symbol (ID p)]) Ol Hr Sl1).
    rewrite Rr in IH. specialize (IH Sr ltac:(simpl; lia)).
    assert (forall x, x ∈ n :: r1 -> slt (ID p) (ID x)) as Hlt.
    { intros x [->|Hx]%elem_of_cons; [done|]. transitivity (ID n); [done|by apply Hn]. }
    destruct (advance_other ID (n :: r1) (ID p) Hlt) as [A1 A2].
    rewrite (symbols_diff_head p (p :: l1) n (n :: r1) (ID p) (Some p) None);
      [|done|done|by apply head_le|intros x Hx; by apply slt_le, Hlt|by simpl; rewrite String.eqb_refl|done|by left].
    rewrite A1. cbn [symbol_diff option_list advance]. rewrite String.eqb_refl, app_assoc.
    destruct (symbol_merge fuel _ _ _) as [[l' r'] ops']. simpl in *. destruct_and!. split_and!; try done; lia.
  - specialize (IH l (symbol_cursor_next r) (ops ++ [replace_symbol (ID n) n]) Hl Or).
    rewrite Rl in IH. specialize (IH Sl Sr1 ltac:(simpl; lia)).
    assert (forall x, x ∈ p :: l1 -> slt (ID n) (ID x)) as Hlt.
    { intros x [->|Hx]%elem_of_cons; [done|]. transitivity (ID p); [done|by apply Hp]. }
    destruct (advance_other ID (p :: l1) (ID n) Hlt) as [A1 A2].
    rewrite (symbols_diff_head p (p :: l1) n (n :: r1) (ID n) None (Some n));
      [|done|done|intros x Hx; by apply slt_le, Hlt|by apply head_le|done|by simpl; rewrite String.eqb_refl|by right].
    rewrite A1. cbn [symbol_diff option_list advance]. rewrite String.eqb_refl, app_assoc.
    destruct (symbol_merge fuel _ _ _) as [[l' r'] ops']. simpl in *. destruct_and!. split_and!; try done; lia.
  - assert (ID p = ID n) as Heq by (apply (anti_symm sle); done).
    specialize (IH (symbol_cursor_next l) (symbol_cursor_next r)
      (if negb (symbolFactEqual p n) then ops ++ [replace_symbol (ID n) n] else ops) Ol Or Sl1 Sr1 ltac:(lia)).
    rewrite (symbols_diff_head p (p :: l1) n (n :: r1) (ID p) (Some p) (Some n));
      [|done|done|by apply head_le|rewrite Heq; by apply head_le|by simpl; rewrite String.eqb_refl
       |by simpl; rewrite Heq, String.eqb_refl|by left].
    cbn [symbol_diff advance]. rewrite String.eqb_refl, <- Heq, String.eqb_refl.
    rewrite <- Heq in IH.
    assert (ops ++ option_list (if symbolFactEqual p n then None else Some (replace_symbol (ID p) n)) ++ symbols_diff l1 r1 =
      (if negb (symbolFactEqual p n) then ops ++ [replace_symbol (ID p) n] else ops) ++ symbols_diff l1 r1) as ->.
    { destruct (symbolFactEqual p n); simpl; [done|]. by rewrite <- app_assoc. }
    destruct (symbol_merge fuel _ _ _) as [[l' r'] ops']. simpl in *. destruct_and!. split_and!; try done; lia.
Qed.

Lemma symbol_removed_spec fuel l ops :
  symbol_cursor_ok l -> keys_sorted ID (symbol_rest l) -> (length (symbol_rest l) <= fuel)%nat ->
  symbol_removed fuel l ops = ops ++ symbols_diff (symbol_rest l) [].
Proof.
  revert l ops. induction fuel as [|fuel IH]; intros l ops Hl Sl Hlen.
  { destruct (symbol_rest l); [by rewrite app_nil_r|simpl in Hlen; lia]. }
  cbn [symbol_removed]. destruct (symbol_cursor_valid l) eqn:Vl.
  2: { by rewrite symbol_rest_invalid, app_nil_r. }
  destruct (symbol_cursor_step l Hl Vl) as [Rl Ol]. rewrite Rl in *.
  pose proof Sl as Sl'. apply keys_sorted_cons in Sl' as [Sl1 _].
  set (p := symbol_cursor_fact l) in *.
  rewrite (symbols_diff_head p _ p [] (ID p) (Some p) None);
    [|done|apply keys_sorted_nil|by apply head_le|intros x Hx; by apply not_elem_of_nil in Hx
     |by simpl; rewrite String.eqb_refl|done|by left].
  cbn [symbol_diff advance option_list]. rewrite String.eqb_refl, app_assoc.
  simpl in Hlen. by apply IH; [| |lia].
Qed.

Lemma symbol_added_spec fuel r ops :
  symbol_cursor_ok r -> keys_sorted ID (symbol_rest r) -> (length (symbol_rest r) <= fuel)%nat ->
  symbol_added fuel r ops = ops ++ symbols_diff [] (symbol_rest r).
Proof.
  revert r ops. induction fuel as [|fuel IH]; intros r ops Hr Sr Hlen.
  { destruct (symbol_rest r); [by rewrite app_nil_r|simpl in Hlen; lia]. }
  cbn [symbol_added]. destruct (symbol_cursor_valid r) eqn:Vr.
  2: { by rewrite symbol_rest_invalid, app_nil_r. }
  destruct (symbol_cursor_step r Hr Vr) as [Rr Or]. rewrite Rr in *.
  pose proof Sr as Sr'. apply keys_sorted_cons in Sr' as [Sr1 _].
  set (n := symbol_cursor_fact r) in *.
  rewrite (symbols_diff_head n [] n _ (ID n) None (Some n));
    [|apply keys_sorted_nil|done|intros x Hx; by apply not_elem_of_nil in Hx|by apply head_le
     |done|by simpl; rewrite String.eqb_refl|by right].
  cbn [symbol_diff advance option_list]. rewrite String.eqb_refl, app_assoc.
  simpl in Hlen. by apply IH; [| |lia].
Qed.

Lemma new_symbol_cursor t :
  table_ok t ->
  symbol_cursor_ok (newSymbolFactCursor t) /\ symbol_rest (newSymbolFactCursor t) = rangeSymbolFacts t /\
  symbol_cursor_fuel t = length (rangeSymbolFacts t).
Proof.
  intros [_ _ _ Hs]. unfold symbol_cursor_fuel, newSymbolFactCursor, rangeSymbolFacts.
  destruct (ft_symbols t) as [s|].
  - destruct (chunk_start (chunks s) 0) as [H1 H2].
    { eapply Forall_impl; [apply (store_chunks s Hs)|]. by intros ch [? _]. }
    split_and!; done.
  - destruct (Symbols t) as [|f fs] eqn:E; [by split_and!|].
    destruct (chunk_start [f :: fs] 0) as [H1 H2]; [by repeat constructor|].
    split_and!; [done|rewrite H2; simpl; by rewrite app_nil_r|simpl; by rewrite app_nil_r].
Qed.

Lemma planFallbackSymbolDelta_ops base target e :
  table_ok base -> table_ok target ->
  planFallbackSymbolDelta base target e =
  mkPlan (plan_paths e) (plan_symbolIDs e) (plan_pathOps e)
    (plan_symbolOps e ++ symbols_diff (rangeSymbolFacts base) (rangeSymbolFacts target)).
Proof.
  intros Hb Ht. unfold planFallbackSymbolDelta.
  destruct (new_symbol_cursor base Hb) as (Ol & Rl & Fl). destruct (new_symbol_cursor target Ht) as (Or & Rr & Fr).
  pose proof (symbol_merge_spec (symbol_cursor_fuel base + symbol_cursor_fuel target)
    (newSymbolFactCursor base) (newSymbolFactCursor target) (plan_symbolOps e) Ol Or) as H.
  rewrite Rl, Rr in H. specialize (H (rangeSymbolFacts_sorted base Hb) (rangeSymbolFacts_sorted target Ht) ltac:(lia)).
  destruct (symbol_merge _ _ _ _) as [[l r] ops]. destruct H as (H & Hl & Hr & Sl & Sr & Ll & Lr & Hend).
  rewrite symbol_removed_spec, symbol_added_spec by (done || lia). f_equal.
  rewrite <- H, <- app_assoc. f_equal. destruct Hend as [-> | ->]; [done|by rewrite app_nil_r].
Qed.

Lemma symbols_diff_about l1 l2 :
  keys_sorted ID l1 -> keys_sorted ID l2 ->
  symbols_diff l1 l2 =
  concat (map (fun id => option_list (symbol_diff id (find_key ID l1 id) (find_key ID l2 id)))
              (sortUniqueWireTransitionPaths (map ID l1 ++ map ID l2))) /\
  forall id, Forall (about id) (option_list (symbol_diff id (find_key ID l1 id) (find_key ID l2 id))).
Proof.
  intros H1 H2. split.
  - unfold symbols_diff, keyed_diff. induction (sortUniqueWireTransitionPaths _) as [|p l IH]; [done|].
    rewrite omap_cons_option, IH. done.
  - intros id. unfold symbol_diff, about.
    destruct (find_key ID l1 id) as [x|] eqn:E1; [apply find_key_spec in E1 as [_ <-]; [|done]|];
      (destruct (find_key ID l2 _) as [y|] eqn:E2; [apply find_key_spec in E2 as [_ E2]; [|done]|]); simpl.
    + destruct (symbolFactEqual x y); simpl; [constructor|]. by repeat constructor.
    + by repeat constructor.
    + by repeat constructor.
    + constructor.
Qed.

(** Applying the difference of two ordered symbol lists to the first. *)
Lemma symbols_diff_apply l1 l2 :
  keys_sorted ID l1 -> keys_sorted ID l2 ->
  apply_symbol_ops (symbols_diff l1 l2) (rows_map l1) = rows_map l2.
Proof.
  intros H1 H2. apply map_eq. intros id. destruct (symbols_diff_about l1 l2 H1 H2) as [-> Ha].
  destruct (sortUnique_spec (map ID l1 ++ map ID l2)) as [Hs He].
  rewrite apply_planned; [| |done].
  2: { apply keys_sorted_NoDup in Hs. by rewrite list_fmap_id in Hs. }
  rewrite !rows_map_lookup by done. destruct (decide (id ∈ sortUniqueWireTransitionPaths _)) as [Hin|Hn].
  - unfold symbol_diff. destruct (find_key ID l1 id) as [x|], (find_key ID l2 id) as [y|]; simpl; try done.
    destruct (symbolFactEqual x y) eqn:E; simpl; [|done]. apply symbolFactEqual_eq in E. by subst.
  - rewrite He, elem_of_app in Hn.
    rewrite (proj2 (find_key_None ID l1 id H1)) by (intros ?; apply Hn; by left).
    by rewrite (proj2 (find_key_None ID l2 id H2)) by (intros ?; apply Hn; by right).
Qed.
End Fallback.

(** ** Reference runs *)

(** References in canonical path order, and the run of one path. *)
Definition refs_sorted (l : list Location) : Prop := StronglySorted sle (Path <$> l).
Definition ref_run (l : list Location) (p : string) : list Location := filter (fun r => Path r = p) l.

Lemma refs_sorted_cons r l : refs_sorted (r :: l) <-> refs_sorted l /\ (forall x, x ∈ l -> sle (Path r) (Path x)).
Proof.
  unfold refs_sorted. rewrite fmap_cons. split.
  - intros [Hl Hr]%StronglySorted_inv. split; [done|]. rewrite Forall_fmap, Forall_forall in Hr. exact Hr.
  - intros [Hl Hr]. constructor; [done|]. rewrite Forall_fmap, Forall_forall. exact Hr.
Qed.

(** A run scanned off the head is the whole run of its path. *)
Lemma reference_run l p :
  refs_sorted l -> (forall x, x ∈ l -> sle p (Path x)) ->
  take (referencePathEnd l p) l = ref_run l p /\
  drop (referencePathEnd l p) l = filter (fun r => slt p (Path r)) l.
Proof.
  induction l as [|r l IH]; intros Hs Hp; [done|]. apply refs_sorted_cons in Hs as [Hs Hr]. simpl.
  unfold ref_run. rewrite !filter_cons. destruct (String.eqb_spec (Path r) p) as [E|E].
  - rewrite decide_True by done. rewrite (decide_False (P := slt p (Path r))) by (rewrite E; apply slt_irrefl).
    destruct (IH Hs) as [H1 H2]; [intros x Hx; apply Hp; by right|]. simpl. split; [f_equal; exact H1|exact H2].
  - rewrite decide_False by done.
    assert (slt p (Path r)) as Hlt by (specialize (Hp r ltac:(left)); apply sle_lt_eq in Hp as [|]; [done|congruence]).
    rewrite decide_True by done. simpl.
    assert (forall x, x ∈ l -> slt p (Path x)) as Hall by (intros x Hx; apply slt_le_trans with (Path r); auto).
    split.
    + symmetry. apply filter_none, Forall_forall. intros x Hx E'. specialize (Hall x Hx). rewrite E' in Hall.
      by apply slt_irrefl in Hall.
    + f_equal. symmetry. apply filter_all, Forall_forall. exact Hall.
Qed.

Lemma filter_refs_sorted (P : Location -> Prop) `{!forall x, Decision (P x)} l :
  refs_sorted l -> refs_sorted (filter P l).
Proof.
  induction l as [|r l IH]; [done|]. intros [Hs Hr]%refs_sorted_cons. rewrite filter_cons.
  destruct (decide (P r)); [|by apply IH]. apply refs_sorted_cons. split; [by apply IH|].
  intros x [_ Hx]%list_elem_of_filter. by apply Hr.
Qed.

Lemma refs_sorted_app l1 l2 :
  refs_sorted l1 -> refs_sorted l2 -> (forall x y, x ∈ l1 -> y ∈ l2 -> sle (Path x) (Path y)) -> refs_sorted (l1 ++ l2).
Proof.
  induction l1 as [|r l1 IH]; [done|]. intros [H1 Hr]%refs_sorted_cons H2 H. simpl. apply refs_sorted_cons. split.
  - apply IH; [done|done|]. intros x y Hx Hy. apply H; [by right|done].
  - intros x [Hx|Hx]%elem_of_app; [by apply Hr|]. apply H; [left|done].
Qed.

Lemma ref_run_path l p : Forall (fun r => Path r = p) (ref_run l p).
Proof. apply Forall_forall. by intros r [? _]%list_elem_of_filter. Qed.

(** Ordered references are determined by their runs. *)
Lemma refs_ext l1 l2 : refs_sorted l1 -> refs_sorted l2 -> (forall p, ref_run l1 p = ref_run l2 p) -> l1 = l2.
Proof.
  revert l2. induction l1 as [|a l1 IH]; intros [|b l2] H1 H2 H.
  - done.
  - specialize (H (Path b)). unfold ref_run in H. rewrite filter_cons, decide_True in H by done. done.
  - specialize (H (Path a)). unfold ref_run in H. rewrite filter_cons, decide_True in H by done. done.
  - apply refs_sorted_cons in H1 as [H1 Ha], H2 as [H2 Hb].
    assert (Path a = Path b) as Hab.
    { apply (anti_symm sle).
      - pose proof (H (Path b)) as E. unfold ref_run in E. rewrite (filter_cons _ b), decide_True in E by done.
        assert (b ∈ filter (fun r => Path r = Path b) (a :: l1)) as Hin by (rewrite E; left).
        apply list_elem_of_filter in Hin as [_ [->|Hin]%elem_of_cons]; [done|by apply Ha].
      - pose proof (H (Path a)) as E. unfold ref_run in E. rewrite (filter_cons _ a), decide_True in E by done.
        assert (a ∈ filter (fun r => Path r = Path a) (b :: l2)) as Hin by (rewrite <- E; left).
        apply list_elem_of_filter in Hin as [_ [->|Hin]%elem_of_cons]; [done|by apply Hb]. }
    assert (a = b) as ->.
    { specialize (H (Path a)). unfold ref_run in H. rewrite !filter_cons, !decide_True in H by done. by injection H. }
    f_equal. apply IH; [done|done|]. intros p. specialize (H p). unfold ref_run in *. rewrite !filter_cons in H.
    destruct (decide (Path b = p)); [by injection H|done].
Qed.

Lemma replace_run_sorted p run refs :
  refs_sorted refs -> Forall (fun r => Path r = p) run -> refs_sorted (replace_run p run refs).
Proof.
  intros Hs Hr. rewrite Forall_forall in Hr. unfold replace_run. apply refs_sorted_app; [by apply filter_refs_sorted| |].
  - apply refs_sorted_app; [|by apply filter_refs_sorted|].
    + clear Hs. induction run as [|r run IH]; [constructor|]. apply refs_sorted_cons.
      split; [apply IH; intros x Hx; apply Hr; by right|]. intros x Hx. rewrite (Hr r ltac:(left)), (Hr x ltac:(by right)). done.
    + intros x y Hx [Hy _]%list_elem_of_filter. rewrite (Hr x Hx). by apply slt_le.
  - intros x y [Hx _]%list_elem_of_filter [Hy|[Hy _]%list_elem_of_filter]%elem_of_app; apply slt_le.
    + by rewrite (Hr y Hy).
    + by transitivity p.
Qed.

Lemma replace_run_run p run refs q :
  Forall (fun r => Path r = p) run ->
  ref_run (replace_run p run refs) q = if decide (q = p) then run else ref_run refs q.
Proof.
  intros Hr. unfold ref_run, replace_run. rewrite !filter_app, !list_filter_filter.
  destruct (decide (q = p)) as [->|Hne].
  - rewrite (filter_all _ run) by done. rewrite !filter_none, app_nil_r; [done| |];
      apply Forall_forall; intros x _ [Hx1 Hx2]; subst; by apply slt_irrefl in Hx1 || by apply slt_irrefl in Hx2.
  - rewrite (filter_none _ run).
    2: { eapply Forall_impl; [exact Hr|]. intros r Hp Hq. congruence. }
    destruct (slt_total q p) as [Hlt|[->|Hlt]]; [|done|].
    + rewrite (filter_none (fun x => Path x = q /\ slt p (Path x)) refs);
        [|apply Forall_forall; intros x _ [Hx1 Hx2]; subst; by apply (slt_asym _ _ Hlt)].
      rewrite !app_nil_r. apply list_filter_iff. intros x. split; [by intros [? ?]|]. by intros ->.
    + rewrite (filter_none (fun x => Path x = q /\ slt (Path x) p) refs);
        [|apply Forall_forall; intros x _ [Hx1 Hx2]; subst; by apply (slt_asym _ _ Hlt)].
      simpl. apply list_filter_iff. intros x. split; [by intros [? ?]|]. by intros ->.
Qed.

(** ** The exact plan *)

Section ExactSymbols.
Context `{BK : !Backing}.

Lemma reference_delta_app fuel id previous next ops :
  planExactReferenceDelta fuel id previous next ops = ops ++ planExactReferenceDelta fuel id previous next [].
Proof.
  revert previous next ops. induction fuel as [|fuel IH]; intros previous next ops; [by rewrite app_nil_r|].
  cbn [planExactReferenceDelta].
  assert (forall path, planExactReferenceDelta fuel id (drop (referencePathEnd previous path) previous)
      (drop (referencePathEnd next path) next)
      (if negb (locationsEqual (take (referencePathEnd previous path) previous) (take (referencePathEnd next path) next))
       then ops ++ [replace_reference_path id path (take (referencePathEnd next path) next)] else ops) =
    ops ++ planExactReferenceDelta fuel id (drop (referencePathEnd previous path) previous)
      (drop (referencePathEnd next path) next)
      (if negb (locationsEqual (take (referencePathEnd previous path) previous) (take (referencePathEnd next path) next))
       then [] ++ [replace_reference_path id path (take (referencePathEnd next path) next)] else [])) as H.
  { intros path. destruct (negb _); [|apply IH]. rewrite IH, (IH _ _ ([] ++ _)). by rewrite app_assoc. }
  destruct previous as [|p previous], next as [|n next]; [by rewrite app_nil_r|apply H|apply H|].
  destruct (String.ltb (Path p) (Path n)); apply H.
Qed.

Lemma reference_delta_about fuel id previous next :
  Forall (about id) (planExactReferenceDelta fuel id previous next []).
Proof.
  revert previous next. induction fuel as [|fuel IH]; intros previous next; [constructor|].
  cbn [planExactReferenceDelta].
  assert (forall path l l' (b : bool) run, Forall (about id) (planExactReferenceDelta fuel id l l'
    (if b then [] ++ [replace_reference_path id path run] else []))) as H.
  { intros path l l' b run. rewrite reference_delta_app. apply Forall_app. split; [|apply IH].
    destruct b; [by repeat constructor|constructor]. }
  destruct previous, next; [constructor|apply H|apply H|]. destruct (String.ltb _ _); apply H.
Qed.

Definition ref_paths (previous next : list Location) : list string := map Path previous ++ map Path next.

Lemma ref_run_above l p q : slt p q -> ref_run (filter (fun r => slt p (Path r)) l) q = ref_run l q.
Proof.
  intros Hlt. unfold ref_run. rewrite list_filter_filter. apply list_filter_iff. intros x.
  split; [by intros [? _]|]. by intros ->.
Qed.

(** Applied to references whose open runs are the old ones, the delta leaves
    them ordered and every open run the new one. *)
Lemma reference_delta_apply fuel id previous next f refs :
  refs_sorted previous -> refs_sorted next -> refs_sorted refs ->
  (length previous + length next <= fuel)%nat ->
  (forall q, q ∈ ref_paths previous next -> ref_run refs q = ref_run previous q) ->
  exists refs',
    foldl apply_row_op (Some (with_references f refs)) (planExactReferenceDelta fuel id previous next []) =
      Some (with_references f refs') /\
    refs_sorted refs' /\
    forall q, ref_run refs' q = if decide (q ∈ ref_paths previous next) then ref_run next q else ref_run refs q.
Proof.
  revert previous next refs. induction fuel as [|fuel IH]; intros previous next refs Sp Sn Sr Hlen Hopen.
  { destruct previous, next; simpl in Hlen; try lia. exists refs. split; [done|]. split; [done|]. done. }
  cbn [planExactReferenceDelta].
  assert (forall path,
    (forall x, x ∈ previous -> sle path (Path x)) -> (forall x, x ∈ next -> sle path (Path x)) ->
    path ∈ ref_paths previous next ->
    exists refs',
    foldl apply_row_op (Some (with_references f refs))
      (planExactReferenceDelta fuel id (drop (referencePathEnd previous path) previous)
        (drop (referencePathEnd next path) next)
        (if negb (locationsEqual (take (referencePathEnd previous path) previous) (take (referencePathEnd next path) next))
         then [] ++ [replace_reference_path id path (take (referencePathEnd next path) next)] else [])) =
      Some (with_references f refs') /\ refs_sorted refs' /\
    forall q, ref_run refs' q = if decide (q ∈ ref_paths previous next) then ref_run next q else ref_run refs q) as Hturn.
  { intros path Mp Mn Hin.
    destruct (reference_run previous path Sp Mp) as [Tp Dp], (reference_run next path Sn Mn) as [Tn Dn].
    set (previous' := drop (referencePathEnd previous path) previous) in *.
    set (next' := drop (referencePathEnd next path) next) in *.
    set (refs1 := if negb (locationsEqual (ref_run previous path) (ref_run next path))
      then replace_run path (ref_run next path) refs else refs).
    assert (refs_sorted refs1) as S1.
    { unfold refs1. destruct (negb _); [|done]. apply replace_run_sorted; [done|apply ref_run_path]. }
    assert (forall q, ref_run refs1 q = if decide (q = path) then ref_run next path else ref_run refs q) as R1.
    { intros q. unfold refs1. destruct (locationsEqual _ _) eqn:E; simpl; [|apply replace_run_run, ref_run_path].
      destruct (decide (q = path)) as [->|]; [|done]. apply locationsEqual_eq in E. rewrite <- E. by apply Hopen. }
    assert (forall q, q ∈ ref_paths previous' next' <-> q ∈ ref_paths previous next /\ q <> path) as Hpaths.
    { intros q. unfold ref_paths. rewrite Dp, Dn, !elem_of_app, !list_elem_of_fmap.
      setoid_rewrite list_elem_of_filter. split.
      - intros [(x & -> & Hlt & Hx)|(x & -> & Hlt & Hx)]; (split; [eauto|by apply not_eq_sym, slt_neq]).
      - intros [[(x & -> & Hx)|(x & -> & Hx)] Hne]; [left|right]; exists x; (split; [done|]); (split; [|done]).
        + specialize (Mp x Hx). apply sle_lt_eq in Mp as [|]; [done|congruence].
        + specialize (Mn x Hx). apply sle_lt_eq in Mn as [|]; [done|congruence]. }
    assert (forall q, q ∈ ref_paths previous' next' -> slt path q) as Hgt.
    { intros q. unfold ref_paths. rewrite Dp, Dn, elem_of_app, !list_elem_of_fmap.
      intros [(x & -> & [? _]%list_elem_of_filter)|(x & -> & [? _]%list_elem_of_filter)]; done. }
    destruct (IH previous' next' refs1) as (refs' & Hf & Hs & Hr); [| |done| | |].
    - rewrite Dp. by apply filter_refs_sorted.
    - rewrite Dn. by apply filter_refs_sorted.
    - unfold ref_paths in Hin. rewrite elem_of_app, !list_elem_of_fmap in Hin.
      assert (forall l, path ∈ map Path l -> (forall x, x ∈ l -> sle path (Path x)) -> refs_sorted l ->
        (length (filter (fun r => slt path (Path r)) l) < length l)%nat) as Hlt.
      { intros l (x & Hx & Hl)%list_elem_of_fmap _ _. apply length_filter_lt with x; [done|].
        rewrite Hx. apply slt_irrefl. }
      pose proof (length_filter (fun r => slt path (Path r)) previous).
      pose proof (length_filter (fun r => slt path (Path r)) next).
      rewrite Dp, Dn. destruct Hin as [Hin|Hin]; apply list_elem_of_fmap in Hin.
      + specialize (Hlt previous Hin Mp Sp). lia.
      + specialize (Hlt next Hin Mn Sn). lia.
    - intros q Hq. pose proof (Hgt q Hq). apply Hpaths in Hq as [Hq Hne].
      rewrite R1, decide_False by done. rewrite Hopen by done. rewrite Dp. by rewrite ref_run_above.
    - exists refs'. split; [|split; [done|]].
      + rewrite reference_delta_app, foldl_app, Tp, Tn. rewrite <- Hf. f_equal.
        unfold refs1. by destruct (negb _).
      + intros q. rewrite Hr, R1. destruct (decide (q ∈ ref_paths previous' next')) as [Hq|Hq].
        * pose proof (Hgt q Hq). apply Hpaths in Hq as [Hq Hne]. rewrite decide_True by done. rewrite Dn.
          by rewrite ref_run_above.
        * destruct (decide (q = path)) as [->|Hne]; [by rewrite decide_True by done|].
          rewrite decide_False; [done|]. intros Hq'. by apply Hq, Hpaths. }
  destruct previous as [|p previous].
  - destruct next as [|n next].
    { exists refs. split; [done|]. split; [done|]. intros q. by rewrite decide_False by (by intros ?%not_elem_of_nil). }
    apply refs_sorted_cons in Sn as Sn'. destruct Sn' as [_ Hn]. apply Hturn.
    + intros x Hx. by apply not_elem_of_nil in Hx.
    + intros x [->|Hx]%elem_of_cons; [done|by apply Hn].
    + left.
  - apply refs_sorted_cons in Sp as Sp'. destruct Sp' as [_ Hp]. destruct next as [|n next].
    { apply Hturn.
      - intros x [->|Hx]%elem_of_cons; [done|by apply Hp].
      - intros x Hx. by apply not_elem_of_nil in Hx.
      - left. }
    apply refs_sorted_cons in Sn as Sn'. destruct Sn' as [_ Hn].
    destruct (String.ltb (Path p) (Path n)) eqn:E; apply Hturn.
    + intros x [->|Hx]%elem_of_cons; [done|by apply Hp].
    + intros x [->|Hx]%elem_of_cons; [by apply slt_le|]. apply sle_trans with (Path n); [by apply slt_le|by apply Hn].
    + left.
    + intros x [->|Hx]%elem_of_cons; [done|]. apply sle_trans with (Path p); [done|by apply Hp].
    + intros x [->|Hx]%elem_of_cons; [done|by apply Hn].
    + unfold ref_paths. apply elem_of_app. right. left.
Qed.
End ExactSymbols.

Section ExactPlan.
Context `{BK : !Backing} `{MR : !MapRange} (base target : FactTable).

(** The manifest names every symbol the two tables do not share. *)
Definition symbol_manifest_covers (m : factTableTransportChanges) : Prop :=
  forall id, id ∉ symbolIDs m -> canonicalSymbol base id = canonicalSymbol target id.

Definition refs_canonical (t : FactTable) : Prop :=
  forall id f, canonicalSymbol t id = Some f -> refs_sorted (References f).

Definition exact_row (id : string) : list wireTransitionSymbolOp := exact_symbol_step base target [] id.

Lemma exact_symbol_step_app ops id : exact_symbol_step base target ops id = ops ++ exact_row id.
Proof.
  unfold exact_row, exact_symbol_step.
  destruct (canonicalSymbol base id) as [p|], (canonicalSymbol target id) as [n|]; try done; [|by rewrite app_nil_r].
  destruct (_ || _); [done|]. apply reference_delta_app.
Qed.

Lemma exact_rows ids ops : foldl (exact_symbol_step base target) ops ids = ops ++ concat (map exact_row ids).
Proof.
  revert ops. induction ids as [|id ids IH]; intros ops; [by rewrite app_nil_r|]. simpl.
  rewrite IH, exact_symbol_step_app. by rewrite app_assoc.
Qed.

Lemma exact_row_about id : Forall (about id) (exact_row id).
Proof.
  unfold exact_row, exact_symbol_step.
  destruct (canonicalSymbol base id), (canonicalSymbol target id); try by repeat constructor.
  destruct (_ || _); [by repeat constructor|]. apply reference_delta_about.
Qed.

Lemma with_references_eta f : with_references f (References f) = f.
Proof. by destruct f. Qed.

(** One candidate's operations turn its old row into its new one. *)
Lemma exact_row_apply id :
  table_ok base -> table_ok target -> refs_canonical base -> refs_canonical target ->
  foldl apply_row_op (canonicalSymbol base id) (exact_row id) = canonicalSymbol target id.
Proof.
  intros Hb Ht Rb Rt. unfold exact_row, exact_symbol_step.
  destruct (canonicalSymbol base id) as [p|] eqn:Ep, (canonicalSymbol target id) as [n|] eqn:En; try done.
  destruct (negb (go_eq (AliasTarget p) (AliasTarget n)) || negb (equal_func go_eq (Declarations p) (Declarations n))) eqn:E;
    [done|]. bool_hyps. rewrite go_eq_true in *. rewrite equal_func_go_eq in *.
  pose proof (Rb id p Ep) as Sp. pose proof (Rt id n En) as Sn.
  destruct (reference_delta_apply (length (References p) + length (References n)) id (References p) (References n)
    p (References p) Sp Sn Sp ltac:(lia) ltac:(done)) as (refs' & Hf & Hs & Hr).
  rewrite with_references_eta in Hf. rewrite Hf. f_equal.
  assert (refs' = References n) as ->.
  { apply refs_ext; [done|done|]. intros q. rewrite Hr. destruct (decide _) as [|Hn]; [done|].
    unfold ref_paths in Hn. rewrite elem_of_app in Hn.
    assert (forall l, q ∉ map Path l -> ref_run l q = []) as Hnone.
    { intros l Hl. apply filter_none, Forall_forall. intros x Hx Hq. apply Hl, list_elem_of_fmap. eauto. }
    by rewrite !Hnone by tauto. }
  rewrite canonicalSymbol_find in Ep, En by done.
  apply find_key_spec in Ep as [_ Ep]; [|by apply rangeSymbolFacts_sorted].
  apply find_key_spec in En as [_ En]; [|by apply rangeSymbolFacts_sorted].
  destruct p, n. unfold with_references. simpl in *. congruence.
Qed.

Lemma planExactSymbolDelta_apply m e :
  table_ok base -> table_ok target -> refs_canonical base -> refs_canonical target ->
  symbol_manifest_covers m -> plan_symbolIDs e = [] -> plan_symbolOps e = [] ->
  apply_symbol_ops (plan_symbolOps (planExactSymbolDelta base target m e)) (symbol_map base) = symbol_map target.
Proof.
  intros Hb Ht Rb Rt Hm Hids Hops. unfold planExactSymbolDelta. cbn [plan_symbolOps].
  rewrite Hids, Hops. cbn [app]. rewrite exact_rows. cbn [app]. apply map_eq. intros id.
  rewrite apply_planned; [|unfold sort_Strings; rewrite sort_slice_perm; apply range_set_NoDup|apply exact_row_about].
  rewrite !symbol_map_lookup by done.
  destruct (decide (id ∈ sort_Strings (range_set (symbolIDs m)))) as [Hin|Hn].
  - by apply exact_row_apply.
  - apply Hm. by rewrite sort_Strings_elem, range_set_elem in Hn.
Qed.
End ExactPlan.

(** C37: Applying the symbol operations of the fallback plan to the base's symbols gives exactly
    the target's symbols; so does applying those of the exact plan with its per-path reference
    runs, when the manifest names every symbol that differs between the tables and the reference
    lists of both tables are canonical (in order of their paths). *)
Theorem symbol_delta_applies `{BK : !Backing} `{MR : !MapRange} base target e :
  table_ok base -> table_ok target -> plan_symbolIDs e = [] -> plan_symbolOps e = [] ->
  apply_symbol_ops (plan_symbolOps (planFallbackSymbolDelta base target e)) (symbol_map base) = symbol_map target /\
  (forall m, refs_canonical base -> refs_canonical target -> symbol_manifest_covers base target m ->
     apply_symbol_ops (plan_symbolOps (planExactSymbolDelta base target m e)) (symbol_map base) = symbol_map target).
Proof.
  intros Hb Ht Hids Hops. split.
  - rewrite planFallbackSymbolDelta_ops by done. cbn [plan_symbolOps]. rewrite Hops.
    apply symbols_diff_apply; by apply rangeSymbolFacts_sorted.
  - intros m Rb Rt Hm. by apply planExactSymbolDelta_apply.
Qed.

Definition plain_table (symbols : list SymbolFact) : FactTable :=
  mkFactTable 1 1 "p" [] [] symbols [] 1 None None None None None.

Lemma plain_table_ok symbols : keys_sorted ID symbols -> table_ok (plain_table symbols).
Proof. intros H. split; simpl; [constructor|constructor|constructor|done]. Qed.

Definition moved_symbols : list SymbolFact :=
  [mkSymbolFact "a" "" [] [mkLocation "f.ts" 9 10; mkLocation "g.ts" 1 2]; store_row "d" 4].

Lemma symbol_delta_applies_witness :
  let base := plain_table [store_row "a" 1; store_row "c" 2] in
  let target := plain_table moved_symbols in
  let m := mkTransportChanges 1 1 ∅ ∅ ∅ {["a"; "c"; "d"]} true in
  apply_symbol_ops (plan_symbolOps (planFallbackSymbolDelta base target (mkPlan [] [] [] []))) (symbol_map base)
    = symbol_map target /\
  apply_symbol_ops (plan_symbolOps (planExactSymbolDelta base target m (mkPlan [] [] [] []))) (symbol_map base)
    = symbol_map target.
Proof.
  intros base target m.
  assert (table_ok base) as Hb by (apply plain_table_ok; repeat constructor).
  assert (table_ok target) as Ht by (apply plain_table_ok; repeat constructor).
  destruct (symbol_delta_applies base target (mkPlan [] [] [] []) Hb Ht eq_refl eq_refl) as [H1 H2].
  split; [exact H1|]. apply H2.
  - intros id f Hf. rewrite canonicalSymbol_find in Hf by done. apply find_key_spec in Hf as [Hf _]; [|by apply rangeSymbolFacts_sorted].
    simpl in Hf. repeat (apply elem_of_cons in Hf as [->|Hf]; [repeat constructor|]). by apply not_elem_of_nil in Hf.
  - intros id f Hf. rewrite canonicalSymbol_find in Hf by done. apply find_key_spec in Hf as [Hf _]; [|by apply rangeSymbolFacts_sorted].
    simpl in Hf. repeat (apply elem_of_cons in Hf as [->|Hf]; [repeat constructor|]). by apply not_elem_of_nil in Hf.
  - intros id Hid. rewrite !canonicalSymbol_find by done.
    transitivity (@None SymbolFact); [|symmetry]; apply find_key_None;
      first [by apply rangeSymbolFacts_sorted|vm_compute in Hid |- *; set_solver].
Defined.
