(* ===== verification/TransportManifest.v ===== *)
(** * Transport manifests

    [transport_manifest.go]: the paths and symbols a transition may have
    touched. Candidate symbols are closed under alias edges by a worklist that
    grows while it is read. *)

From S2P Require Import Prelude GoStd GoText SortedPaths Model SymbolStore FactTable.
Open Scope Z_scope.

(** [for index := 0; index < len(queue); index++]: the targets of each entry
    join the set and the queue when first seen. *)
Definition push_target (st : list string * gset string) (target : string) : list string * gset string :=
  let '(queue, seen) := st in
  if decide (target ∈ seen) then st else (queue ++ [target], {[target]} ∪ seen).

Fixpoint drain_queue (fuel : nat) (targets : string -> list string) (index : nat)
    (queue : list string) (seen : gset string) : gset string :=
  match fuel with
  | O => seen
  | S fuel' =>
      match queue !! index with
      | None => seen
      | Some id =>
          let '(queue, seen) := foldl push_target (queue, seen) (targets id) in
          drain_queue fuel' targets (S index) queue seen
      end
  end.

(** The alias edge out of an identity. *)
Definition alias_target (table : FactTable) (id : SymbolID) : list SymbolID :=
  match canonicalSymbol table id with
  | Some fact => if String.eqb (AliasTarget fact) "" then [] else [AliasTarget fact]
  | None => []
  end.

(** The identities one file names. *)
Definition add_named (id : SymbolID) (symbols : gset string) : gset string :=
  if String.eqb id "" then symbols else {[id]} ∪ symbols.

Definition add_entity_symbols (symbols : gset string) (entity : EntityFact) : gset string :=
  let symbols := add_named (ef_Symbol entity) symbols in
  match ResolvedCall entity with Some call => add_named (call_Target call) symbols | None => symbols end.

Definition add_function_symbols (symbols : gset string) (function : AsyncFunctionFact) : gset string :=
  add_named (af_Target function) (add_named (af_Symbol function) symbols).

Definition collectPathSymbols (table : FactTable) (path : string) (symbols : gset string) : gset string :=
  match pathSymbols table with
  | Some m => list_to_set (default [] (m !! path)) ∪ symbols
  | None =>
      let start := search_key entity_path (ft_Entities table) path in
      let rest := drop start (ft_Entities table) in
      let symbols := foldl add_entity_symbols symbols (take (run_length path rest) rest) in
      match canonicalFileFact (Files table) path with
      | Some file => foldl add_function_symbols symbols (AsyncFunctions file)
      | None => symbols
      end
  end.

Section Manifest.
Context `{MR : !MapRange}.

Definition retainedSymbolCandidates (table : option FactTable) (changedPaths : gset string) : gset string :=
  match table with
  | None => ∅
  | Some t =>
      let candidates :=
        foldl (fun symbols path => collectPathSymbols t (Clean path) symbols) ∅ (range_set changedPaths) in
      drain_queue (size candidates + length (rangeSymbolFacts t)) (alias_target t) 0 (range_set candidates) candidates
  end.

(** What the manifest reads of the closure's builder. *)
Record builderChanges := mkBuilderChanges {
  referenceChangesExact : bool;
  changedSymbolIDs : list SymbolID;
}.

Definition transportManifest (previous : option FactTable) (next : FactTable) (builder : option builderChanges)
    (changedPaths : gset string) : option factTableTransportChanges :=
  match previous, builder with
  | Some previous, Some builder =>
      if negb (referenceChangesExact builder) then None
      else
        let paths := map Clean (range_set changedPaths) in
        let symbols :=
          foldl (fun symbols path => collectPathSymbols next path (collectPathSymbols previous path symbols)) ∅ paths in
        let symbols := list_to_set (changedSymbolIDs builder) ∪ symbols in
        let targets id := alias_target previous id ++ alias_target next id in
        let symbols :=
          drain_queue (size symbols + length (rangeSymbolFacts previous) + length (rangeSymbolFacts next))
            targets 0 (range_set symbols) symbols in
        Some (mkTransportChanges (Generation previous) (stateID previous)
                (list_to_set paths) (list_to_set paths) (list_to_set paths) symbols true)
  | _, _ => None
  end.

Definition rustOwnedTransportManifest (previous : option FactTable) (changedPaths : option (gset string)) :
    option factTableTransportChanges :=
  match previous, changedPaths with
  | Some previous, Some changedPaths =>
      let paths := map Clean (range_set changedPaths) in
      Some (mkTransportChanges (Generation previous) (stateID previous)
              (list_to_set paths) (list_to_set paths) (list_to_set paths) ∅ true)
  | _, _ => None
  end.

End Manifest.

(** ** The worklist closes its set *)

Section Drain.
Context (targets : string -> list string).

Definition closed_under (X : gset string) : Prop := forall id t, id ∈ X -> t ∈ targets id -> t ∈ X.

Record queue_ok (init : gset string) (index : nat) (queue : list string) (seen : gset string) : Prop := {
  queue_set : forall id, id ∈ queue <-> id ∈ seen;
  queue_NoDup : NoDup queue;
  queue_init : init ⊆ seen;
  queue_done : forall k id t, (k < index)%nat -> queue !! k = Some id -> t ∈ targets id -> t ∈ seen;
  queue_least : forall X, init ⊆ X -> closed_under X -> seen ⊆ X;
}.

Lemma push_targets_spec ts queue seen :
  NoDup queue -> (forall id, id ∈ queue <-> id ∈ seen) ->
  let '(queue', seen') := foldl push_target (queue, seen) ts in
  NoDup queue' /\ (forall id, id ∈ queue' <-> id ∈ seen') /\ queue `prefix_of` queue' /\
  (forall id, id ∈ seen' <-> id ∈ seen \/ id ∈ ts).
Proof.
  revert queue seen. induction ts as [|t ts IH]; intros queue seen Hnd Hs; simpl.
  { split_and!; try done. intros id. rewrite elem_of_nil. tauto. }
  destruct (decide (t ∈ seen)) as [Ht|Ht].
  - specialize (IH queue seen Hnd Hs). destruct (foldl push_target (queue, seen) ts) as [q s].
    destruct IH as (H1 & H2 & H3 & H4). split_and!; try done. intros id. rewrite H4, elem_of_cons.
    split; [tauto|]. intros [?|[->|?]]; auto.
  - specialize (IH (queue ++ [t]) ({[t]} ∪ seen)).
    destruct (foldl push_target (queue ++ [t], {[t]} ∪ seen) ts) as [q s].
    destruct IH as (H1 & H2 & H3 & H4).
    + apply NoDup_app. split; [done|]. split; [|apply NoDup_singleton].
      intros x Hx ->%list_elem_of_singleton. by apply Ht, Hs.
    + intros id. rewrite elem_of_app, list_elem_of_singleton, elem_of_union, elem_of_singleton, Hs. tauto.
    + split_and!; [done|done| |].
      * transitivity (queue ++ [t]); [by apply prefix_app_r|done].
      * intros id. rewrite H4, elem_of_cons, elem_of_union, elem_of_singleton. tauto.
Qed.

(** With fuel for every identity that can be reached, the worklist empties
    and leaves the least closed set. *)
Lemma drain_queue_spec fuel U init index queue seen :
  queue_ok init index queue seen -> init ⊆ U -> (forall id t, id ∈ U -> t ∈ targets id -> t ∈ U) ->
  (index <= length queue)%nat -> (size U <= index + fuel)%nat ->
  let r := drain_queue fuel targets index queue seen in
  init ⊆ r /\ closed_under r /\ forall X, init ⊆ X -> closed_under X -> r ⊆ X.
Proof.
  intros Hok HU Hclosed. revert index queue seen Hok.
  assert (forall index queue seen, queue_ok init index queue seen -> (length queue <= index)%nat ->
    init ⊆ seen /\ closed_under seen /\ forall X, init ⊆ X -> closed_under X -> seen ⊆ X) as Hdone.
  { intros index queue seen [Hs Hnd Hi Hd Hl] Hle. split; [done|]. split; [|done].
    intros id t Hid Ht. apply Hs, list_elem_of_lookup in Hid as [k Hk].
    apply (Hd k id); [apply lookup_lt_Some in Hk; lia|done|done]. }
  induction fuel as [|fuel IH]; intros index queue seen Hok Hle Hfuel.
  { apply (Hdone index queue); [done|]. destruct Hok as [Hs Hnd Hi Hd Hl].
    assert (size (list_to_set queue : gset string) <= size U)%nat as Hsz.
    { apply subseteq_size. intros id Hid%elem_of_list_to_set. apply Hs in Hid. by apply (Hl U). }
    rewrite size_list_to_set in Hsz by done. lia. }
  cbn [drain_queue]. destruct (queue !! index) as [id|] eqn:E.
  - pose proof (push_targets_spec (targets id) queue seen (queue_NoDup _ _ _ _ Hok) (queue_set _ _ _ _ Hok)) as Hp.
    destruct (foldl push_target (queue, seen) (targets id)) as [queue' seen'].
    destruct Hp as (H1 & H2 & H3 & H4). destruct Hok as [Hs Hnd Hi Hd Hl].
    assert (length queue <= length queue')%nat by (by apply prefix_length).
    apply lookup_lt_Some in E as Elt. apply IH; [split| |]; [done|done| | | |lia|lia].
    + intros x Hx. apply H4. left. by apply Hi.
    + intros k x t Hk Hx Ht. apply H4.
      assert (queue !! k = Some x) as Hqk.
      { destruct H3 as [l ->]. rewrite lookup_app_l in Hx by lia. done. }
      destruct (decide (k = index)) as [->|]; [right; congruence|left].
      apply (Hd k x); [lia|done|done].
    + intros X HX HcX x Hx. apply H4 in Hx as [Hx|Hx]; [by apply (Hl X)|].
      apply (HcX id); [|done]. apply (Hl X HX HcX). apply Hs. by eapply list_elem_of_lookup_2.
  - apply (Hdone index queue); [done|]. by apply lookup_ge_None_1.
Qed.

Lemma drain_init `{MR : !MapRange} init : queue_ok init 0 (range_set init) init.
Proof.
  split; [intros id; apply range_set_elem|apply range_set_NoDup|done|intros; lia|done].
Qed.
End Drain.

(** The alias targets a table can name. *)
Definition alias_targets (t : FactTable) : gset string := list_to_set (AliasTarget <$> rangeSymbolFacts t).

Lemma alias_target_elem t id a : table_ok t -> a ∈ alias_target t id -> a ∈ alias_targets t.
Proof.
  intros Hok. unfold alias_target. rewrite canonicalSymbol_find by done.
  destruct (find_key ID _ id) as [f|] eqn:E; [|by intros ?%not_elem_of_nil].
  apply find_key_spec in E as [Hf _]; [|by apply rangeSymbolFacts_sorted].
  destruct (String.eqb _ _); [by intros ?%not_elem_of_nil|]. intros ->%list_elem_of_singleton.
  apply elem_of_list_to_set, list_elem_of_fmap. eauto.
Qed.

Lemma alias_targets_size t : (size (alias_targets t) <= length (rangeSymbolFacts t))%nat.
Proof.
  unfold alias_targets. rewrite <- (length_fmap AliasTarget). generalize (AliasTarget <$> rangeSymbolFacts t) as l.
  induction l as [|x l IH]; [done|]. rewrite list_to_set_cons. simpl.
  rewrite size_union_alt, size_singleton.
  enough (size ((list_to_set l : gset string) ∖ {[x]}) <= size (list_to_set l : gset string))%nat by lia.
  apply subseteq_size. set_solver.
Qed.

(** ** What a manifest names *)

(** The identities a file's rows name. *)
Definition named_in (t : FactTable) (path : string) : gset string := collectPathSymbols t path ∅.

Lemma add_named_union id X : add_named id X = add_named id ∅ ∪ X.
Proof. unfold add_named. destruct (String.eqb id ""); set_solver. Qed.

Lemma fold_add_union {A} (add : gset string -> A -> gset string) (l : list A) X :
  (forall a X, add X a = add ∅ a ∪ X) -> foldl add X l = foldl add ∅ l ∪ X.
Proof.
  intros H. revert X. induction l as [|a l IH]; intros X; simpl; [set_solver|].
  rewrite IH, (IH (add ∅ a)), (H a X). set_solver.
Qed.

Lemma add_entity_union a X : add_entity_symbols X a = add_entity_symbols ∅ a ∪ X.
Proof.
  unfold add_entity_symbols. destruct (ResolvedCall a) as [c|].
  - rewrite (add_named_union (call_Target c) (add_named _ X)), (add_named_union (call_Target c) (add_named _ ∅)),
      (add_named_union (ef_Symbol a) X). set_solver.
  - apply add_named_union.
Qed.

Lemma add_function_union a X : add_function_symbols X a = add_function_symbols ∅ a ∪ X.
Proof.
  unfold add_function_symbols.
  rewrite (add_named_union (af_Target a) (add_named _ X)), (add_named_union (af_Target a) (add_named _ ∅)),
    (add_named_union (af_Symbol a) X). set_solver.
Qed.

Lemma collectPathSymbols_union t path X : collectPathSymbols t path X = named_in t path ∪ X.
Proof.
  unfold named_in, collectPathSymbols. destruct (pathSymbols t) as [m|]; [set_solver|].
  set (rows := take _ _). rewrite (fold_add_union add_entity_symbols rows X) by apply add_entity_union.
  destruct (canonicalFileFact (Files t) path) as [file|]; [|done].
  rewrite (fold_add_union add_function_symbols (AsyncFunctions file) (_ ∪ X)) by apply add_function_union.
  rewrite (fold_add_union add_function_symbols (AsyncFunctions file) (foldl add_entity_symbols ∅ rows))
    by apply add_function_union. set_solver.
Qed.

Lemma fold_named_union {A} (f : A -> gset string) (l : list A) X id :
  id ∈ foldl (fun symbols a => f a ∪ symbols) X l <-> id ∈ X \/ exists a, a ∈ l /\ id ∈ f a.
Proof.
  revert X. induction l as [|a l IH]; intros X; simpl.
  { split; [auto|]. intros [?|(a & Ha & _)]; [done|by apply not_elem_of_nil in Ha]. }
  rewrite IH, elem_of_union. setoid_rewrite elem_of_cons. split.
  - intros [[?|?]|(b & Hb & ?)]; [right; eauto|auto|right; eauto].
  - intros [?|(b & [->|Hb] & ?)]; [auto|auto|right; eauto].
Qed.

(** A transport manifest names every symbol of the changed files of both tables and of the
    changed set, is closed under the alias edges of both tables and is the least such set; its
    paths are the cleaned changed paths. *)
Theorem transportManifest_closes `{MR : !MapRange} previous next builder changedPaths m :
  table_ok previous -> table_ok next ->
  transportManifest (Some previous) next (Some builder) changedPaths = Some m ->
  let seeds id :=
    id ∈ changedSymbolIDs builder \/
    exists path, path ∈ changedPaths /\ (id ∈ named_in previous (Clean path) \/ id ∈ named_in next (Clean path)) in
  let closed (X : gset string) :=
    forall id t, id ∈ X -> t ∈ alias_target previous id \/ t ∈ alias_target next id -> t ∈ X in
  (forall id, seeds id -> id ∈ symbolIDs m) /\ closed (symbolIDs m) /\
  (forall X : gset string, (forall id, seeds id -> id ∈ X) -> closed X -> symbolIDs m ⊆ X) /\
  (forall p, p ∈ sourcePaths m <-> exists path, path ∈ changedPaths /\ p = Clean path) /\
  entityPaths m = sourcePaths m /\ filePaths m = sourcePaths m /\
  baseGeneration m = Generation previous /\ baseStateID m = stateID previous /\ exact m = true.
Proof.
  intros Hb Ht Hm seeds closed. unfold transportManifest in Hm.
  destruct (negb (referenceChangesExact builder)); [done|]. simplify_eq. cbn [symbolIDs sourcePaths entityPaths filePaths].
  set (paths := map Clean (range_set changedPaths)).
  set (init := list_to_set (changedSymbolIDs builder) ∪ foldl _ ∅ paths : gset string).
  set (targets := fun id => alias_target previous id ++ alias_target next id).
  assert (forall id, id ∈ init <-> seeds id) as Hinit.
  { intros id. unfold init, seeds. rewrite elem_of_union, elem_of_list_to_set.
    assert (forall X, foldl (fun symbols path => collectPathSymbols next path (collectPathSymbols previous path symbols)) X paths
      = foldl (fun symbols path => (named_in next path ∪ named_in previous path) ∪ symbols) X paths) as ->.
    { induction paths as [|p ps IH]; intros X; [done|]. simpl. rewrite IH. f_equal.
      rewrite !collectPathSymbols_union. set_solver. }
    rewrite fold_named_union. unfold paths. setoid_rewrite list_elem_of_fmap. setoid_rewrite range_set_elem.
    rewrite elem_of_empty. setoid_rewrite elem_of_union. naive_solver. }
  assert (forall id, Forall (fun t => t ∈ alias_targets previous ∪ alias_targets next) (targets id)) as Htargets.
  { intros id. apply Forall_forall. intros t. unfold targets. rewrite elem_of_app, elem_of_union.
    intros [H|H]; apply alias_target_elem in H; auto. }
  destruct (drain_queue_spec targets
    (size init + length (rangeSymbolFacts previous) + length (rangeSymbolFacts next))
    (init ∪ (alias_targets previous ∪ alias_targets next)) init 0 (range_set init) init) as (H1 & H2 & H3).
  - apply drain_init.
  - set_solver.
  - intros id t _ Hin. specialize (Htargets id). rewrite Forall_forall in Htargets. specialize (Htargets t Hin). set_solver.
  - lia.
  - pose proof (alias_targets_size previous). pose proof (alias_targets_size next).
    rewrite size_union_alt.
    assert (size ((alias_targets previous ∪ alias_targets next) ∖ init) <= size (alias_targets previous ∪ alias_targets next))%nat
      by (apply subseteq_size; set_solver).
    pose proof (size_union_alt (alias_targets previous) (alias_targets next)).
    assert (size (alias_targets next ∖ alias_targets previous) <= size (alias_targets next))%nat
      by (apply subseteq_size; set_solver). lia.
  - assert (forall X : gset string, closed X <-> closed_under targets X) as Hcl.
    { intros X. unfold closed, closed_under, targets. setoid_rewrite elem_of_app. done. }
    split_and!; try done.
    + intros id Hid. by apply H1, Hinit.
    + by apply Hcl.
    + intros X HX HcX. apply H3; [|by apply Hcl]. intros id Hid. by apply HX, Hinit.
    + intros p. rewrite elem_of_list_to_set. unfold paths. rewrite list_elem_of_fmap.
      setoid_rewrite range_set_elem. naive_solver.
Qed.

Definition alias_table (symbols : list SymbolFact) (entities : list EntityFact) : FactTable :=
  mkFactTable 1 4 "p" [] entities symbols [] 9 None None None None None.

Definition alias_row (id target : string) : SymbolFact := mkSymbolFact id target [] [].

Lemma transportManifest_closes_witness :
  let previous := alias_table [alias_row "a" "b"; alias_row "b" ""] [] in
  let next := alias_table [alias_row "a" "b"; alias_row "b" "c"; alias_row "c" ""] [] in
  match transportManifest (Some previous) next (Some (mkBuilderChanges true ["a"])) {["./x.ts"]} with
  | Some m => "c" ∈ symbolIDs m /\ "x.ts" ∈ sourcePaths m
  | None => False
  end.
Proof.
  intros previous next.
  assert (table_ok previous) as Hb by (split; simpl; repeat constructor).
  assert (table_ok next) as Ht by (split; simpl; repeat constructor).
  destruct (transportManifest _ _ _ _) as [m|] eqn:E; [|vm_compute in E; discriminate E].
  destruct (transportManifest_closes previous next _ _ m Hb Ht E) as (H1 & H2 & _ & H3 & _).
  split.
  - apply (H2 "b"); [|by right; left]. apply (H2 "a"); [|by left; left]. apply H1. left. left.
  - apply H3. exists "./x.ts". split; [set_solver|reflexivity].
Defined.
