(* ===== verification/StringTable.v ===== *)
(** * The frame dictionary

    [stringTableV3] of [protocolv3_compact.go], the dictionary both wire forms
    share: strings are interned in first-occurrence order and index 0 is the
    empty string. Also its reader [stringUntableV3], and the reset and public
    symbol-name spelling of the transition encoder. *)

From S2P Require Import Prelude GoStd GoText.
Open Scope Z_scope.

Record stringTableV3 := mkStringTable {
  indexes : gmap string Z;
  values : list string;
}.

Definition newStringTableV3 : stringTableV3 := mkStringTable {[ "" := 0 ]} [""].

(** What the table stores for [value]. *)
Definition wire_text (value : string) : string :=
  if ValidString value then value else ToValidUTF8 value replacement_char.

Definition intern (t : stringTableV3) (value : string) : Z * stringTableV3 :=
  let value := wire_text value in
  match indexes t !! value with
  | Some index => (index, t)
  | None =>
      let index := u64 (Z.of_nat (length (values t))) in
      (index, mkStringTable (<[value := index]> (indexes t)) (values t ++ [value]))
  end.

Definition lookup_string (t : list string) (index : Z) : result string :=
  if Z.of_nat (length t) <=? index
  then Err (ErrText "compact string index out of range")
  else match t !! Z.to_nat index with
       | Some s => Ok s
       | None => Err (ErrText "unreachable")
       end.

(** [resetDictionary]: a nil table is made, any other is cleared in place. *)
Definition resetDictionary (dict : option stringTableV3) : stringTableV3 :=
  match dict with
  | None => newStringTableV3
  | Some t =>
      let cleared := map (fun _ => "") (values t) in
      mkStringTable (<["" := 0]> ∅) (<[0%nat := ""]> (take 1 cleared))
  end.

(** TypeScript's internal prefix byte 0xfe is spelled ["__"] on the wire. *)
Definition internalSymbolNamePrefix : string := String (Ascii.ascii_of_nat 254) "".

Definition wireSymbolName (name : string) : string :=
  let name :=
    match name with
    | String c rest =>
        if Ascii.eqb c (Ascii.ascii_of_nat 254) then "__" +:+ rest else name
    | EmptyString => name
    end in
  if negb (ValidString name) then ToValidUTF8 name replacement_char else name.

(** ** The table invariant *)

Record table_ok (t : stringTableV3) : Prop := {
  table_index : forall s i, indexes t !! s = Some i <->
                  0 <= i /\ values t !! Z.to_nat i = Some s;
  table_zero : values t !! 0%nat = Some "";
  table_valid : Forall (fun s => ValidString s = true) (values t);
}.

Definition table_size (t : stringTableV3) : Z := Z.of_nat (length (values t)).

Lemma wire_text_valid v : ValidString (wire_text v) = true.
Proof. unfold wire_text. destruct (ValidString v) eqn:E; [done|]. by apply ToValidUTF8_valid. Qed.

Lemma wire_text_id v : ValidString v = true -> wire_text v = v.
Proof. unfold wire_text. by intros ->. Qed.

Lemma wireSymbolName_valid n : ValidString (wireSymbolName n) = true.
Proof.
  unfold wireSymbolName. set (m := match n with String _ _ => _ | _ => _ end).
  destruct (ValidString m) eqn:E; simpl; [done|]. by apply ToValidUTF8_valid.
Qed.
#[export] Hint Resolve wire_text_valid wireSymbolName_valid : facts.

Lemma newStringTable_ok : table_ok newStringTableV3.
Proof.
  split; simpl; [|done|by repeat constructor]. intros s i. rewrite lookup_singleton. split.
  - destruct (decide ("" = s)); [|done]. intros; simplify_eq. split; [lia|done].
  - intros [Hi Hl]. destruct (Z.to_nat i) as [|n] eqn:En; [|by destruct n].
    simpl in Hl. simplify_eq. rewrite decide_True by done. f_equal. lia.
Qed.

Lemma intern_ok t v :
  table_ok t -> table_size t < 2 ^ 64 -> table_ok (snd (intern t v)).
Proof.
  intros [Hi Hz Hv] Hs. unfold table_size in Hs. unfold intern.
  destruct (indexes t !! wire_text v) as [i|] eqn:E; [by split|].
  rewrite u64_id by (unfold is_u64; lia). split; simpl.
  - intros s i. rewrite lookup_insert. destruct (decide (wire_text v = s)) as [<-|Hne].
    + split.
      * intros; simplify_eq. split; [lia|]. rewrite Nat2Z.id, lookup_app_r, Nat.sub_diag by lia. done.
      * intros [Hpos Hl]. f_equal. apply lookup_app_Some in Hl as [Hl|[Hge Hl]].
        -- assert (indexes t !! wire_text v = Some i) by (by apply Hi). congruence.
        -- apply list_lookup_singleton_Some in Hl as [Hl _]. lia.
    + rewrite Hi. split.
      * intros [? Hl]. split; [done|]. by apply lookup_app_l_Some.
      * intros [? Hl]. split; [done|]. apply lookup_app_Some in Hl as [|[_ Hl]]; [done|].
        apply list_lookup_singleton_Some in Hl as [_ ?]. done.
  - by apply lookup_app_l_Some.
  - apply Forall_app. split; [done|]. repeat constructor. apply wire_text_valid.
Qed.

Lemma intern_size t v : table_size t <= table_size (snd (intern t v)) <= table_size t + 1.
Proof.
  unfold intern, table_size. destruct (indexes t !! wire_text v); simpl; [lia|].
  rewrite length_app. simpl. lia.
Qed.

Lemma intern_prefix t v : values t `prefix_of` values (snd (intern t v)).
Proof. unfold intern. destruct (indexes t !! wire_text v); simpl; [done|]. by eexists. Qed.

(** The index handed out reads back as the text, in this and every later
    state of the table. *)
Lemma intern_lookup t v vs :
  table_ok t -> table_size t < 2 ^ 64 -> values (snd (intern t v)) `prefix_of` vs ->
  lookup_string vs (fst (intern t v)) = Ok (wire_text v).
Proof.
  intros Hok Hs [k ->]. unfold table_size in Hs. unfold intern, lookup_string.
  destruct (indexes t !! wire_text v) as [i|] eqn:E; simpl.
  - apply (table_index _ Hok) in E as [Hpos Hl]. pose proof (lookup_lt_Some _ _ _ Hl).
    rewrite length_app. replace (_ <=? i) with false by (symmetry; apply Z.leb_gt; lia).
    by rewrite (lookup_app_l_Some _ _ _ _ Hl).
  - rewrite u64_id by (unfold is_u64; lia). rewrite !length_app. simpl.
    replace (_ <=? _) with false by (symmetry; apply Z.leb_gt; lia).
    rewrite Nat2Z.id. rewrite <- app_assoc, lookup_app_r, Nat.sub_diag by lia. done.
Qed.

Lemma intern_index_u64 t v :
  table_ok t -> table_size t < 2 ^ 64 -> is_u64 (fst (intern t v)).
Proof.
  intros Hok Hs. unfold table_size in Hs. unfold intern, is_u64.
  destruct (indexes t !! wire_text v) as [i|] eqn:E; simpl; [|by apply u64_range].
  apply (table_index _ Hok) in E as [Hpos Hl]. pose proof (lookup_lt_Some _ _ _ Hl). lia.
Qed.

Lemma lookup_string_prefix vs vs' i s :
  vs `prefix_of` vs' -> lookup_string vs i = Ok s -> lookup_string vs' i = Ok s.
Proof.
  intros [k ->]. unfold lookup_string. rewrite length_app.
  destruct (Z.of_nat (length vs) <=? i) eqn:E; [done|]. apply Z.leb_gt in E.
  destruct (vs !! Z.to_nat i) eqn:El; [|done]. intros; simplify_eq.
  replace (_ <=? i) with false by (symmetry; apply Z.leb_gt; lia).
  by rewrite (lookup_app_l_Some _ _ _ _ El).
Qed.

#[export] Hint Resolve newStringTable_ok intern_ok intern_prefix : facts.

Lemma resetDictionary_new dict :
  (forall t, dict = Some t -> table_ok t) -> resetDictionary dict = newStringTableV3.
Proof.
  intros Ht. destruct dict as [t|]; [|done]. specialize (Ht t eq_refl).
  pose proof (table_zero _ Ht) as Hz. unfold resetDictionary.
  destruct (values t) as [|v vs]; [done|]. done.
Qed.

(** ** Dictionary-wide statements *)

(** Interning a sequence of strings, in order. *)
Fixpoint intern_all (t : stringTableV3) (vs : list string) : list Z * stringTableV3 :=
  match vs with
  | [] => ([], t)
  | v :: vs' =>
      let '(i, t1) := intern t v in
      let '(ixs, t2) := intern_all t1 vs' in
      (i :: ixs, t2)
  end.

Lemma intern_all_spec t vs :
  table_ok t -> table_size t + Z.of_nat (length vs) < 2 ^ 64 ->
  let '(ixs, t') := intern_all t vs in
  table_ok t' /\ values t `prefix_of` values t' /\
  Forall2 (fun i v => is_u64 i /\ lookup_string (values t') i = Ok (wire_text v)) ixs vs.
Proof.
  revert t. induction vs as [|v vs IH]; intros t Hok Hs; simpl; [by split_and!|].
  simpl in Hs. destruct (intern t v) as [i t1] eqn:E.
  pose proof (intern_ok t v Hok ltac:(lia)) as Hok1. pose proof (intern_size t v) as Hs1.
  pose proof (intern_prefix t v) as Hp1.
  pose proof (intern_index_u64 t v Hok ltac:(lia)) as Hu.
  pose proof (intern_lookup t v) as Hl.
  rewrite E in Hok1, Hs1, Hp1, Hu, Hl. simpl in *.
  specialize (IH t1 Hok1 ltac:(lia)). destruct (intern_all t1 vs) as [ixs t2].
  destruct IH as (Hok2 & Hp2 & HF). split; [done|]. split; [by etrans|].
  constructor; [split; [done|apply Hl; [done|lia|done]]|done].
Qed.

(** Looking an interned index up in the finished dictionary gives the wire text of the
    interned string, whatever was interned before or after. *)
Theorem dictionary_roundtrip vs :
  Z.of_nat (length vs) < 2 ^ 63 ->
  let '(ixs, t) := intern_all newStringTableV3 vs in
  table_ok t /\
  Forall2 (fun i v => lookup_string (values t) i = Ok (wire_text v)) ixs vs /\
  (forall j k i1 i2 v1 v2, ixs !! j = Some i1 -> ixs !! k = Some i2 ->
     vs !! j = Some v1 -> vs !! k = Some v2 -> i1 = i2 <-> wire_text v1 = wire_text v2).
Proof.
  intros Hl. pose proof (intern_all_spec newStringTableV3 vs newStringTable_ok) as H.
  unfold table_size in H. simpl in H. specialize (H ltac:(lia)).
  destruct (intern_all newStringTableV3 vs) as [ixs t]. destruct H as (Hok & _ & HF).
  split; [done|]. split; [eapply Forall2_impl; [exact HF|]; by intros ?? []|].
  intros j k i1 i2 v1 v2 H1 H2 H3 H4.
  pose proof (Forall2_lookup_lr _ _ _ _ _ _ HF H1 H3) as [U1 L1].
  pose proof (Forall2_lookup_lr _ _ _ _ _ _ HF H2 H4) as [U2 L2].
  split; intros Heq; [subst; congruence|]. rewrite Heq in L1.
  assert (forall i s, lookup_string (values t) i = Ok s -> 0 <= i -> indexes t !! s = Some i) as Hinv.
  { intros i s. unfold lookup_string. destruct (_ <=? i); [done|].
    destruct (values t !! Z.to_nat i) eqn:E; [|done]. intros; simplify_eq.
    by apply (table_index _ Hok). }
  apply Hinv in L1, L2; [congruence|apply U2|apply U1].
Qed.

Lemma dictionary_roundtrip_witness :
  fst (intern_all newStringTableV3 ["a"; "b"; "a"]) = [1; 2; 1] /\
  Forall2 (fun i v => lookup_string (values (snd (intern_all newStringTableV3 ["a"; "b"; "a"]))) i = Ok (wire_text v))
    [1; 2; 1] ["a"; "b"; "a"].
Proof.
  split; [reflexivity|].
  exact (proj1 (proj2 (dictionary_roundtrip ["a"; "b"; "a"] ltac:(reflexivity)))).
Defined.

(** A reset dictionary is a fresh one. *)
Theorem resetDictionary_fresh dict :
  (forall t, dict = Some t -> table_ok t) -> resetDictionary dict = newStringTableV3.
Proof.
  apply resetDictionary_new.
Qed.

Lemma resetDictionary_fresh_witness :
  resetDictionary (Some (snd (intern newStringTableV3 "a"))) = newStringTableV3.
Proof.
  apply resetDictionary_fresh. intros t Ht. injection Ht as <-.
  apply intern_ok; [apply newStringTable_ok|reflexivity].
Defined.
