(* ===== verification/CompactDemands.v ===== *)
(** * Compact demand frames

    [protocolv3_compact.go]: the packed form a client sends its demands in.
    [CompactDemandsV3From] writes it, [Expand] reads it back, [demandShape]
    sizes it, and [appendCompactDemandsWithFlag] reads only the rows carrying a
    flag. *)

From S2P Require Import Prelude GoStd GoText StringTable Model.
Open Scope Z_scope.

Record CompactDemandGroupV3 := mkCompactDemandGroup {
  cg_Path : Z;
  cg_Demands : list Z;
}.
#[export] Instance CompactDemandGroupV3_eq_dec : EqDecision CompactDemandGroupV3.
Proof. solve_decision. Defined.

Record CompactDemandsV3 := mkCompactDemands {
  Groups : list CompactDemandGroupV3;
  Strings : list string;
}.

(** ** Flag bits *)

Definition demandFlagSymbol : Z := Z.shiftl 1 0.
Definition demandFlagReferences : Z := Z.shiftl 1 1.
Definition demandFlagTypeDescriptor : Z := Z.shiftl 1 2.
Definition demandFlagResolvedCall : Z := Z.shiftl 1 3.
Definition demandFlagAsync : Z := Z.shiftl 1 4.
Definition demandFlagStructuralAccessor : Z := Z.shiftl 1 5.
Definition demandFlagCallability : Z := Z.shiftl 1 6.
Definition demandFlagReferenceSpace : Z := Z.shiftl 1 7.
Definition demandFlagRuntimeIdentity : Z := Z.shiftl 1 8.
Definition demandFlagRuntimeValueDomain : Z := Z.shiftl 1 9.
Definition demandFlagCallResultDomain : Z := Z.shiftl 1 10.
Definition demandFlagConstantValue : Z := Z.shiftl 1 11.
Definition demandFlagArrayShape : Z := Z.shiftl 1 12.
Definition demandFlagTupleShape : Z := Z.shiftl 1 13.
Definition demandFlagLibraryTypes : Z := Z.shiftl 1 14.
Definition demandFlagPrimitiveValueDomain : Z := Z.shiftl 1 15.
Definition demandFlagConstructability : Z := Z.shiftl 1 16.
Definition demandFlagPrimitiveLiteralCandidates : Z := Z.shiftl 1 17.
Definition demandFlagParameterObjectShape : Z := Z.shiftl 1 18.

Definition demand_flags (d : EntityDemand) : Z :=
  let flags := 0 in
  let flags := or_flag (dem_Symbol d) demandFlagSymbol flags in
  let flags := or_flag (dem_References d) demandFlagReferences flags in
  let flags := or_flag (dem_TypeDescriptor d) demandFlagTypeDescriptor flags in
  let flags := or_flag (dem_ResolvedCall d) demandFlagResolvedCall flags in
  let flags := or_flag (dem_Async d) demandFlagAsync flags in
  let flags := or_flag (dem_StructuralAccessor d) demandFlagStructuralAccessor flags in
  let flags := or_flag (dem_Callability d) demandFlagCallability flags in
  let flags := or_flag (dem_ReferenceSpace d) demandFlagReferenceSpace flags in
  let flags := or_flag (dem_RuntimeIdentity d) demandFlagRuntimeIdentity flags in
  let flags := or_flag (dem_RuntimeValueDomain d) demandFlagRuntimeValueDomain flags in
  let flags := or_flag (dem_CallResultDomain d) demandFlagCallResultDomain flags in
  let flags := or_flag (dem_ConstantValue d) demandFlagConstantValue flags in
  let flags := or_flag (dem_ArrayShape d) demandFlagArrayShape flags in
  let flags := or_flag (dem_TupleShape d) demandFlagTupleShape flags in
  let flags := or_flag (dem_LibraryTypes d) demandFlagLibraryTypes flags in
  let flags := or_flag (dem_PrimitiveValueDomain d) demandFlagPrimitiveValueDomain flags in
  let flags := or_flag (dem_PrimitiveLiteralCandidates d) demandFlagPrimitiveLiteralCandidates flags in
  let flags := or_flag (dem_ParameterObjectShape d) demandFlagParameterObjectShape flags in
  or_flag (dem_Constructability d) demandFlagConstructability flags.

(** The row literal both readers build. *)
Definition demand_of_flags (flags : Z) (location : Location) : EntityDemand :=
  {| dem_Location := location;
     QueryLocation := None;
     dem_Symbol := has_flag flags demandFlagSymbol;
     dem_References := has_flag flags demandFlagReferences;
     dem_TypeDescriptor := has_flag flags demandFlagTypeDescriptor;
     dem_ResolvedCall := has_flag flags demandFlagResolvedCall;
     dem_Async := has_flag flags demandFlagAsync;
     dem_StructuralAccessor := has_flag flags demandFlagStructuralAccessor;
     dem_Callability := has_flag flags demandFlagCallability;
     dem_ReferenceSpace := has_flag flags demandFlagReferenceSpace;
     dem_RuntimeIdentity := has_flag flags demandFlagRuntimeIdentity;
     dem_RuntimeValueDomain := has_flag flags demandFlagRuntimeValueDomain;
     dem_CallResultDomain := has_flag flags demandFlagCallResultDomain;
     dem_ConstantValue := has_flag flags demandFlagConstantValue;
     dem_ArrayShape := has_flag flags demandFlagArrayShape;
     dem_TupleShape := has_flag flags demandFlagTupleShape;
     dem_LibraryTypes := has_flag flags demandFlagLibraryTypes;
     dem_PrimitiveValueDomain := has_flag flags demandFlagPrimitiveValueDomain;
     dem_PrimitiveLiteralCandidates := has_flag flags demandFlagPrimitiveLiteralCandidates;
     dem_ParameterObjectShape := has_flag flags demandFlagParameterObjectShape;
     dem_Constructability := has_flag flags demandFlagConstructability |}.

Definition with_query (d : EntityDemand) (q : Location) : EntityDemand :=
  with_locations d (dem_Location d) (Some q).

(** ** Writing *)

(** The state of the [CompactDemandsV3From] loop. *)
Record from_state := mkFromState {
  fs_strings : stringTableV3;
  fs_groups : list CompactDemandGroupV3;
  fs_previousStart : Z;
}.

Fixpoint alter_last {A} (f : A -> A) (l : list A) : list A :=
  match l with
  | [] => []
  | [x] => [f x]
  | x :: l' => x :: alter_last f l'
  end.

(** The packed bytes of one row. *)
Definition demand_header (demand : EntityDemand) : Z :=
  let header := u64 (Z.shiftl (demand_flags demand) 1) in
  match QueryLocation demand with Some _ => Z.lor header 1 | None => header end.

Definition demand_row (strings : stringTableV3) (demand : EntityDemand) (previousStart : Z) :
    list Z * stringTableV3 :=
  let loc := dem_Location demand in
  let row := append_uvarint [] (demand_header demand) in
  let row := append_uvarint row (u64 (i64 (StartByte loc - previousStart))) in
  let row := append_uvarint row (u64 (i64 (EndByte loc - StartByte loc))) in
  match QueryLocation demand with
  | None => (row, strings)
  | Some q =>
      let '(index, strings) := intern strings (Path q) in
      let row := append_uvarint row index in
      let row := append_uvarint row (u64 (StartByte q)) in
      let row := append_uvarint row (u64 (i64 (EndByte q - StartByte q))) in
      (row, strings)
  end.

Definition from_step (s : from_state) (demand : EntityDemand) : from_state :=
  let '(path, strings) := intern (fs_strings s) (Path (dem_Location demand)) in
  let fresh :=
    match last (fs_groups s) with
    | None => true
    | Some g => negb (cg_Path g =? path) ||
                (StartByte (dem_Location demand) <? fs_previousStart s)
    end in
  let groups :=
    if fresh then fs_groups s ++ [mkCompactDemandGroup path []] else fs_groups s in
  let previousStart := if fresh then 0 else fs_previousStart s in
  let '(row, strings) := demand_row strings demand previousStart in
  mkFromState strings
    (alter_last (fun g => mkCompactDemandGroup (cg_Path g) (cg_Demands g ++ row)) groups)
    (StartByte (dem_Location demand)).

Definition CompactDemandsV3From (demands : list EntityDemand) : CompactDemandsV3 :=
  let s := foldl from_step (mkFromState newStringTableV3 [] 0) demands in
  mkCompactDemands (fs_groups s) (values (fs_strings s)).

(** ** Reading *)

Definition takeCompactUvarint (input : list Z) : result (Z * list Z) :=
  let '(value, count) := uvarint input in
  if count =? 0 then Err (ErrText "truncated compact demand varint")
  else if count <? 0 then Err (ErrText "overflowing compact demand varint")
  else Ok (value, drop (Z.to_nat count) input).

(** One turn of the [Expand] loop: the row, what follows it, and its start.
    [int(start)] is the 64-bit conversion. *)
Definition expand_row (strings : list string) (path : string) (packed : list Z)
    (previousStart : Z) : result (EntityDemand * list Z * Z) :=
  let? (header, rest) := takeCompactUvarint packed in
  let? (startDelta, rest) := takeCompactUvarint rest in
  let? (len, rest) := takeCompactUvarint rest in
  let start := u64 (previousStart + startDelta) in
  if (start <? previousStart) || (u64 (start + len) <? start)
  then Err (ErrText "compact demand location overflow")
  else
    let flags := Z.shiftr header 1 in
    let demand := demand_of_flags flags (mkLocation path (i64 start) (i64 (u64 (start + len)))) in
    if has_flag header 1 then
      let? (queryPathIndex, next) := takeCompactUvarint rest in
      let? (queryStart, next) := takeCompactUvarint next in
      let? (queryLength, next) := takeCompactUvarint next in
      if u64 (queryStart + queryLength) <? queryStart
      then Err (ErrText "compact demand query location overflow")
      else
        let? queryPath := lookup_string strings queryPathIndex in
        Ok (with_query demand
              (mkLocation queryPath (i64 queryStart) (i64 (u64 (queryStart + queryLength)))),
            next, start)
    else Ok (demand, rest, start).

(** [for len(packed) != 0]: every turn consumes bytes, so the length of the
    run is enough fuel. *)
Fixpoint expand_loop (fuel : nat) (strings : list string) (path : string)
    (packed : list Z) (previousStart : Z) : result (list EntityDemand) :=
  match packed with
  | [] => Ok []
  | _ =>
      match fuel with
      | O => Err (ErrText "fuel")
      | S fuel' =>
          let? (demand, rest, start) := expand_row strings path packed previousStart in
          let? demands := expand_loop fuel' strings path rest start in
          Ok (demand :: demands)
      end
  end.

Fixpoint take_uvarints (n : nat) (rest : list Z) : result (list Z) :=
  match n with
  | O => Ok rest
  | S n' => let? (_, rest) := takeCompactUvarint rest in take_uvarints n' rest
  end.

Fixpoint shape_loop (fuel : nat) (packed : list Z) (demandCount queryCount : nat) :
    result (nat * nat) :=
  match packed with
  | [] => Ok (demandCount, queryCount)
  | _ =>
      match fuel with
      | O => Err (ErrText "fuel")
      | S fuel' =>
          let? (header, rest) := takeCompactUvarint packed in
          let? rest := take_uvarints 2 rest in
          if has_flag header 1 then
            let? rest := take_uvarints 3 rest in
            shape_loop fuel' rest (S demandCount) (S queryCount)
          else shape_loop fuel' rest (S demandCount) queryCount
      end
  end.

Fixpoint shape_groups (groups : list CompactDemandGroupV3) (demandCount queryCount : nat) :
    result (nat * nat) :=
  match groups with
  | [] => Ok (demandCount, queryCount)
  | group :: groups' =>
      let? (demandCount, queryCount) :=
        shape_loop (length (cg_Demands group)) (cg_Demands group) demandCount queryCount in
      shape_groups groups' demandCount queryCount
  end.

Definition demandShape (compact : CompactDemandsV3) : result (nat * nat) :=
  shape_groups (Groups compact) 0 0.

Fixpoint expand_groups (strings : list string) (groups : list CompactDemandGroupV3) :
    result (list EntityDemand) :=
  match groups with
  | [] => Ok []
  | group :: groups' =>
      let? path := lookup_string strings (cg_Path group) in
      let? demands :=
        expand_loop (length (cg_Demands group)) strings path (cg_Demands group) 0 in
      let? more := expand_groups strings groups' in
      Ok (demands ++ more)
  end.

Definition Expand (compact : CompactDemandsV3) : result (list EntityDemand) :=
  let? _ := demandShape compact in
  expand_groups (Strings compact) (Groups compact).

(** One turn of [appendCompactDemandsWithFlag]: only a selected row is built
    and only its query path is looked up. *)
Definition flag_row (strings : list string) (path : string) (requiredFlag : Z)
    (packed : list Z) (previousStart : Z) : result (option EntityDemand * list Z * Z) :=
  let? (header, rest) := takeCompactUvarint packed in
  let? (startDelta, rest) := takeCompactUvarint rest in
  let? (len, rest) := takeCompactUvarint rest in
  let start := u64 (previousStart + startDelta) in
  if (start <? previousStart) || (u64 (start + len) <? start)
  then Err (ErrText "compact demand location overflow")
  else
    let flags := Z.shiftr header 1 in
    let selected := has_flag flags requiredFlag in
    let demand := demand_of_flags flags (mkLocation path (i64 start) (i64 (u64 (start + len)))) in
    if has_flag header 1 then
      let? (queryPathIndex, next) := takeCompactUvarint rest in
      let? (queryStart, next) := takeCompactUvarint next in
      let? (queryLength, next) := takeCompactUvarint next in
      if u64 (queryStart + queryLength) <? queryStart
      then Err (ErrText "compact demand query location overflow")
      else if selected then
        let? queryPath := lookup_string strings queryPathIndex in
        Ok (Some (with_query demand
              (mkLocation queryPath (i64 queryStart) (i64 (u64 (queryStart + queryLength))))),
            next, start)
      else Ok (None, next, start)
    else Ok (if selected then Some demand else None, rest, start).

Fixpoint flag_loop (fuel : nat) (target : list EntityDemand) (strings : list string)
    (path : string) (requiredFlag : Z) (packed : list Z) (previousStart : Z) :
    result (list EntityDemand) :=
  match packed with
  | [] => Ok target
  | _ =>
      match fuel with
      | O => Err (ErrText "fuel")
      | S fuel' =>
          let? (row, rest, start) := flag_row strings path requiredFlag packed previousStart in
          let target := match row with Some demand => target ++ [demand] | None => target end in
          flag_loop fuel' target strings path requiredFlag rest start
      end
  end.

Definition appendCompactDemandsWithFlag (target : list EntityDemand)
    (group : CompactDemandGroupV3) (stringTable : list string) (requiredFlag : Z) :
    result (list EntityDemand) :=
  let? path := lookup_string stringTable (cg_Path group) in
  flag_loop (length (cg_Demands group)) target stringTable path requiredFlag
    (cg_Demands group) 0.

(** ** Flags *)

Lemma demand_flags_range d : 0 <= demand_flags d < 2 ^ 19.
Proof. unfold demand_flags. cbv zeta. do 19 (apply or_flag_range; [lia|]). lia. Qed.

(** Reads one bit of a [demand_flags] word. *)
Ltac flag_bits :=
  unfold demand_flags; cbv zeta;
  unfold demandFlagSymbol, demandFlagReferences, demandFlagTypeDescriptor,
    demandFlagResolvedCall, demandFlagAsync, demandFlagStructuralAccessor,
    demandFlagCallability, demandFlagReferenceSpace, demandFlagRuntimeIdentity,
    demandFlagRuntimeValueDomain, demandFlagCallResultDomain, demandFlagConstantValue,
    demandFlagArrayShape, demandFlagTupleShape, demandFlagLibraryTypes,
    demandFlagPrimitiveValueDomain, demandFlagConstructability,
    demandFlagPrimitiveLiteralCandidates, demandFlagParameterObjectShape;
  or_flag_bits.

Lemma demand_of_flags_flags d l : demand_of_flags (demand_flags d) l = with_locations d l None.
Proof. unfold demand_of_flags, with_locations. f_equal; flag_bits. Qed.

Lemma demand_flags_of_flags f l k :
  0 <= k < 19 ->
  has_flag (demand_flags (demand_of_flags f l)) (Z.shiftl 1 k) = has_flag f (Z.shiftl 1 k).
Proof.
  intros Hk.
  assert (k = 0 \/ k = 1 \/ k = 2 \/ k = 3 \/ k = 4 \/ k = 5 \/ k = 6 \/ k = 7 \/ k = 8 \/ k = 9 \/
    k = 10 \/ k = 11 \/ k = 12 \/ k = 13 \/ k = 14 \/ k = 15 \/ k = 16 \/ k = 17 \/ k = 18) as H by lia.
  repeat (destruct H as [->|H]; [unfold demand_of_flags; flag_bits; simpl; flag_bits|]).
  subst k. unfold demand_of_flags. flag_bits; simpl; flag_bits.
Qed.

Lemma demand_flags_with_query d q : demand_flags (with_query d q) = demand_flags d.
Proof. by destruct d. Qed.

Lemma header_parts d :
  Z.shiftr (demand_header d) 1 = demand_flags d /\
  has_flag (demand_header d) 1 = bool_decide (is_Some (QueryLocation d)) /\
  is_u64 (demand_header d).
Proof.
  pose proof (demand_flags_range d) as Hr. unfold demand_header.
  rewrite u64_id by (unfold is_u64; rewrite Z.shiftl_mul_pow2 by lia; lia).
  change (has_flag ?x 1) with (has_flag x (Z.shiftl 1 0)).
  rewrite has_flag_bit by lia. destruct (QueryLocation d).
  - rewrite bool_decide_eq_true_2 by done. rewrite Z.shiftr_lor, Z.lor_spec, Z.shiftr_shiftl_l, Z.shiftl_0_r by lia.
    change (Z.shiftr 1 1) with 0. rewrite Z.lor_0_r. split; [done|].
    rewrite orb_true_r. split; [done|].
    unfold is_u64. apply (lor_bound 64); [lia| |lia]. rewrite Z.shiftl_mul_pow2 by lia. lia.
  - rewrite bool_decide_eq_false_2 by (by intros []).
    rewrite Z.shiftr_shiftl_l, Z.shiftl_0_r, Z.shiftl_spec_low by lia. split; [done|].
    split; [done|]. unfold is_u64. rewrite Z.shiftl_mul_pow2 by lia. lia.
Qed.

(** ** Varints and rows *)

Lemma append_uvarint_nil row x : append_uvarint row x = row ++ append_uvarint [] x.
Proof. done. Qed.

Lemma take_append x rest : is_u64 x -> takeCompactUvarint (append_uvarint [] x ++ rest) = Ok (x, rest).
Proof.
  intros Hx. unfold takeCompactUvarint, append_uvarint. cbn [app].
  rewrite uvarint_append by done. pose proof (uvarint_bytes_length 9 x) as Hl.
  replace (Z.of_nat (length (uvarint_bytes 9 x)) =? 0) with false by (symmetry; apply Z.eqb_neq; lia).
  replace (Z.of_nat (length (uvarint_bytes 9 x)) <? 0) with false by (symmetry; apply Z.ltb_ge; lia).
  rewrite Nat2Z.id. by rewrite drop_app_length.
Qed.

Lemma take_shorter input v rest :
  takeCompactUvarint input = Ok (v, rest) -> (length rest < length input)%nat /\ is_u64 v.
Proof.
  unfold takeCompactUvarint. pose proof (uvarint_loop_count 0 0 0 input ltac:(lia)) as Hc.
  pose proof (uvarint_u64 input) as Hu. unfold uvarint in *.
  destruct (uvarint_loop 0 0 0 input) as [x c]. simpl in *.
  destruct (c =? 0) eqn:E1; [done|]. destruct (c <? 0) eqn:E2; [done|].
  apply Z.eqb_neq in E1. apply Z.ltb_ge in E2. intros; simplify_eq.
  rewrite length_drop. split; [lia|done].
Qed.

Lemma take_uvarints_shorter n input rest :
  take_uvarints n input = Ok rest -> (length rest <= length input)%nat.
Proof.
  revert input. induction n as [|n IH]; intros input; simpl; [intros; simplify_eq; done|].
  intros H. apply result_bind_ok in H as ([v r] & H1 & H2).
  apply take_shorter in H1 as [H1 _]. apply IH in H2. lia.
Qed.

(** What one turn of [Expand] read, in the steps [demandShape] takes. *)
Lemma expand_row_shape vs path packed p d rest st :
  expand_row vs path packed p = Ok (d, rest, st) ->
  exists header r1 r2, takeCompactUvarint packed = Ok (header, r1) /\
    take_uvarints 2 r1 = Ok r2 /\
    if has_flag header 1 then take_uvarints 3 r2 = Ok rest /\ is_Some (QueryLocation d)
    else r2 = rest /\ QueryLocation d = None.
Proof.
  unfold expand_row. intros H. apply result_bind_ok in H as ([header r1] & H1 & H).
  apply result_bind_ok in H as ([sd r2] & H2 & H).
  apply result_bind_ok in H as ([ln r3] & H3 & H).
  exists header, r1, r3. split; [done|]. simpl. rewrite H2. simpl. rewrite H3. split; [done|].
  destruct (_ || _); [done|]. destruct (has_flag header 1); [|by simplify_eq].
  apply result_bind_ok in H as ([q1 r4] & H4 & H).
  apply result_bind_ok in H as ([q2 r5] & H5 & H).
  apply result_bind_ok in H as ([q3 r6] & H6 & H).
  destruct (_ <? _); [done|]. apply result_bind_ok in H as (qp & H7 & H). simplify_eq.
  rewrite H4. simpl. rewrite H5. simpl. rewrite H6. simpl. split; [done|by eexists].
Qed.

Lemma expand_row_shorter vs path packed p d rest st :
  expand_row vs path packed p = Ok (d, rest, st) -> (length rest < length packed)%nat.
Proof.
  intros (h & r1 & r2 & H1 & H2 & H3)%expand_row_shape.
  apply take_shorter in H1 as [H1 _]. apply take_uvarints_shorter in H2.
  destruct (has_flag h 1); [destruct H3 as [H3%take_uvarints_shorter _]; lia|].
  destruct H3; subst; lia.
Qed.

Lemma expand_row_strings vs vs' path packed p r :
  vs `prefix_of` vs' -> expand_row vs path packed p = Ok r -> expand_row vs' path packed p = Ok r.
Proof.
  intros Hp. unfold expand_row.
  do 3 (destruct (takeCompactUvarint _) as [[? ?]|]; [|done]; cbn [result_bind]).
  destruct (_ || _); [done|]. destruct (has_flag _ 1); [|done].
  do 3 (destruct (takeCompactUvarint _) as [[? ?]|]; [|done]; cbn [result_bind]).
  destruct (_ <? _); [done|]. intros (s & H1 & H2)%result_bind_ok.
  by rewrite (lookup_string_prefix vs vs' _ s).
Qed.

(** ** Fuel and sizes *)

Lemma expand_loop_fuel n m vs path packed p :
  (length packed <= n)%nat -> (length packed <= m)%nat ->
  expand_loop n vs path packed p = expand_loop m vs path packed p.
Proof.
  revert m packed p. induction n as [|n IH]; intros m packed p Hn Hm.
  { destruct packed; [by destruct m|simpl in Hn; lia]. }
  destruct packed as [|b packed]; [by destruct m|].
  destruct m as [|m]; [simpl in Hm; lia|]. cbn [expand_loop].
  destruct (expand_row vs path (b :: packed) p) as [[[d rest] st]|] eqn:E; [|done].
  apply expand_row_shorter in E. simpl in Hn, Hm, E. cbn [result_bind].
  rewrite (IH m) by lia. done.
Qed.

Definition query_count (ds : list EntityDemand) : nat :=
  length (filter (fun d => is_Some (QueryLocation d)) ds).

Lemma shape_loop_expand fuel vs path packed p ds a b :
  (length packed <= fuel)%nat ->
  expand_loop fuel vs path packed p = Ok ds ->
  shape_loop fuel packed a b = Ok (length ds + a, query_count ds + b)%nat.
Proof.
  revert packed p ds a b. induction fuel as [|fuel IH]; intros packed p ds a b Hl.
  { destruct packed; simpl in *; [|lia]. intros; by simplify_eq. }
  destruct packed as [|c packed]; cbn [expand_loop shape_loop]; [intros; by simplify_eq|].
  intros H. apply result_bind_ok in H as ([[d rest] st] & H1 & H).
  apply result_bind_ok in H as (ds' & H2 & H). simplify_eq.
  pose proof (expand_row_shorter _ _ _ _ _ _ _ H1) as Hs. simpl in Hl, Hs.
  apply expand_row_shape in H1 as (h & r1 & r2 & E1 & E2 & E3).
  rewrite E1. cbn [result_bind]. rewrite E2. cbn [result_bind].
  unfold query_count. rewrite filter_cons. destruct (has_flag h 1).
  - destruct E3 as [E3 Hq]. rewrite E3. cbn [result_bind].
    rewrite (IH rest st ds' _ _ ltac:(lia) H2). rewrite decide_True by done.
    cbn [length]. unfold query_count. do 2 f_equal; lia.
  - destruct E3 as [-> Hq]. rewrite (IH rest st ds' _ _ ltac:(lia) H2).
    rewrite decide_False by (rewrite Hq; by intros []). cbn [length]. unfold query_count. do 2 f_equal; lia.
Qed.

Lemma shape_groups_expand vs gs ds a b :
  expand_groups vs gs = Ok ds ->
  shape_groups gs a b = Ok (length ds + a, query_count ds + b)%nat.
Proof.
  revert ds a b. induction gs as [|g gs IH]; intros ds a b; cbn [expand_groups shape_groups].
  { intros; by simplify_eq. }
  intros H. apply result_bind_ok in H as (path & _ & H).
  apply result_bind_ok in H as (d1 & H1 & H). apply result_bind_ok in H as (d2 & H2 & H).
  simplify_eq. rewrite (shape_loop_expand _ _ _ _ _ _ _ _ (Nat.le_refl _) H1). cbn [result_bind].
  rewrite (IH _ _ _ H2). unfold query_count. rewrite filter_app, !length_app.
  do 2 f_equal; lia.
Qed.

(** ** Runs of rows

    [rows_run vs path bytes p ds p']: [bytes] is a run of whole rows that
    [Expand] reads as [ds] from the start [p], leaving the start at [p']. *)
Inductive rows_run (vs : list string) (path : string) :
    list Z -> Z -> list EntityDemand -> Z -> Prop :=
| run_nil p : rows_run vs path [] p [] p
| run_cons row rest p d p1 ds p2 :
    (forall tail, expand_row vs path (row ++ tail) p = Ok (d, tail, p1)) ->
    rows_run vs path rest p1 ds p2 ->
    rows_run vs path (row ++ rest) p (d :: ds) p2.

Lemma run_snoc vs path bytes p ds p1 row d p2 :
  rows_run vs path bytes p ds p1 ->
  (forall tail, expand_row vs path (row ++ tail) p1 = Ok (d, tail, p2)) ->
  rows_run vs path (bytes ++ row) p (ds ++ [d]) p2.
Proof.
  intros H Hrow. induction H as [p|row' rest p d' p1' ds p2' Hr Hrun IH].
  - rewrite <- (app_nil_r ([] ++ row)). simpl. eapply run_cons; [done|constructor].
  - rewrite <- app_assoc. simpl. eapply run_cons; [done|]. by apply IH.
Qed.

Lemma run_strings vs vs' path bytes p ds p' :
  vs `prefix_of` vs' -> rows_run vs path bytes p ds p' -> rows_run vs' path bytes p ds p'.
Proof.
  intros Hp. induction 1; [constructor|]. econstructor; [|done].
  intros tail. by eapply expand_row_strings.
Qed.

Lemma run_expand vs path bytes p ds p' :
  rows_run vs path bytes p ds p' -> expand_loop (length bytes) vs path bytes p = Ok ds.
Proof.
  induction 1 as [p|row rest p d p1 ds p2 Hr Hrun IH]; [done|].
  specialize (Hr rest). pose proof (expand_row_shorter _ _ _ _ _ _ _ Hr) as Hs.
  destruct (row ++ rest) as [|c bs] eqn:E; [simpl in Hs; lia|]. cbn [length expand_loop].
  rewrite Hr. cbn [result_bind]. simpl in Hs.
  rewrite (expand_loop_fuel _ (length rest)) by lia. rewrite IH. done.
Qed.

(** ** The row round trip *)

Definition wf_location (l : Location) : Prop :=
  ValidString (Path l) = true /\ 0 <= StartByte l /\ StartByte l <= EndByte l /\ EndByte l < 2 ^ 63.

Definition wf_demand (d : EntityDemand) : Prop :=
  wf_location (dem_Location d) /\ match QueryLocation d with Some q => wf_location q | None => True end.

Lemma expand_demand_row t d p vs tail :
  table_ok t -> table_size t < 2 ^ 63 -> wf_demand d ->
  0 <= p <= StartByte (dem_Location d) ->
  values (snd (demand_row t d p)) `prefix_of` vs ->
  expand_row vs (Path (dem_Location d)) (fst (demand_row t d p) ++ tail) p =
  Ok (d, tail, StartByte (dem_Location d)).
Proof.
  intros Hok Hs ((_ & H1 & H2 & H3) & Hq) Hp Hpre.
  destruct (header_parts d) as (Hflags & Hhas & Hu).
  unfold demand_row in *. unfold expand_row. cbv zeta in *.
  assert (is_u64 (StartByte (dem_Location d) - p)) by (unfold is_u64; lia).
  assert (is_u64 (EndByte (dem_Location d) - StartByte (dem_Location d))) by (unfold is_u64; lia).
  rewrite !u64_i64, (u64_id (_ - p)), (u64_id (EndByte _ - _)) in * by done.
  set (row3 := append_uvarint (append_uvarint (append_uvarint [] _) _) _) in *.
  assert (forall rest, row3 ++ rest = append_uvarint [] (demand_header d) ++
    append_uvarint [] (StartByte (dem_Location d) - p) ++
    append_uvarint [] (EndByte (dem_Location d) - StartByte (dem_Location d)) ++ rest) as Hrow3
    by (intros; subst row3; unfold append_uvarint; by rewrite <- !app_assoc).
  destruct (QueryLocation d) as [q|] eqn:Eq.
  - destruct (intern t (Path q)) as [qi t'] eqn:Ei. cbn [fst snd] in *.
    destruct Hq as (Hv & Q1 & Q2 & Q3).
    pose proof (intern_index_u64 t (Path q) Hok ltac:(lia)) as Hqi.
    pose proof (intern_lookup t (Path q) vs Hok ltac:(lia)) as Hql.
    rewrite Ei in Hqi, Hql. cbn [fst snd] in *. specialize (Hql Hpre).
    rewrite (wire_text_id _ Hv) in Hql.
    assert (is_u64 (StartByte q)) by (unfold is_u64; lia).
    assert (is_u64 (EndByte q - StartByte q)) by (unfold is_u64; lia).
    rewrite (u64_i64 (EndByte q - _)), (u64_id (StartByte q)), (u64_id (EndByte q - _)) by done.
    rewrite (append_uvarint_nil row3), (append_uvarint_nil (row3 ++ _)),
      (append_uvarint_nil ((row3 ++ _) ++ _)), <- !app_assoc, Hrow3.
    rewrite take_append by done. cbn [result_bind]. rewrite take_append by done. cbn [result_bind].
    rewrite take_append by done. cbn [result_bind].
    replace (p + (StartByte (dem_Location d) - p)) with (StartByte (dem_Location d)) by lia.
    rewrite (u64_id (StartByte (dem_Location d))) by (unfold is_u64; lia).
    replace (StartByte (dem_Location d) + (EndByte (dem_Location d) - StartByte (dem_Location d)))
      with (EndByte (dem_Location d)) by lia.
    rewrite !u64_id by (unfold is_u64; lia).
    replace (_ || _) with false by (symmetry; apply orb_false_iff; split; apply Z.ltb_ge; lia).
    rewrite Hhas, bool_decide_eq_true_2 by done.
    rewrite take_append by done. cbn [result_bind]. rewrite take_append by done. cbn [result_bind].
    rewrite take_append by done. cbn [result_bind].
    replace (StartByte q + (EndByte q - StartByte q)) with (EndByte q) by lia.
    rewrite !u64_id by (unfold is_u64; lia).
    replace (EndByte q <? StartByte q) with false by (symmetry; apply Z.ltb_ge; lia).
    rewrite Hql. cbn [result_bind]. rewrite !i64_id by (unfold is_i64; lia).
    rewrite Hflags, demand_of_flags_flags, !location_eta. unfold with_query.
    by rewrite with_locations_twice, with_locations_eta.
  - cbn [fst snd] in *. rewrite Hrow3.
    rewrite take_append by done. cbn [result_bind]. rewrite take_append by done. cbn [result_bind].
    rewrite take_append by done. cbn [result_bind].
    replace (p + (StartByte (dem_Location d) - p)) with (StartByte (dem_Location d)) by lia.
    rewrite (u64_id (StartByte (dem_Location d))) by (unfold is_u64; lia).
    replace (StartByte (dem_Location d) + (EndByte (dem_Location d) - StartByte (dem_Location d)))
      with (EndByte (dem_Location d)) by lia.
    rewrite !u64_id by (unfold is_u64; lia).
    replace (_ || _) with false by (symmetry; apply orb_false_iff; split; apply Z.ltb_ge; lia).
    rewrite Hhas, bool_decide_eq_false_2 by (by intros []).
    rewrite !i64_id by (unfold is_i64; lia).
    by rewrite Hflags, demand_of_flags_flags, !location_eta, with_locations_eta.
Qed.

(** ** The frame round trip *)

Lemma expand_loop_strings n vs vs' path packed p ds :
  vs `prefix_of` vs' -> expand_loop n vs path packed p = Ok ds ->
  expand_loop n vs' path packed p = Ok ds.
Proof.
  intros Hp. revert packed p ds. induction n as [|n IH]; intros [|c packed] p ds; cbn [expand_loop]; try done.
  intros H. apply result_bind_ok in H as ([[d rest] st] & H1 & H).
  apply result_bind_ok in H as (ds' & H2 & H). simplify_eq.
  rewrite (expand_row_strings _ _ _ _ _ _ Hp H1). cbn [result_bind].
  by rewrite (IH _ _ _ H2).
Qed.

Lemma expand_groups_strings vs vs' gs ds :
  vs `prefix_of` vs' -> expand_groups vs gs = Ok ds -> expand_groups vs' gs = Ok ds.
Proof.
  intros Hp. revert ds. induction gs as [|g gs IH]; intros ds; cbn [expand_groups]; [done|].
  intros H. apply result_bind_ok in H as (path & H0 & H).
  apply result_bind_ok in H as (d1 & H1 & H). apply result_bind_ok in H as (d2 & H2 & H).
  simplify_eq. rewrite (lookup_string_prefix _ _ _ _ Hp H0). cbn [result_bind].
  rewrite (expand_loop_strings _ _ _ _ _ _ _ Hp H1). cbn [result_bind]. by rewrite (IH _ H2).
Qed.

Lemma expand_groups_app vs gs1 gs2 ds1 ds2 :
  expand_groups vs gs1 = Ok ds1 -> expand_groups vs gs2 = Ok ds2 ->
  expand_groups vs (gs1 ++ gs2) = Ok (ds1 ++ ds2).
Proof.
  revert ds1. induction gs1 as [|g gs IH]; intros ds1; cbn [expand_groups app].
  { intros; by simplify_eq. }
  intros H H'. apply result_bind_ok in H as (path & H0 & H).
  apply result_bind_ok in H as (d1 & H1 & H). apply result_bind_ok in H as (d2 & H2 & H).
  simplify_eq. rewrite H0. cbn [result_bind]. rewrite H1. cbn [result_bind].
  rewrite (IH _ H2 H'). cbn [result_bind]. by rewrite app_assoc.
Qed.

Lemma alter_last_snoc {A} (f : A -> A) l x : alter_last f (l ++ [x]) = l ++ [f x].
Proof.
  induction l as [|y l IH]; [done|]. cbn [app alter_last]. rewrite IH.
  destruct l; done.
Qed.

Lemma demand_row_table t d p :
  table_ok t -> table_size t < 2 ^ 63 ->
  table_ok (snd (demand_row t d p)) /\ values t `prefix_of` values (snd (demand_row t d p)) /\
  table_size (snd (demand_row t d p)) <= table_size t + 1.
Proof.
  intros Hok Hs. unfold demand_row. cbv zeta. destruct (QueryLocation d) as [q|]; simpl.
  - pose proof (intern_ok t (Path q) Hok ltac:(lia)). pose proof (intern_prefix t (Path q)).
    pose proof (intern_size t (Path q)). destruct (intern t (Path q)); simpl in *.
    split; [done|]. split; [done|lia].
  - split; [done|]. split; [done|lia].
Qed.

(** The open group of a state: the rows written so far, and where the next
    row's delta starts. *)
Definition open_group (vs : list string) (groups : list CompactDemandGroupV3)
    (p : Z) (path : string) (ds : list EntityDemand) : Prop :=
  exists gs g ds1 ds2, groups = gs ++ [g] /\ ds = ds1 ++ ds2 /\ expand_groups vs gs = Ok ds1 /\
    lookup_string vs (cg_Path g) = Ok path /\ rows_run vs path (cg_Demands g) 0 ds2 p.

Lemma open_group_expand vs groups p path ds :
  open_group vs groups p path ds -> expand_groups vs groups = Ok ds.
Proof.
  intros (gs & g & ds1 & ds2 & -> & -> & H1 & H2 & H3). apply expand_groups_app; [done|].
  cbn [expand_groups]. rewrite H2. cbn [result_bind]. rewrite (run_expand _ _ _ _ _ _ H3).
  cbn [result_bind]. by rewrite app_nil_r.
Qed.

Lemma open_group_strings vs vs' groups p path ds :
  vs `prefix_of` vs' -> open_group vs groups p path ds -> open_group vs' groups p path ds.
Proof.
  intros Hp (gs & g & ds1 & ds2 & -> & -> & H1 & H2 & H3). exists gs, g, ds1, ds2.
  split_and!; [done|done|by eapply expand_groups_strings|by eapply lookup_string_prefix|by eapply run_strings].
Qed.

Definition from_inv (s : from_state) (ds : list EntityDemand) : Prop :=
  table_ok (fs_strings s) /\ table_size (fs_strings s) <= 1 + 2 * Z.of_nat (length ds) /\
  0 <= fs_previousStart s /\
  ((fs_groups s = [] /\ ds = []) \/
   exists path, open_group (values (fs_strings s)) (fs_groups s) (fs_previousStart s) path ds).

Lemma open_group_row t groups p path ds d :
  table_ok t -> table_size t < 2 ^ 63 -> wf_demand d -> 0 <= p <= StartByte (dem_Location d) ->
  path = Path (dem_Location d) ->
  open_group (values t) groups p path ds ->
  let '(row, t') := demand_row t d p in
  open_group (values t')
    (alter_last (fun g => mkCompactDemandGroup (cg_Path g) (cg_Demands g ++ row)) groups)
    (StartByte (dem_Location d)) path (ds ++ [d]).
Proof.
  intros Hok Hs Hd Hp -> Hg.
  destruct (demand_row_table t d p Hok Hs) as (Hok' & Hpre & _).
  pose proof (fun tail => expand_demand_row t d p _ tail Hok Hs Hd Hp (reflexivity _)) as Hrow.
  destruct (demand_row t d p) as [row t']. simpl in *.
  apply (open_group_strings _ _ _ _ _ _ Hpre) in Hg.
  destruct Hg as (gs & g & ds1 & ds2 & -> & -> & H1 & H2 & H3). rewrite alter_last_snoc.
  exists gs, (mkCompactDemandGroup (cg_Path g) (cg_Demands g ++ row)), ds1, (ds2 ++ [d]).
  split_and!; [done|by rewrite app_assoc|done|done|]. by eapply run_snoc.
Qed.

Lemma from_step_inv s ds d :
  from_inv s ds -> wf_demand d -> Z.of_nat (length ds) < 2 ^ 60 -> from_inv (from_step s d) (ds ++ [d]).
Proof.
  intros (Hok & Hs & Hp & Hg) Hd Hl. pose proof Hd as ((Hv & H1 & H2 & H3) & _).
  unfold from_step.
  pose proof (intern_ok (fs_strings s) (Path (dem_Location d)) Hok ltac:(lia)) as Hok1.
  pose proof (intern_size (fs_strings s) (Path (dem_Location d))) as Hs1.
  pose proof (intern_prefix (fs_strings s) (Path (dem_Location d))) as Hp1.
  pose proof (intern_lookup (fs_strings s) (Path (dem_Location d)) _ Hok ltac:(lia) (reflexivity _)) as Hl1.
  destruct (intern (fs_strings s) (Path (dem_Location d))) as [i t1]. simpl in Hok1, Hs1, Hp1, Hl1.
  rewrite (wire_text_id _ Hv) in Hl1.
  set (fresh := match last (fs_groups s) with Some _ => _ | None => _ end).
  set (groups := if fresh then _ else fs_groups s).
  set (p := if fresh then 0 else fs_previousStart s).
  assert (0 <= p <= StartByte (dem_Location d) /\
    open_group (values t1) groups p (Path (dem_Location d)) ds) as [Hpr Hopen].
  { destruct fresh eqn:Ef; subst fresh groups p.
    - split; [lia|]. destruct Hg as [[-> ->]|[path Hg]].
      + exists [], (mkCompactDemandGroup i []), [], []. split_and!; [done..|constructor].
      + apply (open_group_strings _ _ _ _ _ _ Hp1) in Hg.
        exists (fs_groups s), (mkCompactDemandGroup i []), ds, [].
        split_and!; [done|by rewrite app_nil_r|by eapply open_group_expand|done|constructor].
    - destruct Hg as [[E0 _]|[path Hg]]; [by rewrite E0 in Ef|].
      apply (open_group_strings _ _ _ _ _ _ Hp1) in Hg.
      pose proof Hg as (gs & g & ds1 & ds2 & Hgs & _ & _ & Hlg & _). rewrite Hgs in Ef.
      rewrite last_snoc in Ef. apply orb_false_iff in Ef as [Ef1 Ef2].
      apply negb_false_iff, Z.eqb_eq in Ef1. apply Z.ltb_ge in Ef2. split; [lia|].
      rewrite Ef1, Hl1 in Hlg. by injection Hlg as ->. }
  pose proof (open_group_row t1 groups p _ ds d Hok1 ltac:(lia) Hd Hpr eq_refl Hopen) as Hrow.
  destruct (demand_row_table t1 d p Hok1 ltac:(lia)) as (Hok2 & _ & Hs2).
  destruct (demand_row t1 d p) as [row t2]. simpl in *.
  unfold from_inv. cbn [fs_strings fs_groups fs_previousStart]. rewrite length_app. simpl.
  split_and!; [done|lia|lia|]. right. by eexists.
Qed.

Lemma from_fold_inv ds1 ds2 s :
  from_inv s ds1 -> Forall wf_demand ds2 -> Z.of_nat (length (ds1 ++ ds2)) < 2 ^ 60 ->
  from_inv (foldl from_step s ds2) (ds1 ++ ds2).
Proof.
  revert ds1 s. induction ds2 as [|d ds2 IH]; intros ds1 s Hinv Hwf Hl; [by rewrite app_nil_r|].
  apply Forall_cons in Hwf as [Hd Hwf]. simpl. rewrite cons_middle, app_assoc in *.
  apply IH; [|done|done]. apply from_step_inv; [done|done|]. rewrite !length_app in Hl. lia.
Qed.

Lemma from_expand ds :
  Forall wf_demand ds -> Z.of_nat (length ds) < 2 ^ 60 ->
  expand_groups (Strings (CompactDemandsV3From ds)) (Groups (CompactDemandsV3From ds)) = Ok ds.
Proof.
  intros Hwf Hl.
  destruct (from_fold_inv [] ds (mkFromState newStringTableV3 [] 0)) as (_ & _ & _ & Hg); [|done|done|].
  { split_and!; [apply newStringTable_ok|done|done|by left]. }
  unfold CompactDemandsV3From. simpl in *. destruct Hg as [[-> ->]|[path Hg]]; [done|].
  by eapply open_group_expand.
Qed.

(** C35: Expanding the compact form of a demand snapshot gives the snapshot back. *)
Theorem compact_roundtrip ds :
  Forall wf_demand ds -> Z.of_nat (length ds) < 2 ^ 60 ->
  Expand (CompactDemandsV3From ds) = Ok ds.
Proof.
  intros Hwf Hl. pose proof (from_expand ds Hwf Hl) as H.
  unfold Expand, demandShape. rewrite (shape_groups_expand _ _ _ _ _ H). exact H.
Qed.

Definition sample_demand (path : string) (a b : Z) : EntityDemand :=
  with_locations (demand_of_flags 524287 (mkLocation path a b)) (mkLocation path a b) None.

Definition sample_demands : list EntityDemand :=
  [sample_demand "a.ts" 3 9; with_query (sample_demand "a.ts" 3 12) (mkLocation "b.ts" 1 4);
   sample_demand "a.ts" 2 4; sample_demand "b.ts" 300 70000].

Lemma compact_roundtrip_witness :
  Forall wf_demand sample_demands /\
  Expand (CompactDemandsV3From sample_demands) = Ok sample_demands.
Proof.
  assert (Forall wf_demand sample_demands) as H
    by (repeat constructor; simpl; try done; lia).
  split; [exact H|]. apply (compact_roundtrip sample_demands H). reflexivity.
Defined.

(** The shape pass counts exactly the rows and query locations that expansion produces, so
    the exact-capacity allocations are never exceeded and never too small. *)
Theorem demandShape_sizes compact ds :
  expand_groups (Strings compact) (Groups compact) = Ok ds ->
  demandShape compact = Ok (length ds, length (filter (fun d => is_Some (QueryLocation d)) ds)) /\
  Expand compact = Ok ds.
Proof.
  intros H. unfold Expand, demandShape. rewrite (shape_groups_expand _ _ _ _ _ H).
  unfold query_count. rewrite !Nat.add_0_r. split; [done|exact H].
Qed.

Lemma demandShape_sizes_witness :
  demandShape (CompactDemandsV3From sample_demands) = Ok (4, 1)%nat.
Proof. apply (demandShape_sizes _ sample_demands). vm_compute. reflexivity. Defined.

(** Selecting rows commutes with reading them. *)
Lemma flag_row_expand vs path packed p d rest st k :
  0 <= k < 19 -> expand_row vs path packed p = Ok (d, rest, st) ->
  flag_row vs path (Z.shiftl 1 k) packed p =
  Ok (if has_flag (demand_flags d) (Z.shiftl 1 k) then Some d else None, rest, st).
Proof.
  intros Hk. unfold expand_row, flag_row.
  do 3 (destruct (takeCompactUvarint _) as [[? ?]|]; [|done]; cbn [result_bind]).
  destruct (_ || _); [done|]. destruct (has_flag _ 1).
  - do 3 (destruct (takeCompactUvarint _) as [[? ?]|]; [|done]; cbn [result_bind]).
    destruct (_ <? _); [done|]. destruct (lookup_string _ _) as [q|]; [|done]. cbn [result_bind].
    intros; simplify_eq. rewrite demand_flags_with_query, demand_flags_of_flags by done.
    by destruct (has_flag _ _).
  - intros; simplify_eq. by rewrite demand_flags_of_flags.
Qed.

Lemma flag_loop_expand n target vs path packed p ds k :
  0 <= k < 19 -> expand_loop n vs path packed p = Ok ds ->
  flag_loop n target vs path (Z.shiftl 1 k) packed p =
  Ok (target ++ filter (fun d => has_flag (demand_flags d) (Z.shiftl 1 k) = true) ds).
Proof.
  intros Hk. revert target packed p ds.
  induction n as [|n IH]; intros target [|c packed] p ds; cbn [expand_loop flag_loop];
    try (intros; simplify_eq; by rewrite app_nil_r).
  intros H. apply result_bind_ok in H as ([[d rest] st] & H1 & H).
  apply result_bind_ok in H as (ds' & H2 & H). simplify_eq.
  rewrite (flag_row_expand _ _ _ _ _ _ _ _ Hk H1). cbn [result_bind].
  rewrite (IH _ _ _ _ H2), filter_cons.
  destruct (has_flag (demand_flags d) _); simpl; [by rewrite <- app_assoc|done].
Qed.

(** Selecting the rows with one flag straight from the packed bytes gives the rows a full
    expansion followed by a filter gives. *)
Theorem appendCompactDemandsWithFlag_filter target group strings k ds :
  0 <= k < 19 ->
  Expand (mkCompactDemands [group] strings) = Ok ds ->
  appendCompactDemandsWithFlag target group strings (Z.shiftl 1 k) =
  Ok (target ++ filter (fun d => has_flag (demand_flags d) (Z.shiftl 1 k) = true) ds).
Proof.
  intros Hk. unfold Expand, appendCompactDemandsWithFlag. intros H.
  apply result_bind_ok in H as (_ & _ & H). cbn [Groups Strings expand_groups] in H.
  apply result_bind_ok in H as (path & H0 & H). apply result_bind_ok in H as (d1 & H1 & H).
  simpl in H. simplify_eq. rewrite H0. cbn [result_bind]. rewrite app_nil_r.
  by apply flag_loop_expand.
Qed.

(** A frame with one asynchronous and one plain row. *)
Definition sample_group : list EntityDemand :=
  [sample_demand "a.ts" 3 9;
   with_locations (demand_of_flags 1 (mkLocation "a.ts" 4 5)) (mkLocation "a.ts" 4 5) None].

Lemma appendCompactDemandsWithFlag_filter_witness :
  exists group strings, CompactDemandsV3From sample_group = mkCompactDemands [group] strings /\
  appendCompactDemandsWithFlag [] group strings demandFlagAsync = Ok [sample_demand "a.ts" 3 9].
Proof.
  eexists _, _. split; [vm_compute; reflexivity|].
  apply (appendCompactDemandsWithFlag_filter [] _ _ 4 sample_group); [lia|].
  vm_compute. reflexivity.
Defined.

(** Every turn of the expansion loop consumes bytes, so the length of the packed run bounds
    the number of turns and more fuel changes nothing. *)
Theorem Expand_reads_all vs path packed p fuel :
  (length packed <= fuel)%nat ->
  expand_loop fuel vs path packed p = expand_loop (length packed) vs path packed p /\
  forall d rest st, expand_row vs path packed p = Ok (d, rest, st) -> (length rest < length packed)%nat.
Proof.
  intros Hf. split; [apply expand_loop_fuel; lia|]. intros d rest st. apply expand_row_shorter.
Qed.

Lemma Expand_reads_all_witness :
  expand_loop 100 [""; "a.ts"] "a.ts" [2; 3; 6] 0 = Ok [demand_of_flags 1 (mkLocation "a.ts" 3 9)].
Proof.
  rewrite (proj1 (Expand_reads_all [""; "a.ts"] "a.ts" [2; 3; 6] 0 100 ltac:(simpl; lia))).
  vm_compute. reflexivity.
Defined.

(** The overflow guard compares in [uint64]; the conversion to [int] after it
    can still turn a start of [2^63] into a negative offset. *)
Example expand_negative_start :
  Expand (mkCompactDemands [mkCompactDemandGroup 1 (append_uvarint (append_uvarint [0] (2 ^ 63)) 1)]
            [""; "a.ts"]) =
  Ok [demand_of_flags 0 (mkLocation "a.ts" (- 2 ^ 63) (- 2 ^ 63 + 1))].
Proof. vm_compute. reflexivity. Qed.
