(* ===== verification/DemandGroup.v ===== *)
(** * Demand runs

    One file's demands: [demandGroup] of [semantic_retained.go] with its lazy
    expansion, and the canonical form of a run, [canonicalDemandRun] of
    [semantic_demand.go]. A pointer to a retained contribution is an address
    ([positive]) of the contribution heap of [Contributions.v]. *)

From S2P Require Import Prelude GoStd GoText StringTable Model CompactDemands.
Open Scope Z_scope.

Record demandGroup := mkDemandGroup {
  dg_path : string;
  dg_demands : option (list EntityDemand);
  dg_compact : CompactDemandGroupV3;
  dg_strings : option (list string);
  dg_hash : Z;
  dg_contribution : option positive;
}.
#[export] Instance demandGroup_eq_dec : EqDecision demandGroup.
Proof. solve_decision. Defined.

(** [demandGroup{path: path, demands: demands}]. *)
Definition plain_group (path : string) (demands : list EntityDemand) : demandGroup :=
  mkDemandGroup path (Some demands) (mkCompactDemandGroup 0 []) None 0 None.

(** [demandGroup{path, compact: group, strings}]. *)
Definition compact_group (path : string) (group : CompactDemandGroupV3) (strings : list string) :
    demandGroup :=
  mkDemandGroup path None group (Some strings) 0 None.

Definition set_demands (g : demandGroup) (ds : option (list EntityDemand)) : demandGroup :=
  mkDemandGroup (dg_path g) ds (dg_compact g) (dg_strings g) (dg_hash g) (dg_contribution g).

(** [g.strings != nil]. *)
Definition isCompact (g : demandGroup) : bool :=
  match dg_strings g with Some _ => true | None => false end.

Definition clean_location (l : Location) : Location := with_path l (Clean (Path l)).

(** The row rewritten by [canonicalizeDemandRun]. *)
Definition canonicalize_demand (path : string) (d : EntityDemand) : EntityDemand :=
  with_locations d (with_path (dem_Location d) path) (clean_location <$> QueryLocation d).

Definition canonicalizeDemandRun (path : string) (demands : list EntityDemand) : list EntityDemand :=
  map (canonicalize_demand path) demands.

Definition ensureExpanded (g : demandGroup) : result demandGroup :=
  match dg_demands g, dg_strings g with
  | Some _, _ | None, None => Ok g
  | None, Some strings =>
      let? demands := Expand (mkCompactDemands [dg_compact g] strings) in
      Ok (set_demands g (Some (canonicalizeDemandRun (dg_path g) demands)))
  end.

Definition releaseExpanded (g : demandGroup) : demandGroup :=
  if isCompact g then set_demands g None else g.

Definition appendAsyncDemands (g : demandGroup) (target : list EntityDemand) :
    result (list EntityDemand) :=
  match dg_strings g with
  | None => Ok (target ++ filter (fun d => dem_Async d = true) (default [] (dg_demands g)))
  | Some strings =>
      let start := length target in
      let? result := appendCompactDemandsWithFlag target (dg_compact g) strings demandFlagAsync in
      Ok (take start result ++ canonicalizeDemandRun (dg_path g) (drop start result))
  end.

(** ** The canonical order of a run *)

(** Whether a row's paths must be rewritten. *)
Definition needs_copy (path : string) (d : EntityDemand) : bool :=
  (negb (String.eqb (Path (dem_Location d)) path) &&
   negb (String.eqb (Clean (Path (dem_Location d))) (Path (dem_Location d)))) ||
  match QueryLocation d with
  | None => false
  | Some q => negb (String.eqb (Path q) path) && negb (String.eqb (Clean (Path q)) (Path q))
  end.

(** [previous] precedes [current] in the run's order. *)
Definition out_of_order (previous current : Location) : bool :=
  (StartByte current <? StartByte previous) ||
  ((StartByte previous =? StartByte current) && (EndByte current <? EndByte previous)).

(** The scan: [copyRequired] and [ordered]. *)
Fixpoint scan_run (path : string) (previous : option Location) (demands : list EntityDemand)
    (copyRequired ordered : bool) : bool * bool :=
  match demands with
  | [] => (copyRequired, ordered)
  | d :: demands' =>
      let copyRequired := copyRequired || needs_copy path d in
      let ordered :=
        match previous with
        | None => ordered
        | Some p => if out_of_order p (dem_Location d) then false else ordered
        end in
      scan_run path (Some (dem_Location d)) demands' copyRequired ordered
  end.

Definition clean_demand (d : EntityDemand) : EntityDemand :=
  with_locations d (clean_location (dem_Location d)) (clean_location <$> QueryLocation d).

Definition demand_less (i j : EntityDemand) : bool :=
  let left := dem_Location i in
  let right := dem_Location j in
  if negb (StartByte left =? StartByte right)
  then StartByte left <? StartByte right
  else EndByte left <? EndByte right.

Definition canonicalDemandRun (path : string) (demands : list EntityDemand) : list EntityDemand :=
  let '(copyRequired, ordered) := scan_run path None demands false true in
  if negb copyRequired && ordered then demands
  else
    let canonical := map clean_demand demands in
    if negb ordered then sort_slice demand_less canonical else canonical.

(** ** Facts *)

Lemma clean_location_id l : clean (Path l) = true -> clean_location l = l.
Proof. intros H%clean_true. unfold clean_location, with_path. rewrite H. by destruct l. Qed.

Lemma clean_location_twice l : clean_location (clean_location l) = clean_location l.
Proof. unfold clean_location, with_path. simpl. by rewrite Clean_idempotent. Qed.

Lemma demand_less_out d1 d2 : demand_less d2 d1 = out_of_order (dem_Location d1) (dem_Location d2).
Proof.
  unfold demand_less, out_of_order. rewrite (Z.eqb_sym (StartByte (dem_Location d1))).
  destruct (StartByte (dem_Location d2) =? StartByte (dem_Location d1)) eqn:E; simpl.
  - apply Z.eqb_eq in E. rewrite E, Z.ltb_irrefl. done.
  - by rewrite orb_false_r.
Qed.

Lemma scan_run_false path previous ds c : snd (scan_run path previous ds c false) = false.
Proof.
  revert previous c. induction ds as [|d ds IH]; intros previous c; [done|]. simpl.
  destruct previous as [p|]; [destruct (out_of_order p _)|]; apply IH.
Qed.

Lemma scan_run_true_copy path previous ds o : fst (scan_run path previous ds true o) = true.
Proof. revert previous o. induction ds as [|d ds IH]; intros previous o; [done|]. apply IH. Qed.

Lemma scan_run_copy path previous ds o :
  fst (scan_run path previous ds false o) = false -> Forall (fun d => needs_copy path d = false) ds.
Proof.
  revert previous o. induction ds as [|d ds IH]; intros previous o; simpl; [constructor|].
  destruct (needs_copy path d) eqn:E; [by rewrite scan_run_true_copy|].
  intros H. constructor; [done|]. by eapply IH.
Qed.

Lemma scan_run_ordered path previous ds c :
  snd (scan_run path previous ds c true) = true ->
  Sorted (not_after demand_less) ds /\
  match previous, ds with
  | Some p, d :: _ => out_of_order p (dem_Location d) = false
  | _, _ => True
  end.
Proof.
  revert previous c. induction ds as [|d ds IH]; intros previous c; simpl.
  { intros _. split; [constructor|by destruct previous]. }
  intros H. destruct previous as [p|].
  - destruct (out_of_order p (dem_Location d)) eqn:E; [by rewrite scan_run_false in H|].
    destruct (IH _ _ H) as [H1 H2]. split; [|done]. constructor; [done|].
    destruct ds as [|d' ds]; constructor. unfold not_after. by rewrite demand_less_out.
  - destruct (IH _ _ H) as [H1 H2]. split; [|done]. constructor; [done|].
    destruct ds as [|d' ds]; constructor. unfold not_after. by rewrite demand_less_out.
Qed.

Lemma demand_less_spec d1 d2 :
  demand_less d1 d2 = true <->
  StartByte (dem_Location d1) < StartByte (dem_Location d2) \/
  (StartByte (dem_Location d1) = StartByte (dem_Location d2) /\
   EndByte (dem_Location d1) < EndByte (dem_Location d2)).
Proof.
  unfold demand_less.
  destruct (Z.eqb_spec (StartByte (dem_Location d1)) (StartByte (dem_Location d2))); simpl;
    rewrite Z.ltb_lt; lia.
Qed.

Lemma not_after_demand d1 d2 :
  not_after demand_less d1 d2 <->
  StartByte (dem_Location d1) < StartByte (dem_Location d2) \/
  (StartByte (dem_Location d1) = StartByte (dem_Location d2) /\
   EndByte (dem_Location d1) <= EndByte (dem_Location d2)).
Proof.
  unfold not_after. rewrite <- not_true_iff_false, demand_less_spec. lia.
Qed.

Lemma not_after_demand_trans d1 d2 d3 :
  not_after demand_less d1 d2 -> not_after demand_less d2 d3 -> not_after demand_less d1 d3.
Proof. rewrite !not_after_demand. lia. Qed.

Lemma demand_less_asym d1 d2 : demand_less d1 d2 = true -> demand_less d2 d1 = false.
Proof. rewrite <- not_true_iff_false, !demand_less_spec. lia. Qed.

Lemma demand_less_clean d1 d2 : demand_less (clean_demand d1) (clean_demand d2) = demand_less d1 d2.
Proof. done. Qed.

Lemma sorted_clean ds :
  StronglySorted (not_after demand_less) ds ->
  StronglySorted (not_after demand_less) (map clean_demand ds).
Proof.
  induction 1 as [|d ds Hs IH Hd]; simpl; constructor; [done|].
  rewrite Forall_map. exact Hd.
Qed.

(** On a clean path a row that needs no copy is already clean. *)
Lemma needs_copy_clean path d :
  clean path = true -> needs_copy path d = false -> clean_demand d = d.
Proof.
  intros Hp Hn. unfold needs_copy in Hn. apply orb_false_iff in Hn as [H1 H2].
  assert (forall l, negb (String.eqb (Path l) path) && negb (String.eqb (Clean (Path l)) (Path l)) = false ->
    clean_location l = l) as Hl.
  { intros l H. apply clean_location_id. unfold clean.
    destruct (String.eqb_spec (Path l) path) as [->|]; [exact Hp|]. simpl in H.
    by apply negb_false_iff in H. }
  unfold clean_demand. apply with_locations_eta; [by rewrite Hl|].
  destruct (QueryLocation d) as [q|]; [|done]. simpl. by rewrite Hl.
Qed.

(** The run's value whatever branch is taken: the cleaned rows in order. *)
Lemma canonicalDemandRun_value path ds :
  clean path = true -> canonicalDemandRun path ds = sort_slice demand_less (map clean_demand ds).
Proof.
  intros Hp. unfold canonicalDemandRun.
  destruct (scan_run path None ds false true) as [copy ordered] eqn:E.
  assert (copy = false -> map clean_demand ds = ds) as Hcopy.
  { intros ->. pose proof (scan_run_copy path None ds true) as H. rewrite E in H.
    specialize (H eq_refl). clear E. induction H as [|d ds Hd _ IH]; [done|].
    simpl. by rewrite IH, (needs_copy_clean path). }
  assert (ordered = true -> StronglySorted (not_after demand_less) ds) as Hord.
  { intros ->. pose proof (scan_run_ordered path None ds false) as H. rewrite E in H.
    destruct (H eq_refl) as [H1 _]. apply Sorted_StronglySorted; [|done].
    intros ???. apply not_after_demand_trans. }
  destruct ordered; simpl; [|by rewrite andb_false_r].
  rewrite (sort_slice_id _ (map clean_demand ds)) by (by apply sorted_clean, Hord).
  destruct copy; simpl; [done|]. symmetry. by apply Hcopy.
Qed.

(** A canonical run is ordered by start and end byte, is a stable permutation of the
    cleaned rows, and is a fixed point of the canonicalisation. *)
Theorem canonicalDemandRun_canonical path ds :
  clean path = true ->
  let r := canonicalDemandRun path ds in
  StronglySorted (not_after demand_less) r /\
  r ≡ₚ map clean_demand ds /\
  (forall a b, filter (fun d => StartByte (dem_Location d) = a /\ EndByte (dem_Location d) = b) r =
     filter (fun d => StartByte (dem_Location d) = a /\ EndByte (dem_Location d) = b) (map clean_demand ds)) /\
  canonicalDemandRun path r = r.
Proof.
  intros Hp r.
  assert (StronglySorted (not_after demand_less) r) as Hs.
  { subst r. rewrite canonicalDemandRun_value by done.
    apply sort_slice_sorted; [apply not_after_demand_trans|apply demand_less_asym]. }
  assert (r ≡ₚ map clean_demand ds) as Hperm
    by (subst r; rewrite canonicalDemandRun_value by done; apply sort_slice_perm).
  split; [done|]. split; [done|]. split.
  - intros a b. subst r. rewrite canonicalDemandRun_value by done. apply sort_slice_stable.
    intros x y [Hx1 Hx2] [Hy1 Hy2]. apply not_true_iff_false. rewrite demand_less_spec. lia.
  - rewrite canonicalDemandRun_value by done.
    assert (map clean_demand r = r) as ->; [|by apply sort_slice_id].
    rewrite <- (map_id r) at 2. apply map_ext_in. intros d Hd%list_elem_of_In.
    rewrite Hperm in Hd. apply list_elem_of_In, in_map_iff in Hd as (d' & <- & _).
    unfold clean_demand. simpl. rewrite with_locations_twice, clean_location_twice.
    destruct (QueryLocation d'); simpl; by rewrite ?clean_location_twice.
Qed.

Lemma canonicalDemandRun_canonical_witness :
  clean "a.ts" = true /\
  canonicalDemandRun "a.ts" (canonicalDemandRun "a.ts" [sample_demand "./a.ts" 5 6; sample_demand "a.ts" 1 2]) =
  canonicalDemandRun "a.ts" [sample_demand "./a.ts" 5 6; sample_demand "a.ts" 1 2].
Proof.
  assert (clean "a.ts" = true) as H by reflexivity. split; [exact H|].
  exact (proj2 (proj2 (proj2 (canonicalDemandRun_canonical "a.ts" _ H)))).
Defined.

(** Reading the async demands of a lazy compact run gives the async rows of the run it
    would expand to. *)
Theorem appendAsyncDemands_expanded g target g' :
  dg_demands g = None \/ dg_strings g = None ->
  ensureExpanded g = Ok g' ->
  appendAsyncDemands g target =
  Ok (target ++ filter (fun d => dem_Async d = true) (default [] (dg_demands g'))).
Proof.
  intros Hlazy. unfold ensureExpanded, appendAsyncDemands.
  destruct (dg_strings g) as [strings|] eqn:Es.
  - destruct Hlazy as [Hd|]; [|done]. rewrite Hd. intros H.
    apply result_bind_ok in H as (ds & H1 & H). simplify_eq. simpl.
    unfold Expand in H1. apply result_bind_ok in H1 as (_ & _ & H1).
    cbn [Groups Strings expand_groups] in H1. apply result_bind_ok in H1 as (path & H2 & H1).
    apply result_bind_ok in H1 as (d1 & H3 & H1). simpl in H1. simplify_eq.
    unfold appendCompactDemandsWithFlag. rewrite H2. cbn [result_bind].
    unfold demandFlagAsync. rewrite (flag_loop_expand _ _ _ _ _ _ _ 4 ltac:(lia) H3).
    cbn [result_bind]. rewrite take_app_length, drop_app_length, app_nil_r. do 2 f_equal.
    assert (Hfl : forall d, has_flag (demand_flags d) (Z.shiftl 1 4) = dem_Async d)
      by (intros d; flag_bits).
    clear H3. induction d1 as [|d ds IH]; [done|]. unfold canonicalizeDemandRun in *. simpl.
    rewrite !filter_cons. rewrite Hfl.
    change (dem_Async (canonicalize_demand (dg_path g) d)) with (dem_Async d).
    destruct (decide (dem_Async d = true)); simpl; by rewrite IH.
  - intros H. by assert (g' = g) as -> by (destruct (dg_demands g); by injection H as ->).
Qed.

Lemma appendAsyncDemands_expanded_witness :
  exists group strings g', CompactDemandsV3From sample_group = mkCompactDemands [group] strings /\
  ensureExpanded (compact_group "a.ts" group strings) = Ok g' /\
  appendAsyncDemands (compact_group "a.ts" group strings) [] = Ok [sample_demand "a.ts" 3 9].
Proof.
  eexists _, _, _. split; [vm_compute; reflexivity|]. split; [vm_compute; reflexivity|].
  erewrite appendAsyncDemands_expanded; [|left; reflexivity|vm_compute; reflexivity].
  vm_compute. reflexivity.
Defined.
