(* ===== verification/SessionDemands.v ===== *)
(** * The retained demand set

    [session_demands.go]: the session-owned, path-ordered demand runs and the
    transaction that edits them with an undo log. The store's scratch slices
    are reused backing arrays, always taken at length zero, and carry no
    content, so the state is the list of groups. A transaction points to its
    store: its operations take and return both. *)

From S2P Require Import Prelude GoStd GoText SortedPaths StringTable Model CompactDemands DemandGroup.

Record DemandGroup := mkDemandGroup_ {
  dgr_Path : string;
  dgr_Demands : list EntityDemand;
}.

Record retainedDemandStore := mkDemandStore { groups : list demandGroup }.

Inductive demandUndo :=
| demandUndoReplace (index : nat) (previous : demandGroup)
| demandUndoInsert (index : nat)
| demandUndoRemove (index : nat) (previous : demandGroup).

Record retainedDemandTransaction := mkDemandTransaction {
  undo : list demandUndo;
  changedPaths : list string;
  changedRuns : list demandGroup;
  resetOld : list demandGroup;
  tx_reset : bool;
  finished : bool;
}.

Definition set_undo (t : retainedDemandTransaction) (u : list demandUndo) : retainedDemandTransaction :=
  mkDemandTransaction u (changedPaths t) (changedRuns t) (resetOld t) (tx_reset t) (finished t).

(** ** Editing one run *)

Definition search_group (gs : list demandGroup) (path : string) : nat := search_key dg_path gs path.

Definition replace (st : retainedDemandStore * retainedDemandTransaction) (group : demandGroup) :
    retainedDemandStore * retainedDemandTransaction :=
  let '(store, t) := st in
  let gs := groups store in
  let index := search_group gs (dg_path group) in
  match gs !! index with
  | Some previous =>
      if String.eqb (dg_path previous) (dg_path group) then
        (mkDemandStore (<[index := group]> gs),
         set_undo t (undo t ++ [demandUndoReplace index previous]))
      else
        (mkDemandStore (slice_insert index group gs),
         set_undo t (undo t ++ [demandUndoInsert index]))
  | None =>
      (mkDemandStore (slice_insert index group gs),
       set_undo t (undo t ++ [demandUndoInsert index]))
  end.

Definition remove (st : retainedDemandStore * retainedDemandTransaction) (path : string) :
    retainedDemandStore * retainedDemandTransaction :=
  let '(store, t) := st in
  let gs := groups store in
  let index := search_group gs path in
  match gs !! index with
  | None => (store, t)
  | Some previous =>
      if negb (String.eqb (dg_path previous) path) then (store, t)
      else
        (mkDemandStore (slice_remove index gs),
         set_undo t (undo t ++ [demandUndoRemove index previous]))
  end.

(** ** Beginning a transaction *)

Definition beginRuns (s : retainedDemandStore) (changedRuns : list demandGroup)
    (removed : list string) (reset : bool) : retainedDemandStore * retainedDemandTransaction :=
  let changedPaths := compactSortedPaths (sort_Strings (map dg_path changedRuns ++ map Clean removed)) in
  let transaction :=
    mkDemandTransaction [] changedPaths changedRuns (if reset then groups s else []) reset false in
  let store := if reset then mkDemandStore [] else s in
  let st := foldl replace (store, transaction) changedRuns in
  foldl remove st (map Clean removed).

(** The contiguous run at the head of [changes] and what follows it. *)
Fixpoint take_run (path : string) (changes : list EntityDemand) : list EntityDemand * list EntityDemand :=
  match changes with
  | d :: changes' =>
      if String.eqb (Clean (Path (dem_Location d))) path
      then let '(run, rest) := take_run path changes' in (d :: run, rest)
      else ([], changes)
  | [] => ([], [])
  end.

(** The borrowing scan; [None] once a path is out of order. Each turn takes at
    least one demand, so the number of demands is enough fuel. *)
Fixpoint borrow_runs (fuel : nat) (changes : list EntityDemand) (scratch : list DemandGroup) :
    option (list DemandGroup) :=
  match changes, fuel with
  | [], _ => Some scratch
  | _, O => None
  | d :: changes', S fuel' =>
      let path := Clean (Path (dem_Location d)) in
      let '(run, rest) := take_run path changes' in
      let stale :=
        match last scratch with Some g => negb (String.ltb (dgr_Path g) path) | None => false end in
      if stale then None
      else borrow_runs fuel' rest (scratch ++ [mkDemandGroup_ path (d :: run)])
  end.

Definition group_demand (grouped : gmap string (list EntityDemand)) (d : EntityDemand) :
    gmap string (list EntityDemand) :=
  let path := Clean (Path (dem_Location d)) in
  <[path := default [] (grouped !! path) ++ [d]]> grouped.

Definition sessionChangedDemandRuns `{MR : !MapRange} (changes : list EntityDemand) : list DemandGroup :=
  match borrow_runs (length changes) changes [] with
  | Some scratch => scratch
  | None =>
      let grouped := foldl group_demand ∅ changes in
      let paths := sort_Strings (map fst (range_map grouped)) in
      map (fun path => mkDemandGroup_ path (default [] (grouped !! path))) paths
  end.

Definition begin `{MR : !MapRange} (s : retainedDemandStore) (changes : list EntityDemand) (removed : list string)
    (reset : bool) : retainedDemandStore * retainedDemandTransaction :=
  let plainRuns := sessionChangedDemandRuns changes in
  let changedRuns :=
    map (fun run =>
           let path := Clean (dgr_Path run) in
           plain_group path (canonicalDemandRun path (dgr_Demands run))) plainRuns in
  beginRuns s changedRuns removed reset.

Fixpoint compact_runs (strings : list string) (gs : list CompactDemandGroupV3) : result (list demandGroup) :=
  match gs with
  | [] => Ok []
  | group :: gs' =>
      let? path := lookup_string strings (cg_Path group) in
      let? _ := demandShape (mkCompactDemands [group] strings) in
      let? rest := compact_runs strings gs' in
      Ok (compact_group (Clean path) group strings :: rest)
  end.

(** [changedRuns[index-1].path == changedRuns[index].path] for some index. *)
Fixpoint adjacent_duplicate (runs : list demandGroup) : bool :=
  match runs with
  | g1 :: (g2 :: _) as rest => String.eqb (dg_path g1) (dg_path g2) || adjacent_duplicate rest
  | _ => false
  end.

Definition beginCompact (s : retainedDemandStore) (compact : CompactDemandsV3) (removed : list string)
    (reset : bool) : result (retainedDemandStore * retainedDemandTransaction) :=
  let? changedRuns := compact_runs (Strings compact) (Groups compact) in
  let changedRuns := sort_slice (key_less dg_path) changedRuns in
  if adjacent_duplicate changedRuns
  then Err (ErrText "compact demand groups name a path twice; each path may appear once")
  else Ok (beginRuns s changedRuns removed reset).

(** ** Ending a transaction *)

Definition finish (st : retainedDemandStore * retainedDemandTransaction) :
    retainedDemandStore * retainedDemandTransaction :=
  let '(store, t) := st in
  if finished t then (store, t)
  else (store, mkDemandTransaction [] [] [] [] (tx_reset t) true).

Definition commit := finish.

Definition undo_step (gs : list demandGroup) (u : demandUndo) : list demandGroup :=
  match u with
  | demandUndoReplace index previous => <[index := previous]> gs
  | demandUndoInsert index => slice_remove index gs
  | demandUndoRemove index previous => slice_insert index previous gs
  end.

Definition rollback (st : retainedDemandStore * retainedDemandTransaction) :
    retainedDemandStore * retainedDemandTransaction :=
  let '(store, t) := st in
  if finished t then (store, t)
  else if tx_reset t then finish (mkDemandStore (resetOld t), t)
  else finish (mkDemandStore (foldl undo_step (groups store) (rev (undo t))), t).

(** [at]: the run of a path, expanded in place. *)
Definition at_path (s : retainedDemandStore) (path : string) :
    retainedDemandStore * option (list EntityDemand) :=
  let path := Clean path in
  let index := search_group (groups s) path in
  match groups s !! index with
  | None => (s, None)
  | Some g =>
      if negb (String.eqb (dg_path g) path) then (s, None)
      else match ensureExpanded g with
           | Err _ => (s, None)
           | Ok g' => (mkDemandStore (<[index := g']> (groups s)), dg_demands g')
           end
  end.

(** ** The store as a map *)

Lemma search_key_le {A} (key : A -> string) l p : (search_key key l p <= length l)%nat.
Proof. apply (search_loop_range (length l) _ 0 (length l)). lia. Qed.

Definition runs_ok (s : retainedDemandStore) : Prop := keys_sorted dg_path (groups s).

(** Replaying [t]'s undo log on the groups gives [gs0]. *)
Definition undoes (st : retainedDemandStore * retainedDemandTransaction) (gs0 : list demandGroup) : Prop :=
  foldl undo_step (groups st.1) (rev (undo st.2)) = gs0.

(** What no edit of a run touches. *)
Definition same_frame (t t' : retainedDemandTransaction) : Prop :=
  changedPaths t' = changedPaths t /\ changedRuns t' = changedRuns t /\
  resetOld t' = resetOld t /\ tx_reset t' = tx_reset t /\ finished t' = finished t.

Lemma undoes_push s t s' u gs0 :
  undo_step (groups s') u = groups s -> undoes (s, t) gs0 ->
  undoes (s', set_undo t (undo t ++ [u])) gs0.
Proof. unfold undoes. simpl. intros Hu. rewrite rev_app_distr. simpl. by rewrite Hu. Qed.

Lemma replace_undoes st g gs0 :
  undoes st gs0 -> undoes (replace st g) gs0 /\ same_frame st.2 (replace st g).2.
Proof.
  destruct st as [s t]. intros H. unfold replace.
  pose proof (search_key_le dg_path (groups s) (dg_path g)) as Hle.
  fold (search_group (groups s) (dg_path g)) in Hle.
  destruct (groups s !! search_group (groups s) (dg_path g)) as [previous|] eqn:E;
    [destruct (String.eqb _ _)|]; (split; [apply undoes_push with s; [simpl|done]|done]).
  - by rewrite list_insert_insert_eq, list_insert_id.
  - by apply slice_remove_insert.
  - by apply slice_remove_insert.
Qed.

Lemma remove_undoes st p gs0 :
  undoes st gs0 -> undoes (remove st p) gs0 /\ same_frame st.2 (remove st p).2.
Proof.
  destruct st as [s t]. intros H. unfold remove.
  destruct (groups s !! search_group (groups s) p) as [previous|] eqn:E; [|done].
  destruct (negb _); [done|]. split; [|done]. apply undoes_push with s; [simpl|done].
  by apply slice_insert_remove.
Qed.

Lemma fold_undoes {B} (step : retainedDemandStore * retainedDemandTransaction -> B -> _) l st gs0 :
  (forall st b, undoes st gs0 -> undoes (step st b) gs0 /\ same_frame st.2 (step st b).2) ->
  undoes st gs0 -> undoes (foldl step st l) gs0 /\ same_frame st.2 (foldl step st l).2.
Proof.
  intros Hstep. revert st. induction l as [|b l IH]; intros st H; [done|]. simpl.
  destruct (Hstep st b H) as [H1 F1]. destruct (IH _ H1) as [H2 F2]. split; [done|].
  unfold same_frame in *. naive_solver congruence.
Qed.

Lemma beginRuns_undoes s runs removed reset :
  let st := beginRuns s runs removed reset in
  undoes st (if reset then [] else groups s) /\
  changedPaths st.2 = compactSortedPaths (sort_Strings (map dg_path runs ++ map Clean removed)) /\
  changedRuns st.2 = runs /\ resetOld st.2 = (if reset then groups s else []) /\
  tx_reset st.2 = reset /\ finished st.2 = false.
Proof.
  simpl. unfold beginRuns.
  set (t0 := mkDemandTransaction _ _ _ _ _ _). set (s0 := if reset then _ else s).
  set (gs0 := if reset then [] else groups s).
  assert (undoes (s0, t0) gs0) as H0 by (by unfold s0, gs0; destruct reset).
  destruct (fold_undoes replace runs (s0, t0) gs0 (fun st b => replace_undoes st b gs0) H0) as [H1 F1].
  destruct (fold_undoes remove (map Clean removed) _ gs0 (fun st b => remove_undoes st b gs0) H1) as [H2 F2].
  split; [done|]. unfold same_frame in *. naive_solver congruence.
Qed.

Lemma rollback_beginRuns_eq s runs removed reset :
  (rollback (beginRuns s runs removed reset)).1 = s.
Proof.
  pose proof (beginRuns_undoes s runs removed reset) as (Hu & _ & _ & Ho & Hr & Hf).
  destruct (beginRuns s runs removed reset) as [s' t]. simpl in *. unfold rollback, finish.
  rewrite Hf, Hr. destruct reset; simpl.
  - rewrite Ho. by destruct s.
  - unfold undoes in Hu. simpl in Hu. rewrite Hu. by destruct s.
Qed.

(** C34: Rolling back a demand transaction, begun from a plain or a compact request, with or
    without a reset, gives back exactly the store it was begun on, and a rollback after a commit
    changes nothing. *)
Theorem rollback_restores `{MR : !MapRange} s changes removed reset runs :
  (rollback (begin s changes removed reset)).1 = s /\
  (rollback (beginRuns s runs removed reset)).1 = s /\
  (forall compact st, beginCompact s compact removed reset = Ok st -> (rollback st).1 = s) /\
  rollback (commit (beginRuns s runs removed reset)) = commit (beginRuns s runs removed reset).
Proof.
  split; [apply rollback_beginRuns_eq|]. split; [apply rollback_beginRuns_eq|]. split.
  - intros compact st. unfold beginCompact. intros (? & _ & H)%result_bind_ok.
    destruct (adjacent_duplicate _); [done|]. simplify_eq. apply rollback_beginRuns_eq.
  - pose proof (beginRuns_undoes s runs removed reset) as (_ & _ & _ & _ & _ & Hf).
    destruct (beginRuns s runs removed reset) as [s' t]. simpl in Hf.
    unfold commit, finish, rollback. by rewrite Hf.
Qed.

(** One edit of strictly ordered runs is one edit of the map they denote. *)
Lemma find_key_app_mid {A} (key : A -> string) l1 x l2 p :
  keys_sorted key (l1 ++ x :: l2) ->
  find_key key (l1 ++ x :: l2) p = if String.eqb (key x) p then Some x else find_key key (l1 ++ l2) p.
Proof.
  intros Hs. assert (keys_sorted key (l1 ++ l2)) as Hs'.
  { apply keys_sorted_app in Hs as (H1 & H2 & H3). apply keys_sorted_cons in H2 as [H2 _].
    apply keys_sorted_app. split; [done|]. split; [done|]. intros a b Ha Hb.
    apply H3; [done|by right]. }
  destruct (String.eqb_spec (key x) p) as [E|E].
  - apply find_key_spec; [done|]. split; [set_solver|done].
  - destruct (find_key key (l1 ++ l2) p) as [y|] eqn:F.
    + apply find_key_spec in F as [Hy Hk]; [|done]. apply find_key_spec; [done|]. set_solver.
    + apply find_key_None in F; [|done]. apply find_key_None; [done|].
      rewrite fmap_app, fmap_cons in *. set_solver.
Qed.

Lemma replace_find st g p :
  runs_ok st.1 ->
  runs_ok (replace st g).1 /\
  find_key dg_path (groups (replace st g).1) p =
  (if String.eqb (dg_path g) p then Some g else find_key dg_path (groups st.1) p).
Proof.
  destruct st as [s t]. unfold runs_ok. simpl. intros Hs.
  destruct (search_key_split dg_path (groups s) (dg_path g) Hs) as (l1 & l2 & Hl & Hlen & H1 & H2).
  fold (search_group (groups s) (dg_path g)) in Hlen. rewrite Forall_forall in H1.
  assert (forall l, keys_sorted dg_path l -> Forall (fun x => slt (dg_path g) (dg_path x)) l ->
    (forall x y, x ∈ l1 -> y ∈ l -> slt (dg_path x) (dg_path y)) ->
    keys_sorted dg_path (l1 ++ g :: l)) as Hins.
  { intros l Hk Hg Hlt. rewrite Hl in Hs. apply keys_sorted_app in Hs as (Hs & _ & _).
    apply keys_sorted_app. rewrite keys_sorted_cons. split; [done|]. split; [done|].
    intros x y Hx [->|Hy]%elem_of_cons; auto. }
  assert (runs_ok (mkDemandStore (l1 ++ g :: l2)) -> replace (s, t) g =
      (mkDemandStore (slice_insert (length l1) g (groups s)),
       set_undo t (undo t ++ [demandUndoInsert (length l1)])) ->
    runs_ok (replace (s, t) g).1 /\ find_key dg_path (groups (replace (s, t) g).1) p =
    (if String.eqb (dg_path g) p then Some g else find_key dg_path (groups s) p)) as Hinsert.
  { intros Hk ->. simpl. rewrite Hl, slice_insert_split. split; [done|]. by apply find_key_app_mid. }
  unfold replace in *. rewrite <- Hlen in *. rewrite Hl in Hs.
  apply keys_sorted_app in Hs as Hs'. destruct Hs' as (Hs1 & Hs2 & Hs12).
  rewrite Hl in *. rewrite lookup_app_r, Nat.sub_diag in * by lia.
  destruct l2 as [|y l2]; simpl in *.
  { apply Hinsert; [|done]. by apply Hins. }
  apply Forall_cons in H2 as [Hgy H2]. apply keys_sorted_cons in Hs2 as [Hs2 Hy].
  destruct (String.eqb_spec (dg_path y) (dg_path g)) as [E|E].
  - simpl. replace (length l1) with (length l1 + 0)%nat by lia. rewrite insert_app_r. simpl.
    assert (keys_sorted dg_path (l1 ++ g :: l2)) as Hk.
    { apply Hins; [done|by rewrite <- E|]. intros a b Ha Hb. apply Hs12; [done|by right]. }
    split; [done|]. rewrite !find_key_app_mid by done. rewrite E. by destruct (String.eqb _ _).
  - assert (slt (dg_path g) (dg_path y)) as Hlt by (apply sle_lt_eq in Hgy as [|]; [done|congruence]).
    apply Hinsert; [|done]. apply Hins; [by apply keys_sorted_cons| |done].
    constructor; [done|]. eapply Forall_impl; [exact Hy|]. intros z Hz. by transitivity (dg_path y).
Qed.

Lemma remove_find st path p :
  runs_ok st.1 ->
  runs_ok (remove st path).1 /\
  find_key dg_path (groups (remove st path).1) p =
  (if String.eqb path p then None else find_key dg_path (groups st.1) p).
Proof.
  destruct st as [s t]. unfold runs_ok. simpl. intros Hs.
  pose proof (find_key_None dg_path (groups s) path Hs) as Hnone. unfold find_key in Hnone.
  unfold remove, search_group.
  destruct (search_key_split dg_path (groups s) path Hs) as (l1 & l2 & Hl & Hlen & H1 & H2).
  destruct (groups s !! search_key dg_path (groups s) path) as [y|] eqn:E; simpl;
    [destruct (String.eqb_spec (dg_path y) path) as [Ey|Ey]; simpl|].
  - rewrite <- Hlen in *. rewrite Hl, lookup_app_r, Nat.sub_diag in E by lia.
    destruct l2 as [|z l2]; [done|]. simpl in E. simplify_eq. rewrite Hl, slice_remove_split.
    rewrite Hl in Hs. pose proof Hs as Hs'.
    apply keys_sorted_app in Hs' as (Hs1 & [Hs2 Hy]%keys_sorted_cons & Hs12).
    assert (keys_sorted dg_path (l1 ++ l2)) as Hk.
    { apply keys_sorted_app. split; [done|]. split; [done|]. intros a b Ha Hb. apply Hs12; [done|by right]. }
    split; [done|]. rewrite find_key_app_mid by done.
    destruct (String.eqb_spec (dg_path y) p) as [<-|]; [|done].
    apply find_key_None; [done|]. apply keys_sorted_NoDup in Hs. rewrite fmap_app, fmap_cons in *.
    apply NoDup_app in Hs as (_ & Hd & Hn). apply NoDup_cons in Hn as [Hn _].
    rewrite elem_of_app. intros [Hin|Hin]; [|done]. apply (Hd _ Hin). left.
  - split; [done|]. destruct (String.eqb_spec path p) as [<-|]; [|done].
    by apply find_key_None, Hnone.
  - split; [done|]. destruct (String.eqb_spec path p) as [<-|]; [|done].
    by apply find_key_None, Hnone.
Qed.

(** The run [l] leaves for a path: the last one that names it. *)
Definition last_run (l : list demandGroup) (p : string) : option demandGroup :=
  last (filter (fun g => dg_path g = p) l).

Lemma replaces_find l st p :
  runs_ok st.1 ->
  runs_ok (foldl replace st l).1 /\
  find_key dg_path (groups (foldl replace st l).1) p =
  match last_run l p with Some g => Some g | None => find_key dg_path (groups st.1) p end.
Proof.
  revert st. induction l as [|g l IH] using rev_ind; intros st Hs; [done|].
  rewrite foldl_app. simpl. destruct (IH _ Hs) as [H1 F1].
  destruct (replace_find (foldl replace st l) g p H1) as [H2 F2]. split; [done|].
  rewrite F2, F1. unfold last_run. rewrite filter_app, filter_cons, filter_nil.
  destruct (String.eqb_spec (dg_path g) p) as [E|E].
  - rewrite decide_True by done. by rewrite last_snoc.
  - rewrite decide_False by done. by rewrite app_nil_r.
Qed.

Lemma removes_find l st p :
  runs_ok st.1 ->
  runs_ok (foldl remove st l).1 /\
  find_key dg_path (groups (foldl remove st l).1) p =
  if decide (p ∈ l) then None else find_key dg_path (groups st.1) p.
Proof.
  revert st. induction l as [|q l IH] using rev_ind; intros st Hs; [done|].
  rewrite foldl_app. simpl. destruct (IH _ Hs) as [H1 F1].
  destruct (remove_find (foldl remove st l) q p H1) as [H2 F2]. split; [done|].
  rewrite F2, F1. destruct (String.eqb_spec q p) as [->|E].
  - rewrite decide_True by set_solver. done.
  - destruct (decide (p ∈ l)); [by rewrite decide_True by set_solver|].
    rewrite decide_False; [done|set_solver].
Qed.

Lemma beginRuns_find s runs removed reset p :
  runs_ok s ->
  let st := beginRuns s runs removed reset in
  runs_ok st.1 /\
  find_key dg_path (groups st.1) p =
  if decide (p ∈ map Clean removed) then None
  else match last_run runs p with
       | Some g => Some g
       | None => if reset then None else find_key dg_path (groups s) p
       end.
Proof.
  intros Hs. simpl. unfold beginRuns. set (t0 := mkDemandTransaction _ _ _ _ _ _).
  assert (runs_ok (if reset then mkDemandStore [] else s)) as H0
    by (destruct reset; [apply keys_sorted_nil|done]).
  destruct (replaces_find runs (if reset then mkDemandStore [] else s, t0) p H0) as [H1 F1].
  destruct (removes_find (map Clean removed) _ p H1) as [H2 F2]. split; [done|].
  rewrite F2, F1. destruct (decide _); [done|]. destruct (last_run runs p); [done|].
  by destruct reset.
Qed.

(** Beginning a transaction on strictly path-ordered runs keeps them strictly ordered; a
    removed path has no run, a changed one has the last run given for it, any other its old run
    (none after a reset); the changed paths are exactly the edited ones, sorted once each. *)
Theorem beginRuns_edits s runs removed reset p :
  keys_sorted dg_path (groups s) ->
  let st := beginRuns s runs removed reset in
  keys_sorted dg_path (groups st.1) /\
  find_key dg_path (groups st.1) p =
  (if decide (p ∈ map Clean removed) then None
   else match last (filter (fun g => dg_path g = p) runs) with
        | Some g => Some g
        | None => if reset then None else find_key dg_path (groups s) p
        end) /\
  keys_sorted id (changedPaths st.2) /\
  (p ∈ changedPaths st.2 <-> p ∈ map dg_path runs \/ p ∈ map Clean removed) /\
  (p ∉ changedPaths st.2 -> reset = false ->
     find_key dg_path (groups st.1) p = find_key dg_path (groups s) p).
Proof.
  intros Hs. simpl. destruct (beginRuns_find s runs removed reset p Hs) as [H1 H2].
  pose proof (beginRuns_undoes s runs removed reset) as (_ & Hc & _).
  destruct (compact_sorted_spec (map dg_path runs ++ map Clean removed)) as [Hk He].
  rewrite Hc. split; [done|]. split; [exact H2|]. split; [done|].
  split; [by rewrite He, elem_of_app|]. rewrite He, elem_of_app. intros Hn ->.
  rewrite H2. rewrite decide_False by tauto. unfold last_run.
  rewrite filter_none; [done|]. apply Forall_forall. intros g Hg Hp. apply Hn. left.
  apply list_elem_of_fmap. eauto.
Qed.

Definition run_at (p : string) (a : Z) : demandGroup :=
  plain_group p [sample_demand p a (a + 1)].

Lemma beginRuns_edits_witness :
  find_key dg_path
    (groups (beginRuns (mkDemandStore [run_at "a" 1; run_at "c" 2]) [run_at "b" 3; run_at "c" 4] ["./a"] false).1)
    "c" = Some (run_at "c" 4).
Proof.
  assert (keys_sorted dg_path [run_at "a" 1; run_at "c" 2]) as Hs
    by (repeat constructor).
  destruct (beginRuns_edits (mkDemandStore [run_at "a" 1; run_at "c" 2])
    [run_at "b" 3; run_at "c" 4] ["./a"] false "c" Hs) as (_ & H & _).
  rewrite H. vm_compute. reflexivity.
Defined.

(** ** Grouping a plain request *)

Definition demand_path (d : EntityDemand) : string := Clean (Path (dem_Location d)).

Definition demands_of (changes : list EntityDemand) (p : string) : list EntityDemand :=
  filter (fun d => demand_path d = p) changes.

(** The reference grouping. *)
Definition grouped_runs (changes : list EntityDemand) : list DemandGroup :=
  map (fun p => mkDemandGroup_ p (demands_of changes p))
      (sortUniqueWireTransitionPaths (map demand_path changes)).

Lemma take_run_spec p changes :
  let '(run, rest) := take_run p changes in
  changes = run ++ rest /\ Forall (fun d => demand_path d = p) run.
Proof.
  induction changes as [|d changes IH]; [done|]. simpl.
  destruct (String.eqb_spec (Clean (Path (dem_Location d))) p) as [E|E]; [|done].
  destruct (take_run p changes) as [run rest]. destruct IH as [-> IH]. split; [done|].
  by constructor.
Qed.

Lemma demands_of_app l1 l2 p : demands_of (l1 ++ l2) p = demands_of l1 p ++ demands_of l2 p.
Proof. apply filter_app. Qed.

Lemma demands_of_all l p : Forall (fun d => demand_path d = p) l -> demands_of l p = l.
Proof. apply filter_all. Qed.

Lemma demands_of_none l p : Forall (fun d => demand_path d <> p) l -> demands_of l p = [].
Proof. apply filter_none. Qed.

(** The runs scanned so far, against what they were scanned from. *)
Definition scanned (done : list EntityDemand) (runs : list DemandGroup) : Prop :=
  keys_sorted dgr_Path runs /\
  runs = map (fun p => mkDemandGroup_ p (demands_of done p)) (map dgr_Path runs) /\
  (forall p, p ∈ map dgr_Path runs <-> p ∈ map demand_path done).

Lemma scanned_grouped changes runs : scanned changes runs -> runs = grouped_runs changes.
Proof.
  intros (Hs & Hr & He). unfold grouped_runs. rewrite Hr at 1. f_equal.
  destruct (sortUnique_spec (map demand_path changes)) as [Hk Hin].
  apply (keys_sorted_unique id); [|done|].
  - unfold keys_sorted. rewrite list_fmap_id. exact Hs.
  - intros x. by rewrite Hin.
Qed.

Lemma keys_sorted_snoc_last {A} (key : A -> string) l x :
  keys_sorted key l -> match last l with Some y => slt (key y) (key x) | None => True end ->
  forall y, y ∈ l -> slt (key y) (key x).
Proof.
  destruct l as [|z l] using rev_ind; [intros _ _ y Hy; by apply not_elem_of_nil in Hy|].
  rewrite last_snoc. intros (_ & _ & Hlt)%keys_sorted_app Hz y [Hy|Hy]%elem_of_app.
  - transitivity (key z); [apply Hlt; set_solver|done].
  - apply list_elem_of_singleton in Hy. by subst.
Qed.

Lemma scanned_snoc done runs run p :
  scanned done runs -> run <> [] -> Forall (fun d => demand_path d = p) run ->
  (forall g, g ∈ runs -> slt (dgr_Path g) p) ->
  scanned (done ++ run) (runs ++ [mkDemandGroup_ p run]).
Proof.
  intros (Hs & Hr & He) Hne Hrun Hlt. unfold scanned. rewrite !map_app. simpl.
  assert (p ∉ map demand_path done) as Hp.
  { rewrite <- He. intros (g & -> & Hg)%list_elem_of_fmap. by apply (slt_irrefl _ (Hlt g Hg)). }
  split; [|split].
  - apply keys_sorted_app. split; [done|]. split; [repeat constructor|].
    intros x y Hx ->%list_elem_of_singleton. by apply Hlt.
  - f_equal.
    + rewrite Hr at 1. apply list_fmap_ext. intros i q Hq. f_equal. rewrite demands_of_app.
      rewrite (demands_of_none run), app_nil_r; [done|].
      eapply Forall_impl; [exact Hrun|]. intros d Hd. simpl in Hd. rewrite Hd. intros ->.
      apply list_elem_of_lookup_2 in Hq. by apply He in Hq.
    + f_equal. f_equal. rewrite demands_of_app, (demands_of_all run) by done.
      rewrite demands_of_none; [done|]. apply Forall_forall. intros d Hd E. apply Hp.
      apply list_elem_of_fmap. eauto.
  - intros q. rewrite !elem_of_app, He, list_elem_of_singleton.
    assert (q ∈ map demand_path run <-> q = p) as ->; [|done].
    rewrite Forall_forall in Hrun. rewrite list_elem_of_fmap. split.
    + intros (d & -> & Hd). auto.
    + intros ->. destruct run as [|d run]; [done|]. exists d. split; [|left].
      symmetry. apply Hrun. left.
Qed.

Lemma borrow_runs_scanned fuel changes done scratch runs :
  scanned done scratch -> borrow_runs fuel changes scratch = Some runs ->
  scanned (done ++ changes) runs.
Proof.
  revert changes done scratch. induction fuel as [|fuel IH]; intros [|d changes] done scratch Hs; simpl;
    try (intros; simplify_eq; by rewrite app_nil_r).
  pose proof (take_run_spec (demand_path d) changes) as Ht. fold (demand_path d).
  destruct (take_run (demand_path d) changes) as [run rest]. destruct Ht as [-> Hrun].
  set (p := demand_path d) in *.
  assert (scanned done scratch -> match last scratch with Some g => slt (dgr_Path g) p | None => True end ->
    scanned (done ++ d :: run) (scratch ++ [mkDemandGroup_ p (d :: run)])) as Hsnoc.
  { intros _ Hlast. apply scanned_snoc; [done|done|by constructor|].
    apply (keys_sorted_snoc_last dgr_Path _ (mkDemandGroup_ p [])); [apply Hs|done]. }
  intros H. replace (done ++ d :: run ++ rest) with ((done ++ d :: run) ++ rest)
    by (by rewrite <- app_assoc).
  destruct (last scratch) as [g|].
  - destruct (String.ltb (dgr_Path g) p) eqn:E; simpl in H; [|done]. eapply IH; [|exact H]. by apply Hsnoc.
  - eapply IH; [|exact H]. by apply Hsnoc.
Qed.

Lemma group_demand_lookup changes p :
  (foldl group_demand ∅ changes : gmap string (list EntityDemand)) !! p =
  (if decide (p ∈ map demand_path changes) then Some (demands_of changes p) else None).
Proof.
  induction changes as [|d changes IH] using rev_ind; [done|].
  rewrite foldl_app. simpl. unfold group_demand at 1. rewrite map_app, demands_of_app.
  fold (demand_path d). simpl. unfold demands_of at 2. rewrite filter_cons, filter_nil.
  destruct (decide (demand_path d = p)) as [Ep|Ep].
  - rewrite Ep, lookup_insert_eq, IH. rewrite (decide_True (P := p ∈ _ ++ _)) by set_solver.
    destruct (decide _) as [|Hn]; [done|]. simpl. rewrite demands_of_none; [done|].
    apply Forall_forall. intros e He E. apply Hn. apply list_elem_of_fmap. eauto.
  - rewrite lookup_insert_ne by done. rewrite IH, app_nil_r.
    destruct (decide (p ∈ map demand_path changes)).
    + by rewrite decide_True by set_solver.
    + rewrite decide_False; [done|]. set_solver.
Qed.

Lemma sort_Strings_NoDup l : NoDup l -> keys_sorted id (sort_Strings l).
Proof. intros H. apply (sort_slice_keys_sorted id). by rewrite list_fmap_id. Qed.

Lemma sessionChangedDemandRuns_eq `{MR : !MapRange} changes : sessionChangedDemandRuns changes = grouped_runs changes.
Proof.
  unfold sessionChangedDemandRuns. destruct (borrow_runs _ changes []) as [runs|] eqn:E.
  - apply scanned_grouped. apply (borrow_runs_scanned _ changes []) in E; [done|].
    split; [apply keys_sorted_nil|]. done.
  - set (grouped := foldl group_demand ∅ changes). unfold grouped_runs.
    assert (sort_Strings (map fst (range_map grouped)) =
      sortUniqueWireTransitionPaths (map demand_path changes)) as ->.
    { destruct (sortUnique_spec (map demand_path changes)) as [Hk Hin].
      apply (keys_sorted_unique id); [|done|].
      - apply sort_Strings_NoDup, range_map_NoDup.
      - intros p. rewrite sort_Strings_elem, Hin.
        rewrite list_elem_of_fmap. split.
        + intros ([q ds] & -> & Hq). apply range_map_elem in Hq. unfold grouped in Hq.
          rewrite group_demand_lookup in Hq. simpl. by destruct (decide _).
        + intros Hp. exists (p, demands_of changes p). split; [done|].
          apply range_map_elem. unfold grouped. rewrite group_demand_lookup.
          by rewrite decide_True. }
    apply list_fmap_ext. intros i p Hp. f_equal. unfold grouped. rewrite group_demand_lookup.
    rewrite decide_True; [done|]. apply list_elem_of_lookup_2 in Hp. by apply (proj1 (proj2 (sortUnique_spec _) _)) in Hp.
Qed.

(** On both of its branches, borrowing contiguous runs and grouping through a map,
    sessionChangedDemandRuns is the reference grouping: each cleaned path once, in order, with
    its demands in request order. *)
Theorem sessionChangedDemandRuns_grouped `{MR : !MapRange} changes :
  sessionChangedDemandRuns changes =
  map (fun p => mkDemandGroup_ p (filter (fun d => Clean (Path (dem_Location d)) = p) changes))
      (sortUniqueWireTransitionPaths (map (fun d => Clean (Path (dem_Location d))) changes)).
Proof. exact (sessionChangedDemandRuns_eq changes). Qed.

(** ** Reading a run back *)

Lemma at_path_find s q g :
  runs_ok s -> find_key dg_path (groups s) (Clean q) = Some g ->
  (at_path s q).2 = match ensureExpanded g with Ok g' => dg_demands g' | Err _ => None end.
Proof.
  intros Hs. unfold find_key, at_path, search_group.
  destruct (groups s !! _) as [x|]; [|done]. destruct (String.eqb_spec (dg_path x) (Clean q)); [|done].
  simpl. intros ?. simplify_eq. by destruct (ensureExpanded g).
Qed.

Lemma grouped_paths changes : map dgr_Path (grouped_runs changes) = sortUniqueWireTransitionPaths (map demand_path changes).
Proof. unfold grouped_runs. rewrite map_map. apply map_id. Qed.

Definition canonical_groups (runs : list DemandGroup) : list demandGroup :=
  map (fun run => let path := Clean (dgr_Path run) in
                  plain_group path (canonicalDemandRun path (dgr_Demands run))) runs.

Lemma canonical_groups_last runs p :
  keys_sorted dgr_Path runs -> Forall (fun r => Clean (dgr_Path r) = dgr_Path r) runs ->
  forall r, r ∈ runs -> dgr_Path r = p ->
  last_run (canonical_groups runs) p = Some (plain_group p (canonicalDemandRun p (dgr_Demands r))).
Proof.
  unfold last_run, canonical_groups. induction runs as [|x runs IH]; intros Hs Hc r Hr Hp;
    [by apply not_elem_of_nil in Hr|].
  apply keys_sorted_cons in Hs as [Hs Hx]. apply Forall_cons in Hc as [Hcx Hc].
  simpl. rewrite filter_cons. simpl. apply elem_of_cons in Hr as [<-|Hr].
  - rewrite Hcx, Hp, decide_True by done. rewrite filter_none; [done|].
    apply Forall_fmap, Forall_forall. intros y Hy E. simpl in E.
    rewrite Forall_forall in Hx, Hc. specialize (Hx y Hy). rewrite (Hc y Hy), <- Hp in E.
    rewrite E in Hx. by apply slt_irrefl in Hx.
  - rewrite decide_False; [by apply (IH Hs Hc r)|]. rewrite Hcx. intros E.
    rewrite Forall_forall in Hx. specialize (Hx r Hr). rewrite E, Hp in Hx. by apply slt_irrefl in Hx.
Qed.

(** After begin, reading a changed path gives the canonical run of exactly the demands the
    request made for it. *)
Theorem begin_at `{MR : !MapRange} s changes removed reset q :
  keys_sorted dg_path (groups s) ->
  Clean q ∈ map demand_path changes -> Clean q ∉ map Clean removed ->
  (at_path (begin s changes removed reset).1 q).2 =
  Some (canonicalDemandRun (Clean q) (filter (fun d => Clean (Path (dem_Location d)) = Clean q) changes)).
Proof.
  intros Hs Hin Hout.
  assert (grouped_runs changes = sessionChangedDemandRuns changes) as Hg by (symmetry; apply sessionChangedDemandRuns_eq).
  set (p := Clean q) in *.
  destruct (beginRuns_find s (canonical_groups (sessionChangedDemandRuns changes)) removed reset p Hs) as [H1 H2].
  change (beginRuns s (canonical_groups (sessionChangedDemandRuns changes)) removed reset)
    with (begin s changes removed reset) in *.
  rewrite decide_False in H2 by done.
  rewrite (canonical_groups_last _ p) with (r := mkDemandGroup_ p (demands_of changes p)) in H2.
  - rewrite (at_path_find _ _ _ H1 H2). reflexivity.
  - rewrite <- Hg. unfold keys_sorted. change (dgr_Path <$> grouped_runs changes) with (map dgr_Path (grouped_runs changes)).
    rewrite grouped_paths. destruct (sortUnique_spec (map demand_path changes)) as [Hk _].
    unfold keys_sorted in Hk. by rewrite list_fmap_id in Hk.
  - rewrite <- Hg. apply Forall_fmap, Forall_forall. intros x Hx. simpl.
    apply (proj1 (proj2 (sortUnique_spec _) _)) in Hx. apply list_elem_of_fmap in Hx as (d & -> & _).
    apply Clean_idempotent.
  - rewrite <- Hg. apply list_elem_of_fmap. exists p. split; [done|].
    apply (proj2 (proj2 (sortUnique_spec _) _)). done.
  - done.
Qed.

Lemma begin_at_witness :
  (at_path (begin (mkDemandStore []) [sample_demand "b" 7 8; sample_demand "a" 3 4; sample_demand "./b" 1 2] ["c"] false).1 "b").2
  = Some [sample_demand "b" 1 2; sample_demand "b" 7 8].
Proof.
  assert (Clean "b" ∈ map demand_path [sample_demand "b" 7 8; sample_demand "a" 3 4; sample_demand "./b" 1 2]) as H1
    by (vm_compute; left).
  assert (Clean "b" ∉ map Clean ["c"]) as H2
    by (vm_compute; intros [|H]%elem_of_cons; [congruence|by apply not_elem_of_nil in H]).
  rewrite (begin_at (mkDemandStore []) [sample_demand "b" 7 8; sample_demand "a" 3 4; sample_demand "./b" 1 2] ["c"] false "b"
    (keys_sorted_nil _) H1 H2).
  vm_compute. reflexivity.
Defined.

Lemma adjacent_duplicate_NoDup l :
  StronglySorted (fun a b => sle (dg_path a) (dg_path b)) l ->
  adjacent_duplicate l = false <-> NoDup (dg_path <$> l).
Proof.
  induction 1 as [|x l Hl IH Hx]; [split; [constructor|done]|]. destruct l as [|y l].
  { simpl. split; [intros _; repeat constructor; by apply not_elem_of_nil|done]. }
  change (adjacent_duplicate (x :: y :: l)) with
    (String.eqb (dg_path x) (dg_path y) || adjacent_duplicate (y :: l)).
  rewrite orb_false_iff, IH, String.eqb_neq. rewrite (fmap_cons _ x), (NoDup_cons (dg_path x)).
  split; [|intros [Hn Hd]; split; [|done]; intros E; apply Hn; rewrite E; left].
  intros [Hne Hd]. split; [|done]. intros (z & Hz & Hin)%list_elem_of_fmap.
  apply elem_of_cons in Hin as [->|Hin]; [done|].
  rewrite Forall_forall in Hx. apply Hne.
  assert (sle (dg_path x) (dg_path y)) as Hxy by (apply Hx; left).
  assert (sle (dg_path y) (dg_path x)) as Hyx.
  { apply StronglySorted_inv in Hl as [_ Hy]. rewrite Forall_forall in Hy. rewrite Hz. by apply Hy. }
  by apply (anti_symm sle).
Qed.

(** beginCompact begins the sorted runs of the request exactly when no two groups name one
    cleaned path, and fails otherwise. *)
Theorem beginCompact_spec s compact removed reset runs :
  compact_runs (Strings compact) (Groups compact) = Ok runs ->
  let sorted := sort_slice (key_less dg_path) runs in
  sorted ≡ₚ runs /\
  (NoDup (map dg_path runs) ->
     keys_sorted dg_path sorted /\ beginCompact s compact removed reset = Ok (beginRuns s sorted removed reset)) /\
  (~ NoDup (map dg_path runs) -> is_ok (beginCompact s compact removed reset) = false).
Proof.
  intros H. simpl. split; [apply sort_slice_perm|]. unfold beginCompact. rewrite H. cbn [result_bind].
  assert (adjacent_duplicate (sort_slice (key_less dg_path) runs) = false <-> NoDup (dg_path <$> runs)) as Hd.
  { rewrite adjacent_duplicate_NoDup by apply sort_slice_key_sorted. by rewrite sort_slice_perm. }
  split; intros Hn.
  - split; [by apply sort_slice_keys_sorted|]. by rewrite (proj2 Hd Hn).
  - destruct (adjacent_duplicate _); [done|]. destruct Hn. by apply Hd.
Qed.

Lemma beginCompact_spec_witness :
  is_ok (beginCompact (mkDemandStore [])
    (mkCompactDemands [mkCompactDemandGroup 1 []; mkCompactDemandGroup 2 []] [""; "a"; "./a"]) [] false) = false.
Proof.
  apply (beginCompact_spec (mkDemandStore [])
    (mkCompactDemands [mkCompactDemandGroup 1 []; mkCompactDemandGroup 2 []] [""; "a"; "./a"]) [] false
    [compact_group "a" (mkCompactDemandGroup 1 []) [""; "a"; "./a"];
     compact_group "a" (mkCompactDemandGroup 2 []) [""; "a"; "./a"]]).
  - vm_compute. reflexivity.
  - vm_compute. intros [H _]%NoDup_cons. apply H. left.
Defined.
