(* ===== verification/Modules.v ===== *)
(** * The resolved module graph's data

    The answer of a modules operation: [ModuleInventory] of [typefacts.go] and
    what it is made of. The closure and the session hand it through. *)

From S2P Require Import Prelude Model.

Definition ModuleFormat := string.
Definition ModuleFormatUnknown : ModuleFormat := "".
Definition ModuleFormatCommonJS : ModuleFormat := "commonjs".
Definition ModuleFormatESM : ModuleFormat := "esm".
Definition ModuleFormatPreserve : ModuleFormat := "preserve".

Record ProjectReferenceMapping := mkProjectReferenceMapping {
  prm_Source : string;
  OutputDts : string;
}.

Record ModuleFact := mkModuleFact {
  mod_Path : string;
  DeclarationFile : bool;
  Format : ModuleFormat;
  ProjectReference : option ProjectReferenceMapping;
  RedirectTargets : list string;
}.

Definition ModuleResolution := string.
Definition ModuleResolutionUnresolved : ModuleResolution := "unresolved".
Definition ModuleResolutionRelative : ModuleResolution := "relative".
Definition ModuleResolutionNodeModules : ModuleResolution := "nodeModules".
Definition ModuleResolutionNonRelative : ModuleResolution := "nonRelative".

Record PackageIdentity := mkPackageIdentity {
  ManifestPath : string;
  pkg_Name : string;
  pkg_Version : string;
}.

Record ResolverPackageID := mkResolverPackageID {
  rp_Name : string;
  Subpath : string;
  rp_Version : string;
  PeerDependencies : string;
}.

Record ModuleImportFact := mkModuleImportFact {
  Specifier : Location;
  imp_Text : string;
  Resolution : ModuleResolution;
  ResolvedPath : string;
  IncludedPath : string;
  SymlinkPath : string;
  Extension : string;
  TSExtension : bool;
  PathsPattern : string;
  Package : option PackageIdentity;
  ResolverPackage : option ResolverPackageID;
}.

Record ModuleInventoryDemand := mkModuleInventoryDemand {
  mid_Imports : bool;
  ImportPaths : list string;
  Packages : bool;
}.

Record ModuleInventory := mkModuleInventory {
  Modules : list ModuleFact;
  Imports : list ModuleImportFact;
  UnknownImportPaths : list string;
}.

(** [var demand ModuleInventoryDemand]. *)
Definition empty_module_demand : ModuleInventoryDemand := mkModuleInventoryDemand false [] false.
