(* ===== verification/Proc.v ===== *)
(** * Stateful procedures that may fail

    A Go method on a mutable receiver that returns [(value, error)]: it leaves
    a state whether it succeeds or not. [wp] gives a procedure's weakest
    precondition, with one condition for every way out with an error. *)

From S2P Require Import Prelude.

Definition proc (S A : Type) : Type := S -> S * result A.

Section Proc.
Context {S : Type}.

Definition p_ret {A} (a : A) : proc S A := fun s => (s, Ok a).
Definition p_fail {A} (e : error) : proc S A := fun s => (s, Err e).
Definition p_lift {A} (r : result A) : proc S A := fun s => (s, r).
Definition p_bind {A B} (m : proc S A) (k : A -> proc S B) : proc S B := fun s =>
  let '(s', r) := m s in match r with Ok a => k a s' | Err e => (s', Err e) end.
Definition p_get : proc S S := fun s => (s, Ok s).
Definition p_modify (f : S -> S) : proc S unit := fun s => (f s, Ok tt).

(** [for _, x := range l] with loop variables. *)
Fixpoint p_fold {A St} (f : A -> St -> proc S St) (l : list A) (st : St) : proc S St :=
  match l with
  | [] => p_ret st
  | x :: l' => p_bind (f x st) (p_fold f l')
  end.

(** A step on one part of the state. *)
Definition p_zoom {T A} (get : S -> T) (put : S -> T -> S) (m : proc T A) : proc S A := fun s =>
  let '(t, r) := m (get s) in (put s t, r).

(** [defer]: [f] runs on every way out. *)
Definition p_defer {A} (f : S -> S) (m : proc S A) : proc S A := fun s => let '(s', r) := m s in (f s', r).

(** ** Weakest preconditions *)

Definition wp {A} (E : S -> Prop) (m : proc S A) (Q : A -> S -> Prop) (s : S) : Prop :=
  let '(s', r) := m s in match r with Ok a => Q a s' | Err _ => E s' end.

Lemma wp_ret {A} E (a : A) Q s : Q a s -> wp E (p_ret a) Q s.
Proof. done. Qed.
Lemma wp_fail {A} E e (Q : A -> S -> Prop) s : E s -> wp E (p_fail e) Q s.
Proof. done. Qed.
Lemma wp_lift {A} E (r : result A) Q s :
  match r with Ok a => Q a s | Err _ => E s end -> wp E (p_lift r) Q s.
Proof. done. Qed.
Lemma wp_get E Q s : Q s s -> wp E p_get Q s.
Proof. done. Qed.
Lemma wp_modify E f Q s : Q tt (f s) -> wp E (p_modify f) Q s.
Proof. done. Qed.

Lemma wp_bind {A B} E (m : proc S A) (k : A -> proc S B) Q s :
  wp E m (fun a => wp E (k a) Q) s -> wp E (p_bind m k) Q s.
Proof. unfold wp, p_bind. destruct (m s) as [s' [a|e]]; done. Qed.

Lemma wp_defer {A} (E : S -> Prop) f (m : proc S A) Q s :
  wp (fun s' => E (f s')) m (fun a s' => Q a (f s')) s -> wp E (p_defer f m) Q s.
Proof. unfold wp, p_defer. destruct (m s) as [s' [a|e]]; done. Qed.

Lemma wp_mono {A} (E E' : S -> Prop) (m : proc S A) (Q Q' : A -> S -> Prop) s :
  (forall s, E s -> E' s) -> (forall a s, Q a s -> Q' a s) -> wp E m Q s -> wp E' m Q' s.
Proof. unfold wp. destruct (m s) as [s' [a|e]]; auto. Qed.

(** A loop invariant that knows how far the loop has come. *)
Lemma wp_fold {A St} (E : S -> Prop) (f : A -> St -> proc S St) (I : list A -> list A -> St -> S -> Prop) l st s Q :
  (forall done x rest st s, I done (x :: rest) st s -> wp E (f x st) (I (done ++ [x]) rest) s) ->
  I [] l st s -> (forall st s, I l [] st s -> Q st s) -> wp E (p_fold f l st) Q s.
Proof.
  intros Hstep Hinit Hend.
  assert (forall rest done st s, l = done ++ rest -> I done rest st s -> wp E (p_fold f rest st) Q s) as H.
  { induction rest as [|x rest IH]; intros done st' s' Hl HI; simpl.
    - rewrite app_nil_r in Hl. subst. by apply Hend.
    - apply wp_bind. eapply wp_mono; [done| |by apply Hstep]. intros st'' s'' HI'. eapply IH; [|done].
      by rewrite <- app_assoc. }
  by apply (H l []).
Qed.
End Proc.

Declare Scope proc_scope.
Delimit Scope proc_scope with proc.
Notation "'do!' x ':=' m 'in' k" := (p_bind m (fun x => k))
  (at level 10, x pattern, m at level 200, k at level 200) : proc_scope.
Notation "m ';!' k" := (p_bind m (fun _ => k)) (at level 100, k at level 200, right associativity) : proc_scope.
Open Scope proc_scope.

#[export] Hint Resolve wp_ret wp_fail wp_get wp_modify : facts.
