(* ===== verification/Contributions.v ===== *)
(** * Retained contributions

    [retained_contributions.go]: one file's share of the demand closure, merged
    from an aligned result in the arena the result came in, and the seeds it
    keeps when its expanded rows move to the client. *)

From S2P Require Import Prelude GoStd GoText SortedPaths Model Domain.
Open Scope Z_scope.

Record retainedDescriptor := mkRetainedDescriptor {
  rdc_symbol : SymbolID;
  rdc_descriptor : TypeDescriptor;
}.

(** [entities] is nil once the rows are released. *)
Record retainedContribution := mkContribution {
  demandHash : Z;
  c_entities : option (list EntityFact);
  fullTier : list Z;
  roots : list SymbolID;
  fullTierSymbols : list SymbolID;
  descriptors : list retainedDescriptor;
  structural : list SymbolID;
  dependencies : list string;
  descriptorSymbols : list SymbolID;
  durable : bool;
  seedsPrepared : bool;
}.

(** ** Transport seeds *)

Definition nonempty_symbol (id : SymbolID) : list SymbolID := if String.eqb id "" then [] else [id].

(** The symbols an entity row reaches. *)
Definition entity_roots (entity : EntityFact) : list SymbolID :=
  nonempty_symbol (ef_Symbol entity) ++
  match ResolvedCall entity with
  | None => []
  | Some call =>
      nonempty_symbol (call_Target call) ++
      match Targets call with
      | None => []
      | Some targets => concat (map (fun c => nonempty_symbol (rd_Symbol c)) (Candidates targets))
      end
  end.

Definition entity_descriptor (entity : EntityFact) : list retainedDescriptor :=
  match ef_TypeDescriptor entity with
  | Some d => if String.eqb (ef_Symbol entity) "" then [] else [mkRetainedDescriptor (ef_Symbol entity) d]
  | None => []
  end.

(** [c.entities[entityIndex].Symbol], when it is not empty. *)
Definition full_tier_symbol (entities : list EntityFact) (index : Z) : list SymbolID :=
  match entities !! Z.to_nat index with Some e => nonempty_symbol (ef_Symbol e) | None => [] end.

Definition prepareTransportSeeds (c : retainedContribution) : retainedContribution :=
  match c_entities c with
  | None => c
  | Some entities =>
      if seedsPrepared c then c
      else
        mkContribution (demandHash c) (c_entities c) (fullTier c)
          (roots c ++ concat (map entity_roots entities))
          (fullTierSymbols c ++ concat (map (full_tier_symbol entities) (fullTier c)))
          (descriptors c ++ concat (map entity_descriptor entities))
          (structural c) (dependencies c) (descriptorSymbols c) (durable c) true
  end.

Definition releaseTransportRows (c : retainedContribution) : retainedContribution :=
  match c_entities c with
  | None => c
  | Some _ =>
      let c := prepareTransportSeeds c in
      mkContribution (demandHash c) None [] (roots c) (fullTierSymbols c) (descriptors c) (structural c)
        (dependencies c) (descriptorSymbols c) (durable c) (seedsPrepared c)
  end.

(** ** Dependency paths *)

Fixpoint dependency_loop (owner : string) (previous : option string) (paths : list string) : result unit :=
  match paths with
  | [] => Ok tt
  | path :: paths' =>
      if String.eqb path "" || negb (String.eqb (Clean path) path)
      then Err (ErrText "semantic dependency path is not clean and non-empty")
      else if String.eqb path owner then Err (ErrText "semantic dependency paths include owner")
      else if (match previous with Some p => negb (String.ltb p path) | None => false end)
      then Err (ErrText "semantic dependency paths are not strictly ordered")
      else dependency_loop owner (Some path) paths'
  end.

Definition validateCanonicalDependencyPaths (owner : string) (paths : list string) : result unit :=
  if String.eqb owner "" || negb (String.eqb (Clean owner) owner)
  then Err (ErrText "semantic dependency owner is not clean and non-empty")
  else dependency_loop owner None paths.

(** ** Merging a run *)

(** [if value != absent { target.Field = value }]. *)
Definition take_string (value target : string) : string := if String.eqb value "" then target else value.
Definition take_option {A} (value target : option A) : option A :=
  match value with Some _ => value | None => target end.

Definition merge_entity (target entity : EntityFact) : EntityFact := {|
  ef_Location := ef_Location target;
  ef_Symbol := take_string (ef_Symbol entity) (ef_Symbol target);
  SymbolUnresolved :=
    if negb (String.eqb (ef_Symbol entity) "") then false
    else if SymbolUnresolved entity && String.eqb (ef_Symbol target) "" then true
    else SymbolUnresolved target;
  ef_TypeDescriptor := take_option (ef_TypeDescriptor entity) (ef_TypeDescriptor target);
  ResolvedCall := take_option (ResolvedCall entity) (ResolvedCall target);
  ef_Callability := take_string (ef_Callability entity) (ef_Callability target);
  ef_RuntimeValueDomain := take_option (ef_RuntimeValueDomain entity) (ef_RuntimeValueDomain target);
  ef_PrimitiveValueDomain :=
    if IsPresent (ef_PrimitiveValueDomain entity) then ef_PrimitiveValueDomain entity else ef_PrimitiveValueDomain target;
  PrimitiveLiteralCandidates :=
    match PrimitiveLiteralCandidates entity with [] => PrimitiveLiteralCandidates target | l => l end;
  ef_Constructability :=
    if Constructability_IsPresent (ef_Constructability entity) then ef_Constructability entity else ef_Constructability target;
  CallResultDomain := take_option (CallResultDomain entity) (CallResultDomain target);
  ef_ConstantValue := take_option (ef_ConstantValue entity) (ef_ConstantValue target);
  ef_ArrayShape := take_string (ef_ArrayShape entity) (ef_ArrayShape target);
  ef_TupleShape := take_option (ef_TupleShape entity) (ef_TupleShape target);
  LibraryTypes := take_option (LibraryTypes entity) (LibraryTypes target);
  ef_ReferenceSpace := take_string (ef_ReferenceSpace entity) (ef_ReferenceSpace target);
  RuntimeIdentity := take_string (RuntimeIdentity entity) (RuntimeIdentity target);
|}.

(** The loop state: the entity arena and its write cursor, the structural arena
    and its write cursor, and the reference tier. Both arenas are the result's
    own backing arrays, read ahead of the cursor. *)
Record merge_state := mkMergeState {
  ms_entities : list EntityFact;
  ms_written : nat;
  ms_structural : list SymbolID;
  ms_kept : nat;
  ms_fullTier : list Z;
}.

(** [append] to a slice that shares a longer backing array. *)
Definition arena_append {A} (arena : list A) (n : nat) (x : A) : list A := <[n := x]> arena.

(** The last row written is at the entity's location. *)
Definition same_row (written : list EntityFact) (entity : EntityFact) : bool :=
  match last written with Some t => bool_decide (ef_Location t = ef_Location entity) | None => false end.

Definition merge_row (index : nat) (demand : EntityDemand) (st : merge_state) : result merge_state :=
  match ms_entities st !! index, ms_structural st !! index with
  | Some entity, Some symbol =>
      if negb (bool_decide (ef_Location entity = dem_Location demand))
      then Err (ErrText "semantic demand run entity location")
      else
        let '(arena, written) :=
          if same_row (take (ms_written st) (ms_entities st)) entity then (ms_entities st, ms_written st)
          else (arena_append (ms_entities st) (ms_written st) (empty_entity (ef_Location entity)), S (ms_written st)) in
        let arena := alter (fun target => merge_entity target entity) (written - 1)%nat arena in
        let tier :=
          if negb (String.eqb (ef_Symbol entity) "") && dem_References demand
          then ms_fullTier st ++ [u32 (Z.of_nat (written - 1))] else ms_fullTier st in
        let '(structural, kept) :=
          if String.eqb symbol "" then (ms_structural st, ms_kept st)
          else (arena_append (ms_structural st) (ms_kept st) symbol, S (ms_kept st)) in
        Ok (mkMergeState arena written structural kept tier)
  | _, _ => Err (ErrText "index out of range")
  end.

Fixpoint merge_rows (index : nat) (demands : list EntityDemand) (st : merge_state) : result merge_state :=
  match demands with
  | [] => Ok st
  | demand :: demands' =>
      let? st' := merge_row index demand st in
      merge_rows (S index) demands' st'
  end.

(** The second pass: the demands name the row boundaries, because the result
    has been compacted. *)
Fixpoint descriptor_loop (entities : list EntityFact) (previous : option Location) (entityIndex : Z)
    (demands : list EntityDemand) : list SymbolID :=
  match demands with
  | [] => []
  | demand :: demands' =>
      let entityIndex :=
        match previous with
        | Some l => if bool_decide (dem_Location demand = l) then entityIndex else entityIndex + 1
        | None => entityIndex + 1
        end in
      (if dem_TypeDescriptor demand then full_tier_symbol entities entityIndex else []) ++
      descriptor_loop entities (Some (dem_Location demand)) entityIndex demands'
  end.

Definition prepareRetainedContribution (path : string) (hash : Z) (demands : list EntityDemand)
    (result : SemanticDemandRunResult) : Prelude.result retainedContribution :=
  if negb (Nat.eqb (length (Entities result)) (length demands)) ||
     negb (Nat.eqb (length (Structural result)) (length demands))
  then Err (ErrText "semantic demand run returned entities and structural symbols for demands")
  else
    let? _ := validateCanonicalDependencyPaths path (Dependencies result) in
    let? st := merge_rows 0 demands (mkMergeState (Entities result) 0 (Structural result) 0 []) in
    let entities := take (ms_written st) (ms_entities st) in
    let symbols := sort_Strings (descriptor_loop entities None (-1) demands) in
    Ok (mkContribution hash (Some entities) (ms_fullTier st) [] [] [] (take (ms_kept st) (ms_structural st))
          (Dependencies result) (compactSortedPaths symbols) (Durable result) false).

(** ** The merge without the arenas *)

Definition merge_onto (acc : list EntityFact) (entity : EntityFact) : list EntityFact :=
  let acc := if same_row acc entity then acc else acc ++ [empty_entity (ef_Location entity)] in
  alter (fun target => merge_entity target entity) (length acc - 1)%nat acc.

Definition merge_tier (tier : list Z) (acc : list EntityFact) (demand : EntityDemand) (entity : EntityFact) : list Z :=
  if negb (String.eqb (ef_Symbol entity) "") && dem_References demand
  then tier ++ [u32 (Z.of_nat (length acc - 1))] else tier.

Definition merge_step (st : list EntityFact * list Z) (row : EntityDemand * EntityFact) : list EntityFact * list Z :=
  let acc := merge_onto (fst st) (snd row) in (acc, merge_tier (snd st) acc (fst row) (snd row)).

(** What an arena holds: the merged rows, then the rows still to be read. *)
Record arena_holds {A} (arena : list A) (written index : nat) (merged unread : list A) : Prop := {
  ah_written : (written <= index)%nat;
  ah_merged : take written arena = merged;
  ah_length : written = length merged;
  ah_unread : drop index arena = unread;
}.

Lemma arena_next {A} (arena : list A) w i merged x unread :
  arena_holds arena w i merged (x :: unread) -> arena !! i = Some x /\ arena_holds arena w (S i) merged unread.
Proof.
  intros [Hw Hm Hl Hd]. assert (arena !! i = Some x) as Hx.
  { pose proof (lookup_drop arena i 0) as H. rewrite Hd, Nat.add_0_r in H. by rewrite <- H. }
  split; [done|]. split; try done; [lia|].
  rewrite (drop_S arena x i Hx) in Hd. by injection Hd.
Qed.

Lemma arena_append_holds {A} (arena : list A) w i merged unread x :
  arena_holds arena w i merged unread -> (w < i)%nat -> (i <= length arena)%nat ->
  arena_holds (arena_append arena w x) (S w) i (merged ++ [x]) unread.
Proof.
  intros [Hw Hm Hl Hd] Hlt Hlen. unfold arena_append. split; [lia| | |].
  - rewrite (take_S_r _ _ x) by (apply list_lookup_insert_eq; lia). by rewrite take_insert_ge, Hm by lia.
  - rewrite length_app. simpl. lia.
  - by rewrite drop_insert_lt by lia.
Qed.

Lemma arena_alter_holds {A} (f : A -> A) (arena : list A) w i merged unread :
  arena_holds arena w i merged unread -> (0 < w)%nat ->
  arena_holds (alter f (w - 1)%nat arena) w i (alter f (w - 1)%nat merged) unread.
Proof.
  intros [Hw Hm Hl Hd] Hpos. split; [done| |by rewrite length_alter|].
  - rewrite <- Hm. apply list_eq. intros k. destruct (decide (k < w)%nat).
    + rewrite lookup_take_lt by lia. destruct (decide (k = w - 1)%nat) as [->|].
      * rewrite !list_lookup_alter_eq. by rewrite lookup_take_lt by lia.
      * rewrite !list_lookup_alter_ne by lia. by rewrite lookup_take_lt by lia.
    + rewrite lookup_take_ge by lia. symmetry. apply lookup_ge_None. rewrite length_alter, length_take. lia.
  - rewrite <- Hd. apply list_eq. intros k. rewrite !lookup_drop. by rewrite list_lookup_alter_ne by lia.
Qed.

Lemma arena_append_next {A} (arena : list A) w i merged unread x y :
  arena_holds arena w i merged (y :: unread) -> arena_holds (arena_append arena w x) (S w) (S i) (merged ++ [x]) unread.
Proof.
  intros H. destruct (arena_next _ _ _ _ _ _ H) as [Hy Hn]. apply lookup_lt_Some in Hy.
  destruct H as [Hw _ _ _]. apply arena_append_holds; [done|lia|lia].
Qed.

(** The rows the loop keeps of the structural arena. *)
Record rows_held (st : merge_state) (index : nat) (acc : list EntityFact) (tier : list Z) (kept : list SymbolID)
    (es : list EntityFact) (ss : list SymbolID) : Prop := {
  rh_entities : arena_holds (ms_entities st) (ms_written st) index acc es;
  rh_structural : arena_holds (ms_structural st) (ms_kept st) index kept ss;
  rh_tier : ms_fullTier st = tier;
}.

Lemma merge_row_spec i d e s st acc tier kept es ss :
  rows_held st i acc tier kept (e :: es) (s :: ss) ->
  if bool_decide (ef_Location e = dem_Location d) then
    exists st', merge_row i d st = Ok st' /\
      let '(acc', tier') := merge_step (acc, tier) (d, e) in
      rows_held st' (S i) acc' tier' (kept ++ nonempty_symbol s) es ss
  else is_ok (merge_row i d st) = false.
Proof.
  intros [He Hs Ht]. destruct (arena_next _ _ _ _ _ _ He) as [Hle Hne]. destruct (arena_next _ _ _ _ _ _ Hs) as [Hls Hns].
  unfold merge_row. rewrite Hle, Hls. case_bool_decide as Hloc; simpl; [|done].
  pose proof (ah_merged _ _ _ _ _ He) as Hm. pose proof (ah_length _ _ _ _ _ He) as Hl. rewrite Hm. unfold merge_step, merge_onto. cbn [fst snd]. cbv zeta.
  (* the structural arena *)
  assert (exists str k, (if String.eqb s "" then (ms_structural st, ms_kept st)
    else (arena_append (ms_structural st) (ms_kept st) s, S (ms_kept st))) = (str, k) /\
    arena_holds str k (S i) (kept ++ nonempty_symbol s) ss) as (str & k & Hstr & Hks).
  { unfold nonempty_symbol. destruct (String.eqb s ""); eexists _, _; (split; [done|]).
    - by rewrite app_nil_r.
    - by eapply arena_append_next. }
  rewrite Hstr.
  (* the entity arena *)
  set (acc' := if same_row acc e then acc else acc ++ [empty_entity (ef_Location e)]).
  assert (exists arena w, (if same_row acc e then (ms_entities st, ms_written st)
      else (arena_append (ms_entities st) (ms_written st) (empty_entity (ef_Location e)), S (ms_written st))) = (arena, w) /\
      arena_holds arena w (S i) acc' es /\ (0 < w)%nat) as (arena & w & Har & Hold & Hpos).
  { unfold acc'. destruct (same_row acc e) eqn:El; eexists _, _; (split; [done|]).
    - split; [done|]. rewrite Hl. unfold same_row in El. destruct acc; [done|simpl; lia].
    - split; [|lia]. by eapply arena_append_next. }
  rewrite Har. pose proof (ah_length _ _ _ _ _ Hold) as Hw. rewrite Hw.
  eexists. split; [done|]. split; cbn [ms_entities ms_written ms_structural ms_kept ms_fullTier]; [|done|].
  - rewrite <- Hw. by apply arena_alter_holds.
  - unfold merge_tier. by rewrite length_alter, Ht.
Qed.

Definition merged (rows : list (EntityDemand * EntityFact)) : list EntityFact * list Z := foldl merge_step ([], []) rows.

(** The result's rows are at the demands' locations. *)
Definition aligned (demands : list EntityDemand) (entities : list EntityFact) : Prop :=
  Forall2 (fun d e => ef_Location e = dem_Location d) demands entities.

Lemma merge_rows_spec demands es ss st i acc tier kept :
  rows_held st i acc tier kept es ss -> length es = length demands -> length ss = length demands ->
  (aligned demands es -> exists st', merge_rows i demands st = Ok st' /\
     let '(acc', tier') := foldl merge_step (acc, tier) (zip demands es) in
     rows_held st' (i + length demands) acc' tier' (kept ++ concat (map nonempty_symbol ss)) [] []) /\
  (is_ok (merge_rows i demands st) = true -> aligned demands es).
Proof.
  revert st i acc tier kept es ss. induction demands as [|d ds IH]; intros st i acc tier kept es ss H He Hs.
  { destruct es, ss; try done. simpl. split; [|constructor]. intros _. exists st. by rewrite Nat.add_0_r, app_nil_r. }
  destruct es as [|e es], ss as [|s ss]; try done. injection He as He. injection Hs as Hs.
  pose proof (merge_row_spec i d e s st acc tier kept es ss H) as Hrow. cbn [merge_rows zip foldl concat map].
  case_bool_decide as Hloc.
  - destruct Hrow as (st' & -> & Hst'). cbn [result_bind].
    destruct (merge_step (acc, tier) (d, e)) as [acc' tier'] eqn:Estep. cbn [zip_with foldl]. rewrite ?Estep.
    destruct (IH st' (S i) acc' tier' _ es ss Hst' He Hs) as [IH1 IH2]. split.
    + intros Hal. apply Forall2_cons in Hal as [_ Hal]. destruct (IH1 Hal) as (st'' & E & Hf). exists st''.
      split; [done|]. rewrite <- app_assoc in Hf. simpl length. by rewrite Nat.add_succ_r.
    + intros Hok. constructor; [done|by apply IH2].
  - destruct (merge_row i d st); [done|]. simpl. split; [|done]. intros Hal. by apply Forall2_cons in Hal as [? _].
Qed.

(** ** The rows of a run *)

(** The locations of adjacent runs of equal locations. *)
Definition open_run (acc : list Location) (l : Location) : list Location :=
  if bool_decide (last acc = Some l) then acc else acc ++ [l].
Definition runs (locations : list Location) : list Location := foldl open_run [] locations.

Lemma last_open_run acc l : last (open_run acc l) = Some l.
Proof. unfold open_run. case_bool_decide; [done|]. by rewrite last_snoc. Qed.

Lemma last_runs ls : last (runs ls) = last ls.
Proof.
  unfold runs. induction ls as [|l ls IH] using rev_ind; [done|]. rewrite foldl_app, last_snoc. apply last_open_run.
Qed.

(** A row that is resolved is not unresolved, so the writer takes it. *)
Definition resolution_ok (e : EntityFact) : Prop := SymbolUnresolved e = true -> ef_Symbol e = "".

Lemma merge_entity_ok target entity : resolution_ok target -> resolution_ok (merge_entity target entity).
Proof.
  unfold resolution_ok, merge_entity, take_string. simpl. intros Ht.
  destruct (String.eqb_spec (ef_Symbol entity) ""); simpl; [|done].
  destruct (String.eqb_spec (ef_Symbol target) ""); [done|]. rewrite andb_false_r. exact Ht.
Qed.

Lemma merge_onto_last acc e : exists pre t,
  (if same_row acc e then acc else acc ++ [empty_entity (ef_Location e)]) = pre ++ [t] /\
  ef_Location t = ef_Location e /\ merge_onto acc e = pre ++ [merge_entity t e] /\
  (forall k x, acc !! k = Some x -> (pre ++ [t]) !! k = Some x) /\ (t ∈ acc \/ t = empty_entity (ef_Location e)) /\
  (forall x, x ∈ pre -> x ∈ acc).
Proof.
  assert (forall pre t, alter (fun u => merge_entity u e) (length (pre ++ [t]) - 1)%nat (pre ++ [t]) = pre ++ [merge_entity t e]) as Halt.
  { intros pre t. rewrite length_app. simpl. replace (length pre + 1 - 1)%nat with (length pre + 0)%nat by lia.
    by rewrite alter_app_r. }
  unfold merge_onto. destruct (same_row acc e) eqn:E.
  - unfold same_row in E. destruct (last acc) as [t|] eqn:El; [|done]. apply bool_decide_eq_true in E.
    apply last_Some in El as [pre ->]. exists pre, t. split_and!; try apply Halt; try done; [left; set_solver|set_solver].
  - exists acc, (empty_entity (ef_Location e)). split_and!; try apply Halt; try done; [|by right].
    intros k x Hk. by apply lookup_app_l_Some.
Qed.

Lemma merge_onto_locations acc e : map ef_Location (merge_onto acc e) = open_run (map ef_Location acc) (ef_Location e).
Proof.
  destruct (merge_onto_last acc e) as (pre & t & E & Ht & -> & _). rewrite map_app. simpl. rewrite <- Ht.
  transitivity (map ef_Location (pre ++ [t])); [by rewrite map_app|]. rewrite <- E. unfold open_run, same_row.
  change (map ef_Location acc) with (ef_Location <$> acc). rewrite fmap_last.
  destruct (last acc) as [x|]; simpl; [|by rewrite map_app, Ht]. rewrite Ht.
  case_bool_decide as H1; case_bool_decide as H2; try done; [by rewrite H1 in H2|congruence|by rewrite map_app].
Qed.

Lemma merge_onto_ok acc e : Forall resolution_ok acc -> Forall resolution_ok (merge_onto acc e).
Proof.
  destruct (merge_onto_last acc e) as (pre & t & E & Ht & -> & _ & Hin & Hpre). rewrite !Forall_forall. intros H x.
  rewrite elem_of_app, list_elem_of_singleton. intros [Hx| ->]; [auto|]. apply merge_entity_ok.
  destruct Hin as [| ->]; [auto|done].
Qed.

Definition names_symbol (entities : list EntityFact) (index : Z) : Prop :=
  0 <= index /\ exists e, entities !! Z.to_nat index = Some e /\ ef_Symbol e <> "".

Lemma merge_entity_symbol t e : ef_Symbol t <> "" \/ ef_Symbol e <> "" -> ef_Symbol (merge_entity t e) <> "".
Proof. unfold merge_entity, take_string. simpl. destruct (String.eqb_spec (ef_Symbol e) ""); tauto. Qed.

Lemma merge_onto_names acc e index : names_symbol acc index -> names_symbol (merge_onto acc e) index.
Proof.
  intros (Hpos & x & Hx & Hs). split; [done|]. destruct (merge_onto_last acc e) as (pre & t & _ & _ & -> & Hkeep & _).
  apply Hkeep in Hx. destruct (decide (Z.to_nat index < length pre)%nat).
  - exists x. split; [|done]. rewrite lookup_app_l in Hx |- * by done. exact Hx.
  - rewrite lookup_app_r in Hx |- * by lia. destruct (Z.to_nat index - length pre)%nat as [|j]; [|by destruct j].
    injection Hx as ->. eexists. split; [done|]. apply merge_entity_symbol. by left.
Qed.

Lemma merge_onto_length acc e : (length (merge_onto acc e) <= S (length acc))%nat.
Proof.
  unfold merge_onto. rewrite length_alter. destruct (same_row acc e); [lia|]. rewrite length_app. simpl. lia.
Qed.

Lemma merge_onto_new acc e : ef_Symbol e <> "" -> (Z.of_nat (length (merge_onto acc e)) <= 2 ^ 32) ->
  names_symbol (merge_onto acc e) (u32 (Z.of_nat (length (merge_onto acc e) - 1))).
Proof.
  intros Hs Hlen. destruct (merge_onto_last acc e) as (pre & t & _ & _ & E & _). rewrite E in *. rewrite length_app in *.
  simpl length in *. unfold u32. rewrite Z.mod_small by lia. split; [lia|]. rewrite Nat2Z.id.
  eexists. split; [|by apply merge_entity_symbol; right]. rewrite lookup_app_r by lia.
  by replace (length pre + 1 - 1 - length pre)%nat with 0%nat by lia.
Qed.

(** What the merge of a run is. *)
Record run_merged (rows : list (EntityDemand * EntityFact)) (acc : list EntityFact) (tier : list Z) : Prop := {
  rm_locations : map ef_Location acc = runs (map (fun row => ef_Location (snd row)) rows);
  rm_resolved : Forall resolution_ok acc;
  rm_tier : Forall (names_symbol acc) tier;
}.

Lemma merged_spec rows : Z.of_nat (length rows) <= 2 ^ 32 ->
  run_merged rows (fst (merged rows)) (snd (merged rows)) /\ (length (fst (merged rows)) <= length rows)%nat.
Proof.
  unfold merged. induction rows as [|[d e] rows IH] using rev_ind; intros Hlen; [by repeat split|].
  rewrite length_app in *. simpl length in *. rewrite foldl_app. simpl foldl.
  destruct IH as [[H1 H2 H3] H4]; [lia|]. destruct (foldl merge_step ([], []) rows) as [acc tier]. simpl in *.
  pose proof (merge_onto_length acc e). split; [split|lia].
  - rewrite merge_onto_locations, H1. unfold runs. by rewrite map_app, foldl_app.
  - by apply merge_onto_ok.
  - assert (Forall (names_symbol (merge_onto acc e)) tier) as Ht.
    { eapply Forall_impl; [exact H3|]. intros. by apply merge_onto_names. }
    unfold merge_tier. destruct (String.eqb_spec (ef_Symbol e) ""); [done|].
    destruct (dem_References d); [|done]. simpl. apply Forall_app. split; [done|]. constructor; [|constructor].
    apply merge_onto_new; [done|lia].
Qed.

(** ** Descriptor symbols *)

(** The row a demand was merged into. *)
Definition row_of (demands : list EntityDemand) (index : nat) : Z :=
  Z.of_nat (length (runs (map dem_Location (take (S index) demands)))) - 1.

Lemma open_run_length acc l :
  length (open_run acc l) = if bool_decide (last acc = Some l) then length acc else S (length acc).
Proof. unfold open_run. case_bool_decide; [done|]. rewrite length_app. simpl. lia. Qed.

Lemma take_through {A} (pre : list A) x l : take (S (length pre)) (pre ++ x :: l) = pre ++ [x].
Proof. rewrite cons_middle, app_assoc. apply take_app_length'. rewrite length_app. simpl. lia. Qed.

Lemma descriptor_loop_elem entities pre demands symbol :
  symbol ∈ descriptor_loop entities (last (map dem_Location pre)) (Z.of_nat (length (runs (map dem_Location pre))) - 1) demands <->
  exists k d, demands !! k = Some d /\ dem_TypeDescriptor d = true /\
    symbol ∈ full_tier_symbol entities (row_of (pre ++ demands) (length pre + k)).
Proof.
  revert pre. induction demands as [|d ds IH]; intros pre; simpl.
  { split; [intros H; by apply not_elem_of_nil in H|]. by intros (k & d & H & _). }
  set (next := match last (map dem_Location pre) with Some l => _ | None => _ end).
  assert (next = row_of (pre ++ d :: ds) (length pre)) as Hnext.
  { unfold row_of. rewrite take_through, map_app. unfold runs at 1. rewrite foldl_app. simpl. fold (runs (map dem_Location pre)).
    rewrite open_run_length, last_runs. unfold next. destruct (last (map dem_Location pre)) as [l|].
    - repeat case_bool_decide; try lia; simplify_eq; congruence.
    - rewrite bool_decide_false by done. lia. }
  assert (descriptor_loop entities (Some (dem_Location d)) next ds =
    descriptor_loop entities (last (map dem_Location (pre ++ [d]))) (Z.of_nat (length (runs (map dem_Location (pre ++ [d])))) - 1) ds) as ->.
  { rewrite map_app. cbn [map]. rewrite last_snoc. f_equal. rewrite Hnext. unfold row_of.
    by rewrite take_through, map_app. }
  rewrite elem_of_app, IH. rewrite <- app_assoc. simpl. rewrite Hnext. split.
  - intros [H|(k & d' & Hk & Ht & H)].
    + destruct (dem_TypeDescriptor d) eqn:Et; [|by apply not_elem_of_nil in H].
      exists 0%nat, d. by rewrite Nat.add_0_r.
    + exists (S k), d'. split_and!; [done|done|]. rewrite length_app in H. simpl in H.
      by replace (length pre + S k)%nat with (length pre + 1 + k)%nat by lia.
  - intros ([|k] & d' & Hk & Ht & H); simpl in Hk.
    + injection Hk as ->. left. rewrite Ht. by rewrite Nat.add_0_r in H.
    + right. exists k, d'. split_and!; [done|done|]. rewrite length_app. simpl.
      by replace (length pre + 1 + k)%nat with (length pre + S k)%nat by lia.
Qed.

(** ** The contribution of a run *)

(** When a result is accepted. *)
Definition run_accepted (path : string) (demands : list EntityDemand) (result : SemanticDemandRunResult) : Prop :=
  length (Entities result) = length demands /\ length (Structural result) = length demands /\
  validateCanonicalDependencyPaths path (Dependencies result) = Ok tt /\ aligned demands (Entities result).

(** The contribution an accepted run becomes. *)
Record run_contribution (hash : Z) (demands : list EntityDemand) (result : SemanticDemandRunResult)
    (c : retainedContribution) (entities : list EntityFact) : Prop := {
  rc_entities : c_entities c = Some entities;
  rc_merged : (entities, fullTier c) = merged (zip demands (Entities result));
  rc_locations : map ef_Location entities = runs (map dem_Location demands);
  rc_resolved : Forall resolution_ok entities;
  rc_tier : Forall (names_symbol entities) (fullTier c);
  rc_structural : structural c = concat (map nonempty_symbol (Structural result));
  rc_descriptors : keys_sorted id (descriptorSymbols c) /\ forall symbol, symbol ∈ descriptorSymbols c <->
    exists k d, demands !! k = Some d /\ dem_TypeDescriptor d = true /\
      symbol ∈ full_tier_symbol entities (row_of demands k);
  rc_evidence : dependencies c = Dependencies result /\ durable c = Durable result /\ demandHash c = hash /\
    seedsPrepared c = false;
}.

Lemma dependency_ok_tt owner paths u : validateCanonicalDependencyPaths owner paths = Ok u <->
  validateCanonicalDependencyPaths owner paths = Ok tt.
Proof. by destruct u. Qed.

Lemma zip_locations demands es : aligned demands es ->
  map (fun row : EntityDemand * EntityFact => ef_Location (snd row)) (zip demands es) = map dem_Location demands.
Proof. induction 1 as [|d e ds es Hl _ IH]; simpl; [done|]. by rewrite Hl, IH. Qed.

(** The rows of a contribution are at its demands' locations. *)
Lemma merged_locations rows : map ef_Location (fst (merged rows)) = runs (map (fun row => ef_Location (snd row)) rows).
Proof.
  unfold merged, runs. induction rows as [|[d e] rows IH] using rev_ind; [done|].
  rewrite foldl_app, map_app, foldl_app, <- IH. simpl. apply merge_onto_locations.
Qed.

Lemma runs_elem l ls : l ∈ runs ls -> l ∈ ls.
Proof.
  unfold runs. induction ls as [|l' ls IH] using rev_ind; [done|]. rewrite foldl_app. simpl. unfold open_run at 1.
  case_bool_decide; set_solver.
Qed.

Lemma prepare_rows path hash demands result c : prepareRetainedContribution path hash demands result = Ok c ->
  demandHash c = hash /\ durable c = Durable result /\ seedsPrepared c = false /\
  exists entities, c_entities c = Some entities /\
    Forall (fun e => exists d, d ∈ demands /\ ef_Location e = dem_Location d) entities.
Proof.
  unfold prepareRetainedContribution.
  destruct (Nat.eqb_spec (length (Entities result)) (length demands)) as [He|He]; simpl; [|done].
  destruct (Nat.eqb_spec (length (Structural result)) (length demands)) as [Hs|Hs]; simpl; [|done].
  destruct (validateCanonicalDependencyPaths path (Dependencies result)) as [[]|err]; simpl; [|done].
  assert (rows_held (mkMergeState (Entities result) 0 (Structural result) 0 []) 0 [] [] [] (Entities result) (Structural result)) as H0
    by (split; simpl; [split; simpl; lia || done|split; simpl; lia || done|done]).
  destruct (merge_rows_spec demands _ _ _ 0 _ _ _ H0 He Hs) as [Hgood Hbad].
  destruct (merge_rows 0 demands _) as [st|err]; simpl; [|done]. intros [= <-]. simpl. split_and!; [done..|].
  specialize (Hbad eq_refl). destruct (Hgood Hbad) as (st' & [= <-] & Hst).
  pose proof (merged_locations (zip demands (Entities result))) as Hl. unfold merged in Hl.
  destruct (foldl merge_step ([], []) (zip demands (Entities result))) as [acc tier]. destruct Hst as [[_ Ha _ _] _ _].
  eexists. split; [done|]. rewrite Ha. simpl in Hl. rewrite zip_locations in Hl by done.
  apply Forall_forall. intros e He'. assert (ef_Location e ∈ map dem_Location demands) as Hin.
  { apply runs_elem. rewrite <- Hl. by apply list_elem_of_fmap_2. }
  apply list_elem_of_fmap in Hin as (d & -> & Hd). by exists d.
Qed.

(** C40: A contribution is prepared exactly for results aligned with their demands whose
    dependencies are canonical; the merge in the arena that is being read gives the rows, the
    reference tier, the structural symbols and the descriptor symbols that a merge into fresh
    lists gives. *)
Theorem prepareRetainedContribution_merges path hash demands result :
  Z.of_nat (length demands) <= 2 ^ 32 ->
  match prepareRetainedContribution path hash demands result with
  | Ok c => run_accepted path demands result /\ exists entities, run_contribution hash demands result c entities
  | Err _ => ~ run_accepted path demands result
  end.
Proof.
  intros Hlen. unfold prepareRetainedContribution, run_accepted.
  destruct (Nat.eqb_spec (length (Entities result)) (length demands)) as [He|He]; simpl; [|tauto].
  destruct (Nat.eqb_spec (length (Structural result)) (length demands)) as [Hs|Hs]; simpl; [|tauto].
  destruct (validateCanonicalDependencyPaths path (Dependencies result)) as [[]|err]; simpl; [|intuition congruence].
  assert (rows_held (mkMergeState (Entities result) 0 (Structural result) 0 []) 0 [] [] [] (Entities result) (Structural result)) as H0
    by (split; simpl; [split; simpl; lia || done|split; simpl; lia || done|done]).
  destruct (merge_rows_spec demands _ _ _ 0 _ _ _ H0 He Hs) as [Hgood Hbad].
  destruct (merge_rows 0 demands _) as [st|err]; simpl.
  - specialize (Hbad eq_refl). destruct (Hgood Hbad) as (st' & [= <-] & Hst). clear Hgood H0.
    assert (length (zip demands (Entities result)) = length demands) as Hz by (rewrite length_zip; lia).
    destruct (merged_spec (zip demands (Entities result))) as [[H1 H2 H3] _]; [lia|]. unfold merged in *.
    destruct (foldl merge_step ([], []) (zip demands (Entities result))) as [acc tier] eqn:Em. cbn [fst snd] in *.
    destruct Hst as [[_ Ha _ _] [_ Hk _ _] Ht]. split; [done|]. exists acc. rewrite Ha, Hk, Ht.
    destruct (compact_sorted_spec (descriptor_loop acc None (-1) demands)) as [Hc1 Hc2].
    split; cbn; try done; [by rewrite H1, zip_locations|]. split; [done|]. intros symbol. rewrite Hc2.
    exact (descriptor_loop_elem acc [] demands symbol).
  - intros (_ & _ & _ & Hal). by destruct (Hgood Hal) as (? & [=] & _).
Qed.

(** ** Releasing the rows *)

(** The symbols and descriptors later closures start from. *)
Definition seeds (c : retainedContribution) : list SymbolID * list SymbolID * list retainedDescriptor :=
  match c_entities c with
  | Some entities =>
      if seedsPrepared c then (roots c, fullTierSymbols c, descriptors c)
      else (roots c ++ concat (map entity_roots entities),
            fullTierSymbols c ++ concat (map (full_tier_symbol entities) (fullTier c)),
            descriptors c ++ concat (map entity_descriptor entities))
  | None => (roots c, fullTierSymbols c, descriptors c)
  end.

(** Giving the rows of a contribution to the client keeps every symbol and descriptor later
    closures start from, its structural symbols, its dependencies and its keys, and is
    idempotent. *)
Theorem releaseTransportRows_keeps_seeds c :
  c_entities (releaseTransportRows c) = None /\
  seeds (releaseTransportRows c) = seeds c /\ seeds (prepareTransportSeeds c) = seeds c /\
  prepareTransportSeeds (prepareTransportSeeds c) = prepareTransportSeeds c /\
  releaseTransportRows (prepareTransportSeeds c) = releaseTransportRows c /\
  releaseTransportRows (releaseTransportRows c) = releaseTransportRows c /\
  (structural (releaseTransportRows c), dependencies (releaseTransportRows c), descriptorSymbols (releaseTransportRows c),
   demandHash (releaseTransportRows c), durable (releaseTransportRows c)) =
  (structural c, dependencies c, descriptorSymbols c, demandHash c, durable c).
Proof.
  unfold seeds, releaseTransportRows, prepareTransportSeeds.
  destruct c as [hash [es|] tier rs tiers ds str deps dsyms dur [|]]; simpl; split_and!; done.
Qed.

(** Two demands at one location, then one at the next. *)
Definition asked (a b : Z) (descriptor references : bool) : EntityDemand :=
  mkEntityDemand (mkLocation "a.ts" a b) None true descriptor false false false false false false false false false
    false false false false false references false false.
Definition answered (a b : Z) (symbol : SymbolID) (descriptor : option TypeDescriptor) : EntityFact :=
  mkEntityFact (mkLocation "a.ts" a b) symbol false descriptor None "" None (mkPrimitiveValueDomain 0) [] 0 None None ""
    None None "" "".
Definition sample_result : SemanticDemandRunResult :=
  mkSemanticDemandRunResult
    [answered 1 2 "s" None; answered 1 2 "" (Some (mkTypeDescriptor "T" "" [])); answered 4 5 "t" None]
    [""; "accessor"; ""] ["b.ts"] true.

Lemma prepareRetainedContribution_merges_witness :
  exists c, prepareRetainedContribution "a.ts" 7 [asked 1 2 true false; asked 1 2 false true; asked 4 5 false true]
      sample_result = Ok c /\
    c_entities c = Some [answered 1 2 "s" (Some (mkTypeDescriptor "T" "" [])); answered 4 5 "t" None] /\
    fullTier c = [1] /\ structural c = ["accessor"] /\ descriptorSymbols c = ["s"].
Proof.
  pose proof (prepareRetainedContribution_merges "a.ts" 7 [asked 1 2 true false; asked 1 2 false true; asked 4 5 false true]
    sample_result ltac:(vm_compute; discriminate)) as H.
  destruct (prepareRetainedContribution _ _ _ _) as [c|err] eqn:E; [|vm_compute in E; discriminate E].
  exists c. split; [reflexivity|]. destruct H as [_ (es & [H1 H2 _ _ _ H4 _ _])].
  vm_compute in E. injection E as <-. injection H1 as <-. split_and!; reflexivity.
Defined.
