(* ===== verification/ContributionStore.v ===== *)
(** * The retained contribution store

    [retainedContributionStore] of [retained_contributions.go]: contributions by
    path, and the two reverse indexes that name the paths to recompute. A
    contribution is a pointer into a heap of contributions; a reverse-index
    bucket is a short list until it outgrows its threshold. A nil map is an
    empty one, because every write makes the map first. *)

From S2P Require Import Prelude GoStd GoText Model CompactDemands DemandGroup Contributions.

(** ** Reverse-index buckets *)

Definition pathMembershipMapThreshold : nat := 16.

Record pathMembership := mkMembership {
  small : list string;
  large : option (gset string);
}.

Definition no_membership : pathMembership := mkMembership [] None.

Definition membership_add (m : pathMembership) (path : string) : pathMembership :=
  match large m with
  | Some s => mkMembership (small m) (Some ({[path]} ∪ s))
  | None =>
      if bool_decide (path ∈ small m) then m
      else if (length (small m) <? pathMembershipMapThreshold)%nat then mkMembership (small m ++ [path]) None
      else mkMembership [] (Some ({[path]} ∪ list_to_set (small m)))
  end.

(** The entry is overwritten by the last one, which is cut off. *)
Definition swap_remove (path : string) (l : list string) : list string :=
  match list_find (eq path) l with
  | Some (index, _) =>
      let last := (length l - 1)%nat in
      take last (<[index := default "" (l !! last)]> l)
  | None => l
  end.

Definition membership_remove (m : pathMembership) (path : string) : pathMembership :=
  match large m with
  | Some s => mkMembership (small m) (Some (s ∖ {[path]}))
  | None => mkMembership (swap_remove path (small m)) None
  end.

Definition membership_len (m : pathMembership) : nat :=
  match large m with Some s => size s | None => length (small m) end.

(** The paths [rangePaths] visits, in a map's open order. *)
Definition rangePaths `{MR : !MapRange} (m : pathMembership) : list string :=
  match large m with Some s => range_set s | None => small m end.

(** ** The store *)

Notation contribution_heap := (gmap positive retainedContribution).

Record retainedContributionStore := mkContributionStore {
  byPath : gmap string positive;
  dependentsByPath : gmap string pathMembership;
  descriptorUsers : gmap string pathMembership;
}.

Definition empty_store : retainedContributionStore := mkContributionStore ∅ ∅ ∅.

Definition contribution_get (s : retainedContributionStore) (path : string) : option positive := byPath s !! path.

(** [index[key] = index[key].add(path)]. *)
Definition add_user (path : string) (index : gmap string pathMembership) (key : string) : gmap string pathMembership :=
  <[key := membership_add (default no_membership (index !! key)) path]> index.

Definition remove_user (path : string) (index : gmap string pathMembership) (key : string) : gmap string pathMembership :=
  let users := membership_remove (default no_membership (index !! key)) path in
  if Nat.eqb (membership_len users) 0 then delete key index else <[key := users]> index.

Section Store.
Context `{MR : !MapRange} (heap : contribution_heap).

Definition keys_at (keys : retainedContribution -> list string) (address : positive) : list string :=
  from_option keys [] (heap !! address).

Definition store_remove (s : retainedContributionStore) (path : string) : retainedContributionStore :=
  match byPath s !! path with
  | None => s
  | Some contribution =>
      mkContributionStore (delete path (byPath s))
        (foldl (remove_user path) (dependentsByPath s) (keys_at dependencies contribution))
        (foldl (remove_user path) (descriptorUsers s) (keys_at descriptorSymbols contribution))
  end.

Definition store_add (s : retainedContributionStore) (path : string) (contribution : positive) : retainedContributionStore :=
  let s := match byPath s !! path with Some _ => store_remove s path | None => s end in
  mkContributionStore (<[path := contribution]> (byPath s))
    (foldl (add_user path) (dependentsByPath s) (keys_at dependencies contribution))
    (foldl (add_user path) (descriptorUsers s) (keys_at descriptorSymbols contribution)).

Definition rangeDescriptorUsers (s : retainedContributionStore) (symbol : SymbolID) : list string :=
  rangePaths (default no_membership (descriptorUsers s !! symbol)).

(** [paths] grows by the direct dependents; the store is not changed
    before they are known. *)
Definition invalidate (s : retainedContributionStore) (paths : gset string) : retainedContributionStore * gset string :=
  let direct := range_set paths in
  let paths := foldl (fun paths path =>
    foldl (fun paths dependent => {[dependent]} ∪ paths) paths
      (rangePaths (default no_membership (dependentsByPath s !! path)))) paths direct in
  (foldl store_remove s (range_set paths), paths).

Definition discard (s : retainedContributionStore) (paths : gset string) : retainedContributionStore :=
  foldl store_remove s (range_set paths).

(** [group.contribution != nil && group.contribution.durable]. *)
Definition durable_contribution (g : demandGroup) : option positive :=
  match dg_contribution g with
  | Some a => if from_option durable false (heap !! a) then Some a else None
  | None => None
  end.

Definition commit_group (s : retainedContributionStore) (g : demandGroup) : retainedContributionStore :=
  match durable_contribution g with
  | None => s
  | Some a => if bool_decide (byPath s !! dg_path g = Some a) then s else store_add s (dg_path g) a
  end.

(** The map shrinks under its own range: a removal takes only the entry it
    stands at. *)
Definition commit (s : retainedContributionStore) (groups : list demandGroup) : retainedContributionStore :=
  let desired : gset string :=
    foldl (fun desired g => match durable_contribution g with Some _ => {[dg_path g]} ∪ desired | None => desired end) ∅ groups in
  let s := foldl (fun s path => if bool_decide (path ∈ desired) then s else store_remove s path) s (range_map (byPath s)).*1 in
  foldl commit_group s groups.

Definition reset (s : retainedContributionStore) : retainedContributionStore := empty_store.
End Store.

(** ** Buckets as sets *)

Definition members (m : pathMembership) : gset string :=
  match large m with Some s => s | None => list_to_set (small m) end.

Record membership_ok (m : pathMembership) : Prop := {
  mem_NoDup : NoDup (small m);
  mem_small : (length (small m) <= pathMembershipMapThreshold)%nat;
  mem_large : is_Some (large m) -> small m = [];
}.

Lemma no_membership_ok : membership_ok no_membership.
Proof. split; simpl; [constructor|lia|done]. Qed.

Lemma membership_add_spec m path : membership_ok m ->
  membership_ok (membership_add m path) /\ members (membership_add m path) = {[path]} ∪ members m.
Proof.
  intros [Hn Hs Hl]. unfold membership_add, members. destruct (large m) as [s|] eqn:E; simpl.
  { assert (small m = []) as Es by (apply Hl; by eexists). split; [|done].
    split; simpl; rewrite Es; [constructor|simpl; lia|done]. }
  case_bool_decide as Hin.
  { rewrite E. split; [split; rewrite ?E; done|]. set_solver. }
  destruct (Nat.ltb_spec (length (small m)) pathMembershipMapThreshold); simpl.
  - split; [|set_solver]. split; simpl; [|rewrite length_app; simpl; lia|by intros []].
    apply NoDup_app. split_and!; [done|set_solver|apply NoDup_singleton].
  - split; [|done]. split; simpl; [constructor|lia|done].
Qed.

Lemma swap_remove_perm path l : path ∈ l -> path :: swap_remove path l ≡ₚ l.
Proof.
  intros Hin. unfold swap_remove. destruct (list_find (eq path) l) as [[i x]|] eqn:E.
  2:{ apply list_find_None in E. rewrite Forall_forall in E. by destruct (E path). }
  apply list_find_Some in E as (Hi & -> & _).
  destruct (exists_last (l:=l)) as (l' & y & ->); [by destruct l|].
  rewrite length_app. simpl. replace (length l' + 1 - 1)%nat with (length l') by lia.
  assert ((l' ++ [y]) !! length l' = Some y) as -> by (rewrite lookup_app_r, Nat.sub_diag by lia; done). simpl.
  destruct (decide (i < length l')%nat) as [Hlt|Hge].
  - rewrite insert_app_l, take_app_le by (rewrite ?length_insert; lia).
    rewrite firstn_all2 by (rewrite length_insert; lia).
    rewrite lookup_app_l in Hi by done. apply list_elem_of_split_length in Hi as (a & b & -> & ->).
    rewrite insert_app_r_alt, Nat.sub_diag by lia. simpl.
    rewrite (Permutation_app_comm (a ++ x :: b) [y]). simpl. rewrite <- !Permutation_middle. apply Permutation_swap.
  - assert (i = length l') as ->.
    { apply lookup_lt_Some in Hi. rewrite length_app in Hi. simpl in Hi. lia. }
    rewrite lookup_app_r, Nat.sub_diag in Hi by lia. injection Hi as ->.
    rewrite insert_app_r_alt, take_app_length by lia. by rewrite Permutation_cons_append.
Qed.

Lemma swap_remove_absent path l : path ∉ l -> swap_remove path l = l.
Proof.
  intros Hn. unfold swap_remove. destruct (list_find (eq path) l) as [[i x]|] eqn:E; [|done].
  apply list_find_Some in E as (Hi & <- & _). destruct Hn. by eapply list_elem_of_lookup_2.
Qed.

Lemma membership_remove_spec m path : membership_ok m ->
  membership_ok (membership_remove m path) /\ members (membership_remove m path) = members m ∖ {[path]}.
Proof.
  intros [Hn Hs Hl]. unfold membership_remove, members. destruct (large m) as [s|] eqn:E; simpl.
  { assert (small m = []) as Es by (apply Hl; by eexists). split; [|done].
    split; simpl; rewrite Es; [constructor|simpl; lia|done]. }
  destruct (decide (path ∈ small m)) as [Hin|Hnin].
  - pose proof (swap_remove_perm path (small m) Hin) as Hp. assert (NoDup (path :: swap_remove path (small m))) as Hnd
      by by rewrite Hp. apply NoDup_cons in Hnd as [Hx Hnd].
    split; [split; simpl; [done| |by intros []]|].
    + apply Permutation_length in Hp. simpl in Hp. lia.
    + apply set_eq. intros x. pose proof (elem_of_Permutation_proper x _ _ Hp) as Hx'.
      rewrite elem_of_cons in Hx'. rewrite elem_of_difference, !elem_of_list_to_set, elem_of_singleton. naive_solver.
  - rewrite swap_remove_absent by done. split; [split; simpl; [done|done|by intros []]|]. set_solver.
Qed.

Lemma membership_len_members m : membership_ok m -> membership_len m = size (members m).
Proof.
  intros [Hn _ _]. unfold membership_len, members. destruct (large m); [done|]. by rewrite size_list_to_set.
Qed.

Lemma rangePaths_elem `{MR : !MapRange} m path : path ∈ rangePaths m <-> path ∈ members m.
Proof. unfold rangePaths, members. destruct (large m); [apply range_set_elem|by rewrite elem_of_list_to_set]. Qed.

(** ** Reverse indexes *)

(** The users of a key. *)
Definition users (index : gmap string pathMembership) (key : string) : gset string :=
  members (default no_membership (index !! key)).

(** A bucket is well-formed and never empty. *)
Definition index_ok (index : gmap string pathMembership) : Prop :=
  map_Forall (fun _ m => membership_ok m /\ members m <> ∅) index.

Lemma bucket_ok index key : index_ok index -> membership_ok (default no_membership (index !! key)).
Proof.
  intros H. destruct (index !! key) as [m|] eqn:E; [|apply no_membership_ok]. by apply (H key m).
Qed.

Lemma add_user_spec path index key : index_ok index ->
  index_ok (add_user path index key) /\
  forall k, users (add_user path index key) k = if bool_decide (k = key) then {[path]} ∪ users index k else users index k.
Proof.
  intros H. destruct (membership_add_spec _ path (bucket_ok index key H)) as [Ho Hm]. unfold add_user, users. split.
  - apply map_Forall_insert_2; [|done]. split; [done|]. rewrite Hm. set_solver.
  - intros k. case_bool_decide as Hk; [subst; by rewrite lookup_insert_eq|by rewrite lookup_insert_ne].
Qed.

Lemma remove_user_spec path index key : index_ok index ->
  index_ok (remove_user path index key) /\
  forall k, users (remove_user path index key) k = if bool_decide (k = key) then users index k ∖ {[path]} else users index k.
Proof.
  intros H. destruct (membership_remove_spec _ path (bucket_ok index key H)) as [Ho Hm]. unfold remove_user.
  rewrite membership_len_members, Hm by done. fold (users index key).
  destruct (Nat.eqb_spec (size (users index key ∖ {[path]})) 0) as [Hz|Hz].
  - apply size_empty_inv in Hz. split; [by apply map_Forall_delete|]. intros k. unfold users at 1.
    case_bool_decide as Hk; [subst|by rewrite lookup_delete_ne]. rewrite lookup_delete_eq. simpl. set_solver.
  - split.
    + apply map_Forall_insert_2; [|done]. split; [done|]. rewrite Hm. fold (users index key). intros He.
      apply Hz. by rewrite He, size_empty.
    + intros k. unfold users at 1. case_bool_decide as Hk; [subst; by rewrite lookup_insert_eq|by rewrite lookup_insert_ne].
Qed.

Lemma add_users_spec path keys index : index_ok index ->
  index_ok (foldl (add_user path) index keys) /\
  forall k p, p ∈ users (foldl (add_user path) index keys) k <-> p ∈ users index k \/ p = path /\ k ∈ keys.
Proof.
  revert index. induction keys as [|key keys IH]; intros index H; simpl.
  { split; [done|]. intros k p. rewrite elem_of_nil. tauto. }
  destruct (add_user_spec path index key H) as [Ho Hu]. destruct (IH _ Ho) as [IH1 IH2]. split; [done|].
  intros k p. rewrite IH2, Hu, elem_of_cons. case_bool_decide; set_solver.
Qed.

Lemma remove_users_spec path keys index : index_ok index ->
  index_ok (foldl (remove_user path) index keys) /\
  forall k p, p ∈ users (foldl (remove_user path) index keys) k <-> p ∈ users index k /\ ~ (p = path /\ k ∈ keys).
Proof.
  revert index. induction keys as [|key keys IH]; intros index H; simpl.
  { split; [done|]. intros k p. rewrite elem_of_nil. tauto. }
  destruct (remove_user_spec path index key H) as [Ho Hu]. destruct (IH _ Ho) as [IH1 IH2]. split; [done|].
  intros k p. rewrite IH2, Hu, elem_of_cons. case_bool_decide; set_solver.
Qed.

(** ** The store's invariant *)

Section Invariant.
Context `{MR : !MapRange} (heap : contribution_heap).

(** The index names, at every key, exactly the paths whose contribution has
    it. *)
Definition index_exact (keys : retainedContribution -> list string) (contributions : gmap string positive)
    (index : gmap string pathMembership) : Prop :=
  index_ok index /\
  forall key path, path ∈ users index key <->
    exists a, contributions !! path = Some a /\ key ∈ keys_at heap keys a.

Record store_ok (s : retainedContributionStore) : Prop := {
  so_dependents : index_exact dependencies (byPath s) (dependentsByPath s);
  so_users : index_exact descriptorSymbols (byPath s) (descriptorUsers s);
}.

Lemma empty_store_ok : store_ok empty_store.
Proof.
  assert (forall keys, index_exact keys ∅ ∅) as H.
  { intros keys. split; [apply map_Forall_empty|]. intros key path. unfold users. rewrite lookup_empty. simpl.
    split; [set_solver|]. intros (a & Ha & _). by rewrite lookup_empty in Ha. }
  by split.
Qed.

Lemma index_remove keys contributions index path a :
  index_exact keys contributions index -> contributions !! path = Some a ->
  index_exact keys (delete path contributions) (foldl (remove_user path) index (keys_at heap keys a)).
Proof.
  intros [Ho He] Ha. destruct (remove_users_spec path (keys_at heap keys a) index Ho) as [H1 H2]. split; [done|].
  intros key p. rewrite H2, He. split.
  - intros [(b & Hb & Hk) Hn]. exists b. split; [|done]. rewrite lookup_delete_ne; [done|]. intros <-.
    rewrite Ha in Hb. injection Hb as ->. by apply Hn.
  - intros (b & Hb & Hk). apply lookup_delete_Some in Hb as [Hne Hb]. split; [by exists b|]. by intros [-> _].
Qed.

Lemma index_add keys contributions index path a :
  index_exact keys contributions index -> contributions !! path = None ->
  index_exact keys (<[path := a]> contributions) (foldl (add_user path) index (keys_at heap keys a)).
Proof.
  intros [Ho He] Hn. destruct (add_users_spec path (keys_at heap keys a) index Ho) as [H1 H2]. split; [done|].
  intros key p. rewrite H2, He. split.
  - intros [(b & Hb & Hk)|[-> Hk]]; [exists b; split; [|done]|exists a; split; [by rewrite lookup_insert_eq|done]].
    rewrite lookup_insert_ne; [done|]. intros <-. by rewrite Hn in Hb.
  - intros (b & Hb & Hk). apply lookup_insert_Some in Hb as [[<- <-]|[Hne Hb]]; [by right|left; by exists b].
Qed.

Lemma store_remove_spec s path : store_ok s ->
  store_ok (store_remove heap s path) /\ byPath (store_remove heap s path) = delete path (byPath s).
Proof.
  intros [Hd Hu]. unfold store_remove. destruct (byPath s !! path) as [a|] eqn:E; simpl.
  - split; [split; by apply index_remove|done].
  - split; [by split|]. by rewrite delete_id.
Qed.

Lemma store_add_spec s path a : store_ok s ->
  store_ok (store_add heap s path a) /\ byPath (store_add heap s path a) = <[path := a]> (byPath s).
Proof.
  intros H. unfold store_add. simpl.
  set (s' := match byPath s !! path with Some _ => _ | None => _ end).
  assert (store_ok s' /\ byPath s' = delete path (byPath s)) as [[Hd Hu] Hb].
  { unfold s'. destruct (byPath s !! path) eqn:E; [by apply store_remove_spec|]. split; [done|]. by rewrite delete_id. }
  assert (byPath s' !! path = None) as Hn by (rewrite Hb; apply lookup_delete_eq).
  split; [split; by apply index_add|]. rewrite Hb. apply insert_delete_eq.
Qed.

Lemma removes_spec s paths : store_ok s ->
  store_ok (foldl (store_remove heap) s paths) /\
  forall p, byPath (foldl (store_remove heap) s paths) !! p = if bool_decide (p ∈ paths) then None else byPath s !! p.
Proof.
  revert s. induction paths as [|q paths IH]; intros s H; simpl; [done|].
  destruct (store_remove_spec s q H) as [H1 H2]. destruct (IH _ H1) as [H3 H4]. split; [done|]. intros p. rewrite H4, H2.
  destruct (decide (p = q)) as [->|Hne].
  - rewrite lookup_delete_eq. rewrite (bool_decide_eq_true_2 (q ∈ q :: paths)) by left. by case_bool_decide.
  - rewrite lookup_delete_ne by done. repeat case_bool_decide; rewrite ?elem_of_cons in *; tauto.
Qed.
End Invariant.

(** ** What each operation does *)

Section Operations.
Context `{MR : !MapRange} (heap : contribution_heap).

Lemma rangeDescriptorUsers_elem s symbol path : store_ok heap s ->
  path ∈ rangeDescriptorUsers s symbol <->
  exists a, byPath s !! path = Some a /\ symbol ∈ keys_at heap descriptorSymbols a.
Proof. intros [_ [_ H]]. unfold rangeDescriptorUsers. rewrite rangePaths_elem. apply H. Qed.

Lemma foldl_add_elem (l : list string) (s : gset string) p :
  p ∈ foldl (fun s x => {[x]} ∪ s) s l <-> p ∈ s \/ p ∈ l.
Proof.
  revert s. induction l as [|x l IH]; intros s; simpl; [rewrite elem_of_nil; tauto|].
  rewrite IH, elem_of_union, elem_of_singleton, elem_of_cons. tauto.
Qed.

Lemma direct_dependents_elem s direct (paths : gset string) p : store_ok heap s ->
  p ∈ foldl (fun paths path =>
    foldl (fun paths dependent => {[dependent]} ∪ paths) paths
      (rangePaths (default no_membership (dependentsByPath s !! path)))) paths direct <->
  p ∈ paths \/ exists a d, byPath s !! p = Some a /\ d ∈ direct /\ d ∈ keys_at heap dependencies a.
Proof.
  intros H. revert paths. induction direct as [|q direct IH]; intros paths; simpl.
  { split; [by left|]. intros [?|(a & d & _ & Hd & _)]; [done|]. by apply elem_of_nil in Hd. }
  rewrite IH, foldl_add_elem, rangePaths_elem. destruct H as [[_ H] _]. fold (users (dependentsByPath s) q).
  rewrite H. split.
  - intros [[?|(a & Ha & Hk)]|(a & d & Ha & Hd & Hk)]; [by left|right; exists a, q; set_solver|right; exists a, d; set_solver].
  - intros [?|(a & d & Ha & [->|Hd]%elem_of_cons & Hk)]; [by left; left|left; right; by exists a|right; by exists a, d].
Qed.

Lemma discard_spec s paths : store_ok heap s ->
  store_ok heap (discard heap s paths) /\
  forall p, byPath (discard heap s paths) !! p = if bool_decide (p ∈ paths) then None else byPath s !! p.
Proof.
  intros H. destruct (removes_spec heap s (range_set paths) H) as [H1 H2]. split; [done|]. intros p.
  unfold discard. rewrite H2. case_bool_decide as Hc; rewrite range_set_elem in Hc; by case_bool_decide.
Qed.

Lemma invalidate_spec s paths : store_ok heap s ->
  let '(s', paths') := invalidate heap s paths in
  store_ok heap s' /\
  (forall p, p ∈ paths' <-> p ∈ paths \/
    exists a d, byPath s !! p = Some a /\ d ∈ paths /\ d ∈ keys_at heap dependencies a) /\
  (forall p, byPath s' !! p = if bool_decide (p ∈ paths') then None else byPath s !! p).
Proof.
  intros H. unfold invalidate. set (paths' := foldl _ paths _).
  destruct (discard_spec s paths' H) as [H1 H2]. split_and!; [done| |done]. intros p. unfold paths'.
  rewrite direct_dependents_elem by done. by setoid_rewrite range_set_elem.
Qed.

(** The first removals of a commit. *)
Lemma withdraw_spec s (desired : gset string) : store_ok heap s ->
  let s' := foldl (fun s path => if bool_decide (path ∈ desired) then s else store_remove heap s path) s (range_map (byPath s)).*1 in
  store_ok heap s' /\ forall p, byPath s' !! p = if bool_decide (p ∈ desired) then byPath s !! p else None.
Proof.
  intros H. assert (forall l t, store_ok heap t ->
    let t' := foldl (fun s path => if bool_decide (path ∈ desired) then s else store_remove heap s path) t l in
    store_ok heap t' /\ forall p, byPath t' !! p = if bool_decide (p ∈ l /\ p ∉ desired) then None else byPath t !! p) as HL.
  { induction l as [|q l IH]; intros t Ht; cbn [foldl].
    { split; [done|]. intros p. rewrite bool_decide_eq_false_2; [done|]. rewrite elem_of_nil. tauto. }
    case_bool_decide as Hq.
    - destruct (IH t Ht) as [H1 H2]. split; [done|]. intros p. rewrite H2. repeat case_bool_decide; set_solver.
    - destruct (store_remove_spec heap t q Ht) as [Hr1 Hr2]. destruct (IH _ Hr1) as [H1 H2]. split; [done|].
      intros p. rewrite H2, Hr2. destruct (decide (p = q)) as [->|Hne].
      + rewrite lookup_delete_eq. repeat case_bool_decide; set_solver.
      + rewrite lookup_delete_ne by done. repeat case_bool_decide; rewrite ?elem_of_cons in *; tauto. }
  destruct (HL (range_map (byPath s)).*1 s H) as [H1 H2]. split; [done|]. intros p. rewrite H2.
  destruct (decide (p ∈ desired)) as [Hin|Hout].
  { rewrite bool_decide_eq_false_2 by tauto. by rewrite bool_decide_eq_true_2. }
  rewrite (bool_decide_eq_false_2 (p ∈ desired)) by done. case_bool_decide as Hc; [done|].
  destruct (byPath s !! p) as [a|] eqn:E; [|done]. exfalso. apply Hc. split; [|done].
  apply list_elem_of_fmap. exists (p, a). split; [done|]. by apply range_map_elem.
Qed.

Lemma desired_elem groups (desired : gset string) p :
  p ∈ foldl (fun desired g => match durable_contribution heap g with Some _ => {[dg_path g]} ∪ desired | None => desired end)
    desired groups <->
  p ∈ desired \/ exists g a, g ∈ groups /\ dg_path g = p /\ durable_contribution heap g = Some a.
Proof.
  revert desired. induction groups as [|g groups IH]; intros desired; simpl.
  { split; [by left|]. intros [?|(g & a & Hg & _)]; [done|]. by apply elem_of_nil in Hg. }
  rewrite IH. destruct (durable_contribution heap g) as [a|] eqn:E.
  - rewrite elem_of_union, elem_of_singleton. split.
    + intros [[->|?]|(h & b & ?)]; [right; exists g, a; set_solver|by left|right; exists h, b; set_solver].
    + intros [?|(h & b & [->|Hh]%elem_of_cons & Hp & Hb)]; [by left; right|left; left; done|right; by exists h, b].
  - split.
    + intros [?|(h & b & ?)]; [by left|right; exists h, b; set_solver].
    + intros [?|(h & b & [->|Hh]%elem_of_cons & Hp & Hb)]; [by left|congruence|right; by exists h, b].
Qed.

Lemma commit_group_spec s g : store_ok heap s ->
  store_ok heap (commit_group heap s g) /\
  forall p, byPath (commit_group heap s g) !! p =
    match durable_contribution heap g with
    | Some a => if bool_decide (p = dg_path g) then Some a else byPath s !! p
    | None => byPath s !! p
    end.
Proof.
  intros H. unfold commit_group. destruct (durable_contribution heap g) as [a|]; [|done].
  case_bool_decide as Hb.
  - split; [done|]. intros p. case_bool_decide; by subst.
  - destruct (store_add_spec heap s (dg_path g) a H) as [H1 H2]. split; [done|]. intros p. rewrite H2.
    case_bool_decide; [subst; apply lookup_insert_eq|by apply lookup_insert_ne].
Qed.

Lemma commit_groups_spec groups s : store_ok heap s -> NoDup (map dg_path groups) ->
  store_ok heap (foldl (commit_group heap) s groups) /\
  forall p a, byPath (foldl (commit_group heap) s groups) !! p = Some a <->
    (exists g, g ∈ groups /\ dg_path g = p /\ durable_contribution heap g = Some a) \/
    byPath s !! p = Some a /\ forall g b, g ∈ groups -> dg_path g = p -> durable_contribution heap g <> Some b.
Proof.
  revert s. induction groups as [|g groups IH]; intros s H Hnd; simpl.
  { split; [done|]. intros p a. split; [|by intros [(g & Hg & _)|[? _]]; [apply elem_of_nil in Hg|]].
    intros Ha. right. split; [done|]. intros g b Hg. by apply elem_of_nil in Hg. }
  simpl in Hnd. apply NoDup_cons in Hnd as [Hg Hnd]. destruct (commit_group_spec s g H) as [H1 H2].
  destruct (IH _ H1 Hnd) as [H3 H4]. split; [done|]. intros p a. rewrite H4, H2.
  assert (forall h, h ∈ groups -> dg_path h <> dg_path g) as Hdis.
  { intros h Hh He. apply Hg. rewrite <- He. by apply list_elem_of_fmap_2. }
  destruct (durable_contribution heap g) as [b|] eqn:E; [case_bool_decide as Hp; [subst p|]|].
  - split.
    + intros [(h & Hh & He & _)|[[= ->] _]]; [by destruct (Hdis h)|]. left. exists g. set_solver.
    + intros [(h & [->|Hh]%elem_of_cons & He & Hb)|[_ Hn]]; [|by destruct (Hdis h)|by destruct (Hn g b); set_solver].
      rewrite E in Hb. injection Hb as ->. right. split; [done|]. intros h c Hh Hq. by destruct (Hdis h).
  - split.
    + intros [(h & Hh & He & Hb)|[Ha Hn]]; [left; exists h; set_solver|]. right. split; [done|].
      intros h c [->|Hh]%elem_of_cons He; [by destruct Hp|by apply Hn].
    + intros [(h & [->|Hh]%elem_of_cons & He & Hb)|[Ha Hn]]; [by destruct Hp|left; by exists h|]. right.
      split; [done|]. intros h c Hh. apply Hn. set_solver.
  - split.
    + intros [(h & Hh & He & Hb)|[Ha Hn]]; [left; exists h; set_solver|]. right. split; [done|].
      intros h c [->|Hh]%elem_of_cons He; [congruence|by apply Hn].
    + intros [(h & [->|Hh]%elem_of_cons & He & Hb)|[Ha Hn]]; [congruence|left; by exists h|]. right.
      split; [done|]. intros h c Hh. apply Hn. set_solver.
Qed.

(** Without the groups' paths distinct, the store is still sound. *)
Lemma commit_ok s groups : store_ok heap s -> store_ok heap (commit heap s groups).
Proof.
  intros H. unfold commit. cbv zeta. set (desired := foldl _ ∅ groups).
  destruct (withdraw_spec s desired H) as [H1 _]. cbv zeta in H1. set (t := foldl _ s _) in *. clearbody t.
  revert t H1. induction groups as [|g groups IH]; intros t Ht; [done|]. simpl. apply IH. by apply commit_group_spec.
Qed.
(** What a commit leaves stored. *)
Lemma commit_spec s groups path a : store_ok heap s -> NoDup (map dg_path groups) ->
  contribution_get (commit heap s groups) path = Some a <->
    exists g c, g ∈ groups /\ dg_path g = path /\ dg_contribution g = Some a /\ heap !! a = Some c /\ durable c = true.
Proof.
  intros H Hnd. unfold contribution_get, commit. cbv zeta.
  set (desired := foldl _ ∅ groups).
  destruct (withdraw_spec s desired H) as [H1 H2]. cbv zeta in H1, H2. set (t := foldl _ s _) in *. clearbody t.
  destruct (commit_groups_spec groups t H1 Hnd) as [_ H4]. rewrite H4, H2. clear H4.
  assert (forall g, durable_contribution heap g = Some a <->
    exists c, dg_contribution g = Some a /\ heap !! a = Some c /\ durable c = true) as Hd.
  { intros g. unfold durable_contribution. split.
    - destruct (dg_contribution g) as [b|]; [|done]. destruct (heap !! b) as [c|] eqn:E; simpl; [|done].
      destruct (durable c) eqn:Ed; [|done]. intros [= ->]. by exists c.
    - intros (c & -> & Hc & Hk). rewrite Hc. simpl. by rewrite Hk. }
  setoid_rewrite Hd. split.
  - intros [(g & Hg & Hp & c & ?)|[Ha Hn]]; [by exists g, c|]. exfalso. case_bool_decide as Hin; [|done].
    apply desired_elem in Hin as [Hin|(g & b & Hg & Hp & Hb)]; [by apply elem_of_empty in Hin|by destruct (Hn g b)].
  - intros (g & c & Hg & Hp & Hc). left. exists g. split_and!; [done|done|by exists c].
Qed.
End Operations.

(** ** The store over a session *)

Section Session.
Context `{MR : !MapRange}.

(** The calls a session makes: a contribution is prepared into a fresh cell,
    its seeds are taken or its rows given away through any of its pointers,
    and the store's operations run on the heap as it then is. *)
Inductive store_step : contribution_heap * retainedContributionStore -> contribution_heap * retainedContributionStore -> Prop :=
  | step_prepare heap s a c : heap !! a = None -> store_step (heap, s) (<[a := c]> heap, s)
  | step_seeds heap s a : store_step (heap, s) (alter prepareTransportSeeds a heap, s)
  | step_release heap s a : store_step (heap, s) (alter releaseTransportRows a heap, s)
  | step_add heap s path a : is_Some (heap !! a) -> store_step (heap, s) (heap, store_add heap s path a)
  | step_remove heap s path : store_step (heap, s) (heap, store_remove heap s path)
  | step_invalidate heap s paths : store_step (heap, s) (heap, fst (invalidate heap s paths))
  | step_discard heap s paths : store_step (heap, s) (heap, discard heap s paths)
  | step_commit heap s groups : store_step (heap, s) (heap, commit heap s groups)
  | step_reset heap s : store_step (heap, s) (heap, reset s).

Definition allocated (heap : contribution_heap) (s : retainedContributionStore) : Prop :=
  map_Forall (fun _ a => is_Some (heap !! a)) (byPath s).

(** The exactness of an index depends on the keys of the stored
    contributions only. *)
Lemma index_heap heap heap' keys contributions index :
  index_exact heap keys contributions index ->
  (forall path a, contributions !! path = Some a -> keys_at heap' keys a = keys_at heap keys a) ->
  index_exact heap' keys contributions index.
Proof.
  intros [Ho He] Hk. split; [done|]. intros key path. rewrite He.
  split; intros (a & Ha & Hin); exists a; (split; [done|]); rewrite (Hk path a Ha) in *; done.
Qed.

Lemma store_heap heap heap' s : store_ok heap s -> allocated heap s ->
  (forall a c, heap !! a = Some c -> exists c', heap' !! a = Some c' /\
    dependencies c' = dependencies c /\ descriptorSymbols c' = descriptorSymbols c) ->
  store_ok heap' s /\ allocated heap' s.
Proof.
  intros [Hd Hu] Ha Hk.
  assert (forall path a, byPath s !! path = Some a ->
    keys_at heap' dependencies a = keys_at heap dependencies a /\
    keys_at heap' descriptorSymbols a = keys_at heap descriptorSymbols a) as HK.
  { intros path a Hp. destruct (Ha path a Hp) as [c Hc]. destruct (Hk a c Hc) as (c' & Hc' & H1 & H2).
    unfold keys_at. by rewrite Hc, Hc'. }
  split; [split; (eapply index_heap; [done|]); intros path a Hp; by destruct (HK path a Hp)|].
  intros path a Hp. destruct (Ha path a Hp) as [c Hc]. by destruct (Hk a c Hc) as (c' & Hc' & _).
Qed.

Lemma alter_keeps_keys f (heap : contribution_heap) a :
  (forall c, dependencies (f c) = dependencies c /\ descriptorSymbols (f c) = descriptorSymbols c) ->
  forall b c, heap !! b = Some c -> exists c', alter f a heap !! b = Some c' /\
    dependencies c' = dependencies c /\ descriptorSymbols c' = descriptorSymbols c.
Proof.
  intros Hf b c Hc. destruct (decide (b = a)) as [->|Hne].
  - exists (f c). by rewrite lookup_alter_eq, Hc.
  - exists c. by rewrite lookup_alter_ne.
Qed.

Lemma seeds_keep_keys c :
  dependencies (prepareTransportSeeds c) = dependencies c /\ descriptorSymbols (prepareTransportSeeds c) = descriptorSymbols c.
Proof. unfold prepareTransportSeeds. destruct (c_entities c), (seedsPrepared c); done. Qed.

Lemma release_keeps_keys c :
  dependencies (releaseTransportRows c) = dependencies c /\ descriptorSymbols (releaseTransportRows c) = descriptorSymbols c.
Proof. unfold releaseTransportRows. destruct (c_entities c); [|done]. simpl. apply seeds_keep_keys. Qed.

(** A store that only loses paths stays allocated. *)
Lemma allocated_subset heap s s' :
  (forall p a, byPath s' !! p = Some a -> byPath s !! p = Some a) -> allocated heap s -> allocated heap s'.
Proof. intros Hs H p a Hp. exact (H p a (Hs p a Hp)). Qed.

Lemma durable_allocated heap g a : durable_contribution heap g = Some a -> is_Some (heap !! a).
Proof.
  unfold durable_contribution. destruct (dg_contribution g) as [b|]; [|done].
  destruct (heap !! b) eqn:E; simpl; [|done]. case_match; [|done]. intros [= <-]. by rewrite E.
Qed.

Lemma commit_allocated heap s groups : store_ok heap s -> allocated heap s -> allocated heap (commit heap s groups).
Proof.
  intros H Ha. unfold commit. cbv zeta. set (desired := foldl _ ∅ groups).
  destruct (withdraw_spec heap s desired H) as [H1 H2]. cbv zeta in H1, H2. set (t := foldl _ s _) in *.
  assert (allocated heap t) as Hal.
  { eapply allocated_subset; [|done]. intros p a. rewrite H2. by case_bool_decide. }
  clearbody t. clear H2. revert t H1 Hal. induction groups as [|g groups IH]; intros t Ht Hal; [done|].
  destruct (commit_group_spec heap t g Ht) as [H3 H4]. apply IH; [done|]. intros p a. rewrite H4.
  destruct (durable_contribution heap g) as [b|] eqn:E; [|apply Hal].
  case_bool_decide; [|apply Hal]. intros [= <-]. by eapply durable_allocated.
Qed.

Lemma store_step_ok x y : store_step x y -> store_ok (fst x) (snd x) -> allocated (fst x) (snd x) ->
  store_ok (fst y) (snd y) /\ allocated (fst y) (snd y).
Proof.
  destruct 1 as [heap s a c Hn|heap s a|heap s a|heap s path a Ha|heap s path|heap s paths|heap s paths|heap s groups|heap s];
    cbn [fst snd]; intros Hok Hal.
  - eapply store_heap; [done|done|]. intros b d Hb. exists d. rewrite lookup_insert_ne; [done|]. congruence.
  - eapply store_heap; [done|done|]. apply alter_keeps_keys, seeds_keep_keys.
  - eapply store_heap; [done|done|]. apply alter_keeps_keys, release_keeps_keys.
  - destruct (store_add_spec heap s path a Hok) as [H1 H2]. split; [done|]. unfold allocated. rewrite H2.
    by apply map_Forall_insert_2.
  - destruct (store_remove_spec heap s path Hok) as [H1 H2]. split; [done|]. unfold allocated. rewrite H2.
    by apply map_Forall_delete.
  - pose proof (invalidate_spec heap s paths Hok) as H. destruct (invalidate heap s paths) as [s' paths'].
    destruct H as (H1 & _ & H2). split; [done|]. eapply allocated_subset; [|done]. intros p a. cbn [fst]. rewrite H2. by case_bool_decide.
  - destruct (discard_spec heap s paths Hok) as [H1 H2]. split; [done|].
    eapply allocated_subset; [|done]. intros p a. rewrite H2. by case_bool_decide.
  - split; [by apply commit_ok|by apply commit_allocated].
  - split; [apply empty_store_ok|]. apply map_Forall_empty.
Qed.

(** C39: In every state a session can reach by preparing contributions, taking their seeds,
    giving their rows away and calling the store, both reverse indexes name exactly the stored
    contributions that have the key, no bucket is empty and none outgrows its short form. *)
Theorem retained_indexes_exact heap0 heap s path key :
  rtc store_step (heap0, empty_store) (heap, s) ->
  (path ∈ rangeDescriptorUsers s key <->
    exists a c, contribution_get s path = Some a /\ heap !! a = Some c /\ key ∈ descriptorSymbols c) /\
  (path ∈ rangePaths (default no_membership (dependentsByPath s !! key)) <->
    exists a c, contribution_get s path = Some a /\ heap !! a = Some c /\ key ∈ dependencies c) /\
  (forall m, dependentsByPath s !! key = Some m \/ descriptorUsers s !! key = Some m ->
    (0 < membership_len m)%nat /\ ((pathMembershipMapThreshold < membership_len m)%nat -> is_Some (large m))).
Proof.
  intros Hr. assert (store_ok heap s /\ allocated heap s) as [[Hd Hu] Hal].
  { remember (heap0, empty_store) as x eqn:Ex. remember (heap, s) as y eqn:Ey.
    assert (store_ok (fst x) (snd x) /\ allocated (fst x) (snd x)) as H0.
    { subst. split; [apply empty_store_ok|apply map_Forall_empty]. }
    change heap with (fst (heap, s)). change s with (snd (heap, s)) at 2 4. rewrite <- Ey. clear Ex Ey.
    induction Hr as [x|x z y Hxz Hzy IH]; [done|]. apply IH. destruct H0. by eapply store_step_ok. }
  assert (forall keys index, index_exact heap keys (byPath s) index ->
    path ∈ users index key <-> exists a c, contribution_get s path = Some a /\ heap !! a = Some c /\ key ∈ keys c) as Hix.
  { intros keys index [_ He]. rewrite He. unfold contribution_get, keys_at. split.
    - intros (a & Ha & Hk). destruct (Hal path a Ha) as [c Hc]. exists a, c. by rewrite Hc in Hk.
    - intros (a & c & Ha & Hc & Hk). exists a. by rewrite Hc. }
  unfold rangeDescriptorUsers. rewrite !rangePaths_elem. split_and!; [by apply Hix|by apply Hix|].
  assert (forall index m, index_ok index -> index !! key = Some m -> (0 < membership_len m)%nat /\
    ((pathMembershipMapThreshold < membership_len m)%nat -> is_Some (large m))) as Hm.
  { intros index m Hi Hk. destruct (Hi key m Hk) as [Ho Hne]. split.
    - rewrite membership_len_members by done. apply Nat.neq_0_lt_0. intros Hz. apply Hne. by apply leibniz_equiv, size_empty_inv.
    - unfold membership_len. destruct (large m); [by eexists|]. destruct Ho. lia. }
  intros m [Hk|Hk]; by eapply Hm; [|done]; [apply Hd || apply Hu].
Qed.
End Session.

(** ** Publication and invalidation *)

Section Transactions.
Context `{MR : !MapRange}.

(** A commit of groups with distinct paths leaves exactly the durable contributions of the
    groups stored, whatever was stored before, and keeps the indexes exact. *)
Theorem commit_publishes heap s groups : store_ok heap s -> NoDup (map dg_path groups) ->
  store_ok heap (commit heap s groups) /\
  (forall path a, contribution_get (commit heap s groups) path = Some a <->
    exists g c, g ∈ groups /\ dg_path g = path /\ dg_contribution g = Some a /\ heap !! a = Some c /\ durable c = true) /\
  commit heap (reset s) groups = commit heap empty_store groups.
Proof.
  intros H Hnd. split_and!; [by apply commit_ok| |done]. intros path a. by apply commit_spec.
Qed.

(** Invalidation extends the paths by their direct dependents, removes exactly the
    contributions of the extended set and keeps no contribution that depends on an invalidated
    path. *)
Theorem invalidate_closes heap s paths : store_ok heap s ->
  let '(s', paths') := invalidate heap s paths in
  store_ok heap s' /\
  (forall path, path ∈ paths' <-> path ∈ paths \/
    exists a c dependency, contribution_get s path = Some a /\ heap !! a = Some c /\
      dependency ∈ dependencies c /\ dependency ∈ paths) /\
  (forall path, contribution_get s' path = if bool_decide (path ∈ paths') then None else contribution_get s path) /\
  (forall path a c dependency, contribution_get s' path = Some a -> heap !! a = Some c ->
    dependency ∈ dependencies c -> dependency ∉ paths).
Proof.
  intros H. pose proof (invalidate_spec heap s paths H) as Hs. destruct (invalidate heap s paths) as [s' paths'].
  destruct Hs as (H1 & H2 & H3). unfold contribution_get.
  assert (forall path, path ∈ paths' <-> path ∈ paths \/
    exists a c dependency, byPath s !! path = Some a /\ heap !! a = Some c /\ dependency ∈ dependencies c /\ dependency ∈ paths) as H4.
  { intros path. rewrite H2. unfold keys_at. split; (intros [?|Hx]; [by left|right]).
    - destruct Hx as (a & d & Ha & Hd & Hk). destruct (heap !! a) as [c|] eqn:E; [|by apply elem_of_nil in Hk]. by exists a, c, d.
    - destruct Hx as (a & c & d & Ha & Hc & Hk & Hd). exists a, d. by rewrite Hc. }
  split_and!; [done|done|done|]. intros path a c d Ha Hc Hk Hd. rewrite H3 in Ha. case_bool_decide as Hin; [done|].
  apply Hin, H4. right. by exists a, c, d.
Qed.
End Transactions.

(** Two files, the second of which reads the first. *)
Definition contribution_of (deps : list string) (symbols : list SymbolID) (keep : bool) : retainedContribution :=
  mkContribution 0 (Some []) [] [] [] [] [] deps symbols keep false.
Definition sample_heap : contribution_heap :=
  <[1%positive := contribution_of [] ["s"] true]> (<[2%positive := contribution_of ["a.ts"] ["s"; "t"] true]>
    (<[3%positive := contribution_of ["a.ts"] [] false]> ∅)).
Definition group_at (path : string) (contribution : option positive) : demandGroup :=
  mkDemandGroup path None (mkCompactDemandGroup 0 []) None 0 contribution.
Definition sample_groups : list demandGroup :=
  [group_at "a.ts" (Some 1%positive); group_at "b.ts" (Some 2%positive); group_at "c.ts" (Some 3%positive); group_at "d.ts" None].

Lemma retained_indexes_exact_witness :
  "b.ts" ∈ rangeDescriptorUsers (commit sample_heap empty_store sample_groups) "t" <->
    exists a c, contribution_get (commit sample_heap empty_store sample_groups) "b.ts" = Some a /\
      sample_heap !! a = Some c /\ "t" ∈ descriptorSymbols c.
Proof.
  eapply (retained_indexes_exact sample_heap sample_heap (commit sample_heap empty_store sample_groups)).
  eapply rtc_once, step_commit.
Defined.

Lemma commit_publishes_witness :
  store_ok sample_heap (commit sample_heap empty_store sample_groups) /\
  contribution_get (commit sample_heap empty_store sample_groups) "b.ts" = Some 2%positive /\
  contribution_get (commit sample_heap empty_store sample_groups) "c.ts" = None.
Proof.
  destruct (commit_publishes sample_heap empty_store sample_groups (empty_store_ok _)) as (H1 & H2 & _).
  { simpl. repeat (apply NoDup_cons; split; [set_solver|]). apply NoDup_nil_2. }
  split; [exact H1|split; [|reflexivity]]. apply H2. exists (group_at "b.ts" (Some 2%positive)), (contribution_of ["a.ts"] ["s"; "t"] true).
  split; [right; left|split_and!; reflexivity].
Defined.

Lemma invalidate_closes_witness :
  let '(s, paths) := invalidate sample_heap (commit sample_heap empty_store sample_groups) {["a.ts"]} in
  store_ok sample_heap s /\ paths = {["a.ts"; "b.ts"]} /\ contribution_get s "b.ts" = None.
Proof.
  pose proof (invalidate_closes sample_heap (commit sample_heap empty_store sample_groups) {["a.ts"]}
    (commit_ok _ _ _ (empty_store_ok _))) as H.
  assert (snd (invalidate sample_heap (commit sample_heap empty_store sample_groups) {["a.ts"]}) = {["a.ts"; "b.ts"]} /\
    contribution_get (fst (invalidate sample_heap (commit sample_heap empty_store sample_groups) {["a.ts"]})) "b.ts" = None) as Hc
    by (split; vm_compute; reflexivity).
  destruct (invalidate sample_heap (commit sample_heap empty_store sample_groups) {["a.ts"]}) as [s paths].
  destruct H as (H1 & _). split; [exact H1|exact Hc].
Defined.
