(* ===== verification/Closure.v ===== *)
(** * The demand closure

    [DemandClosure] of [closure.go]: the retained state between two tables, and
    the operations that do not materialize one. The compiler is behind
    [ClosureBackend], an interface of the source, so it is one here too; a
    context is polled through it, because a cancellation may arrive between
    any two steps.

    Calls hold the closure's mutex throughout, so each is one step. The fields
    that only recycle storage (the suppression, descriptor and async scratch)
    are always cleared before use and carry nothing; those that only the
    symbol closure uses are not kept here, because materialization leaves the
    closing of symbols to the client. Durations are readings of a clock and
    are left out. *)

From S2P Require Import Prelude GoStd GoText Model Modules DemandGroup Contributions ContributionStore SymbolStore FactTable TransportManifest Proc.
Open Scope Z_scope.

Record FileChange := mkFileChange {
  fc_Path : string;
  fc_Version : Z;
  fc_Source : list Z;
  fc_Deleted : bool;
}.

Record AffectedSet := mkAffectedSet { af_Files : list string }.

Record SymbolQueryV6 := mkSymbolQuery {
  sq_ID : SymbolID;
  sq_References : bool;
  ReferencesOnly : bool;
}.

Record SemanticScope := mkSemanticScope {
  Suppression : gset string;
  DescriptorSeed : gmap string TypeDescriptor;
}.

(** ** The backend *)

(** The capabilities a backend may have besides are [option]s. A context that
    was cancelled stays cancelled, and every path a backend returns is clean,
    as the interface demands. *)
Class ClosureBackend (W : Type) := {
  ctx_Err : W -> W * option error;
  bk_SourceFiles : proc W (list SourceFile);
  bk_Update : list FileChange -> proc W AffectedSet;
  bk_Close : proc W unit;
  ResolveAlias : SymbolID -> proc W SymbolID;
  bk_Declarations : SymbolID -> proc W (list Declaration);
  SemanticDemandRuns : list SemanticDemandRun -> SemanticScope -> proc W (list SemanticDemandRunResult);
  AsyncFunctionsAt : list Location -> proc W (list AsyncFunctionFact);
  ReferencesBatch : list SymbolID -> proc W (gmap string (list Location));
  ChangedReferences : proc W (list SymbolID * bool);
  ReleaseAnalysisState : W -> W;
  SourceDigests : option (proc W (list SourceDigest));
  SymbolEvidence : option (list SymbolQueryV6 -> proc W (list SymbolFact));
  bk_ModuleGraph : option (ModuleInventoryDemand -> proc W ModuleInventory);
  bk_Update_clean : forall changes w w' affected,
    bk_Update changes w = (w', Ok affected) -> Forall (fun path => Clean path = path) (af_Files affected);
  ctx_Err_sticky : forall w w' e, ctx_Err w = (w', Some e) -> snd (ctx_Err w') = Some e;
}.

(** [if err := ctx.Err(); err != nil { return err }]. *)
Definition ctx_check `{BE : !ClosureBackend W} : proc W unit := fun w =>
  let '(w, e) := ctx_Err w in (w, match e with Some e => Err e | None => Ok tt end).

(** ** Retained state *)

Record ClosureRetention := mkRetention {
  RetainedFiles : Z;
  RecomputedFiles : Z;
  RetainedAsyncFiles : Z;
  RecomputedAsyncFiles : Z;
  NonDurableFiles : Z;
  SuppressionRecompute : bool;
}.
Definition no_retention : ClosureRetention := mkRetention 0 0 0 0 0 false.

Record ClosureStats := mkStats {
  BuildSequence : Z;
  st_Generation : Z;
  st_Files : Z;
  st_Entities : Z;
  st_Symbols : Z;
  FullTierSymbols : Z;
  Retention : ClosureRetention;
}.

Record DemandClosure := mkClosure {
  table : option FactTable;
  previousTable : option FactTable;
  recyclableTable : option FactTable;
  transportChangedPaths : option (gset string);
  stats : ClosureStats;
  generation : Z;
  nextTableStateID : Z;
  cl_closed : bool;
  retained : retainedContributionStore;
  lastSuppression : option (gset string);
  symbolReferences : gmap string (list Location);
  symbolsByPath : gmap string (list SymbolID);
  invalidatedSymbols : gset string;
  symbolMemoComplete : bool;
  asyncFiles : option (gmap string (list AsyncFunctionFact));
}.

Definition newDemandClosure : DemandClosure :=
  mkClosure None None None None (mkStats 0 0 0 0 0 0 no_retention) 1 0 false empty_store None ∅ ∅ ∅ false None.

(** The closure, the contributions it points to, the demand runs of the
    session, which it works on in place, and the world outside. *)
Record machine {W : Type} := mkMachine {
  m_closure : DemandClosure;
  m_heap : contribution_heap;
  m_groups : list demandGroup;
  m_world : W;
}.
Arguments machine : clear implicits.
Arguments mkMachine {W}.

Definition set_closure {W} (m : machine W) (p : DemandClosure) : machine W :=
  mkMachine p (m_heap m) (m_groups m) (m_world m).
Definition set_heap {W} (m : machine W) (h : contribution_heap) : machine W :=
  mkMachine (m_closure m) h (m_groups m) (m_world m).
Definition set_groups {W} (m : machine W) (gs : list demandGroup) : machine W :=
  mkMachine (m_closure m) (m_heap m) gs (m_world m).
Definition set_world {W} (m : machine W) (w : W) : machine W :=
  mkMachine (m_closure m) (m_heap m) (m_groups m) w.

Definition modify_closure {W} (f : DemandClosure -> DemandClosure) : proc (machine W) unit :=
  p_modify (fun m => set_closure m (f (m_closure m))).
Definition in_world {W A} (f : proc W A) : proc (machine W) A := p_zoom m_world set_world f.

(** ** Storage given back *)

Definition with_rows (t : FactTable) (es : list EntityFact) (files : list FileFact) (digests : option (list SourceDigest))
    (runs : option (list (list EntityFact))) : FactTable :=
  mkFactTable (Schema t) (Generation t) (ProjectID t) (Sources t) es (Symbols t) files (stateID t) (transport t)
    (ft_symbols t) digests (pathSymbols t) runs.

(** [t.Entities = nil; t.entityRuns = t.entityRuns[:0]; t.Files = nil; t.sourceDigests = nil]. *)
Definition release_table (t : FactTable) : FactTable :=
  with_rows t [] [] None (match entityRuns t with Some _ => Some [] | None => None end).

Definition set_tables (p : DemandClosure) (t previous recyclable : option FactTable) (changed : option (gset string)) : DemandClosure :=
  mkClosure t previous recyclable changed (stats p) (generation p) (nextTableStateID p) (cl_closed p) (retained p)
    (lastSuppression p) (symbolReferences p) (symbolsByPath p) (invalidatedSymbols p) (symbolMemoComplete p) (asyncFiles p).
Definition set_retained (p : DemandClosure) (s : retainedContributionStore) : DemandClosure :=
  mkClosure (table p) (previousTable p) (recyclableTable p) (transportChangedPaths p) (stats p) (generation p)
    (nextTableStateID p) (cl_closed p) s (lastSuppression p) (symbolReferences p) (symbolsByPath p)
    (invalidatedSymbols p) (symbolMemoComplete p) (asyncFiles p).

Definition closure_releaseTransportRows `{MR : !MapRange} {W} (m : machine W) : machine W :=
  let p := m_closure m in
  match table p with
  | None => m
  | Some t =>
      set_closure
        (set_heap m (foldl (fun heap a => alter releaseTransportRows a heap) (m_heap m) (range_map (byPath (retained p))).*2))
        (set_tables p (Some (release_table t)) (previousTable p) (recyclableTable p) (transportChangedPaths p))
  end.

Definition resetAnalysisStateLocked (p : DemandClosure) : DemandClosure :=
  mkClosure None None None None (stats p) (generation p) (nextTableStateID p) (cl_closed p) (reset (retained p))
    None ∅ ∅ ∅ false None.

Definition forceFullMaterialization (p : DemandClosure) : DemandClosure := resetAnalysisStateLocked p.
Definition abandonAnalysis (p : DemandClosure) : DemandClosure := resetAnalysisStateLocked p.

(** ** The index of symbols by declaring path *)

Definition index_declaration (id : SymbolID) (byPath : gmap string (list SymbolID)) (declaration : Declaration) :
    gmap string (list SymbolID) :=
  let path := Path (decl_Location declaration) in
  let ids := default [] (byPath !! path) in
  if bool_decide (id ∈ ids) then byPath else <[path := ids ++ [id]]> byPath.

Definition indexSymbolFact (byPath : gmap string (list SymbolID)) (fact : SymbolFact) : gmap string (list SymbolID) :=
  foldl (index_declaration (ID fact)) byPath (Declarations fact).

(** The first occurrence is cut out. *)
Fixpoint remove_first (id : SymbolID) (ids : list SymbolID) : list SymbolID :=
  match ids with
  | [] => []
  | existing :: ids' => if String.eqb existing id then ids' else existing :: remove_first id ids'
  end.

Definition unindex_declaration (id : SymbolID) (byPath : gmap string (list SymbolID)) (declaration : Declaration) :
    gmap string (list SymbolID) :=
  let path := Path (decl_Location declaration) in
  let ids := remove_first id (default [] (byPath !! path)) in
  match ids with [] => delete path byPath | _ => <[path := ids]> byPath end.

Definition unindexSymbolFact (byPath : gmap string (list SymbolID)) (fact : SymbolFact) : gmap string (list SymbolID) :=
  foldl (unindex_declaration (ID fact)) byPath (Declarations fact).

(** ** Accepting an update *)

(** The loop variables of the eviction: the index, the invalidated symbols and
    the reference lists. *)
Record eviction := mkEviction {
  ev_byPath : gmap string (list SymbolID);
  ev_invalidated : gset string;
  ev_references : gmap string (list Location);
}.

Definition evict_symbol (t : option FactTable) (path : string) (ids : list SymbolID) (id : SymbolID) (st : eviction) :
    result eviction :=
  match t with
  | None => Err (ErrText "nil pointer dereference")
  | Some t =>
      Ok (mkEviction
            (match canonicalSymbol t id with
             | Some fact => unindexSymbolFact (ev_byPath st) fact
             | None => <[path := take (length ids - 1) ids]> (ev_byPath st)
             end)
            ({[id]} ∪ ev_invalidated st) (delete id (ev_references st)))
  end.

(** [for len(p.symbolsByPath[path]) != 0]. Each turn shortens the path's list
    when the index agrees with the table, so its length is enough fuel. *)
Fixpoint evict_path (fuel : nat) (t : option FactTable) (path : string) (st : eviction) : result eviction :=
  let ids := default [] (ev_byPath st !! path) in
  match last ids with
  | None => Ok st
  | Some id =>
      match fuel with
      | O => Err (ErrText "eviction makes no progress")
      | S fuel' => let? st := evict_symbol t path ids id st in evict_path fuel' t path st
      end
  end.

Fixpoint evict_paths (t : option FactTable) (paths : list string) (st : eviction) : result eviction :=
  match paths with
  | [] => Ok st
  | path :: paths' =>
      let? st := evict_path (length (default [] (ev_byPath st !! path))) t path st in evict_paths t paths' st
  end.

Section Closure.
Context `{MR : !MapRange} {W : Type} `{BE : !ClosureBackend W}.

Definition invalid_paths (affected : AffectedSet) (changes : list FileChange) : gset string :=
  list_to_set (af_Files affected) ∪ list_to_set (map (fun change => Clean (fc_Path change)) changes).

(** The changed paths are the very map that [invalidate] extends. *)
Definition accept_update (invalid : gset string) (ev : eviction) (m : machine W) : machine W :=
  let p := m_closure m in
  let '(s, invalid) := invalidate (m_heap m) (retained p) invalid in
  set_closure m
    (mkClosure None (table p) (recyclableTable p) (Some invalid) (stats p) (u64 (generation p + 1))
      (nextTableStateID p) (cl_closed p) s (lastSuppression p) (ev_references ev) (ev_byPath ev)
      (ev_invalidated ev) (symbolMemoComplete p) (asyncFiles p)).

Definition Update (changes : list FileChange) : proc (machine W) AffectedSet :=
  do! affected := in_world (bk_Update changes) in
  let invalid := invalid_paths affected changes in
  do! m := p_get in
  let p := m_closure m in
  do! ev := p_lift (evict_paths (table p) (range_set invalid)
                      (mkEviction (symbolsByPath p) (invalidatedSymbols p) (symbolReferences p))) in
  p_modify (accept_update invalid ev) ;!
  p_ret affected.

(** ** Reads of the backend *)

Definition closed_error : error := ErrText "closure project is closed".

Definition when_open {A} (k : proc (machine W) A) : proc (machine W) A :=
  do! m := p_get in
  if cl_closed (m_closure m) then p_fail closed_error else k.

Definition Close : proc (machine W) unit :=
  modify_closure (fun p =>
    resetAnalysisStateLocked
      (mkClosure (table p) (previousTable p) (recyclableTable p) (transportChangedPaths p) (stats p) (generation p)
        (nextTableStateID p) true (retained p) (lastSuppression p) (symbolReferences p) (symbolsByPath p)
        (invalidatedSymbols p) (symbolMemoComplete p) (asyncFiles p))) ;!
  in_world bk_Close.

Definition closure_SourceFiles : proc (machine W) (list SourceFile) := when_open (in_world bk_SourceFiles).

Definition closure_ModuleGraph (demand : ModuleInventoryDemand) : proc (machine W) ModuleInventory :=
  when_open (match bk_ModuleGraph with
             | None => p_fail ErrModuleGraphUnavailable
             | Some provider => in_world (provider demand)
             end).

(** [if v, err := f(); err == nil { .. } else if !errors.Is(err, ErrNotFound) { return err }]. *)
Definition unless_missing {A} (f : proc W A) : proc W (option A) := fun w =>
  let '(w, r) := f w in
  (w, match r with
      | Ok a => Ok (Some a)
      | Err e => if error_is ErrNotFound e then Ok None else Err e
      end).

(** One row of the fallback batch, and the identities to ask references for. *)
Definition evidence_row (query : SymbolQueryV6) (st : list SymbolFact * list SymbolID) :
    proc W (list SymbolFact * list SymbolID) :=
  ctx_check ;!
  do! target := if ReferencesOnly query then p_ret None else unless_missing (ResolveAlias (sq_ID query)) in
  do! declarations := if ReferencesOnly query then p_ret None else unless_missing (bk_Declarations (sq_ID query)) in
  p_ret (fst st ++ [mkSymbolFact (sq_ID query) (default "" target) (default [] declarations) []],
         if sq_References query then snd st ++ [sq_ID query] else snd st).

Definition attach_references (references : gmap string (list Location)) (row : SymbolQueryV6 * SymbolFact) : SymbolFact :=
  let '(query, fact) := row in
  if sq_References query
  then mkSymbolFact (ID fact) (AliasTarget fact) (Declarations fact) (default [] (references !! sq_ID query))
  else fact.

Definition evidence_rows (queries : list SymbolQueryV6) : proc W (list SymbolFact) :=
  do! st := p_fold evidence_row queries ([], []) in
  do! references := ReferencesBatch (snd st) in
  p_ret (map (attach_references references) (zip queries (fst st))).

Definition resolveSymbolEvidence (queries : list SymbolQueryV6) : proc (machine W) (list SymbolFact) :=
  when_open (in_world (match SymbolEvidence with Some batched => batched queries | None => evidence_rows queries end)).

Definition releaseBackendAnalysisState : proc (machine W) unit :=
  p_modify (fun m => set_world m (ReleaseAnalysisState (m_world m))).

Definition changedReferences : proc (machine W) (list SymbolID * bool) := in_world ChangedReferences.
End Closure.
