(* ===== verification/SymbolClosure.v ===== *)
(** * Symbol closures (symbol_closure.go)

    [closeSymbols] drains the symbols a demand set reaches to a fixed point
    over alias targets, propagates the reference tier, and gives the canonical
    rows: patched into the retained store where the deltas allow it, collected
    and ordered otherwise. [patchStableSymbolUniverse] is the specialization for
    an unchanged universe.

    The builder is the state; where the code makes [closedReferences] the map
    of [cachedReferences], both fields hold it. The first pass over the queue
    and the choice of the references to refresh may run in parallel chunks in
    the code, which write disjoint positions and are joined in order; they are
    one loop here. The index by handle is as long as the interner is large; a
    reused array may be longer, with zeros, which are absent too. The map of
    entities, counters, durations and reused buffers are left out. *)

From S2P Require Import Prelude GoStd Model Proc SymbolIntern SymbolStore FactEqual Closure.

Record closureBuilder := mkBuilder {
  cb_interner : symbolInterner;
  symbolQueue : list SymbolID;
  queueHandles : list Z;
  symbolSeen : symbolHandleSet;
  fullTier : symbolHandleSet;
  cachedReferences : option (gmap string (list Location));
  cachedCanonicalStore : option symbolFactStore;
  invalidatedSymbols : gset string;
  closedSymbolStore : option symbolFactStore;
  closedReferences : option (gmap string (list Location));
  changedSymbols : changedSymbolSet;
  removedSymbolCandidates : gset string;
  removedSymbolIDs : list SymbolID;
  referenceChangesExact : bool;
  stableUniversePatch : bool;
}.

(** ** Small updates of the builder *)

Definition set_queue (b : closureBuilder) (n : symbolInterner) (queue : list SymbolID) (handles : list Z) (seen : symbolHandleSet) :
    closureBuilder :=
  mkBuilder n queue handles seen (fullTier b) (cachedReferences b) (cachedCanonicalStore b) (invalidatedSymbols b)
    (closedSymbolStore b) (closedReferences b) (changedSymbols b) (removedSymbolCandidates b) (removedSymbolIDs b)
    (referenceChangesExact b) (stableUniversePatch b).

Definition set_interner (b : closureBuilder) (n : symbolInterner) : closureBuilder :=
  set_queue b n (symbolQueue b) (queueHandles b) (symbolSeen b).

Definition set_tier (b : closureBuilder) (tier : symbolHandleSet) : closureBuilder :=
  mkBuilder (cb_interner b) (symbolQueue b) (queueHandles b) (symbolSeen b) tier (cachedReferences b) (cachedCanonicalStore b)
    (invalidatedSymbols b) (closedSymbolStore b) (closedReferences b) (changedSymbols b) (removedSymbolCandidates b)
    (removedSymbolIDs b) (referenceChangesExact b) (stableUniversePatch b).

Definition set_changed (b : closureBuilder) (n : symbolInterner) (changed : changedSymbolSet) : closureBuilder :=
  mkBuilder n (symbolQueue b) (queueHandles b) (symbolSeen b) (fullTier b) (cachedReferences b) (cachedCanonicalStore b)
    (invalidatedSymbols b) (closedSymbolStore b) (closedReferences b) changed (removedSymbolCandidates b)
    (removedSymbolIDs b) (referenceChangesExact b) (stableUniversePatch b).

Definition set_cached (b : closureBuilder) (references : option (gmap string (list Location))) : closureBuilder :=
  mkBuilder (cb_interner b) (symbolQueue b) (queueHandles b) (symbolSeen b) (fullTier b) references (cachedCanonicalStore b)
    (invalidatedSymbols b) (closedSymbolStore b) (closedReferences b) (changedSymbols b) (removedSymbolCandidates b)
    (removedSymbolIDs b) (referenceChangesExact b) (stableUniversePatch b).

Definition set_exact (b : closureBuilder) : closureBuilder :=
  mkBuilder (cb_interner b) (symbolQueue b) (queueHandles b) (symbolSeen b) (fullTier b) (cachedReferences b) (cachedCanonicalStore b)
    (invalidatedSymbols b) (closedSymbolStore b) (closedReferences b) (changedSymbols b) (removedSymbolCandidates b)
    (removedSymbolIDs b) true (stableUniversePatch b).

(** What a build leaves: the map of references, a store and what it removed. *)
Definition set_closed (b : closureBuilder) (references : gmap string (list Location)) (shared : bool)
    (store : option symbolFactStore) (removed : list SymbolID) (stable : bool) : closureBuilder :=
  mkBuilder (cb_interner b) (symbolQueue b) (queueHandles b) (symbolSeen b) (fullTier b)
    (if shared then Some references else cachedReferences b) (cachedCanonicalStore b)
    (invalidatedSymbols b) store (Some references) (changedSymbols b) (removedSymbolCandidates b)
    removed (referenceChangesExact b) stable.

Definition set_store (b : closureBuilder) (store : symbolFactStore) : closureBuilder :=
  mkBuilder (cb_interner b) (symbolQueue b) (queueHandles b) (symbolSeen b) (fullTier b) (cachedReferences b) (cachedCanonicalStore b)
    (invalidatedSymbols b) (Some store) (closedReferences b) (changedSymbols b) (removedSymbolCandidates b)
    (removedSymbolIDs b) (referenceChangesExact b) (stableUniversePatch b).

(** [b.changedSymbols.add(id)]. *)
Definition add_changed (b : closureBuilder) (id : SymbolID) : closureBuilder :=
  let '(n, changed) := changed_add (cb_interner b, changedSymbols b) id in set_changed b n changed.

Definition is_changed (b : closureBuilder) (id : SymbolID) : bool := changed_containsID (cb_interner b) (changedSymbols b) id.
Definition in_tier (b : closureBuilder) (id : SymbolID) : bool := containsID (cb_interner b) (fullTier b) id.

Definition enqueueSymbol (b : closureBuilder) (id : SymbolID) : closureBuilder :=
  if String.eqb id "" then b
  else
    let '(h, n) := handle (cb_interner b) id in
    let '(added, seen) := set_add n (symbolSeen b) h in
    if added then set_queue b n (symbolQueue b ++ [id]) (queueHandles b ++ [h]) seen
    else set_queue b n (symbolQueue b) (queueHandles b) seen.

(** The retained row of a symbol that can stand for a new query. *)
Definition cachedFact (b : closureBuilder) (id : SymbolID) : option SymbolFact :=
  if bool_decide (id ∈ invalidatedSymbols b) then None
  else
    match Get (cachedCanonicalStore b) id with
    | None => None
    | Some fact =>
        if negb (DurableSymbolID (ID fact)) || negb (DurableSymbolID (AliasTarget fact)) ||
           match Declarations fact with [] => true | _ => false end then None
        else Some fact
    end.

Definition with_references (fact : SymbolFact) (references : list Location) : SymbolFact :=
  mkSymbolFact (ID fact) (AliasTarget fact) (Declarations fact) references.

(** ** The order of the rows *)

(** Positions by handle, offset by one; zero is absent. *)
Definition fact_index (n : symbolInterner) (handles : list Z) : list Z :=
  foldl (fun index '(i, h) => <[Z.to_nat h := Z.of_nat i + 1]> index)
    (replicate (Z.to_nat (interner_size n)) 0) (imap pair handles).

(** The handle of a symbol that is present. *)
Definition indexed_handle (n : symbolInterner) (index : list Z) (id : SymbolID) : option nat :=
  match lookup_handle n id with
  | None => None
  | Some h =>
      match index !! Z.to_nat h with
      | None => None
      | Some k => if k =? 0 then None else Some (Z.to_nat h)
      end
  end.

(** [facts[factIndex[handle]-1]]. *)
Definition indexed_fact (facts : list SymbolFact) (index : list Z) (h : nat) : option SymbolFact :=
  match index !! h with Some k => facts !! Z.to_nat (k - 1) | None => None end.

Fixpoint merge_by_ID (left : list SymbolFact) : list SymbolFact -> list SymbolFact :=
  fix merge_right right :=
    match left, right with
    | [], _ => right
    | _, [] => left
    | l :: left', r :: right' =>
        if String.ltb (ID l) (ID r) then l :: merge_by_ID left' right else r :: merge_right right'
    end.

(** The surviving rows in the order of the preceding generation; each is
    taken once. *)
Fixpoint take_retained (n : symbolInterner) (facts : list SymbolFact) (index : list Z) (previous : list SymbolFact) :
    list SymbolFact * list Z :=
  match previous with
  | [] => ([], index)
  | row :: previous' =>
      match indexed_handle n index (ID row) with
      | None => take_retained n facts index previous'
      | Some h =>
          let '(retained, index') := take_retained n facts (<[h := 0]> index) previous' in
          (option_list (indexed_fact facts index h) ++ retained, index')
      end
  end.

(** A row whose place in the index was not taken. *)
Definition untaken (n : symbolInterner) (index : list Z) (i : nat) (fact : SymbolFact) : bool :=
  match lookup_handle n (ID fact) with
  | Some h => match index !! Z.to_nat h with Some k => k =? Z.of_nat i + 1 | None => false end
  | None => false
  end.

Definition orderSymbolFacts (facts : list SymbolFact) (index : list Z) (n : symbolInterner) (previous : option symbolFactStore) :
    list SymbolFact :=
  if (Len previous =? 0)%nat then sort_slice (key_less ID) facts
  else
    let same := mapM (fun row => indexed_handle n index (ID row) ≫= indexed_fact facts index) (Range previous) in
    match (Len previous =? length facts)%nat, same with
    | true, Some ordered => ordered
    | _, _ =>
        let '(retained, index) := take_retained n facts index (Range previous) in
        if (length retained =? length facts)%nat then retained
        else
          let added := omap id (imap (fun i fact => if untaken n index i fact then Some fact else None) facts) in
          merge_by_ID retained (sort_slice (key_less ID) added)
    end.

(** ** Closing the symbols *)

Section Closing.
Context {W : Type} `{BE : !ClosureBackend W} `{MR : !MapRange}.

Definition cstate : Type := W * closureBuilder.

(** A call of the backend. *)
Definition on_world {A} (m : proc W A) : proc cstate A := fun '(w, b) => let '(w, r) := m w in ((w, b), r).
Definition get_builder : proc cstate closureBuilder := fun '(w, b) => ((w, b), Ok b).
Definition put_builder (b : closureBuilder) : proc cstate unit := fun '(w, _) => ((w, b), Ok tt).
Definition on_builder (f : closureBuilder -> closureBuilder) : proc cstate unit := fun '(w, b) => ((w, f b), Ok tt).

(** [case err == nil: ... case !errors.Is(err, ErrNotFound): return err]. *)
Definition if_found {A} (m : proc W A) : proc cstate (option A) := fun '(w, b) =>
  match m w with
  | (w, Ok a) => ((w, b), Ok (Some a))
  | (w, Err e) => ((w, b), if error_is ErrNotFound e then Ok None else Err e)
  end.

(** What is known of a symbol when its turn comes. *)
Definition initial_fact (b : closureBuilder) (id : SymbolID) : SymbolFact * bool :=
  match cachedFact b id with
  | Some retained => (mkSymbolFact id (AliasTarget retained) (Declarations retained) [], true)
  | None => (mkSymbolFact id "" [] [], false)
  end.

(** One turn of the worklist. *)
Definition close_fact (initial : SymbolFact * bool) : proc cstate SymbolFact :=
  on_world ctx_check;!
  let '(fact, cached) := initial in
  if cached then on_builder (fun b => enqueueSymbol b (AliasTarget fact));! p_ret fact
  else
    on_builder (fun b => add_changed b (ID fact));!
    do! target := if_found (ResolveAlias (ID fact)) in
    match target with Some target => on_builder (fun b => enqueueSymbol b target) | None => p_ret tt end;!
    do! declarations := if_found (bk_Declarations (ID fact)) in
    p_ret (mkSymbolFact (ID fact) (default "" target) (default [] declarations) []).

Definition close_initial (initial : list (SymbolFact * bool)) : proc cstate (list SymbolFact) :=
  p_fold (fun fact facts => do! fact := close_fact fact in p_ret (facts ++ [fact])) initial [].

(** The rest of the queue, which grows meanwhile; the fuel is the number of
    symbols there are to reach. *)
Fixpoint drain (fuel : nat) (facts : list SymbolFact) : proc cstate (list SymbolFact) :=
  match fuel with
  | O => p_ret facts
  | S fuel' =>
      do! b := get_builder in
      match symbolQueue b !! length facts with
      | None => p_ret facts
      | Some id => do! fact := close_fact (initial_fact b id) in drain fuel' (facts ++ [fact])
      end
  end.

(** ** The reference tier *)

(** The handles of the alias targets; a symbol without one has -1. *)
Definition alias_handle (st : symbolInterner * list Z) (fact : SymbolFact) : symbolInterner * list Z :=
  let '(n, aliases) := st in
  if String.eqb (AliasTarget fact) "" then (n, aliases ++ [-1])
  else let '(h, n) := handle n (AliasTarget fact) in (n, aliases ++ [h]).

Definition tier_step (n : symbolInterner) (st : symbolHandleSet * bool) (edge : Z * Z) : symbolHandleSet * bool :=
  let '(tier, changed) := st in
  let '(source, target) := edge in
  if (target <? 0) || negb (contains tier source) then st
  else let '(added, tier) := set_add n tier target in (tier, changed || added).

(** Passes over the edges until one adds nothing; every other one adds a
    target, so that there are at most as many as edges. *)
Fixpoint tier_loop (fuel : nat) (n : symbolInterner) (edges : list (Z * Z)) (tier : symbolHandleSet) : symbolHandleSet :=
  match fuel with
  | O => tier
  | S fuel' =>
      let '(tier, changed) := foldl (tier_step n) (tier, false) edges in
      if changed then tier_loop fuel' n edges tier else tier
  end.

Definition propagate_tier (b : closureBuilder) (facts : list SymbolFact) : closureBuilder :=
  let '(n, aliases) := foldl alias_handle (cb_interner b, []) facts in
  let b := set_interner b n in
  set_tier b (tier_loop (S (length facts)) n (zip (queueHandles b) aliases) (fullTier b)).

(** ** The retained store, patched *)

Definition eligible (b : closureBuilder) (fact : SymbolFact) : bool := String.eqb (AliasTarget fact) "" && in_tier b (ID fact).

Definition is_cached (b : closureBuilder) (id : SymbolID) : bool :=
  match cachedReferences b with Some references => bool_decide (is_Some (references !! id)) | None => false end.

(** A symbol whose reference tier moved without a change of its own. *)
Definition unexplained (b : closureBuilder) (fact : SymbolFact) : bool :=
  negb (Bool.eqb (eligible b fact) (is_cached b (ID fact))) && negb (is_changed b (ID fact)).

Definition patch_fact (b : closureBuilder) (previous : option symbolFactStore) (patches : gmap string SymbolFact) (fact : SymbolFact) :
    gmap string SymbolFact :=
  if is_changed b (ID fact) then
    <[ID fact := match Get previous (ID fact) with Some retained => with_references fact (References retained) | None => fact end]> patches
  else patches.

(** [patches[id]], or else the retained row. *)
Definition patched_row (previous : option symbolFactStore) (patches : gmap string SymbolFact) (id : SymbolID) : option SymbolFact :=
  match patches !! id with Some fact => Some fact | None => Get previous id end.

(** One changed symbol: its references are dropped, kept, or to be asked. *)
Definition refresh_changed (b : closureBuilder) (previous : option symbolFactStore)
    (st : gmap string SymbolFact * gmap string (list Location) * gset string) (id : SymbolID) :
    gmap string SymbolFact * gmap string (list Location) * gset string :=
  let '(patches, references, refreshSet) := st in
  match patched_row previous patches id with
  | None => st
  | Some fact =>
      if negb (String.eqb (AliasTarget fact) "" && in_tier b id) then
        (<[id := with_references fact []]> patches, delete id references, refreshSet)
      else
        match references !! id with
        | Some _ => st
        | None => (patches, references, {[id]} ∪ refreshSet)
        end
  end.

Definition put_references (previous : option symbolFactStore) (answers : gmap string (list Location))
    (st : gmap string SymbolFact * gmap string (list Location)) (id : SymbolID) :
    gmap string SymbolFact * gmap string (list Location) :=
  let '(patches, references) := st in
  match patched_row previous patches id with
  | None => st
  | Some fact =>
      let found := default [] (answers !! id) in
      (<[id := with_references fact found]> patches, <[id := found]> references)
  end.

(** [delete(patches, id)] of the rows that are as they were. *)
Definition real_patches (previous : option symbolFactStore) (patches : gmap string SymbolFact) : gmap string SymbolFact :=
  filter (fun kv => match Get previous kv.1 with Some retained => symbolFactEqual kv.2 retained | None => false end = false) patches.

Definition patchCanonicalSymbolStore (facts : list SymbolFact) : proc cstate (option symbolFactStore) :=
  do! b := get_builder in
  let previous := cachedCanonicalStore b in
  match cachedReferences b with
  | None => p_ret None
  | Some _ =>
      if (Len previous =? 0)%nat || existsb (unexplained b) facts then p_ret None
      else
        do! changedReferences := on_world ChangedReferences in
        let '(changedReferences, exact) := changedReferences in
        if negb exact then p_ret None
        else
          on_builder set_exact;!
          on_builder (fun b => foldl add_changed b changedReferences);!
          do! b := get_builder in
          let patches := foldl (patch_fact b previous) ∅ facts in
          let '(patches, references, refreshSet) :=
            foldl (refresh_changed b previous) (patches, default ∅ (cachedReferences b), ∅) (cs_ids (changedSymbols b)) in
          put_builder (set_cached b (Some references));!
          let refreshSet := refreshSet ∪ list_to_set (filter (fun id => is_Some (references !! id)) changedReferences) in
          let refresh := range_set refreshSet in
          do! answers := on_world (ReferencesBatch refresh) in
          let '(patches, references) := foldl (put_references previous answers) (patches, references) refresh in
          on_builder (fun b => set_cached b (Some references));!
          let '(next, _, removed, complete) :=
            Patch previous (cb_interner b) (symbolSeen b) (real_patches previous patches) (removedSymbolCandidates b) in
          if negb complete then p_ret None
          else
            let references := foldl (fun references id => delete id references) references removed in
            on_builder (fun b => set_closed b references true (closedSymbolStore b) removed (stableUniversePatch b));!
            p_ret (Some next)
  end.

(** ** The rows, collected *)

Definition fact_position (n : symbolInterner) (index : list Z) (id : SymbolID) : option nat :=
  indexed_handle n index id ≫= fun h => (fun k => Z.to_nat (k - 1)) <$> index !! h.

Definition put_row (n : symbolInterner) (index : list Z) (facts : list SymbolFact) (id : SymbolID) (references : list Location) :
    list SymbolFact :=
  match fact_position n index id with
  | Some i => alter (fun fact => with_references fact references) i facts
  | None => facts
  end.

(** The symbols that have a list of references. *)
Definition reference_ids (b : closureBuilder) (facts : list SymbolFact) : list SymbolID :=
  omap (fun '(fact, h) => if String.eqb (AliasTarget fact) "" && contains (fullTier b) h then Some (ID fact) else None)
    (zip facts (queueHandles b)).

(** One symbol under an exact delta: its retained list, or to be asked. *)
Definition keep_cached (n : symbolInterner) (index : list Z) (references : gmap string (list Location)) (changedSet : gset string)
    (st : list SymbolFact * list SymbolID) (id : SymbolID) : list SymbolFact * list SymbolID :=
  let '(facts, refresh) := st in
  match references !! id with
  | Some cached => if bool_decide (id ∈ changedSet) then (facts, refresh ++ [id]) else (put_row n index facts id cached, refresh)
  | None => (facts, refresh ++ [id])
  end.

(** [factFor(id).References], of the symbols that are asked for. *)
Definition row_references (n : symbolInterner) (index : list Z) (facts : list SymbolFact) (id : SymbolID) : list Location :=
  match fact_position n index id ≫= fun i => facts !! i with Some fact => References fact | None => [] end.

(** An entry of the preceding map that is still one of this generation. *)
Definition still_listed (b : closureBuilder) (index : list Z) (facts : list SymbolFact) (id : SymbolID) : bool :=
  match fact_position (cb_interner b) index id ≫= fun i => facts !! i with
  | Some fact => String.eqb (AliasTarget fact) "" && in_tier b id
  | None => false
  end.

Definition collectSymbolFacts (facts : list SymbolFact) : proc cstate (list SymbolFact) :=
  do! b := get_builder in
  let index := fact_index (cb_interner b) (queueHandles b) in
  let ids := reference_ids b facts in
  do! kept :=
    match cachedReferences b with
    | None => p_ret (facts, ids)
    | Some references =>
        do! changed := on_world ChangedReferences in
        let '(changedIDs, exact) := changed in
        if negb exact then p_ret (facts, ids)
        else
          on_builder (fun b => set_exact (foldl add_changed b changedIDs));!
          p_ret (foldl (keep_cached (cb_interner b) index references (list_to_set changedIDs)) (facts, []) ids)
    end in
  let '(facts, refresh) := kept in
  do! answers := on_world (ReferencesBatch refresh) in
  on_builder (fun b => foldl add_changed b refresh);!
  do! b := get_builder in
  let n := cb_interner b in
  let facts := foldl (fun facts id => put_row n index facts id (default [] (answers !! id))) facts refresh in
  (if referenceChangesExact b then
     let references := filter (fun kv => still_listed b index facts kv.1 = true) (default ∅ (cachedReferences b)) in
     let references := foldl (fun references id => <[id := row_references n index facts id]> references) references refresh in
     put_builder (set_closed b references true (closedSymbolStore b) (removedSymbolIDs b) (stableUniversePatch b))
   else
     let references := foldl (fun references id => <[id := row_references n index facts id]> references) ∅ ids in
     put_builder (set_closed b references false (closedSymbolStore b) (removedSymbolIDs b) (stableUniversePatch b)));!
  p_ret (orderSymbolFacts facts index n (cachedCanonicalStore b)).

(** [closeSymbols]: no rows when the store was patched. *)
Definition closeSymbols (fuel : nat) : proc cstate (list SymbolFact) :=
  do! b := get_builder in
  do! facts := close_initial (map (initial_fact b) (symbolQueue b)) in
  do! facts := drain fuel facts in
  on_builder (fun b => propagate_tier b facts);!
  do! patched := patchCanonicalSymbolStore facts in
  match patched with
  | Some next =>
      on_builder (fun b => set_store b next);!
      p_ret []
  | None => collectSymbolFacts facts
  end.

(** ** An unchanged universe *)

Definition copyHandleMembership (source : list bool) : list bool := source.

Definition equalHandleMembership (left right : list bool) : bool :=
  let common := Nat.min (length left) (length right) in
  forallb (fun '(a, b) => Bool.eqb a b) (zip left right) &&
  forallb negb (drop common left) && forallb negb (drop common right).

(** One invalidated symbol queried again; [None] when the universe may move. *)
Definition patch_invalidated (previous : option symbolFactStore) (id : SymbolID) (patches : option (gmap string SymbolFact)) :
    proc cstate (option (gmap string SymbolFact)) :=
  match patches with
  | None => p_ret None
  | Some patches =>
      on_world ctx_check;!
      match Get previous id with
      | None => p_ret None
      | Some retained =>
          do! target := if_found (ResolveAlias id) in
          if negb (String.eqb (default "" target) (AliasTarget retained)) then p_ret None
          else
            do! declarations := if_found (bk_Declarations id) in
            on_builder (fun b => add_changed b id);!
            p_ret (Some (<[id := mkSymbolFact id (default "" target) (default [] declarations) (References retained)]> patches))
      end
  end.

(** The refreshed rows; [None] when one is not there. *)
Definition put_refreshed (previous : option symbolFactStore) (answers : gmap string (list Location))
    (patches : option (gmap string SymbolFact)) (id : SymbolID) : option (gmap string SymbolFact) :=
  match patches with
  | None => None
  | Some patches =>
      match patched_row previous patches id with
      | None => None
      | Some fact => Some (<[id := with_references fact (default [] (answers !! id))]> patches)
      end
  end.

Definition patchStableSymbolUniverse (invalidated : gset string) (memoComplete : bool) (expandedFullTier : option (list bool)) :
    proc cstate bool :=
  do! b := get_builder in
  let previous := cachedCanonicalStore b in
  match cachedReferences b, expandedFullTier with
  | Some references, Some expandedFullTier =>
      if (Len previous =? 0)%nat || negb memoComplete then p_ret false
      else
        do! patches := p_fold (patch_invalidated previous) (range_set invalidated) (Some ∅) in
        match patches with
        | None => p_ret false
        | Some patches =>
            do! changed := on_world ChangedReferences in
            let '(changedReferences, exact) := changed in
            if negb exact then p_ret false
            else
              let refresh := filter (fun id => is_Some (references !! id)) changedReferences in
              on_builder (fun b => foldl add_changed b refresh);!
              do! answers := on_world (ReferencesBatch refresh) in
              match foldl (put_refreshed previous answers) (Some patches) refresh with
              | None => p_ret false
              | Some patches =>
                  match PatchExisting previous (real_patches previous patches) with
                  | None => p_ret false
                  | Some (next, _) =>
                      let members := copyHandleMembership expandedFullTier in
                      let references := foldl (fun references id => <[id := default [] (answers !! id)]> references) references refresh in
                      on_builder (fun b =>
                        set_closed (set_exact (set_tier b (mkSymbolHandleSet members (Z.of_nat (length (filter (fun m => m = true) members))))))
                          references true (Some next) (removedSymbolIDs b) true);!
                      p_ret true
                  end
              end
        end
  | _, _ => p_ret false
  end.
End Closing.
