(* ===== verification/SymbolDrain.v ===== *)
(** * Symbol closures: the worklist and the reference tier

    Against a backend that answers as one generation does, the worklist of
    [closeSymbols] ends with exactly the symbols that alias targets reach from
    the ones it began with, each with its target and declarations; and the
    passes over the alias edges end with the least tier that contains the
    demanded one and follows them. *)

From S2P Require Import Prelude GoStd Model Proc SymbolIntern SymbolStore FactEqual Closure SymbolClosure.

(** ** Interners that grow *)

Record grows (n n' : symbolInterner) : Prop := {
  grows_keeps : forall id h, handles n !! id = Some h -> handles n' !! id = Some h;
  grows_fresh : forall id h, handles n' !! id = Some h -> handles n !! id = None -> interned n <= h;
  grows_count : interned n <= interned n';
}.

Lemma grows_refl n : grows n n.
Proof. split; [done|congruence|lia]. Qed.

Lemma grows_trans n1 n2 n3 : grows n1 n2 -> grows n2 n3 -> grows n1 n3.
Proof.
  intros [A1 A2 A3] [B1 B2 B3]. split; [auto| |lia]. intros id h Hh Hn. destruct (handles n2 !! id) as [h2|] eqn:E.
  - pose proof (B1 _ _ E). apply (A2 id); congruence.
  - specialize (B2 _ _ Hh E). lia.
Qed.

(** A set keeps what it holds while the interner grows. *)
Lemma holds_grows n n' s X : interner_ok n' -> grows n n' -> holds n s X -> holds n' s X.
Proof.
  intros Hn [Hk Hf Hc] [Hm Hs Ha]. split; [|done|intros k Hk'; specialize (Ha k Hk'); lia].
  intros id. rewrite <- Hm. unfold containsID, lookup_handle. destruct (handles n !! id) as [h|] eqn:E.
  - by rewrite (Hk _ _ E).
  - destruct (handles n' !! id) as [h|] eqn:E'; [|done]. split; [|done].
    pose proof (handles_range n' Hn _ _ E') as Hr. pose proof (Hf _ _ E' E) as Hlt.
    rewrite contains_member by lia. intros Hb%Ha. lia.
Qed.

Lemma contains_known n s X id h : interner_ok n -> handles n !! id = Some h -> holds n s X -> contains s h = bool_decide (id ∈ X).
Proof.
  intros Hn Hh [Hm _ _]. apply eq_bool_prop_intro. rewrite !Is_true_true, bool_decide_eq_true, <- Hm.
  unfold containsID, lookup_handle. by rewrite Hh.
Qed.

(** Adding a symbol that has its handle. *)
Lemma set_add_holds n s X id h : interner_ok n -> handles n !! id = Some h -> holds n s X ->
  let '(added, s') := set_add n s h in holds n s' ({[id]} ∪ X) /\ added = bool_decide (id ∉ X).
Proof.
  intros Hn Hh Hs. pose proof (handles_range n Hn _ _ Hh) as Hr. pose proof (set_add_members n s h ltac:(lia)) as Ha.
  rewrite (contains_known n s X id h Hn Hh Hs) in Ha. destruct (set_add n s h) as [added s']. destruct Ha as (Hms & -> & Hc).
  destruct Hs as [Hm Hcount Hassigned]. split; [split|by rewrite <- bool_decide_not].
  - intros x. rewrite elem_of_union, elem_of_singleton, <- Hm. unfold containsID, lookup_handle.
    destruct (handles n !! x) as [k|] eqn:E; [|split; [done|intros [->|]; congruence]].
    pose proof (handles_range n Hn _ _ E). rewrite !contains_member, Hms by lia. split.
    + intros [Hk|Hk]; [left|by right]. apply (handles_inj n Hn _ _ h); [|done]. by replace h with k by lia.
    + intros [->|Hk]; [left; congruence|by right].
  - rewrite Hc, Hcount. case_bool_decide as HX; simpl.
    + by rewrite subseteq_union_1_L, Z.add_0_r by set_solver.
    + rewrite size_union by set_solver. rewrite size_singleton. lia.
  - intros k [->|Hk]%Hms; [lia|by apply Hassigned].
Qed.

(** The interner counts what it has interned. *)
Lemma interned_size n : interner_ok n -> interned n = Z.of_nat (size (dom (handles n))).
Proof.
  intros [Hr Hi Hd Hf]. rewrite size_dom. rewrite <- length_map_to_list.
  assert (NoDup (map_to_list (handles n)).*2) as Hnd.
  { apply NoDup_fmap_2_strong; [|apply NoDup_map_to_list]. intros [i h] [j h'] H1%elem_of_map_to_list H2%elem_of_map_to_list E.
    simpl in E. subst h'. by rewrite (Hi i j h) in *. }
  assert (forall h, h ∈ (map_to_list (handles n)).*2 <-> h ∈ seqZ 0 (interned n)) as Hin.
  { intros h. rewrite elem_of_seqZ, list_elem_of_fmap. split.
    - intros ([i h'] & -> & H%elem_of_map_to_list). simpl. specialize (Hr _ _ H). lia.
    - intros Hh. destruct (Hd h ltac:(lia)) as [id Hid]. exists (id, h). split; [done|]. by apply elem_of_map_to_list. }
  pose proof (NoDup_Permutation _ _ Hnd (NoDup_seqZ 0 (interned n)) Hin) as Hp.
  apply Permutation_length in Hp. rewrite length_fmap, length_seqZ in Hp. lia.
Qed.

(** ** Interners within the universe of a generation *)

Section Universe.
Context (V : gset string) (Vfits : Z.of_nat (size V) < 2 ^ 31).

Record within (n : symbolInterner) : Prop := {
  within_ok : interner_ok n;
  within_dom : forall id, is_Some (handles n !! id) -> id ∈ V;
}.

Lemma within_room n id : within n -> id ∈ V -> handles n !! id = None -> interned n + 1 <= Z.of_nat (size V).
Proof.
  intros [Hn Hd] Hid He. rewrite interned_size by done.
  assert ({[id]} ∪ dom (handles n) ⊆ V) as Hsub.
  { intros x [->%elem_of_singleton|Hx%elem_of_dom]%elem_of_union; [done|by apply Hd]. }
  apply subseteq_size in Hsub. rewrite size_union in Hsub; [rewrite size_singleton in Hsub; lia|].
  apply disjoint_singleton_l. rewrite not_elem_of_dom. done.
Qed.

Lemma handle_within n id : within n -> id ∈ V ->
  let '(h, n') := handle n id in
  within n' /\ grows n n' /\ handles n' !! id = Some h /\ (forall h', handles n !! id = Some h' -> h' = h /\ n' = n).
Proof.
  intros Hn Hid. destruct (handles n !! id) as [h|] eqn:E.
  { unfold handle. rewrite E. split_and!; [done|apply grows_refl|done|]. intros h' [= ->]. done. }
  pose proof (within_room n id Hn Hid E) as Hroom. pose proof (handle_spec n id (within_ok _ Hn) ltac:(lia)) as H.
  unfold handle in *. rewrite E in *. destruct H as (H1 & H2 & H3 & H4 & H5). split_and!; [|split| done|done].
  - split; [done|]. intros x Hx. destruct (decide (x = id)) as [->|]; [done|]. apply (within_dom n Hn). by rewrite <- H4.
  - intros x h Hx. rewrite H4; [done|congruence].
  - intros x h Hx Hx'. destruct (decide (x = id)) as [->|]; [rewrite H2 in Hx; injection Hx; lia|]. rewrite H4 in Hx by done. congruence.
  - lia.
Qed.

Lemma addID_within n s X id : within n -> id ∈ V -> holds n s X ->
  let '(added, n', s') := addID n s id in
  within n' /\ grows n n' /\ holds n' s' ({[id]} ∪ X) /\ added = bool_decide (id ∉ X) /\ is_Some (handles n' !! id).
Proof.
  intros Hn Hid Hs. pose proof (handle_within n id Hn Hid) as Hh.
  assert (interned n + 1 < 2 ^ 31 \/ is_Some (handles n !! id)) as [Hlt|Hsome].
  { destruct (handles n !! id) eqn:E; [right; by eexists|left]. pose proof (within_room n id Hn Hid E). lia. }
  - pose proof (addID_holds n s X id (within_ok _ Hn) Hlt Hs) as Ha. unfold addID in *.
    destruct (handle n id) as [h n']. destruct (set_add n' s h) as [added s'].
    destruct Hh as (H1 & H2 & H3 & _), Ha as (_ & _ & A & B & _). split_and!; [done|done|done|done|by eexists].
  - destruct Hsome as [h0 Hh0]. unfold addID. destruct (handle n id) as [h n'].
    destruct Hh as (H1 & H2 & H3 & H4). destruct (H4 h0 Hh0) as [-> ->]. pose proof (handles_range n (within_ok _ Hn) _ _ Hh0) as Hr.
    pose proof (set_add_holds n s X id h (within_ok _ Hn) Hh0 Hs) as Ha. destruct (set_add n s h) as [added s'].
    destruct Ha as [A B]. split_and!; [done|done|done|done|by eexists].
Qed.
End Universe.

(** ** A backend that answers as one generation *)

(** What a generation says of its symbols; an empty target is none. *)
Record generation_facts := mkGeneration {
  alias_of : SymbolID -> SymbolID;
  declarations_of : SymbolID -> list Declaration;
  references_of : SymbolID -> list Location;
}.

Section Drain.
Context {W : Type} `{BE : !ClosureBackend W} `{MR : !MapRange} (G : generation_facts) (V : gset string).

Record answers_as : Prop := {
  alias_answer : forall id w w' r, ResolveAlias id w = (w', r) ->
    match r with Ok target => target = alias_of G id | Err e => error_is ErrNotFound e = true -> alias_of G id = "" end;
  declarations_answer : forall id w w' r, bk_Declarations id w = (w', r) ->
    match r with Ok l => l = declarations_of G id | Err e => error_is ErrNotFound e = true -> declarations_of G id = [] end;
  references_answer : forall ids w w' m, ReferencesBatch ids w = (w', Ok m) ->
    forall id, id ∈ ids -> default [] (m !! id) = references_of G id;
  changes_answer : forall w w' ids exact, ChangedReferences w = (w', Ok (ids, exact)) -> Forall (fun id => id ∈ V) ids;
  universe_closed : forall id, id ∈ V -> alias_of G id <> "" -> alias_of G id ∈ V;
  universe_fits : Z.of_nat (size V) < 2 ^ 31;
}.

Definition alias_step (a b : SymbolID) : Prop := b = alias_of G a /\ b <> "".

(** A symbol that alias targets reach from one of [q]. *)
Definition reached (q : list SymbolID) (id : SymbolID) : Prop := exists root, root ∈ q /\ rtc alias_step root id.

(** A row without its references. *)
Definition bare_row (id : SymbolID) : SymbolFact := mkSymbolFact id (alias_of G id) (declarations_of G id) [].

(** ** The builder while it works *)

Record builder_ok (b : closureBuilder) (T : gset string) : Prop := {
  wf_within : within V (cb_interner b);
  wf_seen : holds (cb_interner b) (symbolSeen b) (list_to_set (symbolQueue b));
  wf_queue : NoDup (symbolQueue b);
  wf_known : forall id, id ∈ symbolQueue b -> id <> "" /\ id ∈ V;
  wf_handles : Forall2 (fun id h => handles (cb_interner b) !! id = Some h) (symbolQueue b) (queueHandles b);
  wf_tier : holds (cb_interner b) (fullTier b) T;
  wf_changed : changed_ok (cb_interner b) (changedSymbols b);
  wf_changed_known : forall id, id ∈ cs_ids (changedSymbols b) -> id ∈ V;
}.

(** What the worklist leaves alone. *)
Record same_retained (b b' : closureBuilder) : Prop := {
  same_references : cachedReferences b' = cachedReferences b;
  same_store : cachedCanonicalStore b' = cachedCanonicalStore b;
  same_invalidated : invalidatedSymbols b' = invalidatedSymbols b;
  same_candidates : removedSymbolCandidates b' = removedSymbolCandidates b;
  same_closed : closedSymbolStore b' = closedSymbolStore b;
  same_changed : forall id, id ∈ cs_ids (changedSymbols b) -> id ∈ cs_ids (changedSymbols b');
}.

Lemma same_retained_refl b : same_retained b b.
Proof. by split. Qed.

Lemma same_retained_trans a b c : same_retained a b -> same_retained b c -> same_retained a c.
Proof. intros [? ? ? ? ? A] [? ? ? ? ? B]. split; [congruence..|]. intros id Hid. by apply B, A. Qed.

Lemma changed_grows n n' c : interner_ok n' -> grows n n' -> changed_ok n c -> changed_ok n' c.
Proof. intros Hn Hg [_ H1 H2]. split; [done| |done]. by eapply holds_grows. Qed.

(** The interner may grow under a builder. *)
Lemma handles_grow n n' ids hs : grows n n' -> Forall2 (fun id h => handles n !! id = Some h) ids hs ->
  Forall2 (fun id h => handles n' !! id = Some h) ids hs.
Proof. intros Hg H. eapply Forall2_impl; [exact H|]. intros id h. apply (grows_keeps _ _ Hg). Qed.

Lemma enqueue_ok b T id : Z.of_nat (size V) < 2 ^ 31 -> builder_ok b T -> (id <> "" -> id ∈ V) ->
  let b' := enqueueSymbol b id in
  builder_ok b' T /\ same_retained b b' /\ changedSymbols b' = changedSymbols b /\
  exists new, symbolQueue b' = symbolQueue b ++ new /\ (forall x, x ∈ new -> x = id) /\ (id <> "" -> id ∈ symbolQueue b').
Proof.
  intros HV Hb Hid. unfold enqueueSymbol. destruct (String.eqb_spec id "") as [->|Hne].
  { split_and!; [done|apply same_retained_refl|done|]. exists []. rewrite app_nil_r. split_and!; [done|set_solver|done]. }
  specialize (Hid Hne). destruct Hb as [H1 H2 H3 H4 H5 H6 H7 H8].
  pose proof (addID_within V HV _ _ _ id H1 Hid H2) as Ha. unfold addID in Ha.
  pose proof (handle_within V HV (cb_interner b) id H1 Hid) as Hh.
  destruct (handle (cb_interner b) id) as [h n]. destruct Hh as (_ & _ & Hh & _).
  destruct (set_add n (symbolSeen b) h) as [added seen]. destruct Ha as (A1 & A2 & A3 & A4 & _).
  pose proof (holds_grows _ _ _ _ (within_ok _ _ A1) A2 H6) as B1.
  pose proof (changed_grows _ _ _ (within_ok _ _ A1) A2 H7) as B2. pose proof (handles_grow _ _ _ _ A2 H5) as B3.
  destruct added; symmetry in A4.
  - apply bool_decide_eq_true in A4. rewrite not_elem_of_list_to_set in A4. split_and!; [|by split|done|].
    + split; simpl; try done.
      * replace (list_to_set (symbolQueue b ++ [id])) with ({[id]} ∪ list_to_set (symbolQueue b) : gset string) by set_solver. done.
      * apply NoDup_app. split_and!; [done|set_solver|apply NoDup_singleton].
      * intros x [Hx|Hx%list_elem_of_singleton]%elem_of_app; [by apply H4|by subst].
      * by apply Forall2_app; [|constructor].
    + exists [id]. split_and!; [done|set_solver|]. simpl. set_solver.
  - apply bool_decide_eq_false in A4. apply dec_stable in A4. apply elem_of_list_to_set in A4.
    replace ({[id]} ∪ list_to_set (symbolQueue b)) with (list_to_set (symbolQueue b) : gset string) in A3 by set_solver.
    split_and!; [by split|by split|done|]. exists []. simpl. rewrite app_nil_r. split_and!; [done|set_solver|done].
Qed.

Lemma add_changed_ok b T id : Z.of_nat (size V) < 2 ^ 31 -> builder_ok b T -> id ∈ V ->
  let b' := add_changed b id in
  builder_ok b' T /\ same_retained b b' /\ symbolQueue b' = symbolQueue b /\
  forall x, x ∈ cs_ids (changedSymbols b') <-> x = id \/ x ∈ cs_ids (changedSymbols b).
Proof.
  intros HV [H1 H2 H3 H4 H5 H6 [H7 H8 H9] H10] Hid. unfold add_changed, changed_add.
  pose proof (addID_within V HV _ _ _ id H1 Hid H8) as Ha. destruct (addID _ _ id) as [[added n] s].
  destruct Ha as (A1 & A2 & A3 & A4 & _). simpl.
  assert (forall x, x ∈ (if added then cs_ids (changedSymbols b) ++ [id] else cs_ids (changedSymbols b)) <->
    x = id \/ x ∈ cs_ids (changedSymbols b)) as Hx.
  { intros x. destruct added; symmetry in A4; [set_solver|]. apply bool_decide_eq_false, dec_stable, elem_of_list_to_set in A4. set_solver. }
  split_and!; [|split; simpl; try done; set_solver|done|done].
  split; simpl; [done|by eapply holds_grows; [apply A1| |]|done|done|by eapply handles_grow|by eapply holds_grows; [apply A1| |]| |set_solver].
  split; simpl; [apply A1| |].
  - replace (list_to_set (if added then _ else _)) with ({[id]} ∪ list_to_set (cs_ids (changedSymbols b)) : gset string); [done|].
    apply set_eq. intros x. rewrite elem_of_union, elem_of_singleton, !elem_of_list_to_set. by rewrite Hx.
  - destruct added; symmetry in A4; [|done]. apply bool_decide_eq_true in A4. rewrite not_elem_of_list_to_set in A4.
    apply NoDup_app. split_and!; [done|set_solver|apply NoDup_singleton].
Qed.

(** ** The worklist *)

Context (HA : answers_as) (q0 : list SymbolID) (b0 : closureBuilder).

(** The retained rows that stand for a query say what the generation says. *)
Definition cached_ok : Prop := forall id fact, cachedFact b0 id = Some fact ->
  AliasTarget fact = alias_of G id /\ Declarations fact = declarations_of G id.

Record closing (T : gset string) (facts : list SymbolFact) (b : closureBuilder) : Prop := {
  cl_ok : builder_ok b T;
  cl_same : same_retained b0 b;
  cl_prefix : q0 `prefix_of` symbolQueue b;
  cl_length : (length facts <= length (symbolQueue b))%nat;
  cl_facts : facts = bare_row <$> take (length facts) (symbolQueue b);
  cl_targets : forall id, id ∈ take (length facts) (symbolQueue b) -> alias_of G id <> "" -> alias_of G id ∈ symbolQueue b;
  cl_reached : forall id, id ∈ symbolQueue b -> reached q0 id;
  cl_known : forall id, id ∈ take (length facts) (symbolQueue b) -> id ∈ cs_ids (changedSymbols b) \/ is_Some (cachedFact b0 id);
}.

Lemma cachedFact_same b b' id : same_retained b b' -> cachedFact b' id = cachedFact b id.
Proof. intros [_ H1 H2 _ _ _]. unfold cachedFact. by rewrite H1, H2. Qed.

Lemma initial_fact_same b id : same_retained b0 b -> initial_fact b id = initial_fact b0 id.
Proof. intros H. unfold initial_fact. by rewrite (cachedFact_same _ _ _ H). Qed.

(** A turn: the builder gained at most the target of the symbol at its turn. *)
Lemma closing_step T facts b b' id new : closing T facts b -> symbolQueue b !! length facts = Some id ->
  builder_ok b' T -> same_retained b b' -> symbolQueue b' = symbolQueue b ++ new ->
  (forall x, x ∈ new -> x = alias_of G id /\ x <> "") -> (alias_of G id <> "" -> alias_of G id ∈ symbolQueue b') ->
  (id ∈ cs_ids (changedSymbols b') \/ is_Some (cachedFact b0 id)) -> closing T (facts ++ [bare_row id]) b'.
Proof.
  intros [H1 H2 H3 H4 H5 H6 H7 H8] Hid Hok Hsame Hq Hnew Htarget Hknown.
  pose proof (lookup_lt_Some _ _ _ Hid) as Hlt.
  assert (take (length (facts ++ [bare_row id])) (symbolQueue b') = take (length facts) (symbolQueue b) ++ [id]) as Htake.
  { rewrite length_app, Nat.add_1_r. rewrite Hq, take_app_le by (simpl; lia). by apply take_S_r. }
  split; [done|by eapply same_retained_trans| | | | | |].
  - rewrite Hq. by apply prefix_app_r.
  - rewrite Hq, !length_app. simpl. lia.
  - rewrite Htake, fmap_app, <- H5. done.
  - rewrite Htake. intros x [Hx|Hx%list_elem_of_singleton]%elem_of_app Ha.
    + rewrite Hq. apply elem_of_app. left. by apply H6.
    + subst. by apply Htarget.
  - rewrite Hq. intros x [Hx|Hx]%elem_of_app; [by apply H7|]. destruct (Hnew x Hx) as [-> Hne].
    destruct (H7 id) as (root & Hroot & Hr); [by eapply list_elem_of_lookup_2|]. exists root. split; [done|].
    eapply rtc_r; [done|]. by split.
  - rewrite Htake. intros x [Hx|Hx%list_elem_of_singleton]%elem_of_app; [|by subst]. destruct (H8 x Hx) as [Hc|Hc]; [left|by right].
    by apply (same_changed _ _ Hsame).
Qed.

Lemma wp_on_world {A} E (m : proc W A) Q (st : W * closureBuilder) :
  (forall w r, m (fst st) = (w, r) -> match r with Ok a => Q a (w, snd st) | Err _ => E (w, snd st) end) -> wp E (on_world m) Q st.
Proof. destruct st as [w b]. unfold wp, on_world. simpl. destruct (m w) as [w' r] eqn:Em. intros H. by apply H. Qed.

Lemma wp_if_found {A} (E : W * closureBuilder -> Prop) (m : proc W A) Q (st : W * closureBuilder) :
  (forall w, E (w, snd st)) ->
  (forall w a, m (fst st) = (w, Ok a) -> Q (Some a) (w, snd st)) ->
  (forall w e, m (fst st) = (w, Err e) -> error_is ErrNotFound e = true -> Q None (w, snd st)) ->
  wp E (if_found m) Q st.
Proof.
  intros HE H1 H2. destruct st as [w b]. unfold wp, if_found. simpl in *. destruct (m w) as [w' [a|e]] eqn:Em; [by apply H1|].
  destruct (error_is ErrNotFound e) eqn:Ee; [by eapply H2|apply HE].
Qed.

Lemma wp_get_builder E Q (st : W * closureBuilder) : Q (snd st) st -> wp E get_builder Q st.
Proof. by destruct st. Qed.

Lemma wp_put_builder E Q b (st : W * closureBuilder) : Q tt (fst st, b) -> wp E (put_builder b) Q st.
Proof. by destruct st. Qed.

Lemma wp_on_builder E Q f (st : W * closureBuilder) : Q tt (fst st, f (snd st)) -> wp E (on_builder f) Q st.
Proof. by destruct st. Qed.

Lemma wp_ctx (Q : unit -> W * closureBuilder -> Prop) (st : W * closureBuilder) :
  (forall w, Q tt (w, snd st)) -> wp (fun _ => True) (on_world ctx_check) Q st.
Proof. intros H. apply wp_on_world. intros w [[]|e] _; [apply H|done]. Qed.

Lemma wp_close_fact T facts id st : cached_ok -> closing T facts (snd st) -> symbolQueue (snd st) !! length facts = Some id ->
  wp (fun _ => True) (close_fact (initial_fact b0 id)) (fun fact st => fact = bare_row id /\ closing T (facts ++ [fact]) (snd st)) st.
Proof.
  intros Hcached Hcl Hid. apply wp_bind, wp_ctx. intros w. pose proof (universe_fits HA) as HV.
  assert (id ∈ symbolQueue (snd st)) as Hin by (by eapply list_elem_of_lookup_2).
  destruct (wf_known _ _ (cl_ok _ _ _ Hcl) id Hin) as [Hne Hiv]. pose proof (universe_closed HA id Hiv) as Ht.
  unfold initial_fact. destruct (cachedFact b0 id) as [retained|] eqn:Ec.
  - destruct (Hcached id retained Ec) as [E1 E2]. apply wp_bind, wp_on_builder, wp_ret. simpl. rewrite E1, E2. split; [done|].
    destruct (enqueue_ok (snd st) T (alias_of G id) HV (cl_ok _ _ _ Hcl) Ht) as (A1 & A2 & _ & new & A3 & A4 & A5).
    eapply closing_step; try done; [|right; by eexists]. intros x Hx. split; [by apply A4|].
    apply (wf_known _ _ A1). rewrite A3. set_solver.
  - apply wp_bind, wp_on_builder. cbn [fst snd ID].
    destruct (add_changed_ok (snd st) T id HV (cl_ok _ _ _ Hcl) Hiv) as (A1 & A2 & A3 & A4).
    set (b1 := add_changed (snd st) id) in *.
    assert (forall b2 target, (b2, target) = (b1, None) /\ alias_of G id = "" \/ (exists t, target = Some t /\ t = alias_of G id /\ b2 = enqueueSymbol b1 t) ->
      default "" target = alias_of G id /\ closing T (facts ++ [bare_row id]) b2) as Hstep.
    { intros b2 target [[[= -> ->] E]|(t & -> & -> & ->)].
      - split; [done|]. eapply (closing_step T facts (snd st) b1 id []); try done; [by rewrite app_nil_r|set_solver|by left; apply A4; left].
      - split; [done|]. destruct (enqueue_ok b1 T (alias_of G id) HV A1 Ht) as (B1 & B2 & B3 & new & B4 & B5 & B6).
        eapply (closing_step T facts (snd st)); try done; [by eapply same_retained_trans|by rewrite <- A3| |left; rewrite B3; apply A4; by left].
        intros x Hx. split; [by apply B5|]. apply (wf_known _ _ B1). rewrite B4. set_solver. }
    assert (forall b2 target w2, default "" target = alias_of G id /\ closing T (facts ++ [bare_row id]) b2 ->
      wp (fun _ => True) (do! declarations := if_found (bk_Declarations id) in
        p_ret (mkSymbolFact id (default "" target) (default [] declarations) []))
        (fun fact st => fact = bare_row id /\ closing T (facts ++ [fact]) (snd st)) (w2, b2)) as Hdecl.
    { intros b2 target w2 [Et Hb2]. apply wp_bind, wp_if_found; [done| |].
      - intros w3 l Hl. pose proof (declarations_answer HA id _ _ _ Hl) as ->. apply wp_ret. simpl. by rewrite Et.
      - intros w3 e Hl He. pose proof (declarations_answer HA id _ _ _ Hl He) as Hd. apply wp_ret. simpl.
        assert (mkSymbolFact id (default "" target) [] [] = bare_row id) as -> by (unfold bare_row; by rewrite Et, Hd). done. }
    apply wp_bind, wp_if_found; [done| |].
    + intros w2 t Hl. pose proof (alias_answer HA id _ _ _ Hl) as Hta. apply wp_bind, wp_on_builder. apply Hdecl, Hstep. right. by exists t.
    + intros w2 e Hl He. pose proof (alias_answer HA id _ _ _ Hl He) as Hta. apply wp_bind, wp_ret. apply Hdecl, Hstep. by left.
Qed.

Lemma wp_close_initial T st : cached_ok -> closing T [] (snd st) ->
  wp (fun _ => True) (close_initial (map (initial_fact b0) q0)) (fun facts st => length facts = length q0 /\ closing T facts (snd st)) st.
Proof.
  intros Hcached H0. unfold close_initial.
  apply (wp_fold _ _ (fun before rest facts st => map (initial_fact b0) q0 = before ++ rest /\ length facts = length before /\ closing T facts (snd st))).
  - intros before x rest facts st' (Hsplit & Hlen & Hcl). apply wp_bind.
    assert (exists id, q0 !! length before = Some id /\ x = initial_fact b0 id) as (id & Hid & ->).
    { assert ((map (initial_fact b0) q0) !! length before = Some x) as Hx by (rewrite Hsplit; by apply list_lookup_middle).
      rewrite list_lookup_fmap in Hx. destruct (q0 !! length before) as [id|]; [|done]. simpl in Hx. exists id. split; congruence. }
    eapply wp_mono; [done| |apply (wp_close_fact T facts id); [done|done|]].
    + intros fact st'' [-> Hcl']. apply wp_ret. rewrite !length_app, Hlen. rewrite <- app_assoc. simpl. by split_and!.
    + destruct (cl_prefix _ _ _ Hcl) as [new ->]. rewrite Hlen. rewrite lookup_app_l; [done|by eapply lookup_lt_Some].
  - done.
  - intros facts st' (_ & Hlen & Hcl). split; [|done]. rewrite Hlen. apply length_map.
Qed.

(** The queue is within the universe, so that fuel for the universe is enough. *)
Lemma queue_bound T b : builder_ok b T -> (length (symbolQueue b) <= size V)%nat.
Proof.
  intros Hb. rewrite <- (size_list_to_set (C := gset string) (symbolQueue b)) by apply (wf_queue _ _ Hb).
  apply subseteq_size. intros x Hx%elem_of_list_to_set. by apply (wf_known _ _ Hb).
Qed.

Lemma wp_drain T fuel facts st : cached_ok -> closing T facts (snd st) -> (size V - length facts < fuel)%nat ->
  wp (fun _ => True) (drain fuel facts) (fun facts st => closing T facts (snd st) /\ length facts = length (symbolQueue (snd st))) st.
Proof.
  intros Hcached. revert facts st. induction fuel as [|fuel IH]; intros facts st Hcl Hf; [lia|].
  simpl. apply wp_bind, wp_get_builder. destruct (symbolQueue (snd st) !! length facts) as [id|] eqn:E.
  - apply wp_bind. rewrite (initial_fact_same _ id (cl_same _ _ _ Hcl)).
    eapply wp_mono; [done| |by apply (wp_close_fact T facts id)]. intros fact st' [_ Hcl']. apply IH; [done|].
    rewrite length_app. simpl. pose proof (queue_bound T _ (cl_ok _ _ _ Hcl)). apply lookup_lt_Some in E. lia.
  - apply wp_ret. split; [done|]. apply lookup_ge_None in E. pose proof (cl_length _ _ _ Hcl). lia.
Qed.

(** The whole worklist: the queue is what is reached, and every row is there. *)
Lemma closing_end T facts b : closing T facts b -> length facts = length (symbolQueue b) ->
  facts = bare_row <$> symbolQueue b /\
  (forall id, id ∈ symbolQueue b <-> reached q0 id) /\
  (forall id, id ∈ symbolQueue b -> alias_of G id <> "" -> alias_of G id ∈ symbolQueue b) /\
  (forall id, id ∈ symbolQueue b -> id ∈ cs_ids (changedSymbols b) \/ is_Some (cachedFact b0 id)).
Proof.
  intros [H1 H2 H3 H4 H5 H6 H7 H8] Hlen. rewrite Hlen, firstn_all in H5, H6, H8. split_and!; [done| |done|done].
  intros id. split; [apply H7|]. intros (root & Hroot & Hr).
  assert (root ∈ symbolQueue b) as Hin by (destruct H3 as [new ->]; set_solver). clear Hroot.
  induction Hr as [|x y z [-> Hy] _ IH]; [done|]. apply IH. by apply H6.
Qed.
End Drain.

(** ** The reference tier *)

Section Tier.
Context (n : symbolInterner) (Hn : interner_ok n).

(** The edge of a row: its handle and that of its target. *)
Definition edge_of (fact : SymbolFact) (edge : Z * Z) : Prop :=
  handles n !! ID fact = Some edge.1 /\
  if String.eqb (AliasTarget fact) "" then edge.2 = -1 else handles n !! AliasTarget fact = Some edge.2.

Lemma alias_handles facts aliases : (forall fact, fact ∈ facts -> AliasTarget fact <> "" -> is_Some (handles n !! AliasTarget fact)) ->
  exists l, foldl alias_handle (n, aliases) facts = (n, aliases ++ l) /\
    Forall2 (fun fact a => if String.eqb (AliasTarget fact) "" then a = -1 else handles n !! AliasTarget fact = Some a) facts l.
Proof.
  revert aliases. induction facts as [|fact facts IH]; intros aliases H; [exists []; by rewrite app_nil_r|].
  assert (exists a, alias_handle (n, aliases) fact = (n, aliases ++ [a]) /\
    if String.eqb (AliasTarget fact) "" then a = -1 else handles n !! AliasTarget fact = Some a) as (a & E & Ha).
  { unfold alias_handle. destruct (String.eqb_spec (AliasTarget fact) "") as [|Hne]; [by exists (-1)|].
    destruct (H fact ltac:(left) Hne) as [h Hh]. exists h. unfold handle. by rewrite Hh. }
  destruct (IH (aliases ++ [a])) as (l & El & Hl); [intros f Hf; apply H; by right|].
  exists (a :: l). cbn [foldl]. rewrite E, El, <- app_assoc. split; [done|by constructor].
Qed.

Lemma edges_of facts hs aliases : Forall2 (fun fact h => handles n !! ID fact = Some h) facts hs ->
  Forall2 (fun fact a => if String.eqb (AliasTarget fact) "" then a = -1 else handles n !! AliasTarget fact = Some a) facts aliases ->
  Forall2 edge_of facts (zip hs aliases).
Proof.
  intros H. revert aliases. induction H as [|fact h facts hs Hh _ IH]; intros aliases Ha; inversion Ha; subst; [constructor|].
  simpl. constructor; [by split|]. by apply IH.
Qed.

(** A symbol's target. *)
Definition follows (facts : list SymbolFact) (a b : SymbolID) : Prop :=
  exists fact, fact ∈ facts /\ ID fact = a /\ AliasTarget fact = b /\ b <> "".

Lemma tier_step_spec fact edge tier changed X : edge_of fact edge -> holds n tier X ->
  let '(tier', changed') := tier_step n (tier, changed) edge in
  if decide (ID fact ∈ X /\ AliasTarget fact <> "" /\ AliasTarget fact ∉ X)
  then holds n tier' ({[AliasTarget fact]} ∪ X) /\ changed' = true
  else holds n tier' X /\ changed' = changed.
Proof.
  intros [Hid Ha] Hh. destruct edge as [source target]. cbn [fst snd] in *. unfold tier_step.
  rewrite (contains_known n tier X (ID fact) source Hn Hid Hh).
  destruct (String.eqb_spec (AliasTarget fact) "") as [E|Hne].
  { subst target. change (-1 <? 0) with true. cbn [orb]. rewrite decide_False by naive_solver. done. }
  pose proof (handles_range n Hn _ _ Ha) as Hr. replace (target <? 0) with false by (symmetry; apply Z.ltb_ge; lia).
  destruct (decide (ID fact ∈ X)) as [Hs|Hs].
  2: { rewrite (bool_decide_eq_false_2 _ Hs). cbn [negb orb]. rewrite decide_False by naive_solver. done. }
  rewrite (bool_decide_eq_true_2 _ Hs). cbn [negb orb].
  pose proof (set_add_holds n tier X _ _ Hn Ha Hh) as H. destruct (set_add n tier target) as [added tier']. destruct H as [H ->].
  destruct (decide (AliasTarget fact ∈ X)) as [Ht|Ht].
  - rewrite (decide_False (P := _ /\ _)) by naive_solver. rewrite bool_decide_eq_false_2 by naive_solver. rewrite orb_false_r. split; [|done].
    by replace X with ({[AliasTarget fact]} ∪ X) by set_solver.
  - rewrite (decide_True (P := _ /\ _)) by done. rewrite (bool_decide_eq_true_2 _ Ht). by rewrite orb_true_r.
Qed.

Lemma tier_pass_spec facts edges tier changed X : Forall2 edge_of facts edges -> holds n tier X ->
  let '(tier', changed') := foldl (tier_step n) (tier, changed) edges in
  exists X', holds n tier' X' /\ X ⊆ X' /\ (changed = true -> changed' = true) /\
    (forall P : string -> Prop, (forall x, x ∈ X -> P x) -> (forall a b, follows facts a b -> P a -> P b) -> forall x, x ∈ X' -> P x) /\
    (forall x, x ∈ X' -> x ∈ X \/ x ∈ AliasTarget <$> facts) /\
    (changed' = false -> X' = X /\ forall a b, follows facts a b -> a ∈ X -> b ∈ X) /\
    (changed' = true -> changed = true \/ exists x, x ∈ X' /\ x ∉ X).
Proof.
  intros HF. revert tier changed X. induction HF as [|fact edge facts edges He _ IH]; intros tier changed X Hh; cbn [foldl].
  { exists X. split_and!; [done|done|done| |by left| |by left]; [by intros P HP _ x Hx; apply HP|].
    intros _. split; [done|]. intros a b (f & Hf & _). by apply elem_of_nil in Hf. }
  pose proof (tier_step_spec fact edge tier changed X He Hh) as Hstep.
  destruct (tier_step n (tier, changed) edge) as [tier1 changed1].
  destruct (decide _) as [(D1 & D2 & D3)|D]; destruct Hstep as [Hh1 ->].
  - specialize (IH tier1 true _ Hh1). destruct (foldl (tier_step n) (tier1, true) edges) as [tier' changed'].
    destruct IH as (X' & A1 & A2 & A3 & A4 & A5 & A6 & A7). specialize (A3 eq_refl) as ->. exists X'. split_and!; [done|set_solver|done| | |done|].
    + intros P HP Hf. apply A4; [|intros a b (f & Hin & Hab); apply Hf; exists f; split; [by right|done]].
      intros x [->%elem_of_singleton|Hx]%elem_of_union; [|by apply HP]. apply (Hf (ID fact)); [|by apply HP]. exists fact. split_and!; [left|done..].
    + intros x Hx. destruct (A5 x Hx); set_solver.
    + intros _. right. exists (AliasTarget fact). split; [set_solver|done].
  - specialize (IH tier1 changed _ Hh1). destruct (foldl (tier_step n) (tier1, changed) edges) as [tier' changed'].
    destruct IH as (X' & A1 & A2 & A3 & A4 & A5 & A6 & A7). exists X'. split_and!; [done|done|done| | | |done].
    + intros P HP Hf. apply A4; [done|]. intros a b (f & Hin & Hab). apply Hf. exists f. split; [by right|done].
    + intros x Hx. destruct (A5 x Hx); set_solver.
    + intros Hc. destruct (A6 Hc) as [E Hcl]. split; [done|]. intros a b (f & Hin & Ea & Eb & Hb) HaX.
      apply elem_of_cons in Hin as [->|Hin]; [|apply (Hcl a b); [by exists f|done]].
      subst a b. destruct (decide (AliasTarget fact ∈ X)); [done|]. by destruct D.
Qed.

Lemma tier_loop_spec facts edges fuel tier X : Forall2 edge_of facts edges -> holds n tier X ->
  (size ((list_to_set (AliasTarget <$> facts) : gset string) ∖ X) < fuel)%nat ->
  exists X', holds n (tier_loop fuel n edges tier) X' /\ forall x, x ∈ X' <-> exists s, s ∈ X /\ rtc (follows facts) s x.
Proof.
  intros HF. revert tier X. induction fuel as [|fuel IH]; intros tier X Hh Hf; [lia|]. cbn [tier_loop].
  pose proof (tier_pass_spec facts edges tier false X HF Hh) as Hp.
  destruct (foldl (tier_step n) (tier, false) edges) as [tier' changed'].
  destruct Hp as (X' & A1 & A2 & _ & A4 & A5 & A6 & A7). destruct changed'.
  - destruct (A7 eq_refl) as [|(y & Hy & Hy')]; [done|]. destruct (IH tier' X' A1) as (X'' & B1 & B2).
    { assert (y ∈ (list_to_set (AliasTarget <$> facts) : gset string)) as Hty by (apply elem_of_list_to_set; by destruct (A5 y Hy)).
      assert ((list_to_set (AliasTarget <$> facts) : gset string) ∖ X' ⊂ list_to_set (AliasTarget <$> facts) ∖ X) as Hsub by set_solver.
      apply subset_size in Hsub. lia. }
    exists X''. split; [done|]. intros x. rewrite B2. split.
    + intros (s & Hs & Hr). destruct (A4 (fun x => exists s, s ∈ X /\ rtc (follows facts) s x)) with s as (s0 & Hs0 & Hr0); [| |done|].
      * intros z Hz. exists z. split; [done|apply rtc_refl].
      * intros a b Hab (s0 & Hs0 & Hr0). exists s0. split; [done|by eapply rtc_r].
      * exists s0. split; [done|by etransitivity].
    + intros (s & Hs & Hr). exists s. split; [by apply A2|done].
  - destruct (A6 eq_refl) as [-> Hcl]. exists X. split; [done|]. intros x. split.
    + intros Hx. exists x. split; [done|apply rtc_refl].
    + intros (s & Hs & Hr). induction Hr as [|a b c Hab _ IHr]; [done|]. apply IHr. by apply (Hcl a b).
Qed.
End Tier.

(** ** Changed symbols, marked *)

Lemma set_changed_twice b n c n' c' : set_changed (set_changed b n c) n' c' = set_changed b n' c'.
Proof. done. Qed.

Lemma set_changed_same b : set_changed b (cb_interner b) (changedSymbols b) = b.
Proof. by destruct b. Qed.

Section Marked.
Context (V : gset string) (HV : Z.of_nat (size V) < 2 ^ 31).

Lemma adds_changed ids b T : builder_ok V b T -> Forall (fun id => id ∈ V) ids ->
  exists n c, foldl add_changed b ids = set_changed b n c /\ grows (cb_interner b) n /\ builder_ok V (set_changed b n c) T /\
    forall x, x ∈ cs_ids c <-> x ∈ ids \/ x ∈ cs_ids (changedSymbols b).
Proof.
  revert b. induction ids as [|id ids IH]; intros b Hb Hids.
  { exists (cb_interner b), (changedSymbols b). rewrite set_changed_same. split_and!; [done|apply grows_refl|done|set_solver]. }
  apply Forall_cons in Hids as [Hid Hids]. destruct (add_changed_ok V b T id HV Hb Hid) as (A1 & _ & _ & A4).
  assert (exists n c, add_changed b id = set_changed b n c /\ grows (cb_interner b) n) as (n1 & c1 & E1 & G1).
  { pose proof (addID_within V HV _ _ _ id (wf_within _ _ _ Hb) Hid (changed_holds _ _ (wf_changed _ _ _ Hb))) as H.
    unfold add_changed, changed_add. destruct (addID _ _ id) as [[added n] s]. destruct H as (_ & H & _). eexists _, _. by split. }
  cbn [foldl]. destruct (IH (add_changed b id) A1 Hids) as (n & c & E & G & B & Hx). exists n, c. rewrite E, E1, set_changed_twice in *.
  split_and!; [done|by eapply grows_trans|done|]. intros x. rewrite Hx, A4. set_solver.
Qed.
End Marked.
