(* ===== verification/SymbolRows.v ===== *)
(** * Symbol closures: the rows, collected and ordered

    The index by handle finds every row of the queue; ordering by the order of
    the preceding generation is sorting; and the rows that are collected carry
    the references of the generation exactly where the reference tier asks for
    them. *)

From S2P Require Import Prelude GoStd Model Proc SymbolIntern SymbolStore FactEqual Closure SymbolClosure SymbolDrain.

(** ** The index *)

Definition put_position (index : list Z) (p : nat * Z) : list Z := <[Z.to_nat p.2 := Z.of_nat p.1 + 1]> index.

Lemma put_positions l index k : NoDup (Z.to_nat <$> l.*2) -> (forall p, p ∈ l -> (Z.to_nat p.2 < length index)%nat) ->
  (forall p, p ∈ l -> Z.to_nat p.2 = k -> foldl put_position index l !! k = Some (Z.of_nat p.1 + 1)) /\
  ((forall p, p ∈ l -> Z.to_nat p.2 <> k) -> foldl put_position index l !! k = index !! k).
Proof.
  revert index. induction l as [|[i h] l IH]; intros index Hnd Hlt; [split; [intros p Hp; by apply elem_of_nil in Hp|done]|].
  simpl in Hnd. apply NoDup_cons in Hnd as [Hh Hnd]. cbn [foldl].
  destruct (IH (put_position index (i, h)) Hnd) as [A B].
  { intros p Hp. unfold put_position. rewrite length_insert. apply Hlt. by right. }
  split.
  - intros p [->|Hp]%elem_of_cons Hk; [|by apply A]. rewrite B.
    + unfold put_position. simpl in *. subst k. rewrite list_lookup_insert_eq; [done|]. apply (Hlt (i, h)). left.
    + intros q Hq E. apply Hh. simpl in *. rewrite Hk, <- E. by apply list_elem_of_fmap_2, list_elem_of_fmap_2.
  - intros Hno. rewrite B; [|intros p Hp; apply Hno; by right]. unfold put_position. simpl.
    apply list_lookup_insert_ne. apply (Hno (i, h)). left.
Qed.

Section Index.
Context (n n' : symbolInterner) (Hn : interner_ok n) (Hn' : interner_ok n') (Hg : grows n n').
Context (queue : list SymbolID) (hs : list Z) (Hq : NoDup queue)
  (Hh : Forall2 (fun id h => handles n !! id = Some h) queue hs).

Lemma fact_index_positions : fact_index n hs = foldl put_position (replicate (Z.to_nat (interner_size n)) 0) (imap pair hs).
Proof. unfold fact_index. generalize (replicate (Z.to_nat (interner_size n)) 0). induction (imap pair hs) as [|[i h] l IH]; intros z; [done|]. apply IH. Qed.

Lemma hs_handle i h : hs !! i = Some h -> exists id, queue !! i = Some id /\ handles n !! id = Some h /\ 0 <= h < interned n.
Proof.
  intros Hi. destruct (Forall2_lookup_r _ _ _ _ _ Hh Hi) as (id & Hid & Hhd).
  exists id. split_and!; [done|done|apply (handles_range n Hn _ _ Hhd)..].
Qed.

Lemma hs_distinct : NoDup (Z.to_nat <$> (imap pair hs).*2).
Proof.
  assert ((imap pair hs).*2 = hs) as ->.
  { rewrite fmap_imap. apply list_eq. intros i. rewrite list_lookup_imap. by destruct (hs !! i). }
  apply NoDup_alt. intros i j k Hi Hj. rewrite list_lookup_fmap in Hi, Hj.
  destruct (hs !! i) as [a|] eqn:Ea; [|done]. destruct (hs !! j) as [b|] eqn:Eb; [|done]. simplify_eq/=.
  destruct (hs_handle i a Ea) as (x & Hx & Hxa & ?), (hs_handle j b Eb) as (y & Hy & Hyb & ?).
  assert (a = b) as -> by lia. assert (x = y) as -> by (by apply (handles_inj n Hn _ _ b)).
  by apply (NoDup_lookup queue i j y).
Qed.

Lemma index_lookup k :
  (forall i h, hs !! i = Some h -> Z.to_nat h = k -> fact_index n hs !! k = Some (Z.of_nat i + 1)) /\
  ((forall i h, hs !! i = Some h -> Z.to_nat h <> k) -> fact_index n hs !! k = if decide (k < Z.to_nat (interned n))%nat then Some 0 else None).
Proof.
  rewrite fact_index_positions.
  destruct (put_positions (imap pair hs) (replicate (Z.to_nat (interner_size n)) 0) k hs_distinct) as [A B].
  { intros p (i & h & -> & Hi)%elem_of_lookup_imap. rewrite length_replicate. simpl. destruct (hs_handle i h Hi) as (_ & _ & _ & ?).
    unfold interner_size. lia. }
  split.
  - intros i h Hi Hk. apply (A (i, h)); [|done]. apply elem_of_lookup_imap. by exists i, h.
  - intros Hno. rewrite B.
    + destruct (decide _) as [Hlt|Hge]; [by apply lookup_replicate_2|]. apply lookup_ge_None. rewrite length_replicate. unfold interner_size. lia.
    + intros p (i & h & -> & Hi)%elem_of_lookup_imap. by apply (Hno i).
Qed.

(** A symbol of the queue is at its position, ... *)
Lemma indexed_queue i id : queue !! i = Some id -> exists h, handles n' !! id = Some h /\ hs !! i = Some h /\
  indexed_handle n' (fact_index n hs) id = Some (Z.to_nat h) /\ fact_index n hs !! Z.to_nat h = Some (Z.of_nat i + 1).
Proof.
  intros Hi. destruct (Forall2_lookup_l _ _ _ _ _ Hh Hi) as (h & Hhi & Hid). exists h.
  pose proof (grows_keeps _ _ Hg _ _ Hid) as Hid'. pose proof (proj1 (index_lookup (Z.to_nat h)) i h Hhi eq_refl) as Hk.
  split_and!; [done|done| |done]. unfold indexed_handle, lookup_handle. rewrite Hid', Hk.
  destruct (Z.eqb_spec (Z.of_nat i + 1) 0); [lia|done].
Qed.

(** ... and others are absent. *)
Lemma indexed_absent id : id ∉ queue -> indexed_handle n' (fact_index n hs) id = None.
Proof.
  intros Hid. unfold indexed_handle, lookup_handle. destruct (handles n' !! id) as [h|] eqn:E; [|done].
  pose proof (handles_range n' Hn' _ _ E) as Hr.
  rewrite (proj2 (index_lookup (Z.to_nat h))).
  - by destruct (decide _).
  - intros i k Hk Ek. destruct (hs_handle i k Hk) as (x & Hx & Hxk & Hrk). assert (k = h) as -> by lia.
    apply Hid. assert (x = id) as <-; [|by eapply list_elem_of_lookup_2].
    apply (handles_inj n' Hn' _ _ h); [by apply (grows_keeps _ _ Hg)|done].
Qed.

Lemma position_queue i id : queue !! i = Some id -> fact_position n' (fact_index n hs) id = Some i.
Proof.
  intros Hi. destruct (indexed_queue i id Hi) as (h & _ & _ & H1 & H2). unfold fact_position. rewrite H1. simpl. rewrite H2. simpl. f_equal. lia.
Qed.

Lemma position_absent id : id ∉ queue -> fact_position n' (fact_index n hs) id = None.
Proof. intros Hid. unfold fact_position. by rewrite indexed_absent. Qed.
End Index.

(** ** The order *)

Lemma merge_by_ID_nil_l right : merge_by_ID [] right = right.
Proof. by destruct right. Qed.

Lemma merge_by_ID_nil_r left : merge_by_ID left [] = left.
Proof. by destruct left. Qed.

Lemma merge_by_ID_cons l left r right : merge_by_ID (l :: left) (r :: right) =
  if String.ltb (ID l) (ID r) then l :: merge_by_ID left (r :: right) else r :: merge_by_ID (l :: left) right.
Proof. done. Qed.

Lemma merge_by_ID_elem left right x : x ∈ merge_by_ID left right <-> x ∈ left \/ x ∈ right.
Proof.
  revert right. induction left as [|l left IHl]; intros right; [rewrite merge_by_ID_nil_l; set_solver|].
  induction right as [|r right IHr]; [rewrite merge_by_ID_nil_r; set_solver|].
  rewrite merge_by_ID_cons. destruct (String.ltb (ID l) (ID r)); [rewrite elem_of_cons, IHl; set_solver|].
  rewrite elem_of_cons, IHr. set_solver.
Qed.

Lemma merge_by_ID_sorted left right : keys_sorted ID left -> keys_sorted ID right ->
  (forall x y, x ∈ left -> y ∈ right -> ID x <> ID y) -> keys_sorted ID (merge_by_ID left right).
Proof.
  revert right. induction left as [|l left IHl]; intros right Hl Hr Hd; [by rewrite merge_by_ID_nil_l|].
  induction right as [|r right IHr]; [by rewrite merge_by_ID_nil_r|].
  rewrite merge_by_ID_cons. pose proof Hl as Hl0. pose proof Hr as Hr0.
  apply keys_sorted_cons in Hl as [Hl Hll], Hr as [Hr Hrr]. rewrite Forall_forall in Hll, Hrr.
  destruct (String.ltb (ID l) (ID r)) eqn:E; apply keys_sorted_cons; (split; [try (apply IHl; [done|done|set_solver]); try (apply IHr; [done|set_solver])|]);
    apply Forall_forall; intros y Hy%merge_by_ID_elem.
  - destruct Hy as [Hy|Hy]; [by apply Hll|]. apply elem_of_cons in Hy as [->|Hy]; [done|]. etransitivity; [exact E|by apply Hrr].
  - assert (slt (ID r) (ID l)) as Hlt.
    { destruct (slt_total (ID l) (ID r)) as [Hs|[Hs|Hs]]; [unfold slt in Hs; congruence| |done]. exfalso. apply (Hd l r); [left|left|done]. }
    destruct Hy as [Hy|Hy]; [|by apply Hrr]. apply elem_of_cons in Hy as [->|Hy]; [done|]. etransitivity; [exact Hlt|by apply Hll].
Qed.

Lemma omap_imap_filter {A} (p : nat -> A -> bool) (P : A -> Prop) `{!forall x, Decision (P x)} (l : list A) :
  (forall i x, l !! i = Some x -> p i x = true <-> P x) ->
  omap id (imap (fun i x => if p i x then Some x else None) l) = filter P l.
Proof.
  revert p. induction l as [|x l IH]; intros p Hp; [done|]. rewrite imap_cons, filter_cons.
  specialize (IH (fun i => p (S i)) (fun i y => Hp (S i) y)). pose proof (Hp 0%nat x eq_refl) as H0. unfold compose. simpl.
  destruct (p 0%nat x); simpl; [rewrite decide_True by naive_solver|rewrite decide_False by naive_solver]; by rewrite <- IH.
Qed.

Lemma filter_ext_in {A} (P Q : A -> Prop) `{!forall x, Decision (P x)} `{!forall x, Decision (Q x)} (l : list A) :
  (forall x, x ∈ l -> P x <-> Q x) -> filter P l = filter Q l.
Proof.
  induction l as [|x l IH]; intros HPQ; [done|]. rewrite !filter_cons, IH by (intros y Hy; apply HPQ; by right).
  pose proof (HPQ x ltac:(left)). by destruct (decide (P x)), (decide (Q x)); try tauto.
Qed.

Lemma sorted_filter (P : string -> Prop) `{!forall x, Decision (P x)} (l : list string) : StronglySorted slt l -> StronglySorted slt (filter P l).
Proof.
  induction 1 as [|x l _ IH Hx]; [constructor|]. rewrite filter_cons. destruct (decide (P x)); [|done].
  constructor; [done|]. rewrite Forall_forall in *. intros y [_ Hy]%list_elem_of_filter. by apply Hx.
Qed.

Lemma same_key {A} (key : A -> string) l x y : NoDup (key <$> l) -> x ∈ l -> y ∈ l -> key x = key y -> x = y.
Proof.
  intros Hnd [i Hi]%list_elem_of_lookup [j Hj]%list_elem_of_lookup E.
  assert (i = j) as ->; [|congruence]. eapply NoDup_lookup; [exact Hnd|apply list_lookup_fmap_Some; by exists x|].
  apply list_lookup_fmap_Some. by exists y.
Qed.

Section Order.
Context (n : symbolInterner) (Hn : interner_ok n) (facts : list SymbolFact) (Hnd : NoDup (ID <$> facts)).

(** The index of the rows whose symbols are still in [A]. *)
Record index_ok (index : list Z) (A : gset string) : Prop := {
  index_in : forall i fact, facts !! i = Some fact -> ID fact ∈ A -> exists h, handles n !! ID fact = Some h /\
    indexed_handle n index (ID fact) = Some (Z.to_nat h) /\ index !! Z.to_nat h = Some (Z.of_nat i + 1);
  index_out : forall id, id ∉ A -> indexed_handle n index id = None;
  index_within : forall id, id ∈ A -> id ∈ ID <$> facts;
}.

Lemma fact_of id : id ∈ ID <$> facts -> exists i fact, facts !! i = Some fact /\ ID fact = id.
Proof. intros (fact & -> & Hf)%list_elem_of_fmap. apply list_elem_of_lookup in Hf as [i Hi]. by exists i, fact. Qed.

Lemma index_take index A i fact h : index_ok index A -> facts !! i = Some fact -> handles n !! ID fact = Some h ->
  index_ok (<[Z.to_nat h := 0]> index) (A ∖ {[ID fact]}).
Proof.
  intros [H1 H2 H3] Hi Hh. pose proof (handles_range n Hn _ _ Hh) as Hr. split; [| |set_solver].
  - intros j x Hj [Hx Hne]%elem_of_difference. rewrite elem_of_singleton in Hne. destruct (H1 j x Hj Hx) as (k & A1 & A2 & A3).
    assert (Z.to_nat k <> Z.to_nat h) as Hkh.
    { pose proof (handles_range n Hn _ _ A1). intros E. assert (k = h) as -> by lia. apply Hne. by apply (handles_inj n Hn _ _ h). }
    exists k. split; [done|]. rewrite list_lookup_insert_ne by done. split; [|done].
    unfold indexed_handle, lookup_handle in *. rewrite A1 in *. by rewrite list_lookup_insert_ne by done.
  - intros id Hid. unfold indexed_handle, lookup_handle. destruct (handles n !! id) as [k|] eqn:Ek; [|done].
    pose proof (handles_range n Hn _ _ Ek). destruct (decide (Z.to_nat h = Z.to_nat k)) as [E|E].
    + rewrite <- E. destruct (<[Z.to_nat h:=0]> index !! Z.to_nat h) as [v|] eqn:Ev; [|done].
      assert (v = 0) as ->; [|done]. apply list_lookup_insert_Some in Ev as [(_ & -> & _)|[? _]]; done.
    + rewrite list_lookup_insert_ne by done. assert (id ∉ A) as HidA.
      { intros HA. apply Hid. apply elem_of_difference. split; [done|]. rewrite elem_of_singleton. intros ->. congruence. }
      specialize (H2 id HidA). unfold indexed_handle, lookup_handle in H2. by rewrite Ek in H2.
Qed.

(** The rows taken are those of the previous order that are still there. *)
Lemma take_retained_spec index A previous : index_ok index A -> NoDup (ID <$> previous) ->
  let '(retained, index') := take_retained n facts index previous in
  ID <$> retained = filter (fun id => id ∈ A) (ID <$> previous) /\ (forall x, x ∈ retained -> x ∈ facts) /\
  index_ok index' (A ∖ list_to_set (ID <$> previous)).
Proof.
  revert index A. induction previous as [|row previous IH]; intros index A Hok Hp.
  { simpl. split_and!; [done|set_solver|]. by replace (A ∖ ∅) with A by set_solver. }
  simpl in Hp. apply NoDup_cons in Hp as [Hrow Hp]. cbn [take_retained]. rewrite fmap_cons, filter_cons. destruct (decide (ID row ∈ A)) as [HA|HA].
  - destruct (fact_of (ID row)) as (i & fact & Hi & E); [by apply (index_within _ _ Hok)|]. rewrite <- E in *.
    destruct (index_in _ _ Hok i fact Hi HA) as (h & Hh & A2 & A3). rewrite A2.
    specialize (IH _ _ (index_take _ _ _ _ _ Hok Hi Hh) Hp). destruct (take_retained _ _ _ _) as [retained index'].
    destruct IH as (B1 & B2 & B3). unfold indexed_fact. rewrite A3. replace (Z.to_nat (Z.of_nat i + 1 - 1)) with i by lia.
    rewrite Hi. change (option_list (Some fact) ++ retained) with (fact :: retained). split_and!.
    + rewrite fmap_cons, B1. f_equal. apply filter_ext_in. intros x Hx. rewrite elem_of_difference, elem_of_singleton.
      split; [naive_solver|]. intros HxA. split; [done|]. intros ->. by apply Hrow.
    + intros x [->|Hx]%elem_of_cons; [by eapply list_elem_of_lookup_2|by apply B2].
    + rewrite list_to_set_cons. replace (A ∖ ({[ID fact]} ∪ list_to_set (ID <$> previous))) with (A ∖ {[ID fact]} ∖ list_to_set (ID <$> previous)) by set_solver. done.
  - rewrite (index_out _ _ Hok _ HA). specialize (IH _ _ Hok Hp). destruct (take_retained _ _ _ _) as [retained index'].
    destruct IH as (B1 & B2 & B3). split_and!; [done|done|]. rewrite list_to_set_cons.
    replace (A ∖ ({[ID row]} ∪ list_to_set (ID <$> previous))) with (A ∖ list_to_set (ID <$> previous)) by set_solver. done.
Qed.

(** The rows of a store that are all still there, in its order. *)
Lemma same_rows index previous ordered : index_ok index (list_to_set (ID <$> facts)) -> NoDup (ID <$> previous) ->
  length previous = length facts ->
  mapM (fun row => indexed_handle n index (ID row) ≫= indexed_fact facts index) previous = Some ordered ->
  ID <$> ordered = ID <$> previous /\ forall x, x ∈ ordered <-> x ∈ facts.
Proof.
  intros Hok Hp Hlen Hm. apply mapM_Some in Hm.
  assert (Forall2 (fun row fact => ID fact = ID row /\ fact ∈ facts) previous ordered) as HF.
  { eapply Forall2_impl; [exact Hm|]. intros row fact H. simpl in H.
    destruct (decide (ID row ∈ ID <$> facts)) as [Hin|Hin].
    - destruct (fact_of _ Hin) as (i & f & Hi & E). rewrite <- E in H.
      destruct (index_in _ _ Hok i f Hi) as (h & _ & A2 & A3); [apply elem_of_list_to_set; by rewrite E|].
      rewrite A2 in H. simpl in H. unfold indexed_fact in H. rewrite A3 in H.
      replace (Z.to_nat (Z.of_nat i + 1 - 1)) with i in H by lia. rewrite Hi in H. injection H as <-.
      split; [done|by eapply list_elem_of_lookup_2].
    - rewrite (index_out _ _ Hok) in H; [done|]. by rewrite elem_of_list_to_set. }
  assert (ID <$> ordered = ID <$> previous) as Hids.
  { clear -HF. induction HF as [|row fact previous ordered [E _] _ IH]; [done|]. rewrite !fmap_cons. congruence. }
  split; [done|]. assert (forall x, x ∈ ordered -> x ∈ facts) as Hsub.
  { intros x Hx. apply list_elem_of_lookup in Hx as [i Hi]. destruct (Forall2_lookup_r _ _ _ _ _ HF Hi) as (row & _ & _ & Hin). done. }
  intros x. split; [apply Hsub|]. intros Hx.
  assert (NoDup ordered) as Hndo by (eapply NoDup_fmap_1; by rewrite Hids).
  assert (ordered ≡ₚ facts) as ->; [|done].
  apply submseteq_length_Permutation; [by apply NoDup_submseteq|]. apply (f_equal length) in Hids. rewrite !length_fmap in Hids. lia.
Qed.

(** Ordering by the preceding generation is sorting. *)
Lemma order_sorts index previous : index_ok index (list_to_set (ID <$> facts)) -> when_some store_ok previous ->
  let ordered := orderSymbolFacts facts index n previous in
  keys_sorted ID ordered /\ forall x, x ∈ ordered <-> x ∈ facts.
Proof.
  intros Hok Hprev. unfold orderSymbolFacts. destruct (Len previous =? 0)%nat eqn:E0.
  { split; [by apply sort_slice_keys_sorted|]. intros x. by rewrite sort_slice_perm. }
  assert (keys_sorted ID (Range previous)) as Hsorted.
  { destruct previous as [s|]; [|apply keys_sorted_nil]. apply (Hprev s eq_refl). }
  assert (length (Range previous) = Len previous) as Hlen.
  { destruct previous as [s|]; [|done]. simpl. symmetry. apply (Hprev s eq_refl). }
  pose proof (keys_sorted_NoDup _ _ Hsorted) as Hndp.
  assert (let '(retained, index) := take_retained n facts index (Range previous) in
    let result := if (length retained =? length facts)%nat then retained
      else merge_by_ID retained (sort_slice (key_less ID)
        (omap id (imap (fun i fact => if untaken n index i fact then Some fact else None) facts))) in
    keys_sorted ID result /\ forall x, x ∈ result <-> x ∈ facts) as Hmerge.
  { pose proof (take_retained_spec index _ (Range previous) Hok Hndp) as Ht.
    destruct (take_retained _ _ _ _) as [retained index']. destruct Ht as (B1 & B2 & B3). cbv zeta.
    assert (keys_sorted ID retained) as Hret.
    { unfold keys_sorted. rewrite B1. by apply sorted_filter. }
    assert (forall x, x ∈ facts -> x ∈ retained <-> ID x ∈ ID <$> Range previous) as Hin.
    { intros x Hx. split.
      - intros Hr. apply (list_elem_of_fmap_2 ID) in Hr. rewrite B1 in Hr. by apply list_elem_of_filter in Hr as [_ Hr].
      - intros Hr. assert (ID x ∈ ID <$> retained) as (y & E & Hy)%list_elem_of_fmap.
        { rewrite B1. apply list_elem_of_filter. split; [|done]. apply elem_of_list_to_set. by apply list_elem_of_fmap_2. }
        assert (x = y) as ->; [|done]. apply (same_key ID facts); [done|done|by apply B2|done]. }
    destruct (length retained =? length facts)%nat eqn:El.
    - split; [done|]. apply Nat.eqb_eq in El. intros x. split; [apply B2|]. intros Hx.
      assert (NoDup retained) as Hndr by (eapply NoDup_fmap_1, keys_sorted_NoDup, Hret).
      assert (retained ≡ₚ facts) as ->; [|done]. apply submseteq_length_Permutation; [by apply NoDup_submseteq|lia].
    - rewrite (omap_imap_filter _ (fun fact => ID fact ∉ ID <$> Range previous)).
      + assert (forall x, x ∈ sort_slice (key_less ID) (filter (fun fact => ID fact ∉ ID <$> Range previous) facts) <->
          x ∈ facts /\ ID x ∉ ID <$> Range previous) as Hadded by (intros x; rewrite sort_slice_perm, list_elem_of_filter; tauto).
        split.
        * apply merge_by_ID_sorted; [done| |].
          -- apply sort_slice_keys_sorted. eapply sublist_NoDup; [exact Hnd|]. apply fmap_sublist, sublist_filter.
          -- intros x y Hx [Hy Hy']%Hadded E. apply Hy'. rewrite <- E. by apply Hin; [apply B2|].
        * intros x. rewrite merge_by_ID_elem, Hadded. split; [intros [Hx|[Hx _]]; [by apply B2|done]|]. intros Hx.
          destruct (decide (ID x ∈ ID <$> Range previous)); [left; by apply Hin|by right].
      + intros i x Hi. unfold untaken. assert (x ∈ facts) as Hx by (by eapply list_elem_of_lookup_2).
        destruct (decide (ID x ∈ ID <$> Range previous)) as [Hp|Hp].
        * split; [|tauto]. intros Hu. exfalso. assert (indexed_handle n index' (ID x) = None) as Ho by (apply (index_out _ _ B3); set_solver).
          unfold indexed_handle in Ho. destruct (lookup_handle n (ID x)) as [h|]; [|done].
          destruct (index' !! Z.to_nat h) as [k|]; [|done]. destruct (Z.eqb_spec k 0); [|done]. apply Z.eqb_eq in Hu. lia.
        * split; [done|]. intros _. destruct (index_in _ _ B3 i x Hi) as (h & A1 & _ & A3).
          { rewrite elem_of_difference, !elem_of_list_to_set. split; [by apply list_elem_of_fmap_2|done]. }
          unfold lookup_handle. rewrite A1, A3. apply Z.eqb_refl. }
  destruct (take_retained _ _ _ _) as [retained index']. cbv zeta in Hmerge.
  destruct (Len previous =? length facts)%nat eqn:El; [|done].
  destruct (mapM _ (Range previous)) as [ordered|] eqn:Em; [|done]. apply Nat.eqb_eq in El.
  destruct (same_rows index (Range previous) ordered Hok Hndp ltac:(lia) Em) as [H1 H2]. split; [|done].
  unfold keys_sorted. rewrite H1. exact Hsorted.
Qed.
End Order.

(** ** The rows collected *)

Section Collect.
Context {W : Type} `{BE : !ClosureBackend W} `{MR : !MapRange} (G : generation_facts) (V : gset string) (HA : answers_as G V).

(** A symbol that has a list of references: no alias, and in the tier. *)
Definition listed (T : gset string) (id : SymbolID) : Prop := alias_of G id = "" /\ id ∈ T.

#[global] Instance listed_dec T id : Decision (listed T id).
Proof. unfold listed. apply _. Defined.

(** The row of a symbol. *)
Definition full_row (T : gset string) (id : SymbolID) : SymbolFact :=
  with_references (bare_row G id) (if decide (listed T id) then references_of G id else []).

(** A map has the references of the listed symbols of the queue. *)
Definition lists_exactly (T : gset string) (queue : list SymbolID) (references : gmap string (list Location)) : Prop :=
  forall id, references !! id = if decide (id ∈ queue /\ listed T id) then Some (references_of G id) else None.

(** What an exact delta leaves out is as the map has it. *)
Definition delta_ok (references : gmap string (list Location)) : Prop :=
  forall w w' ids, ChangedReferences w = (w', Ok (ids, true)) ->
  forall id l, references !! id = Some l -> id ∉ ids -> l = references_of G id.

(** Rows with given references. *)
Definition rows_with (f : SymbolID -> list Location) (queue : list SymbolID) : list SymbolFact :=
  (fun id => with_references (bare_row G id) (f id)) <$> queue.

Definition updated_at (f : SymbolID -> list Location) (id : SymbolID) (l : list Location) : SymbolID -> list Location :=
  fun x => if decide (x = id) then l else f x.

Lemma rows_with_IDs f queue : ID <$> rows_with f queue = queue.
Proof. unfold rows_with. rewrite <- list_fmap_compose. apply list_fmap_id. Qed.

Section Positions.
Context (n n' : symbolInterner) (Hn : interner_ok n) (Hn' : interner_ok n') (Hg : grows n n').
Context (queue : list SymbolID) (hs : list Z) (Hq : NoDup queue)
  (Hh : Forall2 (fun id h => handles n !! id = Some h) queue hs).

Lemma put_row_with f id l : put_row n' (fact_index n hs) (rows_with f queue) id l = rows_with (updated_at f id l) queue.
Proof.
  unfold put_row. destruct (decide (id ∈ queue)) as [Hin|Hin].
  - apply list_elem_of_lookup in Hin as [i Hi]. rewrite (position_queue n n' Hn Hg queue hs Hq Hh i id Hi).
    apply list_eq. intros j. unfold rows_with. rewrite list_lookup_alter. rewrite !list_lookup_fmap.
    destruct (decide (i = j)) as [->|Hne].
    + rewrite Hi. simpl. unfold updated_at. by rewrite decide_True.
    + destruct (queue !! j) as [x|] eqn:Ej; [|done]. simpl. unfold updated_at. rewrite decide_False; [done|].
      intros ->. apply Hne. by apply (NoDup_lookup queue i j id).
  - rewrite (position_absent n n' Hn Hn' Hg queue hs Hq Hh id Hin). apply list_fmap_ext. intros j x Hx. unfold updated_at.
    rewrite decide_False; [done|]. intros ->. apply Hin. by eapply list_elem_of_lookup_2.
Qed.

Lemma row_references_with f id : id ∈ queue -> row_references n' (fact_index n hs) (rows_with f queue) id = f id.
Proof.
  intros [i Hi]%list_elem_of_lookup. unfold row_references. rewrite (position_queue n n' Hn Hg queue hs Hq Hh i id Hi). simpl.
  unfold rows_with. rewrite list_lookup_fmap, Hi. done.
Qed.

Lemma rows_position f id : fact_position n' (fact_index n hs) id ≫= (fun i => rows_with f queue !! i) =
  if decide (id ∈ queue) then Some (with_references (bare_row G id) (f id)) else None.
Proof.
  destruct (decide (id ∈ queue)) as [Hin|Hin].
  - apply list_elem_of_lookup in Hin as [i Hi]. rewrite (position_queue n n' Hn Hg queue hs Hq Hh i id Hi). simpl.
    unfold rows_with. by rewrite list_lookup_fmap, Hi.
  - by rewrite (position_absent n n' Hn Hn' Hg queue hs Hq Hh id Hin).
Qed.

Lemma index_of_queue f : index_ok n' (rows_with f queue) (fact_index n hs) (list_to_set (ID <$> rows_with f queue)).
Proof.
  rewrite rows_with_IDs. split.
  - intros i fact Hi _. unfold rows_with in Hi. rewrite list_lookup_fmap in Hi. destruct (queue !! i) as [id|] eqn:E; [|done].
    simplify_eq/=. destruct (indexed_queue n n' Hn Hg queue hs Hq Hh i id E) as (h & A1 & _ & A3 & A4). by exists h.
  - intros id Hid. apply (indexed_absent n n' Hn Hn' Hg queue hs Hq Hh). by rewrite elem_of_list_to_set in Hid.
  - intros id Hid. rewrite rows_with_IDs. by apply elem_of_list_to_set in Hid.
Qed.

(** The choice of what to ask for. *)
Lemma keep_cached_spec references changedSet f ids :
  foldl (keep_cached n' (fact_index n hs) references changedSet) (rows_with f queue, []) ids =
  (rows_with (foldl (fun f id => match references !! id with
                                 | Some cached => if bool_decide (id ∈ changedSet) then f else updated_at f id cached
                                 | None => f end) f ids) queue,
   filter (fun id => references !! id = None \/ id ∈ changedSet) ids).
Proof.
  assert (forall refresh, foldl (keep_cached n' (fact_index n hs) references changedSet) (rows_with f queue, refresh) ids =
    (rows_with (foldl (fun f id => match references !! id with
                                   | Some cached => if bool_decide (id ∈ changedSet) then f else updated_at f id cached
                                   | None => f end) f ids) queue,
     refresh ++ filter (fun id => references !! id = None \/ id ∈ changedSet) ids)) as H; [|apply (H [])].
  revert f. induction ids as [|id ids IH]; intros f refresh; [by rewrite app_nil_r|]. cbn [foldl]. rewrite filter_cons.
  unfold keep_cached at 2. destruct (references !! id) as [cached|] eqn:E.
  - case_bool_decide as Hc.
    + rewrite decide_True by auto. rewrite IH, <- app_assoc. done.
    + rewrite decide_False by naive_solver. rewrite put_row_with. apply IH.
  - rewrite decide_True by auto. rewrite IH, <- app_assoc. done.
Qed.
End Positions.

(** Loops that assign: what was assigned last is a function of the key. *)
Lemma updates_at (g : SymbolID -> list Location) ids f id :
  foldl (fun f id => updated_at f id (g id)) f ids id = if decide (id ∈ ids) then g id else f id.
Proof.
  revert f. induction ids as [|x ids IH]; intros f; [done|]. cbn [foldl]. rewrite IH. unfold updated_at.
  destruct (decide (id ∈ ids)); [by rewrite decide_True by (by right)|].
  destruct (decide (id = x)) as [->|]; [by rewrite decide_True by left|]. rewrite decide_False; [done|set_solver].
Qed.

Lemma inserts_at (g : SymbolID -> list Location) ids (m : gmap string (list Location)) id :
  foldl (fun m id => <[id := g id]> m) m ids !! id = if decide (id ∈ ids) then Some (g id) else m !! id.
Proof.
  revert m. induction ids as [|x ids IH]; intros m; [done|]. cbn [foldl]. rewrite IH.
  destruct (decide (id ∈ ids)); [by rewrite decide_True by (by right)|].
  destruct (decide (id = x)) as [->|]; [rewrite lookup_insert_eq; by rewrite decide_True by left|].
  rewrite lookup_insert_ne by done. rewrite decide_False; [done|set_solver].
Qed.

Lemma kept_at (references : gmap string (list Location)) (changedSet : gset string) ids f id :
  foldl (fun f id => match references !! id with
                     | Some cached => if bool_decide (id ∈ changedSet) then f else updated_at f id cached
                     | None => f end) f ids id =
  match references !! id with
  | Some cached => if decide (id ∈ ids /\ id ∉ changedSet) then cached else f id
  | None => f id
  end.
Proof.
  revert f. induction ids as [|x ids IH]; intros f.
  { cbn [foldl]. destruct (references !! id); [|done]. rewrite decide_False; [done|set_solver]. }
  cbn [foldl]. rewrite IH. destruct (decide (id = x)) as [->|Hne].
  - destruct (references !! x) as [cached|]; [|done]. destruct (decide (x ∈ changedSet)) as [Hc|Hc].
    + rewrite (bool_decide_eq_true_2 _ Hc). rewrite !decide_False by tauto. done.
    + rewrite (bool_decide_eq_false_2 _ Hc). rewrite (decide_True (P := x ∈ x :: ids /\ _)) by (split; [left|done]).
      destruct (decide _); [done|]. unfold updated_at. by rewrite decide_True.
  - assert (forall l, match references !! x with Some cached => if bool_decide (x ∈ changedSet) then f else updated_at f x cached | None => f end id = l <-> f id = l) as Hsame.
    { intros l. destruct (references !! x); [|done]. case_bool_decide; [done|]. unfold updated_at. by rewrite decide_False. }
    destruct (references !! id) as [cached|]; [|by apply Hsame].
    destruct (decide (id ∈ ids /\ id ∉ changedSet)) as [[H1 H2]|H].
    + by rewrite decide_True by (split; [by right|done]).
    + rewrite decide_False by set_solver. by apply Hsame.
Qed.

(** The references that are collected are those of the generation. *)
Lemma collected_at (references : option (gmap string (list Location))) (exact : bool) (changedSet : gset string) T queue refresh f id :
  (exact = false -> refresh = filter (listed T) queue /\ f = fun _ => []) ->
  (exact = true -> exists m, references = Some m /\ (forall id l, m !! id = Some l -> id ∉ changedSet -> l = references_of G id) /\
     refresh = filter (fun id => m !! id = None \/ id ∈ changedSet) (filter (listed T) queue) /\
     f = foldl (fun f id => match m !! id with
                            | Some cached => if bool_decide (id ∈ changedSet) then f else updated_at f id cached
                            | None => f end) (fun _ => []) (filter (listed T) queue)) ->
  (forall id, id ∈ refresh -> id ∈ queue /\ listed T id) /\
  (id ∈ queue ->
     (if decide (id ∈ refresh) then references_of G id else f id) = if decide (listed T id) then references_of G id else []) /\
  (id ∈ queue -> listed T id -> id ∉ refresh -> exact = true /\ exists m, references = Some m /\ m !! id = Some (references_of G id)).
Proof.
  intros H1 H2. destruct exact.
  - destruct (H2 eq_refl) as (m & -> & Hm & -> & ->). split_and!.
    + intros x [_ Hx]%list_elem_of_filter. apply list_elem_of_filter in Hx. tauto.
    + intros Hq. rewrite kept_at. destruct (decide (listed T id)) as [Hl|Hl].
      * destruct (m !! id) as [cached|] eqn:E.
        -- destruct (decide (id ∈ changedSet)) as [Hc|Hc]; [by rewrite decide_True by (rewrite !list_elem_of_filter; tauto)|].
           rewrite decide_False by (rewrite !list_elem_of_filter; naive_solver).
           rewrite decide_True by (rewrite list_elem_of_filter; tauto). by apply (Hm id).
        -- by rewrite decide_True by (rewrite !list_elem_of_filter; tauto).
      * rewrite decide_False by (rewrite !list_elem_of_filter; tauto). destruct (m !! id); [|done].
        by rewrite decide_False by (rewrite list_elem_of_filter; tauto).
    + intros Hq Hl Hr. split; [done|]. exists m. split; [done|]. rewrite !list_elem_of_filter in Hr.
      destruct (m !! id) as [l|] eqn:E; [|naive_solver]. f_equal. apply (Hm id); [done|]. naive_solver.
  - destruct (H1 eq_refl) as [-> ->]. split_and!.
    + intros x Hx%list_elem_of_filter. tauto.
    + intros Hq. destruct (decide (listed T id)); [by rewrite decide_True by (rewrite list_elem_of_filter; tauto)|].
      by rewrite decide_False by (rewrite list_elem_of_filter; tauto).
    + intros Hq Hl []. rewrite list_elem_of_filter. tauto.
Qed.

Lemma reference_ids_spec b T queue hs f : interner_ok (cb_interner b) -> holds (cb_interner b) (fullTier b) T ->
  Forall2 (fun id h => handles (cb_interner b) !! id = Some h) queue hs ->
  omap (fun '(fact, h) => if String.eqb (AliasTarget fact) "" && contains (fullTier b) h then Some (ID fact) else None)
    (zip (rows_with f queue) hs) = filter (listed T) queue.
Proof.
  intros Hn Ht. induction 1 as [|id h queue hs Hh _ IH]; [done|]. cbn [rows_with fmap list_fmap zip zip_with].
  rewrite omap_cons_option, filter_cons. cbn [with_references bare_row AliasTarget ID].
  rewrite (contains_known _ _ T id h Hn Hh Ht).
  destruct (String.eqb_spec (alias_of G id) "") as [E|E].
  - destruct (decide (id ∈ T)) as [Hin|Hin].
    + rewrite (bool_decide_eq_true_2 _ Hin). rewrite decide_True by done. simpl. f_equal. exact IH.
    + rewrite (bool_decide_eq_false_2 _ Hin). rewrite decide_False by (by intros [_ ?]). exact IH.
  - rewrite decide_False by (by intros [? _]). exact IH.
Qed.

(** What is collected, once it is known what is asked for. *)
Definition collected (T : gset string) (queue : list SymbolID) (rows : list SymbolFact) : Prop :=
  keys_sorted ID rows /\ forall x, x ∈ rows <-> exists id, id ∈ queue /\ x = full_row T id.

Lemma collected_rows T queue f : NoDup queue ->
  (forall id, id ∈ queue -> f id = if decide (listed T id) then references_of G id else []) ->
  forall rows, keys_sorted ID rows -> (forall x, x ∈ rows <-> x ∈ rows_with f queue) -> collected T queue rows.
Proof.
  intros Hq Hf rows Hs Hx. split; [done|]. intros x. rewrite Hx. unfold rows_with. rewrite list_elem_of_fmap. split.
  - intros (id & -> & Hid). exists id. split; [done|]. unfold full_row. by rewrite Hf.
  - intros (id & Hid & ->). exists id. split; [|done]. unfold full_row. by rewrite Hf.
Qed.

Lemma still_listed_spec b n hs queue T f id : interner_ok n -> interner_ok (cb_interner b) -> grows n (cb_interner b) -> NoDup queue ->
  Forall2 (fun id h => handles n !! id = Some h) queue hs -> holds (cb_interner b) (fullTier b) T ->
  still_listed b (fact_index n hs) (rows_with f queue) id = true <-> id ∈ queue /\ listed T id.
Proof.
  intros Hn Hn' Hg Hq Hh Ht. unfold still_listed. rewrite (rows_position n (cb_interner b) Hn Hn' Hg queue hs Hq Hh).
  destruct (decide (id ∈ queue)) as [Hin|Hin]; [|naive_solver]. cbn [with_references bare_row AliasTarget].
  rewrite andb_true_iff, String.eqb_eq. unfold in_tier. rewrite (holds_member _ _ _ Ht). unfold listed. tauto.
Qed.

(** The last part of the collection: the answers put into the rows. *)
Lemma collect_answered b0 b T f refresh (answers references : gmap string (list Location)) :
  builder_ok V b0 T -> grows (cb_interner b0) (cb_interner b) -> builder_ok V b T ->
  when_some store_ok (cachedCanonicalStore b) ->
  let queue := symbolQueue b0 in
  let index := fact_index (cb_interner b0) (queueHandles b0) in
  let n := cb_interner b in
  (forall id, id ∈ refresh -> default [] (answers !! id) = references_of G id) ->
  (forall id, id ∈ refresh -> id ∈ queue /\ listed T id) ->
  (forall id, id ∈ queue -> (if decide (id ∈ refresh) then references_of G id else f id) = if decide (listed T id) then references_of G id else []) ->
  (referenceChangesExact b = true -> forall id, id ∈ queue -> listed T id -> id ∉ refresh -> references !! id = Some (references_of G id)) ->
  let facts := foldl (fun facts id => put_row n index facts id (default [] (answers !! id))) (rows_with f queue) refresh in
  collected T queue (orderSymbolFacts facts index n (cachedCanonicalStore b)) /\
  (referenceChangesExact b = true ->
   lists_exactly T queue (foldl (fun references id => <[id := row_references n index facts id]> references)
     (filter (fun kv => still_listed b index facts kv.1 = true) references) refresh)) /\
  lists_exactly T queue (foldl (fun references id => <[id := row_references n index facts id]> references) ∅ (filter (listed T) queue)).
Proof.
  intros Hb0 Hg Hb Hstore queue index n Hans Hsub Hf Hkept facts.
  pose proof (within_ok _ _ (wf_within _ _ _ Hb0)) as Hn0. pose proof (within_ok _ _ (wf_within _ _ _ Hb)) as Hn. fold n in Hn, Hg.
  pose proof (wf_queue _ _ _ Hb0) as Hq. pose proof (wf_handles _ _ _ Hb0) as Hh. fold queue in Hq, Hh.
  set (f' := foldl (fun f id => updated_at f id (default [] (answers !! id))) f refresh).
  assert (facts = rows_with f' queue) as Ef.
  { unfold facts, f'. clear Hf Hsub Hans Hkept facts f'. revert f. induction refresh as [|id refresh IH]; intros f; [done|]. cbn [foldl].
    rewrite (put_row_with (cb_interner b0) n Hn0 Hn Hg queue (queueHandles b0) Hq Hh). apply IH. }
  assert (forall id, id ∈ queue -> f' id = if decide (listed T id) then references_of G id else []) as Hf'.
  { intros id Hid. rewrite <- Hf by done. unfold f'. rewrite updates_at. destruct (decide (id ∈ refresh)); [by apply Hans|done]. }
  assert (forall id, id ∈ queue -> listed T id -> row_references n index facts id = references_of G id) as Hrow.
  { intros id Hid Hl. rewrite Ef. unfold index. rewrite (row_references_with (cb_interner b0) n Hn0 Hg queue (queueHandles b0) Hq Hh) by done.
    rewrite Hf' by done. by rewrite decide_True. }
  split_and!.
  - rewrite Ef. destruct (order_sorts n Hn (rows_with f' queue)) with (index := index) (previous := cachedCanonicalStore b) as [H1 H2].
    + by rewrite rows_with_IDs.
    + apply (index_of_queue (cb_interner b0) n Hn0 Hn Hg queue (queueHandles b0) Hq Hh).
    + done.
    + by apply (collected_rows T queue f').
  - intros Hexact id. rewrite inserts_at. destruct (decide (id ∈ refresh)) as [Hr|Hr].
    + destruct (Hsub id Hr). rewrite decide_True by done. f_equal. by apply Hrow.
    + rewrite map_lookup_filter. destruct (decide (id ∈ queue /\ listed T id)) as [[Hid Hl]|Hno].
      * rewrite (Hkept Hexact id Hid Hl Hr). simpl. rewrite option_guard_True; [done|]. rewrite Ef.
        by apply (still_listed_spec b (cb_interner b0) (queueHandles b0) queue T f' id Hn0 Hn Hg Hq Hh (wf_tier _ _ _ Hb)).
      * destruct (references !! id); simpl; [|done]. rewrite option_guard_False; [done|]. rewrite Ef.
        intros Hs. apply Hno. by apply (still_listed_spec b (cb_interner b0) (queueHandles b0) queue T f' id Hn0 Hn Hg Hq Hh (wf_tier _ _ _ Hb)) in Hs.
  - intros id. rewrite inserts_at, lookup_empty. destruct (decide (id ∈ queue /\ listed T id)) as [[Hid Hl]|Hno].
    + rewrite decide_True by (by apply list_elem_of_filter). f_equal. by apply Hrow.
    + rewrite decide_False; [done|]. rewrite list_elem_of_filter. tauto.
Qed.

(** What is to be asked for, and the rows so far. *)
Record to_refresh (b : closureBuilder) (T : gset string) (kept : list SymbolFact * list SymbolID) (b' : closureBuilder) : Prop := {
  tr_ok : builder_ok V b' T;
  tr_grows : grows (cb_interner b) (cb_interner b');
  tr_references : cachedReferences b' = cachedReferences b;
  tr_store : cachedCanonicalStore b' = cachedCanonicalStore b /\ closedSymbolStore b' = closedSymbolStore b;
  tr_listed : forall id, id ∈ kept.2 -> id ∈ symbolQueue b /\ listed T id;
  tr_rows : exists f, kept.1 = rows_with f (symbolQueue b) /\ forall id, id ∈ symbolQueue b ->
    (if decide (id ∈ kept.2) then references_of G id else f id) = if decide (listed T id) then references_of G id else [];
  tr_kept : forall id, id ∈ symbolQueue b -> listed T id -> id ∉ kept.2 ->
    exists m, cachedReferences b = Some m /\ m !! id = Some (references_of G id);
}.

Lemma to_refresh_all b T : builder_ok V b T ->
  to_refresh b T (rows_with (fun _ => []) (symbolQueue b), filter (listed T) (symbolQueue b)) b.
Proof.
  intros Hb. assert (forall id, _) as H by (intros id; exact (collected_at None false ∅ T (symbolQueue b) _ (fun _ => []) id ltac:(done) ltac:(done))).
  split; [done|apply grows_refl|done|done| | |].
  - apply (H "").
  - exists (fun _ => []). split; [done|]. intros id. apply (H id).
  - intros id Hq Hl Hr. by destruct (proj2 (proj2 (H id)) Hq Hl Hr).
Qed.

Lemma wp_collect b T w : builder_ok V b T -> when_some store_ok (cachedCanonicalStore b) -> when_some delta_ok (cachedReferences b) ->
  wp (fun _ => True) (collectSymbolFacts (rows_with (fun _ => []) (symbolQueue b)))
    (fun rows st => collected T (symbolQueue b) rows /\ closedSymbolStore (snd st) = closedSymbolStore b /\
       exists references, closedReferences (snd st) = Some references /\ lists_exactly T (symbolQueue b) references) (w, b).
Proof.
  intros Hb Hstore Hdelta. pose proof (universe_fits _ _ HA) as HV. apply wp_bind, wp_get_builder. cbn [snd].
  assert (reference_ids b (rows_with (fun _ => []) (symbolQueue b)) = filter (listed T) (symbolQueue b)) as ->.
  { apply reference_ids_spec; [apply (wf_within _ _ _ Hb)|apply (wf_tier _ _ _ Hb)|apply (wf_handles _ _ _ Hb)]. }
  apply wp_bind. apply wp_mono with (E := fun _ => True) (Q := fun kept st => to_refresh b T kept (snd st)); [done| |].
  - intros [facts refresh] [w1 b1] [H1 H2 H3 [H4 H5] H6 (f & Ef & Hf) H7]. cbn [fst snd] in *. subst facts.
    apply wp_bind, wp_on_world. intros w2 [answers|e] Hans; [|done]. pose proof (references_answer _ _ HA _ _ _ _ Hans) as Ha.
    assert (Forall (fun id => id ∈ V) refresh) as Hv.
    { apply Forall_forall. intros id Hid. destruct (H6 id Hid) as [Hq _]. by apply (wf_known _ _ _ Hb). }
    apply wp_bind, wp_on_builder. cbn [fst snd].
    destruct (adds_changed V HV refresh b1 T H1 Hv) as (n & c & -> & Hg & Hb2 & _).
    apply wp_bind, wp_get_builder. cbn [snd]. apply wp_bind.
    destruct (collect_answered b (set_changed b1 n c) T f refresh answers (default ∅ (cachedReferences b)) Hb) as (C1 & C2 & C3); try done.
    { by eapply grows_trans. }
    { cbn. by rewrite H4. }
    { intros _ id Hq Hl Hr. destruct (H7 id Hq Hl Hr) as (m & -> & Hm). exact Hm. }
    change (referenceChangesExact (set_changed b1 n c)) with (referenceChangesExact b1) in *.
    destruct (referenceChangesExact b1).
    + apply wp_put_builder, wp_ret. cbn [fst snd set_closed closedSymbolStore closedReferences set_changed]. split; [done|]. split; [done|].
      eexists. split; [done|]. cbn [cachedReferences set_changed]. rewrite H3. by apply C2.
    + apply wp_put_builder, wp_ret. cbn [fst snd set_closed closedSymbolStore closedReferences set_changed]. split; [done|]. split; [done|].
      eexists. split; [done|]. exact C3.
  - destruct (cachedReferences b) as [m|] eqn:Em; [|by apply wp_ret, to_refresh_all].
    apply wp_bind, wp_on_world. intros w1 [[changedIDs exact]|e] Hch; [|done].
    destruct exact; cbn [negb]; [|by apply wp_ret, to_refresh_all].
    pose proof (changes_answer _ _ HA _ _ _ _ Hch) as Hv. apply wp_bind, wp_on_builder. cbn [fst snd].
    destruct (adds_changed V HV changedIDs b T Hb Hv) as (n & c & -> & Hg & Hb2 & _). apply wp_ret. cbn [snd].
    pose proof (within_ok _ _ (wf_within _ _ _ Hb)) as Hn.
    rewrite (keep_cached_spec (cb_interner b) (cb_interner b) Hn Hn (grows_refl _) (symbolQueue b) (queueHandles b) (wf_queue _ _ _ Hb) (wf_handles _ _ _ Hb)).
    set (f := foldl _ (fun _ => []) _). set (refresh := filter _ (filter (listed T) _)).
    assert (forall id, _) as H by (intros id; refine (collected_at (Some m) true (list_to_set changedIDs) T (symbolQueue b) refresh f id ltac:(done) _);
      intros _; exists m; split_and!; [done|intros x l Hx Hn'; by eapply (Hdelta m eq_refl); [| |by rewrite elem_of_list_to_set in Hn']|done|done]).
    split; [by destruct Hb2|done|done|done| | |].
    + apply (H "").
    + exists f. split; [done|]. intros id. apply (H id).
    + intros id Hq Hl Hr. destruct (proj2 (proj2 (H id)) Hq Hl Hr) as [_ Hm]. by rewrite Em.
Qed.
End Collect.
