(* ===== verification/SymbolPatch.v ===== *)
(** * Symbol closures: the retained store, patched

    When the deltas explain what moved, patching the retained store gives the
    rows of the generation, and the map of references is that of its listed
    symbols; when they do not, what is left behind still agrees with the
    generation as far as the delta says. *)

From S2P Require Import Prelude GoStd Model Proc SymbolIntern SymbolStore FactEqual Closure SymbolClosure SymbolDrain SymbolRows.

(** ** The loops, key by key *)

Section Loops.
Context (previous : option symbolFactStore).

Lemma patched_row_other (patches : gmap string SymbolFact) (f : SymbolFact) id x : x <> id ->
  patched_row previous (<[x := f]> patches) id = patched_row previous patches id.
Proof. intros Hne. unfold patched_row. by rewrite lookup_insert_ne. Qed.

(** One changed symbol, at its own key. *)
Definition refreshed_at (b : closureBuilder) (id : SymbolID) (patch : option SymbolFact) (reference : option (list Location)) (asked : Prop) :
    option SymbolFact * option (list Location) * Prop :=
  match (match patch with Some fact => Some fact | None => Get previous id end) with
  | None => (patch, reference, asked)
  | Some fact =>
      if negb (String.eqb (AliasTarget fact) "" && in_tier b id) then (Some (with_references fact []), None, asked)
      else match reference with Some _ => (patch, reference, asked) | None => (patch, reference, True) end
  end.

Lemma refresh_changed_at b l patches references asked id : NoDup l ->
  let '(patches', references', asked') := foldl (refresh_changed b previous) (patches, references, asked) l in
  let '(patch, reference, ask) :=
    if decide (id ∈ l) then refreshed_at b id (patches !! id) (references !! id) (id ∈ asked) else (patches !! id, references !! id, id ∈ asked) in
  patches' !! id = patch /\ references' !! id = reference /\ (id ∈ asked' <-> ask).
Proof.
  intros Hnd. revert patches references asked. induction Hnd as [|x l Hx _ IH]; intros patches references asked; [done|].
  cbn [foldl].
  assert (exists patches1 references1 asked1, refresh_changed b previous (patches, references, asked) x = (patches1, references1, asked1) /\
    (x <> id -> patches1 !! id = patches !! id /\ references1 !! id = references !! id /\ (id ∈ asked1 <-> id ∈ asked)) /\
    (x = id -> let '(patch, reference, ask) := refreshed_at b id (patches !! id) (references !! id) (id ∈ asked) in
       patches1 !! id = patch /\ references1 !! id = reference /\ (id ∈ asked1 <-> ask))) as (p1 & r1 & a1 & E & Hother & Hsame).
  { unfold refresh_changed, refreshed_at, patched_row. destruct (match patches !! x with Some fact => Some fact | None => Get previous x end) as [fact|] eqn:Er.
    - destruct (negb _) eqn:En.
      + eexists _, _, _. split; [done|]. split.
        * intros Hne. by rewrite lookup_insert_ne, lookup_delete_ne.
        * intros <-. rewrite Er, En. by rewrite lookup_insert_eq, lookup_delete_eq.
      + destruct (references !! x) as [l0|] eqn:El; eexists _, _, _; (split; [done|]); split.
        * done.
        * intros <-. rewrite Er, En, El. done.
        * intros Hne. split_and!; [done|done|]. set_solver.
        * intros <-. rewrite Er, En, El. split_and!; [done|done|]. set_solver.
    - eexists _, _, _. split; [done|]. split; [done|]. intros <-. by rewrite Er. }
  rewrite E. specialize (IH p1 r1 a1). destruct (foldl _ (p1, r1, a1) l) as [[p' r'] a']. destruct (decide (x = id)) as [->|Hne].
  - rewrite (decide_False (P := id ∈ l)) in IH by done. rewrite decide_True by left. specialize (Hsame eq_refl).
    destruct (refreshed_at _ _ _ _ _) as [[patch reference] ask]. destruct IH as (-> & -> & ->), Hsame as (-> & -> & ->). done.
  - destruct (Hother Hne) as (H1 & H2 & H3). rewrite H1, H2 in IH. destruct (decide (id ∈ l)) as [Hl|Hl].
    + rewrite decide_True by (by right). unfold refreshed_at in *. destruct (match patches !! id with Some _ => _ | None => _ end) as [fact|].
      * destruct (negb _); [by rewrite H3 in IH|]. destruct (references !! id); [by rewrite H3 in IH|done].
      * by rewrite H3 in IH.
    + rewrite decide_False by set_solver. by rewrite H3 in IH.
Qed.

Lemma put_references_at answers l patches references id : NoDup l ->
  let '(patches', references') := foldl (put_references previous answers) (patches, references) l in
  let found := default [] (answers !! id) in
  match (if decide (id ∈ l) then patched_row previous patches id else None) with
  | Some fact => patches' !! id = Some (with_references fact found) /\ references' !! id = Some found
  | None => patches' !! id = patches !! id /\ references' !! id = references !! id
  end.
Proof.
  intros Hnd. revert patches references. induction Hnd as [|x l Hx _ IH]; intros patches references; [done|].
  cbn [foldl]. unfold put_references at 2. destruct (decide (x = id)) as [->|Hne].
  - rewrite (decide_True (P := id ∈ id :: l)) by left. destruct (patched_row previous patches id) as [fact|] eqn:Er.
    + specialize (IH (<[id := with_references fact (default [] (answers !! id))]> patches) (<[id := default [] (answers !! id)]> references)).
      destruct (foldl _ _ l) as [p' r']. rewrite decide_False in IH by done. rewrite !lookup_insert_eq in IH. done.
    + specialize (IH patches references). destruct (foldl _ _ l) as [p' r']. rewrite decide_False in IH by done. done.
  - replace (if decide (id ∈ x :: l) then patched_row previous patches id else None) with (if decide (id ∈ l) then patched_row previous patches id else None).
    2: { destruct (decide (id ∈ l)); [by rewrite decide_True by (by right)|by rewrite decide_False by set_solver]. }
    destruct (patched_row previous patches x) as [fact|] eqn:Er; [|apply IH].
    specialize (IH (<[x := with_references fact (default [] (answers !! x))]> patches) (<[x := default [] (answers !! x)]> references)).
    destruct (foldl _ _ l) as [p' r']. rewrite patched_row_other in IH by done. by rewrite !lookup_insert_ne in IH by done.
Qed.
End Loops.

(** ** What the patches come to *)

Section Patching.
Context {W : Type} `{BE : !ClosureBackend W} `{MR : !MapRange} (G : generation_facts) (V : gset string) (HA : answers_as G V).

(** The retained rows carry the references of the retained map, and nothing
    else is in it. *)
Record references_retained (previous : option symbolFactStore) (references : gmap string (list Location)) : Prop := {
  rr_rows : forall id row, Get previous id = Some row -> References row = default [] (references !! id);
  rr_dom : forall id, is_Some (references !! id) -> is_Some (Get previous id);
}.

(** A retained row says what the generation says, but for its references. *)
Definition row_current (previous : option symbolFactStore) (id : SymbolID) : Prop :=
  exists row, Get previous id = Some row /\ ID row = id /\ AliasTarget row = alias_of G id /\ Declarations row = declarations_of G id.

Section Patched.
Context (b : closureBuilder) (T : gset string) (queue : list SymbolID) (previous : option symbolFactStore).
Context (references : gmap string (list Location)) (changed : list SymbolID) (answers : gmap string (list Location)).
Context (Hids : forall id row, Get previous id = Some row -> ID row = id).
Context (Hretained : references_retained previous references).
Context (Htier : forall id, in_tier b id = true <-> id ∈ T).
Context (Hchanged : forall id, is_changed b id = true <-> id ∈ cs_ids (changedSymbols b)) (Hnd : NoDup (cs_ids (changedSymbols b))).
Context (Hcovers : forall id, id ∈ changed -> id ∈ cs_ids (changedSymbols b)).
Context (Hdelta : forall id l, references !! id = Some l -> id ∉ changed -> l = references_of G id).
Context (Hunchanged : forall id, id ∈ queue -> id ∉ cs_ids (changedSymbols b) ->
  row_current previous id /\ (listed G T id <-> is_Some (references !! id))).

Definition first_patches : gmap string SymbolFact := foldl (patch_fact b previous) ∅ (rows_with G (fun _ => []) queue).

(** The patch of a changed symbol of the queue. *)
Lemma first_patches_at id : first_patches !! id =
  if decide (id ∈ queue /\ id ∈ cs_ids (changedSymbols b)) then Some (with_references (bare_row G id) (default [] (references !! id))) else None.
Proof.
  unfold first_patches.
  assert (forall m : gmap string SymbolFact, foldl (patch_fact b previous) m (rows_with G (fun _ => []) queue) !! id =
    if decide (id ∈ queue /\ id ∈ cs_ids (changedSymbols b)) then Some (with_references (bare_row G id) (default [] (references !! id))) else m !! id) as H;
    [|rewrite H; by rewrite lookup_empty].
  clear Hunchanged. induction queue as [|x q IH]; intros m.
  { rewrite decide_False; [done|]. intros [H _]. by apply elem_of_nil in H. }
  cbn [rows_with fmap list_fmap foldl]. fold (rows_with G (fun _ => []) q). rewrite IH. unfold patch_fact. cbn [with_references bare_row ID].
  destruct (decide (id ∈ q /\ id ∈ cs_ids (changedSymbols b))) as [[H1 H2]|Hno].
  { by rewrite decide_True by (split; [by right|done]). }
  destruct (is_changed b x) eqn:Ec.
  - apply Hchanged in Ec. destruct (decide (x = id)) as [->|Hne].
    + rewrite lookup_insert_eq, decide_True by (split; [left|done]). f_equal. destruct (Get previous id) as [row|] eqn:Er.
      * unfold with_references. simpl. f_equal. by apply (rr_rows _ _ Hretained).
      * destruct (references !! id) as [l|] eqn:El; [|done]. destruct (rr_dom _ _ Hretained id) as [? ?]; [by eexists|congruence].
    + rewrite lookup_insert_ne by done. rewrite decide_False; [done|]. set_solver.
  - rewrite decide_False; [done|]. intros [[->|H]%elem_of_cons H2]; [|tauto]. apply Hchanged in H2. congruence.
Qed.

Definition after_changed : gmap string SymbolFact * gmap string (list Location) * gset string :=
  foldl (refresh_changed b previous) (first_patches, references, ∅) (cs_ids (changedSymbols b)).

Definition refresh_set : gset string :=
  snd after_changed ∪ list_to_set (filter (fun id => is_Some (snd (fst after_changed) !! id)) changed).

Definition after_answers : gmap string SymbolFact * gmap string (list Location) :=
  foldl (put_references previous answers) (fst after_changed) (range_set refresh_set).

Context (Hanswers : forall id, id ∈ refresh_set -> default [] (answers !! id) = references_of G id).

Lemma refresh_elem id : id ∈ refresh_set <-> id ∈ snd after_changed \/ (id ∈ changed /\ is_Some (snd (fst after_changed) !! id)).
Proof. unfold refresh_set. rewrite elem_of_union, elem_of_list_to_set, list_elem_of_filter. tauto. Qed.

Lemma in_tier_listed id : String.eqb (alias_of G id) "" && in_tier b id = bool_decide (listed G T id).
Proof.
  apply eq_bool_prop_intro. rewrite !Is_true_true, bool_decide_eq_true, andb_true_iff, String.eqb_eq, Htier. done.
Qed.

(** A symbol of the queue: the row and the entry it ends with. *)
Lemma queue_row id : id ∈ queue ->
  match fst after_answers !! id with Some fact => Some fact | None => Get previous id end = Some (full_row G T id) /\
  snd after_answers !! id = if decide (listed G T id) then Some (references_of G id) else None.
Proof.
  intros Hq. pose proof (refresh_changed_at previous b (cs_ids (changedSymbols b)) first_patches references ∅ id Hnd) as H1.
  fold after_changed in H1. pose proof (put_references_at previous answers (range_set refresh_set) (fst (fst after_changed)) (snd (fst after_changed)) id (range_set_NoDup _)) as H2.
  rewrite <- surjective_pairing in H2. fold after_answers in H2. pose proof (refresh_elem id) as Hr. pose proof (Hanswers id) as Hans.
  destruct after_answers as [p2 r2]. destruct after_changed as [[p1 r1] s1]. cbn [fst snd] in *.
  rewrite first_patches_at in H1. destruct (decide (id ∈ cs_ids (changedSymbols b))) as [Hc|Hc].
  - rewrite decide_True in H1 by done. unfold refreshed_at in H1. cbn [with_references bare_row AliasTarget] in H1. rewrite in_tier_listed in H1.
    unfold patched_row in H2. unfold full_row. destruct (decide (listed G T id)) as [Hl|Hl].
    + rewrite bool_decide_eq_true_2 in H1 by done. cbn [negb] in H1. destruct (references !! id) as [l|] eqn:El; destruct H1 as (E1 & E2 & E3); rewrite E1 in H2.
      * destruct (decide (id ∈ changed)) as [Hch|Hch].
        -- assert (id ∈ refresh_set) as Hin by (apply Hr; right; rewrite E2; split; [done|by eexists]).
           rewrite decide_True in H2 by (by apply range_set_elem). destruct H2 as [-> ->]. by rewrite Hans.
        -- rewrite decide_False in H2 by (rewrite range_set_elem, Hr, E3; set_solver). destruct H2 as [-> ->]. rewrite ?E1, ?E2. cbn [default].
           by rewrite (Hdelta id l El Hch).
      * assert (id ∈ refresh_set) as Hin by (apply Hr; left; by apply E3).
        rewrite decide_True in H2 by (by apply range_set_elem). destruct H2 as [-> ->]. by rewrite Hans.
    + rewrite bool_decide_eq_false_2 in H1 by done. cbn [negb] in H1. destruct H1 as (E1 & E2 & E3).
      rewrite decide_False in H2 by (rewrite range_set_elem, Hr, E2, E3; intros [?|[_ [? ?]]]; [set_solver|done]). destruct H2 as [-> ->]. by rewrite E1, E2.
  - rewrite decide_False in H1 by tauto. destruct H1 as (E1 & E2 & E3).
    rewrite decide_False in H2 by (rewrite range_set_elem, Hr, E3; intros [?|[Hch _]]; [set_solver|by apply Hc, Hcovers]).
    destruct H2 as [-> ->]. rewrite E1, E2. destruct (Hunchanged id Hq Hc) as [(row & Hrow & A1 & A2 & A3) Hl].
    pose proof (rr_rows _ _ Hretained id row Hrow) as A4. rewrite Hrow. unfold full_row, with_references. simpl.
    destruct (decide (listed G T id)) as [Hli|Hli].
    + destruct (proj1 Hl Hli) as [l El]. rewrite El in *. simpl in A4. assert (l = references_of G id) as -> by (apply (Hdelta id l El); intros Hch; by apply Hc, Hcovers).
      split; [|done]. destruct row. simpl in *. by subst.
    + destruct (references !! id) as [l|] eqn:El; [by destruct Hli; apply Hl; eexists|]. simpl in A4. split; [|done]. destruct row. simpl in *. by subst.
Qed.

(** Any symbol: patches name their key, and come with a retained row or are of
    the queue; entries are old or of the generation. *)
Lemma any_row id :
  (forall fact, fst after_answers !! id = Some fact -> ID fact = id) /\
  (id ∉ queue -> is_Some (fst after_answers !! id) \/ is_Some (snd after_answers !! id) -> is_Some (Get previous id)) /\
  (forall l, snd after_answers !! id = Some l -> references !! id = Some l \/ l = references_of G id).
Proof.
  pose proof (refresh_changed_at previous b (cs_ids (changedSymbols b)) first_patches references ∅ id Hnd) as H1.
  fold after_changed in H1. pose proof (put_references_at previous answers (range_set refresh_set) (fst (fst after_changed)) (snd (fst after_changed)) id (range_set_NoDup _)) as H2.
  rewrite <- surjective_pairing in H2. fold after_answers in H2. pose proof (refresh_elem id) as Hr. pose proof (Hanswers id) as Hans.
  destruct after_answers as [p2 r2]. destruct after_changed as [[p1 r1] s1]. cbn [fst snd] in *.
  assert ((forall fact, p1 !! id = Some fact -> ID fact = id) /\
    (id ∉ queue -> is_Some (p1 !! id) \/ is_Some (r1 !! id) -> is_Some (Get previous id)) /\
    (forall l, r1 !! id = Some l -> references !! id = Some l)) as (A1 & A2 & A3).
  { rewrite first_patches_at in H1. destruct (decide (id ∈ cs_ids (changedSymbols b))) as [Hc|Hc].
    - destruct (decide (id ∈ queue /\ id ∈ cs_ids (changedSymbols b))) as [[Hq _]|Hno].
      + unfold refreshed_at in H1. destruct (negb _); [|destruct (references !! id)]; destruct H1 as (E1 & E2 & _); rewrite E1, E2; naive_solver.
      + assert (id ∉ queue) as Hq by tauto. unfold refreshed_at in H1. destruct (Get previous id) as [row|] eqn:Er.
        * destruct (negb _); [|destruct (references !! id)]; destruct H1 as (E1 & E2 & _); rewrite E1, E2; naive_solver.
        * destruct H1 as (E1 & E2 & _). rewrite E1, E2. split_and!; [done| |done]. intros _ [[? ?]|H]; [done|]. rewrite <- Er. by apply (rr_dom _ _ Hretained).
    - rewrite decide_False in H1 by tauto. destruct H1 as (E1 & E2 & _). rewrite E1, E2. split_and!; [done| |done].
      intros _ [[? ?]|H]; [done|]. by apply (rr_dom _ _ Hretained). }
  destruct (decide (id ∈ range_set refresh_set)) as [Hin|Hin]; [|destruct H2 as [-> ->]; split_and!; [done|done|intros l Hl; left; by apply A3]].
  rewrite range_set_elem in Hin. specialize (Hans Hin). unfold patched_row in H2. destruct (p1 !! id) as [fact|] eqn:Ep.
  - destruct H2 as [-> ->]. split_and!.
    + intros f [= <-]. simpl. by apply A1.
    + intros Hq _. apply A2; [done|]. left. by eexists.
    + intros l [= <-]. by right.
  - destruct (Get previous id) as [row|] eqn:Er.
    + destruct H2 as [-> ->]. split_and!; [intros f [= <-]; simpl; by apply Hids|intros; by eexists|intros l [= <-]; by right].
    + destruct H2 as [-> ->]. split_and!; [done| |intros l Hl; left; by apply A3]. intros Hq Hs. by apply A2.
Qed.
End Patched.

(** ** The store that comes out *)

Lemma Get_ID previous id row : when_some store_ok previous -> Get previous id = Some row -> ID row = id.
Proof. intros Hs Hg. destruct previous as [s|]; [|done]. by apply (Get_spec s (Hs s eq_refl)) in Hg as [_ ?]. Qed.

(** The rows of a store are those of the listed queue. *)
Definition closes_with (T : gset string) (queue : list SymbolID) (s : symbolFactStore) : Prop :=
  store_ok s /\ forall id, Get (Some s) id = if decide (id ∈ queue) then Some (full_row G T id) else None.

Lemma real_patch_at previous patches id :
  match real_patches previous patches !! id with Some fact => Some fact | None => Get previous id end =
  match patches !! id with Some fact => Some fact | None => Get previous id end.
Proof.
  unfold real_patches. rewrite map_lookup_filter. destruct (patches !! id) as [fact|]; [|done]. simpl.
  destruct (Get previous id) as [row|] eqn:Er; [|by rewrite option_guard_True].
  destruct (symbolFactEqual fact row) eqn:Ee; [|by rewrite option_guard_True].
  rewrite option_guard_False by done. apply symbolFactEqual_eq in Ee. by subst.
Qed.

Lemma real_patch_some previous patches id fact : real_patches previous patches !! id = Some fact -> patches !! id = Some fact.
Proof. unfold real_patches. by intros [H _]%map_lookup_filter_Some. Qed.

(** [Patch] over the final patches: complete exactly with the rows of the queue. *)
Lemma patched_store s n seen queue T patches (references : gmap string (list Location)) candidates :
  store_ok s -> NoDup queue -> holds n seen (list_to_set queue) ->
  (forall id, id ∈ queue -> match patches !! id with Some fact => Some fact | None => Get (Some s) id end = Some (full_row G T id) /\
     references !! id = if decide (listed G T id) then Some (references_of G id) else None) ->
  (forall id, (forall fact, patches !! id = Some fact -> ID fact = id) /\
     (id ∉ queue -> is_Some (patches !! id) \/ is_Some (references !! id) -> is_Some (Get (Some s) id))) ->
  let '(next, _, removed, complete) := Patch (Some s) n seen (real_patches (Some s) patches) candidates in
  complete = true -> closes_with T queue next /\
    lists_exactly G T queue (foldl (fun references id => delete id references) references removed).
Proof.
  intros Hs Hq Hseen Hrow Hany. assert (patches_ok (real_patches (Some s) patches)) as Hp.
  { intros id fact Hf%real_patch_some. by apply (Hany id). }
  pose proof (Patch_spec s n seen (real_patches (Some s) patches) candidates Hs Hp) as H.
  destruct (Patch _ _ _ _ _) as [[[next shared] removed] complete]. destruct H as (H1 & H2 & H3 & H4 & _). intros ->.
  assert (forall id, id ∈ queue -> Get (Some next) id = Some (full_row G T id)) as Hin.
  { intros id Hid. rewrite H3. rewrite decide_False.
    - rewrite real_patch_at. by apply Hrow.
    - rewrite H2. intros (_ & Hc & _). assert (containsID n seen id = true) as Hc' by (apply (holds_member _ _ _ Hseen); by apply elem_of_list_to_set). congruence. }
  assert (universe (Some next) = list_to_set queue) as Hu.
  { symmetry. apply set_subseteq_size_eq.
    - intros id Hid%elem_of_list_to_set. apply universe_elem; [done|]. by rewrite Hin.
    - symmetry in H4. apply Z.eqb_eq in H4. unfold set_len in H4. rewrite (holds_count _ _ _ Hseen) in H4. lia. }
  assert (forall id, id ∉ queue -> Get (Some next) id = None) as Hout.
  { intros id Hid. destruct (Get (Some next) id) as [x|] eqn:E; [|done]. destruct Hid.
    apply (elem_of_list_to_set (C := gset string)). rewrite <- Hu. apply universe_elem; [done|]. by rewrite E. }
  split; [split; [done|]|].
  - intros id. destruct (decide (id ∈ queue)); [by apply Hin|by apply Hout].
  - intros id. assert (forall l (m : gmap string (list Location)), foldl (fun references id => delete id references) m l !! id = if decide (id ∈ l) then None else m !! id) as Hdel.
    { clear. induction l as [|x l IH]; intros m; [done|]. cbn [foldl]. rewrite IH. destruct (decide (id ∈ l)); [by rewrite decide_True by (by right)|].
      destruct (decide (x = id)) as [->|]; [rewrite lookup_delete_eq; by rewrite decide_True by left|].
      rewrite lookup_delete_ne by done. by rewrite decide_False by set_solver. }
    rewrite Hdel. destruct (decide (id ∈ queue)) as [Hid|Hid].
    + rewrite decide_False; [|rewrite H2; intros (_ & Hc & _);
        assert (containsID n seen id = true) as Hc' by (apply (holds_member _ _ _ Hseen); by apply elem_of_list_to_set); congruence].
      rewrite (proj2 (Hrow id Hid)). destruct (decide (listed G T id)); [by rewrite decide_True|by rewrite decide_False by tauto].
    + rewrite (decide_False (P := id ∈ queue /\ _)) by tauto. destruct (decide (id ∈ removed)) as [|Hr]; [done|].
      pose proof (Hout id Hid) as Ho. rewrite H3, decide_False, real_patch_at in Ho by done.
      destruct (references !! id) as [l|] eqn:El; [|done]. exfalso.
      destruct (proj2 (Hany id) Hid) as [x Hx]; [right; by eexists|]. destruct (patches !! id); [done|]. congruence.
Qed.

(** ** The procedure *)

(** What a refused patch leaves. *)
Record refused (b b' : closureBuilder) (T : gset string) : Prop := {
  rf_ok : builder_ok V b' T;
  rf_queue : symbolQueue b' = symbolQueue b;
  rf_store : cachedCanonicalStore b' = cachedCanonicalStore b;
  rf_closed : closedSymbolStore b' = closedSymbolStore b;
  rf_delta : when_some (delta_ok G) (cachedReferences b');
}.

Lemma tier_member b T : builder_ok V b T -> forall id, in_tier b id = true <-> id ∈ T.
Proof. intros Hb id. apply (holds_member _ _ _ (wf_tier _ _ _ Hb)). Qed.

Lemma changed_member b T : builder_ok V b T -> forall id, is_changed b id = true <-> id ∈ cs_ids (changedSymbols b).
Proof.
  intros Hb id. unfold is_changed, changed_containsID. rewrite (holds_member _ _ _ (changed_holds _ _ (wf_changed _ _ _ Hb))).
  apply elem_of_list_to_set.
Qed.

(** Nothing unexplained: a symbol that did not change keeps its place. *)
Lemma explained b T references id : builder_ok V b T -> cachedReferences b = Some references ->
  existsb (unexplained b) (rows_with G (fun _ => []) (symbolQueue b)) = false ->
  id ∈ symbolQueue b -> id ∉ cs_ids (changedSymbols b) -> (listed G T id <-> is_Some (references !! id)).
Proof.
  intros Hb Er Hex Hq Hc. destruct (unexplained b (with_references (bare_row G id) [])) eqn:Ex.
  - exfalso. assert (existsb (unexplained b) (rows_with G (fun _ => []) (symbolQueue b)) = true) as Ht; [|congruence].
    apply existsb_exists. exists (with_references (bare_row G id) []). split; [|done]. apply list_elem_of_In. unfold rows_with.
    by apply (list_elem_of_fmap_2 (fun id => with_references (bare_row G id) [])).
  - unfold unexplained, eligible, is_cached in Ex. rewrite Er in Ex. cbn [with_references bare_row AliasTarget ID] in Ex.
    assert (is_changed b id = false) as Hnc by (apply not_true_iff_false; by rewrite (changed_member b T Hb)).
    rewrite Hnc, (in_tier_listed b T (tier_member b T Hb) id), andb_true_r in Ex. apply negb_false_iff, eqb_prop in Ex.
    rewrite <- (bool_decide_eq_true (listed G T id)), <- (bool_decide_eq_true (is_Some (references !! id))). by rewrite Ex.
Qed.

Lemma wp_patchCanonical b T w : builder_ok V b T -> when_some store_ok (cachedCanonicalStore b) ->
  when_some (fun references => references_retained (cachedCanonicalStore b) references /\ delta_ok G references) (cachedReferences b) ->
  (forall id, id ∈ symbolQueue b -> id ∈ cs_ids (changedSymbols b) \/ row_current (cachedCanonicalStore b) id) ->
  wp (fun _ => True) (patchCanonicalSymbolStore (rows_with G (fun _ => []) (symbolQueue b)))
    (fun patched st =>
      match patched with
      | Some next => closes_with T (symbolQueue b) next /\
          exists references, closedReferences (snd st) = Some references /\ lists_exactly G T (symbolQueue b) references
      | None => refused b (snd st) T
      end) (w, b).
Proof.
  intros Hb Hstore Hrefs Hknown. pose proof (universe_fits _ _ HA) as HV. apply wp_bind, wp_get_builder. cbn [snd].
  assert (refused b b T) as Hrefused.
  { split; [done..|]. intros m Hm. by apply (Hrefs m). }
  destruct (cachedReferences b) as [references|] eqn:Er; [|by apply wp_ret].
  destruct (Hrefs references eq_refl) as [Hretained Hdelta].
  destruct (_ || _) eqn:Eu; [by apply wp_ret|]. apply orb_false_elim in Eu as [Elen Eun].
  apply wp_bind, wp_on_world. intros w1 [[changed exact]|e] Hch; [|done]. cbn [fst snd].
  destruct exact; cbn [negb]; [|by apply wp_ret].
  pose proof (changes_answer _ _ HA _ _ _ _ Hch) as Hv.
  apply wp_bind, wp_on_builder, wp_bind, wp_on_builder. cbn [fst snd].
  destruct (adds_changed V HV changed (set_exact b) T ltac:(by destruct Hb) Hv) as (n & c & -> & Hg & Hb1 & Hcs).
  apply wp_bind, wp_get_builder. cbn [snd]. set (b1 := set_changed (set_exact b) n c) in *.
  change (cb_interner (set_exact b)) with (cb_interner b) in Hg. change (changedSymbols (set_exact b)) with (changedSymbols b) in Hcs.
  assert (forall id row, Get (cachedCanonicalStore b) id = Some row -> ID row = id) as Hids by (intros id row; by apply Get_ID).
  assert (forall id, id ∈ symbolQueue b -> id ∉ cs_ids (changedSymbols b1) ->
    row_current (cachedCanonicalStore b) id /\ (listed G T id <-> is_Some (references !! id))) as Hunchanged.
  { intros id Hq Hc. assert (id ∉ cs_ids (changedSymbols b)) as Hc0 by (intros H; apply Hc; apply Hcs; by right).
    destruct (Hknown id Hq) as [?|Hrow]; [done|]. split; [done|]. by apply (explained b T references id Hb Er). }
  change (default ∅ (cachedReferences b1)) with (default ∅ (cachedReferences b)). rewrite Er. change (default ∅ (Some references)) with references.
  change (foldl (refresh_changed b1 (cachedCanonicalStore b)) (foldl (patch_fact b1 (cachedCanonicalStore b)) ∅ (rows_with G (fun _ => []) (symbolQueue b)), references, ∅) (cs_ids (changedSymbols b1)))
    with (after_changed b1 (symbolQueue b) (cachedCanonicalStore b) references).
  assert (forall id l, references !! id = Some l -> id ∉ changed -> l = references_of G id) as Hdelta' by (intros id l; by eapply Hdelta).
  pose proof (fun answers => queue_row b1 T (symbolQueue b) (cachedCanonicalStore b) references changed answers Hids Hretained (tier_member b1 T Hb1)
    (changed_member b1 T Hb1) (changed_NoDup _ _ (wf_changed _ _ _ Hb1)) ltac:(intros id Hid; apply Hcs; by left) Hdelta' Hunchanged) as Hrow.
  pose proof (fun answers => any_row b1 T (symbolQueue b) (cachedCanonicalStore b) references changed answers Hids Hretained (tier_member b1 T Hb1)
    (changed_member b1 T Hb1) (changed_NoDup _ _ (wf_changed _ _ _ Hb1)) ltac:(intros id Hid; apply Hcs; by left) Hdelta' Hunchanged) as Hany.
  unfold after_answers, refresh_set in Hrow, Hany.
  destruct (after_changed b1 (symbolQueue b) (cachedCanonicalStore b) references) as [[p1 r1] s1] eqn:E1. cbn [fst snd] in Hrow, Hany. cbv beta iota.
  apply wp_bind, wp_put_builder, wp_bind, wp_on_world. cbn [fst snd]. intros w2 [answers|e] Hans; [|done].
  set (refresh := s1 ∪ list_to_set (filter (fun id => is_Some (r1 !! id)) changed)) in *.
  assert (forall id, id ∈ refresh -> default [] (answers !! id) = references_of G id) as Ha.
  { intros id Hid. apply (references_answer _ _ HA _ _ _ _ Hans). by apply range_set_elem. }
  specialize (fun id => Hrow answers Ha id). specialize (fun id => Hany answers Ha id).
  destruct (foldl (put_references (cachedCanonicalStore b) answers) (p1, r1) (range_set refresh)) as [p2 r2]. cbn [fst snd] in Hrow, Hany.
  apply wp_bind, wp_on_builder. cbn [fst snd]. destruct (cachedCanonicalStore b) as [s|] eqn:Es; [|done].
  pose proof (patched_store s (cb_interner b1) (symbolSeen b1) (symbolQueue b) T p2 r2 (removedSymbolCandidates b1) (Hstore s eq_refl)
    (wf_queue _ _ _ Hb1) (wf_seen _ _ _ Hb1) Hrow ltac:(intros id; by destruct (Hany id) as (A1 & A2 & _))) as Hpatch.
  destruct (Patch _ _ _ _ _) as [[[next shared] removed] complete]. destruct complete; cbn [negb].
  - apply wp_bind, wp_on_builder, wp_ret. cbn [fst snd]. destruct (Hpatch eq_refl) as [A B]. split; [done|].
    eexists. split; [done|]. exact B.
  - apply wp_ret. cbn [fst snd]. split; [by destruct Hb1|done|done|done|]. intros m [= <-] w3 w4 ids Hch' id l Hl Hno.
    destruct (proj2 (proj2 (Hany id)) l Hl) as [Hold|]; [|done]. by eapply Hdelta.
Qed.
End Patching.
