(* ===== verification/SymbolClosureTheorems.v ===== *)
(** * Symbol closures: what they give

    Whatever path [closeSymbols] takes, the rows it ends with are those of the
    symbols that alias targets reach from the queue, in order, with the
    references of the generation exactly where the tier asks for them; and the
    specialization for an unchanged universe gives the same rows. *)

From S2P Require Import Prelude GoStd Model FactEqual SymbolIntern SymbolStore Proc Closure SymbolClosure SymbolDrain SymbolRows SymbolPatch.

Lemma size_list_to_set_le (l : list string) : (size (list_to_set l : gset string) <= length l)%nat.
Proof.
  induction l as [|x l IH]; [done|]. rewrite list_to_set_cons, size_union_alt, size_singleton. cbn [length].
  apply le_n_S. etransitivity; [|exact IH]. apply subseteq_size. set_solver.
Qed.

(** ** The tier *)

Section Tiers.
Context {W : Type} `{BE : !ClosureBackend W} (G : generation_facts) (V : gset string) (HA : answers_as G V).

(** The tier with what alias targets reach from its reached symbols. *)
Definition extends_tier (q : list SymbolID) (T T' : gset string) : Prop :=
  forall id, id ∈ T' <-> id ∈ T \/ exists source, source ∈ T /\ reached G q source /\ rtc (alias_step G) source id.

Lemma follows_bare queue a b : follows (bare_row G <$> queue) a b <-> a ∈ queue /\ alias_step G a b.
Proof.
  unfold follows, alias_step. split.
  - intros (fact & (id & -> & Hid)%list_elem_of_fmap & <- & <- & Hne). simpl in *. done.
  - intros [Ha [-> Hne]]. exists (bare_row G a). split_and!; [|done..]. by apply list_elem_of_fmap_2.
Qed.

Lemma follows_rtc queue a b : (forall id, id ∈ queue -> alias_of G id <> "" -> alias_of G id ∈ queue) ->
  rtc (follows (bare_row G <$> queue)) a b <-> a = b \/ a ∈ queue /\ rtc (alias_step G) a b.
Proof.
  intros Hclosed. split.
  - induction 1 as [|x y z Hxy%follows_bare _ IH]; [by left|]. destruct Hxy as [Hx Hs]. right. split; [done|].
    eapply rtc_l; [done|]. destruct IH as [->|[_ ?]]; [apply rtc_refl|done].
  - intros [->|[Ha Hr]]; [apply rtc_refl|]. revert Ha. induction Hr as [|x y z Hxy _ IH]; intros Hx; [apply rtc_refl|].
    eapply rtc_l; [by apply follows_bare|]. apply IH. destruct Hxy as [-> Hy]. by apply Hclosed.
Qed.

Lemma propagate_ok b q T : builder_ok V b T ->
  (forall id, id ∈ symbolQueue b <-> reached G q id) ->
  (forall id, id ∈ symbolQueue b -> alias_of G id <> "" -> alias_of G id ∈ symbolQueue b) ->
  exists tier T', propagate_tier b (bare_row G <$> symbolQueue b) = set_tier b tier /\
    builder_ok V (set_tier b tier) T' /\ extends_tier q T T'.
Proof.
  intros Hb Hreached Hclosed. pose proof (within_ok _ _ (wf_within _ _ _ Hb)) as Hn. unfold propagate_tier.
  assert (forall id, id ∈ symbolQueue b -> is_Some (handles (cb_interner b) !! id)) as Hknown.
  { intros id [i Hi]%list_elem_of_lookup. destruct (Forall2_lookup_l _ _ _ _ _ (wf_handles _ _ _ Hb) Hi) as (h & _ & Hh). by exists h. }
  destruct (alias_handles (cb_interner b) (bare_row G <$> symbolQueue b) []) as (aliases & -> & Haliases).
  { intros fact (id & -> & Hid)%list_elem_of_fmap Hne. by apply Hknown, Hclosed. }
  assert (Forall2 (edge_of (cb_interner b)) (bare_row G <$> symbolQueue b) (zip (queueHandles b) aliases)) as Hedges.
  { apply edges_of; [|done]. apply Forall2_fmap_l. exact (wf_handles _ _ _ Hb). }
  destruct (tier_loop_spec (cb_interner b) Hn _ _ (S (length (bare_row G <$> symbolQueue b))) (fullTier b) T Hedges (wf_tier _ _ _ Hb))
    as (T' & Htier & HT').
  { pose proof (size_list_to_set_le (AliasTarget <$> (bare_row G <$> symbolQueue b))) as Hle. rewrite length_fmap in Hle.
    apply Nat.lt_succ_r. etransitivity; [|exact Hle]. apply subseteq_size. set_solver. }
  rewrite app_nil_l. eexists _, T'. split_and!.
  - unfold set_interner, set_queue, set_tier. simpl. reflexivity.
  - destruct Hb. by split.
  - intros id. rewrite HT'. split.
    + intros (s & Hs & [->|[Hq Hr]]%follows_rtc); [by left| |done]. right. exists s. split_and!; [done|by apply Hreached|done].
    + intros [Hid|(s & Hs & Hq & Hr)]; [exists id; split; [done|apply rtc_refl]|]. exists s. split; [done|].
      apply follows_rtc; [done|]. right. split; [by apply Hreached|done].
Qed.
End Tiers.

(** ** The whole closure *)

Section Whole.
Context {W : Type} `{BE : !ClosureBackend W} `{MR : !MapRange} (G : generation_facts) (V : gset string) (HA : answers_as G V).

(** The rows a closure ends with, patched or collected. *)
Definition closed_rows (b : closureBuilder) (rows : list SymbolFact) : list SymbolFact :=
  match closedSymbolStore b with Some s => Range (Some s) | None => rows end.

Lemma closes_collected T queue s : closes_with G T queue s -> collected G T queue (Range (Some s)).
Proof.
  intros [Hs Hg]. split; [apply (store_sorted _ Hs)|]. intros x. change (Range (Some s)) with (concat (chunks s)). split.
  - intros Hx. assert (Get (Some s) (ID x) = Some x) as E by (by apply (Get_spec s Hs)). rewrite Hg in E.
    destruct (decide (ID x ∈ queue)) as [Hq|]; [|done]. exists (ID x). split; [done|]. by injection E.
  - intros (id & Hq & ->). specialize (Hg id). rewrite decide_True in Hg by done. by apply (Get_spec s Hs) in Hg as [? _].
Qed.

Lemma closing_start b T : builder_ok V b T -> closing G V (symbolQueue b) b T [] b.
Proof.
  intros Hb. split; [done|apply same_retained_refl|done|simpl; lia|done| | |].
  - intros id Hid. by apply elem_of_nil in Hid.
  - intros id Hid. exists id. split; [done|apply rtc_refl].
  - intros id Hid. by apply elem_of_nil in Hid.
Qed.

(** A row that stood for a query is current. *)
Lemma cached_current b id : cached_ok G b -> when_some store_ok (cachedCanonicalStore b) -> is_Some (cachedFact b id) ->
  row_current G (cachedCanonicalStore b) id.
Proof.
  intros Hc Hs [fact Hf]. destruct (Hc id fact Hf) as [E1 E2]. unfold cachedFact in Hf.
  case_bool_decide; [done|]. destruct (Get _ id) as [row|] eqn:Eg; [|done]. destruct (_ || _); [done|]. injection Hf as ->.
  exists fact. split_and!; [done|by eapply Get_ID|done|done].
Qed.

(** What the retained state owes to the generation. *)
Record retained_ok (b : closureBuilder) : Prop := {
  ro_store : when_some store_ok (cachedCanonicalStore b);
  ro_rows : cached_ok G b;
  ro_references : when_some (fun references => references_retained (cachedCanonicalStore b) references /\ delta_ok G references)
    (cachedReferences b);
}.

(** The rows and the map of references of a generation, for what is reached
    from a queue and a demanded tier. *)
Definition closes_generation (q : list SymbolID) (T : gset string) (b : closureBuilder) (rows : list SymbolFact) : Prop :=
  exists T' references, extends_tier G q T T' /\ closedReferences b = Some references /\
    keys_sorted ID (closed_rows b rows) /\
    (forall x, x ∈ closed_rows b rows <-> exists id, reached G q id /\ x = full_row G T' id) /\
    (forall id l, references !! id = Some l <-> reached G q id /\ listed G T' id /\ l = references_of G id).

Lemma closes_generation_intro q queue T T' b rows references : (forall id, id ∈ queue <-> reached G q id) -> extends_tier G q T T' ->
  closedReferences b = Some references -> lists_exactly G T' queue references -> collected G T' queue (closed_rows b rows) ->
  closes_generation q T b rows.
Proof.
  intros Hq HT Hr Hl [Hs Hx]. exists T', references. split_and!; [done|done|done| |].
  - intros x. rewrite Hx. by setoid_rewrite Hq.
  - intros id l. rewrite (Hl id). destruct (decide _) as [[H1 H2]|Hno]; [rewrite Hq in H1; naive_solver|].
    split; [done|]. intros (H1 & H2 & _). destruct Hno. split; [by apply Hq|done].
Qed.

Lemma closeSymbols_closes fuel w b T : builder_ok V b T -> retained_ok b -> closedSymbolStore b = None -> (size V < fuel)%nat ->
  wp (fun _ => True) (closeSymbols fuel) (fun rows st => closes_generation (symbolQueue b) T (snd st) rows) (w, b).
Proof.
  intros Hb [Hstore Hcached Hrefs] Hnone Hfuel. apply wp_bind, wp_get_builder. cbn [snd]. apply wp_bind.
  eapply wp_mono; [done| |by apply (wp_close_initial G V HA (symbolQueue b) b T); [|apply closing_start]].
  intros facts0 st0 [_ Hc0]. apply wp_bind.
  eapply wp_mono; [done| |apply (wp_drain G V HA (symbolQueue b) b T fuel facts0 st0 Hcached Hc0); lia].
  intros facts [w1 b1] [Hc1 Hlen]. cbn [snd] in *. destruct (closing_end G V HA _ _ _ _ _ Hc1 Hlen) as (Hfacts & Hreached & Hclosed & Hknown).
  pose proof (cl_ok _ _ _ _ _ _ _ Hc1) as Hb1. destruct (cl_same _ _ _ _ _ _ _ Hc1) as [S1 S2 S3 S4 S5 _].
  apply wp_bind, wp_on_builder. cbn [fst snd]. rewrite Hfacts.
  destruct (propagate_ok G V HA b1 (symbolQueue b) T Hb1 Hreached Hclosed) as (tier & T' & -> & Hb2 & HT).
  set (b2 := set_tier b1 tier) in *.
  assert (bare_row G <$> symbolQueue b1 = rows_with G (fun _ => []) (symbolQueue b2)) as -> by done.
  apply wp_bind. eapply wp_mono; [done| |apply (wp_patchCanonical G V HA b2 T' w1 Hb2)].
  - intros [next|] [w3 b3]; cbn [snd].
    + intros [Hnext (references & Hr & Hl)]. apply wp_bind, wp_on_builder, wp_ret. cbn [fst snd].
      eapply (closes_generation_intro (symbolQueue b) (symbolQueue b1)); [exact Hreached|exact HT|exact Hr|exact Hl|]. by apply closes_collected.
    + intros [R1 R2 R3 R4 R5]. rewrite <- R2.
      eapply wp_mono; [done| |apply (wp_collect G V HA b3 T' w3 R1); [by rewrite R3; change (cachedCanonicalStore b2) with (cachedCanonicalStore b1); rewrite S2|done]].
      intros rows [w4 b4] (Hrows & Hs & references & Hr & Hl). cbn [snd] in *. rewrite R2 in *.
      eapply (closes_generation_intro (symbolQueue b) (symbolQueue b1)); [exact Hreached|exact HT|exact Hr|exact Hl|]. unfold closed_rows. rewrite Hs, R4.
      change (closedSymbolStore b2) with (closedSymbolStore b1). by rewrite S5, Hnone.
  - change (cachedCanonicalStore b2) with (cachedCanonicalStore b1). by rewrite S2.
  - change (cachedCanonicalStore b2) with (cachedCanonicalStore b1). change (cachedReferences b2) with (cachedReferences b1). by rewrite S1, S2.
  - intros id Hid. destruct (Hknown id Hid) as [?|Hcf]; [by left|right].
    change (cachedCanonicalStore b2) with (cachedCanonicalStore b1). rewrite S2. by apply cached_current.
Qed.

(** ** A backend that responds *)

(** No cancellation, and no error but that a symbol is not found. *)
Record responds : Prop := {
  ctx_responds : forall w, snd (ctx_Err w) = None;
  alias_responds : forall id w, match snd (ResolveAlias id w) with Ok _ => True | Err e => error_is ErrNotFound e = true end;
  declarations_responds : forall id w, match snd (bk_Declarations id w) with Ok _ => True | Err e => error_is ErrNotFound e = true end;
  references_respond : forall ids w, match snd (ReferencesBatch ids w) with Ok _ => True | Err _ => False end;
  changes_respond : forall w, match snd (ChangedReferences w) with Ok _ => True | Err _ => False end;
}.

Definition returns {A} (m : proc (cstate (W := W)) A) : Prop := forall st, exists st' a, m st = (st', Ok a).

Lemma returns_bind {A B} (m : proc cstate A) (k : A -> proc cstate B) : returns m -> (forall a, returns (k a)) -> returns (p_bind m k).
Proof. intros Hm Hk st. unfold p_bind. destruct (Hm st) as (st' & a & ->). apply Hk. Qed.

Lemma returns_ret {A} (a : A) : returns (p_ret a).
Proof. intros st. by eexists _, _. Qed.

Lemma returns_get : returns get_builder.
Proof. intros [w b]. by eexists _, _. Qed.

Lemma returns_put b : returns (put_builder b).
Proof. intros [w b']. by eexists _, _. Qed.

Lemma returns_on f : returns (on_builder f).
Proof. intros [w b]. by eexists _, _. Qed.

Lemma returns_world {A} (m : proc W A) : (forall w, match snd (m w) with Ok _ => True | Err _ => False end) -> returns (on_world m).
Proof. intros Hm [w b]. unfold on_world. specialize (Hm w). destruct (m w) as [w' [a|e]]; [by eexists _, _|done]. Qed.

Lemma returns_found {A} (m : proc W A) :
  (forall w, match snd (m w) with Ok _ => True | Err e => error_is ErrNotFound e = true end) -> returns (if_found m).
Proof.
  intros Hm [w b]. unfold if_found. specialize (Hm w). destruct (m w) as [w' [a|e]]; [by eexists _, _|]. simpl in Hm. rewrite Hm. by eexists _, _.
Qed.

Lemma returns_fold {A St} (f : A -> St -> proc cstate St) l st : (forall x st, returns (f x st)) -> returns (p_fold f l st).
Proof. intros Hf. revert st. induction l as [|x l IH]; intros st; [apply returns_ret|]. simpl. by apply returns_bind. Qed.

Context (HR : responds).

Lemma ctx_returns : returns (on_world ctx_check).
Proof.
  apply returns_world. intros w. unfold ctx_check. pose proof (ctx_responds HR w) as H. destruct (ctx_Err w) as [w' e]. simpl in H. by subst.
Qed.

Lemma close_fact_returns initial : returns (close_fact initial).
Proof.
  apply returns_bind; [apply ctx_returns|intros _]. destruct initial as [fact cached]. destruct cached.
  - apply returns_bind; [apply returns_on|intros _; apply returns_ret].
  - apply returns_bind; [apply returns_on|intros _]. apply returns_bind; [apply returns_found, (alias_responds HR)|intros target].
    apply returns_bind; [destruct target; [apply returns_on|apply returns_ret]|intros _].
    apply returns_bind; [apply returns_found, (declarations_responds HR)|intros declarations; apply returns_ret].
Qed.

Lemma drain_returns fuel facts : returns (drain fuel facts).
Proof.
  revert facts. induction fuel as [|fuel IH]; intros facts; [apply returns_ret|]. simpl.
  apply returns_bind; [apply returns_get|intros b]. destruct (symbolQueue b !! length facts); [|apply returns_ret].
  apply returns_bind; [apply close_fact_returns|intros fact; apply IH].
Qed.

Lemma patch_returns facts : returns (patchCanonicalSymbolStore facts).
Proof.
  apply returns_bind; [apply returns_get|intros b]. cbv zeta. destruct (cachedReferences b); [|apply returns_ret].
  destruct (_ || _); [apply returns_ret|]. apply returns_bind; [apply returns_world, (changes_respond HR)|intros [changed exact]].
  destruct exact; [|apply returns_ret]. cbn [negb]. do 2 (apply returns_bind; [apply returns_on|intros _]).
  apply returns_bind; [apply returns_get|intros b']. cbv zeta. destruct (foldl (refresh_changed _ _) _ _) as [[patches references] refresh].
  apply returns_bind; [apply returns_put|intros _]. apply returns_bind; [apply returns_world; intros w; apply (references_respond HR)|intros answers].
  destruct (foldl (put_references _ _) _ _) as [patches' references']. apply returns_bind; [apply returns_on|intros _].
  destruct (Patch _ _ _ _ _) as [[[next shared] removed] complete]. destruct complete; [|apply returns_ret]. cbn [negb].
  apply returns_bind; [apply returns_on|intros _; apply returns_ret].
Qed.

Lemma collect_returns facts : returns (collectSymbolFacts facts).
Proof.
  apply returns_bind; [apply returns_get|intros b]. apply returns_bind.
  - destruct (cachedReferences b); [|apply returns_ret]. apply returns_bind; [apply returns_world, (changes_respond HR)|intros [changed exact]].
    destruct exact; [|apply returns_ret]. apply returns_bind; [apply returns_on|intros _; apply returns_ret].
  - intros [facts' refresh]. apply returns_bind; [apply returns_world; intros w; apply (references_respond HR)|intros answers].
    apply returns_bind; [apply returns_on|intros _]. apply returns_bind; [apply returns_get|intros b']. cbv zeta.
    apply returns_bind; [destruct (referenceChangesExact b'); apply returns_put|intros _; apply returns_ret].
Qed.

Lemma closeSymbols_returns fuel : returns (closeSymbols fuel).
Proof.
  apply returns_bind; [apply returns_get|intros b]. apply returns_bind.
  - apply returns_fold. intros initial facts. apply returns_bind; [apply close_fact_returns|intros fact; apply returns_ret].
  - intros facts. apply returns_bind; [apply drain_returns|intros facts']. apply returns_bind; [apply returns_on|intros _].
    apply returns_bind; [apply patch_returns|intros [next|]; [|apply collect_returns]].
    apply returns_bind; [apply returns_on|intros _; apply returns_ret].
Qed.
End Whole.

(** C18: Over a backend that answers as one generation does, closing the symbols, by patching
    the retained store or by collecting rows, ends with exactly the rows of the symbols alias
    targets reach from the queue, in order, with the references of the generation for those
    without an alias in the least tier that follows alias targets, and with the map of these
    references; fuel above the size of the universe is enough, and it fails only when the
    backend does. *)
Theorem closeSymbols_refines {W} `{BE : !ClosureBackend W} `{MR : !MapRange} G V fuel (w : W) b T :
  answers_as G V -> builder_ok V b T -> retained_ok G b -> closedSymbolStore b = None -> (size V < fuel)%nat ->
  match closeSymbols fuel (w, b) with
  | ((_, b'), Ok rows) => closes_generation G (symbolQueue b) T b' rows
  | (_, Err _) => ~ responds
  end.
Proof.
  intros HA Hb Hr Hc Hf. pose proof (closeSymbols_closes G V HA fuel w b T Hb Hr Hc Hf) as H. unfold wp in H.
  destruct (closeSymbols fuel (w, b)) as [[w' b'] [rows|e]] eqn:E; [exact H|]. intros HR.
  destruct (closeSymbols_returns HR fuel (w, b)) as (st & rows & E'). congruence.
Qed.

(** ** The order *)

Lemma index_of_facts n facts hs : interner_ok n -> NoDup (ID <$> facts) ->
  Forall2 (fun fact h => handles n !! ID fact = Some h) facts hs ->
  index_ok n facts (fact_index n hs) (list_to_set (ID <$> facts)).
Proof.
  intros Hn Hnd Hh. assert (Forall2 (fun id h => handles n !! id = Some h) (ID <$> facts) hs) as Hq by (by apply Forall2_fmap_l).
  split.
  - intros i fact Hi _. assert ((ID <$> facts) !! i = Some (ID fact)) as Hid by (by rewrite list_lookup_fmap, Hi).
    destruct (indexed_queue n n Hn (grows_refl _) _ hs Hnd Hq i (ID fact) Hid) as (h & A1 & _ & A3 & A4). by exists h.
  - intros id Hid. apply (indexed_absent n n Hn Hn (grows_refl _) (ID <$> facts) hs Hnd Hq). by rewrite elem_of_list_to_set in Hid.
  - intros id Hid. by apply elem_of_list_to_set in Hid.
Qed.

(** C20: Ordering rows by the order of the preceding generation, with the new ones sorted and
    merged, is sorting them. *)
Theorem orderSymbolFacts_sorts n facts hs previous : interner_ok n -> NoDup (ID <$> facts) ->
  Forall2 (fun fact h => handles n !! ID fact = Some h) facts hs -> when_some store_ok previous ->
  orderSymbolFacts facts (fact_index n hs) n previous = sort_slice (key_less ID) facts.
Proof.
  intros Hn Hnd Hh Hp. destruct (order_sorts n Hn facts Hnd _ previous (index_of_facts n facts hs Hn Hnd Hh) Hp) as [H1 H2].
  apply (keys_sorted_unique ID); [done|by apply sort_slice_keys_sorted|]. intros x. by rewrite H2, sort_slice_perm.
Qed.

Section Stable.
Context {W : Type} `{BE : !ClosureBackend W} `{MR : !MapRange} (G : generation_facts) (V : gset string) (HA : answers_as G V).
Context (s : symbolFactStore) (references : gmap string (list Location)) (invalidated : gset string).

(** An alias edge of the preceding generation. *)
Definition stored_alias (a target : SymbolID) : Prop :=
  exists row, Get (Some s) a = Some row /\ AliasTarget row = target /\ target <> "".

Definition stored (id : SymbolID) : Prop := is_Some (Get (Some s) id).

(** The preceding generation was closed from the same queue and the same seeds
    of the tier, [T0], and only the symbols of [invalidated] and the references
    of the delta may have moved since. Its tier [T] has what its alias edges
    reach from the seeds. *)
Record stable_ok (b : closureBuilder) (T0 T : gset string) : Prop := {
  st_builder : builder_ok V b T0;
  st_reached : forall id, stored id <-> exists root, root ∈ symbolQueue b /\ rtc stored_alias root id;
  st_seeds : forall id, id ∈ T <-> id ∈ T0 \/ exists source, source ∈ T0 /\ stored source /\ rtc stored_alias source id;
  st_previous : cachedCanonicalStore b = Some s;
  st_store : store_ok s;
  st_known : forall id, is_Some (Get (Some s) id) -> id ∈ V;
  st_references : cachedReferences b = Some references;
  st_retained : references_retained (Some s) references;
  st_delta : delta_ok G references;
  st_tier : forall id row, Get (Some s) id = Some row -> is_Some (references !! id) <-> AliasTarget row = "" /\ id ∈ T;
  st_current : forall id row, Get (Some s) id = Some row -> id ∉ invalidated ->
    AliasTarget row = alias_of G id /\ Declarations row = declarations_of G id;
}.

Context (b : closureBuilder) (T0 T : gset string) (Hb : stable_ok b T0 T).

(** A retained membership by handles, as a set. *)
Definition membership_set (members : list bool) : symbolHandleSet :=
  mkSymbolHandleSet members (Z.of_nat (length (filter (fun m => m = true) members))).

Lemma stored_ID id row : Get (Some s) id = Some row -> ID row = id.
Proof. intros Hg. by apply (Get_spec s (st_store _ _ _ Hb)) in Hg as [_ ?]. Qed.

(** The row of a symbol asked again, before its references. *)
Definition asked_row (id : SymbolID) : SymbolFact := with_references (bare_row G id) (default [] (references !! id)).

(** ** The invalidated symbols *)

(** Nothing moved but the changed symbols, which have those of [ids]. *)
Definition only_changed (ids : list SymbolID) (b' : closureBuilder) : Prop :=
  exists n c, b' = set_changed b n c /\ grows (cb_interner b) n /\ builder_ok V b' T0 /\ forall x, x ∈ cs_ids c <-> x ∈ ids \/ x ∈ cs_ids (changedSymbols b).

Definition asked_again (ids : list SymbolID) (patches : gmap string SymbolFact) : Prop :=
  (forall id, patches !! id = if decide (id ∈ ids) then Some (asked_row id) else None) /\
  (forall id, id ∈ ids -> exists row, Get (Some s) id = Some row /\ AliasTarget row = alias_of G id).

Lemma only_changed_nil : only_changed [] b.
Proof. exists (cb_interner b), (changedSymbols b). rewrite set_changed_same. split_and!; [done|apply grows_refl|apply Hb|set_solver]. Qed.

Lemma only_changed_adds ids ids' b' : only_changed ids b' -> Forall (fun id => id ∈ V) ids' ->
  only_changed (ids ++ ids') (foldl add_changed b' ids').
Proof.
  intros (n & c & -> & Hg & H & Hc) HV. destruct (adds_changed V (universe_fits _ _ HA) ids' _ T0 H HV) as (n' & c' & -> & Hg' & H' & Hc').
  rewrite set_changed_twice in *. exists n', c'. split_and!; [done|by eapply grows_trans|done|]. intros x. rewrite Hc'. cbn [changedSymbols set_changed].
  rewrite Hc. set_solver.
Qed.

(** Some change is marked, whatever it is. *)
Definition marked (b' : closureBuilder) : Prop := exists ids, only_changed ids b'.

(** The state after [ids] were asked for. *)
Definition so_far (ids : list SymbolID) (patches : option (gmap string SymbolFact)) (st : W * closureBuilder) : Prop :=
  match patches with
  | Some patches => asked_again ids patches /\ only_changed ids (snd st)
  | None => marked (snd st)
  end.

Lemma wp_patch_invalidated ids id patches st : asked_again ids patches -> only_changed ids (snd st) ->
  wp (fun _ => True) (patch_invalidated (Some s) id (Some patches))
    (so_far (ids ++ [id])) st.
Proof.
  intros [Hp Hids] Hst. apply wp_bind, wp_ctx. intros w1. destruct (Get (Some s) id) as [row|] eqn:Eg; [|apply wp_ret; by exists ids].
  assert (forall target w2, default "" target = alias_of G id ->
    wp (fun _ => True) (if negb (String.eqb (default "" target) (AliasTarget row)) then p_ret None
      else do! declarations := if_found (bk_Declarations id) in
        on_builder (fun b => add_changed b id);!
        p_ret (Some (<[id := mkSymbolFact id (default "" target) (default [] declarations) (References row)]> patches)))
      (so_far (ids ++ [id]))
      (w2, snd st)) as Hrest.
  { intros target w2 Et. destruct (String.eqb_spec (default "" target) (AliasTarget row)) as [Ea|]; cbn [negb]; [|apply wp_ret; by exists ids].
    assert (forall declarations w3, default [] declarations = declarations_of G id ->
      wp (fun _ => True) (on_builder (fun b => add_changed b id);!
        p_ret (Some (<[id := mkSymbolFact id (default "" target) (default [] declarations) (References row)]> patches)))
        (so_far (ids ++ [id]))
        (w3, snd st)) as Hput.
    { intros declarations w3 Ed. apply wp_bind, wp_on_builder, wp_ret. cbn [fst snd]. split.
      - split.
        + intros x. assert (mkSymbolFact id (default "" target) (default [] declarations) (References row) = asked_row id) as ->.
          { unfold asked_row, with_references, bare_row. simpl. rewrite Et, Ed. by rewrite (rr_rows _ _ (st_retained _ _ _ Hb) id row Eg). }
          destruct (decide (x = id)) as [->|Hne]; [rewrite lookup_insert_eq, decide_True by set_solver; done|].
          rewrite lookup_insert_ne, Hp by done. destruct (decide (x ∈ ids)); [by rewrite decide_True by set_solver|by rewrite decide_False by set_solver].
        + intros x [Hx|Hx%list_elem_of_singleton]%elem_of_app; [by apply Hids|]. subst x. exists row. split; [done|congruence].
      - apply (only_changed_adds ids [id]); [done|]. apply Forall_singleton, (st_known _ _ _ Hb). by rewrite Eg. }
    apply wp_bind, wp_if_found; [done| |]; cbn [fst snd].
    - intros w3 l Hl. apply Hput. exact (declarations_answer _ _ HA id _ _ _ Hl).
    - intros w3 e Hl He. apply Hput. symmetry. exact (declarations_answer _ _ HA id _ _ _ Hl He). }
  apply wp_bind, wp_if_found; [done| |]; cbn [fst snd].
  - intros w2 t Hl. apply Hrest. exact (alias_answer _ _ HA id _ _ _ Hl).
  - intros w2 e Hl He. apply Hrest. symmetry. exact (alias_answer _ _ HA id _ _ _ Hl He).
Qed.

Lemma wp_ask_again w : wp (fun _ => True) (p_fold (patch_invalidated (Some s)) (range_set invalidated) (Some ∅))
  (so_far (range_set invalidated)) (w, b).
Proof.
  apply (wp_fold _ _ (fun before _ => so_far before)).
  - intros before id rest [patches|] st Hst; [|by apply wp_ret]. destruct Hst as [H1 H2]. by apply wp_patch_invalidated.
  - split; [|apply only_changed_nil]. split; [|set_solver]. intros id. by rewrite lookup_empty.
  - done.
Qed.

(** ** The references that moved *)

Lemma put_refreshed_at answers l patches : match foldl (put_refreshed (Some s) answers) (Some patches) l with
  | Some patches' => forall id, patches' !! id =
      if decide (id ∈ l) then (fun fact => with_references fact (default [] (answers !! id))) <$> patched_row (Some s) patches id else patches !! id
  | None => True
  end.
Proof.
  assert (forall l, foldl (put_refreshed (Some s) answers) None l = None) as Hnone by (clear; induction l; done).
  revert patches. induction l as [|x l IH]; intros patches; [done|]. cbn [foldl]. unfold put_refreshed at 2.
  destruct (patched_row (Some s) patches x) as [fact|] eqn:Er; [|by rewrite Hnone].
  specialize (IH (<[x := with_references fact (default [] (answers !! x))]> patches)). destruct (foldl _ _ l) as [patches'|]; [|done].
  intros id. rewrite IH. destruct (decide (x = id)) as [->|Hne].
  - rewrite (decide_True (P := id ∈ id :: l)) by left. rewrite Er. unfold patched_row at 1. rewrite lookup_insert_eq. by destruct (decide (id ∈ l)).
  - rewrite patched_row_other, lookup_insert_ne by done. destruct (decide (id ∈ l)); [by rewrite decide_True by (by right)|by rewrite decide_False by set_solver].
Qed.
(** The rows of the store, patched. *)
Lemma stable_row (changed : list SymbolID) (answers : gmap string (list Location)) (patches : gmap string SymbolFact) id row :
  let refresh := filter (fun id => is_Some (references !! id)) changed in
  asked_again (range_set invalidated) patches ->
  (forall id l, references !! id = Some l -> id ∉ changed -> l = references_of G id) ->
  (forall id, id ∈ refresh -> default [] (answers !! id) = references_of G id) ->
  Get (Some s) id = Some row ->
  (if decide (id ∈ refresh) then Some (with_references (default row (patches !! id)) (default [] (answers !! id)))
   else Some (default row (patches !! id))) = Some (full_row G T id) /\
  (listed G T id <-> is_Some (references !! id)).
Proof.
  intros refresh [Hp Hids] Hdelta Hans Hg. pose proof (st_tier _ _ _ Hb id row Hg) as Ht. pose proof (stored_ID id row Hg) as Hid.
  assert (AliasTarget row = alias_of G id /\ with_references (default row (patches !! id)) (default [] (references !! id)) = asked_row id /\
    References (default row (patches !! id)) = default [] (references !! id)) as (Ha & Hrow & Hr).
  { rewrite Hp. destruct (decide (id ∈ range_set invalidated)) as [Hin|Hin].
    - destruct (Hids id Hin) as (row' & Hg' & Ha'). assert (row' = row) as -> by congruence. done.
    - rewrite range_set_elem in Hin. destruct (st_current _ _ _ Hb id row Hg Hin) as [E1 E2]. split; [done|]. cbn [default].
      split; [|apply (rr_rows _ _ (st_retained _ _ _ Hb) id row Hg)]. unfold asked_row, bare_row, with_references. simpl. by rewrite Hid, E1, E2. }
  assert (listed G T id <-> is_Some (references !! id)) as Hl by (unfold listed; rewrite <- Ha; by rewrite Ht).
  split; [|done]. unfold full_row. destruct (decide (id ∈ refresh)) as [Hin|Hin].
  - rewrite (Hans id Hin). apply list_elem_of_filter in Hin as [Hin _]. rewrite decide_True by (by apply Hl). f_equal.
    apply (f_equal (fun fact => with_references fact (references_of G id))) in Hrow. exact Hrow.
  - f_equal. destruct (default row (patches !! id)) as [i a d r] eqn:Ed. cbn [References] in Hr. subst r.
    unfold with_references in Hrow. cbn [ID AliasTarget Declarations] in Hrow. rewrite Hrow. unfold asked_row. f_equal.
    destruct (references !! id) as [l|] eqn:El.
    + rewrite decide_True by (apply Hl; by eexists). apply (Hdelta id l El). intros Hc. apply Hin, list_elem_of_filter. split; [by eexists|done].
    + rewrite decide_False; [done|]. intros [? ?]%Hl. done.
Qed.

(** No alias edge of a stored symbol moved. *)
Lemma stable_alias patches id row : asked_again (range_set invalidated) patches -> Get (Some s) id = Some row -> AliasTarget row = alias_of G id.
Proof.
  intros [_ Hids] Hg. destruct (decide (id ∈ range_set invalidated)) as [Hin|Hin].
  - destruct (Hids id Hin) as (row' & Hg' & Ha'). congruence.
  - rewrite range_set_elem in Hin. by destruct (st_current _ _ _ Hb id row Hg Hin).
Qed.

Lemma stored_step patches a c : asked_again (range_set invalidated) patches -> stored a -> stored_alias a c <-> alias_step G a c.
Proof.
  intros Hasked [row Hg]. pose proof (stable_alias _ _ _ Hasked Hg) as Ha. split.
  - intros (row' & Hg' & <- & Hne). assert (row' = row) as -> by congruence. split; [done|done].
  - intros [-> Hne]. exists row. split_and!; [done|done|done].
Qed.

Lemma stored_closed a c : stored a -> stored_alias a c -> stored c.
Proof.
  intros Ha Hac. apply (st_reached _ _ _ Hb) in Ha as (root & Hr & Hrtc). apply (st_reached _ _ _ Hb). exists root. split; [done|]. by eapply rtc_r.
Qed.

Lemma stored_walk patches a c : asked_again (range_set invalidated) patches -> stored a -> rtc stored_alias a c <-> rtc (alias_step G) a c.
Proof.
  intros Hasked Ha. split.
  - intros H. revert Ha. induction H as [|x y z Hxy _ IH]; intros Hx; [apply rtc_refl|]. eapply rtc_l; [by eapply stored_step|]. apply IH. by eapply stored_closed.
  - intros H. revert Ha. induction H as [|x y z Hxy _ IH]; intros Hx; [apply rtc_refl|]. pose proof (proj2 (stored_step patches x y Hasked Hx) Hxy) as Hs.
    eapply rtc_l; [exact Hs|]. apply IH. by eapply stored_closed.
Qed.

(** Both fixed points are those of the preceding generation. *)
Lemma stable_fixed_points patches : asked_again (range_set invalidated) patches ->
  (forall id, stored id <-> reached G (symbolQueue b) id) /\ extends_tier G (symbolQueue b) T0 T.
Proof.
  intros Hasked. assert (forall root, root ∈ symbolQueue b -> stored root) as Hroot.
  { intros root Hr. apply (st_reached _ _ _ Hb). exists root. split; [done|apply rtc_refl]. }
  assert (forall id, stored id <-> reached G (symbolQueue b) id) as Hst.
  { intros id. rewrite (st_reached _ _ _ Hb). split; intros (root & Hr & H); exists root; (split; [done|]); by apply (stored_walk patches); auto. }
  split; [done|]. intros id. rewrite (st_seeds _ _ _ Hb). split.
  - intros [?|(source & H1 & H2 & H3)]; [by left|]. right. exists source. split_and!; [done|by apply Hst|by apply (stored_walk patches)].
  - intros [?|(source & H1 & H2 & H3)]; [by left|]. right. exists source. apply Hst in H2. split_and!; [done|done|by apply (stored_walk patches)].
Qed.

(** What it leaves when it succeeds: what the closure of the new generation
    would, in the tier of the preceding one, and every change is marked. *)
Record patched_stably (b' : closureBuilder) : Prop := {
  ps_closes : closes_generation G (symbolQueue b) T0 b' [];
  ps_store : exists next, closedSymbolStore b' = Some next /\ store_ok next /\
    forall id, Get (Some next) id = (fun _ => full_row G T id) <$> Get (Some s) id;
  ps_references : cachedReferences b' = closedReferences b';
  ps_tier : extends_tier G (symbolQueue b) T0 T /\ holds (cb_interner b') (fullTier b') T;
  ps_changed : forall id, id ∈ universe (Some s) -> Get (Some s) id <> Some (full_row G T id) -> id ∈ cs_ids (changedSymbols b');
}.

Lemma stable_store (changed : list SymbolID) (answers : gmap string (list Location)) (patches : gmap string SymbolFact) :
  let refresh := filter (fun id => is_Some (references !! id)) changed in
  asked_again (range_set invalidated) patches ->
  (forall id l, references !! id = Some l -> id ∉ changed -> l = references_of G id) ->
  (forall id, id ∈ refresh -> default [] (answers !! id) = references_of G id) ->
  match foldl (put_refreshed (Some s) answers) (Some patches) refresh with
  | Some patches' => forall next shared, PatchExisting (Some s) (real_patches (Some s) patches') = Some (next, shared) ->
      store_ok next /\ forall id, Get (Some next) id = (fun _ => full_row G T id) <$> Get (Some s) id
  | None => True
  end.
Proof.
  intros refresh Hasked Hdelta Hans. pose proof (put_refreshed_at answers refresh patches) as Hput.
  destruct (foldl _ _ refresh) as [patches'|]; [|done]. intros next shared Hpe.
  assert (forall id, match patches' !! id with Some fact => Some fact | None => Get (Some s) id end =
    if decide (id ∈ refresh) then (fun fact => with_references fact (default [] (answers !! id))) <$> patched_row (Some s) patches id
    else patched_row (Some s) patches id) as Hmerged.
  { intros id. rewrite Hput. unfold patched_row. destruct (decide (id ∈ refresh)); [|done]. destruct (patches !! id); [done|]. by destruct (Get (Some s) id). }
  assert (forall id fact, patches' !! id = Some fact -> ID fact = id) as Hids.
  { intros id fact Hf. rewrite Hput in Hf. assert (forall f, patched_row (Some s) patches id = Some f -> ID f = id) as Hrow.
    { intros f Hrow. unfold patched_row in Hrow. rewrite (proj1 Hasked) in Hrow. destruct (decide (id ∈ range_set invalidated)); [by injection Hrow as <-|by apply stored_ID]. }
    destruct (decide (id ∈ refresh)).
    - apply fmap_Some in Hf as (f & Hf & ->). exact (Hrow f Hf).
    - apply Hrow. unfold patched_row. by rewrite Hf. }
  assert (patches_ok (real_patches (Some s) patches')) as Hok by (intros id fact Hf%real_patch_some; by apply Hids).
  pose proof (PatchExisting_refines s _ (st_store _ _ _ Hb) Hok) as H. rewrite Hpe in H. destruct H as (_ & H2 & _ & H4 & H5 & _).
  split; [done|]. intros id. destruct (Get (Some s) id) as [row|] eqn:Eg.
  - etransitivity; [|exact (proj1 (stable_row changed answers patches id row Hasked Hdelta Hans Eg))]. fold refresh.
    rewrite H5, real_patch_at, Hmerged.
    unfold patched_row. destruct (decide (id ∈ refresh)); destruct (patches !! id); cbn; by rewrite ?Eg.
  - cbn. destruct (Get (Some next) id) as [x|] eqn:E; [|done]. exfalso.
    assert (id ∈ universe (Some next)) as Hu by (apply universe_elem; [done|]; by rewrite E).
    rewrite H4 in Hu. by apply universe_elem in Hu; [|apply Hb].
Qed.

Lemma stable_closes next b' references' : (forall id, stored id <-> reached G (symbolQueue b) id) -> extends_tier G (symbolQueue b) T0 T ->
  store_ok next -> (forall id, Get (Some next) id = (fun _ => full_row G T id) <$> Get (Some s) id) ->
  closedSymbolStore b' = Some next -> closedReferences b' = Some references' ->
  (forall id, references' !! id = if decide (stored id /\ listed G T id) then Some (references_of G id) else None) ->
  closes_generation G (symbolQueue b) T0 b' [].
Proof.
  intros Hreach Htier Hok Hget Hstore Hrefs Hat. set (queue := ID <$> Range (Some s)).
  assert (forall id, id ∈ queue <-> stored id) as Hq.
  { intros id. unfold queue, stored. rewrite <- (elem_of_list_to_set (C := gset string)). fold (universe (Some s)).
    rewrite universe_elem by apply Hb. rewrite <- not_eq_None_Some. done. }
  apply (closes_generation_intro G (symbolQueue b) queue T0 T b' [] references'); [intros id; by rewrite Hq|done|done| |].
  - intros id. rewrite Hat. destruct (decide (stored id /\ listed G T id)) as [[H1 H2]|Hno]; [by rewrite decide_True by (split; [by apply Hq|done])|].
    rewrite decide_False; [done|]. intros [H1%Hq H2]. by apply Hno.
  - unfold closed_rows. rewrite Hstore. apply closes_collected. split; [done|]. intros id. rewrite Hget.
    destruct (decide (id ∈ queue)) as [[row ->]%Hq|Hno]; [done|]. destruct (Get (Some s) id) eqn:E; [|done]. destruct Hno. apply Hq. by eexists.
Qed.

Lemma wp_stable memoComplete expanded w : when_some (fun members => holds (cb_interner b) (membership_set members) T) expanded ->
  wp (fun _ => True) (patchStableSymbolUniverse invalidated memoComplete expanded)
    (fun patched st => if patched then patched_stably (snd st) else marked (snd st)) (w, b).
Proof.
  intros Hexpanded. assert (marked b) as Hb0 by (exists []; apply only_changed_nil).
  apply wp_bind, wp_get_builder. cbn [snd]. cbv zeta. rewrite (st_references _ _ _ Hb), (st_previous _ _ _ Hb).
  destruct expanded as [expanded|]; [|by apply wp_ret]. destruct (_ || _); [by apply wp_ret|]. apply wp_bind.
  eapply wp_mono; [done| |apply wp_ask_again]. intros [patches|] [w1 b1] Hst; cbn [so_far snd] in Hst; [|by apply wp_ret].
  destruct Hst as [Hasked Hb1].
  apply wp_bind, wp_on_world. intros w2 [[changed exact]|e] Hch; [|done]. cbn [fst snd]. destruct exact; cbn [negb]; [|apply wp_ret; by eexists].
  set (refresh := filter (fun id => is_Some (references !! id)) changed).
  assert (Forall (fun id => id ∈ V) refresh) as Hv.
  { apply Forall_forall. intros id [_ Hid]%list_elem_of_filter. pose proof (changes_answer _ _ HA _ _ _ _ Hch) as H. rewrite Forall_forall in H. by apply H. }
  apply wp_bind, wp_on_builder. cbn [fst snd]. pose proof (only_changed_adds _ refresh _ Hb1 Hv) as Hb2. set (b2 := foldl add_changed b1 refresh) in *.
  apply wp_bind, wp_on_world. cbn [fst snd]. intros w3 [answers|e] Hans; [|done].
  assert (forall id, id ∈ refresh -> default [] (answers !! id) = references_of G id) as Ha by (intros id Hid; by apply (references_answer _ _ HA _ _ _ _ Hans)).
  assert (forall id l, references !! id = Some l -> id ∉ changed -> l = references_of G id) as Hdelta by (intros id l; by eapply (st_delta _ _ _ Hb)).
  pose proof (stable_store changed answers patches Hasked Hdelta Ha) as Hstore. fold refresh in Hstore.
  destruct (foldl (put_refreshed (Some s) answers) (Some patches) refresh) as [patches'|]; [|apply wp_ret; by eexists].
  destruct (PatchExisting _ _) as [[next shared]|] eqn:Ep; [|apply wp_ret; by eexists]. destruct (Hstore next shared eq_refl) as [Hnext Hget].
  apply wp_bind, wp_on_builder, wp_ret. cbn [fst snd]. destruct (stable_fixed_points patches Hasked) as [Hreach Htier].
  destruct Hb2 as (n & c & -> & Hgrow & Hb2 & Hc).
  assert (forall id, foldl (fun references id => <[id := default [] (answers !! id)]> references) references refresh !! id =
    if decide (stored id /\ listed G T id) then Some (references_of G id) else None) as Hrefs.
  { intros id. rewrite (inserts_at G V HA (fun id => default [] (answers !! id))). destruct (decide (id ∈ refresh)) as [Hin|Hin].
    + rewrite (Ha id Hin). pose proof Hin as Hin'. apply list_elem_of_filter in Hin' as [Hs _].
      destruct (rr_dom _ _ (st_retained _ _ _ Hb) id Hs) as [row Hg]. rewrite decide_True; [done|]. split; [by eexists|].
      by apply (stable_row changed answers patches id row Hasked Hdelta Ha Hg).
    + unfold stored. destruct (Get (Some s) id) as [row|] eqn:Eg.
      * destruct (stable_row changed answers patches id row Hasked Hdelta Ha Eg) as [_ Hl]. destruct (references !! id) as [l|] eqn:El.
        -- rewrite decide_True by (split; [by eexists|apply Hl; by eexists]). f_equal. apply (Hdelta id l El). intros Hx. apply Hin, list_elem_of_filter. split; [by eexists|done].
        -- rewrite decide_False; [done|]. intros [_ [? ?]%Hl]. done.
      * rewrite decide_False by (by intros [[? ?] _]). destruct (references !! id) as [l|] eqn:El; [|done].
        destruct (rr_dom _ _ (st_retained _ _ _ Hb) id) as [? ?]; [by eexists|congruence]. }
  split.
  - eapply (stable_closes next _ _ Hreach Htier Hnext Hget); [reflexivity|reflexivity|exact Hrefs].
  - by exists next.
  - done.
  - split; [done|]. apply (holds_grows (cb_interner b)); [apply (within_ok _ _ (wf_within _ _ _ Hb2))|done|by apply Hexpanded].
  - intros id Hu Hne. cbn [changedSymbols set_closed set_exact set_tier set_changed]. apply Hc.
    apply universe_elem in Hu; [|apply Hb]. destruct (Get (Some s) id) as [row|] eqn:Eg; [|done].
    destruct (stable_row changed answers patches id row Hasked Hdelta Ha Eg) as [Hrow _]. fold refresh in Hrow. rewrite (proj1 Hasked) in Hrow.
    destruct (decide (id ∈ range_set invalidated)) as [|Hi]; [left; apply elem_of_app; by left|].
    destruct (decide (id ∈ refresh)) as [|]; [left; apply elem_of_app; by right|]. cbn in Hrow. congruence.
Qed.
End Stable.

(** C19: When the preceding generation was closed from the same queue and the same seeds of the
    tier, its store and map of references are those of that closure, only invalidated symbols
    and the references of the delta may have moved since, and the membership it is given is the
    tier those seeds expand to, then a success of the specialization for an unchanged universe
    leaves what closing the new generation would: its rows, its map of references and its tier,
    with every symbol whose row differs marked as changed; a fallback leaves everything but the
    changed symbols as it was. *)
Theorem stable_universe_sound {W} `{BE : !ClosureBackend W} `{MR : !MapRange} G V s references invalidated b T0 T memoComplete expanded (w : W) :
  answers_as G V -> stable_ok G V s references invalidated b T0 T ->
  when_some (fun members => holds (cb_interner b) (membership_set members) T) expanded ->
  match patchStableSymbolUniverse invalidated memoComplete expanded (w, b) with
  | ((_, b'), Ok true) => patched_stably G s b T0 T b'
  | ((_, b'), Ok false) => exists n c, b' = set_changed b n c
  | (_, Err _) => True
  end.
Proof.
  intros HA Hb He. pose proof (wp_stable G V HA s references invalidated b T0 T Hb memoComplete expanded w He) as H. unfold wp in H.
  destruct (patchStableSymbolUniverse _ _ _ _) as [[w' b'] [[|]|e]]; [exact H| |done].
  destruct H as (ids & n & c & H & _). by exists n, c.
Qed.
