(* ===== verification/SampleClosure.v ===== *)
(** * A concrete symbol closure

    Three symbols, one an alias of another, of which one moved since the
    preceding generation. The witnesses of the symbol closure theorems run on
    it, over a delta that is exact and over one that is not. *)

From S2P Require Import Prelude GoStd Model FactEqual SymbolIntern SymbolStore Proc Closure SymbolClosure SymbolDrain SymbolRows SymbolPatch SymbolClosureTheorems.

Definition sy_a : SymbolID := "symbol:h:a".
Definition sy_b : SymbolID := "symbol:h:b".
Definition sy_c : SymbolID := "symbol:h:c".

Definition sample_universe : gset string := {[sy_a; sy_b; sy_c]}.

Definition used_at (n : Z) : list Location := [mkLocation "a.ts" n (n + 1)].

Definition sample_generation : generation_facts := {|
  alias_of id := if String.eqb id sy_a then sy_b else "";
  declarations_of id := [mkDeclaration id "function" (mkLocation "a.ts" 0 1)];
  references_of id := if String.eqb id sy_c then used_at 9 else used_at 4;
|}.

(** The world says whether the delta is exact. *)
Record symbol_world := mkSymbolWorld { sy_exact : bool }.

#[export] Instance symbol_backend : ClosureBackend symbol_world.
Proof.
  refine {|
    ctx_Err w := (w, None);
    bk_SourceFiles := p_ret [];
    bk_Update _ := p_ret (mkAffectedSet []);
    bk_Close := p_ret tt;
    ResolveAlias id := if String.eqb id sy_a then p_ret sy_b else p_fail ErrNotFound;
    bk_Declarations id := p_ret (declarations_of sample_generation id);
    SemanticDemandRuns _ _ := p_ret [];
    AsyncFunctionsAt _ := p_ret [];
    ReferencesBatch ids := p_ret (list_to_map ((fun id => (id, references_of sample_generation id)) <$> ids));
    ChangedReferences w := (w, Ok ([sy_c], sy_exact w));
    ReleaseAnalysisState w := w;
    SourceDigests := None;
    SymbolEvidence := None;
    bk_ModuleGraph := None;
  |}.
  - intros changes w w' affected [= _ <-]. constructor.
  - intros w w' e [=].
Defined.

Lemma batch_answer (f : SymbolID -> list Location) ids id : id ∈ ids ->
  default [] ((list_to_map ((fun id => (id, f id)) <$> ids) : gmap string (list Location)) !! id) = f id.
Proof.
  induction ids as [|x ids IH]; intros Hid; [by apply elem_of_nil in Hid|]. rewrite fmap_cons, list_to_map_cons.
  destruct (decide (x = id)) as [->|Hne]; [by rewrite lookup_insert_eq|]. rewrite lookup_insert_ne by done.
  apply IH. by apply elem_of_cons in Hid as [->|].
Qed.

Lemma sample_answers : answers_as sample_generation sample_universe.
Proof.
  split.
  - intros id w w' r. cbn [ResolveAlias symbol_backend alias_of sample_generation]. by destruct (String.eqb id sy_a); intros [= _ <-].
  - intros id w w' r [= _ <-]. done.
  - intros ids w w' m [= _ <-] id Hid. by apply batch_answer.
  - intros w w' ids exact [= _ <- _]. apply Forall_singleton. unfold sample_universe. set_solver.
  - intros id Hid. cbn [alias_of sample_generation]. destruct (String.eqb id sy_a); [|done]. intros _. unfold sample_universe. set_solver.
  - by vm_compute.
Qed.

Lemma sample_responds : responds (W := symbol_world).
Proof.
  split; [done| |done|done|done]. intros id w. cbn [ResolveAlias symbol_backend]. by destruct (String.eqb id sy_a).
Qed.

(** ** Builders *)

(** An empty builder over retained state. *)
Definition new_builder (references : option (gmap string (list Location))) (store : option symbolFactStore) (invalidated : gset string) :
    closureBuilder :=
  let n := newSymbolInterner in
  mkBuilder n [] [] (newSymbolHandleSet n []) (newSymbolHandleSet n []) references store invalidated None None
    (newChangedSymbolSet n []) ∅ [] false false.

(** A symbol asked for with its references. *)
Definition ask_full (b : closureBuilder) (id : SymbolID) : closureBuilder :=
  let '(_, n, tier) := addID (cb_interner b) (fullTier b) id in set_tier (set_interner b n) tier.

Lemma new_builder_ok V references store invalidated : builder_ok V (new_builder references store invalidated) ∅.
Proof.
  split; simpl; try apply newSymbolHandleSet_holds.
  - split; [apply newSymbolInterner_ok|]. intros id [? [=]].
  - constructor.
  - intros id Hid. by apply elem_of_nil in Hid.
  - constructor.
  - split; [apply newSymbolInterner_ok|apply newSymbolHandleSet_holds|constructor].
  - intros id Hid. by apply elem_of_nil in Hid.
Qed.

Lemma ask_full_ok V b T id : Z.of_nat (size V) < 2 ^ 31 -> builder_ok V b T -> id ∈ V -> builder_ok V (ask_full b id) ({[id]} ∪ T).
Proof.
  intros HV [H1 H2 H3 H4 H5 H6 H7 H8] Hid. unfold ask_full. pose proof (addID_within V HV _ _ _ id H1 Hid H6) as Ha.
  destruct (addID _ _ id) as [[added n] tier]. destruct Ha as (A1 & A2 & A3 & _).
  split; simpl; [done|by eapply holds_grows; [apply A1| |]|done|done|by eapply handles_grow|done| |done].
  by eapply changed_grows; [apply A1| |].
Qed.

Lemma sample_ask_ok b T id : builder_ok sample_universe b T -> id ∈ sample_universe ->
  builder_ok sample_universe (ask_full (enqueueSymbol b id) id) ({[id]} ∪ T).
Proof.
  intros Hb Hid. pose proof (universe_fits _ _ sample_answers) as HV. apply ask_full_ok; [done| |done].
  by apply (enqueue_ok sample_universe b T id HV Hb (fun _ => Hid)).
Qed.

(** ** The preceding generation *)

Definition sample_row (id : SymbolID) (references : list Location) : SymbolFact :=
  with_references (bare_row sample_generation id) references.

Definition previous_store : symbolFactStore :=
  newSymbolFactStore [sample_row sy_a []; sample_row sy_b (used_at 4); sample_row sy_c (used_at 7)].

Definition previous_references : gmap string (list Location) := {[sy_b := used_at 4; sy_c := used_at 7]}.

Lemma previous_store_ok : store_ok previous_store.
Proof. apply newSymbolFactStore_ok. repeat constructor. Qed.

Lemma previous_rows id row : Get (Some previous_store) id = Some row <->
  row ∈ [sample_row sy_a []; sample_row sy_b (used_at 4); sample_row sy_c (used_at 7)] /\ ID row = id.
Proof. apply (Get_spec previous_store previous_store_ok). Qed.

Lemma previous_lookup id l : previous_references !! id = Some l <-> id = sy_b /\ l = used_at 4 \/ id = sy_c /\ l = used_at 7.
Proof.
  unfold previous_references. rewrite lookup_insert_Some, lookup_singleton_Some. unfold sy_b, sy_c. naive_solver.
Qed.

Lemma previous_retained : references_retained (Some previous_store) previous_references.
Proof.
  split.
  - intros id row [Hrow <-]%previous_rows. repeat (apply elem_of_cons in Hrow as [->|Hrow]); [done..|by apply elem_of_nil in Hrow].
  - intros id [l [[-> ->]|[-> ->]]%previous_lookup]; eexists; by vm_compute.
Qed.

Lemma previous_delta : delta_ok sample_generation previous_references.
Proof.
  intros w w' ids [= _ <- _] id l [[-> ->]|[-> ->]]%previous_lookup Hno; [done|]. destruct Hno. by left.
Qed.

Definition sample_builder : closureBuilder :=
  ask_full (enqueueSymbol (ask_full (enqueueSymbol (new_builder (Some previous_references) (Some previous_store) {[sy_c]}) sy_a) sy_a) sy_c) sy_c.

Lemma sample_builder_ok : builder_ok sample_universe sample_builder {[sy_c; sy_a]}.
Proof.
  replace ({[sy_c; sy_a]} : gset string) with ({[sy_c]} ∪ ({[sy_a]} ∪ ∅) : gset string) by set_solver.
  apply sample_ask_ok; [apply sample_ask_ok; [apply new_builder_ok|]|]; unfold sample_universe; set_solver.
Qed.

Lemma ask_retained b id : cachedCanonicalStore (ask_full (enqueueSymbol b id) id) = cachedCanonicalStore b /\
  cachedReferences (ask_full (enqueueSymbol b id) id) = cachedReferences b.
Proof.
  unfold ask_full, enqueueSymbol. destruct (String.eqb id ""); [by destruct (addID _ _ id) as [[added n] tier]|].
  destruct (handle _ id) as [h n]. destruct (set_add n _ h) as [added seen]. destruct added; by destruct (addID _ _ id) as [[? ?] ?].
Qed.

Lemma sample_store : cachedCanonicalStore sample_builder = Some previous_store.
Proof. unfold sample_builder. by rewrite !(proj1 (ask_retained _ _)). Qed.

Lemma sample_references : cachedReferences sample_builder = Some previous_references.
Proof. unfold sample_builder. by rewrite !(proj2 (ask_retained _ _)). Qed.

Lemma sample_retained : retained_ok sample_generation sample_builder.
Proof.
  split.
  - rewrite sample_store. by intros s [= <-]; apply previous_store_ok.
  - intros id fact. unfold cachedFact. rewrite sample_store. case_bool_decide as Hc; [done|].
    destruct (Get _ id) as [row|] eqn:Eg; [|done]. destruct (_ || _); [done|]. intros [= <-]. apply previous_rows in Eg as [Hrow <-].
    repeat (apply elem_of_cons in Hrow as [->|Hrow]); [done..|by apply elem_of_nil in Hrow].
  - rewrite sample_references, sample_store. intros references [= <-]. split; [apply previous_retained|apply previous_delta].
Qed.

(** ** The witnesses *)

(** The symbol, and where it is referenced. *)
Definition shown (result : (symbol_world * closureBuilder) * result (list SymbolFact)) : option (bool * list (string * list Location)) :=
  match result with
  | ((_, b), Ok rows) => Some (bool_decide (is_Some (closedSymbolStore b)), map (fun row => (ID row, References row)) (closed_rows b rows))
  | (_, Err _) => None
  end.

Lemma closeSymbols_refines_witness :
  match closeSymbols 4 (mkSymbolWorld true, sample_builder) with
  | ((_, b'), Ok rows) => closes_generation sample_generation [sy_a; sy_c] {[sy_c; sy_a]} b' rows
  | (_, Err _) => False
  end.
Proof.
  pose proof (closeSymbols_refines sample_generation sample_universe 4 (mkSymbolWorld true) sample_builder {[sy_c; sy_a]}
    sample_answers sample_builder_ok sample_retained eq_refl ltac:(by vm_compute)) as H.
  destruct (closeSymbols 4 _) as [[w b'] [rows|e]]; [exact H|]. exact (H sample_responds).
Defined.

(** The alias brings its target into the tier; the symbol that moved is asked
    again, and the store is patched. *)
Example patched_closure : shown (closeSymbols 4 (mkSymbolWorld true, sample_builder)) =
  Some (true, [(sy_a, []); (sy_b, used_at 4); (sy_c, used_at 9)]).
Proof. by vm_compute. Qed.

(** Without an exact delta the rows are collected, and are the same. *)
Example collected_closure : shown (closeSymbols 4 (mkSymbolWorld false, sample_builder)) =
  Some (false, [(sy_a, []); (sy_b, used_at 4); (sy_c, used_at 9)]).
Proof. by vm_compute. Qed.

(** ** The same universe *)

(** The symbols of [sample_builder], of which the alias brings its target into
    the tier, over the interner of the preceding generation, which knew the
    target, and the tier this generation ended with. *)
Definition interned_target : symbolInterner * symbolHandleSet :=
  let '(_, n, tier) := addID (cb_interner sample_builder) (fullTier sample_builder) sy_b in (n, tier).

Definition stable_builder : closureBuilder := set_interner sample_builder (fst interned_target).

Definition expanded_tier : list bool := members (snd interned_target).

Lemma interned_target_ok : within sample_universe (fst interned_target) /\ grows (cb_interner sample_builder) (fst interned_target) /\
  holds (fst interned_target) (snd interned_target) ({[sy_b]} ∪ {[sy_c; sy_a]}).
Proof.
  pose proof (addID_within sample_universe (universe_fits _ _ sample_answers) (cb_interner sample_builder) (fullTier sample_builder) {[sy_c; sy_a]} sy_b
    (wf_within _ _ _ sample_builder_ok) ltac:(unfold sample_universe; set_solver) (wf_tier _ _ _ sample_builder_ok)) as H.
  unfold interned_target. destruct (addID _ _ sy_b) as [[added n] tier]. destruct H as (H1 & H2 & H3 & _). done.
Qed.

Lemma stable_builder_ok : builder_ok sample_universe stable_builder {[sy_c; sy_a]}.
Proof.
  destruct interned_target_ok as (H & Hg & _), sample_builder_ok as [H1 H2 H3 H4 H5 H6 H7 H8]. pose proof (within_ok _ _ H) as Hn.
  split; unfold stable_builder; cbn [cb_interner symbolSeen symbolQueue queueHandles fullTier changedSymbols set_interner];
    [done|by eapply holds_grows|done|done|by eapply handles_grow|by eapply holds_grows|by eapply changed_grows|done].
Qed.

Lemma expanded_holds : holds (cb_interner stable_builder) (membership_set expanded_tier) sample_universe.
Proof.
  destruct interned_target_ok as (_ & _ & H). replace sample_universe with ({[sy_b]} ∪ {[sy_c; sy_a]} : gset string) by (unfold sample_universe; set_solver).
  replace (membership_set expanded_tier) with (snd interned_target) by (by vm_compute). exact H.
Qed.

Lemma previous_stored id : stored previous_store id <-> id ∈ sample_universe.
Proof.
  unfold stored, is_Some. setoid_rewrite previous_rows. unfold sample_universe. split.
  - intros (row & Hrow & <-). repeat (apply elem_of_cons in Hrow as [->|Hrow]); [cbn; set_solver..|by apply elem_of_nil in Hrow].
  - intros [[E|E]%elem_of_union|E]%elem_of_union; apply elem_of_singleton in E as ->.
    + exists (sample_row sy_a []). split; [left|done].
    + exists (sample_row sy_b (used_at 4)). split; [right; left|done].
    + exists (sample_row sy_c (used_at 7)). split; [right; right; left|done].
Qed.

Lemma previous_alias a c : stored_alias previous_store a c <-> a = sy_a /\ c = sy_b.
Proof.
  split.
  - intros (row & [Hrow <-]%previous_rows & <- & Hne). repeat (apply elem_of_cons in Hrow as [->|Hrow]); [done|by destruct Hne..|by apply elem_of_nil in Hrow].
  - intros [-> ->]. exists (sample_row sy_a []). split_and!; [apply previous_rows; split; [left|done]|done|done].
Qed.

Lemma previous_walk a c : rtc (stored_alias previous_store) a c <-> a = c \/ a = sy_a /\ c = sy_b.
Proof.
  split.
  - induction 1 as [|x y z [-> ->]%previous_alias _ [<-|[? _]]]; [by left|by right|done].
  - intros [<-|[-> ->]]; [apply rtc_refl|]. by apply rtc_once, previous_alias.
Qed.

Lemma stable_queue : symbolQueue stable_builder = [sy_a; sy_c].
Proof. by vm_compute. Qed.

Lemma stable_sample : stable_ok sample_generation sample_universe previous_store previous_references {[sy_c]} stable_builder {[sy_c; sy_a]} sample_universe.
Proof.
  split.
  - apply stable_builder_ok.
  - intros id. rewrite previous_stored, stable_queue. setoid_rewrite previous_walk. unfold sample_universe. rewrite !elem_of_union, !elem_of_singleton. split.
    + intros [[->| ->]| ->]; [exists sy_a; split; [apply list_elem_of_here|left; reflexivity]
      |exists sy_a; split; [apply list_elem_of_here|right; split; reflexivity]|exists sy_c; split; [apply list_elem_of_further, list_elem_of_here|left; reflexivity]].
    + intros (root & Hroot & Hid).
      apply elem_of_cons in Hroot as [->|Hroot].
      * destruct Hid as [<-|[_ ->]].
        -- left; left; reflexivity.
        -- left; right; reflexivity.
      * apply list_elem_of_singleton in Hroot. subst root.
        destruct Hid as [<-|[_ ->]].
        -- right; reflexivity.
        -- left; right; reflexivity.
  - intros id. setoid_rewrite previous_walk. setoid_rewrite previous_stored. unfold sample_universe. rewrite !elem_of_union, !elem_of_singleton. split.
    + intros [[->| ->]| ->]; [left; right; reflexivity| |left; left; reflexivity]. right. exists sy_a. rewrite !elem_of_union, !elem_of_singleton.
      split_and!; [right; reflexivity|left; left; reflexivity|right; split; reflexivity].
    + intros [[->| ->]|(source & H1 & H2 & [<-|[_ ->]])]; [right; reflexivity|left; left; reflexivity| |left; right; reflexivity].
      rewrite !elem_of_union, !elem_of_singleton in H2. exact H2.
  - done.
  - apply previous_store_ok.
  - intros id Hid. by apply previous_stored.
  - done.
  - apply previous_retained.
  - apply previous_delta.
  - intros id row [Hrow <-]%previous_rows. unfold is_Some. setoid_rewrite previous_lookup. unfold sample_universe.
    repeat (apply elem_of_cons in Hrow as [->|Hrow]); [..|by apply elem_of_nil in Hrow]; unfold sy_a, sy_b, sy_c; simpl.
    + split; [|naive_solver]. intros (l & [[? _]|[? _]]); done.
    + split; [set_solver|]. intros _. exists (used_at 4). by left.
    + split; [set_solver|]. intros _. exists (used_at 7). by right.
  - intros id row [Hrow <-]%previous_rows _.
    repeat (apply elem_of_cons in Hrow as [->|Hrow]); [done..|by apply elem_of_nil in Hrow].
Qed.

Lemma stable_universe_sound_witness :
  match patchStableSymbolUniverse {[sy_c]} true (Some expanded_tier) (mkSymbolWorld true, stable_builder) with
  | ((_, b'), Ok true) => patched_stably sample_generation previous_store stable_builder {[sy_c; sy_a]} sample_universe b'
  | _ => False
  end.
Proof.
  pose proof (stable_universe_sound sample_generation sample_universe previous_store previous_references {[sy_c]}
    stable_builder {[sy_c; sy_a]} sample_universe true (Some expanded_tier) (mkSymbolWorld true) sample_answers stable_sample) as H.
  assert (match patchStableSymbolUniverse {[sy_c]} true (Some expanded_tier) (mkSymbolWorld true, stable_builder) with
    (_, Ok true) => true | _ => false end = true) as Ht by (by vm_compute).
  specialize (H (when_some_intro (fun members => holds (cb_interner stable_builder) (membership_set members) sample_universe) _ expanded_holds)).
  destruct (patchStableSymbolUniverse _ _ _ _) as [[w b'] [[|]|e]]; [exact H|done..].
Defined.

Lemma orderSymbolFacts_sorts_witness :
  let n := cb_interner stable_builder in
  orderSymbolFacts [sample_row sy_c []; sample_row sy_a []] (fact_index n [1; 0]) n (Some previous_store) =
  [sample_row sy_a []; sample_row sy_c []].
Proof.
  cbv zeta. rewrite (orderSymbolFacts_sorts (cb_interner stable_builder) _ [1; 0] (Some previous_store)).
  - by vm_compute.
  - apply (within_ok _ _ (wf_within _ _ _ stable_builder_ok)).
  - by apply (bool_decide_unpack _); vm_compute.
  - repeat constructor; by vm_compute.
  - intros s [= <-]. apply previous_store_ok.
Defined.
