(* ===== verification/Materialize.v ===== *)
(** * Materialization

    [materializeSemanticDemandRetained] of [semantic_retained.go] and its
    callers in [semantic_demand.go]: one generation's fact table from the
    demand runs, reusing the retained contributions of the runs nothing
    touched. The demand runs are the caller's slice, worked on in place. The
    process-seeded hash is an interface, because its value is unspecified. *)

From S2P Require Import Prelude GoStd GoText GoSha SortedPaths Model DemandGroup Contributions ContributionStore FactTable TransportManifest SessionDemands Proc Closure.
Open Scope Z_scope.

(** [maphash] under this process's seed. *)
Class Maphash := { Sum64 : list Z -> Z }.

(** ** The demand hash *)

(** [binary.LittleEndian.AppendUint64]. *)
Fixpoint le_bytes (n : nat) (x : Z) : list Z :=
  match n with O => [] | S n' => x mod 256 :: le_bytes n' (x / 256) end.
Definition le_u64 (x : Z) : list Z := le_bytes 8 (u64 x).

Definition demand_bytes (d : EntityDemand) : list Z :=
  le_u64 (StartByte (dem_Location d)) ++ le_u64 (EndByte (dem_Location d)) ++
  match QueryLocation d with
  | Some q => [1] ++ le_u64 (StartByte q) ++ le_u64 (EndByte q)
  | None => [0]
  end ++
  map bool_bit
    [dem_Symbol d; dem_TypeDescriptor d; dem_ResolvedCall d; dem_Callability d; dem_Constructability d;
     dem_RuntimeValueDomain d; dem_PrimitiveValueDomain d; dem_PrimitiveLiteralCandidates d;
     dem_ParameterObjectShape d; dem_CallResultDomain d; dem_ConstantValue d; dem_ArrayShape d; dem_TupleShape d;
     dem_LibraryTypes d; dem_References d; dem_Async d; dem_StructuralAccessor d; dem_ReferenceSpace d;
     dem_RuntimeIdentity d].

Definition demandListHash `{MH : !Maphash} (demands : list EntityDemand) : Z := Sum64 (concat (map demand_bytes demands)).

(** ** Source digests *)

Fixpoint canonical_paths (what : string) (previous : option string) (paths : list string) : result unit :=
  match paths with
  | [] => Ok tt
  | path :: paths' =>
      if String.eqb path "" || negb (String.eqb (Clean path) path)
      then Err (ErrText (what ++ " path is not clean and non-empty"))
      else if (match previous with Some p => negb (String.ltb p path) | None => false end)
      then Err (ErrText (what ++ " are not strictly path-ordered"))
      else canonical_paths what (Some path) paths'
  end.

Definition validateCanonicalSourceFiles (files : list SourceFile) : result unit :=
  canonical_paths "source file" None (map src_Path files).

Definition semanticSourceDigests `{BE : !ClosureBackend W} : proc W (list SourceDigest) :=
  match SourceDigests with
  | Some compact =>
      do! digests := compact in
      do! _ := p_lift (canonical_paths "source digest" None (map dig_Path digests)) in
      p_ret digests
  | None =>
      do! sources := bk_SourceFiles in
      do! _ := p_lift (validateCanonicalSourceFiles sources) in
      p_ret (map digest_source sources)
  end.

Definition set_of (s : option (gset string)) : gset string := default ∅ s.

Definition symbolSetsEqual `{MR : !MapRange} (left right : gset string) : bool :=
  Nat.eqb (size left) (size right) && forallb (fun symbol => bool_decide (symbol ∈ right)) (range_set left).

(** ** Async functions *)

Definition with_expression_path (f : AsyncFunctionFact) (path : string) : AsyncFunctionFact :=
  mkAsyncFunctionFact (with_path (Expression f) path) (af_Symbol f) (af_Target f) (CanReturnAsync f) (CallsAfterAwait f).

Definition add_async_fact (byPath : gmap string (list AsyncFunctionFact)) (fact : AsyncFunctionFact) :
    gmap string (list AsyncFunctionFact) :=
  let path := Clean (Path (Expression fact)) in
  <[path := default [] (byPath !! path) ++ [with_expression_path fact path]]> byPath.

Definition asyncFunctionsForDemands `{BE : !ClosureBackend W} (demands : list EntityDemand) :
    proc W (gmap string (list AsyncFunctionFact)) :=
  let locations := map (fun d => clean_location (dem_Location d)) (filter (fun d => dem_Async d = true) demands) in
  do! facts := AsyncFunctionsAt locations in
  p_ret (foldl add_async_fact ∅ facts).

(** The async run of every group that has one: a window of the flat buffer. *)
Fixpoint async_runs (gs : list demandGroup) (flat : list EntityDemand) : result (list (string * list EntityDemand)) :=
  match gs with
  | [] => Ok []
  | g :: gs' =>
      let start := length flat in
      let? flat := appendAsyncDemands g flat in
      let? rest := async_runs gs' flat in
      Ok (if (start <? length flat)%nat then (dg_path g, drop start flat) :: rest else rest)
  end.

Record async_selection := mkAsyncSelection {
  refreshAsyncPaths : gset string;
  refreshAsyncDemands : list EntityDemand;
  asyncByPath : gmap string (list AsyncFunctionFact);
  reusedAsync : Z;
}.

Definition refresh_run (st : async_selection) (run : string * list EntityDemand) : async_selection :=
  mkAsyncSelection ({[fst run]} ∪ refreshAsyncPaths st) (refreshAsyncDemands st ++ snd run) (asyncByPath st) (reusedAsync st).

Definition select_run (p : DemandClosure) (refreshAll : bool) (st : async_selection) (run : string * list EntityDemand) :
    async_selection :=
  let path := fst run in
  let changed := bool_decide (path ∈ set_of (transportChangedPaths p)) in
  match default ∅ (asyncFiles p) !! path with
  | Some cached =>
      if refreshAll || changed then refresh_run st run
      else mkAsyncSelection (refreshAsyncPaths st) (refreshAsyncDemands st) (<[path := cached]> (asyncByPath st)) (reusedAsync st + 1)
  | None => refresh_run st run
  end.

Definition no_selection : async_selection := mkAsyncSelection ∅ [] ∅ 0.

Definition set_asyncFiles (p : DemandClosure) (files : option (gmap string (list AsyncFunctionFact))) : DemandClosure :=
  mkClosure (table p) (previousTable p) (recyclableTable p) (transportChangedPaths p) (stats p) (generation p)
    (nextTableStateID p) (cl_closed p) (retained p) (lastSuppression p) (symbolReferences p) (symbolsByPath p)
    (invalidatedSymbols p) (symbolMemoComplete p) files.

(** What the next generation may keep, and whether everything was durable. *)
Definition cache_run (byPath : gmap string (list AsyncFunctionFact))
    (st : gmap string (list AsyncFunctionFact) * bool) (run : string * list EntityDemand) :
    gmap string (list AsyncFunctionFact) * bool :=
  let facts := default [] (byPath !! fst run) in
  if durableAsyncFunctions facts then (<[fst run := facts]> (fst st), snd st) else (fst st, false).

Definition is_none {A} (o : option A) : bool := match o with None => true | Some _ => false end.

(** ** Contributions *)

(** The loop variables of the reuse decision. *)
Record reuse_state := mkReuse {
  union : gset string;
  descriptorSeed : gmap string TypeDescriptor;
  changed : list nat;
}.

(** [if _, ok := descriptorSeed[symbol]; !ok { .. }]. *)
Definition seed_descriptor (seed : gmap string TypeDescriptor) (row : retainedDescriptor) : gmap string TypeDescriptor :=
  match seed !! rdc_symbol row with Some _ => seed | None => <[rdc_symbol row := rdc_descriptor row]> seed end.

(** The descriptors a retained contribution brings to the batch. *)
Definition carried_descriptors (c : retainedContribution) : list retainedDescriptor :=
  match c_entities c with
  | Some entities => concat (map entity_descriptor entities)
  | None => descriptors c
  end.

Definition reuse_contribution (c : retainedContribution) (st : reuse_state) : reuse_state :=
  mkReuse (list_to_set (structural c) ∪ union st)
    (foldl seed_descriptor (descriptorSeed st) (carried_descriptors c)) (changed st).

Definition with_hash (g : demandGroup) (hash : Z) : demandGroup :=
  mkDemandGroup (dg_path g) (dg_demands g) (dg_compact g) (dg_strings g) hash (dg_contribution g).
Definition with_contribution (g : demandGroup) (a : positive) : demandGroup :=
  mkDemandGroup (dg_path g) (dg_demands g) (dg_compact g) (dg_strings g) (dg_hash g) (Some a).

Section Materialize.
Context `{MR : !MapRange} `{MH : !Maphash} {W : Type} `{BE : !ClosureBackend W}.

(** [&groups[index]]. *)
Definition group_at (index : nat) : proc (machine W) demandGroup := fun m =>
  (m, match m_groups m !! index with Some g => Ok g | None => Err (ErrText "index out of range") end).
Definition put_group (index : nat) (g : demandGroup) : proc (machine W) unit :=
  p_modify (fun m => set_groups m (<[index := g]> (m_groups m))).
Definition get_closure : proc (machine W) DemandClosure := fun m => (m, Ok (m_closure m)).
Definition deref (a : positive) : proc (machine W) retainedContribution := fun m =>
  (m, match m_heap m !! a with Some c => Ok c | None => Err (ErrText "nil pointer dereference") end).
(** [contribution := &retainedContribution{..}]. *)
Definition alloc (c : retainedContribution) : proc (machine W) positive := fun m =>
  let a := fresh (dom (m_heap m)) in (set_heap m (<[a := c]> (m_heap m)), Ok a).

Definition expand_group (index : nat) : proc (machine W) demandGroup :=
  do! g := group_at index in
  do! g := p_lift (ensureExpanded g) in
  put_group index g ;!
  p_ret g.

(** The async section: the functions of every path, and what was reused and
    asked again. *)
Definition async_functions (runs : list (string * list EntityDemand)) :
    proc (machine W) (gmap string (list AsyncFunctionFact) * Z * Z) :=
  do! p := get_closure in
  let refreshAll := is_none (asyncFiles p) || is_none (transportChangedPaths p) in
  let st := foldl (select_run p refreshAll) no_selection runs in
  do! refreshed := in_world (asyncFunctionsForDemands (refreshAsyncDemands st)) in
  let crossPath := existsb (fun path => bool_decide (path ∉ refreshAsyncPaths st)) (range_map refreshed).*1 in
  do! all := (if crossPath && negb refreshAll then
      let st := foldl refresh_run no_selection runs in
      do! refreshed := in_world (asyncFunctionsForDemands (refreshAsyncDemands st)) in
      p_ret (st, refreshed)
    else p_ret (st, refreshed)) in
  let '(st, refreshed) := all in
  let byPath := foldl (fun byPath path => <[path := []]> byPath) (asyncByPath st) (range_set (refreshAsyncPaths st)) in
  let byPath := refreshed ∪ byPath in
  let '(next, cacheable) := foldl (cache_run byPath) (∅, true) runs in
  modify_closure (fun p => set_asyncFiles p (if cacheable && negb crossPath then Some next else None)) ;!
  p_ret (byPath, reusedAsync st, Z.of_nat (size (refreshAsyncPaths st))).

Definition file_row (byPath : gmap string (list AsyncFunctionFact)) (source : SourceDigest) (files : list FileFact) :
    proc (machine W) (list FileFact) :=
  in_world ctx_check ;!
  p_ret (files ++ [mkFileFact (dig_Path source) [] [] [] (default [] (byPath !! dig_Path source))]).

(** One group of the reuse loop. *)
Definition plan_group (index : nat) (st : reuse_state) : proc (machine W) reuse_state :=
  do! g := group_at index in
  do! p := get_closure in
  let pathChanged := bool_decide (dg_path g ∈ set_of (transportChangedPaths p)) in
  match contribution_get (retained p) (dg_path g) with
  | None =>
      do! g := expand_group index in
      put_group index (with_hash g (demandListHash (default [] (dg_demands g)))) ;!
      p_ret (mkReuse (union st) (descriptorSeed st) (changed st ++ [index]))
  | Some a =>
      do! c := deref a in
      do! g := (if is_none (transportChangedPaths p) || pathChanged then
                  do! g := expand_group index in
                  p_ret (with_hash g (demandListHash (default [] (dg_demands g))))
                else p_ret (with_hash g (demandHash c))) in
      if demandHash c =? dg_hash g then
        put_group index (with_contribution g a) ;!
        p_ret (reuse_contribution c st)
      else
        put_group index g ;!
        p_ret (mkReuse (union st) (descriptorSeed st) (changed st ++ [index]))
  end.

Definition demand_run (index : nat) (runs : list SemanticDemandRun) : proc (machine W) (list SemanticDemandRun) :=
  do! g := group_at index in
  p_ret (runs ++ [mkSemanticDemandRun (dg_path g) (default [] (dg_demands g))]).

Definition rebuild_group (row : nat * SemanticDemandRunResult) (_ : unit) : proc (machine W) unit :=
  do! g := group_at (fst row) in
  do! c := p_lift (prepareRetainedContribution (dg_path g) (dg_hash g) (default [] (dg_demands g)) (snd row)) in
  do! a := alloc c in
  put_group (fst row) (with_contribution g a).

Definition rebuildContributions (results : list SemanticDemandRunResult) (indices : list nat) : proc (machine W) unit :=
  if negb (Nat.eqb (length results) (length indices))
  then p_fail (ErrText "semantic demand run results")
  else p_fold rebuild_group (zip indices results) tt.

(** The contribution of a group, which has one by now. *)
Definition group_contribution (index : nat) : proc (machine W) retainedContribution :=
  do! g := group_at index in
  match dg_contribution g with
  | Some a => deref a
  | None => p_fail (ErrText "nil pointer dereference")
  end.

(** Only durable structural symbols of a recomputed group join the union. *)
Definition join_structural (index : nat) (union : gset string) : proc (machine W) (gset string) :=
  do! c := group_contribution index in
  p_ret (list_to_set (filter (fun symbol => DurableSymbolID symbol = true) (structural c)) ∪ union).

Definition recompute (st : reuse_state) : proc (machine W) reuse_state :=
  match changed st with
  | [] => p_ret st
  | _ =>
      do! runs := p_fold demand_run (changed st) [] in
      do! results := in_world (SemanticDemandRuns runs (mkSemanticScope (union st) (descriptorSeed st))) in
      rebuildContributions results (changed st) ;!
      do! union := p_fold join_structural (changed st) (union st) in
      p_ret (mkReuse union (descriptorSeed st) (changed st))
  end.

(** ** Suppression refresh *)

Definition suppression_delta (union last : gset string) : gset string := (union ∖ last) ∪ (last ∖ union).

(** The group of a descriptor user, when it still holds the stored
    contribution. *)
Definition refresh_index (p : DemandClosure) (gs : list demandGroup) (set : gset nat) (path : string) : gset nat :=
  let index := search_group gs path in
  match gs !! index with
  | None => set
  | Some g =>
      if negb (String.eqb (dg_path g) path) ||
         negb (bool_decide (dg_contribution g = contribution_get (retained p) path))
      then set else {[index]} ∪ set
  end.

Definition refresh_symbol (p : DemandClosure) (gs : list demandGroup) (set : gset nat) (symbol : SymbolID) : gset nat :=
  foldl (refresh_index p gs) set (rangeDescriptorUsers (retained p) symbol).

Definition refresh_indices (p : DemandClosure) (gs : list demandGroup) (union last : gset string) : list nat :=
  merge_sort le (elements (foldl (refresh_symbol p gs) ∅ (range_set (suppression_delta union last)))).

Definition expanded_run (index : nat) (runs : list SemanticDemandRun) : proc (machine W) (list SemanticDemandRun) :=
  do! g := expand_group index in
  p_ret (runs ++ [mkSemanticDemandRun (dg_path g) (default [] (dg_demands g))]).

(** The refresh, and whether there was one. *)
Definition refresh_suppressed (st : reuse_state) : proc (machine W) (reuse_state * bool) :=
  do! m := p_get in
  let p := m_closure m in
  match lastSuppression p with
  | None => p_ret (st, false)
  | Some last =>
      if symbolSetsEqual (union st) last then p_ret (st, false)
      else
        let refresh := refresh_indices p (m_groups m) (union st) last in
        do! runs := p_fold expanded_run refresh [] in
        match refresh with
        | [] => p_ret (st, false)
        | _ =>
            do! results := in_world (SemanticDemandRuns runs (mkSemanticScope (union st) ∅)) in
            rebuildContributions results refresh ;!
            p_ret (mkReuse (union st) (descriptorSeed st) (changed st ++ refresh), true)
        end
  end.

(** ** Assembly *)

Definition changed_path (index : nat) (paths : gset string) : proc (machine W) (gset string) :=
  do! g := group_at index in p_ret ({[dg_path g]} ∪ paths).

Definition manifest_paths (changed : list nat) : proc (machine W) (option (gset string)) :=
  do! p := get_closure in
  match changed with
  | [] => p_ret (transportChangedPaths p)
  | _ => do! paths := p_fold changed_path changed (set_of (transportChangedPaths p)) in p_ret (Some paths)
  end.

Definition count_nonDurable (index : nat) (count : Z) : proc (machine W) Z :=
  do! c := group_contribution index in p_ret (if durable c then count else count + 1).

Definition append_run (index : nat) (runs : list (list EntityFact)) : proc (machine W) (list (list EntityFact)) :=
  do! c := group_contribution index in
  p_ret (match default [] (c_entities c) with [] => runs | entities => runs ++ [entities] end).

(** [p.nextTableStateID++], skipping zero. *)
Definition next_state_id (id : Z) : Z :=
  let id := u64 (id + 1) in if id =? 0 then u64 (id + 1) else id.

(** The nil-ness of the run list of a recycled table. *)
Definition recycled_runs (recycled : option FactTable) (groups : list demandGroup) (runs : list (list EntityFact)) :
    option (list (list EntityFact)) :=
  match groups, recycled ≫= entityRuns with
  | [], None => None
  | _, _ => Some runs
  end.

Definition publish (p : DemandClosure) (s : retainedContributionStore) (union : gset string) (id : Z) : DemandClosure :=
  mkClosure (table p) None (previousTable p) None (stats p) (generation p) id (cl_closed p) s (Some union)
    (symbolReferences p) (symbolsByPath p) (invalidatedSymbols p) (symbolMemoComplete p) (asyncFiles p).

Definition materialize_body (generation : Z) : proc (machine W) (FactTable * ClosureRetention) :=
  do! digests := in_world semanticSourceDigests in
  do! m := p_get in
  let recycled := recyclableTable (m_closure m) in
  modify_closure (fun p => set_tables p (table p) (previousTable p) None (transportChangedPaths p)) ;!
  do! runs := p_lift (async_runs (m_groups m) []) in
  do! async := async_functions runs in
  let '(byPath, retainedAsync, recomputedAsync) := async in
  do! files := p_fold (file_row byPath) digests [] in
  let indices := seq 0 (length (m_groups m)) in
  do! st := p_fold plan_group indices (mkReuse ∅ ∅ []) in
  do! st := recompute st in
  do! refreshed := refresh_suppressed st in
  let '(st, refreshed) := refreshed in
  do! paths := manifest_paths (changed st) in
  do! nonDurable := p_fold count_nonDurable indices 0 in
  do! runs := p_fold append_run indices [] in
  do! m' := p_get in
  let p := m_closure m' in
  let id := next_state_id (nextTableStateID p) in
  let t := mkFactTable TypeFactsSchemaVersion generation "semantic-demand" [] [] [] files id
             (rustOwnedTransportManifest (previousTable p) paths) None (Some digests) None
             (recycled_runs recycled (m_groups m') runs) in
  modify_closure (fun p => publish p (ContributionStore.commit (m_heap m') (retained p) (m_groups m')) (union st) id) ;!
  p_ret (t, mkRetention (Z.of_nat (length indices) - Z.of_nat (length (changed st))) (Z.of_nat (length (changed st)))
              retainedAsync recomputedAsync nonDurable refreshed).

(** The deferred release of the expanded runs. *)
Definition release_groups (m : machine W) : machine W := set_groups m (map releaseExpanded (m_groups m)).

Definition materializeSemanticDemandRetained (generation : Z) : proc (machine W) (FactTable * ClosureRetention) :=
  p_defer release_groups (materialize_body generation).

Definition with_table (p : DemandClosure) (t : FactTable) (st : ClosureStats) : DemandClosure :=
  mkClosure (Some t) (previousTable p) (recyclableTable p) (transportChangedPaths p) st (Closure.generation p)
    (nextTableStateID p) (cl_closed p) (retained p) (lastSuppression p) (symbolReferences p) (symbolsByPath p)
    (invalidatedSymbols p) (symbolMemoComplete p) (asyncFiles p).

Definition materializeDemandTableLocked (generation : Z) : proc (machine W) unit :=
  do! built := materializeSemanticDemandRetained generation in
  let '(t, retention) := built in
  modify_closure (fun p =>
    with_table p t
      (mkStats (u64 (BuildSequence (stats p) + 1)) generation (Z.of_nat (length (Files t)))
        (Z.of_nat (wireEntityCount (Some t))) (Z.of_nat (symbolFactsCount t)) 0 retention)).

(** ** Demand tables *)

(** The demand-set changes a call brings. *)
Definition discard_changed (changedPaths : list string) (m : machine W) : machine W :=
  let p := m_closure m in
  let previous := match table p with Some t => Some t | None => previousTable p end in
  let invalidated : gset string := list_to_set (map Clean changedPaths) in
  set_closure m
    (set_retained (set_tables p None previous (recyclableTable p) (Some (invalidated ∪ set_of (transportChangedPaths p))))
      (discard (m_heap m) (retained p) invalidated)).

Definition demandTableForPreparedGroups (generation : Z) (changedPaths : list string) : proc (machine W) FactTable :=
  do! p := get_closure in
  if negb (generation =? Closure.generation p) then p_fail ErrGenerationMismatch
  else
    (match changedPaths with [] => p_ret tt | _ => p_modify (discard_changed changedPaths) end) ;!
    do! p := get_closure in
    match table p with
    | Some t => p_ret t
    | None =>
        p_modify (fun m => set_groups m (sort_slice (key_less dg_path) (m_groups m))) ;!
        do! m := p_get in
        (if adjacent_duplicate (m_groups m)
         then p_fail (ErrText "demand groups name a path twice; each path may appear once")
         else p_ret tt) ;!
        materializeDemandTableLocked generation ;!
        do! p := get_closure in
        match table p with Some t => p_ret t | None => p_fail (ErrText "nil pointer dereference") end
    end.

Definition demandTableForCanonicalGroups := demandTableForPreparedGroups.

(** [demandTableForGroups] prepares its own slice of runs. *)
Definition demandTableForGroups (generation : Z) (groups : list DemandGroup) (changedPaths : list string) (canonical : bool) :
    proc (machine W) FactTable :=
  let prepare (group : DemandGroup) :=
    let path := Clean (dgr_Path group) in
    plain_group path (if canonical then dgr_Demands group else canonicalDemandRun path (dgr_Demands group)) in
  p_modify (fun m => set_groups m (map prepare groups)) ;!
  demandTableForPreparedGroups generation changedPaths.

Definition DemandTableForGroups (generation : Z) (groups : list DemandGroup) (changedPaths : list string) :
    proc (machine W) FactTable := demandTableForGroups generation groups changedPaths false.
End Materialize.
