(* ===== verification/MaterializeSpec.v ===== *)
(** * What materialization does

    Each step of a materialization only extends the machine: contributions are
    never changed, runs keep what they demand, the retained state is untouched
    until the end. A run that is not recomputed keeps the stored contribution;
    one that is gets a fresh one whose rows are all at the run's path. *)

From S2P Require Import Prelude GoStd GoText GoSha SortedPaths Model CompactDemands DemandGroup Contributions ContributionStore FactTable TransportManifest SessionDemands Proc Closure Materialize.
Open Scope Z_scope.

(** ** Runs that demand the same *)

Definition located (path : string) (demands : list EntityDemand) : Prop :=
  Forall (fun d => Path (dem_Location d) = path) demands.

(** What a run demands: its list, or the expansion of its compact group in
    canonical form. *)
Definition run_demands (g : demandGroup) : result (list EntityDemand) :=
  match dg_strings g with
  | None => Ok (default [] (dg_demands g))
  | Some strings =>
      let? demands := Expand (mkCompactDemands [dg_compact g] strings) in
      Ok (canonicalizeDemandRun (dg_path g) demands)
  end.

(** The expanded demands of a run, if any, are what it demands, and they are at
    its path. *)
Definition group_located (g : demandGroup) : Prop :=
  when_some (fun ds => located (dg_path g) ds /\ run_demands g = Ok ds) (dg_demands g).

(** The run has its demands at hand. *)
Definition at_hand (g : demandGroup) : Prop :=
  located (dg_path g) (default [] (dg_demands g)) /\ run_demands g = Ok (default [] (dg_demands g)).

(** Two states of one run: hash, contribution and expansion may differ. *)
Record same_run (g g' : demandGroup) : Prop := {
  sr_path : dg_path g' = dg_path g;
  sr_compact : dg_compact g' = dg_compact g;
  sr_strings : dg_strings g' = dg_strings g;
  sr_demands : dg_strings g = None -> dg_demands g' = dg_demands g;
  sr_located : group_located g -> group_located g';
}.

#[export] Instance same_run_preorder : PreOrder same_run.
Proof.
  split; [by intros g; split|]. intros a b c [H1 H2 H3 H4 H5] [K1 K2 K3 K4 K5]. split; try congruence; [|tauto].
  intros H. rewrite K4 by congruence. by apply H4.
Qed.

#[export] Instance same_runs_preorder : PreOrder (Forall2 same_run).
Proof. split; apply _. Qed.

Lemma same_run_demands g g' : same_run g g' -> run_demands g' = run_demands g.
Proof.
  intros [H1 H2 H3 H4 _]. unfold run_demands. rewrite H1, H2, H3. destruct (dg_strings g); [done|]. by rewrite H4.
Qed.

Lemma same_runs_paths gs gs' : Forall2 same_run gs gs' -> map dg_path gs' = map dg_path gs.
Proof. induction 1 as [|g g' gs gs' H _ IH]; simpl; [done|]. by rewrite (sr_path _ _ H), IH. Qed.

Lemma same_runs_put gs i g g' : gs !! i = Some g -> same_run g g' -> Forall2 same_run gs (<[i := g']> gs).
Proof.
  intros Hi H. apply Forall2_same_length_lookup_2; [by rewrite length_insert|]. intros j x y Hx Hy.
  destruct (decide (i = j)) as [->|Hne].
  - rewrite list_lookup_insert_eq in Hy by (by eapply lookup_lt_Some). simplify_eq. done.
  - rewrite list_lookup_insert_ne in Hy by done. by simplify_eq.
Qed.

Lemma ensureExpanded_spec g g' : group_located g -> ensureExpanded g = Ok g' ->
  same_run g g' /\ group_located g' /\ dg_hash g' = dg_hash g /\ dg_contribution g' = dg_contribution g /\
  at_hand g'.
Proof.
  unfold ensureExpanded, group_located, at_hand. intros Hl. destruct (dg_demands g) as [ds|] eqn:Ed.
  { intros [= <-]. rewrite Ed. split_and!; try done; simpl; by apply Hl. }
  unfold run_demands. destruct (dg_strings g) as [strings|] eqn:Es.
  - destruct (Expand (mkCompactDemands [dg_compact g] strings)) as [x|] eqn:Ex; [|done]. intros [= <-]. simpl. rewrite Es, Ex.
    assert (located (dg_path g) (canonicalizeDemandRun (dg_path g) x)) as Hloc
      by (unfold located, canonicalizeDemandRun; apply Forall_map, Forall_true; by intros []).
    assert (when_some (fun ds => located (dg_path g) ds /\ Ok (canonicalizeDemandRun (dg_path g) x) = Ok ds)
      (Some (canonicalizeDemandRun (dg_path g) x))) as Hw by by intros ds [= <-].
    split_and!; try done. split; simpl; try done; try congruence. intros _. unfold group_located, run_demands. simpl. by rewrite Es, Ex.
  - intros [= <-]. rewrite Ed, Es. split_and!; try done. constructor.
Qed.

Lemma ensureExpanded_twice g g' : ensureExpanded g = Ok g' -> ensureExpanded g' = Ok g'.
Proof.
  unfold ensureExpanded. destruct (dg_demands g) as [ds|] eqn:Ed; [intros [= <-]; by rewrite Ed|].
  destruct (dg_strings g) as [strings|] eqn:Es; [|intros [= <-]; by rewrite Ed, Es]. intros H. by result_solve.
Qed.

Lemma releaseExpanded_same g : same_run g (releaseExpanded g).
Proof.
  unfold releaseExpanded, isCompact. destruct (dg_strings g) eqn:E; [|done]. split; simpl; try done; congruence.
Qed.

Lemma same_runs_located gs gs' : Forall2 same_run gs gs' -> Forall group_located gs -> Forall group_located gs'.
Proof. induction 1 as [|g g' gs gs' H _ IH]; [done|]. intros [Hg Hgs]%Forall_cons. constructor; [by apply H|by apply IH]. Qed.

(** ** Extending the machine *)

Section Extends.
Context {W : Type}.

(** Only the recycled table and the async cache may differ. *)
Definition same_closure (p p' : DemandClosure) : Prop :=
  exists recyclable files, p' = set_asyncFiles (set_tables p (table p) (previousTable p) recyclable (transportChangedPaths p)) files.

#[export] Instance same_closure_preorder : PreOrder same_closure.
Proof.
  split.
  - intros p. exists (recyclableTable p), (asyncFiles p). by destruct p.
  - intros p q r (a & b & ->) (c & d & ->). by exists c, d.
Qed.

Record extends (m m' : machine W) : Prop := {
  ex_closure : same_closure (m_closure m) (m_closure m');
  ex_heap : m_heap m ⊆ m_heap m';
  ex_runs : Forall2 same_run (m_groups m) (m_groups m');
}.

#[export] Instance extends_preorder : PreOrder extends.
Proof.
  split; [by split|]. intros a b c [H1 H2 H3] [K1 K2 K3]. split; [by etrans|by etrans|by etrans].
Qed.

Definition all_located (m : machine W) : Prop := Forall group_located (m_groups m).

(** A step of a procedure that extends what an earlier one left. *)
Lemma wp_extends {A} m0 m (f : proc (machine W) A) (Q : A -> machine W -> Prop) :
  extends m0 m -> wp (extends m) f (fun a m' => extends m m' -> Q a m') m ->
  wp (extends m) f (fun _ m' => extends m m') m -> wp (extends m0) f Q m.
Proof.
  intros H0 H1 H2. unfold wp in *. destruct (f m) as [m' [a|e]]; [by apply H1|]. by etrans.
Qed.

Lemma extends_world m w : extends m (set_world m w).
Proof. by split. Qed.

Lemma extends_put m i g g' : m_groups m !! i = Some g -> same_run g g' ->
  extends m (set_groups m (<[i := g']> (m_groups m))).
Proof. intros H1 H2. split; simpl; [done|done|by eapply same_runs_put]. Qed.

Lemma extends_alloc m a c : m_heap m !! a = None -> extends m (set_heap m (<[a := c]> (m_heap m))).
Proof. intros H. split; simpl; [done|by apply insert_subseteq|done]. Qed.

Lemma extends_length m m' : extends m m' -> length (m_groups m') = length (m_groups m).
Proof. intros [_ _ H]. symmetry. by eapply Forall2_length. Qed.

Lemma extends_heap_None m m' a : extends m m' -> m_heap m' !! a = None -> m_heap m !! a = None.
Proof. intros [_ H _] Ha. destruct (m_heap m !! a) eqn:E; [|done]. by rewrite (lookup_weaken _ _ _ _ E H) in Ha. Qed.

Lemma extends_retained m m' : extends m m' -> retained (m_closure m') = retained (m_closure m).
Proof. by intros [(r & f & ->) _ _]. Qed.

Lemma wp_world_eq {A} E (f : proc W A) Q (m : machine W) :
  (forall w, E (set_world m w)) -> (forall a w, f (m_world m) = (w, Ok a) -> Q a (set_world m w)) -> wp E (in_world f) Q m.
Proof. intros HE HQ. unfold wp, in_world, p_zoom. destruct (f (m_world m)) as [w [a|e]]; auto. Qed.

Lemma wp_world {A} E (f : proc W A) Q (m : machine W) :
  (forall w, E (set_world m w)) -> (forall a w, Q a (set_world m w)) -> wp E (in_world f) Q m.
Proof. intros HE HQ. apply wp_world_eq; auto. Qed.
End Extends.

Lemma all_located_put {W} (m : machine W) i g : all_located m -> group_located g ->
  all_located (set_groups m (<[i := g]> (m_groups m))).
Proof. intros H Hg. by apply Forall_insert. Qed.

(** ** The primitive steps *)

Section Steps.
Context `{MR : !MapRange} `{MH : !Maphash} {W : Type} `{BE : !ClosureBackend W}.
Implicit Types m : machine W.

Lemma wp_group_at E i Q m : E m -> (forall g, m_groups m !! i = Some g -> Q g m) -> wp E (group_at i) Q m.
Proof. intros HE HQ. unfold wp, group_at. destruct (m_groups m !! i); auto. Qed.

Lemma wp_deref E a Q m : E m -> (forall c, m_heap m !! a = Some c -> Q c m) -> wp E (deref a) Q m.
Proof. intros HE HQ. unfold wp, deref. destruct (m_heap m !! a); auto. Qed.

Lemma wp_alloc E c Q m :
  (forall a, m_heap m !! a = None -> Q a (set_heap m (<[a := c]> (m_heap m)))) -> wp E (alloc c) Q m.
Proof. intros HQ. unfold wp, alloc. apply HQ. apply not_elem_of_dom, is_fresh. Qed.

Lemma wp_expand E i Q m : E m ->
  (forall g g', m_groups m !! i = Some g -> ensureExpanded g = Ok g' -> Q g' (set_groups m (<[i := g']> (m_groups m)))) ->
  wp E (expand_group i) Q m.
Proof.
  intros HE HQ. unfold expand_group. apply wp_bind, wp_group_at; [done|]. intros g Hg.
  apply wp_bind, wp_lift. destruct (ensureExpanded g) as [g'|e] eqn:Ee; [|done].
  apply wp_bind. unfold put_group. apply wp_modify, wp_ret. by eapply HQ.
Qed.

(** ** Rebuilding contributions *)

(** [c] is what the backend answered to the demands of the run. *)
Definition backend_answer (g : demandGroup) (c : retainedContribution) : Prop :=
  exists w w' runs scope results k demands hash result,
    SemanticDemandRuns runs scope w = (w', Ok results) /\
    run_demands g = Ok demands /\ runs !! k = Some (mkSemanticDemandRun (dg_path g) demands) /\ results !! k = Some result /\
    prepareRetainedContribution (dg_path g) hash demands result = Ok c.

Lemma backend_answer_same g g' c : same_run g g' -> backend_answer g c -> backend_answer g' c.
Proof. intros Hs. unfold backend_answer. by rewrite (same_run_demands _ _ Hs), (sr_path _ _ Hs). Qed.

(** The run at [i] has a contribution [m] did not have, answered by the
    backend, with rows at its path. *)
Definition rebuilt m m' (i : nat) : Prop :=
  exists g a c es, m_groups m' !! i = Some g /\ dg_contribution g = Some a /\ m_heap m !! a = None /\
    m_heap m' !! a = Some c /\ c_entities c = Some es /\ Forall (fun e => entity_path e = dg_path g) es /\
    backend_answer g c.

(** The run at [i] has its demands at hand. *)
Definition expanded m (i : nat) : Prop :=
  exists g, m_groups m !! i = Some g /\ at_hand g.

(** What is asked for the run at [i]. *)
Definition asks m (i : nat) (run : SemanticDemandRun) : Prop :=
  exists g, m_groups m !! i = Some g /\ run = mkSemanticDemandRun (dg_path g) (default [] (dg_demands g)).

(** The backend's answers, one to each of the runs at [indices]. *)
Definition answers m (indices : list nat) (results : list SemanticDemandRunResult) : Prop :=
  exists w w' runs scope, SemanticDemandRuns runs scope w = (w', Ok results) /\ Forall2 (asks m) indices runs.

Record rebuilding m0 (done : list nat) m : Prop := {
  rb_extends : extends m0 m;
  rb_closure : m_closure m = m_closure m0;
  rb_located : all_located m;
  rb_done i : i ∈ done -> rebuilt m0 m i;
  rb_other i : i ∉ done -> m_groups m !! i = m_groups m0 !! i;
  rb_expanded i : expanded m0 i -> expanded m i;
  rb_asks i run : asks m0 i run -> asks m i run;
}.

(** The row's result answers what is asked for the row's run. *)
Definition row_answer m (row : nat * SemanticDemandRunResult) : Prop :=
  exists w w' runs scope results k run, SemanticDemandRuns runs scope w = (w', Ok results) /\
    runs !! k = Some run /\ results !! k = Some (snd row) /\ asks m (fst row) run.

Lemma answers_rows m indices results : answers m indices results -> Forall (row_answer m) (zip indices results).
Proof.
  intros (w & w' & runs & scope & Hb & Hr). apply Forall_lookup. intros k [i r] Hk.
  apply lookup_zip_Some in Hk as [Hi Hk]. destruct (Forall2_lookup_l _ _ _ _ _ Hr Hi) as (run & Hrun & Ha).
  by exists w, w', runs, scope, results, k, run.
Qed.

Lemma rebuild_step m0 done row m : rebuilding m0 done m -> expanded m0 (fst row) -> row_answer m0 row ->
  wp (extends m0) (rebuild_group row tt) (fun _ => rebuilding m0 (done ++ [fst row])) m.
Proof.
  intros [Hx Hcl Hl Hd Ho He Has] Hex (w & w' & runs & scope & results & k & run & Hb & Hrun & Hres & Hask).
  destruct row as [i result]. unfold rebuild_group. cbn [fst snd] in *.
  destruct (He i Hex) as (g & Hg & Hloc). apply wp_bind, wp_group_at; [done|]. intros g' Hg'.
  rewrite Hg in Hg'. injection Hg' as <-. apply wp_bind, wp_lift.
  destruct (prepareRetainedContribution _ _ _ _) as [c|e] eqn:Ec; [|done].
  assert (backend_answer g c) as Hans.
  { destruct (Has i run Hask) as (g' & Hg' & Hr). rewrite Hg in Hg'. injection Hg' as <-. subst run.
    destruct Hloc as [_ Hd']. by repeat eexists. }
  apply prepare_rows in Ec as (_ & _ & _ & es & Hes & Hrows).
  apply wp_bind, wp_alloc. intros a Ha. unfold put_group. apply wp_modify. cbn [m_groups set_heap].
  set (m1 := set_heap m (<[a := c]> (m_heap m))).
  assert (same_run g (with_contribution g a)) as Hs by by split.
  assert (extends m (set_groups m1 (<[i := with_contribution g a]> (m_groups m)))) as Hxm.
  { etrans; [by apply (extends_alloc m a c)|]. by apply (extends_put m1 i g). }
  assert (m_heap m0 !! a = None) as Ha0 by by eapply extends_heap_None.
  split; [by etrans|done| | | | |].
  - apply (all_located_put m1); [done|]. pose proof (proj1 (Forall_lookup _ _) Hl i g Hg). done.
  - intros j Hj. destruct (decide (i = j)) as [<-|Hne].
    + exists (with_contribution g a), a, c, es. simpl. rewrite list_lookup_insert_eq by (by eapply lookup_lt_Some).
      rewrite lookup_insert_eq. split_and!; try done. clear Hans. eapply Forall_impl; [exact Hrows|]. intros e (d & Hd' & He').
      unfold entity_path. rewrite He'. destruct Hloc as [Hloc _]. unfold located in Hloc. rewrite Forall_forall in Hloc. by apply Hloc.
    + destruct (Hd j) as (g' & b & c' & es' & H1 & H2 & H3 & H4 & H5); [set_solver|]. exists g', b, c', es'. simpl.
      rewrite list_lookup_insert_ne by done. split_and!; try done; [|apply H5..].
      rewrite lookup_insert_ne; [done|]. intros ->. congruence.
  - intros j Hj. simpl. rewrite list_lookup_insert_ne by set_solver. apply Ho. set_solver.
  - intros j Hj. destruct (He j Hj) as (g' & H1 & H2). destruct (decide (i = j)) as [<-|Hne].
    + exists (with_contribution g a). simpl. rewrite list_lookup_insert_eq by (by eapply lookup_lt_Some). done.
    + exists g'. simpl. by rewrite list_lookup_insert_ne.
  - intros j run' Hj. destruct (Has j run' Hj) as (g' & H1 & H2). destruct (decide (i = j)) as [<-|Hne].
    + exists (with_contribution g a). simpl. rewrite list_lookup_insert_eq by (by eapply lookup_lt_Some). by simplify_eq.
    + exists g'. simpl. by rewrite list_lookup_insert_ne.
Qed.

Lemma rebuild_spec results indices m : all_located m -> (forall i, i ∈ indices -> expanded m i) -> answers m indices results ->
  wp (extends m) (rebuildContributions results indices) (fun _ => rebuilding m indices) m.
Proof.
  intros Hl He Hans%answers_rows. unfold rebuildContributions. destruct (Nat.eqb_spec (length results) (length indices)) as [Hlen|]; simpl; [|done].
  apply wp_fold with (I := fun done rest _ m' => (forall i, i ∈ (done ++ rest).*1 -> expanded m i) /\ Forall (row_answer m) rest /\
    rebuilding m done.*1 m').
  - intros done [i r] rest [] m' (Hex & Ha & Hr). apply Forall_cons in Ha as [Ha Hrest].
    eapply wp_mono; [done| |eapply rebuild_step; [done| |done]].
    + intros [] m'' H. rewrite <- app_assoc. split; [done|]. split; [done|]. by rewrite fmap_app.
    + apply Hex. rewrite fmap_app. simpl. set_solver.
  - simpl. split; [intros i Hi; apply He; rewrite fst_zip in Hi by lia; done|]. split; [done|].
    split; try done. intros i Hi. by apply elem_of_nil in Hi.
  - intros [] m' (_ & _ & H). by rewrite fst_zip in H by lia.
Qed.

(** ** The reuse decision *)

(** The run at [i] holds the contribution stored for its path. *)
Definition kept m0 m (i : nat) : Prop :=
  exists g a, m_groups m !! i = Some g /\ dg_contribution g = Some a /\ is_Some (m_heap m0 !! a) /\
    contribution_get (retained (m_closure m0)) (dg_path g) = Some a.

Record planning m0 (done : list nat) (st : reuse_state) m : Prop := {
  pl_extends : extends m0 m;
  pl_closure : m_closure m = m_closure m0;
  pl_heap : m_heap m = m_heap m0;
  pl_located : all_located m;
  pl_changed i : i ∈ changed st -> expanded m i /\ i ∈ done;
  pl_kept i : i ∈ done -> i ∉ changed st -> kept m0 m i;
}.

(** A group is written back; the others are as they were. *)
Lemma planning_put m0 done st st' m i g g' :
  planning m0 done st m -> m_groups m !! i = Some g -> same_run g g' -> group_located g' -> i ∉ done ->
  (changed st' = changed st /\ kept m0 (set_groups m (<[i := g']> (m_groups m))) i \/
   changed st' = changed st ++ [i] /\ at_hand g') ->
  planning m0 (done ++ [i]) st' (set_groups m (<[i := g']> (m_groups m))).
Proof.
  intros [Hx Hc Hh Hl Hch Hk] Hg Hs Hg' Hni Hcase.
  assert (<[i := g']> (m_groups m) !! i = Some g') as Hi by (apply list_lookup_insert_eq; by eapply lookup_lt_Some).
  assert (forall j, j ∈ done -> <[i := g']> (m_groups m) !! j = m_groups m !! j) as Hj
    by (intros j Hj; apply list_lookup_insert_ne; by intros ->).
  split; simpl; [|done|done|by apply all_located_put| |].
  - etrans; [done|by eapply extends_put].
  - intros j Hin. destruct Hcase as [[Hst _]|[Hst Hloc]]; rewrite Hst in Hin.
    + destruct (Hch j Hin) as [(h & H1 & H2) Hd]. split; [|set_solver]. exists h. simpl. by rewrite Hj.
    + apply elem_of_app in Hin as [Hin|Hin%list_elem_of_singleton].
      * destruct (Hch j Hin) as [(h & H1 & H2) Hd]. split; [|set_solver]. exists h. simpl. by rewrite Hj.
      * subst j. split; [|set_solver]. by exists g'.
  - intros j Hin Hnc. apply elem_of_app in Hin as [Hin|Hin%list_elem_of_singleton].
    + destruct (Hk j Hin) as (h & a & H1 & H2); [destruct Hcase as [[Hst _]|[Hst _]]; rewrite Hst in Hnc; set_solver|].
      exists h, a. simpl. by rewrite Hj.
    + subst j. destruct Hcase as [[_ H]|[Hst _]]; [done|]. rewrite Hst in Hnc. set_solver.
Qed.

Lemma plan_step m0 done i st m : planning m0 done st m -> i ∉ done ->
  wp (extends m0) (plan_group i st) (planning m0 (done ++ [i])) m.
Proof.
  intros Hp Hni. pose proof Hp as [Hx Hc Hh Hl _ _]. unfold plan_group.
  apply wp_bind, wp_group_at; [done|]. intros g Hg. apply wp_bind. unfold get_closure, wp at 1. rewrite Hc.
  assert (group_located g) as Hgl by exact (proj1 (Forall_lookup _ _) Hl i g Hg).
  destruct (contribution_get (retained (m_closure m0)) (dg_path g)) as [a|] eqn:Ea.
  - apply wp_bind, wp_deref; [done|]. intros c Hca. rewrite Hh in Hca.
    apply wp_bind. destruct (is_none _ || _).
    + apply wp_bind, wp_expand; [done|]. intros g0 g' Hg0 He. rewrite Hg in Hg0. injection Hg0 as <-. apply wp_ret.
      destruct (ensureExpanded_spec g g' Hgl He) as (Hs & Hl' & Hhash & Hcon & Hloc).
      assert (<[i := g']> (m_groups m) !! i = Some g') as Hi by (apply list_lookup_insert_eq; by eapply lookup_lt_Some).
      cbn [dg_hash with_hash].
      destruct (demandHash c =? _); apply wp_bind; unfold put_group; apply wp_modify, wp_ret; cbn [m_groups set_groups];
        rewrite list_insert_insert_eq;
        (eapply (planning_put m0 done st _ m i g); [done|done|by destruct Hs|exact Hl'|done|]).
      * left. split; [done|]. exists (with_contribution (with_hash g' (demandListHash (default [] (dg_demands g')))) a), a.
        simpl. rewrite list_lookup_insert_eq by (by eapply lookup_lt_Some). split_and!; [done..|by eexists|].
        by rewrite (sr_path _ _ Hs).
      * right. by split.
    + apply wp_ret. cbn [dg_hash with_hash]. rewrite Z.eqb_refl.
      apply wp_bind. unfold put_group. apply wp_modify, wp_ret.
      eapply planning_put; [done|done|by split|exact Hgl|done|]. left. split; [done|].
      exists (with_contribution (with_hash g (demandHash c)) a), a.
      simpl. rewrite list_lookup_insert_eq by (by eapply lookup_lt_Some). split_and!; [done..|by eexists|done].
  - apply wp_bind, wp_expand; [done|]. intros g0 g' Hg0 He. rewrite Hg in Hg0. injection Hg0 as <-.
    destruct (ensureExpanded_spec g g' Hgl He) as (Hs & Hl' & Hhash & Hcon & Hloc).
    apply wp_bind. unfold put_group. apply wp_modify, wp_ret. cbn [m_groups set_groups].
    rewrite list_insert_insert_eq. eapply (planning_put m0 done st _ m i g); [done|done|by destruct Hs|exact Hl'|done|].
    right. by split.
Qed.

Lemma plan_spec m n st0 : all_located m -> changed st0 = [] ->
  wp (extends m) (p_fold plan_group (seq 0 n) st0) (planning m (seq 0 n)) m.
Proof.
  intros Hl Hst. apply wp_fold with (I := fun done rest st m' => NoDup (done ++ rest) /\ planning m done st m').
  - intros done i rest st m' [Hnd Hp]. eapply wp_mono; [done| |apply plan_step; [done|]].
    + intros st' m'' H. split; [by rewrite <- app_assoc|done].
    + apply NoDup_app in Hnd as (_ & H & _). intros Hin. apply (H i Hin). by left.
  - split; [apply NoDup_seq|]. split; try done.
    + intros i Hi. rewrite Hst in Hi. by apply elem_of_nil in Hi.
    + intros i Hi. by apply elem_of_nil in Hi.
  - by intros st m' [_ H].
Qed.

(** ** Every run settled *)

Record settled m0 (n : nat) (ch : list nat) m : Prop := {
  se_extends : extends m0 m;
  se_closure : m_closure m = m_closure m0;
  se_located : all_located m;
  se_changed i : i ∈ ch -> rebuilt m0 m i;
  se_kept i : (i < n)%nat -> i ∉ ch -> kept m0 m i;
}.

Lemma rebuilt_extends m0 m m' i : extends m0 m -> rebuilt m m' i -> rebuilt m0 m' i.
Proof.
  intros Hx (g & a & c & es & H1 & H2 & H3 & H4). exists g, a, c, es. split_and!; try done; [by eapply extends_heap_None|apply H4..].
Qed.

(** A run whose group is not touched stays as it is settled. *)
Lemma rebuilt_same m0 m m' i : extends m m' -> m_groups m' !! i = m_groups m !! i -> rebuilt m0 m i -> rebuilt m0 m' i.
Proof.
  intros Hx Hg (g & a & c & es & H1 & H2 & H3 & H4 & H5). exists g, a, c, es. rewrite Hg. split_and!; try done; [|apply H5..].
  eapply lookup_weaken; [done|by apply ex_heap].
Qed.

Lemma kept_same m0 m m' i : m_groups m' !! i = m_groups m !! i -> kept m0 m i -> kept m0 m' i.
Proof. intros Hg (g & a & H). exists g, a. by rewrite Hg. Qed.

Lemma settled_rebuild m0 n ch m idx m' : settled m0 n ch m -> rebuilding m idx m' -> settled m0 n (ch ++ idx) m'.
Proof.
  intros [Hx Hc Hl Hch Hk] [Rx Rc Rl Rd Ro _ _]. split; [by etrans|congruence|done| |].
  - intros i Hi. destruct (decide (i ∈ idx)) as [Hin|Hnin]; [eapply rebuilt_extends; [done|by apply Rd]|].
    apply elem_of_app in Hi as [Hi|Hi]; [|done]. eapply rebuilt_same; [done|by apply Ro|by apply Hch].
  - intros i Hi Hn. eapply kept_same; [apply Ro|apply Hk]; set_solver.
Qed.

Lemma planning_settled m0 n st m m' : planning m0 (seq 0 n) st m -> rebuilding m (changed st) m' -> settled m0 n (changed st) m'.
Proof.
  intros [Hx Hc Hh Hl Hch Hk] [Rx Rc Rl Rd Ro _ _]. split; [by etrans|congruence|done| |].
  - intros i Hi. eapply rebuilt_extends; [done|by apply Rd].
  - intros i Hi Hn. eapply kept_same; [by apply Ro|apply Hk; [|done]]. apply elem_of_seq. lia.
Qed.

Lemma planning_world m0 done st m w : planning m0 done st m -> planning m0 done st (set_world m w).
Proof. intros [Hx Hc Hh Hl Hch Hk]. split; try done. by etrans; [|apply extends_world]. Qed.

Lemma settled_world m0 n ch m w : settled m0 n ch m -> settled m0 n ch (set_world m w).
Proof. intros [Hx Hc Hl Hch Hk]. split; try done. by etrans; [|apply extends_world]. Qed.

(** Loops that only read. *)
Lemma wp_read {A St} (E : machine W -> Prop) (f : A -> St -> proc (machine W) St) l st m (Q : St -> machine W -> Prop) :
  (forall x st, wp E (f x st) (fun _ m' => m' = m) m) -> (forall st, Q st m) -> wp E (p_fold f l st) Q m.
Proof.
  intros Hf HQ. apply wp_fold with (I := fun _ _ _ m' => m' = m); [|done|].
  - intros _ x _ st' m' ->. apply Hf.
  - intros st' m' ->. apply HQ.
Qed.

Lemma demand_runs_read E indices m : E m ->
  wp E (p_fold demand_run indices []) (fun runs m' => m' = m /\ Forall2 (asks m) indices runs) m.
Proof.
  intros HE. apply wp_fold with (I := fun done rest runs m' => m' = m /\ Forall2 (asks m) done runs).
  - intros done i rest runs m' [-> Hr]. unfold demand_run. apply wp_bind, wp_group_at; [done|]. intros g Hg.
    apply wp_ret. split; [done|]. apply Forall2_app; [done|]. constructor; [by exists g|done].
  - done.
  - by intros runs m' H.
Qed.

Lemma group_contribution_read E i m : E m -> wp E (group_contribution i) (fun _ m' => m' = m) m.
Proof.
  intros HE. unfold group_contribution. apply wp_bind, wp_group_at; [done|]. intros g _.
  destruct (dg_contribution g); [by apply wp_deref|done].
Qed.

(** A reader followed by a return. *)
Lemma wp_then_ret {A B} E (f : proc (machine W) A) (k : A -> B) m :
  wp E f (fun _ m' => m' = m) m -> wp E (p_bind f (fun a => p_ret (k a))) (fun _ m' => m' = m) m.
Proof. intros H. apply wp_bind. eapply wp_mono; [done| |done]. by intros a m' ->. Qed.

Lemma recompute_spec m0 n st m : planning m0 (seq 0 n) st m ->
  wp (extends m0) (recompute st) (fun st' m' => changed st' = changed st /\ settled m0 n (changed st) m') m.
Proof.
  intros Hp. pose proof (pl_extends _ _ _ _ Hp) as Hx. unfold recompute. destruct (changed st) as [|i0 rest] eqn:Ech.
  { apply wp_ret. split; [done|]. rewrite <- Ech. destruct Hp as [_ Hc _ Hl Hch Hk]. split; try done.
    - intros i Hi. rewrite Ech in Hi. by apply elem_of_nil in Hi.
    - intros i Hi Hn. apply Hk; [apply elem_of_seq; lia|done]. }
  rewrite <- Ech. apply wp_bind. eapply wp_mono; [done| |by apply demand_runs_read]. intros runs ? [-> Hasks].
  apply wp_bind, wp_world_eq; [intros w; by etrans; [|apply extends_world]|]. intros results w Hb.
  pose proof (planning_world _ _ _ _ w Hp) as Hpw. set (mw := set_world m w) in *.
  apply wp_bind. eapply wp_mono; [| |apply (rebuild_spec results (changed st) mw)].
  - intros m' H. etrans; [apply (pl_extends _ _ _ _ Hpw)|done].
  - intros [] m' Hr. pose proof (planning_settled m0 n st mw m' Hpw Hr) as Hs. apply wp_bind.
    apply wp_read; [|intros u; by apply wp_ret].
    intros i u. apply wp_then_ret, group_contribution_read. apply Hs.
  - apply Hpw.
  - intros i Hi. by apply Hpw.
  - by exists (m_world m), w, runs, (mkSemanticScope (union st) (descriptorSeed st)).
Qed.

(** ** The suppression refresh *)

Lemma settled_expand m0 n ch m i g g' : settled m0 n ch m -> m_groups m !! i = Some g -> ensureExpanded g = Ok g' ->
  settled m0 n ch (set_groups m (<[i := g']> (m_groups m))) /\ expanded (set_groups m (<[i := g']> (m_groups m))) i /\
  (forall j, expanded m j -> expanded (set_groups m (<[i := g']> (m_groups m))) j).
Proof.
  intros [Hx Hc Hl Hch Hk] Hg He.
  assert (group_located g) as Hgl by exact (proj1 (Forall_lookup _ _) Hl i g Hg).
  destruct (ensureExpanded_spec g g' Hgl He) as (Hs & Hl' & Hhash & Hcon & Hloc).
  assert (<[i := g']> (m_groups m) !! i = Some g') as Hi by (apply list_lookup_insert_eq; by eapply lookup_lt_Some).
  assert (forall j, i <> j -> <[i := g']> (m_groups m) !! j = m_groups m !! j) as Hj by (intros; by apply list_lookup_insert_ne).
  assert (forall j, j = i \/ i <> j) as Hdec by lia.
  split_and!; [split; simpl|..].
  - etrans; [done|by eapply extends_put].
  - done.
  - by apply all_located_put.
  - intros j Hjc. destruct (Hch j Hjc) as (h & a & c & es & H1 & H2 & H3 & H4 & H5 & H6). destruct (Hdec j) as [->|Hne].
    + rewrite Hg in H1. injection H1 as <-. exists g', a, c, es. simpl. rewrite Hi, Hcon, (sr_path _ _ Hs).
      destruct H6. split_and!; try done. by eapply backend_answer_same.
    + exists h, a, c, es. simpl. by rewrite Hj.
  - intros j Hjn Hjc. destruct (Hk j Hjn Hjc) as (h & a & H1 & H2 & H3 & H4). destruct (Hdec j) as [->|Hne].
    + rewrite Hg in H1. injection H1 as <-. exists g', a. simpl. rewrite Hi, Hcon, (sr_path _ _ Hs). done.
    + exists h, a. simpl. by rewrite Hj.
  - by exists g'.
  - intros j (h & H1 & H2). destruct (Hdec j) as [->|Hne]; [|exists h; simpl; by rewrite Hj].
    by exists g'.
Qed.

(** The run at [i] was expanded, and [run] is what is asked for it. *)
Definition asks_expanded m (i : nat) (run : SemanticDemandRun) : Prop :=
  asks m i run /\ forall g, m_groups m !! i = Some g -> ensureExpanded g = Ok g.

Lemma asks_expanded_keep m i j g g' run : m_groups m !! j = Some g -> ensureExpanded g = Ok g' ->
  asks_expanded m i run -> asks_expanded (set_groups m (<[j := g']> (m_groups m))) i run.
Proof.
  intros Hj He [(h & Hh & ->) Hf]. destruct (decide (i = j)) as [->|Hne].
  - assert (g = h) as -> by congruence. assert (g' = h) as -> by (specialize (Hf h Hh); congruence).
    unfold asks_expanded, asks. simpl. rewrite list_insert_id by done. split; [by exists h|done].
  - unfold asks_expanded, asks. simpl. rewrite list_lookup_insert_ne by done. split; [by exists h|done].
Qed.

Lemma asks_expanded_new m i g g' : m_groups m !! i = Some g -> ensureExpanded g = Ok g' ->
  asks_expanded (set_groups m (<[i := g']> (m_groups m))) i (mkSemanticDemandRun (dg_path g') (default [] (dg_demands g'))).
Proof.
  intros Hi He. unfold asks_expanded, asks. simpl. rewrite list_lookup_insert_eq by (by eapply lookup_lt_Some).
  split; [by exists g'|]. intros h [= <-]. by eapply ensureExpanded_twice.
Qed.

Lemma expand_runs_spec m0 n ch m idx : settled m0 n ch m ->
  wp (extends m0) (p_fold expanded_run idx [])
    (fun runs m' => settled m0 n ch m' /\ (forall i, i ∈ idx -> expanded m' i) /\ Forall2 (asks m') idx runs) m.
Proof.
  intros Hs. apply wp_fold with (I := fun done rest runs m' => settled m0 n ch m' /\ (forall i, i ∈ done -> expanded m' i) /\
    Forall2 (asks_expanded m') done runs).
  - intros done i rest runs m' (Hm & Hd & Ha). unfold expanded_run. apply wp_bind, wp_expand; [apply Hm|].
    intros g g' Hg He. apply wp_ret. destruct (settled_expand m0 n ch m' i g g' Hm Hg He) as (H1 & H2 & H3).
    split_and!; [done| |].
    + intros j [Hj|Hj%list_elem_of_singleton]%elem_of_app; [by apply H3, Hd|by subst].
    + apply Forall2_app.
      * eapply Forall2_impl; [exact Ha|]. intros j run. by eapply asks_expanded_keep.
      * constructor; [by eapply asks_expanded_new|done].
  - split_and!; [done|intros i Hi; by apply elem_of_nil in Hi|done].
  - intros runs m' (H1 & H2 & H3). split_and!; [done|done|]. eapply Forall2_impl; [exact H3|]. by intros ?? [? _].
Qed.

Lemma refresh_spec m0 n st m : settled m0 n (changed st) m ->
  wp (extends m0) (refresh_suppressed st) (fun '(st', _) m' => settled m0 n (changed st') m') m.
Proof.
  intros Hs. unfold refresh_suppressed. apply wp_bind, wp_get.
  destruct (lastSuppression (m_closure m)) as [last|]; [|by apply wp_ret].
  destruct (symbolSetsEqual _ _); [by apply wp_ret|].
  set (refresh := refresh_indices _ _ _ _). apply wp_bind.
  eapply wp_mono; [done| |by eapply expand_runs_spec]. intros runs m1 (Hs1 & Hex & Hasks).
  destruct refresh as [|i0 rest] eqn:Er; [by apply wp_ret|]. rewrite <- Er in *. clear Er.
  apply wp_bind, wp_world_eq; [intros w; etrans; [apply Hs1|apply extends_world]|]. intros results w Hb.
  pose proof (settled_world _ _ _ _ w Hs1) as Hsw. apply wp_bind.
  eapply wp_mono; [| |apply (rebuild_spec results refresh (set_world m1 w))].
  - intros m' H. etrans; [apply Hsw|done].
  - intros [] m' Hr. apply wp_ret. simpl. by eapply settled_rebuild.
  - apply Hsw.
  - intros i Hi. by apply Hex.
  - by exists (m_world m1), w, runs, (mkSemanticScope (union st) ∅).
Qed.
End Steps.
