(* ===== verification/DemandEdits.v ===== *)
(** * Demand transactions around a materialization

    Between the begin of a demand transaction and its end the closure works on
    the runs in place. What a session relies on: the edited runs are ordered
    and located, every run that is gone or new is named, and a rollback gives
    back runs that demand what the old ones did. *)

From S2P Require Import Prelude GoStd GoText SortedPaths StringTable Model CompactDemands DemandGroup SessionDemands MaterializeSpec.

Definition run_clean (g : demandGroup) : Prop := Clean (dg_path g) = dg_path g.

Record edited (gs0 : list demandGroup) (reset : bool) (gs : list demandGroup) (t : retainedDemandTransaction) : Prop := {
  ed_sorted : keys_sorted dg_path gs;
  ed_located : Forall group_located gs0 -> Forall group_located gs;
  ed_clean : Forall run_clean gs0 -> Forall run_clean gs;
  ed_rollback gs' : Forall2 same_run gs gs' -> Forall2 same_run gs0 (groups (rollback (mkDemandStore gs', t)).1);
  ed_named p : reset = false -> p ∈ map dg_path gs0 -> p ∉ map dg_path gs -> p ∈ changedPaths t;
  ed_reset g : reset = true -> g ∈ gs -> dg_path g ∈ changedPaths t;
  ed_same p : reset = false -> p ∉ changedPaths t -> find_key dg_path gs p = find_key dg_path gs0 p;
  ed_changed_clean p : p ∈ changedPaths t -> Clean p = p;
}.

(** ** Undoing on runs that were worked on *)

Lemma same_runs_insert i x gs gs' : Forall2 same_run gs gs' -> Forall2 same_run (slice_insert i x gs) (slice_insert i x gs').
Proof. intros H. unfold slice_insert. apply Forall2_app; [by apply Forall2_take|]. constructor; [done|by apply Forall2_drop]. Qed.

Lemma same_runs_remove i gs gs' : Forall2 same_run gs gs' -> Forall2 same_run (slice_remove i gs) (slice_remove i gs').
Proof. intros H. unfold slice_remove. apply Forall2_app; [by apply Forall2_take|by apply Forall2_drop]. Qed.

Lemma undo_step_same u gs gs' : Forall2 same_run gs gs' -> Forall2 same_run (undo_step gs u) (undo_step gs' u).
Proof.
  intros H. destruct u as [i x|i|i x]; simpl.
  - by apply Forall2_insert.
  - by apply same_runs_remove.
  - by apply same_runs_insert.
Qed.

Lemma undo_steps_same us gs gs' : Forall2 same_run gs gs' -> Forall2 same_run (foldl undo_step gs us) (foldl undo_step gs' us).
Proof. revert gs gs'. induction us as [|u us IH]; intros gs gs' H; [done|]. simpl. apply IH. by apply undo_step_same. Qed.

Lemma rollback_same st gs' : finished st.2 = false -> Forall2 same_run (groups st.1) gs' ->
  Forall2 same_run (groups (rollback st).1) (groups (rollback (mkDemandStore gs', st.2)).1).
Proof.
  destruct st as [s t]. unfold rollback. simpl. intros Hf H. rewrite Hf. destruct (tx_reset t); simpl; rewrite ?Hf; simpl.
  - apply reflexivity.
  - by apply undo_steps_same.
Qed.

(** ** Beginning *)

Lemma last_run_elem runs p g : last_run runs p = Some g -> g ∈ runs /\ dg_path g = p.
Proof. unfold last_run. intros H. apply last_Some_elem_of, list_elem_of_filter in H. tauto. Qed.

Lemma beginRuns_edited s runs removed reset : keys_sorted dg_path (groups s) ->
  Forall group_located runs -> Forall run_clean runs ->
  let '(s', t) := beginRuns s runs removed reset in edited (groups s) reset (groups s') t.
Proof.
  intros Hs Hl Hc. destruct (beginRuns s runs removed reset) as [s' t] eqn:E.
  pose proof (beginRuns_undoes s runs removed reset) as (_ & Hch & _ & _ & _ & Hf).
  pose proof (rollback_beginRuns_eq s runs removed reset) as Hroll.
  assert (forall p, runs_ok s' /\ find_key dg_path (groups s') p =
    if decide (p ∈ map Clean removed) then None
    else match last_run runs p with Some g => Some g | None => if reset then None else find_key dg_path (groups s) p end) as Hfind.
  { intros p. pose proof (beginRuns_find s runs removed reset p Hs) as H. by rewrite E in H. }
  rewrite E in Hch, Hf, Hroll. simpl in Hch, Hf, Hroll.
  assert (forall p, p ∈ changedPaths t <-> p ∈ map dg_path runs \/ p ∈ map Clean removed) as Hnamed.
  { intros p. rewrite Hch. destruct (compact_sorted_spec (map dg_path runs ++ map Clean removed)) as [_ He]. by rewrite He, elem_of_app. }
  assert (keys_sorted dg_path (groups s')) as Hs' by by destruct (Hfind "").
  assert (forall g, g ∈ groups s' -> g ∈ runs \/ reset = false /\ g ∈ groups s) as Hfrom.
  { intros g Hg. destruct (Hfind (dg_path g)) as [_ H].
    assert (find_key dg_path (groups s') (dg_path g) = Some g) as Hk by by apply find_key_spec.
    rewrite Hk in H. destruct (decide _); [done|]. destruct (last_run runs (dg_path g)) as [g'|] eqn:El.
    - injection H as <-. apply last_run_elem in El as [? _]. by left.
    - destruct reset; [done|]. right. split; [done|]. symmetry in H. by apply find_key_spec in H as [? _]. }
  split; [done| | | | | | |].
  - intros H0. apply Forall_forall. intros g Hg. rewrite Forall_forall in Hl, H0. destruct (Hfrom g Hg) as [?|[_ ?]]; auto.
  - intros H0. apply Forall_forall. intros g Hg. rewrite Forall_forall in Hc, H0. destruct (Hfrom g Hg) as [?|[_ ?]]; auto.
  - intros gs' Hsame. rewrite <- Hroll. by apply (rollback_same (s', t)).
  - intros p -> Hin Hout. apply Hnamed. destruct (Hfind p) as [_ H].
    destruct (decide (p ∈ map Clean removed)) as [|_]; [by right|].
    assert (find_key dg_path (groups s') p = None) as Hn by by apply find_key_None. rewrite Hn in H.
    destruct (last_run runs p) as [g|]; [done|]. symmetry in H. by apply find_key_None in H.
  - intros g -> Hg. apply Hnamed. left. destruct (Hfrom g Hg) as [?|[? _]]; [by apply list_elem_of_fmap_2|done].
  - intros p -> Hp. destruct (Hfind p) as [_ ->]. rewrite Hnamed in Hp.
    rewrite decide_False by tauto. destruct (last_run runs p) as [g|] eqn:El; [|done]. apply last_run_elem in El as [Hg <-].
    destruct Hp. left. by apply list_elem_of_fmap_2.
  - intros p [Hp|Hp]%Hnamed; apply list_elem_of_fmap in Hp as (x & -> & Hx); [|apply Clean_idempotent].
    rewrite Forall_forall in Hc. by apply Hc.
Qed.

Lemma canonical_groups_ok changes : Forall group_located (canonical_groups (grouped_runs changes)) /\
  Forall run_clean (canonical_groups (grouped_runs changes)).
Proof.
  unfold canonical_groups, grouped_runs. rewrite map_map. split; apply Forall_map, Forall_forall; intros p Hp;
    rewrite (proj2 (sortUnique_spec _)) in Hp; apply list_elem_of_fmap in Hp as (d & -> & _); simpl.
  - intros ds [= <-]. split; [|done]. simpl. unfold demand_path. rewrite Clean_idempotent. rewrite canonicalDemandRun_value by (apply clean_true, Clean_idempotent).
    unfold located. rewrite sort_slice_perm. apply Forall_map, Forall_forall. intros x Hx.
    unfold demands_of in Hx. apply list_elem_of_filter in Hx as [Hx _]. destruct x. exact Hx.
  - unfold run_clean. simpl. by rewrite !Clean_idempotent.
Qed.

Lemma begin_edited `{MR : !MapRange} s changes removed reset : keys_sorted dg_path (groups s) ->
  let '(s', t) := begin s changes removed reset in edited (groups s) reset (groups s') t.
Proof.
  intros Hs. unfold begin. cbv zeta. rewrite sessionChangedDemandRuns_eq. destruct (canonical_groups_ok changes) as [H1 H2].
  by apply beginRuns_edited.
Qed.

Lemma compact_runs_ok strings gs runs : compact_runs strings gs = Ok runs -> Forall group_located runs /\ Forall run_clean runs.
Proof.
  revert runs. induction gs as [|g gs IH]; intros runs; simpl; [by intros [= <-]|]. intros H. result_solve.
  destruct (IH _ H1) as [H1' H2']. split; constructor; try done. unfold run_clean. simpl. apply Clean_idempotent.
Qed.

Lemma beginCompact_edited s compact removed reset st : keys_sorted dg_path (groups s) ->
  beginCompact s compact removed reset = Ok st -> edited (groups s) reset (groups st.1) st.2.
Proof.
  intros Hs. unfold beginCompact. intros (runs & Hr & H)%result_bind_ok. destruct (adjacent_duplicate _); [done|].
  injection H as <-. apply compact_runs_ok in Hr as [H1 H2].
  set (runs' := sort_slice _ runs). pose proof (beginRuns_edited s runs' removed reset Hs) as H.
  destruct (beginRuns s runs' removed reset). apply H; unfold runs'; by rewrite sort_slice_perm.
Qed.

(** ** Transactions that change nothing *)

Lemma compact_sorted_nil l : compactSortedPaths (sort_Strings l) = [] -> l = [].
Proof.
  intros H. destruct l as [|x l]; [done|]. destruct (compact_sorted_spec (x :: l)) as [_ He]. rewrite H in He.
  specialize (He x). set_solver.
Qed.

Lemma beginRuns_unchanged s runs removed reset : changedPaths (beginRuns s runs removed reset).2 = [] -> runs = [] /\ removed = [].
Proof.
  destruct (beginRuns_undoes s runs removed reset) as (_ & -> & _). intros H%compact_sorted_nil.
  apply app_eq_nil in H as [H1 H2]. by apply map_eq_nil in H1, H2.
Qed.

Lemma begin_unchanged `{MR : !MapRange} s changes removed reset :
  changedPaths (begin s changes removed reset).2 = [] -> changes = [] /\ removed = [].
Proof.
  unfold begin. cbv zeta. intros [H1 H2]%beginRuns_unchanged. split; [|done]. apply map_eq_nil in H1.
  rewrite sessionChangedDemandRuns_eq in H1. unfold grouped_runs in H1. apply map_eq_nil in H1.
  destruct changes as [|d changes]; [done|]. destruct (sortUnique_spec (map demand_path (d :: changes))) as [_ He].
  rewrite H1 in He. specialize (He (demand_path d)). set_solver.
Qed.

Lemma compact_runs_length strings gs runs : compact_runs strings gs = Ok runs -> length runs = length gs.
Proof.
  revert runs. induction gs as [|g gs IH]; intros runs; simpl; [by intros [= <-]|]. intros H. result_solve. by rewrite (IH _ H1).
Qed.

Lemma beginCompact_unchanged s compact removed reset st : beginCompact s compact removed reset = Ok st ->
  changedPaths st.2 = [] -> Groups compact = [] /\ removed = [].
Proof.
  unfold beginCompact. intros (runs & Hr & H)%result_bind_ok. destruct (adjacent_duplicate _); [done|].
  injection H as <-. intros [H1 H2]%beginRuns_unchanged. split; [|done]. apply compact_runs_length in Hr.
  pose proof (sort_slice_perm (key_less dg_path) runs) as Hp. rewrite H1 in Hp. apply Permutation_nil_l in Hp. subst.
  by destruct (Groups compact).
Qed.
