(* ===== verification/MaterializeTable.v ===== *)
(** * The table a materialization builds

    A materialized table is well-formed, carries at every path exactly the rows
    its run's contribution still holds, and names in its manifest every path
    whose rows were computed anew. *)

From S2P Require Import Prelude GoStd GoText GoSha SortedPaths Model CompactDemands DemandGroup Contributions ContributionStore FactTable TransportManifest SessionDemands Proc Closure Materialize MaterializeSpec.
Open Scope Z_scope.

(** ** Lists by index *)

Lemma omap_seq {A B} (f : A -> option B) (l : list A) : omap (fun i => l !! i ≫= f) (seq 0 (length l)) = omap f l.
Proof.
  induction l as [|x l IH] using rev_ind; [done|]. rewrite length_app, Nat.add_1_r, seq_S, !omap_app. simpl. f_equal.
  - rewrite <- IH. apply list_omap_ext. apply Forall2_same_length_lookup_2; [done|]. intros i j k Hj Hk.
    assert (j = k) as <- by congruence. apply lookup_seq in Hj as [-> Hlt]. simpl. by rewrite lookup_app_l.
  - by rewrite lookup_app_r, Nat.sub_diag by lia.
Qed.

(** ** Canonical path lists *)

Lemma canonical_paths_sorted what previous paths : canonical_paths what previous paths = Ok tt ->
  StronglySorted slt paths /\ (forall p, previous = Some p -> Forall (slt p) paths).
Proof.
  revert previous. induction paths as [|path paths IH]; intros previous; simpl; [by repeat constructor|].
  destruct (_ || _); [done|]. destruct previous as [q|].
  - destruct (String.ltb q path) eqn:El; [|done]. cbn [negb]. intros H. destruct (IH _ H) as [H1 H2].
    specialize (H2 path eq_refl). split; [by constructor|]. intros p [= <-]. constructor; [done|].
    eapply Forall_impl; [exact H2|]. intros x Hx. by etrans.
  - intros H. destruct (IH _ H) as [H1 H2]. split; [constructor; auto|done].
Qed.

(** ** What the runs hold *)

Definition group_rows {W} (m : machine W) (g : demandGroup) : list EntityFact :=
  match dg_contribution g ≫= fun a => m_heap m !! a with Some c => default [] (c_entities c) | None => [] end.

(** The rows held at a path. *)
Definition rows_held_at {W} (m : machine W) (path : string) : list EntityFact :=
  match find_key dg_path (m_groups m) path with Some g => group_rows m g | None => [] end.

Definition some_rows (es : list EntityFact) : option (list EntityFact) := match es with [] => None | _ => Some es end.

Definition present_runs {W} (m : machine W) (gs : list demandGroup) : list (list EntityFact) :=
  omap (fun g => some_rows (group_rows m g)) gs.

Definition rows_located {W} (m : machine W) (g : demandGroup) : Prop :=
  Forall (fun e => entity_path e = dg_path g) (group_rows m g).

Lemma present_runs_spec {W} (m : machine W) gs : keys_sorted dg_path gs -> Forall (rows_located m) gs ->
  keys_sorted run_path (present_runs m gs) /\ Forall run_ok (present_runs m gs) /\
  (forall r, r ∈ present_runs m gs -> exists g, g ∈ gs /\ run_path r = dg_path g /\ group_rows m g = r) /\
  (forall g, g ∈ gs -> group_rows m g <> [] -> group_rows m g ∈ present_runs m gs).
Proof.
  intros Hs Hl. induction gs as [|g gs IH]; simpl.
  { split_and!; [apply keys_sorted_nil|constructor|by intros r Hr%elem_of_nil|by intros g Hg%elem_of_nil]. }
  apply keys_sorted_cons in Hs as [Hs Hg]. apply Forall_cons in Hl as [Hlg Hl].
  destruct (IH Hs Hl) as (H1 & H2 & H3 & H4). unfold some_rows. unfold rows_located in Hlg.
  destruct (group_rows m g) as [|e es] eqn:Er.
  - split_and!; [done|done|intros r Hr; destruct (H3 r Hr) as (g' & ? & ?); exists g'; set_solver|].
    intros g' [->|Hg']%elem_of_cons Hne; [done|by apply H4].
  - assert (run_path (e :: es) = dg_path g) as Hp by by apply Forall_cons in Hlg as [? _].
    split_and!.
    + apply keys_sorted_cons. split; [done|]. apply Forall_forall. intros r Hr. destruct (H3 r Hr) as (g' & Hg' & -> & _).
      rewrite Hp. rewrite Forall_forall in Hg. by apply Hg.
    + constructor; [|done]. split; [done|]. rewrite Hp. done.
    + intros r [->|Hr]%elem_of_cons; [exists g; set_solver|]. destruct (H3 r Hr) as (g' & ? & ?). exists g'. set_solver.
    + intros g' [->|Hg']%elem_of_cons Hne; [rewrite Er; by left|right; by apply H4].
Qed.

(** Looking a path up among the runs that have rows. *)
Lemma present_runs_find {W} (m : machine W) gs path : keys_sorted dg_path gs -> Forall (rows_located m) gs ->
  default [] (find_key run_path (present_runs m gs) path) =
  match find_key dg_path gs path with Some g => group_rows m g | None => [] end.
Proof.
  intros Hs Hl. destruct (present_runs_spec m gs Hs Hl) as (H1 & _ & H3 & H4).
  destruct (find_key dg_path gs path) as [g|] eqn:Eg.
  - apply find_key_spec in Eg as [Hg Hp]; [|done]. destruct (group_rows m g) as [|e es] eqn:Er.
    + destruct (find_key run_path _ path) as [r|] eqn:E; [|done]. exfalso.
      apply find_key_spec in E as [Hr Hrp]; [|done]. destruct (H3 r Hr) as (g' & Hg' & Hp' & Hr').
      assert (find_key dg_path gs path = Some g) as F1 by (by apply find_key_spec).
      assert (find_key dg_path gs path = Some g') as F2 by (apply find_key_spec; [done|]; split; [done|congruence]).
      rewrite F1 in F2. injection F2 as <-. rewrite Er in Hr'. subst r.
      destruct (present_runs_spec m gs Hs Hl) as (_ & H2 & _). rewrite Forall_forall in H2. by destruct (H2 _ Hr).
    + assert (find_key run_path (present_runs m gs) path = Some (e :: es)) as ->; [|done].
      apply find_key_spec; [done|]. rewrite <- Er. split; [apply H4; [done|by rewrite Er]|].
      rewrite Forall_forall in Hl. specialize (Hl g Hg). unfold rows_located in Hl. rewrite Er in *.
      apply Forall_cons in Hl as [Hl _]. simpl. congruence.
  - destruct (find_key run_path _ path) as [r|] eqn:E; [|done]. exfalso.
    apply find_key_spec in E as [Hr Hrp]; [|done]. destruct (H3 r Hr) as (g' & Hg' & Hp' & Hr').
    apply find_key_None in Eg; [|done]. apply Eg. apply list_elem_of_fmap. exists g'. split; [congruence|done].
Qed.

(** ** The table *)

Section Table.
Context `{MR : !MapRange} `{MH : !Maphash} {W : Type} `{BE : !ClosureBackend W}.
Implicit Types m : machine W.

(** A stored contribution that still has its rows has them at its path. *)
Definition stored_located m : Prop :=
  forall path a c, contribution_get (retained (m_closure m)) path = Some a -> m_heap m !! a = Some c ->
    Forall (fun e => entity_path e = path) (default [] (c_entities c)).

Lemma settled_rows_located m0 ch m : stored_located m0 -> settled m0 (length (m_groups m)) ch m ->
  Forall (rows_located m) (m_groups m).
Proof.
  intros Hst [Hx Hc Hl Hch Hk]. apply Forall_lookup. intros i g Hg. unfold rows_located, group_rows.
  destruct (decide (i ∈ ch)) as [Hin|Hn].
  - destruct (Hch i Hin) as (g' & a & c & es & H1 & H2 & H3 & H4 & H5 & H6 & _). rewrite Hg in H1. injection H1 as <-.
    rewrite H2. simpl. rewrite H4. by rewrite H5.
  - destruct (Hk i) as (g' & a & H1 & H2 & [c Hca] & H4); [by eapply lookup_lt_Some|done|].
    rewrite Hg in H1. injection H1 as <-. rewrite H2. simpl.
    rewrite (lookup_weaken _ _ _ _ Hca (ex_heap _ _ Hx)). by eapply Hst.
Qed.

Lemma append_run_value i runs m g a c : m_groups m !! i = Some g -> dg_contribution g = Some a -> m_heap m !! a = Some c ->
  append_run i runs m = (m, Ok (runs ++ option_list (some_rows (group_rows m g)))).
Proof.
  intros Hg Ha Hc. assert (group_contribution i m = (m, Ok c)) as E.
  { unfold group_contribution, p_bind, group_at. rewrite Hg. rewrite Ha. unfold deref. by rewrite Hc. }
  unfold append_run, p_bind. rewrite E. unfold p_ret, group_rows, some_rows. rewrite Ha. simpl. rewrite Hc.
  destruct (default [] (c_entities c)); simpl; [by rewrite app_nil_r|done].
Qed.

Lemma append_runs_spec m0 ch m E : settled m0 (length (m_groups m)) ch m -> E m ->
  wp E (p_fold append_run (seq 0 (length (m_groups m))) []) (fun runs m' => m' = m /\ runs = present_runs m (m_groups m)) m.
Proof.
  intros [Hx Hc Hl Hch Hk] HE.
  set (f := fun i => m_groups m !! i ≫= fun g => some_rows (group_rows m g)).
  apply wp_fold with (I := fun done rest runs m' => (forall i, i ∈ rest -> (i < length (m_groups m))%nat) /\
    m' = m /\ runs = omap f done).
  - intros done i rest runs m' (Hr & -> & ->).
    destruct (lookup_lt_is_Some_2 (m_groups m) i) as [g Hg]; [apply Hr; by left|].
    assert (exists a c, dg_contribution g = Some a /\ m_heap m !! a = Some c) as (a & c & Ha & Hcc).
    { destruct (decide (i ∈ ch)) as [Hin|Hn].
      - destruct (Hch i Hin) as (g' & a & c & es & H1 & H2 & H3 & H4 & _). exists a, c. by simplify_eq.
      - destruct (Hk i) as (g' & a & H1 & H2 & [c Hca] & _); [by eapply lookup_lt_Some|done|].
        exists a, c. simplify_eq. split; [done|]. by eapply lookup_weaken; [|apply ex_heap]. }
    unfold wp. rewrite (append_run_value i _ m g a c) by done. split; [intros j Hj; apply Hr; by right|]. split; [done|].
    assert (f i = some_rows (group_rows m g)) as Hf by (unfold f; by rewrite Hg).
    rewrite omap_app. cbn [omap list_omap]. rewrite Hf. by destruct (some_rows (group_rows m g)).
  - split; [|done]. intros i Hi%elem_of_seq. lia.
  - intros runs m' (_ & -> & ->). split; [done|]. unfold present_runs, f. apply omap_seq.
Qed.

(** The file rows follow the digests. *)
Lemma file_rows_spec m byPath digests :
  wp (extends m) (p_fold (file_row byPath) digests [])
    (fun files m' => extends m m' /\ m_groups m' = m_groups m /\ m_heap m' = m_heap m /\ m_closure m' = m_closure m /\
       map ff_Path files = map dig_Path digests) m.
Proof.
  apply wp_fold with (I := fun done rest files m' => extends m m' /\ m_groups m' = m_groups m /\ m_heap m' = m_heap m /\
    m_closure m' = m_closure m /\ map ff_Path files = map dig_Path done); [|done|done].
  intros done d rest files m' (Hx & Hg & Hh & Hc & Hf). unfold file_row. apply wp_bind, wp_world.
  - intros w. by etrans; [|apply extends_world].
  - intros [] w. apply wp_ret. split_and!; try done; [by etrans; [|apply extends_world]|].
    by rewrite !map_app, Hf.
Qed.

Lemma async_functions_spec m runs :
  wp (extends m) (async_functions runs)
    (fun _ m' => extends m m' /\ m_groups m' = m_groups m /\ m_heap m' = m_heap m /\
       exists files, m_closure m' = set_asyncFiles (m_closure m) files) m.
Proof.
  unfold async_functions. apply wp_bind. unfold get_closure, wp at 1. cbv zeta.
  apply wp_bind, wp_world; [intros; apply extends_world|]. intros refreshed w.
  set (st := foldl _ no_selection runs). set (cross := existsb _ _).
  assert (forall all w', wp (extends m)
    (let '(st, refreshed) := all in
     let byPath := foldl (fun byPath path => <[path := []]> byPath) (asyncByPath st) (range_set (refreshAsyncPaths st)) in
     let byPath := refreshed ∪ byPath in
     let '(next, cacheable) := foldl (cache_run byPath) (∅, true) runs in
     modify_closure (fun p => set_asyncFiles p (if cacheable && negb cross then Some next else None)) ;!
     p_ret (byPath, reusedAsync st, Z.of_nat (size (refreshAsyncPaths st))))
    (fun _ m' => extends m m' /\ m_groups m' = m_groups m /\ m_heap m' = m_heap m /\
       exists files, m_closure m' = set_asyncFiles (m_closure m) files) (set_world m w')) as Hend.
  { intros [st' refreshed'] w'. cbv zeta. destruct (foldl (cache_run _) _ runs) as [next cacheable].
    apply wp_bind. unfold modify_closure. apply wp_modify, wp_ret. split_and!; [|done|done|by eexists].
    split; [|done|done]. exists (recyclableTable (m_closure m)). eexists. simpl. by destruct (m_closure m). }
  apply wp_bind. destruct (cross && _).
  - apply wp_bind, wp_world; [intros w'; exact (extends_world m w')|]. intros refreshed' w'. apply wp_ret. exact (Hend (_, _) w').
  - apply wp_ret. exact (Hend (_, _) w).
Qed.

Lemma semanticSourceDigests_spec E m : (forall w, E (set_world m w)) ->
  wp E (in_world semanticSourceDigests)
    (fun digests m' => (exists w, m' = set_world m w) /\ keys_sorted dig_Path digests) m.
Proof.
  intros HE. unfold wp, in_world, p_zoom, semanticSourceDigests.
  destruct SourceDigests as [compact|]; unfold p_bind, p_lift, p_ret.
  - destruct (compact (m_world m)) as [w [ds|e]]; [|done].
    destruct (canonical_paths _ _ _) as [[]|e] eqn:Ec; [|done]. split; [by exists w|].
    by apply canonical_paths_sorted in Ec as [? _].
  - destruct (bk_SourceFiles (m_world m)) as [w [ss|e]]; [|done].
    destruct (validateCanonicalSourceFiles ss) as [[]|e] eqn:Ec; [|done]. split; [by exists w|].
    apply canonical_paths_sorted in Ec as [H _]. unfold keys_sorted. rewrite map_map. exact H.
Qed.

(** The manifest's paths name every recomputed run, and every path the
    accepted changes named. *)
Lemma manifest_paths_spec m0 n ch m E : settled m0 n ch m -> E m ->
  wp E (manifest_paths ch)
    (fun paths m' => m' = m /\
       (forall i g, i ∈ ch -> m_groups m !! i = Some g -> dg_path g ∈ set_of paths) /\
       (forall s, transportChangedPaths (m_closure m) = Some s -> exists s', paths = Some s' /\ s ⊆ s') /\
       (is_Some paths <-> ch <> [] \/ is_Some (transportChangedPaths (m_closure m))) /\
       (forall p, p ∈ set_of paths -> p ∈ set_of (transportChangedPaths (m_closure m)) \/
          exists i g, i ∈ ch /\ m_groups m !! i = Some g /\ dg_path g = p)) m.
Proof.
  intros Hs HE. unfold manifest_paths. apply wp_bind. unfold get_closure, wp at 1. destruct ch as [|i0 rest] eqn:Ech.
  { apply wp_ret. split_and!; [done|intros i g Hi; by apply elem_of_nil in Hi|intros s Hs'; by exists s|tauto|tauto]. }
  rewrite <- Ech. apply wp_bind.
  apply wp_fold with (I := fun done rest paths m' => m' = m /\
    (forall i g, i ∈ done -> m_groups m !! i = Some g -> dg_path g ∈ paths) /\ set_of (transportChangedPaths (m_closure m)) ⊆ paths /\
    (forall p, p ∈ paths -> p ∈ set_of (transportChangedPaths (m_closure m)) \/
       exists i g, i ∈ done /\ m_groups m !! i = Some g /\ dg_path g = p)).
  - intros done i rest' paths m' (-> & H1 & H2 & H3). unfold changed_path. apply wp_bind, wp_group_at; [done|]. intros g Hg.
    apply wp_ret. split_and!; [done| |set_solver|].
    + intros j h Hj Hh. apply elem_of_app in Hj as [Hj|Hj%list_elem_of_singleton]; [|subst; simplify_eq]; set_solver.
    + intros p Hp. apply elem_of_union in Hp as [Hp%elem_of_singleton|Hp].
      * right. exists i, g. set_solver.
      * destruct (H3 p Hp) as [?|(j & h & Hj & ?)]; [by left|]. right. exists j, h. set_solver.
  - split_and!; [done|intros i g Hi; by apply elem_of_nil in Hi|done|by left].
  - intros paths m' (-> & H1 & H2 & H3). apply wp_ret. split_and!; [done|exact H1| | |exact H3].
    + intros s Hs'. exists paths. rewrite Hs' in H2. done.
    + split; [|by eexists]. intros _. left. by rewrite Ech.
Qed.

(** ** A built generation *)

(** What a successful materialization leaves, [ch] the indices of the runs it
    computed anew. *)
Record built (generation : Z) m0 m (t : FactTable) (ch : list nat) : Prop := {
  bu_heap : m_heap m0 ⊆ m_heap m;
  bu_runs : Forall2 same_run (m_groups m0) (m_groups m);
  bu_located : all_located m;
  bu_fresh i : i ∈ ch -> rebuilt m0 m i;
  bu_kept i : (i < length (m_groups m0))%nat -> i ∉ ch -> kept m0 m i;
  bu_closure : exists files union, m_closure m =
    publish (set_asyncFiles (m_closure m0) files)
      (ContributionStore.commit (m_heap m) (retained (m_closure m0)) (m_groups m)) union
      (next_state_id (nextTableStateID (m_closure m0)));
  bu_ok : table_ok t;
  bu_rows path : wireTransitionEntityPath t path = rows_held_at m path;
  bu_header : Schema t = TypeFactsSchemaVersion /\ Generation t = generation /\
    stateID t = next_state_id (nextTableStateID (m_closure m0));
  bu_manifest : exists paths, transport t = rustOwnedTransportManifest (previousTable (m_closure m0)) paths /\
    (forall i g, i ∈ ch -> m_groups m !! i = Some g -> dg_path g ∈ set_of paths) /\
    (forall s, transportChangedPaths (m_closure m0) = Some s -> exists s', paths = Some s' /\ s ⊆ s') /\
    (is_Some paths <-> ch <> [] \/ is_Some (transportChangedPaths (m_closure m0))) /\
    (forall p, p ∈ set_of paths -> p ∈ set_of (transportChangedPaths (m_closure m0)) \/
       exists i g, i ∈ ch /\ m_groups m !! i = Some g /\ dg_path g = p);
}.

Lemma same_run_sorted gs gs' : Forall2 same_run gs gs' -> keys_sorted dg_path gs -> keys_sorted dg_path gs'.
Proof. intros H. unfold keys_sorted. by assert (dg_path <$> gs' = dg_path <$> gs) as -> by exact (same_runs_paths _ _ H). Qed.

Lemma count_read E n count m : E m ->
  wp E (p_fold count_nonDurable n count) (fun _ m' => m' = m) m.
Proof.
  intros HE. apply wp_read; [|done]. intros i c. apply wp_then_ret, group_contribution_read. done.
Qed.

(** The rows and the well-formedness of the assembled table. *)
Lemma assembled_ok m recycled generation digests files id manifest :
  keys_sorted dg_path (m_groups m) -> Forall (rows_located m) (m_groups m) ->
  keys_sorted dig_Path digests -> map ff_Path files = map dig_Path digests ->
  let t := mkFactTable TypeFactsSchemaVersion generation "semantic-demand" [] [] [] files id manifest None (Some digests)
             None (recycled_runs recycled (m_groups m) (present_runs m (m_groups m))) in
  table_ok t /\ forall path, wireTransitionEntityPath t path = rows_held_at m path.
Proof.
  intros Hs Hl Hd Hf t. destruct (present_runs_spec m (m_groups m) Hs Hl) as (H1 & H2 & _).
  assert (forall path, wireTransitionEntityPath t path = rows_held_at m path) as Hrows.
  { intros path. unfold rows_held_at. rewrite <- present_runs_find by done. unfold wireTransitionEntityPath, t, recycled_runs.
    simpl. destruct (m_groups m); [|done]. by destruct (recycled ≫= entityRuns). }
  split; [|done]. split; simpl; [done|unfold keys_sorted; by assert (ff_Path <$> files = dig_Path <$> digests) as -> by exact Hf| |apply keys_sorted_nil].
  unfold recycled_runs. destruct (m_groups m); [|done]. destruct (recycled ≫= entityRuns); [done|]. constructor.
Qed.

Lemma materialize_body_spec generation m0 :
  all_located m0 -> keys_sorted dg_path (m_groups m0) -> stored_located m0 ->
  wp (extends m0) (materialize_body generation) (fun '(t, _) m => exists ch, built generation m0 m t ch) m0.
Proof.
  intros Hl Hs Hst. unfold materialize_body.
  apply wp_bind. eapply wp_mono; [done| |apply semanticSourceDigests_spec; intros; apply extends_world].
  intros digests ? [[w0 ->] Hdig].
  apply wp_bind, wp_get. cbv zeta. set (recycled := recyclableTable _). apply wp_bind. unfold modify_closure. apply wp_modify.
  set (m1 := set_closure _ _). assert (extends m0 m1) as H01.
  { split; [|done|done]. by exists None, (asyncFiles (m_closure m0)). }
  apply wp_bind, wp_lift. destruct (async_runs _ []) as [runs|e]; [|exact H01].
  apply wp_bind. eapply wp_mono; [| |apply async_functions_spec]; [by intros m' ?; etrans|].
  intros [[byPath ra] rc] m2 (H12 & Hg2 & Hh2 & files2 & Hc2). apply wp_bind.
  eapply wp_mono; [| |apply file_rows_spec]; [by intros m' ?; etrans; [|etrans]|].
  intros files m3 (H23 & Hg3 & Hh3 & Hc3 & Hf). cbv zeta. set (n := length (m_groups _)).
  assert (m_groups m3 = m_groups m0) as Hg30 by (rewrite Hg3, Hg2; done).
  assert (m_heap m3 = m_heap m0) as Hh30 by (rewrite Hh3, Hh2; done).
  assert (n = length (m_groups m3)) as Hn by (unfold n; by rewrite Hg30).
  assert (extends m0 m3) as H03 by (by etrans; [|etrans]).
  apply wp_bind. eapply wp_mono; [| |apply plan_spec; [|done]]; [by intros m' ?; etrans| |unfold all_located; by rewrite Hg30].
  intros st4 m4 Hp4. apply wp_bind. eapply wp_mono; [| |apply (recompute_spec m3 n), Hp4]; [by intros m' ?; etrans|].
  intros st5 m5 [Ech5 Hs5]. rewrite <- Ech5 in Hs5. apply wp_bind.
  eapply wp_mono; [| |apply (refresh_spec m3 n), Hs5]; [by intros m' ?; etrans|].
  intros [st6 refreshed] m6 Hs6. cbv beta iota. assert (extends m0 m6) as H06 by (etrans; [exact H03|apply Hs6]).
  assert (length (m_groups m6) = n) as Hn6 by (by rewrite Hn, <- (extends_length m3 m6) by apply Hs6).
  assert (retained (m_closure m3) = retained (m_closure m0)) as Hr30 by (rewrite Hc3, Hc2; done).
  assert (stored_located m3) as Hst3 by (unfold stored_located; by rewrite Hr30, Hh30).
  apply wp_bind. eapply wp_mono; [done| |by apply (manifest_paths_spec m3 n)].
  intros paths ? (-> & Hnamed & Hold & Hsome & Honly). apply wp_bind. eapply wp_mono; [done| |by apply count_read].
  intros nonDurable ? ->. apply wp_bind. rewrite <- Hn6 in Hs6. fold n. rewrite <- Hn6.
  eapply wp_mono; [done| |by apply (append_runs_spec m3 (changed st6))]. intros runs6 ? [-> ->].
  apply wp_bind, wp_get. cbv zeta. apply wp_bind, wp_modify, wp_ret. cbn [m_closure m_heap m_groups set_closure].
  assert (m_closure m6 = set_asyncFiles (set_tables (m_closure m0) (table (m_closure m0)) (previousTable (m_closure m0)) None
    (transportChangedPaths (m_closure m0))) files2) as Hc6 by (rewrite (se_closure _ _ _ _ Hs6), Hc3, Hc2; done).
  pose proof (settled_rows_located m3 _ m6 Hst3 Hs6) as Hrl.
  assert (keys_sorted dg_path (m_groups m6)) as Hsorted by (eapply same_run_sorted; [apply H06|done]).
  destruct (assembled_ok m6 recycled generation digests files (next_state_id (nextTableStateID (m_closure m6)))
    (rustOwnedTransportManifest (previousTable (m_closure m6)) paths) Hsorted Hrl Hdig Hf) as [Hok Hrows].
  exists (changed st6). split; try done.
  - apply H06.
  - apply H06.
  - apply Hs6.
  - intros i Hi. destruct (se_changed _ _ _ _ Hs6 i Hi) as (g & a & c & es & H1 & H2 & H3 & H4). rewrite Hh30 in H3.
    exists g, a, c, es. done.
  - intros i Hi Hni. destruct (se_kept _ _ _ _ Hs6 i) as (g & a & H1 & H2 & H3 & H4); [by rewrite Hn6|done|].
    rewrite Hh30 in H3. rewrite Hr30 in H4. by exists g, a.
  - exists files2, (union st6). simpl. rewrite Hc6. by destruct (m_closure m0).
  - split_and!; [done..|]. simpl. by rewrite Hc6.
  - exists paths. simpl. rewrite Hc6 in Hold, Hsome, Honly. split_and!; [by rewrite Hc6|exact Hnamed|exact Hold|exact Hsome|exact Honly].
Qed.
End Table.
