(* ===== verification/ClosureSpec.v ===== *)
(** * The demand closure between tables

    The state a session can leave its closure in, and what each call of the
    closure does to it: an accepted update forgets exactly the contributions
    the next manifest must name, and a demand table is either the one at hand
    or a new generation built from the runs. *)

From S2P Require Import Prelude GoStd GoText GoSha SortedPaths Model CompactDemands DemandGroup Contributions ContributionStore FactTable TransportManifest SessionDemands Proc Closure Materialize MaterializeSpec MaterializeTable.
Open Scope Z_scope.

Section Spec.
Context `{MR : !MapRange} `{MH : !Maphash} {W : Type} `{BE : !ClosureBackend W}.
Implicit Types m : machine W.

(** What holds of the closure and the runs whatever happened. *)
Record machine_ok m : Prop := {
  mo_store : store_ok (m_heap m) (retained (m_closure m));
  mo_alloc : allocated (m_heap m) (retained (m_closure m));
  mo_located : all_located m;
  mo_sorted : keys_sorted dg_path (m_groups m);
  mo_rows : stored_located m;
  mo_unnamed path : path ∈ set_of (transportChangedPaths (m_closure m)) ->
    contribution_get (retained (m_closure m)) path = None;
  mo_built : is_Some (table (m_closure m)) ->
    transportChangedPaths (m_closure m) = None /\ previousTable (m_closure m) = None;
  mo_clean : Forall (fun g => Clean (dg_path g) = dg_path g) (m_groups m);
  mo_named_clean path : path ∈ set_of (transportChangedPaths (m_closure m)) \/
    is_Some (contribution_get (retained (m_closure m)) path) -> Clean path = path;
}.

Lemma machine_ok_world m w : machine_ok m -> machine_ok (set_world m w).
Proof. by intros []. Qed.

(** The store and the contributions grow apart from each other safely. *)
Lemma stored_weaken m m' : store_ok (m_heap m) (retained (m_closure m)) -> allocated (m_heap m) (retained (m_closure m)) ->
  m_heap m ⊆ m_heap m' -> store_ok (m_heap m') (retained (m_closure m)) /\ allocated (m_heap m') (retained (m_closure m)).
Proof.
  intros H1 H2 Hsub. eapply store_heap; [done|done|]. intros a c Hc. exists c. split_and!; try done. by eapply lookup_weaken.
Qed.

Lemma stored_located_subset m m' :
  stored_located m -> m_heap m' = m_heap m ->
  (forall p a, contribution_get (retained (m_closure m')) p = Some a -> contribution_get (retained (m_closure m)) p = Some a) ->
  stored_located m'.
Proof. intros H Hh Hs p a c Hp Hc. rewrite Hh in Hc. by eapply H; [apply Hs|]. Qed.

(** ** Updates *)

Lemma accept_update_ok (invalid : gset string) ev m : machine_ok m -> (forall path, path ∈ invalid -> Clean path = path) ->
  machine_ok (accept_update invalid ev m).
Proof.
  intros [H1 H2 H3 H4 H5 H6 H7 H8 H9] Hclean. unfold accept_update.
  pose proof (invalidate_spec (m_heap m) (retained (m_closure m)) invalid H1) as Hi.
  destruct (invalidate _ _ invalid) as [s invalid'] eqn:E. destruct Hi as (Hok & Hin & Hget).
  assert (forall p a, byPath s !! p = Some a -> byPath (retained (m_closure m)) !! p = Some a) as Hsub
    by (intros p a; rewrite Hget; by case_bool_decide).
  split; simpl; [done|by eapply allocated_subset|done|done| | |by intros []|done|].
  - eapply stored_located_subset; [done|done|]. exact Hsub.
  - intros p Hp. unfold contribution_get. rewrite Hget. by rewrite bool_decide_eq_true_2.
  - intros p [Hp|[a Ha]]; [|apply H9; right; exists a; by apply Hsub].
    apply Hin in Hp as [Hp|(a & d & Ha & _)]; [by apply Hclean|]. apply H9. right. by exists a.
Qed.

Lemma accept_update_same (invalid : gset string) ev m :
  m_groups (accept_update invalid ev m) = m_groups m /\ m_heap (accept_update invalid ev m) = m_heap m /\
  table (m_closure (accept_update invalid ev m)) = None /\
  previousTable (m_closure (accept_update invalid ev m)) = table (m_closure m) /\
  generation (m_closure (accept_update invalid ev m)) = u64 (generation (m_closure m) + 1) /\
  cl_closed (m_closure (accept_update invalid ev m)) = cl_closed (m_closure m).
Proof. unfold accept_update. by destruct (invalidate _ _ _) as [st invalid']. Qed.

(** Exactly the contributions the next manifest names are forgotten. *)
Lemma accept_update_get (invalid : gset string) ev m path : store_ok (m_heap m) (retained (m_closure m)) ->
  let p := m_closure (accept_update invalid ev m) in
  invalid ⊆ set_of (transportChangedPaths p) /\
  contribution_get (retained p) path =
    if bool_decide (path ∈ set_of (transportChangedPaths p)) then None else contribution_get (retained (m_closure m)) path.
Proof.
  intros Hok. unfold accept_update. pose proof (invalidate_spec (m_heap m) (retained (m_closure m)) invalid Hok) as Hi.
  destruct (invalidate _ _ _) as [st invalid']. destruct Hi as (_ & Hin & Hget). simpl. split; [|apply Hget].
  intros q Hq. apply Hin. by left.
Qed.

Lemma invalid_paths_clean affected changes : Forall (fun path => Clean path = path) (af_Files affected) ->
  forall path, path ∈ invalid_paths affected changes -> Clean path = path.
Proof.
  intros H path Hp. unfold invalid_paths in Hp. apply elem_of_union in Hp as [Hp|Hp]; apply elem_of_list_to_set in Hp.
  - rewrite Forall_forall in H. by apply H.
  - apply list_elem_of_fmap in Hp as (c & -> & _). apply Clean_idempotent.
Qed.

(** An update that fails leaves the closure as it was; one that is accepted
    moves to the next generation. *)
Lemma Update_spec changes m :
  wp (fun m' => exists w, m' = set_world m w) (Update changes)
    (fun affected m' => Forall (fun path => Clean path = path) (af_Files affected) /\
       exists w ev, m' = accept_update (invalid_paths affected changes) ev (set_world m w)) m.
Proof.
  unfold Update. apply wp_bind. unfold wp at 1, in_world, p_zoom.
  destruct (bk_Update changes (m_world m)) as [w [affected|e]] eqn:Eu; [|by exists w]. apply bk_Update_clean in Eu. cbv zeta.
  apply wp_bind, wp_get, wp_bind, wp_lift. destruct (evict_paths _ _ _) as [ev|e]; [|by exists w].
  apply wp_bind, wp_modify, wp_ret. split; [done|]. by exists w, ev.
Qed.

(** ** Demand-set changes *)

Lemma discard_changed_ok paths m : machine_ok m -> machine_ok (discard_changed paths m).
Proof.
  intros [H1 H2 H3 H4 H5 H6 H7 H8 H9]. unfold discard_changed. cbv zeta.
  destruct (discard_spec (m_heap m) (retained (m_closure m)) (list_to_set (map Clean paths)) H1) as [Hok Hget].
  assert (forall p a, byPath (discard (m_heap m) (retained (m_closure m)) (list_to_set (map Clean paths))) !! p = Some a ->
    byPath (retained (m_closure m)) !! p = Some a) as Hsub by (intros p a; rewrite Hget; by case_bool_decide).
  split; simpl; [done|by eapply allocated_subset|done|done| | |by intros []|done|].
  - eapply stored_located_subset; [done|done|]. exact Hsub.
  - intros p Hp. unfold contribution_get. rewrite Hget. case_bool_decide as Hc; [done|].
    apply elem_of_union in Hp as [Hp|Hp]; [done|by apply H6].
  - intros p [Hp|[a Ha]]; [|apply H9; right; exists a; by apply Hsub].
    apply elem_of_union in Hp as [Hp|Hp]; [|apply H9; by left].
    apply elem_of_list_to_set, list_elem_of_fmap in Hp as (c & -> & _). apply Clean_idempotent.
Qed.

(** ** A new generation *)

Lemma release_groups_runs m : Forall2 same_run (m_groups m) (m_groups (release_groups m)).
Proof. simpl. induction (m_groups m); constructor; [apply releaseExpanded_same|done]. Qed.

Lemma same_runs_clean gs gs' : Forall2 same_run gs gs' -> Forall (fun g => Clean (dg_path g) = dg_path g) gs ->
  Forall (fun g => Clean (dg_path g) = dg_path g) gs'.
Proof.
  induction 1 as [|g g' gs gs' H _ IH]; [done|]. intros [Hg Hgs]%Forall_cons. constructor; [|by apply IH].
  by rewrite (sr_path _ _ H).
Qed.

Lemma built_ok generation m0 m t ch : machine_ok m0 -> table (m_closure m0) = None -> built generation m0 m t ch ->
  machine_ok (release_groups m).
Proof.
  intros [H1 H2 H3 H4 H5 H6 H7 H8 H9] Hnone B. destruct (bu_closure _ _ _ _ _ B) as (files & union & Hc).
  destruct (stored_weaken m0 m H1 H2 (bu_heap _ _ _ _ _ B)) as [Hs Ha].
  assert (keys_sorted dg_path (m_groups m)) as Hsorted by (eapply same_run_sorted; [apply B|done]).
  assert (NoDup (map dg_path (m_groups m))) as Hnd by by apply keys_sorted_NoDup in Hsorted.
  assert (Forall (fun g => Clean (dg_path g) = dg_path g) (m_groups m)) as Hcl by (eapply same_runs_clean; [apply B|done]).
  unfold release_groups. split; simpl; rewrite ?Hc; simpl.
  - by apply commit_ok.
  - by apply commit_allocated.
  - eapply same_runs_located; [apply release_groups_runs|apply B].
  - by eapply same_run_sorted; [apply release_groups_runs|].
  - intros path a c Hp Hca. simpl in Hp, Hca. rewrite Hc in Hp. simpl in Hp.
    apply commit_spec in Hp as (g & c' & Hg & Hgp & Hga & Hcc & _); [|done|done]. rewrite Hca in Hcc. injection Hcc as <-.
    apply list_elem_of_lookup in Hg as [i Hi]. destruct (decide (i ∈ ch)) as [Hin|Hn].
    + destruct (bu_fresh _ _ _ _ _ B i Hin) as (g' & b & d & es & K1 & K2 & K3 & K4 & K5 & K6 & _). simplify_eq. by rewrite K5.
    + destruct (bu_kept _ _ _ _ _ B i) as (g' & b & K1 & K2 & [d K3] & K4); [|done|].
      { rewrite (Forall2_length _ _ _ (bu_runs _ _ _ _ _ B)). by eapply lookup_lt_Some. }
      simplify_eq. eapply H5; [done|]. rewrite <- Hca. symmetry. rewrite K3. by eapply lookup_weaken; [|apply B].
  - intros p Hp. done.
  - intros [t' Ht]. rewrite Hnone in Ht. done.
  - eapply same_runs_clean; [apply release_groups_runs|done].
  - intros path [Hp|[a Hpa]]; [done|]. apply commit_spec in Hpa as (g & c & Hg & <- & _); [|done|done].
    rewrite Forall_forall in Hcl. by apply Hcl.
Qed.

(** ** Demand tables *)

(** What a call that fails still keeps. *)
Record survives m0 m : Prop := {
  sv_heap : m_heap m0 ⊆ m_heap m;
  sv_runs : Forall2 same_run (m_groups m0) (m_groups m);
  sv_generation : generation (m_closure m) = generation (m_closure m0);
  sv_closed : cl_closed (m_closure m) = cl_closed (m_closure m0);
}.

#[export] Instance survives_preorder : PreOrder survives.
Proof.
  split; [by split|]. intros a b c [H1 H2 H3 H4] [K1 K2 K3 K4]. split; [by etrans|by etrans|congruence|congruence].
Qed.

Lemma extends_survives m0 m : extends m0 m -> survives m0 m.
Proof. intros [(r & f & Hc) H2 H3]. split; try done; by rewrite Hc. Qed.

Lemma release_groups_survives m : survives m (release_groups m).
Proof. split; try done. apply release_groups_runs. Qed.

(** Where a new table is built from. *)
Definition build_base (paths : list string) (m : machine W) : machine W :=
  match paths with [] => m | _ => discard_changed paths m end.

Lemma build_base_survives paths m : survives m (build_base paths m).
Proof. by destruct paths. Qed.

Lemma build_base_ok paths m : machine_ok m -> machine_ok (build_base paths m).
Proof. destruct paths; [done|]. apply discard_changed_ok. Qed.

Lemma build_base_fields paths m : m_groups (build_base paths m) = m_groups m /\ m_heap (build_base paths m) = m_heap m /\
  nextTableStateID (m_closure (build_base paths m)) = nextTableStateID (m_closure m).
Proof. by destruct paths. Qed.

(** The machine after a table was built. *)
Definition after_build (mB : machine W) (t : FactTable) (st : ClosureStats) : machine W :=
  set_closure (release_groups mB) (with_table (m_closure mB) t st).

Lemma built_survives g m0 m t ch st : built g m0 m t ch -> survives m0 (after_build m t st).
Proof.
  intros B. destruct (bu_closure _ _ _ _ _ B) as (files & union & Hc). split; simpl.
  - apply B.
  - etrans; [apply (bu_runs _ _ _ _ _ B)|]. apply release_groups_runs.
  - by rewrite Hc.
  - by rewrite Hc.
Qed.

Lemma sorted_sort_slice gs : keys_sorted dg_path gs -> sort_slice (key_less dg_path) gs = gs.
Proof.
  intros H. apply sort_slice_id. induction gs as [|g gs IH]; [constructor|].
  apply keys_sorted_cons in H as [H Hg]. constructor; [by apply IH|]. eapply Forall_impl; [exact Hg|].
  intros g' Hlt. apply sle_not_slt, slt_asym, Hlt.
Qed.

Lemma materializeDemandTableLocked_spec g m0 : machine_ok m0 ->
  wp (survives m0) (materializeDemandTableLocked g)
    (fun _ m => exists mB t ch st, built g m0 mB t ch /\ m = after_build mB t st) m0.
Proof.
  intros [_ _ H3 H4 H5 _ _ _ _]. unfold materializeDemandTableLocked, materializeSemanticDemandRetained.
  apply wp_bind, wp_defer. eapply wp_mono; [| |apply materialize_body_spec; done].
  - intros m' Hx. etrans; [by apply extends_survives|apply release_groups_survives].
  - intros [t r] mB [ch B]. cbv beta iota. unfold modify_closure. apply wp_modify. by eexists mB, t, ch, _.
Qed.

Lemma demandTable_spec g paths m0 : machine_ok m0 ->
  wp (survives m0) (demandTableForPreparedGroups g paths)
    (fun t m => g = generation (m_closure m0) /\
       (table (m_closure m0) = Some t /\ paths = [] /\ m = m0 \/
        table (m_closure (build_base paths m0)) = None /\
        exists mB ch st, built g (build_base paths m0) mB t ch /\ m = after_build mB t st)) m0.
Proof.
  intros Hok. unfold demandTableForPreparedGroups. apply wp_bind. unfold get_closure, wp at 1.
  destruct (Z.eqb_spec g (generation (m_closure m0))) as [->|Hne]; cbn [negb]; [|by apply wp_fail].
  set (m1 := build_base paths m0). pose proof (build_base_ok paths m0 Hok) as Hok1. fold m1 in Hok1.
  pose proof (build_base_survives paths m0) as Hsv. fold m1 in Hsv.
  assert (forall (k : proc (machine W) FactTable) Q, wp (survives m0) k Q m1 ->
    wp (survives m0) ((match paths with [] => p_ret tt | _ => p_modify (discard_changed paths) end) ;! k) Q m0) as Hstep.
  { intros k Q Hk. apply wp_bind. unfold m1, build_base in Hk. by destruct paths. }
  apply Hstep. apply wp_bind. unfold get_closure, wp at 1. destruct (table (m_closure m1)) as [t|] eqn:Et.
  { apply wp_ret. split; [done|]. left. unfold m1, build_base in *. destruct paths; [done|]. done. }
  apply wp_bind, wp_modify. rewrite sorted_sort_slice by apply Hok1. replace (set_groups m1 (m_groups m1)) with m1 by by destruct m1.
  apply wp_bind, wp_get, wp_bind. destruct (adjacent_duplicate (m_groups m1)); [by apply wp_fail|]. apply wp_ret.
  apply wp_bind. eapply wp_mono; [| |by apply materializeDemandTableLocked_spec]; [by intros m' ?; etrans|].
  intros [] m' (mB & t & ch & st & B & ->). apply wp_bind. unfold get_closure, wp at 1. simpl. apply wp_ret.
  split; [done|]. right. split; [done|]. by exists mB, ch, st.
Qed.

Lemma after_build_ok g m0 m t ch st : machine_ok m0 -> table (m_closure m0) = None -> built g m0 m t ch ->
  machine_ok (after_build m t st).
Proof.
  intros Hok Hn B. destruct (built_ok g m0 m t ch Hok Hn B) as [H1 H2 H3 H4 H5 H6 H7 H8 H9].
  destruct (bu_closure _ _ _ _ _ B) as (files & union & Hc).
  split; try done. intros _. simpl. by rewrite Hc.
Qed.

(** ** Rows given to the client *)

Lemma releaseTransportRows_twice c : releaseTransportRows (releaseTransportRows c) = releaseTransportRows c.
Proof. unfold releaseTransportRows at 2 3. destruct (c_entities c) eqn:E; [done|]. unfold releaseTransportRows. by rewrite E. Qed.

Definition release_all (heap : contribution_heap) (l : list positive) : contribution_heap :=
  foldl (fun heap a => alter releaseTransportRows a heap) heap l.

(** The contribution [c] is at [a], with its rows or without. *)
Definition holds m (a : positive) (c : retainedContribution) : Prop :=
  m_heap m !! a = Some c \/ m_heap m !! a = Some (releaseTransportRows c).

Lemma release_all_lookup l heap a : release_all heap l !! a = heap !! a \/ release_all heap l !! a = releaseTransportRows <$> heap !! a.
Proof.
  revert heap. induction l as [|b l IH]; intros heap; simpl; [by left|].
  destruct (IH (alter releaseTransportRows b heap)) as [->| ->]; (destruct (decide (a = b)) as [->|Hne];
    [rewrite lookup_alter_eq; right|rewrite lookup_alter_ne by done; auto]); [done|].
  destruct (heap !! b); simpl; [|done]. by rewrite releaseTransportRows_twice.
Qed.

Lemma release_all_ok l heap s : store_ok heap s -> allocated heap s ->
  store_ok (release_all heap l) s /\ allocated (release_all heap l) s.
Proof.
  revert heap. induction l as [|b l IH]; intros heap H1 H2; simpl; [done|].
  destruct (store_step_ok (heap, s) (alter releaseTransportRows b heap, s)) as [H3 H4]; [constructor|done|done|]. by apply IH.
Qed.

Lemma release_rows_ok m : machine_ok m -> machine_ok (closure_releaseTransportRows m).
Proof.
  intros Hok. unfold closure_releaseTransportRows. cbv zeta. destruct (table (m_closure m)) as [t|] eqn:Et; [|done].
  destruct Hok as [H1 H2 H3 H4 H5 H6 H7 H8 H9]. fold (release_all (m_heap m) (range_map (byPath (retained (m_closure m)))).*2).
  set (l := (range_map _).*2). destruct (release_all_ok l (m_heap m) _ H1 H2) as [K1 K2].
  split; simpl; [done|done|done|done| |exact H6|intros _; apply H7; by rewrite Et|done|exact H9].
  intros path a c Hp Hc. simpl in Hp, Hc. destruct (release_all_lookup l (m_heap m) a) as [E|E]; rewrite E in Hc.
  - by eapply H5.
  - destruct (m_heap m !! a) as [d|] eqn:Ed; [|done]. injection Hc as <-. specialize (H5 path a d Hp Ed).
    unfold releaseTransportRows. destruct (c_entities d) eqn:Ee; simpl; [constructor|by rewrite Ee].
Qed.

Lemma release_rows_same m : m_groups (closure_releaseTransportRows m) = m_groups m /\
  retained (m_closure (closure_releaseTransportRows m)) = retained (m_closure m) /\
  generation (m_closure (closure_releaseTransportRows m)) = generation (m_closure m) /\
  table (m_closure (closure_releaseTransportRows m)) = release_table <$> table (m_closure m).
Proof. unfold closure_releaseTransportRows. cbv zeta. destruct (table (m_closure m)) eqn:E; [done|]. by rewrite E. Qed.

Lemma release_rows_holds m a c : m_heap m !! a = Some c -> holds (closure_releaseTransportRows m) a c.
Proof.
  intros Hc. unfold closure_releaseTransportRows, holds. cbv zeta. destruct (table (m_closure m)); [|by left]. simpl.
  fold (release_all (m_heap m) (range_map (byPath (retained (m_closure m)))).*2).
  destruct (release_all_lookup (range_map (byPath (retained (m_closure m)))).*2 (m_heap m) a) as [->| ->]; rewrite Hc; auto.
Qed.

(** A released table carries no entity rows. *)
Lemma release_table_rows t path : wireTransitionEntityPath (release_table t) path = [].
Proof. unfold wireTransitionEntityPath, release_table. simpl. by destruct (entityRuns t). Qed.

(** ** Starting over *)

Definition reset_closure m : machine W := set_closure m (resetAnalysisStateLocked (m_closure m)).

Lemma reset_closure_ok m : all_located m -> keys_sorted dg_path (m_groups m) ->
  Forall (fun g => Clean (dg_path g) = dg_path g) (m_groups m) -> machine_ok (reset_closure m).
Proof.
  intros H1 H2 H3. split; simpl; try done; [apply empty_store_ok|].
  intros path [Hp|[a Ha]]; [done|]. by unfold contribution_get in Ha.
Qed.
End Spec.
