(* ===== verification/Overlay.v ===== *)
(** * The overlay file system (overlay.go)

    The adapter reads files through an overlay of the edits it was told of: a
    path is set, deleted, or left to the file system below. Its reads answer
    the last edit, and its listings what exists. *)

From S2P Require Import Prelude GoStd GoText GoPath SortedPaths.

Record Entries := mkEntries {
  Files : list string;
  Directories : list string;
  Symlinks : option (gset string);
}.

Record FileInfo := mkInfo { fi_name : string; fi_size : Z; fi_directory : bool }.
Record DirEntry := mkEntry { de_name : string; de_directory : bool; de_info : FileInfo }.

(** The errors a walk knows. *)
Definition SkipDir : error := ErrText "skip this directory".

(** The file system below, as it is at the moment of a call. *)
Class VFS := {
  base_FileExists : string -> bool;
  base_ReadFile : string -> option string;
  base_DirectoryExists : string -> bool;
  base_GetAccessibleEntries : string -> Entries;
  base_Stat : string -> option FileInfo;
  base_Realpath : string -> string;
  base_WalkDir : forall {S : Type}, string -> (string -> DirEntry -> option error -> S -> S * option error) -> S -> S * option error;
}.

Record overlayFS := mkOverlay {
  overlay_files : gmap string string;
  overlay_deleted : gset string;
}.

Definition newOverlayFS : overlayFS := mkOverlay ∅ ∅.

(** [strings.Contains]. *)
Fixpoint Contains (s sub : string) : bool :=
  String.prefix sub s || match s with EmptyString => false | String _ s => Contains s sub end.

Definition cleanOverlayPath (path : string) : string := if Contains path "://" then path else Clean path.

(** [relative == "." || relative == ".." || strings.HasPrefix(relative, "../")]. *)
Definition not_below (relative : string) : bool :=
  String.eqb relative "." || String.eqb relative ".." || String.prefix "../" relative.

Definition isDescendant (path directory : string) : bool :=
  match Rel directory path with None => false | Some relative => negb (not_below relative) end.

Definition set (o : overlayFS) (path source : string) : overlayFS :=
  let path := cleanOverlayPath path in
  mkOverlay (<[path := source]> (overlay_files o)) (overlay_deleted o ∖ {[path]}).

Definition delete_path (o : overlayFS) (path : string) : overlayFS :=
  let path := cleanOverlayPath path in
  mkOverlay (delete path (overlay_files o)) ({[path]} ∪ overlay_deleted o).

Definition sortedEntryNames `{MR : !MapRange} (entries : gset string) : list string := sort_Strings (range_set entries).

Section Overlay.
Context `{FS : !VFS} `{MR : !MapRange}.

(** [clone] copies both maps entry by entry. *)
Definition clone (o : overlayFS) : overlayFS :=
  mkOverlay (foldl (fun files '(path, source) => <[path := source]> files) ∅ (range_map (overlay_files o)))
    (foldl (fun deleted path => {[path]} ∪ deleted) ∅ (range_set (overlay_deleted o))).

Definition FileExists (o : overlayFS) (path : string) : bool :=
  let path := cleanOverlayPath path in
  if bool_decide (path ∈ overlay_deleted o) then false
  else match overlay_files o !! path with Some _ => true | None => base_FileExists path end.

Definition ReadFile (o : overlayFS) (path : string) : option string :=
  let path := cleanOverlayPath path in
  if bool_decide (path ∈ overlay_deleted o) then None
  else match overlay_files o !! path with Some source => Some source | None => base_ReadFile path end.

Definition DirectoryExists (o : overlayFS) (path : string) : bool :=
  base_DirectoryExists path ||
  existsb (fun file => isDescendant file (cleanOverlayPath path)) (range_map (overlay_files o)).*1.

(** [delete(files, filepath.Base(file))] of a deleted file of the directory. *)
Definition hide_deleted (directory : string) (files : gset string) (file : string) : gset string :=
  if String.eqb (Dir file) directory then files ∖ {[Base file]} else files.

(** One file of the overlay: an entry of the directory, or of one below. *)
Definition show_file (directory : string) (st : gset string * gset string) (file : string) : gset string * gset string :=
  match Rel directory file with
  | None => st
  | Some relative =>
      if not_below relative then st
      else
        match split_slash relative with
        | [name] => ({[name]} ∪ st.1, st.2)
        | name :: _ => (st.1, {[name]} ∪ st.2)
        | [] => st
        end
  end.

Definition GetAccessibleEntries (o : overlayFS) (path : string) : Entries :=
  let base := base_GetAccessibleEntries path in
  let directory := cleanOverlayPath path in
  let files := foldl (hide_deleted directory) (list_to_set (Files base)) (range_set (overlay_deleted o)) in
  let '(files, directories) := foldl (show_file directory) (files, list_to_set (Directories base)) (range_map (overlay_files o)).*1 in
  mkEntries (sortedEntryNames files) (sortedEntryNames directories)
    ((fun symlinks => filter (fun name => name ∈ files \/ name ∈ directories) symlinks) <$> Symlinks base).

Definition overlay_info (path source : string) : FileInfo := mkInfo (Base path) (Z.of_nat (String.length source)) false.

Definition Stat (o : overlayFS) (path : string) : option FileInfo :=
  let path := cleanOverlayPath path in
  if bool_decide (path ∈ overlay_deleted o) then None
  else match overlay_files o !! path with Some source => Some (overlay_info path source) | None => base_Stat path end.

Definition Realpath (o : overlayFS) (path : string) : string :=
  let path := cleanOverlayPath path in
  match overlay_files o !! path with Some _ => path | None => base_Realpath path end.

(** ** Walking *)

(** [for directory := filepath.Dir(path); isDescendant(directory, root); directory = filepath.Dir(directory)];
    a directory is shorter than what is in it, so that the length of the path is enough. *)
Fixpoint add_directories (fuel : nat) (root : string) (visited : gset string) (entries : gmap string DirEntry) (directory : string) :
    gmap string DirEntry :=
  match fuel with
  | O => entries
  | S fuel' =>
      if isDescendant directory root then
        let entries :=
          if bool_decide (directory ∈ visited) then entries
          else <[directory := mkEntry (Base directory) true (mkInfo (Base directory) 0 true)]> entries in
        add_directories fuel' root visited entries (Dir directory)
      else entries
  end.

Definition add_entry (root : string) (visited : gset string) (entries : gmap string DirEntry) (file : string * string) :
    gmap string DirEntry :=
  let '(path, source) := file in
  if isDescendant path root then
    add_directories (String.length path) root visited
      (<[path := mkEntry (Base path) false (overlay_info path source)]> entries) (Dir path)
  else entries.

Fixpoint walk_entries {S} (walkFn : string -> DirEntry -> option error -> S -> S * option error)
    (entries : list (string * DirEntry)) (s : S) : S * option error :=
  match entries with
  | [] => (s, None)
  | (path, entry) :: entries =>
      match walkFn path entry None s with
      | (s, None) => walk_entries walkFn entries s
      | (s, Some e) =>
          if error_is SkipDir e && de_directory entry then walk_entries walkFn entries s else (s, Some e)
      end
  end.

Definition WalkDir {S} (o : overlayFS) (root : string) (walkFn : string -> DirEntry -> option error -> S -> S * option error) (s : S) :
    S * option error :=
  let visit path entry err '(visited, s) :=
    let path := cleanOverlayPath path in
    if bool_decide (path ∈ overlay_deleted o) then ((visited, s), None)
    else let '(s, e) := walkFn path entry err s in (({[path]} ∪ visited, s), e) in
  match base_WalkDir root visit (∅ : gset string, s) with
  | ((_, s), Some e) => (s, Some e)
  | ((visited, s), None) =>
      let root := cleanOverlayPath root in
      let entries := foldl (add_entry root visited) ∅ (range_map (overlay_files o)) in
      let paths := sort_Strings (filter (fun path => path ∉ visited) (range_map entries).*1) in
      walk_entries walkFn (omap (fun path => (fun entry => (path, entry)) <$> entries !! path) paths) s
  end.
End Overlay.

(** ** Edits *)

Inductive edit := SetFile (path source : string) | DeleteFile (path : string).

Definition edit_path (e : edit) : string := cleanOverlayPath (match e with SetFile path _ => path | DeleteFile path => path end).

Definition apply_edit (o : overlayFS) (e : edit) : overlayFS :=
  match e with SetFile path source => set o path source | DeleteFile path => delete_path o path end.

Definition edited (edits : list edit) : overlayFS := foldl apply_edit newOverlayFS edits.

(** The last edit of a path: its source, or none when it was deleted. *)
Definition last_edit (edits : list edit) (path : string) : option (option string) :=
  (fun e => match e with SetFile _ source => Some source | DeleteFile _ => None end) <$>
    last (filter (fun e => edit_path e = path) edits).

Lemma edited_snoc edits e : edited (edits ++ [e]) = apply_edit (edited edits) e.
Proof. unfold edited. by rewrite foldl_app. Qed.

Lemma last_edit_snoc edits e path : last_edit (edits ++ [e]) path =
  if decide (edit_path e = path) then Some (match e with SetFile _ source => Some source | DeleteFile _ => None end)
  else last_edit edits path.
Proof.
  unfold last_edit. rewrite filter_app. case_decide as E.
  - rewrite filter_cons, decide_True, filter_nil, last_snoc by done. done.
  - by rewrite filter_cons, decide_False, filter_nil, app_nil_r.
Qed.

(** The overlay holds the last edit of every path. *)
Lemma edited_lookup edits path :
  match last_edit edits path with
  | None => overlay_files (edited edits) !! path = None /\ path ∉ overlay_deleted (edited edits)
  | Some None => overlay_files (edited edits) !! path = None /\ path ∈ overlay_deleted (edited edits)
  | Some (Some source) => overlay_files (edited edits) !! path = Some source /\ path ∉ overlay_deleted (edited edits)
  end.
Proof.
  induction edits as [|e edits IH] using rev_ind; [simpl; split; [apply lookup_empty|set_solver]|].
  rewrite last_edit_snoc, edited_snoc. case_decide as E.
  - subst path. destruct e as [p s|p]; unfold edit_path; simpl; [rewrite lookup_insert_eq|rewrite lookup_delete_eq]; set_solver.
  - destruct e as [p s|p]; unfold edit_path in E; simpl in *; [rewrite lookup_insert_ne by done|rewrite lookup_delete_ne by done];
      destruct (last_edit edits path) as [[s'|]|]; set_solver.
Qed.

Section Reads.
Context `{FS : !VFS} `{MR : !MapRange}.

Lemma clone_id o : clone o = o.
Proof.
  destruct o as [files deleted]. unfold clone. simpl. f_equal.
  - assert (forall l (m : gmap string string), NoDup l.*1 -> (forall p s, (p, s) ∈ l -> m !! p = None) ->
      foldl (fun files '(path, source) => <[path := source]> files) m l = list_to_map l ∪ m) as H.
    { induction l as [|[p s] l IH]; intros m Hnd Hm; simpl; [by rewrite (left_id_L ∅ (∪))|]. rewrite fmap_cons in Hnd.
      apply NoDup_cons in Hnd as [Hp Hnd]. rewrite IH; [|done|].
      - rewrite <- insert_union_r by (by apply not_elem_of_list_to_map_1). apply insert_union_l.
      - intros q s' Hq. rewrite lookup_insert_ne; [apply (Hm q s'); by right|]. intros ->. apply Hp, list_elem_of_fmap. by exists (q, s'). }
    rewrite H; [|apply range_map_NoDup|intros; apply lookup_empty]. rewrite (right_id_L ∅ (∪)).
    rewrite <- (list_to_map_to_list files) at 2. apply list_to_map_proper; [apply range_map_NoDup|apply range_map_perm].
  - assert (forall l (s : gset string), foldl (fun deleted path => {[path]} ∪ deleted) s l = list_to_set l ∪ s) as H.
    { induction l as [|p l IH]; intros s; simpl; [set_solver|]. rewrite IH. set_solver. }
    rewrite H. apply set_eq. intros p. rewrite elem_of_union, elem_of_list_to_set, range_set_elem. set_solver.
Qed.

(** A path reads as the last edit of it left it, deleted or with its text, and as in the
    base when it was not edited; other paths do not see the edit. *)
Theorem overlay_reads_last_edit edits path :
  let o := edited edits in
  let p := cleanOverlayPath path in
  clone o = o /\
  ReadFile o path = match last_edit edits p with Some r => r | None => base_ReadFile p end /\
  FileExists o path = match last_edit edits p with Some (Some _) => true | Some None => false | None => base_FileExists p end /\
  Stat o path = match last_edit edits p with
                | Some (Some source) => Some (mkInfo (Base p) (Z.of_nat (String.length source)) false)
                | Some None => None
                | None => base_Stat p end /\
  Realpath o path = match last_edit edits p with Some (Some _) => p | _ => base_Realpath p end.
Proof.
  intros o p. split; [apply clone_id|]. unfold ReadFile, FileExists, Stat, Realpath. fold p.
  pose proof (edited_lookup edits p) as H. fold o in H.
  destruct (last_edit edits p) as [[source|]|]; destruct H as [-> Hd];
    first [rewrite bool_decide_eq_true_2 by done|rewrite bool_decide_eq_false_2 by done]; done.
Qed.

(** ** Listings *)

(** Files of the overlay are rooted paths below the root. *)
Record overlay_ok (o : overlayFS) : Prop := {
  ok_files : forall p, is_Some (overlay_files o !! p) -> exists names, p = abs names /\ Forall plain names /\ names <> [];
  ok_deleted : forall p, p ∈ overlay_deleted o -> exists names, p = abs names /\ Forall plain names /\ names <> [];
  ok_disjoint : forall p, p ∈ overlay_deleted o -> overlay_files o !! p = None;
}.

Definition proper_edit (e : edit) : Prop := exists names, edit_path e = abs names /\ Forall plain names /\ names <> [].

Lemma edited_ok edits : Forall proper_edit edits -> overlay_ok (edited edits).
Proof.
  induction edits as [|e edits IH] using rev_ind; intros H; [split; simpl; [intros p [? Hp]; by rewrite lookup_empty in Hp|set_solver..]|].
  apply Forall_app in H as [H He]. apply Forall_cons in He as [He _]. destruct (IH H) as [H1 H2 H3]. rewrite edited_snoc.
  destruct e as [q s|q]; unfold proper_edit, edit_path in He; split; simpl.
  - intros p [x Hp]. apply lookup_insert_Some in Hp as [[<- _]|[_ Hp]]; [exact He|]. apply H1. by eexists.
  - intros p Hp. apply H2. set_solver.
  - intros p Hp. rewrite lookup_insert_ne by set_solver. apply H3. set_solver.
  - intros p [x Hp]. apply lookup_delete_Some in Hp as [_ Hp]. apply H1. by eexists.
  - intros p [->%elem_of_singleton|Hp]%elem_of_union; [exact He|by apply H2].
  - intros p Hp. destruct (decide (p = cleanOverlayPath q)) as [->|]; [apply lookup_delete_eq|].
    rewrite lookup_delete_ne by done. apply H3. set_solver.
Qed.

Lemma cleanOverlayPath_abs names : Forall plain names -> cleanOverlayPath (abs names) = abs names.
Proof. intros H. unfold cleanOverlayPath. destruct (Contains _ _); [done|by apply Clean_abs]. Qed.

Lemma not_below_rest rest : rest <> [] -> Forall plain rest -> not_below (join_slash rest) = false.
Proof.
  destruct rest as [|x rest]; [done|]. intros _ Hp. apply Forall_cons in Hp as [(H1 & H2 & H3 & H4) Hp].
  unfold not_below. assert (forall y, (y = "." \/ y = "..") -> join_slash (x :: rest) <> y) as Hne.
  { intros y Hy E. assert (split_slash (join_slash (x :: rest)) = split_slash y) as Es by (by rewrite E).
    rewrite split_join in Es; [|done|constructor; [done|by apply plain_no_slash]]. by destruct Hy as [->| ->]; simpl in Es; simplify_eq. }
  destruct (String.eqb_spec (join_slash (x :: rest)) ".") as [E|_]; [by destruct (Hne _ (or_introl eq_refl) E)|].
  destruct (String.eqb_spec (join_slash (x :: rest)) "..") as [E|_]; [by destruct (Hne _ (or_intror eq_refl) E)|]. simpl orb.
  destruct (String.prefix "../" (join_slash (x :: rest))) eqn:Ep; [|done]. exfalso.
  destruct (prefix_rest _ _ Ep) as [s Hs].
  assert (split_slash (join_slash (x :: rest)) = split_slash ("../" +:+ s)) as Es by (by rewrite Hs).
  rewrite split_join in Es; [|done|constructor; [done|by apply plain_no_slash]]. simpl in Es. by simplify_eq.
Qed.

(** What one file of the overlay adds to the listing of a directory. *)
Lemma show_file_spec ds fs st : Forall plain ds -> Forall plain fs ->
  let '(files, directories) := show_file (abs ds) st (abs fs) in
  (forall name, name ∈ files <-> name ∈ st.1 \/ fs = ds ++ [name]) /\
  (forall name, name ∈ directories <-> name ∈ st.2 \/ exists x rest, fs = ds ++ name :: x :: rest).
Proof.
  intros Hd Hf. unfold show_file. destruct st as [files directories]. simpl.
  assert ((exists rest, rest <> [] /\ fs = ds ++ rest) \/ forall rest, rest <> [] -> fs <> ds ++ rest) as [(rest & Hne & ->)|Hnot].
  { destruct (decide (ds `prefix_of` fs)) as [[rest ->]|Hp].
    - destruct rest as [|x rest]; [right; intros rest Hne E; by apply app_inv_head in E|left; by exists (x :: rest)].
    - right. intros rest _ ->. apply Hp. by exists rest. }
  - apply Forall_app in Hf as [_ Hr]. rewrite Rel_below by done. rewrite not_below_rest by done.
    rewrite split_join by first [done|by apply plain_no_slash]. destruct rest as [|x [|y rest]]; [done| |]; simpl; split; intros name.
    + split; [set_solver|]. intros [?|E%app_inv_head]; [set_solver|]. simplify_eq. set_solver.
    + split; [by left|]. intros [?|(z & l & E%app_inv_head)]; [done|]. by simplify_eq.
    + split; [by left|]. intros [?|E%app_inv_head]; [done|]. by simplify_eq.
    + split; [|intros [?|(z & l & E%app_inv_head)]; [set_solver|simplify_eq; set_solver]].
      intros [->%elem_of_singleton|?]%elem_of_union; [right; by exists y, rest|by left].
  - assert (match Rel (abs ds) (abs fs) with None => True | Some r => not_below r = true end) as Hnb.
    { destruct (Rel_not_below ds fs Hd Hf Hnot) as [->|[->|[s ->]]]; [done..|]. unfold not_below.
      by rewrite prefix_self, orb_true_r. }
    destruct (Rel (abs ds) (abs fs)) as [r|]; [rewrite Hnb|]; simpl; split; intros name; (split; [by left|]);
      intros [?|H]; try done; exfalso.
    all: try (by eapply (Hnot [_]); [|exact H]). all: destruct H as (x & rest & H); by eapply (Hnot (_ :: _ :: _)); [|exact H].
Qed.

Lemma show_files_spec ds l st : Forall plain ds -> (forall p, p ∈ l -> exists fs, p = abs fs /\ Forall plain fs) ->
  let '(files, directories) := foldl (show_file (abs ds)) st l in
  (forall name, name ∈ files <-> name ∈ st.1 \/ exists fs, abs fs ∈ l /\ Forall plain fs /\ fs = ds ++ [name]) /\
  (forall name, name ∈ directories <-> name ∈ st.2 \/ exists fs x rest, abs fs ∈ l /\ Forall plain fs /\ fs = ds ++ name :: x :: rest).
Proof.
  intros Hd. revert st. induction l as [|p l IH]; intros st Hl; simpl; [destruct st; simpl; split; intros name; split; [by left|set_solver|by left|]; intros [?|(?&?&?&H&_)]; [done|by apply elem_of_nil in H]|].
  destruct (Hl p ltac:(left)) as (fs & -> & Hfs). pose proof (show_file_spec ds fs st Hd Hfs) as H.
  destruct (show_file (abs ds) st (abs fs)) as [files directories]. destruct H as [H1 H2].
  specialize (IH (files, directories) ltac:(intros; apply Hl; by right)). destruct (foldl _ _ l) as [files' directories'].
  destruct IH as [H3 H4]. simpl in H3, H4.
  assert (forall gs, abs gs ∈ abs fs :: l -> Forall plain gs -> gs = fs \/ abs gs ∈ l) as Hcons.
  { intros gs [E|Hin]%elem_of_cons Hgs; [left; by apply abs_inj|by right]. }
  split; intros name.
  - rewrite H3, H1. split.
    + intros [[?|E]|(gs & Hin & ? & ?)]; [by left| |]; right; [exists fs|exists gs]; (split; [|done]); [left|by right].
    + intros [?|(gs & Hin & Hp & E)]; [auto|]. destruct (Hcons gs Hin Hp) as [->|?]; [auto|right; eauto].
  - rewrite H4, H2. split.
    + intros [[?|(x & rest & E)]|(gs & x & rest & Hin & ? & ?)]; [by left| |]; right; [exists fs|exists gs]; exists x, rest; (split; [|done]); [left|by right].
    + intros [?|(gs & x & rest & Hin & Hp & E)]; [auto|]. destruct (Hcons gs Hin Hp) as [->|?]; [left; right; eauto|right; eauto 10].
Qed.

Lemma hide_deleted_spec directory l files name :
  name ∈ foldl (hide_deleted directory) files l <-> name ∈ files /\ forall file, file ∈ l -> Dir file = directory -> Base file <> name.
Proof.
  revert files. induction l as [|f l IH]; intros files; simpl; [set_solver|]. rewrite IH. unfold hide_deleted.
  destruct (String.eqb_spec (Dir f) directory) as [E|E]; set_solver.
Qed.

(** The listing of a directory below agrees with what exists there. *)
Definition base_lists (ds : list string) : Prop :=
  forall name, name ∈ Overlay.Files (base_GetAccessibleEntries (abs ds)) <-> plain name /\ base_FileExists (abs (ds ++ [name])) = true.

(** C17: A directory of the overlay lists as files exactly the files that exist in it, and as
    directories those of the base and those on the way to an edited file, each list sorted and
    without repetition. *)
Theorem overlay_lists_what_exists edits ds : Forall proper_edit edits -> Forall plain ds -> base_lists ds ->
  let o := edited edits in
  let listing := GetAccessibleEntries o (abs ds) in
  (forall name, name ∈ Overlay.Files listing <-> plain name /\ FileExists o (abs (ds ++ [name])) = true) /\
  (forall name, name ∈ Directories listing <->
     name ∈ Directories (base_GetAccessibleEntries (abs ds)) \/
     exists x rest source, Forall plain (name :: x :: rest) /\ overlay_files o !! abs (ds ++ name :: x :: rest) = Some source) /\
  StronglySorted slt (Overlay.Files listing) /\ StronglySorted slt (Directories listing).
Proof.
  intros Hed Hd Hbase o listing. pose proof (edited_ok edits Hed) as [K1 K2 K3]. fold o in K1, K2, K3.
  assert (forall s : gset string, StronglySorted slt (sortedEntryNames s)) as Hsort.
  { intros s. pose proof (sort_slice_keys_sorted (fun q : string => q) (range_set s)) as Hk. unfold keys_sorted in Hk.
    rewrite !list_fmap_id in Hk. apply Hk, range_set_NoDup. }
  unfold listing, GetAccessibleEntries. rewrite cleanOverlayPath_abs by done. set (base := base_GetAccessibleEntries (abs ds)).
  set (hidden := foldl (hide_deleted (abs ds)) _ _).
  pose proof (show_files_spec ds (range_map (overlay_files o)).*1 (hidden, list_to_set (Directories base)) Hd) as H.
  destruct (foldl (show_file (abs ds)) _ _) as [files directories]. destruct H as [H1 H2].
  { intros p (kv & -> & Hkv)%list_elem_of_fmap. destruct kv as [p s]. apply range_map_elem in Hkv.
    destruct (K1 p ltac:(by eexists)) as (names & -> & ? & _). by exists names. }
  simpl in H1, H2. split_and!; [| |apply Hsort..].
  - intros name. simpl. unfold sortedEntryNames. rewrite sort_Strings_elem, range_set_elem, H1. unfold hidden.
    rewrite hide_deleted_spec, elem_of_list_to_set. unfold base. unfold base_lists in Hbase. rewrite Hbase. unfold FileExists.
    assert (forall name, abs (ds ++ [name]) ∈ (range_map (overlay_files o)).*1 <-> is_Some (overlay_files o !! abs (ds ++ [name]))) as Hin.
    { intros n. rewrite list_elem_of_fmap. split.
      - intros ([p s] & E & Hkv%range_map_elem). simpl in E. rewrite E. by eexists.
      - intros [s Hs]. exists (abs (ds ++ [n]), s). split; [done|]. by apply range_map_elem. }
    split.
    + intros [[[Hn Hb] Hdel]|(fs & Hfs & Hp & ->)].
      * split; [done|]. rewrite cleanOverlayPath_abs by (apply Forall_app; auto).
        rewrite bool_decide_eq_false_2; [by destruct (overlay_files o !! _)|]. intros Hx.
        apply (Hdel (abs (ds ++ [name]))); [by apply range_set_elem|by apply Dir_abs|by apply Base_abs].
      * apply Forall_app in Hp as [_ Hn]. apply Forall_cons in Hn as [Hn _]. split; [done|].
        rewrite cleanOverlayPath_abs by (apply Forall_app; auto). apply Hin in Hfs as [s Hs].
        rewrite bool_decide_eq_false_2; [by rewrite Hs|]. intros Hx. rewrite K3 in Hs by done. done.
    + intros [Hn Hx]. rewrite cleanOverlayPath_abs in Hx by (apply Forall_app; auto). case_bool_decide as Hdel; [done|].
      destruct (overlay_files o !! abs (ds ++ [name])) as [s|] eqn:Es.
      * right. exists (ds ++ [name]). split_and!; [apply Hin; by eexists|apply Forall_app; auto|done].
      * left. split; [done|]. intros file Hfile%range_set_elem Hdir Hb. apply Hdel.
        destruct (K2 file Hfile) as (names & -> & Hp & Hne). destruct names as [|c cs _] using rev_ind; [done|].
        apply Forall_app in Hp as [Hp Hc]. apply Forall_cons in Hc as [Hc _]. rewrite Dir_abs in Hdir by done. rewrite Base_abs in Hb by done.
        apply abs_inj in Hdir; [|done..]. by subst.
  - intros name. simpl. unfold sortedEntryNames. rewrite sort_Strings_elem, range_set_elem, H2, elem_of_list_to_set.
    split; (intros [?|H]; [by left|right]).
    + destruct H as (fs & x & rest & Hfs & Hp & ->). apply Forall_app in Hp as [_ Hp]. exists x, rest.
      apply list_elem_of_fmap in Hfs as ([p s] & E & Hkv%range_map_elem). simpl in E. exists s. by rewrite E.
    + destruct H as (x & rest & s & Hp & Hs). exists (ds ++ name :: x :: rest), x, rest. split_and!; [|by apply Forall_app|done].
      apply list_elem_of_fmap. exists (abs (ds ++ name :: x :: rest), s). split; [done|]. by apply range_map_elem.
Qed.
End Reads.

(** ** A sample file system *)

Definition file_entry (name : string) : DirEntry := mkEntry name false (mkInfo name 0 false).

(** Two files and a directory; a walk calls back for each file until told to stop. *)
#[local] Instance sample_vfs : VFS := {|
  base_FileExists p := bool_decide (p ∈ ["/p/a.ts"; "/p/b.ts"]);
  base_ReadFile p := if bool_decide (p ∈ ["/p/a.ts"; "/p/b.ts"]) then Some "base" else None;
  base_DirectoryExists p := bool_decide (p ∈ ["/p"; "/p/src"]);
  base_GetAccessibleEntries p := if String.eqb p "/p" then mkEntries ["a.ts"; "b.ts"] ["src"] None else mkEntries [] [] None;
  base_Stat p := if bool_decide (p ∈ ["/p/a.ts"; "/p/b.ts"]) then Some (mkInfo (Base p) 4 false) else None;
  base_Realpath p := p;
  base_WalkDir S root walkFn s :=
    match walkFn "/p/a.ts" (file_entry "a.ts") None s with
    | (s, Some e) => (s, Some e)
    | (s, None) => walkFn "/p/b.ts" (file_entry "b.ts") None s
    end;
|}.

Definition sample_edits : list edit := [SetFile "/p/gen/x.ts" "1"; DeleteFile "/p/./a.ts"; SetFile "/p//c.ts" "22"].

Lemma plain_dec_names : Forall plain ["p"] /\ Forall plain ["p"; "gen"; "x.ts"] /\ Forall plain ["p"; "a.ts"] /\ Forall plain ["p"; "c.ts"].
Proof. split_and!; repeat constructor; done. Qed.

Lemma sample_edits_proper : Forall proper_edit sample_edits.
Proof.
  destruct plain_dec_names as (_ & H1 & H2 & H3). repeat constructor;
    [exists ["p"; "gen"; "x.ts"]|exists ["p"; "a.ts"]|exists ["p"; "c.ts"]]; (split; [reflexivity|done]).
Qed.

Lemma sample_lists : base_lists ["p"].
Proof.
  assert (forall name, plain name -> forall n, plain n -> abs ["p"; name] = abs ["p"; n] -> name = n) as Hinj.
  { intros name Hn n Hn' E. assert (forall x, plain x -> Forall plain ["p"; x]) as Hp by (intros; constructor; [done|by constructor]).
    apply abs_inj in E; [congruence|by apply Hp..]. }
  assert (plain "a.ts" /\ plain "b.ts") as [Ha Hb] by done. intros name.
  change (name ∈ ["a.ts"; "b.ts"] <-> plain name /\ bool_decide (abs ["p"; name] ∈ [abs ["p"; "a.ts"]; abs ["p"; "b.ts"]]) = true).
  rewrite bool_decide_eq_true, !elem_of_cons. split.
  - intros [->|[->|?%elem_of_nil]]; [| |done]; (split; [done|]); [by left|by right; left].
  - intros [Hn [E|[E|?%elem_of_nil]]]; [left; by apply Hinj|right; left; by apply Hinj|done].
Qed.

Lemma overlay_lists_what_exists_witness :
  let listing := GetAccessibleEntries (edited sample_edits) "/p" in
  Overlay.Files listing = ["b.ts"; "c.ts"] /\ Directories listing = ["gen"; "src"] /\
  (forall name, name ∈ Overlay.Files listing <-> plain name /\ FileExists (edited sample_edits) (abs ["p"; name]) = true).
Proof.
  split; [vm_compute; reflexivity|]. split; [vm_compute; reflexivity|].
  exact (proj1 (overlay_lists_what_exists sample_edits ["p"] sample_edits_proper (proj1 plain_dec_names) sample_lists)).
Defined.

(** A callback that skips directories sees what is in them, if the directory
    is one of the overlay: [SkipDir] only moves on to the next path. *)
Definition skip_directories (path : string) (entry : DirEntry) (err : option error) (seen : list string) : list string * option error :=
  (seen ++ [path], if de_directory entry then Some SkipDir else None).

Example skipped_directory_is_walked :
  WalkDir (edited sample_edits) "/p" skip_directories [] = (["/p/b.ts"; "/p/c.ts"; "/p/gen"; "/p/gen/x.ts"], None).
Proof. vm_compute. reflexivity. Qed.

(** A directory that only the overlay has exists and has no information. *)
Example overlay_directory_without_stat :
  (DirectoryExists (edited sample_edits) "/p/gen", Stat (edited sample_edits) "/p/gen") = (true, None).
Proof. vm_compute. reflexivity. Qed.
