(* ===== verification/Compiler.v ===== *)
(** * The compiler behind the adapter

    The adapter of src/internal/typefacts/tsgo queries a vendored TypeScript
    compiler. Everything the adapter reads of it is a field of the class
    [Compiler]: programs, checkers, source files and symbols are opaque, with
    the equality of their pointers; a syntax tree is a finite tree whose nodes
    carry an opaque identity. A checker answers the same question the same way
    for as long as it lives, so queries are functions of it. *)

From S2P Require Import Prelude GoStd GoText.

(** A syntax node: its own identity and, in source order, the children that
    [ForEachChild] calls back with. *)
Inductive tree (I : Type) : Type := Tree (node_id : I) (children : list (tree I)).
Arguments Tree {I} node_id children.

Definition node_id {I} (node : tree I) : I := match node with Tree i _ => i end.
Definition children {I} (node : tree I) : list (tree I) := match node with Tree _ l => l end.

(** Every node below and at a node, parents before children: the order a
    visitor that never stops sees them in. *)
Fixpoint preorder {I} (node : tree I) : list (tree I) :=
  match node with Tree i l => node :: flat_map preorder l end.

Class Compiler := {
  NodeID : Type;
  Symbol : Type;
  SourceFile : Type;
  Specifier : Type;
  Program : Type;
  Checker : Type;
  Symbol_eq :: EqDecision Symbol;
  Symbol_countable :: Countable Symbol;
  SourceFile_eq :: EqDecision SourceFile;
  SourceFile_countable :: Countable SourceFile;

  (* programs *)
  SourceFiles : Program -> list SourceFile;
  GetSourceFile : Program -> string -> option SourceFile;
  GetResolvedModuleFromModuleSpecifier : Program -> SourceFile -> Specifier -> option string;

  (* source files *)
  FileName : SourceFile -> string;
  Text : SourceFile -> string;
  IsDeclarationFile : SourceFile -> bool;
  IsExternalModule : SourceFile -> bool;
  Imports : SourceFile -> list Specifier;
  Statements : SourceFile -> list (tree NodeID);
  file_Symbol : SourceFile -> option Symbol;
  SkipTrivia : string -> Z -> Z;

  (* nodes; [Ancestors] follows the parent pointers, nearest first *)
  Pos : NodeID -> Z;
  End_ : NodeID -> Z;
  Ancestors : NodeID -> list NodeID;
  node_Name : NodeID -> option NodeID;
  GetSourceFileOfNode : NodeID -> option SourceFile;
  GetNodeAtPosition : SourceFile -> Z -> option (tree NodeID);
  IsIdentifier : NodeID -> bool;
  IsDeclarationNameOrImportPropertyName : NodeID -> bool;
  IsQualifiedName : NodeID -> bool;
  IsPartOfTypeNode : NodeID -> bool;
  IsExternalModuleAugmentation : NodeID -> bool;
  IsGlobalScopeAugmentation : NodeID -> bool;

  (* symbols *)
  sym_Name : Symbol -> string;
  IsAlias : Symbol -> bool;
  Declarations : Symbol -> list NodeID;
  ValueDeclaration : Symbol -> option NodeID;

  (* checkers *)
  GetSymbolAtLocation : Checker -> NodeID -> option Symbol;
  GetAliasedSymbol : Checker -> Symbol -> option Symbol;
  GetExportsOfModule : Checker -> Symbol -> list Symbol;
}.

Section Files.
Context `{C : !Compiler}.

(** The path under which the adapter knows a file. *)
Definition file_path (file : SourceFile) : string := Clean (FileName file).

(** [program.GetSourceFile(path)] is there, or is the one given. *)
Definition in_program (program : Program) (path : string) : bool :=
  match GetSourceFile program path with Some _ => true | None => false end.
End Files.
