(* ===== verification/SemanticTypes.v ===== *)
(** * Facts about types (semantic_entities.go, array_shapes.go,
    library_types.go, object_construction_shapes.go)

    What the adapter concludes from a type of the compiler: whether it can be
    called or constructed, which values it admits, whether it is an array or a
    tuple, which library types it is built from, and whether an empty object
    inhabits it, which literals it names. Types and what the checker says of them are a class; a set of
    flags is tested one flag at a time. The walks over types keep the types on
    the way, and take fuel for their depth. *)

From S2P Require Import Prelude GoStd GoText SortedPaths Model Domain FactEqual Compiler.

Inductive TypeFlag :=
| TypeFlagsAny | TypeFlagsUnknown | TypeFlagsNever | TypeFlagsIncludesError | TypeFlagsInstantiable | TypeFlagsTypeParameter
| TypeFlagsUnion | TypeFlagsIntersection | TypeFlagsObject | TypeFlagsUndefined | TypeFlagsNull | TypeFlagsVoid
| TypeFlagsStringLike | TypeFlagsNumberLike | TypeFlagsBooleanLike | TypeFlagsBigIntLike | TypeFlagsESSymbolLike
| TypeFlagsStringLiteral | TypeFlagsNumberLiteral | TypeFlagsBooleanLiteral | TypeFlagsEnumLiteral.

Inductive SignatureKind := SignatureKindCall | SignatureKindConstruct.

(** The types a checker can give for the primitive values. *)
Inductive PrimitiveType := StringType | NumberType | BooleanType | BigIntType | ESSymbolType | NullType | UndefinedType.

(** The value of a literal type, by its dynamic type. *)
Inductive LiteralValue := StringValue (text : string) | NumberValue (number : Z) | BooleanValue (boolean : bool) | OtherValue.

(** An element of a tuple: whether its flags meet [ElementFlagsNonRequired]
    and [ElementFlagsVariable]. *)
Record ElementFlags := mkElementFlags { NonRequired : bool; Variable_ : bool }.

Record TupleTarget := mkTupleTarget { target_FixedLength : Z; target_ElementFlags : list ElementFlags }.

Class TypeChecker `{C : !Compiler} := {
  CType : Type;
  Signature : Type;
  CType_eq :: EqDecision CType;
  CType_countable :: Countable CType;
  Flags : CType -> TypeFlag -> bool;
  Distributed : CType -> list (option CType);
  Types : CType -> list (option CType);
  type_Symbol : CType -> option Symbol;
  IsTupleType : CType -> bool;
  TargetTupleType : CType -> option TupleTarget;
  AsLiteralType : CType -> LiteralValue;
  MinArgumentCount : Signature -> Z;
  IsOptional : Symbol -> bool;
  file_Path : SourceFile -> string;
  IsSourceFileDefaultLibrary : Program -> string -> bool;
  GetTypeAtLocation : Checker -> NodeID -> option CType;
  GetSignaturesOfType : Checker -> CType -> SignatureKind -> list Signature;
  GetPropertiesOfType : Checker -> CType -> list (option Symbol);
  GetTypeOfPropertyOfType : Checker -> CType -> string -> option CType;
  GetConstraintOfTypeParameter : Checker -> CType -> option CType;
  getBaseConstraintOfType : Checker -> CType -> option CType;
  getReducedApparentType : Checker -> CType -> option CType;
  isUntypedFunctionCall : Checker -> CType -> CType -> bool;
  isArrayOrTupleType : Checker -> CType -> bool;
  getTypeArguments : Checker -> CType -> list (option CType);
  GetPrimitiveType : Checker -> PrimitiveType -> CType;
  IsTypeAssignableTo : Checker -> CType -> CType -> bool;
}.

Section SemanticTypes.
Context `{C : !Compiler} `{TC : !TypeChecker} (checker : Checker).

(** [value.Flags()&(f1|f2|...) != 0]. *)
Definition flagged (value : CType) (flags : list TypeFlag) : bool := existsb (Flags value) flags.

(** ** The accessors of the shim *)

Definition float_is_finite (number : Z) : bool := negb (is_inf number) && negb (is_nan number).

Definition NumberLiteralIsFinite (value : CType) : bool :=
  if Flags value TypeFlagsNumberLiteral then match AsLiteralType value with NumberValue number => float_is_finite number | _ => false end
  else false.

Definition PrimitiveStringLiteral (value : CType) : option string :=
  if Flags value TypeFlagsStringLiteral && negb (Flags value TypeFlagsEnumLiteral) then match AsLiteralType value with StringValue text => Some text | _ => None end
  else None.

Definition PrimitiveNumberLiteral (value : CType) : option Z :=
  if Flags value TypeFlagsNumberLiteral && negb (Flags value TypeFlagsEnumLiteral) then
    match AsLiteralType value with NumberValue number => if float_is_finite number then Some number else None | _ => None end
  else None.

Definition PrimitiveBooleanLiteral (value : CType) : option bool :=
  if Flags value TypeFlagsBooleanLiteral then match AsLiteralType value with BooleanValue boolean => Some boolean | _ => None end
  else None.

Definition has_signatures (value : CType) (kind : SignatureKind) : bool :=
  match GetSignaturesOfType checker value kind with [] => false | _ => true end.

(** ** Callability and constructability *)

Definition openCallFlags : list TypeFlag := [TypeFlagsAny; TypeFlagsUnknown; TypeFlagsNever; TypeFlagsIncludesError].

Definition callableWithoutSignatures (value : CType) : bool :=
  if has_signatures value SignatureKindConstruct then false
  else
    match getReducedApparentType checker value with
    | None => false
    | Some apparent => if flagged apparent openCallFlags then false else isUntypedFunctionCall checker value apparent
    end.

(** The classes of the constituents, unless one of them is not there or open. *)
Definition classes {A} (openFlags : list TypeFlag) (classify : CType -> A) (constituents : list (option CType)) : option (list A) :=
  mapM (fun constituent =>
    match constituent with
    | Some constituent => if flagged constituent openFlags then None else Some (classify constituent)
    | None => None
    end) constituents.

(** The classes of a type's constituents; [None] where the code says unknown. *)
Definition classes_of {A} (openFlags : list TypeFlag) (classify : CType -> A) (value : option CType) : option (list A) :=
  match value with
  | None => None
  | Some value =>
      if flagged value openFlags then None
      else match Distributed value with [] => None | constituents => classes openFlags classify constituents end
  end.

Inductive call_class := Callable_ | UntypedCallable_ | NonCallable_.

#[global] Instance call_class_eq : EqDecision call_class.
Proof. solve_decision. Defined.

Definition call_class_of (constituent : CType) : call_class :=
  if has_signatures constituent SignatureKindCall then Callable_
  else if callableWithoutSignatures constituent then UntypedCallable_ else NonCallable_.

Definition callabilityOfType (value : option CType) : Callability :=
  match classes_of openCallFlags call_class_of value with
  | None => CallabilityUnknown
  | Some l =>
      let callable := bool_decide (Callable_ ∈ l) in
      let untypedCallable := bool_decide (UntypedCallable_ ∈ l) in
      let nonCallable := bool_decide (NonCallable_ ∈ l) in
      if nonCallable && (callable || untypedCallable) then CallabilityMixed
      else if untypedCallable then CallabilityUntypedCallable
      else if callable then CallabilityCallable
      else CallabilityNonCallable
  end.

Definition constructabilityOfType (value : option CType) : Constructability :=
  match classes_of openCallFlags (fun constituent => has_signatures constituent SignatureKindConstruct) value with
  | None => ConstructabilityUnknown
  | Some l =>
      let constructable := bool_decide (true ∈ l) in
      let nonConstructable := bool_decide (false ∈ l) in
      if constructable && nonConstructable then ConstructabilityMixed
      else if constructable then ConstructabilityConstructable
      else ConstructabilityNonConstructable
  end.

(** ** Arrays and tuples *)

Definition openArrayShapeFlags : list TypeFlag :=
  [TypeFlagsAny; TypeFlagsUnknown; TypeFlagsNever; TypeFlagsIncludesError; TypeFlagsInstantiable].

Definition arrayShapeOfType (value : option CType) : ArrayShape :=
  match classes_of openArrayShapeFlags (isArrayOrTupleType checker) value with
  | None => ArrayShapeUnknown
  | Some l =>
      let array := bool_decide (true ∈ l) in
      let notArray := bool_decide (false ∈ l) in
      if array && notArray then ArrayShapeMixed else if array then ArrayShapeArray else ArrayShapeNotArray
  end.

Definition minimumParameterCount (value : option CType) : Z :=
  match value with
  | None => 0
  | Some value =>
      foldl (fun minimum '(index, signature) =>
        if (index =? 0)%nat || (MinArgumentCount signature <? minimum) then MinArgumentCount signature else minimum)
        0 (imap pair (GetSignaturesOfType checker value SignatureKindCall))
  end.

Definition tuple_element (shape : TupleShape) (flags : ElementFlags) : TupleShape :=
  let shape :=
    if NonRequired flags then mkTupleShape (FixedLength shape) 0 false (HasRest shape) (ElementZero shape) (ElementZeroMinimumParameters shape)
    else shape in
  if Variable_ flags then
    mkTupleShape (FixedLength shape) (ExactLength shape) (ExactLengthKnown shape) true (ElementZero shape) (ElementZeroMinimumParameters shape)
  else shape.

Definition tupleShapeOfType (value : CType) : option TupleShape :=
  if negb (IsTupleType value) then None
  else
    match TargetTupleType value with
    | None => None
    | Some target =>
        let shape := mkTupleShape (target_FixedLength target) (target_FixedLength target) true false CallabilityUnknown 0 in
        let shape := foldl tuple_element shape (target_ElementFlags target) in
        Some
          match getTypeArguments checker value with
          | element :: _ =>
              if 0 <? FixedLength shape then
                mkTupleShape (FixedLength shape) (ExactLength shape) (ExactLengthKnown shape) (HasRest shape)
                  (callabilityOfType element) (minimumParameterCount element)
              else shape
          | [] => shape
          end
    end.

Definition isCallableInEitherSense (value : Callability) : bool :=
  String.eqb value CallabilityCallable || String.eqb value CallabilityUntypedCallable.

Definition meet_callability (left right : Callability) : Callability :=
  if String.eqb left right then left
  else if String.eqb left CallabilityUnknown || String.eqb right CallabilityUnknown then CallabilityUnknown
  else if isCallableInEitherSense left && isCallableInEitherSense right then CallabilityUntypedCallable
  else CallabilityMixed.

Definition meetTupleShapes (left right : TupleShape) : TupleShape :=
  let known := ExactLengthKnown left && ExactLengthKnown right && (ExactLength left =? ExactLength right) in
  mkTupleShape (Z.min (FixedLength left) (FixedLength right)) (if known then ExactLength left else 0) known
    (HasRest left && HasRest right) (meet_callability (ElementZero left) (ElementZero right))
    (Z.max (ElementZeroMinimumParameters left) (ElementZeroMinimumParameters right)).

(** One constituent of the type: [None] gives the shape up. *)
Definition merge_constituent (merged : option (option TupleShape)) (constituent : option CType) : option (option TupleShape) :=
  match merged, constituent with
  | None, _ | _, None => None
  | Some merged, Some constituent =>
      if flagged constituent openArrayShapeFlags then None
      else if flagged constituent [TypeFlagsUndefined; TypeFlagsNull; TypeFlagsVoid] then Some merged
      else
        match tupleShapeOfType constituent with
        | None => None
        | Some shape => Some (Some (match merged with None => shape | Some merged => meetTupleShapes merged shape end))
        end
  end.

(** The tuple shape of a type, before its evidence is recorded. *)
Definition tuple_shape (value : option CType) : option TupleShape :=
  match value with
  | None => None
  | Some value =>
      if flagged value openArrayShapeFlags then None
      else match foldl merge_constituent (Some None) (Distributed value) with Some merged => merged | None => None end
  end.

(** ** Library types *)

(** The declaration lives in a default-library file. *)
Definition library_declaration (program : Program) (declaration : NodeID) : bool :=
  match GetSourceFileOfNode declaration with
  | Some sourceFile => IsSourceFileDefaultLibrary program (file_Path sourceFile)
  | None => false
  end.

Definition libraryTypeName (program : Program) (value : CType) : string :=
  match type_Symbol value with
  | None => ""
  | Some symbol => if existsb (library_declaration program) (Declarations symbol) then sym_Name symbol else ""
  end.

Fixpoint collectLibraryTypes (fuel : nat) (program : Program) (value : option CType) (names : gset string) (descend : bool) : gset string :=
  match fuel, value with
  | O, _ | _, None => names
  | S fuel, Some value =>
      if Flags value TypeFlagsIntersection then
        foldl (fun names member => collectLibraryTypes fuel program member names descend) names (Types value)
      else
        let name := libraryTypeName program value in
        let names := if String.eqb name "" then names else {[name]} ∪ names in
        if descend && isArrayOrTupleType checker value then
          foldl (fun names element =>
            match element with
            | None => names
            | Some element => foldl (fun names constituent => collectLibraryTypes fuel program constituent names false) names (Distributed element)
            end) names (getTypeArguments checker value)
        else names
  end.

Definition library_types (fuel : nat) (program : Program) (value : option CType) : list string :=
  match value with
  | None => []
  | Some value =>
      sort_Strings (elements
        (foldl (fun names constituent => collectLibraryTypes fuel program constituent names true) ∅ (Distributed value)))
  end.

(** ** Values *)

(** The constraint of a type parameter, or of another instantiable type. *)
Definition constraint_of (value : CType) : option CType :=
  if Flags value TypeFlagsTypeParameter then GetConstraintOfTypeParameter checker value else getBaseConstraintOfType checker value.

Definition unknownRuntimeValueDomain : RuntimeValueDomain := mkRuntimeValueDomain true true true true.

Definition emptyRuntimeValueDomain : RuntimeValueDomain := mkRuntimeValueDomain false false false false.

Definition join_runtime (domain part : RuntimeValueDomain) : RuntimeValueDomain :=
  mkRuntimeValueDomain (MayBeCallable domain || MayBeCallable part) (Model.MayBeUndefined domain || Model.MayBeUndefined part)
    (MayBeOther domain || MayBeOther part) (Unknown domain || Unknown part).

Definition assignable_to (value : CType) (primitive : PrimitiveType) : bool :=
  IsTypeAssignableTo checker value (GetPrimitiveType checker primitive).

(** A type that is neither instantiable beyond itself nor a union. *)
Definition runtime_leaf (value : CType) : RuntimeValueDomain :=
  if Flags value TypeFlagsUndefined || Flags value TypeFlagsVoid then mkRuntimeValueDomain false true false false
  else if has_signatures value SignatureKindCall then mkRuntimeValueDomain true false false false
  else if assignable_to value UndefinedType then mkRuntimeValueDomain false true false false
  else mkRuntimeValueDomain false false true false.

Fixpoint runtimeValueDomainOfTypeSeen (fuel : nat) (seen : gset CType) (value : option CType) : RuntimeValueDomain :=
  match fuel, value with
  | O, _ | _, None => unknownRuntimeValueDomain
  | S fuel, Some value =>
      if flagged value [TypeFlagsAny; TypeFlagsUnknown; TypeFlagsIncludesError] then unknownRuntimeValueDomain
      else if Flags value TypeFlagsNever then emptyRuntimeValueDomain
      else if bool_decide (value ∈ seen) then unknownRuntimeValueDomain
      else
        let seen := {[value]} ∪ seen in
        let rest :=
          if Flags value TypeFlagsUnion then
            foldl (fun domain constituent => join_runtime domain (runtimeValueDomainOfTypeSeen fuel seen constituent)) emptyRuntimeValueDomain (Types value)
          else runtime_leaf value in
        if Flags value TypeFlagsInstantiable then
          match constraint_of value with
          | None => unknownRuntimeValueDomain
          | Some constraint => if bool_decide (constraint = value) then rest else runtimeValueDomainOfTypeSeen fuel seen (Some constraint)
          end
        else rest
  end.

Definition runtimeValueDomainOfType (fuel : nat) (value : option CType) : RuntimeValueDomain := runtimeValueDomainOfTypeSeen fuel ∅ value.

(** The domain with one kind. *)
Definition only_string := NewPrimitiveValueDomain true false false false false false false false false.
Definition only_number (finite : bool) := NewPrimitiveValueDomain false true false false false false false false finite.
Definition only_boolean := NewPrimitiveValueDomain false false true false false false false false false.
Definition only_bigint := NewPrimitiveValueDomain false false false true false false false false false.
Definition only_symbol := NewPrimitiveValueDomain false false false false true false false false false.
Definition only_null := NewPrimitiveValueDomain false false false false false true false false false.
Definition only_undefined := NewPrimitiveValueDomain false false false false false false true false false.
Definition only_object := NewPrimitiveValueDomain false false false false false false false true false.
Definition no_primitive := NewPrimitiveValueDomain false false false false false false false false false.

Definition primitive_leaf (value : CType) : PrimitiveValueDomain :=
  if Flags value TypeFlagsStringLike then only_string
  else if Flags value TypeFlagsNumberLike then only_number (NumberLiteralIsFinite value)
  else if Flags value TypeFlagsBooleanLike then only_boolean
  else if Flags value TypeFlagsBigIntLike then only_bigint
  else if Flags value TypeFlagsESSymbolLike then only_symbol
  else if Flags value TypeFlagsNull then only_null
  else if flagged value [TypeFlagsUndefined; TypeFlagsVoid] then only_undefined
  else if Flags value TypeFlagsIncludesError then UnknownPrimitiveValueDomain
  else if assignable_to value StringType then only_string
  else if assignable_to value NumberType then only_number false
  else if assignable_to value BooleanType then only_boolean
  else if assignable_to value BigIntType then only_bigint
  else if assignable_to value ESSymbolType then only_symbol
  else if assignable_to value NullType then only_null
  else if assignable_to value UndefinedType then only_undefined
  else only_object.

Fixpoint primitiveValueDomainOfTypeSeen (fuel : nat) (seen : gset CType) (value : option CType) : PrimitiveValueDomain :=
  match fuel, value with
  | O, _ | _, None => UnknownPrimitiveValueDomain
  | S fuel, Some value =>
      if flagged value [TypeFlagsAny; TypeFlagsUnknown] then UnknownPrimitiveValueDomain
      else if Flags value TypeFlagsNever then no_primitive
      else if bool_decide (value ∈ seen) then UnknownPrimitiveValueDomain
      else
        let seen := {[value]} ∪ seen in
        let rest :=
          if Flags value TypeFlagsUnion then
            foldl (fun domain constituent => Union domain (primitiveValueDomainOfTypeSeen fuel seen constituent)) (mkPrimitiveValueDomain 0) (Types value)
          else primitive_leaf value in
        if Flags value TypeFlagsInstantiable then
          match constraint_of value with
          | None => UnknownPrimitiveValueDomain
          | Some constraint => if bool_decide (constraint = value) then rest else primitiveValueDomainOfTypeSeen fuel seen (Some constraint)
          end
        else rest
  end.

Definition primitiveValueDomainOfType (fuel : nat) (value : option CType) : PrimitiveValueDomain := primitiveValueDomainOfTypeSeen fuel ∅ value.

(** ** Literal candidates *)

Definition maxPrimitiveLiteralCandidates : nat := 32.

(** [cmp.Compare] on numbers: below zero, a smaller pattern is a larger number;
    NaN is below everything. *)
Definition float_order (number : Z) : Z :=
  if is_nan number then - 2 ^ 64
  else if Z.testbit number 63 then - Z.land number (2 ^ 63 - 1) else number.

(** The comparison of the sort is negative. *)
Definition literal_less (left right : PrimitiveLiteralCandidate) : bool :=
  if negb (String.eqb (plc_Kind left) (plc_Kind right)) then String.ltb (plc_Kind left) (plc_Kind right)
  else if String.eqb (plc_Kind left) PrimitiveLiteralString then String.ltb (plc_String left) (plc_String right)
  else if String.eqb (plc_Kind left) PrimitiveLiteralNumber then float_order (plc_Number left) <? float_order (plc_Number right)
  else if String.eqb (plc_Kind left) PrimitiveLiteralBoolean then negb (plc_Boolean left) && plc_Boolean right
  else false.

(** What [slices.Compact] keeps behind an element. *)
Fixpoint compact_behind {A} (eq : A -> A -> bool) (previous : A) (l : list A) : list A :=
  match l with
  | [] => []
  | x :: l => if eq x previous then compact_behind eq x l else x :: compact_behind eq x l
  end.

Definition slices_Compact {A} (eq : A -> A -> bool) (l : list A) : list A :=
  match l with [] => [] | x :: l => x :: compact_behind eq x l end.

(** The candidate of a literal type. *)
Definition literal_candidate (value : CType) : option PrimitiveLiteralCandidate :=
  match PrimitiveStringLiteral value with
  | Some text => Some (mkPrimitiveLiteralCandidate PrimitiveLiteralString text 0 false)
  | None =>
      match PrimitiveNumberLiteral value with
      | Some number => Some (mkPrimitiveLiteralCandidate PrimitiveLiteralNumber "" number false)
      | None => mkPrimitiveLiteralCandidate PrimitiveLiteralBoolean "" 0 <$> PrimitiveBooleanLiteral value
      end
  end.

Fixpoint collect (fuel : nat) (seen : gset CType) (candidates : list PrimitiveLiteralCandidate) (current : option CType) : list PrimitiveLiteralCandidate :=
  match fuel, current with
  | O, _ | _, None => candidates
  | S fuel, Some current =>
      if (maxPrimitiveLiteralCandidates <=? length candidates)%nat then candidates
      else if flagged current openCallFlags then candidates
      else if bool_decide (current ∈ seen) then candidates
      else
        let seen := {[current]} ∪ seen in
        if Flags current TypeFlagsInstantiable then
          match constraint_of current with
          | Some constraint => if bool_decide (constraint = current) then candidates else collect fuel seen candidates (Some constraint)
          | None => candidates
          end
        else if Flags current TypeFlagsUnion then foldl (collect fuel seen) candidates (Types current)
        else candidates ++ option_list (literal_candidate current)
  end.

Definition primitiveLiteralCandidatesOfType (fuel : nat) (value : option CType) : list PrimitiveLiteralCandidate :=
  slices_Compact literal_eq (sort_slice literal_less (collect fuel ∅ [] value)).

(** ** Construction shapes *)

Definition openConstructionShapeFlags : list TypeFlag := [TypeFlagsAny; TypeFlagsUnknown; TypeFlagsNever; TypeFlagsIncludesError].

(** A constituent that nothing is required of. *)
Definition requires_nothing (constituent : option CType) : bool :=
  match constituent with
  | None => false
  | Some constituent =>
      negb (has_signatures constituent SignatureKindCall) && negb (has_signatures constituent SignatureKindConstruct) &&
      forallb (fun property => match property with Some property => IsOptional property | None => true end) (GetPropertiesOfType checker constituent)
  end.

Fixpoint emptyObjectInhabits (fuel : nat) (seen : gset CType) (value : option CType) : bool :=
  match fuel, value with
  | O, _ | _, None => false
  | S fuel, Some value =>
      if flagged value openConstructionShapeFlags then false
      else if bool_decide (value ∈ seen) then false
      else
        let seen := {[value]} ∪ seen in
        if Flags value TypeFlagsTypeParameter then emptyObjectInhabits fuel seen (getBaseConstraintOfType checker value)
        else if Flags value TypeFlagsIntersection then
          match Types value with [] => false | constituents => forallb (emptyObjectInhabits fuel seen) constituents end
        else if Flags value TypeFlagsUnion then existsb (emptyObjectInhabits fuel seen) (Types value)
        else if negb (Flags value TypeFlagsObject) then
          match getBaseConstraintOfType checker value with
          | Some constraint => negb (bool_decide (constraint = value)) && emptyObjectInhabits fuel seen (Some constraint)
          | None => false
          end
        else match Distributed value with [] => false | constituents => forallb requires_nothing constituents end
  end.

(** A tuple that an empty array is not. *)
Definition requires_element (constituent : option CType) : bool :=
  match constituent with
  | Some constituent =>
      IsTupleType constituent &&
      match TargetTupleType constituent with
      | None => true
      | Some target => existsb (fun flags => negb (NonRequired flags)) (target_ElementFlags target)
      end
  | None => false
  end.

Definition constructionWitness (fuel : nat) (value : option CType) : ConstructionWitness :=
  match value with
  | None => ConstructionWitnessUnknown
  | Some v =>
      if flagged v openConstructionShapeFlags then ConstructionWitnessUnknown
      else if String.eqb (arrayShapeOfType value) ArrayShapeArray then
        if existsb requires_element (Distributed v) then ConstructionWitnessUnknown else ConstructionWitnessEmptyArray
      else if emptyObjectInhabits fuel ∅ value then ConstructionWitnessEmptyObject
      else ConstructionWitnessUnknown
  end.

(** The required properties with their witnesses; [None] when one has no type. *)
Definition required_properties (fuel : nat) (value : CType) : option (list ObjectConstructionProperty) :=
  mapM (fun property =>
    propertyType ← GetTypeOfPropertyOfType checker value (sym_Name property);
    Some (mkObjectConstructionProperty (sym_Name property) (constructionWitness fuel (Some propertyType))))
    (filter (fun property => IsOptional property = false) (omap id (GetPropertiesOfType checker value))).

Definition objectConstructionShape (fuel : nat) (value : option CType) : option ObjectConstructionShape :=
  match value with
  | None => None
  | Some value =>
      if flagged value (TypeFlagsTypeParameter :: openConstructionShapeFlags) then None
      else (fun properties => mkObjectConstructionShape (sort_slice (key_less ocp_Name) properties)) <$> required_properties fuel value
  end.
End SemanticTypes.
