(* ===== verification/ImportGraph.v ===== *)
(** * The retained import graph (project.go)

    The adapter keeps, for the accepted program, the resolved dependencies of
    every file and the inverted index. A content edit that leaves the edges of
    its file alone keeps the graph; any other update rebuilds it. The files an
    update affects are found by walking the inverted indexes of both
    generations from the changed paths. *)

From S2P Require Import Prelude GoStd GoText TransportManifest Compiler.

Record importGraph := mkGraph {
  forwardDeps : gmap string (list string);
  reverseDeps : gmap string (gset string);
}.

Definition importers_of (graph : gmap string (gset string)) (dependency : string) : gset string :=
  default ∅ (graph !! dependency).

Definition addImportEdges (importer : string) (dependencies : list string) (reverse : gmap string (gset string)) :
    gmap string (gset string) :=
  foldl (fun reverse dependency => <[dependency := {[importer]} ∪ importers_of reverse dependency]> reverse) reverse dependencies.

Section Graph.
Context `{C : !Compiler}.

Definition moduleEdges (program : Program) (sourceFile : SourceFile) : list string :=
  omap (fun specifier => Clean <$> GetResolvedModuleFromModuleSpecifier program sourceFile specifier) (Imports sourceFile).

Definition add_file (program : Program) (g : importGraph) (sourceFile : SourceFile) : importGraph :=
  if IsDeclarationFile sourceFile then g
  else
    let importer := file_path sourceFile in
    let edges := moduleEdges program sourceFile in
    mkGraph (match edges with [] => forwardDeps g | _ => <[importer := edges]> (forwardDeps g) end)
      (addImportEdges importer edges (reverseDeps g)).

Definition rebuildImportGraph (program : Program) : importGraph :=
  foldl (add_file program) (mkGraph ∅ ∅) (SourceFiles program).

Definition patchImportGraph (g : importGraph) (program : Program) (path : string) : bool :=
  let path := Clean path in
  match GetSourceFile program path with
  | None => false
  | Some edited =>
      if IsDeclarationFile edited then false
      else bool_decide (moduleEdges program edited = default [] (forwardDeps g !! path))
  end.

Definition globalScopeChange (changedPaths : list string) (programs : list Program) : bool :=
  existsb (fun path =>
    existsb (fun program =>
      match GetSourceFile program (Clean path) with
      | None => false
      | Some sourceFile => negb (IsExternalModule sourceFile)
      end) programs) changedPaths.

Context `{MR : !MapRange}.

Definition everySourcePath (programs : list Program) : list string :=
  range_set (list_to_set (programs ≫= fun program => file_path <$> SourceFiles program)).
End Graph.

Section Walk.
Context `{MR : !MapRange} (graphs : list (gmap string (gset string))).

Definition push_importer (st : list string * gset string) (importer : string) : list string * gset string :=
  if bool_decide (importer ∈ st.2) then st else (st.1 ++ [importer], {[importer]} ∪ st.2).

(** What is called back on for a dependency that leaves the queue. *)
Definition next_importers (dependency : string) : list string :=
  graphs ≫= fun graph => range_set (importers_of graph dependency).

(** The loop [for len(queue) != 0]; [importer_count] says what it can push. *)
Fixpoint walk (fuel : nat) (queue : list string) (affected : gset string) : list string * gset string :=
  match fuel, queue with
  | S fuel', dependency :: queue' =>
      let '(queue', affected) := foldl push_importer (queue', affected) (next_importers dependency) in
      walk fuel' queue' affected
  | _, _ => (queue, affected)
  end.

Definition all_importers : gset string := ⋃ (graphs ≫= fun graph => (map_to_list graph).*2).

Definition walked (changedPaths : list string) : list string * gset string :=
  let paths := map Clean changedPaths in
  walk (length paths + size all_importers) paths (list_to_set paths).

Definition affectedFromReverseDeps (changedPaths : list string) : list string := range_set (snd (walked changedPaths)).
End Walk.

(** ** The walk ends, and finds what can reach a changed path *)

Section WalkFacts.
Context `{MR : !MapRange} (graphs : list (gmap string (gset string))).

(** [i] imports [d] in one of the graphs. *)
Definition imports (d i : string) : Prop := exists graph, graph ∈ graphs /\ i ∈ importers_of graph d.

Lemma next_importers_elem d i : i ∈ next_importers graphs d <-> imports d i.
Proof.
  unfold next_importers, imports. rewrite list_elem_of_bind. setoid_rewrite range_set_elem. naive_solver.
Qed.

Lemma next_importers_all d : Forall (fun i => i ∈ all_importers graphs) (next_importers graphs d).
Proof.
  apply Forall_forall. intros i (g & Hg & Hi)%next_importers_elem. unfold all_importers, importers_of in *.
  apply elem_of_union_list. destruct (g !! d) as [ims|] eqn:E; [|set_solver]. exists ims. split; [|done].
  apply list_elem_of_bind. exists g. split; [|done]. apply list_elem_of_fmap. exists (d, ims).
  split; [done|]. by apply elem_of_map_to_list.
Qed.

(** Pushing takes from the paths not seen yet as much as it adds to the queue. *)
Lemma push_importers_spec (U : gset string) l queue seen : Forall (fun i => i ∈ U) l ->
  exists new, foldl push_importer (queue, seen) l = (queue ++ new, list_to_set l ∪ seen) /\
    (forall i, i ∈ new -> i ∈ l) /\ (forall i, i ∈ l -> i ∈ new \/ i ∈ seen) /\
    (length new + size (U ∖ (list_to_set l ∪ seen)) <= size (U ∖ seen))%nat.
Proof.
  revert queue seen. induction l as [|i l IH]; intros queue seen Hl; simpl.
  { exists []. rewrite app_nil_r. replace (∅ ∪ seen) with seen by set_solver. split_and!; [done|set_solver|set_solver|simpl; lia]. }
  apply Forall_cons in Hl as [Hi Hl]. unfold push_importer at 2. simpl. case_bool_decide as Hs.
  - destruct (IH queue seen Hl) as (new & E & H1 & H2 & H3). exists new.
    replace ({[i]} ∪ list_to_set l ∪ seen) with (list_to_set l ∪ seen) by set_solver. rewrite E.
    split_and!; [done|set_solver|set_solver|done].
  - destruct (IH (queue ++ [i]) ({[i]} ∪ seen) Hl) as (new & E & H1 & H2 & H3). exists (i :: new).
    rewrite E. replace (list_to_set l ∪ ({[i]} ∪ seen)) with ({[i]} ∪ list_to_set l ∪ seen) in * by set_solver.
    rewrite <- app_assoc. split_and!; [done|set_solver|set_solver|]. simpl.
    assert (size (U ∖ seen) = S (size (U ∖ ({[i]} ∪ seen)))) as ->; [|lia].
    replace (U ∖ seen) with ({[i]} ∪ U ∖ ({[i]} ∪ seen)).
    { rewrite size_union, size_singleton by set_solver. lia. }
    apply set_eq. intros x. destruct (decide (x = i)); set_solver.
Qed.

Record walk_ok (init : list string) (queue : list string) (seen : gset string) : Prop := {
  walk_init : forall x, x ∈ init -> x ∈ seen;
  walk_sound : forall x, x ∈ seen -> exists c, c ∈ init /\ rtc imports c x;
  walk_queue : forall x, x ∈ queue -> x ∈ seen;
  walk_done : forall x i, x ∈ seen -> imports x i -> x ∈ queue \/ i ∈ seen;
}.

Lemma walk_spec init fuel queue seen : walk_ok init queue seen ->
  (length queue + size (all_importers graphs ∖ seen) <= fuel)%nat ->
  exists affected, walk graphs fuel queue seen = ([], affected) /\ walk_ok init [] affected.
Proof.
  revert queue seen. induction fuel as [|fuel IH]; intros [|d queue] seen Hok Hf; simpl in *; try (by exists seen); [lia|].
  destruct (push_importers_spec (all_importers graphs) (next_importers graphs d) queue seen (next_importers_all d))
    as (new & -> & H1 & H2 & H3).
  apply IH; [|rewrite length_app; lia]. destruct Hok as [Hi Hs Hq Hd]. split.
  - set_solver.
  - intros x [Hx|Hx]%elem_of_union; [|by apply Hs]. apply elem_of_list_to_set, next_importers_elem in Hx.
    destruct (Hs d) as (c & Hc & Hr); [apply Hq; left|]. exists c. split; [done|]. by eapply rtc_r.
  - intros x [Hx|Hx]%elem_of_app; apply elem_of_union; [right; apply Hq; by right|left].
    apply elem_of_list_to_set. by apply H1.
  - intros x i [Hx|Hx]%elem_of_union Hxi.
    + apply elem_of_list_to_set in Hx. destruct (H2 x Hx) as [?|Hx']; [left; set_solver|].
      destruct (Hd x i Hx' Hxi) as [[-> | ]%elem_of_cons| ]; [|set_solver|set_solver].
      right. apply elem_of_union_l, elem_of_list_to_set. by apply next_importers_elem.
    + destruct (Hd x i Hx Hxi) as [[-> | ]%elem_of_cons| ]; [|set_solver|set_solver].
      right. apply elem_of_union_l, elem_of_list_to_set. by apply next_importers_elem.
Qed.

Lemma walked_ok changed : exists affected,
  walked graphs changed = ([], affected) /\ walk_ok (map Clean changed) [] affected.
Proof.
  apply walk_spec.
  - split; [set_solver| |set_solver|set_solver]. intros x Hx%elem_of_list_to_set. exists x. split; [done|apply rtc_refl].
  - pose proof (subseteq_size (all_importers graphs ∖ list_to_set (map Clean changed)) (all_importers graphs)) as H.
    specialize (H ltac:(set_solver)). simpl in H. unfold walked. lia.
Qed.

Lemma affected_elem changed x :
  x ∈ affectedFromReverseDeps graphs changed <-> exists c, c ∈ changed /\ rtc imports (Clean c) x.
Proof.
  unfold affectedFromReverseDeps. destruct (walked_ok changed) as (affected & -> & [Hi Hs Hq Hd]). simpl.
  rewrite range_set_elem. split.
  - intros (c & Hc & Hr)%Hs. apply list_elem_of_fmap in Hc as (c' & -> & Hc). by exists c'.
  - intros (c & Hc & Hr). assert (Clean c ∈ affected) as H by (apply Hi; by apply list_elem_of_fmap_2).
    induction Hr as [|a b z Hab Hr IH]; [done|]. apply IH. by destruct (Hd a b H Hab) as [?%elem_of_nil| ].
Qed.
End WalkFacts.

(** C12: The walk of what a change affects empties its queue within its bound, and gives without
    repetition exactly the files that reach a changed path over the edges of one of the graphs.
    *)
Theorem affectedFromReverseDeps_reaches `{MR : !MapRange} graphs changed :
  fst (walked graphs changed) = [] /\ NoDup (affectedFromReverseDeps graphs changed) /\
  forall x, x ∈ affectedFromReverseDeps graphs changed <->
    exists c, c ∈ changed /\ rtc (imports graphs) (Clean c) x.
Proof.
  unfold affectedFromReverseDeps. destruct (walked_ok graphs changed) as (affected & E & _). rewrite E.
  split; [done|]. split; [apply range_set_NoDup|]. intros x. rewrite <- affected_elem. unfold affectedFromReverseDeps. by rewrite E.
Qed.

(** ** The graph of a program *)

Section GraphFacts.
Context `{C : !Compiler}.

(** [i] imports [d] in the program. *)
Definition file_imports (program : Program) (d i : string) : Prop :=
  exists file, file ∈ SourceFiles program /\ IsDeclarationFile file = false /\ file_path file = i /\
    d ∈ moduleEdges program file.

(** What the compiler documents of a program's files: no two have the same
    path, and a file looked up by its clean path is one of them. *)
Record program_ok (program : Program) : Prop := {
  files_distinct : NoDup (file_path <$> SourceFiles program);
  lookup_listed : forall path file, GetSourceFile program path = Some file -> Clean path = path ->
    file ∈ SourceFiles program /\ file_path file = path;
}.

(** The resolved imports of the source file of a path, if there is one. *)
Definition edges_at (program : Program) (path : string) : list string :=
  filter (fun file => IsDeclarationFile file = false /\ file_path file = path) (SourceFiles program) ≫= moduleEdges program.

(** The graph a program has. *)
Record graph_of (program : Program) (g : importGraph) : Prop := {
  reverse_exact : forall d i, i ∈ importers_of (reverseDeps g) d <-> file_imports program d i;
  forward_exact : forall path, default [] (forwardDeps g !! path) = edges_at program path;
}.

Lemma filter_path_none path l : (forall file, file ∈ l -> IsDeclarationFile file = false -> file_path file <> path) ->
  filter (fun file => IsDeclarationFile file = false /\ file_path file = path) l = [].
Proof. intros H. apply filter_none, Forall_forall. intros file Hin [Hd Hp]. by apply (H file). Qed.

Lemma edges_at_listed program l1 file l2 : NoDup (file_path <$> SourceFiles program) -> SourceFiles program = l1 ++ file :: l2 ->
  IsDeclarationFile file = false -> edges_at program (file_path file) = moduleEdges program file.
Proof.
  intros Hnd E Hd. unfold edges_at. rewrite E in *. rewrite fmap_app, fmap_cons in Hnd.
  apply NoDup_app in Hnd as (_ & H12 & Hnd). apply NoDup_cons in Hnd as [H2 _].
  rewrite filter_app, filter_cons, decide_True by done.
  rewrite !filter_path_none, app_nil_l; [cbn [mbind list_bind]; by rewrite app_nil_r| |].
  - intros f Hf _ Heq. apply H2. rewrite <- Heq. by apply list_elem_of_fmap_2.
  - intros f Hf _ Heq. apply (H12 (file_path file)); [|left]. rewrite <- Heq. by apply list_elem_of_fmap_2.
Qed.

Lemma addImportEdges_spec importer ds reverse d i :
  i ∈ importers_of (addImportEdges importer ds reverse) d <->
  i ∈ importers_of reverse d \/ (i = importer /\ d ∈ ds).
Proof.
  unfold addImportEdges. revert reverse. induction ds as [|e ds IH]; intros reverse; simpl; [set_solver|].
  rewrite IH. unfold importers_of at 1. destruct (decide (d = e)) as [->|Hne].
  - rewrite lookup_insert_eq. simpl. set_solver.
  - rewrite lookup_insert_ne by done. fold (importers_of reverse d). set_solver.
Qed.

Lemma add_file_reverse program g file d i :
  i ∈ importers_of (reverseDeps (add_file program g file)) d <->
  i ∈ importers_of (reverseDeps g) d \/
  (IsDeclarationFile file = false /\ file_path file = i /\ d ∈ moduleEdges program file).
Proof.
  unfold add_file. destruct (IsDeclarationFile file); simpl; [naive_solver|].
  rewrite addImportEdges_spec. naive_solver.
Qed.

Lemma add_files_reverse program files g d i :
  i ∈ importers_of (reverseDeps (foldl (add_file program) g files)) d <->
  i ∈ importers_of (reverseDeps g) d \/
  exists file, file ∈ files /\ IsDeclarationFile file = false /\ file_path file = i /\ d ∈ moduleEdges program file.
Proof.
  revert g. induction files as [|file files IH]; intros g; simpl; [set_solver|].
  rewrite IH, add_file_reverse. setoid_rewrite elem_of_cons. naive_solver.
Qed.

Lemma add_file_forward_ne program g file path : (IsDeclarationFile file = false -> file_path file <> path) ->
  forwardDeps (add_file program g file) !! path = forwardDeps g !! path.
Proof.
  intros Hne. unfold add_file. destruct (IsDeclarationFile file); [done|]. simpl.
  destruct (moduleEdges program file); [done|]. by rewrite lookup_insert_ne by auto.
Qed.

Lemma add_files_forward program files g path : (forall file, file ∈ files -> IsDeclarationFile file = false -> file_path file <> path) ->
  forwardDeps (foldl (add_file program) g files) !! path = forwardDeps g !! path.
Proof.
  revert g. induction files as [|file files IH]; intros g H; simpl; [done|].
  rewrite IH by (intros f Hf; apply H; by right). apply add_file_forward_ne. intros Hd. apply H; [left|done].
Qed.

Lemma rebuild_graph_of program : NoDup (file_path <$> SourceFiles program) -> graph_of program (rebuildImportGraph program).
Proof.
  intros Hnd. unfold rebuildImportGraph. split.
  - intros d i. rewrite add_files_reverse. unfold file_imports, importers_of. simpl. rewrite lookup_empty. simpl. set_solver.
  - intros path.
    destruct (filter (fun file => IsDeclarationFile file = false /\ file_path file = path) (SourceFiles program)) as [|file l] eqn:Ef.
    { unfold edges_at. rewrite Ef, add_files_forward; [done|]. intros file Hin Hd Hp.
      assert (file ∈ []) as H by (rewrite <- Ef; by apply list_elem_of_filter). by apply elem_of_nil in H. }
    assert (file ∈ filter (fun file => IsDeclarationFile file = false /\ file_path file = path) (SourceFiles program)) as Hin by (rewrite Ef; left).
    apply list_elem_of_filter in Hin as [[Hd <-] (l1 & l2 & E)%list_elem_of_split]. rewrite (edges_at_listed program l1 file l2) by done.
    rewrite E in *. rewrite fmap_app, fmap_cons in Hnd. apply NoDup_app in Hnd as (_ & H12 & Hnd). apply NoDup_cons in Hnd as [H2 _].
    rewrite foldl_app. simpl. rewrite add_files_forward.
    + set (g := foldl (add_file program) (mkGraph ∅ ∅) l1).
      assert (forwardDeps g !! file_path file = None) as Hg.
      { unfold g. rewrite add_files_forward; [apply lookup_empty|]. intros f Hf _ Heq. apply (H12 (file_path file)); [|left].
        rewrite <- Heq. by apply list_elem_of_fmap_2. }
      unfold add_file. rewrite Hd. simpl. destruct (moduleEdges program file); [by rewrite Hg|]. by rewrite lookup_insert_eq.
    + intros f Hf _ Heq. apply H2. rewrite <- Heq. by apply list_elem_of_fmap_2.
Qed.

(** The premise of [patchImportGraph]: when the resolved imports of the file of
    [path] are what they were, the files of the program are those it had, with
    that one in its place, and the others resolve as they did. An update that
    creates a file without imports does not keep it, nor does one during which
    the compiler resolves other files anew. *)
Definition content_edit (old new : Program) (path : string) : Prop :=
  forall f', GetSourceFile new path = Some f' -> IsDeclarationFile f' = false -> moduleEdges new f' = edges_at old path ->
  exists f l1 l2, IsDeclarationFile f = false /\ file_path f = path /\ SourceFiles old = l1 ++ f :: l2 /\ SourceFiles new = l1 ++ f' :: l2 /\
    forall g, g ∈ l1 ++ l2 -> moduleEdges new g = moduleEdges old g.

Lemma file_imports_replaced old new l1 l2 f f' d i :
  SourceFiles old = l1 ++ f :: l2 -> SourceFiles new = l1 ++ f' :: l2 ->
  (forall g, g ∈ l1 ++ l2 -> moduleEdges new g = moduleEdges old g) ->
  IsDeclarationFile f' = IsDeclarationFile f -> file_path f' = file_path f -> moduleEdges new f' = moduleEdges old f ->
  file_imports new d i <-> file_imports old d i.
Proof.
  intros Ho Hn Hl Hd Hp He. unfold file_imports. rewrite Ho, Hn.
  setoid_rewrite elem_of_app. setoid_rewrite elem_of_cons. setoid_rewrite elem_of_app in Hl. split.
  - intros (g & [H|[->|H]] & H1 & H2 & H3); [exists g|exists f|exists g];
      rewrite <- ?Hl, <- ?Hd, <- ?Hp, <- ?He by auto; auto.
  - intros (g & [H|[->|H]] & H1 & H2 & H3); [exists g|exists f'|exists g];
      rewrite ?Hl, ?Hd, ?Hp, ?He by auto; auto.
Qed.

Lemma bind_edges_ext old new (P : SourceFile -> Prop) `{!forall x, Decision (P x)} l :
  (forall g, g ∈ l -> moduleEdges new g = moduleEdges old g) -> filter P l ≫= moduleEdges new = filter P l ≫= moduleEdges old.
Proof.
  induction l as [|g l IH]; intros Hl; [done|]. rewrite filter_cons.
  assert (filter P l ≫= moduleEdges new = filter P l ≫= moduleEdges old) as E by (apply IH; intros x Hx; apply Hl; by right).
  destruct (decide (P g)); [|exact E]. by rewrite !bind_cons, E, Hl by left.
Qed.

Lemma edges_at_replaced old new l1 l2 f f' path :
  SourceFiles old = l1 ++ f :: l2 -> SourceFiles new = l1 ++ f' :: l2 ->
  (forall g, g ∈ l1 ++ l2 -> moduleEdges new g = moduleEdges old g) ->
  IsDeclarationFile f' = IsDeclarationFile f -> file_path f' = file_path f -> moduleEdges new f' = moduleEdges old f ->
  edges_at new path = edges_at old path.
Proof.
  intros Ho Hn Hl Hd Hp He. unfold edges_at. rewrite Ho, Hn, !filter_app, !bind_app.
  rewrite (bind_edges_ext old new _ l1) by (intros g Hg; apply Hl, elem_of_app; by left). f_equal. rewrite !filter_cons, Hd, Hp.
  destruct (decide _); rewrite ?bind_cons, ?He, (bind_edges_ext old new _ l2) by (intros g Hg; apply Hl, elem_of_app; by right); done.
Qed.

Lemma patch_graph_of old new g path : Clean path = path ->
  program_ok old -> program_ok new -> content_edit old new path ->
  graph_of old g -> patchImportGraph g new path = true -> graph_of new g.
Proof.
  intros Hp Hold Hnew Hedit [Hrev Hfor]. unfold patchImportGraph. rewrite Hp.
  destruct (GetSourceFile new path) as [f'|] eqn:Ef'; [|done]. destruct (lookup_listed _ Hnew _ _ Ef' Hp) as [Hf' Hpf'].
  destruct (IsDeclarationFile f') eqn:Hd'; [done|]. intros He%bool_decide_eq_true. rewrite Hfor in He.
  destruct (Hedit f' Ef' Hd' He) as (f & l1 & l2 & Hd & Hpf & Ho & Hn & Hl).
  assert (moduleEdges new f' = moduleEdges old f) as He' by (rewrite He, <- Hpf; apply (edges_at_listed old l1 f l2); [by apply files_distinct|done|done]).
  split.
  - intros d i. rewrite Hrev. symmetry. eapply file_imports_replaced; [done..|congruence|congruence|done].
  - intros q. rewrite Hfor. symmetry. eapply edges_at_replaced; [done..|congruence|congruence|done].
Qed.
End GraphFacts.
