(* ===== verification/Identity.v ===== *)
(** * Symbol identities (project.go)

    The adapter names a symbol by a hash of its first declaration, or of its
    module and name when it is exported, so that the name survives checkers
    and processes; a symbol without a declaration gets a counter. The maps in
    both directions belong to one checker. A durable identity of an earlier
    checker is resolved again through its declaration. *)

From stdpp Require Import pretty.
From S2P Require Import Prelude GoStd GoText GoSha GoBytes Model Compiler.

Record durableSymbolRef := mkRef {
  ref_path : string;
  ref_startByte : Z;
  ref_endByte : Z;
  ref_name : string;
}.

#[export] Instance durableSymbolRef_eq : EqDecision durableSymbolRef.
Proof. solve_decision. Defined.
#[export] Instance durableSymbolRef_countable : Countable durableSymbolRef.
Proof.
  apply (inj_countable' (fun r => (ref_path r, ref_startByte r, ref_endByte r, ref_name r))
    (fun '(p, s, e, n) => mkRef p s e n)). by intros [].
Defined.

Definition hashedSymbolID (digest : list Z) : SymbolID := "symbol:h:" +:+ bytes_string (hex_Encode (take 12 digest)).

(** [strconv.AppendInt(input, value, 10)]. *)
Definition AppendInt (input : list Z) (value : Z) : list Z := input ++ string_bytes (pretty value).

(** The bytes a span identity is a digest of. *)
Definition span_bytes (path : string) (ref : durableSymbolRef) : list Z :=
  let input := string_bytes path ++ [0] in
  let input := AppendInt input (ref_startByte ref) ++ [0] in
  let input := AppendInt input (ref_endByte ref) ++ [0] in
  input ++ string_bytes (ref_name ref).

Definition export_bytes (ref : durableSymbolRef) : list Z :=
  string_bytes "export" ++ [0] ++ string_bytes (ref_path ref) ++ [0] ++ string_bytes (ref_name ref).

Definition ref_id (ref : durableSymbolRef) : SymbolID := hashedSymbolID (Sha256.Sum256 (span_bytes (ref_path ref) ref)).
Definition exportedID (ref : durableSymbolRef) : SymbolID := hashedSymbolID (Sha256.Sum256 (export_bytes ref)).

(** [strings.TrimPrefix]. *)
Definition TrimPrefix (s prefix : string) : string :=
  if String.prefix prefix s then string_drop (String.length prefix) s else s.

Definition runtimeID (ref : durableSymbolRef) (path : string) : string :=
  "runtime:h:" +:+ TrimPrefix (hashedSymbolID (Sha256.Sum256 (span_bytes path ref))) "symbol:h:".

Record preservedExportIdentity := mkPreserved {
  pres_id : SymbolID;
  pres_ref : durableSymbolRef;
}.

(** [fmt.Sprintf("symbol:%d:%d", generation, nextSymbol)]. *)
Definition counter_id (generation nextSymbol : Z) : SymbolID :=
  "symbol:" +:+ pretty (Z.to_N generation) +:+ ":" +:+ pretty (Z.to_N nextSymbol).

Section Identity.
Context `{C : !Compiler}.

(** The identity maps of [project]; a nil map reads as an empty one. *)
Record identities := mkIdentities {
  generation : Z;
  nextSymbol : Z;
  idsBySymbol : gmap Symbol SymbolID;
  symbolsByID : gmap string Symbol;
  durableRefs : gmap string durableSymbolRef;
  exportedIdentities : gmap Symbol preservedExportIdentity;
  exportedIdentitiesByRef : gmap durableSymbolRef preservedExportIdentity;
}.

Definition durableRefForDeclaration (symbol : Symbol) (node : NodeID) : option durableSymbolRef :=
  match GetSourceFileOfNode node with
  | None => None
  | Some sourceFile =>
      let nameNode := default node (node_Name node) in
      Some (mkRef (file_path sourceFile) (SkipTrivia (Text sourceFile) (Pos nameNode)) (End_ nameNode) (sym_Name symbol))
  end.

Definition durableRefFor (symbol : Symbol) : option durableSymbolRef :=
  match Declarations symbol with
  | [] => None
  | declaration :: _ => durableRefForDeclaration symbol declaration
  end.

Definition durableRuntimeRefFor (symbol : Symbol) : option durableSymbolRef :=
  match ValueDeclaration symbol with
  | None => None
  | Some declaration => durableRefForDeclaration symbol declaration
  end.

(** The three assignments that give a symbol an identity. *)
Definition assign_id (st : identities) (symbol : Symbol) (i : SymbolID) (ref : option durableSymbolRef) : identities :=
  mkIdentities (generation st) (nextSymbol st) (<[symbol := i]> (idsBySymbol st)) (<[i := symbol]> (symbolsByID st))
    (match ref with Some ref => <[i := ref]> (durableRefs st) | None => durableRefs st end)
    (exportedIdentities st) (exportedIdentitiesByRef st).

(** [existing, taken := p.symbolsByID[id]; !taken || existing == symbol]. *)
Definition free_for (st : identities) (symbol : Symbol) (i : SymbolID) : bool :=
  match symbolsByID st !! i with None => true | Some existing => bool_decide (existing = symbol) end.

Definition mint (st : identities) (symbol : Symbol) : identities * SymbolID :=
  let next := u64 (nextSymbol st + 1) in
  let i := counter_id (generation st) next in
  (assign_id (mkIdentities (generation st) next (idsBySymbol st) (symbolsByID st) (durableRefs st)
     (exportedIdentities st) (exportedIdentitiesByRef st)) symbol i None, i).

(** The identities [idFor] tries, in order, with the reference each records. *)
Definition candidates (st : identities) (symbol : Symbol) : list (SymbolID * durableSymbolRef) :=
  match exportedIdentities st !! symbol with Some exported => [(pres_id exported, pres_ref exported)] | None => [] end ++
  match durableRefFor symbol with
  | None => []
  | Some ref =>
      match exportedIdentitiesByRef st !! ref with Some exported => [(pres_id exported, ref)] | None => [] end ++
      [(ref_id ref, ref)]
  end.

Definition idFor (st : identities) (symbol : Symbol) : identities * SymbolID :=
  match idsBySymbol st !! symbol with
  | Some i => (st, i)
  | None =>
      match find (fun c => free_for st symbol c.1) (candidates st symbol) with
      | Some (i, ref) => (assign_id st symbol i (Some ref), i)
      | None => mint st symbol
      end
  end.

Fixpoint deepestNodeAt (node : tree NodeID) (position : Z) : tree NodeID :=
  match node with
  | Tree _ l =>
      (fix first (l : list (tree NodeID)) : tree NodeID :=
         match l with
         | [] => node
         | child :: l' =>
             if (Pos (node_id child) <=? position) && (position <? End_ (node_id child)) then deepestNodeAt child position
             else first l'
         end) l
  end.

(** [deepestNodeAt(ast.GetNodeAtPosition(file, position, false), position)]. *)
Definition node_at (sourceFile : SourceFile) (position : Z) : option (tree NodeID) :=
  (fun node => deepestNodeAt node position) <$> GetNodeAtPosition sourceFile position.

(** The file of a path; the index by clean names that is built on the first
    miss of a generation is a function of the program, later names winning. *)
Definition filesByName (program : Program) : gmap string SourceFile :=
  foldl (fun files file => <[file_path file := file]> files) ∅ (SourceFiles program).

Definition declaring_file (program : Program) (path : string) : option SourceFile :=
  match GetSourceFile program path with
  | Some sourceFile => Some sourceFile
  | None => filesByName program !! path
  end.

(** The symbol a reference names in a program, if it still does. *)
Definition resolve_ref (program : Program) (checker : Checker) (ref : durableSymbolRef) : option Symbol :=
  match declaring_file program (ref_path ref) with
  | None => None
  | Some sourceFile =>
      if (ref_endByte ref <=? ref_startByte ref) || (Z.of_nat (String.length (Text sourceFile)) <? ref_endByte ref) then None
      else
        match node_at sourceFile (ref_startByte ref) with
        | None => None
        | Some node =>
            match GetSymbolAtLocation checker (node_id node) with
            | None => None
            | Some symbol => if bool_decide (durableRefFor symbol = Some ref) then Some symbol else None
            end
        end
  end.

Definition symbolFor (program : Program) (checker : Checker) (st : identities) (i : SymbolID) : identities * option Symbol :=
  match symbolsByID st !! i with
  | Some symbol => (st, Some symbol)
  | None =>
      match durableRefs st !! i with
      | None => (st, None)
      | Some ref =>
          match resolve_ref program checker ref with
          | None => (st, None)
          | Some symbol =>
              match idsBySymbol st !! symbol with
              | Some canonical =>
                  if bool_decide (canonical = i) then (assign_id st symbol i None, Some symbol) else (st, None)
              | None => (assign_id st symbol i None, Some symbol)
              end
          end
      end
  end.

Fixpoint canonical_loop (fuel : nat) (checker : Checker) (symbol : Symbol) : Symbol :=
  match fuel with
  | O => symbol
  | S fuel' =>
      if negb (IsAlias symbol) then symbol
      else
        match GetAliasedSymbol checker symbol with
        | None => symbol
        | Some original => if bool_decide (original = symbol) then symbol else canonical_loop fuel' checker original
        end
  end.

Definition canonicalSymbol (checker : Checker) (symbol : Symbol) : Symbol := canonical_loop 64 checker symbol.

Definition sweepDurableIdentities (program : Program) (st : identities) : identities :=
  let present : gset string := list_to_set (file_path <$> SourceFiles program) in
  mkIdentities (generation st) (nextSymbol st) (idsBySymbol st) (symbolsByID st)
    (filter (fun kv => ref_path kv.2 ∈ present) (durableRefs st)) (exportedIdentities st) (exportedIdentitiesByRef st).

(** What [ReleaseAnalysisState] does to the identities. *)
Definition release_identities (st : identities) : identities :=
  mkIdentities (generation st) 0 ∅ ∅ (durableRefs st) ∅ (exportedIdentitiesByRef st).

End Identity.

(** ** What the hashed bytes tell apart *)

Definition digit_char (c : Ascii.ascii) : bool := (48 <=? byte_of c) && (byte_of c <=? 57).

Fixpoint all_chars (P : Ascii.ascii -> bool) (s : string) : bool :=
  match s with EmptyString => true | String c s => P c && all_chars P s end.

Lemma pretty_N_char_digit x : digit_char (pretty_N_char x) = true.
Proof. unfold pretty_N_char. by repeat case_match. Qed.

Lemma pretty_N_go_digits x s : all_chars digit_char s = true -> all_chars digit_char (pretty_N_go x s) = true.
Proof.
  revert s. induction (N.lt_wf_0 x) as [x _ IH]; intros s Hs.
  assert (x = 0 \/ 0 < x)%N as [->|Hx] by lia; [by rewrite pretty_N_go_0|].
  rewrite pretty_N_go_step by done. apply IH; [by apply N.div_lt|]. simpl. by rewrite pretty_N_char_digit.
Qed.

Lemma pretty_N_digits (n : N) : all_chars digit_char (pretty n) = true.
Proof. unfold pretty, pretty_N. case_decide; [done|]. by apply pretty_N_go_digits. Qed.

Lemma pretty_N_cons (n : N) : exists c s, pretty n = String c s /\ digit_char c = true.
Proof.
  pose proof (pretty_N_digits n) as H. destruct (pretty n) as [|c s] eqn:E.
  - exfalso. revert E. unfold pretty, pretty_N. case_decide; [done|]. rewrite pretty_N_go_step by lia.
    generalize (n `div` 10)%N as m. intros m.
    assert (forall s, s <> "" -> pretty_N_go m s <> "") as Hne; [|by apply Hne].
    induction (N.lt_wf_0 m) as [m _ IH]; intros s Hs. assert (m = 0 \/ 0 < m)%N as [->|Hm] by lia; [by rewrite pretty_N_go_0|].
    rewrite pretty_N_go_step by done. apply IH; [by apply N.div_lt|done].
  - simpl in H. apply andb_prop in H as [H _]. by exists c, s.
Qed.

Definition nul_free (b : list Z) : Prop := 0 ∉ b.

Lemma digits_nul_free s : all_chars digit_char s = true -> nul_free (string_bytes s).
Proof.
  induction s as [|c s IH]; simpl; [intros _; apply not_elem_of_nil|]. intros [H1 H2]%andb_prop.
  unfold nul_free. rewrite not_elem_of_cons. split; [|by apply IH]. unfold digit_char in H1.
  apply andb_prop in H1 as [H1 _]. apply Z.leb_le in H1. lia.
Qed.

Lemma pretty_Z_nul_free (z : Z) : nul_free (string_bytes (pretty z)).
Proof.
  assert (forall p : positive, nul_free (string_bytes (pretty p))) as H
    by (intros p; apply digits_nul_free, (pretty_N_digits (N.pos p))).
  destruct z as [|p|p]; [by apply digits_nul_free|apply H|].
  change (pretty (Zneg p)) with ("-" +:+ pretty p). rewrite string_bytes_app. unfold nul_free.
  rewrite elem_of_app. intros [Hd|Hp]; [|by apply (H p)]. revert Hd. by intros [?|?%elem_of_nil]%elem_of_cons.
Qed.

Lemma nul_split a b x y : nul_free a -> nul_free b -> a ++ 0 :: x = b ++ 0 :: y -> a = b /\ x = y.
Proof.
  unfold nul_free. revert b. induction a as [|c a IH]; intros [|d b] Ha Hb H; simplify_eq/=.
  - done.
  - set_solver.
  - set_solver.
  - destruct (IH b) as [-> ->]; set_solver.
Qed.

(** A path as the file system has them: rooted and without a NUL. *)
Definition os_path (path : string) : Prop := is_rooted path = true /\ nul_free (string_bytes path).

Lemma span_bytes_app path ref : span_bytes path ref =
  string_bytes path ++ 0 :: string_bytes (pretty (ref_startByte ref)) ++ 0 ::
  string_bytes (pretty (ref_endByte ref)) ++ 0 :: string_bytes (ref_name ref).
Proof. unfold span_bytes, AppendInt. by rewrite <- !app_assoc. Qed.

Lemma rooted_bytes path : is_rooted path = true -> exists b, string_bytes path = 47 :: b.
Proof.
  destruct path as [|c s]; [done|]. simpl. intros ->%Ascii.eqb_eq. by eexists.
Qed.

(** C16: The bytes an identity is hashed over determine the declaration: two declarations share
    a durable identity only when the hash collides. *)
Theorem identity_bytes_injective path path' r r' :
  os_path path -> os_path path' -> os_path (ref_path r) -> os_path (ref_path r') ->
  (span_bytes path r = span_bytes path' r' ->
     path = path' /\ ref_startByte r = ref_startByte r' /\ ref_endByte r = ref_endByte r' /\ ref_name r = ref_name r') /\
  (export_bytes r = export_bytes r' -> ref_path r = ref_path r' /\ ref_name r = ref_name r') /\
  span_bytes path r <> export_bytes r'.
Proof.
  intros [Hr Hn] [Hr' Hn'] [_ Hp] [_ Hp']. split_and!.
  - rewrite !span_bytes_app. intros H. apply nul_split in H as [H1 H]; [|done..].
    apply nul_split in H as [H2 H]; [|apply pretty_Z_nul_free..].
    apply nul_split in H as [H3 H4]; [|apply pretty_Z_nul_free..].
    by apply string_bytes_inj in H1, H2, H3, H4; apply (inj pretty) in H2, H3.
  - unfold export_bytes. intros H%app_inv_head. simpl in H. injection H as H.
    apply nul_split in H as [H1 H2]; [|done..]. by apply string_bytes_inj in H1, H2.
  - rewrite span_bytes_app. destruct (rooted_bytes path Hr) as [b ->]. unfold export_bytes. by intros H.
Qed.

(** ** Identities and symbols are one to one *)

Lemma hashed_prefixed digest : String.prefix "symbol:h:" (hashedSymbolID digest) = true.
Proof. unfold hashedSymbolID. by destruct (bytes_string _). Qed.

(** A counter is not a hash: what follows its first colon is a digit. *)
Lemma counter_not_hashed g n digest : counter_id g n <> hashedSymbolID digest.
Proof.
  unfold counter_id, hashedSymbolID. destruct (pretty_N_cons (Z.to_N g)) as (c & s & -> & Hc). simpl.
  intros H. injection H as -> _. done.
Qed.

Lemma counter_not_durable g n : DurableSymbolID (counter_id g n) = false.
Proof.
  unfold counter_id. destruct (pretty_N_cons (Z.to_N g)) as (c & s & -> & Hc). unfold DurableSymbolID. simpl.
  revert Hc. by destruct c as [[] [] [] [] [] [] [] []].
Qed.

Lemma string_app_inj_l (p a b : string) : p +:+ a = p +:+ b -> a = b.
Proof. induction p as [|c p IH]; simpl; [done|]. intros H. injection H as H. auto. Qed.

Lemma counter_id_inj g n m : 0 <= n -> 0 <= m -> counter_id g n = counter_id g m -> n = m.
Proof.
  intros Hn Hm. unfold counter_id. intros H. repeat apply string_app_inj_l in H. apply (inj pretty) in H. lia.
Qed.

Section IdentityFacts.
Context `{C : !Compiler}.

Definition durable_form (i : SymbolID) (r : durableSymbolRef) : Prop := i = ref_id r \/ i = exportedID r.

Lemma durable_form_hashed i r : durable_form i r -> exists digest, i = hashedSymbolID digest.
Proof. intros [->| ->]; by eexists. Qed.

(** The invariant of the identities of one checker. *)
Record ids_ok (st : identities) : Prop := {
  ids_forward : forall s i, idsBySymbol st !! s = Some i -> symbolsByID st !! i = Some s;
  ids_backward : forall i s, symbolsByID st !! i = Some s -> idsBySymbol st !! s = Some i;
  ids_forms : forall i s, symbolsByID st !! i = Some s ->
    (exists digest, i = hashedSymbolID digest) \/ (exists n, 0 < n <= nextSymbol st /\ i = counter_id (generation st) n);
  refs_known : forall i s, symbolsByID st !! i = Some s -> DurableSymbolID i = true -> is_Some (durableRefs st !! i);
  refs_durable : forall i r, durableRefs st !! i = Some r -> durable_form i r;
  exports_durable : forall s e, exportedIdentities st !! s = Some e -> pres_id e = exportedID (pres_ref e);
  by_ref_durable : forall r e, exportedIdentitiesByRef st !! r = Some e -> pres_id e = exportedID r;
  next_range : 0 <= nextSymbol st < 2 ^ 64;
}.

(** Nothing that was named is named differently. *)
Definition extends (st st' : identities) : Prop :=
  generation st' = generation st /\ nextSymbol st <= nextSymbol st' <= nextSymbol st + 1 /\
  (forall s i, idsBySymbol st !! s = Some i -> idsBySymbol st' !! s = Some i).

Lemma assign_ok st symbol i ref : ids_ok st -> idsBySymbol st !! symbol = None -> symbolsByID st !! i = None ->
  when_some (durable_form i) ref -> (DurableSymbolID i = true -> is_Some ref \/ is_Some (durableRefs st !! i)) ->
  (exists digest, i = hashedSymbolID digest) \/ (exists n, 0 < n <= nextSymbol st /\ i = counter_id (generation st) n) ->
  ids_ok (assign_id st symbol i ref) /\ extends st (assign_id st symbol i ref).
Proof.
  intros [H1 H2 H3 Hk H4 H5 H6 H7] Hs Hi Hr Hd Hf. split.
  - split; simpl; try done.
    + intros s j. rewrite !lookup_insert_Some. intros [[-> ->]|[Hne Hj]]; [by left|]. right. split; [|by apply H1].
      intros ->. apply H1 in Hj. congruence.
    + intros j s. rewrite !lookup_insert_Some. intros [[-> ->]|[Hne Hj]]; [by left|]. right. split; [|by apply H2].
      intros ->. apply H2 in Hj. congruence.
    + intros j s. rewrite lookup_insert_Some. intros [[-> ->]|[Hne Hj]]; [done|by apply (H3 j s)].
    + intros j s Hj Hdur. assert (is_Some ref /\ j = i \/ is_Some (durableRefs st !! j)) as Hc.
      { apply lookup_insert_Some in Hj as [[-> ->]|[Hne Hj]]; [destruct (Hd Hdur); auto|right; by apply (Hk j s)]. }
      destruct ref as [ref|]; [apply lookup_insert_is_Some'|]; destruct Hc as [[[x Hx] ?]|Hc]; simplify_eq; auto.
    + destruct ref as [ref|]; [|done]. intros j r. rewrite lookup_insert_Some.
      intros [[-> ->]|[Hne Hj]]; [by apply Hr|by apply H4].
  - split_and!; simpl; [done|lia|lia|]. intros s j Hj. rewrite lookup_insert_ne; [done|]. congruence.
Qed.

Lemma candidates_durable st symbol : ids_ok st -> Forall (fun c => durable_form c.1 c.2) (candidates st symbol).
Proof.
  intros [H1 H2 H3 Hk H4 H5 H6 H7]. unfold candidates. apply Forall_app. split.
  - destruct (exportedIdentities st !! symbol) as [e|] eqn:E; [|constructor]. apply Forall_singleton. right. by eapply H5.
  - destruct (durableRefFor symbol) as [ref|]; [|constructor]. apply Forall_app. split; [|by apply Forall_singleton; left].
    destruct (exportedIdentitiesByRef st !! ref) as [e|] eqn:E; [|constructor]. apply Forall_singleton. right. by eapply H6.
Qed.

Lemma idFor_spec st symbol : ids_ok st -> nextSymbol st + 1 < 2 ^ 64 ->
  let '(st', i) := idFor st symbol in
  ids_ok st' /\ extends st st' /\ idsBySymbol st' !! symbol = Some i.
Proof.
  intros Hok Hn. unfold idFor. destruct (idsBySymbol st !! symbol) as [i|] eqn:E.
  { split; [done|]. split; [|done]. split_and!; [done|lia|lia|done]. }
  destruct (find _ (candidates st symbol)) as [[i ref]|] eqn:Ef.
  - apply find_some in Ef as [Hin Hfree]. simpl in Hfree.
    pose proof (candidates_durable st symbol Hok) as Hd. rewrite Forall_forall in Hd.
    specialize (Hd _ (proj2 (list_elem_of_In _ _) Hin)). simpl in Hd.
    assert (symbolsByID st !! i = None) as Hi.
    { unfold free_for in Hfree. destruct (symbolsByID st !! i) as [s|] eqn:Es; [|done].
      apply bool_decide_eq_true in Hfree as ->. apply (ids_backward _ Hok) in Es. congruence. }
    destruct (assign_ok st symbol i (Some ref)) as [A B]; [done..| | | |].
    + intros r Hr. by simplify_eq.
    + intros _. left. by eexists.
    + left. by eapply durable_form_hashed.
    + split_and!; [done|apply B..|]. simpl. by rewrite lookup_insert_eq.
  - unfold mint. unfold u64. pose proof (next_range _ Hok). rewrite Z.mod_small by lia.
    set (st1 := mkIdentities _ _ _ _ _ _ _). set (i := counter_id _ _).
    assert (ids_ok st1) as Hok1.
    { destruct Hok as [H1 H2 H3 Hk H4 H5 H6 H7]. split; try done; [|simpl; lia].
      intros j s Hj. destruct (H3 j s Hj) as [?|(n & Hn' & ->)]; [by left|]. right. exists n. simpl. split; [lia|done]. }
    assert (symbolsByID st !! i = None) as Hi.
    { destruct (symbolsByID st !! i) as [s|] eqn:Es; [|done]. exfalso.
      destruct (ids_forms _ Hok _ _ Es) as [[d Hd]|(n & Hn' & Hd)]; [by apply counter_not_hashed in Hd|].
      apply counter_id_inj in Hd; lia. }
    destruct (assign_ok st1 symbol i None) as [A (B1 & B2 & B3)]; [done..| | |].
    + unfold i. by rewrite counter_not_durable.
    + right. exists (nextSymbol st + 1). simpl. split; [lia|done].
    + split_and!; [done| |]; [|simpl; by rewrite lookup_insert_eq]. split_and!; simpl in *; [done|lia|lia|done].
Qed.

Lemma symbolFor_spec program checker st i : ids_ok st ->
  let '(st', o) := symbolFor program checker st i in
  ids_ok st' /\ extends st st' /\ when_some (fun s => idsBySymbol st' !! s = Some i) o.
Proof.
  intros Hok. assert (extends st st) as Hext by (split_and!; [done|lia|lia|done]).
  unfold symbolFor. destruct (symbolsByID st !! i) as [s|] eqn:E.
  { split_and!; [done..|]. intros s' Hs'. simplify_eq. by apply (ids_backward _ Hok). }
  destruct (durableRefs st !! i) as [ref|] eqn:Er; [|by split_and!].
  destruct (resolve_ref program checker ref) as [s|]; [|by split_and!].
  destruct (idsBySymbol st !! s) as [j|] eqn:Es.
  { case_bool_decide as Hj; [|by split_and!]. subst j. apply (ids_forward _ Hok) in Es. congruence. }
  destruct (assign_ok st s i None) as [A B]; [done..| | |].
  { intros _. right. by eexists. }
  { left. eapply durable_form_hashed. by apply (refs_durable _ Hok). }
  split_and!; [done..|]. intros s' Hs'. simplify_eq. simpl. by rewrite lookup_insert_eq.
Qed.

(** Asking for the identity of a symbol, or for the symbol of an identity. *)
Inductive question := AskId (symbol : Symbol) | AskSymbol (program : Program) (checker : Checker) (i : SymbolID).

Definition ask (st : identities) (q : question) : identities :=
  match q with
  | AskId symbol => fst (idFor st symbol)
  | AskSymbol program checker i => fst (symbolFor program checker st i)
  end.

Lemma ask_ok st q : ids_ok st -> nextSymbol st + 1 < 2 ^ 64 -> ids_ok (ask st q) /\ extends st (ask st q).
Proof.
  intros Hok Hn. destruct q as [s|p c i]; simpl.
  - pose proof (idFor_spec st s Hok Hn) as H. destruct (idFor st s). naive_solver.
  - pose proof (symbolFor_spec p c st i Hok) as H. destruct (symbolFor p c st i). naive_solver.
Qed.

Lemma asks_ok st qs : ids_ok st -> nextSymbol st + Z.of_nat (length qs) < 2 ^ 64 ->
  ids_ok (foldl ask st qs) /\ nextSymbol (foldl ask st qs) <= nextSymbol st + Z.of_nat (length qs) /\
  (forall s i, idsBySymbol st !! s = Some i -> idsBySymbol (foldl ask st qs) !! s = Some i).
Proof.
  revert st. induction qs as [|q qs IH]; intros st Hok Hn; simpl in *; [split_and!; [done|lia|done]|].
  destruct (ask_ok st q Hok ltac:(lia)) as [H1 (H2 & H3 & H4)]. destruct (IH (ask st q) H1 ltac:(lia)) as (A & B & D).
  split_and!; [done|lia|]. intros s i H. by apply D, H4.
Qed.

(** C13: Whatever is asked within a generation, no two symbols share an identity and the
    identity of a symbol does not change. *)
Theorem identities_one_to_one st qs s t : ids_ok st -> nextSymbol st + Z.of_nat (length qs) + 2 < 2 ^ 64 ->
  let st := foldl ask st qs in
  let '(st1, i) := idFor st s in
  let '(st2, j) := idFor st1 t in
  (i = j <-> s = t) /\ (idsBySymbol st !! s = Some i \/ idsBySymbol st !! s = None) /\
  forall program checker, symbolFor program checker st2 i = (st2, Some s) /\ symbolFor program checker st2 j = (st2, Some t).
Proof.
  intros Hok Hn. destruct (asks_ok st qs Hok ltac:(lia)) as (H1 & H2 & H3). cbv zeta.
  set (st0 := foldl ask st qs) in *.
  assert (idsBySymbol st0 !! s = Some (snd (idFor st0 s)) \/ idsBySymbol st0 !! s = None) as Hsame.
  { unfold idFor. destruct (idsBySymbol st0 !! s); auto. }
  pose proof (idFor_spec st0 s H1 ltac:(lia)) as Hi. destruct (idFor st0 s) as [st1 i].
  destruct Hi as (A1 & (A2 & A3 & A4) & A5).
  pose proof (idFor_spec st1 t A1 ltac:(lia)) as Hj. destruct (idFor st1 t) as [st2 j].
  destruct Hj as (B1 & (B2 & B3 & B4) & B5). apply B4 in A5. split; [|split; [done|]].
  - split; [intros ->|intros ->; congruence]. apply (ids_forward _ B1) in A5, B5. congruence.
  - intros program checker. unfold symbolFor. apply (ids_forward _ B1) in A5, B5. by rewrite A5, B5.
Qed.

Lemma release_ok st : ids_ok st -> ids_ok (release_identities st).
Proof. intros [H1 H2 H3 Hk H4 H5 H6 H7]. split; simpl; try done. Qed.

(** C14: A durable identity outlives the generation that minted it: after a release, asking for
    it resolves its declaration and gives the symbol that is there, which then has this
    identity. *)
Theorem durable_identity_rehydrates st s : ids_ok st -> nextSymbol st + 1 < 2 ^ 64 ->
  let '(st', i) := idFor st s in
  if DurableSymbolID i then
    exists ref, durableRefs st' !! i = Some ref /\ durable_form i ref /\
      forall program checker,
        let '(st2, o) := symbolFor program checker (release_identities st') i in
        o = resolve_ref program checker ref /\
        when_some (fun t => durableRefFor t = Some ref /\ idFor st2 t = (st2, i)) o
  else forall program checker, snd (symbolFor program checker (release_identities st') i) = None.
Proof.
  intros Hok Hn. pose proof (idFor_spec st s Hok Hn) as H. destruct (idFor st s) as [st' i].
  destruct H as (A & _ & B). pose proof (ids_forward _ A _ _ B) as Hi.
  assert (forall program checker, symbolFor program checker (release_identities st') i =
    match durableRefs st' !! i with
    | None => (release_identities st', None)
    | Some ref => match resolve_ref program checker ref with
                  | None => (release_identities st', None)
                  | Some t => (assign_id (release_identities st') t i None, Some t) end end) as Hsym.
  { intros. unfold symbolFor. simpl. rewrite lookup_empty. destruct (durableRefs st' !! i); [|done].
    destruct (resolve_ref _ _ _) as [t|]; [|done]. by rewrite lookup_empty. }
  destruct (DurableSymbolID i) eqn:Ed.
  - destruct (refs_known _ A _ _ Hi Ed) as [ref Hr]. exists ref. split_and!; [done|by apply (refs_durable _ A)|].
    intros program checker. rewrite Hsym, Hr. destruct (resolve_ref program checker ref) as [t|] eqn:Et; [|by split].
    split; [done|]. intros t' [= <-]. split.
    + revert Et. unfold resolve_ref. repeat case_match; try done. case_bool_decide; [|done]. by intros [= <-].
    + unfold idFor. simpl. by rewrite lookup_insert_eq.
  - intros program checker. rewrite Hsym. destruct (durableRefs st' !! i) as [ref|] eqn:Hr; [|done].
    exfalso. destruct (durable_form_hashed _ _ (refs_durable _ A _ _ Hr)) as [d ->].
    unfold DurableSymbolID in Ed. by rewrite hashed_prefixed, orb_true_r in Ed.
Qed.
End IdentityFacts.
