(* ===== verification/Exports.v ===== *)
(** * Export identities across generations (project.go)

    An update that leaves the exported shape of a module alone keeps the
    identities of its exports: the exports of both generations are paired by
    name, and the pairing has to be one to one. *)

From S2P Require Import Prelude GoStd GoText Model Compiler Identity.

Section Exports.
Context `{C : !Compiler}.

(** The symbol of an export is never nil: [exportedDurableSymbols] gives up
    on one that is. *)
Record declarationExport := mkExport {
  exp_name : string;
  exp_id : SymbolID;
  exp_ref : durableSymbolRef;
  exp_symbol : Symbol;
}.

Record declarationShape := mkShape {
  signature : list Z;
  exports : list declarationExport;
  shape_imports : list string;
}.

Definition exported (e : declarationExport) : preservedExportIdentity := mkPreserved (exp_id e) (exp_ref e).

Definition declarationExportIdentities (shape : declarationShape) : gmap Symbol preservedExportIdentity :=
  foldl (fun identities e => <[exp_symbol e := exported e]> identities) ∅ (exports shape).

(** One turn of the pairing, over the preserved identities and their inverse. *)
Definition pair_export (st : option (gmap Symbol preservedExportIdentity * gmap string Symbol))
    (pair : declarationExport * declarationExport) : option (gmap Symbol preservedExportIdentity * gmap string Symbol) :=
  match st with
  | None => None
  | Some (preserved, symbolByID) =>
      let '(oldExport, newExport) := pair in
      if negb (String.eqb (exp_name oldExport) (exp_name newExport)) ||
         negb (String.eqb (exp_id oldExport) (exp_id newExport)) then None
      else if match preserved !! exp_symbol newExport with
              | Some existing => negb (String.eqb (pres_id existing) (exp_id newExport)) | None => false end then None
      else if match symbolByID !! exp_id newExport with
              | Some existing => negb (bool_decide (existing = exp_symbol newExport)) | None => false end then None
      else Some (<[exp_symbol newExport := exported newExport]> preserved,
                 <[exp_id newExport := exp_symbol newExport]> symbolByID)
  end.

Definition preserveExportIdentities (previous next : declarationShape) : option (gmap Symbol preservedExportIdentity) :=
  if negb (bool_decide (signature previous = signature next)) ||
     negb (length (exports previous) =? length (exports next))%nat ||
     negb (bool_decide (shape_imports previous = shape_imports next)) then None
  else fst <$> foldl pair_export (Some (∅, ∅)) (zip (exports previous) (exports next)).

(** ** The exports of a module *)

Definition module_export (checker : Checker) (moduleExport : Symbol) : option declarationExport :=
  let symbol := if IsAlias moduleExport then GetAliasedSymbol checker moduleExport else Some moduleExport in
  match symbol with
  | None => None
  | Some symbol =>
      match durableRefFor symbol with
      | None => None
      | Some ref => Some (mkExport (sym_Name moduleExport) (exportedID ref) ref symbol)
      end
  end.

Fixpoint adjacent_names (l : list declarationExport) : bool :=
  match l with
  | a :: ((b :: _) as l') => String.eqb (exp_name a) (exp_name b) || adjacent_names l'
  | _ => false
  end.

Definition exportedDurableSymbols (checker : Checker) (sourceFile : SourceFile) : option (list declarationExport) :=
  match file_Symbol sourceFile with
  | None => None
  | Some symbol =>
      match mapM (module_export checker) (GetExportsOfModule checker symbol) with
      | None => None
      | Some exports =>
          let exports := sort_slice (key_less exp_name) exports in
          if adjacent_names exports then None else Some exports
      end
  end.

Definition collect_export (identities : gmap Symbol preservedExportIdentity) (e : declarationExport) :
    gmap Symbol preservedExportIdentity :=
  match identities !! exp_symbol e with
  | Some existing =>
      if negb (String.eqb (pres_id existing) (exp_id e)) then delete (exp_symbol e) identities
      else <[exp_symbol e := exported e]> identities
  | None => <[exp_symbol e := exported e]> identities
  end.

Definition collect_file (checker : Checker) (identities : gmap Symbol preservedExportIdentity) (sourceFile : SourceFile) :
    gmap Symbol preservedExportIdentity :=
  if negb (IsExternalModule sourceFile) then identities
  else match exportedDurableSymbols checker sourceFile with
       | None => identities
       | Some exports => foldl collect_export identities exports
       end.

Definition collectExportedIdentities (program : Program) (checker : Checker) : gmap Symbol preservedExportIdentity :=
  foldl (collect_file checker) ∅ (SourceFiles program).

Context `{MR : !MapRange}.

Definition indexExportedIdentitiesByRef (identities : gmap Symbol preservedExportIdentity) :
    gmap durableSymbolRef preservedExportIdentity :=
  foldl (fun byRef identity => <[pres_ref identity := identity]> byRef) ∅ (range_map identities).*2.

(** ** The identities of a new generation *)

(** [for symbol, preserved := range currentExports]. *)
Definition install_export (st : identities) (kv : Symbol * preservedExportIdentity) : identities :=
  assign_id st kv.1 (pres_id kv.2) (Some (pres_ref kv.2)).

(** [Update] replaces the exports of the edited file, or collects them anew. *)
Definition replace_exports (st : identities) (path : string) (currentExports : gmap Symbol preservedExportIdentity) :
    gmap Symbol preservedExportIdentity * gmap durableSymbolRef preservedExportIdentity :=
  foldl (fun '(exported, byRef) '(symbol, identity) =>
      (<[symbol := identity]> exported, <[pres_ref identity := identity]> byRef))
    (exportedIdentities st, filter (fun kv => ref_path kv.1 <> path) (exportedIdentitiesByRef st)) (range_map currentExports).

Definition collected_exports (program : Program) (checker : Checker) :
    gmap Symbol preservedExportIdentity * gmap durableSymbolRef preservedExportIdentity :=
  let identities := collectExportedIdentities program checker in (identities, indexExportedIdentitiesByRef identities).

(** [p.generation++], the cleared maps and the exports of the edited file. *)
Definition next_generation (st : identities)
    (exported : gmap Symbol preservedExportIdentity * gmap durableSymbolRef preservedExportIdentity)
    (currentExports : gmap Symbol preservedExportIdentity) : identities :=
  foldl install_export
    (mkIdentities (u64 (generation st + 1)) 0 ∅ ∅ (durableRefs st) (fst exported) (snd exported)) (range_map currentExports).
End Exports.

(** ** The exports of a module are named by their references *)

Section ExportFacts.
Context `{C : !Compiler}.

Definition export_ok (e : declarationExport) : Prop :=
  exp_id e = exportedID (exp_ref e) /\ durableRefFor (exp_symbol e) = Some (exp_ref e).

Definition named_by_ref (m : gmap Symbol preservedExportIdentity) : Prop :=
  forall s e, m !! s = Some e -> pres_id e = exportedID (pres_ref e) /\ durableRefFor s = Some (pres_ref e).

Definition indexed_by_ref (m : gmap durableSymbolRef preservedExportIdentity) : Prop :=
  forall r e, m !! r = Some e -> pres_id e = exportedID r /\ pres_ref e = r.

(** No two symbols share an identity. *)
Definition tells_apart (m : gmap Symbol preservedExportIdentity) : Prop :=
  forall s t e e', m !! s = Some e -> m !! t = Some e' -> pres_id e = pres_id e' -> s = t.

Lemma exportedDurableSymbols_ok checker file es : exportedDurableSymbols checker file = Some es -> Forall export_ok es.
Proof.
  unfold exportedDurableSymbols. destruct (file_Symbol file) as [symbol|]; [|done].
  destruct (mapM _ _) as [es'|] eqn:E; [|done]. destruct (adjacent_names _); [done|]. intros [= <-].
  rewrite sort_slice_perm. apply mapM_Some_1 in E. eapply Forall2_Forall_r; [exact E|].
  apply Forall_forall. intros m Hm e. unfold module_export.
  destruct (if IsAlias m then _ else _) as [s|]; [|done]. destruct (durableRefFor s) as [r|] eqn:Er; [|done].
  intros [= <-]. by split.
Qed.

Lemma insert_named m e : named_by_ref m -> export_ok e -> named_by_ref (<[exp_symbol e := exported e]> m).
Proof. intros Hm [He1 He2] s x. rewrite lookup_insert_Some. intros [[<- <-]|[_ ?]]; [by split|by apply Hm]. Qed.

Lemma declarationExportIdentities_named shape : Forall export_ok (exports shape) ->
  named_by_ref (declarationExportIdentities shape).
Proof.
  unfold declarationExportIdentities. assert (named_by_ref ∅) as H0 by (intros s e; by rewrite lookup_empty).
  revert H0. generalize (∅ : gmap Symbol preservedExportIdentity) as m. induction (exports shape) as [|e es IH]; intros m Hm Hes; [done|].
  apply Forall_cons in Hes as [He Hes]. simpl. apply IH; [|done]. by apply insert_named.
Qed.

Lemma collectExportedIdentities_named program checker : named_by_ref (collectExportedIdentities program checker).
Proof.
  unfold collectExportedIdentities. assert (named_by_ref ∅) as H0 by (intros s e; by rewrite lookup_empty).
  revert H0. generalize (∅ : gmap Symbol preservedExportIdentity) as m. induction (SourceFiles program) as [|f fs IH]; intros m Hm; [done|].
  simpl. apply IH. unfold collect_file. destruct (negb _); [done|].
  destruct (exportedDurableSymbols checker f) as [es|] eqn:E; [|done]. apply exportedDurableSymbols_ok in E.
  revert m Hm. induction E as [|e es He Hes IHe]; intros m Hm; [done|]. simpl. apply IHe. unfold collect_export.
  destruct (m !! exp_symbol e) as [x|]; [destruct (negb _)|]; [|by apply insert_named..].
  intros s y. rewrite lookup_delete_Some. intros [_ ?]. by apply Hm.
Qed.

Context `{MR : !MapRange}.

Lemma indexExportedIdentitiesByRef_indexed m : named_by_ref m -> indexed_by_ref (indexExportedIdentitiesByRef m).
Proof.
  intros Hm. unfold indexExportedIdentitiesByRef.
  assert (Forall (fun e => pres_id e = exportedID (pres_ref e)) (range_map m).*2) as Hall.
  { apply Forall_fmap, Forall_forall. intros [s e] Hin%range_map_elem. by apply (Hm s e). }
  assert (indexed_by_ref ∅) as H0 by (intros r e; by rewrite lookup_empty).
  revert H0 Hall. generalize (∅ : gmap durableSymbolRef preservedExportIdentity) as b.
  induction (range_map m).*2 as [|e es IH]; intros b Hb Hall; [done|]. apply Forall_cons in Hall as [He Hall].
  simpl. apply IH; [|done]. intros r x. rewrite lookup_insert_Some. intros [[<- <-]|[_ ?]]; [by split|by apply Hb].
Qed.

Lemma replace_exports_ok st path m : ids_ok st -> named_by_ref m ->
  (forall s e, fst (replace_exports st path m) !! s = Some e -> pres_id e = exportedID (pres_ref e)) /\
  (forall r e, snd (replace_exports st path m) !! r = Some e -> pres_id e = exportedID r).
Proof.
  intros Hok Hm. unfold replace_exports.
  assert (Forall (fun kv => pres_id kv.2 = exportedID (pres_ref kv.2)) (range_map m)) as Hall.
  { apply Forall_forall. intros [s e] Hin%range_map_elem. by apply (Hm s e). }
  assert (forall r e, filter (fun kv => ref_path kv.1 <> path) (exportedIdentitiesByRef st) !! r = Some e ->
    pres_id e = exportedID r) as Hb.
  { intros r e. rewrite map_lookup_filter_Some. intros [H _]. by apply (by_ref_durable _ Hok). }
  pose proof (exports_durable _ Hok) as Ha. revert Ha Hb Hall. generalize (exportedIdentities st) as a.
  generalize (filter (fun kv => ref_path kv.1 <> path) (exportedIdentitiesByRef st)) as b.
  induction (range_map m) as [|[s e] l IH]; intros b a Ha Hb Hall; [done|]. apply Forall_cons in Hall as [He Hall].
  simpl in *. apply IH; [| |done].
  - intros t x. rewrite lookup_insert_Some. intros [[<- <-]|[_ ?]]; [done|by apply (Ha t)].
  - intros r x. rewrite lookup_insert_Some. intros [[<- <-]|[_ ?]]; [done|by apply Hb].
Qed.

(** ** The pairing is one to one *)

Lemma pair_exports_None l : foldl pair_export None l = None.
Proof. induction l as [|p l IH]; [done|]. by destruct p. Qed.

Lemma pair_exports_spec l preserved symbolByID m m' :
  (forall s e, preserved !! s = Some e -> symbolByID !! pres_id e = Some s) ->
  foldl pair_export (Some (preserved, symbolByID)) l = Some (m, m') ->
  (forall s e, m !! s = Some e -> m' !! pres_id e = Some s) /\
  m = foldl (fun identities e => <[exp_symbol e := exported e]> identities) preserved l.*2 /\
  Forall (fun p => exp_name p.1 = exp_name p.2 /\ exp_id p.1 = exp_id p.2) l.
Proof.
  revert preserved symbolByID. induction l as [|[o n] l IH]; intros preserved symbolByID Hinv H; simpl in H.
  { simplify_eq. by repeat split. }
  destruct (String.eqb_spec (exp_name o) (exp_name n)) as [En|]; [|by rewrite pair_exports_None in H].
  destruct (String.eqb_spec (exp_id o) (exp_id n)) as [Ei|]; [|by rewrite pair_exports_None in H]. simpl in H.
  destruct (match preserved !! _ with Some _ => _ | None => _ end) eqn:E1; [by rewrite pair_exports_None in H|].
  destruct (match symbolByID !! _ with Some _ => _ | None => _ end) eqn:E2; [by rewrite pair_exports_None in H|].
  apply IH in H as (A & B & D).
  - split; [done|]. split; [done|]. by constructor.
  - intros s e. rewrite lookup_insert_Some. intros [[<- <-]|[Hne Hs]]; simpl; [by rewrite lookup_insert_eq|].
    apply Hinv in Hs. rewrite lookup_insert_ne; [done|]. intros Heq. rewrite <- Heq in Hs. rewrite Hs in E2.
    apply negb_false_iff, bool_decide_eq_true in E2. congruence.
Qed.

Lemma preserve_spec previous next m : preserveExportIdentities previous next = Some m ->
  tells_apart m /\ m = declarationExportIdentities next /\
  Forall2 (fun o n => exp_name o = exp_name n /\ exp_id o = exp_id n) (exports previous) (exports next).
Proof.
  unfold preserveExportIdentities. destruct (_ || _) eqn:E; [done|]. bool_hyps.
  destruct (foldl _ _ _) as [[a b]|] eqn:Ef; [|done]. intros [= <-].
  match goal with H : (_ =? _)%nat = true |- _ => apply Nat.eqb_eq in H as Hlen end.
  apply pair_exports_spec in Ef as (A & B & D); [|intros s e; by rewrite lookup_empty]. split; [|split].
  - intros s t e e' Hs Ht Heq. apply A in Hs, Ht. congruence.
  - rewrite B. unfold declarationExportIdentities. by rewrite snd_zip by lia.
  - apply Forall2_same_length_lookup_2; [done|]. intros i o n Ho Hn. rewrite Forall_lookup in D. apply (D i (o, n)).
    rewrite lookup_zip_with, Ho. simpl. by rewrite Hn.
Qed.

(** ** A generation that begins with identities that tell symbols apart *)

Lemma install_exports_ok l st : ids_ok st -> Forall (fun kv => pres_id kv.2 = exportedID (pres_ref kv.2)) l ->
  NoDup l.*1 -> NoDup (pres_id <$> l.*2) ->
  (forall s, s ∈ l.*1 -> idsBySymbol st !! s = None) -> (forall i, i ∈ pres_id <$> l.*2 -> symbolsByID st !! i = None) ->
  ids_ok (foldl install_export st l) /\ (forall s i, idsBySymbol st !! s = Some i -> idsBySymbol (foldl install_export st l) !! s = Some i) /\
  (forall s e, (s, e) ∈ l -> idsBySymbol (foldl install_export st l) !! s = Some (pres_id e)).
Proof.
  revert st. induction l as [|[s e] l IH]; intros st Hok Hall Hs Hi Hfs Hfi; simpl in *; [split_and!; [done|done|set_solver]|].
  apply Forall_cons in Hall as [He Hall]. apply NoDup_cons in Hs as [Hs1 Hs2], Hi as [Hi1 Hi2]. simpl in He.
  destruct (assign_ok st s (pres_id e) (Some (pres_ref e))) as [A (_ & _ & B)]; [done| | | | | |].
  { apply Hfs. left. } { apply Hfi. left. } { intros r [= <-]. by right. } { left. by eexists. } { left. rewrite He. by eexists. }
  destruct (IH (install_export st (s, e))) as (D1 & D2 & D3); [done..| | |].
  - intros t Ht. simpl. rewrite lookup_insert_ne; [apply Hfs; by right|]. intros ->. done.
  - intros i Hi. simpl. rewrite lookup_insert_ne; [apply Hfi; by right|]. by intros <-.
  - split_and!; [done| |].
    + intros t i Ht. by apply D2, B.
    + intros t x [[= -> ->]|Hx]%elem_of_cons; [|by apply D3]. apply D2. simpl. by rewrite lookup_insert_eq.
Qed.

Lemma next_generation_ok st exp m : ids_ok st -> named_by_ref m -> tells_apart m ->
  (forall s e, fst exp !! s = Some e -> pres_id e = exportedID (pres_ref e)) ->
  (forall r e, snd exp !! r = Some e -> pres_id e = exportedID r) ->
  ids_ok (next_generation st exp m) /\ forall s e, m !! s = Some e -> idsBySymbol (next_generation st exp m) !! s = Some (pres_id e).
Proof.
  intros Hok Hm Ht H1 H2. unfold next_generation.
  assert (NoDup (pres_id <$> (range_map m).*2)) as Hnd.
  { rewrite <- list_fmap_compose. apply NoDup_fmap_2_strong; [|by eapply NoDup_fmap_1, range_map_NoDup].
    intros [s e] [t x] Hs%range_map_elem Hx%range_map_elem Heq. simpl in Heq.
    assert (s = t) as -> by (by eapply Ht). congruence. }
  destruct (install_exports_ok (range_map m) (mkIdentities (u64 (generation st + 1)) 0 ∅ ∅ (durableRefs st) (fst exp) (snd exp)))
    as (A & _ & B); [| |apply range_map_NoDup|done|done|done|].
  - split; simpl; try done; [apply (refs_durable _ Hok)].
  - apply Forall_forall. intros [s e] Hin%range_map_elem. by apply (Hm s e).
  - split; [done|]. intros s e Hs. by apply B, range_map_elem.
Qed.

Lemma declarationExportIdentities_dom shape e : e ∈ exports shape ->
  is_Some (declarationExportIdentities shape !! exp_symbol e).
Proof.
  unfold declarationExportIdentities. generalize (∅ : gmap Symbol preservedExportIdentity) as m.
  assert (forall es (m : gmap Symbol preservedExportIdentity) s, is_Some (m !! s) ->
    is_Some (foldl (fun identities e => <[exp_symbol e := exported e]> identities) m es !! s)) as Hkeep.
  { induction es as [|x es IH]; intros m s Hs; [done|]. simpl. apply IH, lookup_insert_is_Some'. by right. }
  induction (exports shape) as [|x es IH]; intros m He; [by apply elem_of_nil in He|]. simpl.
  apply elem_of_cons in He as [->|He]; [|by apply IH]. apply Hkeep. rewrite lookup_insert_eq. by eexists.
Qed.

(** C15: If the shapes of a module before and after an edit pair their exports, the next
    generation gives every export the identity it had, whatever moved. *)
Theorem shape_keeps_identities st previous next path m :
  ids_ok st -> Forall export_ok (exports next) -> preserveExportIdentities previous next = Some m ->
  let current := declarationExportIdentities next in
  let st' := next_generation st (replace_exports st path current) current in
  ids_ok st' /\ length (exports previous) = length (exports next) /\
  forall k old new, exports previous !! k = Some old -> exports next !! k = Some new ->
    exp_name new = exp_name old /\ idFor st' (exp_symbol new) = (st', exp_id old).
Proof.
  intros Hok Hes Hp current st'. apply preserve_spec in Hp as (Ht & Hm & Hpair).
  pose proof (declarationExportIdentities_named next Hes) as Hnamed. fold current in Hnamed.
  destruct (replace_exports_ok st path current Hok Hnamed) as [H1 H2].
  destruct (next_generation_ok st (replace_exports st path current) current) as [A B]; [done|done|by subst m|done|done|].
  fold st' in A, B. split; [done|]. split; [by eapply Forall2_length|]. intros k old new Ho Hn.
  destruct (Forall2_lookup_lr _ _ _ _ _ _ Hpair Ho Hn) as [E1 E2]. split; [done|].
  destruct (declarationExportIdentities_dom next new) as [e He]; [by eapply list_elem_of_lookup_2|].
  destruct (Hnamed _ _ He) as [He1 He2]. rewrite Forall_lookup in Hes. destruct (Hes _ _ Hn) as [Hn1 Hn2].
  unfold idFor. rewrite (B _ _ He). f_equal. congruence.
Qed.
End ExportFacts.
