(* ===== verification/References.v ===== *)
(** * The reference index (references.go)

    Per file, the adapter keeps the identifiers that refer to each symbol;
    merged, they answer where a symbol is referred to. An update drops the
    entries of the files it affects and patches the merged index when the next
    query comes; the spans of a file move into the merged index when they are
    merged, and only the identities stay behind. *)

From S2P Require Import Prelude GoStd GoText SortedPaths Model Compiler Identity.

Record fileReferenceSpan := mkSpan { span_start : Z; span_end : Z }.
Record indexedReference := mkIndexed { ir_path : Z; ir_start : Z; ir_end : Z }.
Record fileReferenceGroup := mkGroup { group_id : SymbolID; spans : list fileReferenceSpan }.
Record fileReferenceSpace := mkSpace { space_id : SymbolID; bits : Z }.
Record fileReferences := mkFileReferences {
  refs : list fileReferenceGroup;
  file_spaces : list fileReferenceSpace;
  durable : bool;
}.

#[export] Instance fileReferenceSpan_eq : EqDecision fileReferenceSpan.
Proof. solve_decision. Defined.
#[export] Instance indexedReference_eq : EqDecision indexedReference.
Proof. solve_decision. Defined.

(** A nil set of paths or symbols reads as an empty one. *)
Record referenceIndex := mkIndex {
  merged : option (gmap string (list indexedReference));
  ix_spaces : option (gmap string Z);
  paths : list string;
  used : gset string;
  refreshPaths : gset string;
  changedSymbols : gset string;
  deltaExact : bool;
  files : gmap string fileReferences;
}.

Definition empty_index : referenceIndex := mkIndex None None [] ∅ ∅ ∅ false ∅.
(** [reset]. *)
Definition reset (r : referenceIndex) : referenceIndex := empty_index.

Definition group_ids (entry : fileReferences) : gset string := list_to_set (group_id <$> refs entry).

(** What is left of an entry once its spans are merged. *)
Definition emptied (entry : fileReferences) : fileReferences :=
  mkFileReferences ((fun g => mkGroup (group_id g) []) <$> refs entry) (file_spaces entry) (durable entry).

(** [for _, span := range group.spans]. *)
Definition indexed (pathIndex : Z) (g : fileReferenceGroup) : list indexedReference :=
  (fun span => mkIndexed pathIndex (span_start span) (span_end span)) <$> spans g.

Definition merge_group (pathIndex : Z) (m : gmap string (list indexedReference)) (g : fileReferenceGroup) :
    gmap string (list indexedReference) :=
  <[group_id g := default [] (m !! group_id g) ++ indexed pathIndex g]> m.

Definition add_space (m : gmap string Z) (space : fileReferenceSpace) : gmap string Z :=
  <[space_id space := Z.lor (default 0 (m !! space_id space)) (bits space)]> m.

(** [sort.SearchStrings(r.paths, path)]. *)
Definition SearchStrings (paths : list string) (path : string) : nat := search_key (fun p => p) paths path.

(** The references of a group that are not of the file at an index. *)
Definition drop_group (pathIndex : Z) (m : gmap string (list indexedReference)) (g : fileReferenceGroup) :
    gmap string (list indexedReference) :=
  let kept := filter (fun reference => ir_path reference <> pathIndex) (default [] (m !! group_id g)) in
  match kept with [] => delete (group_id g) m | _ => <[group_id g := kept]> m end.

Definition reference_less (a b : indexedReference) : bool :=
  if negb (ir_path a =? ir_path b) then ir_path a <? ir_path b
  else if negb (ir_start a =? ir_start b) then ir_start a <? ir_start b
  else ir_end a <? ir_end b.

Definition referenceSpaceFromBits (bits : Z) : ReferenceSpace :=
  if bits =? 1 then ReferenceSpaceValue
  else if bits =? 2 then ReferenceSpaceType
  else if bits =? 3 then ReferenceSpaceBoth
  else ReferenceSpaceNeither.

(** [locations]: none when the symbol has no references. *)
Definition locations (r : referenceIndex) (i : SymbolID) : list Location :=
  (fun reference => mkLocation (default "" (paths r !! Z.to_nat (ir_path reference))) (ir_start reference) (ir_end reference)) <$>
    default [] (default ∅ (merged r) !! i).

Definition markUsed (r : referenceIndex) (i : SymbolID) : referenceIndex :=
  mkIndex (merged r) (ix_spaces r) (paths r) ({[i]} ∪ used r) (refreshPaths r) (changedSymbols r) (deltaExact r) (files r).

(** [releaseAnalysisState]. *)
Definition release_index (r : referenceIndex) : referenceIndex :=
  mkIndex ((fun m => filter (fun kv => kv.1 ∈ used r) m) <$> merged r) None (paths r) ∅ (refreshPaths r)
    (changedSymbols r) (deltaExact r) (files r).

(** ** One file *)

Section Scan.
Context `{C : !Compiler} `{MR : !MapRange}.

Fixpoint qualified_name (node : NodeID) (ancestors : list NodeID) : NodeID :=
  match ancestors with
  | parent :: ancestors => if IsQualifiedName parent then qualified_name parent ancestors else node
  | [] => node
  end.

Definition isTypeSpaceReference (node : NodeID) : bool := IsPartOfTypeNode (qualified_name node (Ancestors node)).

Record scanState := mkScan {
  sc_ids : identities;
  sc_references : gmap string (list fileReferenceSpan);
  sc_spaces : gmap string Z;
  sc_unordered : gset string;
  sc_durable : bool;
}.

Definition out_of_order (spans : list fileReferenceSpan) (start : Z) : bool :=
  match last spans with Some span => start <? span_start span | None => false end.

Definition scan_node (checker : Checker) (sourceFile : SourceFile) (sc : scanState) (node : NodeID) : scanState :=
  if IsIdentifier node && negb (IsDeclarationNameOrImportPropertyName node) then
    match GetSymbolAtLocation checker node with
    | None => sc
    | Some symbol =>
        let '(st, referenceID) := idFor (sc_ids sc) symbol in
        let '(st, i) := idFor st (canonicalSymbol checker symbol) in
        let spans := default [] (sc_references sc !! i) in
        let start := i32 (SkipTrivia (Text sourceFile) (Pos node)) in
        let bit := if isTypeSpaceReference node then 2 else 1 in
        mkScan st (<[i := spans ++ [mkSpan start (i32 (End_ node))]]> (sc_references sc))
          (<[referenceID := Z.lor (default 0 (sc_spaces sc !! referenceID)) bit]> (sc_spaces sc))
          (if out_of_order spans start then {[i]} ∪ sc_unordered sc else sc_unordered sc)
          (sc_durable sc && (DurableSymbolID i && DurableSymbolID referenceID))
    end
  else sc.

(** Every node of a file in the order of the visitor. *)
Definition file_nodes (sourceFile : SourceFile) : list NodeID :=
  node_id <$> (Statements sourceFile ≫= preorder).

Definition scan (checker : Checker) (sourceFile : SourceFile) (st : identities) : identities * fileReferences :=
  let sc := foldl (scan_node checker sourceFile) (mkScan st ∅ ∅ ∅ true) (file_nodes sourceFile) in
  let group kv :=
    mkGroup kv.1 (if bool_decide (kv.1 ∈ sc_unordered sc)
                  then sort_slice (fun a b => span_start a <? span_start b) kv.2 else kv.2) in
  (sc_ids sc,
   mkFileReferences
     (sort_slice (key_less group_id) (group <$> range_map (sc_references sc)))
     (sort_slice (key_less space_id) ((fun kv => mkSpace kv.1 kv.2) <$> range_map (sc_spaces sc)))
     (sc_durable sc)).

(** ** Invalidation *)

(** The locals of the loop over the entries. *)
Record invalidation := mkInvalidation {
  inv_merged : option (gmap string (list indexedReference));
  inv_refresh : gset string;
  inv_changed : gset string;
  inv_files : gmap string fileReferences;
}.

Definition invalidate_entry (program : Program) (pathTable : list string) (hadExactBase incremental : bool)
    (v : invalidation) (path : string) (entry : fileReferences) : invalidation :=
  mkInvalidation
    (if incremental then (fun m => foldl (drop_group (Z.of_nat (SearchStrings pathTable path))) m (refs entry)) <$> inv_merged v
     else inv_merged v)
    (if incremental && match GetSourceFile program path with Some f => negb (IsDeclarationFile f) | None => false end
     then {[path]} ∪ inv_refresh v else inv_refresh v)
    (if hadExactBase then group_ids entry ∪ inv_changed v else inv_changed v)
    (delete path (inv_files v)).

Definition invalidate (program : Program) (affected : list string) (retained : string -> bool) (r : referenceIndex) :
    referenceIndex :=
  let is_merged := match merged r with Some _ => true | None => false end in
  let composing := deltaExact r && (negb is_merged || negb (bool_decide (refreshPaths r = ∅))) in
  let hadExactBase := is_merged || composing in
  let incremental := is_merged && (length affected <=? 64)%nat && negb composing in
  let v :=
    foldl (fun v '(path, entry) =>
        if retained path && durable entry then v
        else invalidate_entry program (paths r) hadExactBase incremental v path entry)
      (mkInvalidation (merged r) ∅ (if composing then changedSymbols r else ∅) (files r)) (range_map (files r)) in
  if incremental then
    mkIndex (inv_merged v) None (paths r) (used r) (inv_refresh v) (inv_changed v) true (inv_files v)
  else mkIndex None None [] (used r) ∅ (inv_changed v) hadExactBase (inv_files v).

(** ** Materialization *)

(** [build], whose loops scan what has no entry and then merge in path order. *)
Definition build_file (checker : Checker) (st : identities * referenceIndex * list string) (sourceFile : SourceFile) :
    identities * referenceIndex * list string :=
  let '(ids, r, found) := st in
  if IsDeclarationFile sourceFile then st
  else
    let path := file_path sourceFile in
    match files r !! path with
    | Some _ => (ids, r, found ++ [path])
    | None =>
        let '(ids, entry) := scan checker sourceFile ids in
        (ids,
         mkIndex (merged r) (ix_spaces r) (paths r) (used r) (refreshPaths r)
           (if deltaExact r then group_ids entry ∪ changedSymbols r else changedSymbols r) (deltaExact r)
           (<[path := entry]> (files r)), found ++ [path])
    end.

Definition merge_path (st : gmap string (list indexedReference) * gmap string Z * gmap string fileReferences)
    (ip : nat * string) : gmap string (list indexedReference) * gmap string Z * gmap string fileReferences :=
  let '(m, spaces, files) := st in
  match files !! ip.2 with
  | None => st
  | Some entry =>
      (foldl (merge_group (Z.of_nat ip.1)) m (refs entry), foldl add_space spaces (file_spaces entry),
       <[ip.2 := emptied entry]> files)
  end.

Definition build (program : Program) (checker : Checker) (ids : identities) (r : referenceIndex) : identities * referenceIndex :=
  let '(ids, r, found) := foldl (build_file checker) (ids, r, []) (SourceFiles program) in
  let pathTable := sort_Strings found in
  let '(m, spaces, files) := foldl merge_path (∅, ∅, files r) (imap pair pathTable) in
  (ids, mkIndex (Some m) (Some spaces) pathTable (used r) ∅ (changedSymbols r) (deltaExact r) files).

(** The refresh of one path: its new entry joins the merged index. *)
Definition refresh_path (program : Program) (checker : Checker)
    (st : identities * referenceIndex * gset string) (path : string) : identities * referenceIndex * gset string :=
  let '(ids, r, touched) := st in
  match GetSourceFile program path with
  | None => st
  | Some sourceFile =>
      if IsDeclarationFile sourceFile then st
      else
        let '(ids, entry) := scan checker sourceFile ids in
        let pathIndex := SearchStrings (paths r) path in
        if bool_decide (paths r !! pathIndex = Some path) then
          (ids,
           mkIndex ((fun m => foldl (merge_group (Z.of_nat pathIndex)) m (refs entry)) <$> merged r) (ix_spaces r) (paths r)
             (used r) (refreshPaths r) (if deltaExact r then group_ids entry ∪ changedSymbols r else changedSymbols r)
             (deltaExact r) (<[path := emptied entry]> (files r)),
           group_ids entry ∪ touched)
        else
          (ids, mkIndex (merged r) (ix_spaces r) (paths r) (used r) (refreshPaths r) (changedSymbols r) (deltaExact r)
                  (<[path := entry]> (files r)), touched)
  end.

Definition sort_touched (m : gmap string (list indexedReference)) (i : SymbolID) : gmap string (list indexedReference) :=
  alter (sort_slice reference_less) i m.

Definition ensure (program : Program) (checker : Checker) (ids : identities) (r : referenceIndex) : identities * referenceIndex :=
  match merged r with
  | None => build program checker ids r
  | Some _ =>
      if bool_decide (refreshPaths r = ∅) then (ids, r)
      else
        let '(ids, r, touched) :=
          foldl (refresh_path program checker) (ids, r, ∅) (sort_Strings (range_set (refreshPaths r))) in
        (ids, mkIndex ((fun m => foldl sort_touched m (range_set touched)) <$> merged r) (ix_spaces r) (paths r) (used r) ∅
                (changedSymbols r) (deltaExact r) (files r))
  end.

Definition spaceFor (program : Program) (checker : Checker) (ids : identities) (r : referenceIndex) (i : SymbolID) :
    identities * referenceIndex * ReferenceSpace :=
  let '(ids, r) := ensure program checker ids r in
  let spaces := match ix_spaces r with
                | Some spaces => spaces
                | None => foldl (fun spaces entry => foldl add_space spaces (file_spaces entry)) ∅ (range_map (files r)).*2
                end in
  (ids, mkIndex (merged r) (Some spaces) (paths r) (used r) (refreshPaths r) (changedSymbols r) (deltaExact r) (files r),
   referenceSpaceFromBits (default 0 (spaces !! i))).

(** ** Queries *)

Definition refer_to (program : Program) (checker : Checker) (ids : identities) (symbol : Symbol) : identities * SymbolID :=
  idFor ids (canonicalSymbol checker symbol).

(** [References], once the project is open and has a checker. *)
Definition References (program : Program) (checker : Checker) (ids : identities) (r : referenceIndex) (i : SymbolID) :
    identities * referenceIndex * result (list Location) :=
  let '(ids, target) := symbolFor program checker ids i in
  match target with
  | None => (ids, r, Err (ErrWrap "symbol" ErrNotFound))
  | Some target =>
      let '(ids, canonical) := refer_to program checker ids target in
      let '(ids, r) := ensure program checker ids r in
      let r := markUsed r canonical in
      (ids, r, Ok (locations r canonical))
  end.

Definition batch_step (program : Program) (checker : Checker)
    (st : identities * referenceIndex * gmap string (list Location)) (i : SymbolID) :
    identities * referenceIndex * gmap string (list Location) :=
  let '(ids, r, answer) := st in
  let '(ids, target) := symbolFor program checker ids i in
  match target with
  | None => (ids, r, answer)
  | Some target =>
      let '(ids, canonical) := refer_to program checker ids target in
      let r := markUsed r canonical in
      (ids, r, <[i := locations r canonical]> answer)
  end.

Definition ReferencesBatch (program : Program) (checker : Checker) (ids : identities) (r : referenceIndex)
    (symbols : list SymbolID) : identities * referenceIndex * gmap string (list Location) :=
  let '(ids, r) := ensure program checker ids r in
  foldl (batch_step program checker) (ids, r, ∅) symbols.

Definition ChangedReferences (program : Program) (checker : Checker) (ids : identities) (r : referenceIndex) :
    identities * referenceIndex * (list SymbolID * bool) :=
  let '(ids, r) := ensure program checker ids r in
  (ids, r, if deltaExact r then (sort_Strings (range_set (changedSymbols r)), true) else ([], false)).
End Scan.
