(* ===== verification/ReferencesTheorems.v ===== *)
(** * What the reference index answers

    An index that owes no refresh stands for the spans of its files
    ([represents]). A fresh index stands for the scans of every file, and a
    small update that is followed by a query patches the index to stand for the
    new scans of the files it dropped and the old ones of the others, while a
    file that joins the program stays out; the
    symbols it does not report as changed keep their references. *)

From S2P Require Import Prelude GoStd GoText SortedPaths Model Compiler Identity References.

(** ** The rows of a table of files *)

Definition rows (k : nat) (e : fileReferences) (i : SymbolID) : list indexedReference :=
  refs e ≫= (fun g => if String.eqb (group_id g) i then indexed (Z.of_nat k) g else []).

Definition rows_of (F : gmap string fileReferences) (p : string) (k : nat) (i : SymbolID) : list indexedReference :=
  match F !! p with Some e => rows k e i | None => [] end.

Fixpoint expected_from (n : nat) (F : gmap string fileReferences) (table : list string) (i : SymbolID) : list indexedReference :=
  match table with
  | [] => []
  | p :: table => rows_of F p n i ++ expected_from (S n) F table i
  end.

(** The references to a symbol, in the order of the path table. *)
Definition expected := expected_from 0.

Lemma rows_path k e i : Forall (fun reference => ir_path reference = Z.of_nat k) (rows k e i).
Proof.
  apply Forall_forall. intros x (g & Hx & _)%list_elem_of_bind. destruct (String.eqb _ _); [|by apply elem_of_nil in Hx].
  by apply list_elem_of_fmap in Hx as (span & -> & _).
Qed.

Lemma rows_not_named k e i : i ∉ group_ids e -> rows k e i = [].
Proof.
  unfold group_ids, rows. rewrite elem_of_list_to_set. induction (refs e) as [|g gs IH]; [done|].
  rewrite fmap_cons, not_elem_of_cons. intros [H1 H2]. simpl. destruct (String.eqb_spec (group_id g) i); [congruence|].
  by apply IH.
Qed.

Lemma expected_from_path n F table i :
  Forall (fun reference => Z.of_nat n <= ir_path reference < Z.of_nat (n + length table)) (expected_from n F table i).
Proof.
  revert n. induction table as [|p table IH]; intros n; [constructor|]. simpl. apply Forall_app. split.
  - unfold rows_of. destruct (F !! p) as [e|]; [|constructor]. eapply Forall_impl; [apply rows_path|]. simpl. intros x ->. lia.
  - eapply Forall_impl; [apply IH|]. simpl. intros x Hx. lia.
Qed.

Lemma expected_from_ext n F G table i : (forall p, p ∈ table -> F !! p = G !! p) ->
  expected_from n F table i = expected_from n G table i.
Proof.
  revert n. induction table as [|p table IH]; intros n H; [done|]. simpl. unfold rows_of. rewrite (H p) by left.
  f_equal. apply IH. intros q Hq. apply H. by right.
Qed.

(** Deleting a file takes the references at its index. *)
Lemma expected_from_delete n F table j p i : NoDup table -> table !! j = Some p ->
  expected_from n (delete p F) table i =
  filter (fun reference => ir_path reference <> Z.of_nat (n + j)) (expected_from n F table i).
Proof.
  revert n j. induction table as [|q table IH]; intros n j Hnd Hj; [done|]. apply NoDup_cons in Hnd as [Hq Hnd].
  simpl. rewrite filter_app. destruct j as [|j]; simpl in Hj.
  - simplify_eq. rewrite Nat.add_0_r. unfold rows_of. rewrite lookup_delete_eq. simpl.
    rewrite (filter_none _ (match F !! p with Some e => _ | None => _ end)).
    + simpl. rewrite filter_all.
      * apply expected_from_ext. intros q Hin. rewrite lookup_delete_ne; [done|]. by intros ->.
      * eapply Forall_impl; [apply expected_from_path|]. simpl. intros x Hx. lia.
    + destruct (F !! p); [|constructor]. eapply Forall_impl; [apply rows_path|]. simpl. auto.
  - rewrite (IH (S n) j) by done. replace (S n + j)%nat with (n + S j)%nat by lia. f_equal.
    assert (q <> p) by (intros ->; by apply Hq, list_elem_of_lookup_2 with j).
    unfold rows_of. rewrite lookup_delete_ne by done. symmetry. apply filter_all.
    destruct (F !! q); [|constructor]. eapply Forall_impl; [apply rows_path|]. simpl. intros x ->. lia.
Qed.

(** Adding one adds its references, somewhere. *)
Lemma expected_from_insert n F table j p e i : NoDup table -> table !! j = Some p -> F !! p = None ->
  expected_from n (<[p := e]> F) table i ≡ₚ expected_from n F table i ++ rows (n + j) e i.
Proof.
  revert n j. induction table as [|q table IH]; intros n j Hnd Hj HF; [done|]. apply NoDup_cons in Hnd as [Hq Hnd].
  simpl. destruct j as [|j]; simpl in Hj.
  - simplify_eq. rewrite Nat.add_0_r. unfold rows_of at 1 2. rewrite lookup_insert_eq, HF. simpl.
    rewrite (expected_from_ext _ (<[p := e]> F) F); [by rewrite Permutation_app_comm|].
    intros q Hin. rewrite lookup_insert_ne; [done|]. by intros ->.
  - rewrite (IH (S n) j) by done. replace (S n + j)%nat with (n + S j)%nat by lia. rewrite <- app_assoc.
    assert (q <> p) by (intros ->; by apply Hq, list_elem_of_lookup_2 with j).
    unfold rows_of. by rewrite lookup_insert_ne.
Qed.

(** ** Order *)

(** Every symbol has one group, and its spans are in order. *)
Record entry_ok (e : fileReferences) : Prop := {
  groups_distinct : NoDup (group_id <$> refs e);
  spans_ascend : Forall (fun g => StronglySorted (fun a b => span_start a < span_start b) (spans g)) (refs e);
}.

Definition reference_le : relation indexedReference := not_after reference_less.

Lemma reference_le_spec a b : reference_le a b <->
  ir_path a < ir_path b \/ (ir_path a = ir_path b /\
    (ir_start a < ir_start b \/ (ir_start a = ir_start b /\ ir_end a <= ir_end b))).
Proof.
  unfold reference_le, not_after, reference_less.
  destruct (Z.eqb_spec (ir_path b) (ir_path a)), (Z.eqb_spec (ir_start b) (ir_start a)); simpl;
    rewrite Z.ltb_ge; lia.
Qed.

#[export] Instance reference_le_antisym : AntiSymm (=) reference_le.
Proof. intros [p1 s1 e1] [p2 s2 e2]. rewrite !reference_le_spec. simpl. intros. f_equal; lia. Qed.

Lemma sort_references_sorted l : StronglySorted reference_le (sort_slice reference_less l).
Proof.
  apply sort_slice_sorted.
  - intros a b c. change (reference_le a b -> reference_le b c -> reference_le a c). rewrite !reference_le_spec. lia.
  - intros a b H. destruct (reference_less b a) eqn:E; [|done]. exfalso.
    assert (~ reference_le a b) by (unfold reference_le, not_after; by rewrite E).
    assert (~ reference_le b a) by (unfold reference_le, not_after; by rewrite H).
    rewrite reference_le_spec in *. lia.
Qed.

Lemma rows_sorted k e i : entry_ok e -> StronglySorted reference_le (rows k e i).
Proof.
  intros [Hnd Hs]. unfold rows. induction (refs e) as [|g gs IH]; [constructor|].
  rewrite fmap_cons in Hnd. apply NoDup_cons in Hnd as [Hg Hnd]. apply Forall_cons in Hs as [Hs1 Hs2].
  cbn [mbind list_bind]. destruct (String.eqb_spec (group_id g) i) as [E|]; [|by apply IH].
  assert (mbind (fun g => if String.eqb (group_id g) i then indexed (Z.of_nat k) g else []) gs = []) as ->.
  { rewrite E in Hg. clear -Hg. induction gs as [|g gs IH]; [done|]. rewrite fmap_cons, not_elem_of_cons in Hg.
    destruct Hg as [H1 H2]. cbn [mbind list_bind]. destruct (String.eqb_spec (group_id g) i); [congruence|]. by apply IH. }
  rewrite app_nil_r. unfold indexed. clear -Hs1. induction Hs1 as [|a l Hl IH Ha]; [constructor|]. simpl. constructor; [done|].
  apply Forall_fmap. eapply Forall_impl; [exact Ha|]. simpl. intros b Hb. apply reference_le_spec. simpl. lia.
Qed.

Lemma StronglySorted_append {A} (R : relation A) l1 l2 : StronglySorted R l1 -> StronglySorted R l2 ->
  (forall a b, a ∈ l1 -> b ∈ l2 -> R a b) -> StronglySorted R (l1 ++ l2).
Proof.
  intros H1 H2. induction H1 as [|a l1 Hl IH Ha]; intros H; [done|]. simpl. constructor.
  - apply IH. intros. apply H; [by right|done].
  - apply Forall_app. split; [done|]. apply Forall_forall. intros b Hb. apply H; [left|done].
Qed.

Lemma expected_from_sorted n F table i : (forall p e, F !! p = Some e -> entry_ok e) ->
  StronglySorted reference_le (expected_from n F table i).
Proof.
  intros HF. revert n. induction table as [|p table IH]; intros n; [constructor|]. simpl. apply StronglySorted_append.
  - unfold rows_of. destruct (F !! p) as [e|] eqn:E; [|constructor]. apply rows_sorted. by eapply HF.
  - apply IH.
  - intros a b Ha Hb. pose proof (expected_from_path (S n) F table i) as Hp. rewrite Forall_forall in Hp. specialize (Hp b Hb).
    simpl in Hp. unfold rows_of in Ha. destruct (F !! p) as [e|]; [|by apply elem_of_nil in Ha].
    pose proof (rows_path n e i) as Hr. rewrite Forall_forall in Hr. specialize (Hr a Ha). simpl in Hr.
    apply reference_le_spec. lia.
Qed.

(** ** One file leaves or joins the merged index *)

(** The references a merged index has for a symbol. *)
Definition row (m : gmap string (list indexedReference)) (i : SymbolID) : list indexedReference := default [] (m !! i).

Lemma merge_groups_row k gs m i :
  row (foldl (merge_group (Z.of_nat k)) m gs) i =
  row m i ++ (gs ≫= fun g => if String.eqb (group_id g) i then indexed (Z.of_nat k) g else []).
Proof.
  revert m. induction gs as [|g gs IH]; intros m; [by rewrite app_nil_r|]. simpl. rewrite IH, app_assoc. f_equal.
  unfold row, merge_group. destruct (String.eqb_spec (group_id g) i) as [<-|Hne].
  - by rewrite lookup_insert_eq.
  - by rewrite lookup_insert_ne, app_nil_r.
Qed.

Lemma drop_group_row k g m i :
  row (drop_group k m g) i =
  if String.eqb (group_id g) i then filter (fun reference => ir_path reference <> k) (row m i) else row m i.
Proof.
  unfold row, drop_group. destruct (filter _ (default [] (m !! group_id g))) as [|x l] eqn:E;
    destruct (String.eqb_spec (group_id g) i) as [<-|Hne];
    rewrite ?lookup_delete_eq, ?lookup_insert_eq, ?lookup_delete_ne, ?lookup_insert_ne by done; by rewrite ?E.
Qed.

Lemma filter_filter {A} (P : A -> Prop) `{!forall x, Decision (P x)} (l : list A) : filter P (filter P l) = filter P l.
Proof. apply filter_all. apply Forall_forall. intros x. rewrite list_elem_of_filter. tauto. Qed.

Lemma drop_groups_row k gs m i :
  row (foldl (drop_group k) m gs) i =
  if bool_decide (i ∈ group_id <$> gs) then filter (fun reference => ir_path reference <> k) (row m i) else row m i.
Proof.
  revert m. induction gs as [|g gs IH]; intros m; [by rewrite bool_decide_eq_false_2 by apply not_elem_of_nil|].
  cbn [foldl]. rewrite IH, fmap_cons. destruct (String.eqb_spec (group_id g) i) as [E|E].
  - rewrite (bool_decide_eq_true_2 (i ∈ group_id g :: _)) by (rewrite E; left). rewrite drop_group_row, (proj2 (String.eqb_eq _ _) E).
    case_bool_decide; [apply filter_filter|done].
  - rewrite drop_group_row, (proj2 (String.eqb_neq _ _) E).
    rewrite (bool_decide_ext (i ∈ group_id g :: (group_id <$> gs)) (i ∈ group_id <$> gs)); [done|]. rewrite elem_of_cons. naive_solver.
Qed.

Lemma SearchStrings_found table j p : StronglySorted slt table -> table !! j = Some p -> SearchStrings table p = j.
Proof.
  intros Hs Hj. unfold SearchStrings.
  destruct (search_key_split (fun q => q) table p) as (l1 & l2 & -> & Hlen & H1 & H2);
    [by unfold keys_sorted; rewrite list_fmap_id|].
  rewrite <- Hlen. assert (j < length l1 \/ j = length l1 \/ length l1 < j)%nat as [Hlt|[->|Hgt]] by lia; [|done|].
  - rewrite lookup_app_l in Hj by done. rewrite Forall_lookup in H1. apply H1 in Hj. by apply slt_irrefl in Hj.
  - rewrite lookup_app_r in Hj by lia. destruct l2 as [|q l2]; [done|].
    destruct (j - length l1)%nat as [|d] eqn:Ed; [lia|]. simpl in Hj. apply Forall_cons in H2 as [Hq _].
    assert (slt q p) as Hqp.
    { clear -Hs Hj. induction l1 as [|x l1 IH]; simpl in Hs; apply StronglySorted_inv in Hs as [Hs Hx]; [|by apply IH].
      rewrite Forall_lookup in Hx. by apply Hx in Hj. }
    by apply sle_not_slt in Hq.
Qed.

Lemma sorted_NoDup (table : list string) : StronglySorted slt table -> NoDup table.
Proof.
  intros H. pose proof (keys_sorted_NoDup (fun q : string => q) table) as Hnd.
  unfold keys_sorted in Hnd. rewrite list_fmap_id in Hnd. by apply Hnd.
Qed.

(** ** What an index stands for *)

(** The merged rows and the emptied entries of the files [F]. *)
Record stands_for (table : list string) (F : gmap string fileReferences)
    (m : gmap string (list indexedReference)) (emptied_files : gmap string fileReferences) : Prop := {
  sf_rows : forall i, row m i ≡ₚ expected F table i;
  sf_files : emptied_files = emptied <$> F;
  sf_paths : forall p, is_Some (F !! p) -> p ∈ table;
  sf_entries : forall p e, F !! p = Some e -> entry_ok e;
}.

Record represents (F : gmap string fileReferences) (r : referenceIndex) : Prop := {
  rp_merged : exists m, merged r = Some m /\ stands_for (paths r) F m (files r) /\ forall i, row m i = expected F (paths r) i;
  rp_sorted : StronglySorted slt (paths r);
  rp_settled : refreshPaths r = ∅;
}.

Lemma group_ids_emptied e : group_ids (emptied e) = group_ids e.
Proof. unfold group_ids, emptied. simpl. by rewrite <- list_fmap_compose. Qed.

Lemma drop_file table F m fs p e j : StronglySorted slt table -> stands_for table F m fs -> F !! p = Some e -> table !! j = Some p ->
  stands_for table (delete p F) (foldl (drop_group (Z.of_nat j)) m (refs (emptied e))) (delete p fs) /\
  ((forall i, row m i = expected F table i) ->
   forall i, row (foldl (drop_group (Z.of_nat j)) m (refs (emptied e))) i = expected (delete p F) table i) /\
  (forall i, i ∉ group_ids e -> expected (delete p F) table i = expected F table i).
Proof.
  intros Hs [H1 H2 H3 H4] Hp Hj. pose proof (sorted_NoDup _ Hs) as Hnd.
  assert (forall i, expected (delete p F) table i = filter (fun reference => ir_path reference <> Z.of_nat j) (expected F table i)) as Hexp
    by (intros i; by apply (expected_from_delete 0)).
  assert (forall i, i ∉ group_ids e -> expected (delete p F) table i = expected F table i) as Hnot.
  { intros i Hi. pose proof (expected_from_insert 0 (delete p F) table j p e i Hnd Hj ltac:(by apply lookup_delete_eq)) as Hins.
    rewrite insert_delete_id, rows_not_named, app_nil_r in Hins by done. rewrite Hexp.
    apply filter_all, Forall_forall. intros x Hx. fold (expected F table i) in Hins. rewrite Hins in Hx.
    fold (expected (delete p F) table i) in Hx. rewrite Hexp in Hx. by apply list_elem_of_filter in Hx as [? _]. }
  assert (forall i, row (foldl (drop_group (Z.of_nat j)) m (refs (emptied e))) i =
    if bool_decide (i ∈ group_ids e) then filter (fun reference => ir_path reference <> Z.of_nat j) (row m i) else row m i) as Hrow.
  { intros i. rewrite drop_groups_row. apply (f_equal (fun b : bool => if b then _ else _)).
    apply bool_decide_ext. rewrite <- group_ids_emptied. unfold group_ids. by rewrite elem_of_list_to_set. }
  split_and!; [split| |done].
  - intros i. rewrite Hrow. case_bool_decide as Hi; [rewrite Hexp; by rewrite (H1 i)|by rewrite Hnot].
  - by rewrite H2, fmap_delete.
  - intros q [x Hq]. apply H3. apply lookup_delete_Some in Hq as [_ Hq]. by exists x.
  - intros q x [_ Hq]%lookup_delete_Some. by eapply H4.
  - intros Heq i. rewrite Hrow. case_bool_decide as Hi; [by rewrite Hexp, Heq|by rewrite Hnot].
Qed.

Lemma join_file table F m fs p e j : StronglySorted slt table -> stands_for table F m fs -> F !! p = None -> table !! j = Some p ->
  entry_ok e ->
  stands_for table (<[p := e]> F) (foldl (merge_group (Z.of_nat j)) m (refs e)) (<[p := emptied e]> fs) /\
  (forall i, i ∉ group_ids e -> row (foldl (merge_group (Z.of_nat j)) m (refs e)) i = row m i /\
     expected (<[p := e]> F) table i = expected F table i).
Proof.
  intros Hs [H1 H2 H3 H4] Hp Hj He. pose proof (sorted_NoDup _ Hs) as Hnd. split; [split|].
  - intros i. rewrite merge_groups_row. unfold expected. rewrite (expected_from_insert 0 F table j p e i Hnd Hj Hp).
    by rewrite (H1 i).
  - by rewrite H2, fmap_insert.
  - intros q [x Hq]. apply lookup_insert_Some in Hq as [[<- _]|[_ Hq]]; [by eapply list_elem_of_lookup_2|]. apply H3. by exists x.
  - intros q x Hq. apply lookup_insert_Some in Hq as [[<- <-]|[_ Hq]]; [done|by eapply H4].
  - intros i Hi. split; [rewrite merge_groups_row; fold (rows j e i); by rewrite rows_not_named, app_nil_r|].
    pose proof (expected_from_delete 0 (<[p := e]> F) table j p i Hnd Hj) as Hd. rewrite delete_insert_id in Hd by done.
    unfold expected. rewrite Hd. symmetry. apply filter_all, Forall_forall. intros x Hx.
    rewrite (expected_from_insert 0 F table j p e i Hnd Hj Hp), rows_not_named, app_nil_r in Hx by done.
    rewrite Hd in Hx. by apply list_elem_of_filter in Hx as [? _].
Qed.

(** ** Small updates *)

Section Update.
Context `{C : !Compiler} `{MR : !MapRange}.

(** The file of a path that an index has rows for. *)
Definition indexed_file (program : Program) (p : string) : option SourceFile :=
  match GetSourceFile program p with
  | Some f => if IsDeclarationFile f then None else Some f
  | None => None
  end.

Definition keeps (retained : string -> bool) (p : string) (e : fileReferences) : bool := retained p && durable e.

Definition without (retained : string -> bool) (done : list string) (F : gmap string fileReferences) : gmap string fileReferences :=
  filter (fun kv => kv.1 ∈ done -> keeps retained kv.1 kv.2 = true) F.

Lemma invalidate_entries program table retained l v m G :
  StronglySorted slt table -> NoDup l.*1 -> (forall p x, (p, x) ∈ l -> exists e, G !! p = Some e /\ x = emptied e) ->
  inv_merged v = Some m -> stands_for table G m (inv_files v) -> (forall i, row m i = expected G table i) ->
  let v' := foldl (fun v '(path, entry) =>
        if retained path && durable entry then v else invalidate_entry program table true true v path entry) v l in
  exists m', inv_merged v' = Some m' /\ stands_for table (without retained l.*1 G) m' (inv_files v') /\
    (forall i, row m' i = expected (without retained l.*1 G) table i) /\
    (forall p, p ∈ inv_refresh v' <-> p ∈ inv_refresh v \/
       (p ∈ l.*1 /\ (exists e, G !! p = Some e /\ keeps retained p e = false) /\ is_Some (indexed_file program p))) /\
    inv_changed v ⊆ inv_changed v' /\
    (forall i, i ∉ inv_changed v' -> expected (without retained l.*1 G) table i = expected G table i).
Proof.
  intros Hs. revert v m G. induction l as [|[p x] l IH]; intros v m G Hnd Hl Hm Hsf Hrow; cbn zeta.
  { simpl. replace (without retained [] G) with G.
    - exists m. split_and!; [done..| |done|done]. intros q. rewrite elem_of_nil. tauto.
    - symmetry. apply map_filter_id. intros q e _ Hq. by apply elem_of_nil in Hq. }
  rewrite fmap_cons in *. cbn [foldl fst] in *.
  apply NoDup_cons in Hnd as [Hp Hnd]. destruct (Hl p x ltac:(left)) as (e & He & ->).
  change (durable (emptied e)) with (durable e). fold (keeps retained p e).
  assert (forall q y, (q, y) ∈ l -> exists e, G !! q = Some e /\ y = emptied e) as Hl' by (intros; apply Hl; by right).
  destruct (keeps retained p e) eqn:Ek.
  - assert (without retained (p :: l.*1) G = without retained l.*1 G) as ->.
    { apply map_filter_ext. intros q e' He'. simpl. rewrite elem_of_cons. split; [naive_solver|].
      intros H [->|Hq]; [congruence|auto]. }
    destruct (IH v m G Hnd Hl' Hm Hsf Hrow) as (m' & A & B & D & E & X & Y). exists m'. split_and!; [done..| |done|done].
    intros q. rewrite E, elem_of_cons. split; [naive_solver|]. intros [?|([->|?] & (e' & He' & Hk) & ?)]; [by left|congruence|].
    right. eauto.
  - pose proof (sf_paths _ _ _ _ Hsf p ltac:(by eexists)) as Hin. apply list_elem_of_lookup in Hin as [j Hj].
    destruct (drop_file table G m (inv_files v) p e j Hs Hsf He Hj) as (A1 & A2 & A3).
    set (v1 := invalidate_entry program table true true v p (emptied e)).
    assert (without retained (p :: l.*1) G = without retained l.*1 (delete p G)) as HG.
    { apply map_eq. intros q. unfold without. destruct (decide (q = p)) as [->|Hne].
      - rewrite map_lookup_filter_None_2, map_lookup_filter_None_2; [done|left; apply lookup_delete_eq|].
        right. intros e' He' Hq. simpl in Hq. assert (e' = e) as -> by congruence.
        rewrite (Hq ltac:(left)) in Ek. done.
      - rewrite !map_lookup_filter, lookup_delete_ne by done. destruct (G !! q) as [e'|]; [|done]. simpl.
        apply option_guard_iff. simpl. rewrite elem_of_cons. naive_solver. }
    destruct (IH v1 (foldl (drop_group (Z.of_nat j)) m (refs (emptied e))) (delete p G)) as (m' & B & D & E & X & Y & K).
    + done.
    + intros q y Hq. rewrite lookup_delete_ne; [by apply Hl'|]. intros ->. apply Hp, list_elem_of_fmap. by exists (q, y).
    + unfold v1, invalidate_entry. simpl. rewrite Hm. simpl. by rewrite (SearchStrings_found table j p Hs Hj).
    + done.
    + by apply A2.
    + exists m'. rewrite HG. split_and!; [done..| | |].
      * intros q. rewrite X, elem_of_cons. unfold v1. simpl. fold (indexed_file program p).
        assert ((match GetSourceFile program p with Some f => negb (IsDeclarationFile f) | None => false end) =
                match indexed_file program p with Some _ => true | None => false end) as ->.
        { unfold indexed_file. destruct (GetSourceFile program p) as [f|]; [|done]. by destruct (IsDeclarationFile f). }
        setoid_rewrite lookup_delete_Some. destruct (indexed_file program p) as [f|] eqn:Ef.
        -- rewrite elem_of_union, elem_of_singleton. split; [|naive_solver].
           intros [[->|?]|?]; [right; split; [by left|]; split; [by exists e|by eexists]|by left|naive_solver].
        -- split; [naive_solver|]. intros [?|([->|?] & ? & [f Hf])]; [by left|congruence|].
           destruct (decide (q = p)) as [->|]; [congruence|]. right. naive_solver.
      * unfold v1 in Y. simpl in Y. set_solver.
      * intros i Hi. rewrite K by done. apply A3. intros Hg. apply Hi, Y. unfold v1. simpl. rewrite group_ids_emptied. set_solver.
Qed.

(** ** The refresh *)

(** The start of an identifier, as a scan records it. *)
Definition start_of (f : SourceFile) (node : NodeID) : Z := i32 (SkipTrivia (Text f) (Pos node)).

Definition is_reference (node : NodeID) : bool := IsIdentifier node && negb (IsDeclarationNameOrImportPropertyName node).

(** No two identifiers of a file begin at the same byte. *)
Definition identifiers_apart (f : SourceFile) : Prop :=
  NoDup (start_of f <$> filter (fun node => is_reference node = true) (file_nodes f)).

Definition program_apart (program : Program) : Prop :=
  forall f, f ∈ SourceFiles program \/ (exists path, GetSourceFile program path = Some f) -> identifiers_apart f.

Record spans_ok (f : SourceFile) (seen : list Z) (sc : scanState) : Prop := {
  so_starts : forall i spans, sc_references sc !! i = Some spans ->
    NoDup (span_start <$> spans) /\ (forall z, z ∈ span_start <$> spans -> z ∈ seen);
  so_order : forall i spans, sc_references sc !! i = Some spans -> i ∉ sc_unordered sc ->
    StronglySorted (fun a b => span_start a <= span_start b) spans;
}.

Lemma snoc_spans spans span : StronglySorted (fun a b => span_start a <= span_start b) spans ->
  out_of_order spans (span_start span) = false ->
  StronglySorted (fun a b => span_start a <= span_start b) (spans ++ [span]).
Proof.
  intros Hs Ho. apply StronglySorted_append; [done|by repeat constructor|]. intros a b Ha ->%list_elem_of_singleton.
  unfold out_of_order in Ho. destruct spans as [|x l _] using rev_ind; [by apply elem_of_nil in Ha|].
  rewrite last_snoc in Ho. apply Z.ltb_ge in Ho. apply elem_of_app in Ha as [Ha| ->%list_elem_of_singleton]; [|done].
  assert (span_start a <= span_start x); [|lia]. clear -Hs Ha. induction l as [|y l IH]; [by apply elem_of_nil in Ha|].
  apply StronglySorted_inv in Hs as [Hs Hy]. apply elem_of_cons in Ha as [->|Ha]; [|by apply IH].
  rewrite Forall_forall in Hy. apply Hy, elem_of_app. right. by left.
Qed.

Lemma scan_node_ok checker f seen sc node : spans_ok f seen sc ->
  (is_reference node = true -> start_of f node ∉ seen) ->
  spans_ok f (if is_reference node then seen ++ [start_of f node] else seen) (scan_node checker f sc node).
Proof.
  intros [H1 H2] Hn. unfold scan_node. fold (is_reference node). destruct (is_reference node); [|done].
  specialize (Hn eq_refl).
  assert (forall z, z ∈ seen -> z ∈ seen ++ [start_of f node]) as Hw by (intros; apply elem_of_app; by left).
  destruct (GetSymbolAtLocation checker node) as [symbol|].
  2: { split; [|done]. intros i spans Hi. destruct (H1 i spans Hi). split; auto. }
  destruct (idFor (sc_ids sc) symbol) as [ids referenceID]. destruct (idFor ids _) as [ids' i]. fold (start_of f node).
  set (old := default [] (sc_references sc !! i)).
  assert (NoDup (span_start <$> old) /\ forall z, z ∈ span_start <$> old -> z ∈ seen) as [Ho1 Ho2].
  { unfold old. destruct (sc_references sc !! i) as [spans|] eqn:E; [by apply (H1 i)|]. simpl. split; [constructor|].
    intros z Hz. by apply elem_of_nil in Hz. }
  split; simpl.
  - intros j spans Hj. apply lookup_insert_Some in Hj as [[<- <-]|[_ Hj]].
    + rewrite fmap_app. simpl. split.
      * apply NoDup_app. split; [done|]. split; [|apply NoDup_singleton]. intros z Hz ->%list_elem_of_singleton. auto.
      * intros z [Hz| ->%list_elem_of_singleton]%elem_of_app; [auto|]. apply elem_of_app. right. left.
    + destruct (H1 j spans Hj). split; auto.
  - intros j spans Hj Hu. apply lookup_insert_Some in Hj as [[<- <-]|[Hne Hj]].
    + fold old in Hu. destruct (out_of_order old (start_of f node)) eqn:E; [set_solver|].
      apply snoc_spans; [|done]. unfold old. destruct (sc_references sc !! i) as [spans|] eqn:Es; [by eapply H2|constructor].
    + apply (H2 j); [done|]. fold old in Hu. destruct (out_of_order _ _); set_solver.
Qed.

Lemma scan_nodes_ok checker f seen sc nodes : spans_ok f seen sc ->
  NoDup (seen ++ (start_of f <$> filter (fun node => is_reference node = true) nodes)) ->
  exists seen', spans_ok f seen' (foldl (scan_node checker f) sc nodes).
Proof.
  revert seen sc. induction nodes as [|node nodes IH]; intros seen sc Hok Hnd; [by exists seen|]. simpl.
  eapply IH; [apply scan_node_ok; [done|]|].
  - intros Hr. rewrite filter_cons, decide_True in Hnd by done. apply NoDup_app in Hnd as (_ & H & _). intros Hs.
    apply (H _ Hs). left.
  - rewrite filter_cons in Hnd. case_decide as Hd; [|by destruct (is_reference node)]. rewrite Hd. by rewrite <- app_assoc.
Qed.

Lemma strict_spans spans : NoDup (span_start <$> spans) ->
  StronglySorted (fun a b => span_start a <= span_start b) spans ->
  StronglySorted (fun a b => span_start a < span_start b) spans.
Proof.
  intros Hnd Hs. induction Hs as [|a l Hl IH Ha]; [constructor|]. rewrite fmap_cons in Hnd. apply NoDup_cons in Hnd as [Hx Hnd].
  constructor; [by apply IH|]. apply Forall_forall. intros b Hb. rewrite Forall_forall in Ha. specialize (Ha b Hb).
  assert (span_start a <> span_start b); [|lia]. intros E. apply Hx. rewrite E. by apply list_elem_of_fmap_2.
Qed.

Lemma sort_spans_sorted spans :
  StronglySorted (fun a b => span_start a <= span_start b) (sort_slice (fun a b => span_start a <? span_start b) spans).
Proof.
  set (less := fun a b : fileReferenceSpan => span_start a <? span_start b).
  assert (forall a b, not_after less a b <-> span_start a <= span_start b) as Hle.
  { intros a b. unfold not_after, less. apply Z.ltb_ge. }
  assert (StronglySorted (not_after less) (sort_slice less spans)) as Hs.
  { apply sort_slice_sorted.
    - intros a b c. rewrite !Hle. lia.
    - intros a b. unfold less. rewrite Z.ltb_lt, Z.ltb_ge. lia. }
  induction Hs as [|a l Hl IH Ha]; constructor; [done|]. eapply Forall_impl; [exact Ha|]. intros b. by rewrite Hle.
Qed.

Lemma scan_in_order checker f ids : identifiers_apart f -> entry_ok (snd (scan checker f ids)).
Proof.
  intros Hap. unfold scan.
  destruct (scan_nodes_ok checker f [] (mkScan ids ∅ ∅ ∅ true) (file_nodes f)) as [seen [H1 H2]].
  - split; intros i spans; simpl; by rewrite lookup_empty.
  - apply Hap.
  - set (sc := foldl _ _ _) in *. split; simpl.
    + rewrite sort_slice_perm, <- list_fmap_compose. apply range_map_NoDup.
    + rewrite sort_slice_perm. apply Forall_fmap, Forall_forall. intros [i spans] Hi%range_map_elem. simpl.
      destruct (H1 i spans Hi) as [Hnd _]. case_bool_decide as Hu; apply strict_spans; [| |done|by eapply H2].
      * by rewrite sort_slice_perm.
      * apply sort_spans_sorted.
Qed.

Definition scanned (checker : Checker) (f : SourceFile) (e : fileReferences) : Prop := exists ids, e = snd (scan checker f ids).

Lemma refresh_paths program checker table ps ids r touched m G :
  StronglySorted slt table -> program_apart program -> NoDup ps -> (forall p, p ∈ ps -> p ∈ table /\ G !! p = None) ->
  merged r = Some m -> paths r = table -> deltaExact r = true -> stands_for table G m (files r) ->
  (forall i, i ∉ touched -> row m i = expected G table i) -> touched ⊆ changedSymbols r ->
  let '(_, r', touched') := foldl (refresh_path program checker) (ids, r, touched) ps in
  exists m' G', merged r' = Some m' /\ paths r' = table /\ deltaExact r' = true /\ stands_for table G' m' (files r') /\
    (forall i, i ∉ touched' -> row m' i = expected G' table i) /\ touched' ⊆ changedSymbols r' /\
    changedSymbols r ⊆ changedSymbols r' /\
    (forall i, i ∉ changedSymbols r' -> expected G' table i = expected G table i) /\
    (forall p, p ∉ ps -> G' !! p = G !! p) /\
    (forall p, p ∈ ps -> match indexed_file program p with
                        | Some f => exists e, G' !! p = Some e /\ scanned checker f e
                        | None => G' !! p = None end).
Proof.
  intros Hs Hscan. revert ids r touched m G. induction ps as [|p ps IH]; intros ids r touched m G Hnd Hps Hm Ht Hd Hsf Hrow Htc.
  { simpl. exists m, G. split_and!; [done..|set_solver]. }
  apply NoDup_cons in Hnd as [Hp Hnd]. destruct (Hps p ltac:(left)) as [Hpt HGp].
  assert (forall q, q ∈ ps -> q ∈ table /\ G !! q = None) as Hps' by (intros; apply Hps; by right).
  cbn [foldl]. unfold refresh_path at 2. unfold indexed_file.
  assert (match indexed_file program p with Some _ => False | None => True end ->
    let '(_, r', touched') := foldl (refresh_path program checker) (ids, r, touched) ps in
    exists m' G', merged r' = Some m' /\ paths r' = table /\ deltaExact r' = true /\ stands_for table G' m' (files r') /\
      (forall i, i ∉ touched' -> row m' i = expected G' table i) /\ touched' ⊆ changedSymbols r' /\
      changedSymbols r ⊆ changedSymbols r' /\
      (forall i, i ∉ changedSymbols r' -> expected G' table i = expected G table i) /\
      (forall q, q ∉ p :: ps -> G' !! q = G !! q) /\
      (forall q, q ∈ p :: ps -> match indexed_file program q with
                        | Some f => exists e, G' !! q = Some e /\ scanned checker f e
                        | None => G' !! q = None end)) as Hskip.
  { intros Hnone. specialize (IH ids r touched m G Hnd Hps' Hm Ht Hd Hsf Hrow Htc).
    destruct (foldl _ _ ps) as [[ids' r'] touched']. destruct IH as (m' & G' & H). exists m', G'.
    destruct H as (A1 & A2 & A3 & A4 & A5 & A6 & A7 & A8 & A9 & A10). split_and!; [done..| |].
    - intros q Hq. apply A9. intros Hq'. apply Hq. by right.
    - intros q [->|Hq]%elem_of_cons; [|by apply A10]. destruct (indexed_file program p); [done|]. by rewrite A9. }
  unfold indexed_file in *. destruct (GetSourceFile program p) as [f|] eqn:Ef; [|by apply Hskip].
  destruct (IsDeclarationFile f) eqn:Edf; [by apply Hskip|]. clear Hskip.
  pose proof (scan_in_order checker f ids (Hscan f (or_intror (ex_intro _ p Ef)))) as Hent. destruct (scan checker f ids) as [ids1 e] eqn:Esc. simpl in Hent.
  apply list_elem_of_lookup in Hpt as [j Hj]. rewrite Ht, (SearchStrings_found table j p Hs Hj).
  rewrite (bool_decide_eq_true_2 _ Hj), Hd, Hm. simpl.
  destruct (join_file table G m (files r) p e j Hs Hsf HGp Hj Hent) as [B1 B2].
  specialize (IH ids1 (mkIndex (Some (foldl (merge_group (Z.of_nat j)) m (refs e))) (ix_spaces r) (paths r) (used r)
    (refreshPaths r) (group_ids e ∪ changedSymbols r) true (<[p := emptied e]> (files r))) (group_ids e ∪ touched)
    (foldl (merge_group (Z.of_nat j)) m (refs e)) (<[p := e]> G)).
  rewrite Ht in IH. simpl in IH. destruct (foldl _ _ ps) as [[ids' r'] touched'].
  destruct IH as (m' & G' & A1 & A2 & A3 & A4 & A5 & A6 & A7 & A8 & A9 & A10); [done| |done|done|done|done| | |].
  - intros q Hq. rewrite lookup_insert_ne; [by apply Hps'|]. by intros ->.
  - intros i Hi. destruct (B2 i) as [-> ->]; [set_solver|]. apply Hrow. set_solver.
  - set_solver.
  - exists m', G'. split_and!; [done..|set_solver| | |].
    + intros i Hi. rewrite A8 by done. apply B2. set_solver.
    + intros q Hq. rewrite A9, lookup_insert_ne; [done|set_solver..].
    + intros q [->|Hq]%elem_of_cons; [|by apply A10]. rewrite Ef, Edf. rewrite A9, lookup_insert_eq by done.
      exists e. split; [done|]. exists ids. by rewrite Esc.
Qed.

(** ** Sorting what was touched *)

Lemma sort_touched_row m i j :
  row (sort_touched m i) j = if bool_decide (i = j) then sort_slice reference_less (row m j) else row m j.
Proof.
  unfold row, sort_touched. rewrite lookup_alter. case_bool_decide as E.
  - subst. rewrite decide_True by done. by destruct (m !! j).
  - by rewrite decide_False.
Qed.

Lemma sort_all_row l m i : NoDup l ->
  row (foldl sort_touched m l) i = if bool_decide (i ∈ l) then sort_slice reference_less (row m i) else row m i.
Proof.
  revert m. induction l as [|j l IH]; intros m Hnd; [by rewrite bool_decide_eq_false_2 by apply not_elem_of_nil|].
  apply NoDup_cons in Hnd as [Hj Hnd]. cbn [foldl]. rewrite IH by done. rewrite sort_touched_row.
  destruct (decide (j = i)) as [->|Hne].
  - rewrite (bool_decide_eq_false_2 (i ∈ l)) by done. rewrite !bool_decide_eq_true_2; [done|left|done].
  - rewrite (bool_decide_eq_false_2 (j = i)) by done.
    rewrite (bool_decide_ext (i ∈ j :: l) (i ∈ l)); [done|]. rewrite elem_of_cons. naive_solver.
Qed.

(** Sorting puts the references of the touched symbols where a fresh merge
    would have them. *)
Lemma sorted_rows table F m fs touched : stands_for table F m fs ->
  (forall i, i ∉ touched -> row m i = expected F table i) ->
  let m' := foldl sort_touched m (range_set touched) in
  stands_for table F m' fs /\ forall i, row m' i = expected F table i.
Proof.
  intros [H1 H2 H3 H4] Hrow m'. assert (forall i, row m' i = expected F table i) as Heq.
  { intros i. unfold m'. rewrite sort_all_row by apply range_set_NoDup.
    case_bool_decide as Hi; rewrite range_set_elem in Hi; [|by apply Hrow].
    apply (StronglySorted_unique reference_le); [apply sort_references_sorted|by apply expected_from_sorted|].
    rewrite sort_slice_perm. apply H1. }
  split; [|done]. split; [|done..]. intros i. by rewrite Heq.
Qed.

(** The spans of a symbol in the entry of a path. *)
Definition path_locations (F : gmap string fileReferences) (i : SymbolID) (path : string) : list Location :=
  from_option refs [] (F !! path) ≫= fun g =>
    if String.eqb (group_id g) i then (fun span => mkLocation path (span_start span) (span_end span)) <$> spans g else [].

Definition file_locations (table : list string) (F : gmap string fileReferences) (i : SymbolID) : list Location :=
  table ≫= path_locations F i.

Definition indexed_files (program : Program) : list SourceFile :=
  filter (fun f => IsDeclarationFile f = false) (SourceFiles program).

(** The locations the rows of a table stand for. *)
Lemma expected_locations table F i :
  (fun reference => mkLocation (default "" (table !! Z.to_nat (ir_path reference))) (ir_start reference) (ir_end reference)) <$>
    expected F table i = file_locations table F i.
Proof.
  unfold expected, file_locations.
  assert (forall n t, (forall k p, t !! k = Some p -> table !! (n + k)%nat = Some p) ->
    (fun reference => mkLocation (default "" (table !! Z.to_nat (ir_path reference))) (ir_start reference) (ir_end reference)) <$>
      expected_from n F t i = t ≫= path_locations F i) as H; [|by apply H].
  intros n t. revert n. induction t as [|p t IH]; intros n Ht; [done|]. cbn [expected_from mbind list_bind]. rewrite fmap_app. f_equal.
  - unfold rows_of, path_locations. destruct (F !! p) as [e|]; [|done]. simpl. unfold rows. specialize (Ht 0%nat p eq_refl). rewrite Nat.add_0_r in Ht.
    induction (refs e) as [|g gs IHg]; [done|]. cbn [mbind list_bind]. rewrite fmap_app, IHg. f_equal.
    destruct (String.eqb _ _); [|done]. unfold indexed. rewrite <- list_fmap_compose. apply list_fmap_ext. intros k span _. simpl.
    by rewrite Nat2Z.id, Ht.
  - apply IH. intros k q Hk. specialize (Ht (S k) q Hk). by replace (S n + k)%nat with (n + S k)%nat by lia.
Qed.

Lemma represents_locations F r i : represents F r -> locations r i = file_locations (paths r) F i.
Proof.
  intros [(m & Hm & _ & Hr) _ _]. rewrite <- expected_locations. unfold locations. rewrite Hm. cbn [default].
  specialize (Hr i). unfold row in Hr. simpl in *. by rewrite Hr.
Qed.

Lemma locations_eq F F' r r' i : represents F r -> represents F' r' -> paths r' = paths r ->
  expected F' (paths r') i = expected F (paths r) i -> locations r' i = locations r i.
Proof.
  intros H H' Hp He. rewrite (represents_locations F r i H), (represents_locations F' r' i H').
  rewrite <- !expected_locations. by rewrite He, Hp.
Qed.

Lemma ensure_patches program checker ids r m G : merged r = Some m -> deltaExact r = true -> StronglySorted slt (paths r) ->
  stands_for (paths r) G m (files r) -> (forall i, row m i = expected G (paths r) i) -> program_apart program ->
  (forall p, p ∈ refreshPaths r -> p ∈ paths r /\ G !! p = None) ->
  let '(_, r') := ensure program checker ids r in
  exists G', represents G' r' /\ paths r' = paths r /\ deltaExact r' = true /\ changedSymbols r ⊆ changedSymbols r' /\
    (forall i, i ∉ changedSymbols r' -> expected G' (paths r) i = expected G (paths r) i) /\
    (forall p, p ∉ refreshPaths r -> G' !! p = G !! p) /\
    (forall p, p ∈ refreshPaths r -> match indexed_file program p with
                        | Some f => exists e, G' !! p = Some e /\ scanned checker f e
                        | None => G' !! p = None end).
Proof.
  intros Hm Hd Hs Hsf Hrow Hscan Hps. unfold ensure. rewrite Hm. case_bool_decide as Hempty.
  { exists G. split_and!; [|done..|rewrite Hempty; set_solver]. split; [by exists m|done|done]. }
  pose proof (refresh_paths program checker (paths r) (sort_Strings (range_set (refreshPaths r))) ids r ∅ m G Hs Hscan) as H.
  destruct (foldl _ _ _) as [[ids' r'] touched].
  destruct H as (m' & G' & A1 & A2 & A3 & A4 & A5 & A6 & A7 & A8 & A9 & A10); [| |done..|set_solver|].
  { unfold sort_Strings. rewrite sort_slice_perm. apply range_set_NoDup. }
  { intros p Hp. rewrite sort_Strings_elem, range_set_elem in Hp. by apply Hps. }
  setoid_rewrite sort_Strings_elem in A9. setoid_rewrite range_set_elem in A9.
  setoid_rewrite sort_Strings_elem in A10. setoid_rewrite range_set_elem in A10.
  destruct (sorted_rows (paths r) G' m' (files r') touched A4 A5) as [B1 B2].
  exists G'. split_and!; [|done..]. rewrite A1. split; simpl; [|by rewrite A2|done].
  exists (foldl sort_touched m' (range_set touched)). rewrite A2. by split_and!.
Qed.

(** C10: Starting from a settled merged index (one that owes no refresh) that represents the
    entries of its files, after an update of at most 64 files to a program in whose files
    identifiers start at distinct bytes, repairing the index in place gives an index of the same
    paths that represents, for the files it had, the old entries of those retained and new scans
    of the dropped ones that are still in the program; a file it did not have stays out, as the
    findings say, so all indexed files of the program are represented when none joined. Every
    symbol is answered from these entries, and one that is not reported as changed keeps its
    references. *)
Theorem update_patches_index F r program checker ids affected retained :
  represents F r -> (length affected <= 64)%nat -> program_apart program ->
  let '(_, r') := ensure program checker ids (invalidate program affected retained r) in
  exists F', represents F' r' /\ paths r' = paths r /\
    (forall p, match F !! p with
               | None => F' !! p = None
               | Some e => if keeps retained p e then F' !! p = Some e
                           else match indexed_file program p with
                                | Some f => exists e', F' !! p = Some e' /\ scanned checker f e'
                                | None => F' !! p = None
                                end
               end) /\
    ((forall f, f ∈ indexed_files program -> is_Some (F !! file_path f) /\ indexed_file program (file_path f) = Some f) ->
     forall f, f ∈ indexed_files program -> is_Some (F' !! file_path f)) /\
    (forall i, locations r' i = file_locations (paths r') F' i) /\
    deltaExact r' = true /\ forall i, i ∉ changedSymbols r' -> locations r' i = locations r i.
Proof.
  intros Hrep Hlen Hscan. pose proof Hrep as [(m & Hm & Hsf & Hrow) Hs Hset].
  unfold invalidate. rewrite Hm, Hset. rewrite (bool_decide_eq_true_2 (∅ = ∅)) by done. rewrite andb_false_r. simpl.
  rewrite (proj2 (Nat.leb_le _ _) Hlen). simpl.
  assert (forall p e, F !! p = Some e -> p ∈ (range_map (files r)).*1) as Hall.
  { intros p e Hp. apply list_elem_of_fmap. exists (p, emptied e). split; [done|]. apply range_map_elem.
    by rewrite (sf_files _ _ _ _ Hsf), lookup_fmap, Hp. }
  destruct (invalidate_entries program (paths r) retained (range_map (files r)) (mkInvalidation (Some m) ∅ ∅ (files r)) m F)
    as (m1 & A1 & A2 & A3 & A4 & _ & A6); [done|apply range_map_NoDup| |done..|].
  { intros p x Hx%range_map_elem. rewrite (sf_files _ _ _ _ Hsf), lookup_fmap in Hx. destruct (F !! p) as [e|]; [|done].
    exists e. simpl in Hx. split; congruence. }
  set (v := foldl _ _ _) in *. set (G := without retained (range_map (files r)).*1 F) in *.
  set (r1 := mkIndex _ _ _ _ _ _ _ _).
  assert (forall p, G !! p = match F !! p with Some e => if keeps retained p e then Some e else None | None => None end) as HG.
  { intros p. unfold G, without. rewrite map_lookup_filter. destruct (F !! p) as [e|] eqn:E; [|done]. simpl.
    destruct (keeps retained p e) eqn:Ek; [by rewrite option_guard_True by done|].
    rewrite option_guard_False; [done|]. intros H. specialize (H (Hall _ _ E)). simpl in H. congruence. }
  pose proof (ensure_patches program checker ids r1 m1 G A1 ltac:(done) Hs A2 A3 Hscan) as H.
  destruct (ensure program checker ids r1) as [ids' r'].
  assert (forall p, p ∈ inv_refresh v <-> (exists e, F !! p = Some e /\ keeps retained p e = false) /\ is_Some (indexed_file program p)) as Href.
  { intros p. rewrite A4. simpl. split; [intros [?%elem_of_empty|(_ & ?)]; [done|done]|]. intros [(e & He & Hk) Hf]. right. eauto 10. }
  destruct H as (F' & B1 & B2 & B3 & B4 & B5 & B6 & B7).
  { intros p [(e & He & Hk) _]%Href. split; [apply (sf_paths _ _ _ _ Hsf); by eexists|]. by rewrite HG, He, Hk. }
  assert (forall p, match F !! p with
               | None => F' !! p = None
               | Some e => if keeps retained p e then F' !! p = Some e
                           else match indexed_file program p with
                                | Some f => exists e', F' !! p = Some e' /\ scanned checker f e'
                                | None => F' !! p = None
                                end
               end) as Hfiles.
  { intros p. specialize (B6 p). specialize (B7 p). simpl in B6, B7. setoid_rewrite Href in B6. setoid_rewrite Href in B7.
    rewrite HG in B6. destruct (F !! p) as [e|] eqn:E; [destruct (keeps retained p e) eqn:Ek|].
    + apply B6. intros [(e' & He' & ?) _]. congruence.
    + destruct (indexed_file program p) as [f|] eqn:Ef; [apply B7; split; [by exists e|by eexists]|].
      apply B6. intros [_ [? ?]]. congruence.
    + apply B6. by intros [(e' & He' & ?) _]. }
  exists F'. split_and!; [done|done|exact Hfiles| |intros i; by apply represents_locations|done|].
  - intros Hin f Hf. destruct (Hin f Hf) as [[e He] Hx]. specialize (Hfiles (file_path f)). rewrite He, Hx in Hfiles.
    destruct (keeps _ _ _); [by eexists|]. destruct Hfiles as (e' & -> & _). by eexists.
  - intros i Hi. eapply locations_eq; [done|done|done|]. rewrite B2. simpl. rewrite B5 by done. apply A6. simpl in B4. set_solver.
Qed.

(** ** A fresh index *)

(** Scanning: every file gets an entry, and the path table its path. *)
Lemma build_files_spec checker fs ids r found :
  NoDup (file_path <$> filter (fun f => IsDeclarationFile f = false) fs) ->
  (forall f, f ∈ fs -> IsDeclarationFile f = false -> files r !! file_path f = None) ->
  let '(_, r', found') := foldl (build_file checker) (ids, r, found) fs in
  found' = found ++ (file_path <$> filter (fun f => IsDeclarationFile f = false) fs) /\
  (forall p, p ∉ file_path <$> filter (fun f => IsDeclarationFile f = false) fs -> files r' !! p = files r !! p) /\
  (forall f, f ∈ fs -> IsDeclarationFile f = false -> exists e, files r' !! file_path f = Some e /\ scanned checker f e).
Proof.
  revert ids r found. induction fs as [|f fs IH]; intros ids r found Hnd Hr.
  { simpl. rewrite app_nil_r. split_and!; [done|done|]. intros f Hf. by apply elem_of_nil in Hf. }
  assert (forall g, g ∈ fs -> IsDeclarationFile g = false -> files r !! file_path g = None) as Hr' by (intros; apply Hr; [by right|done]).
  cbn [foldl]. unfold build_file at 2. rewrite filter_cons in *. destruct (IsDeclarationFile f) eqn:Ed.
  { rewrite decide_False in * by done. specialize (IH ids r found Hnd Hr'). destruct (foldl _ _ fs) as [[ids' r'] found'].
    destruct IH as (H1 & H2 & H3). split_and!; [done|done|]. intros g [->|Hg]%elem_of_cons Hdg; [congruence|by apply H3]. }
  rewrite decide_True, fmap_cons in * by done. apply NoDup_cons in Hnd as [Hf Hnd]. rewrite (Hr f) by (done || left).
  destruct (scan checker f ids) as [ids1 e] eqn:Es.
  specialize (IH ids1 (mkIndex (merged r) (ix_spaces r) (paths r) (used r) (refreshPaths r)
    (if deltaExact r then group_ids e ∪ changedSymbols r else changedSymbols r) (deltaExact r) (<[file_path f := e]> (files r)))
    (found ++ [file_path f]) Hnd). simpl in IH. destruct (foldl _ _ fs) as [[ids' r'] found'].
  destruct IH as (H1 & H2 & H3).
  { intros g Hg Hdg. rewrite lookup_insert_ne; [by apply Hr'|]. intros E. apply Hf. rewrite E. apply list_elem_of_fmap_2.
    by apply list_elem_of_filter. }
  split_and!.
  - by rewrite H1, <- app_assoc.
  - intros p. rewrite not_elem_of_cons. intros [Hp1 Hp2]. rewrite H2, lookup_insert_ne by done. done.
  - intros g [->|Hg]%elem_of_cons Hdg; [|by apply H3]. rewrite H2, lookup_insert_eq by done. exists e. split; [done|].
    exists ids. by rewrite Es.
Qed.

(** Merging: the rows of the table, whose entries are emptied. *)
Lemma merge_paths_spec n table m sp fs F : NoDup table -> (forall p, p ∈ table -> fs !! p = F !! p) ->
  let '(m', _, fs') := foldl merge_path (m, sp, fs) (imap (fun k p => (n + k, p))%nat table) in
  (forall i, row m' i = row m i ++ expected_from n F table i) /\
  (forall p, fs' !! p = if bool_decide (p ∈ table) then emptied <$> F !! p else fs !! p).
Proof.
  revert n m sp fs. induction table as [|p table IH]; intros n m sp fs Hnd HF.
  { split; [intros; by rewrite app_nil_r|]. intros p. by rewrite (bool_decide_eq_false_2 (p ∈ [])) by apply not_elem_of_nil. }
  apply NoDup_cons in Hnd as [Hp Hnd]. rewrite imap_cons, Nat.add_0_r.
  replace (imap ((fun k p => (n + k, p))%nat ∘ S) table) with (imap (fun k p => (S n + k, p))%nat table)
    by (apply imap_ext; intros k x _; simpl; f_equal; lia).
  cbn [foldl]. unfold merge_path at 2. cbn [fst snd]. rewrite (HF p) by left. cbn [expected_from]. unfold rows_of at 1.
  destruct (F !! p) as [e|] eqn:Ep.
  - specialize (IH (S n) (foldl (merge_group (Z.of_nat n)) m (refs e)) (foldl add_space sp (file_spaces e)) (<[p := emptied e]> fs) Hnd).
    destruct (foldl merge_path _ _) as [[m' sp'] fs']. destruct IH as [H1 H2].
    { intros q Hq. rewrite lookup_insert_ne; [apply HF; by right|]. by intros ->. }
    split.
    + intros i. rewrite H1, merge_groups_row. by rewrite <- app_assoc.
    + intros q. rewrite H2. destruct (decide (q = p)) as [->|Hne].
      * rewrite (bool_decide_eq_false_2 (p ∈ table)), (bool_decide_eq_true_2 (p ∈ p :: table)) by (done || left).
        by rewrite lookup_insert_eq, Ep.
      * rewrite lookup_insert_ne by done. rewrite (bool_decide_ext (q ∈ p :: table) (q ∈ table)); [done|].
        rewrite elem_of_cons. naive_solver.
  - specialize (IH (S n) m sp fs Hnd). destruct (foldl merge_path _ _) as [[m' sp'] fs']. destruct IH as [H1 H2].
    { intros q Hq. apply HF. by right. }
    split; [done|]. intros q. rewrite H2. destruct (decide (q = p)) as [->|Hne].
    + rewrite (bool_decide_eq_false_2 (p ∈ table)), (bool_decide_eq_true_2 (p ∈ p :: table)) by (done || left). by rewrite HF, Ep by left.
    + rewrite (bool_decide_ext (q ∈ p :: table) (q ∈ table)); [done|]. rewrite elem_of_cons. naive_solver.
Qed.

(** A fresh index stands for the scans of every file. *)
Lemma fresh_index_represents program checker ids r : merged r = None -> files r = ∅ ->
  NoDup (file_path <$> indexed_files program) -> program_apart program ->
  let '(_, r') := ensure program checker ids r in
  exists F, represents F r' /\
    (forall p, is_Some (F !! p) <-> p ∈ file_path <$> indexed_files program) /\
    (forall f, f ∈ indexed_files program -> exists e, F !! file_path f = Some e /\ scanned checker f e) /\
    (forall p, p ∈ paths r' <-> p ∈ file_path <$> indexed_files program).
Proof.
  intros Hm Hf Hnd Hap. unfold ensure. rewrite Hm. unfold build, indexed_files in *.
  pose proof (build_files_spec checker (SourceFiles program) ids r [] Hnd) as H.
  destruct (foldl (build_file checker) _ _) as [[ids1 r1] found]. destruct H as (H1 & H2 & H3).
  { intros f _ _. by rewrite Hf. }
  simpl in H1. set (table := sort_Strings found).
  assert (StronglySorted slt table) as Hs.
  { pose proof (sort_slice_keys_sorted (fun q : string => q) found) as Hk. unfold keys_sorted in Hk.
    rewrite !list_fmap_id in Hk. apply Hk. by rewrite H1. }
  pose proof (sorted_NoDup _ Hs) as Hndt. set (F := files r1).
  assert (forall p, p ∈ table <-> p ∈ file_path <$> filter (fun f => IsDeclarationFile f = false) (SourceFiles program)) as Htable.
  { intros p. unfold table. rewrite sort_Strings_elem. by rewrite H1. }
  assert (forall p, is_Some (F !! p) <-> p ∈ table) as Hdom.
  { intros p. rewrite Htable. split.
    - intros [e He]. destruct (decide (p ∈ file_path <$> filter (fun f => IsDeclarationFile f = false) (SourceFiles program))); [done|].
      unfold F in He. rewrite H2, Hf in He by done. done.
    - intros (f & -> & Hin)%list_elem_of_fmap. apply list_elem_of_filter in Hin as [Hd Hin].
      destruct (H3 f Hin Hd) as (e & He & _). by eexists. }
  assert (forall p e, F !! p = Some e -> entry_ok e) as Hent.
  { intros p e He. assert (p ∈ table) as Hp by (apply Hdom; by eexists). apply Htable in Hp.
    apply list_elem_of_fmap in Hp as (f & -> & Hin). apply list_elem_of_filter in Hin as [Hd Hin].
    destruct (H3 f Hin Hd) as (e' & He' & ids' & ->). unfold F in He. rewrite He' in He. simplify_eq. apply scan_in_order, Hap. by left. }
  pose proof (merge_paths_spec 0 table ∅ ∅ F F Hndt ltac:(done)) as H.
  replace (imap (fun k p => (0 + k, p))%nat table) with (imap pair table) in H by (apply imap_ext; done).
  fold F. destruct (foldl merge_path (∅, ∅, F) (imap pair table)) as [[m sp] fs]. destruct H as [K1 K2].
  assert (forall i, row m i = expected F table i) as Hrow by (intros i; rewrite K1; unfold row; by rewrite lookup_empty).
  exists F. split_and!.
  - split; simpl; [|done|done]. exists m. split_and!; [done| |done]. split.
    + intros i. by rewrite Hrow.
    + apply map_eq. intros p. rewrite K2, lookup_fmap. case_bool_decide as Hp; [done|].
      destruct (F !! p) as [e|] eqn:E; [|done]. exfalso. apply Hp, Hdom. by eexists.
    + intros p. apply Hdom.
    + done.
  - intros p. by rewrite Hdom, Htable.
  - intros f Hin. apply list_elem_of_filter in Hin as [Hd Hin]. by apply H3.
  - exact Htable.
Qed.

(** C11: For a program whose indexed files have distinct paths and identifiers that start at
    distinct bytes of their file, an index built from nothing covers exactly the paths of the
    program's non-declaration files, in order, and answers for every symbol exactly the
    references scanned in these files, in order of path and position. *)
Theorem fresh_index_answers program checker ids r : merged r = None -> files r = ∅ ->
  NoDup (file_path <$> indexed_files program) -> program_apart program ->
  let '(_, r') := ensure program checker ids r in
  exists F, StronglySorted slt (paths r') /\
    (forall p, p ∈ paths r' <-> p ∈ file_path <$> indexed_files program) /\
    (forall p, is_Some (F !! p) <-> p ∈ file_path <$> indexed_files program) /\
    (forall f, f ∈ indexed_files program -> exists e, F !! file_path f = Some e /\ scanned checker f e /\ entry_ok e) /\
    forall i, locations r' i = file_locations (paths r') F i.
Proof.
  intros Hm Hf Hnd Hap. pose proof (fresh_index_represents program checker ids r Hm Hf Hnd Hap) as H.
  destruct (ensure program checker ids r) as [ids' r']. destruct H as (F & Hrep & H1 & H2 & H3).
  pose proof Hrep as [(m & _ & Hsf & _) Hs _]. exists F. split_and!; [done|done|done| |intros i; by apply represents_locations].
  intros f Hin. destruct (H2 f Hin) as (e & He & Hsc). exists e. split_and!; [done..|]. by apply (sf_entries _ _ _ _ Hsf _ _ He).
Qed.
End Update.
