(* ===== verification/SampleReferences.v ===== *)
(** * A sample compiler, with the reference index and the identities on it

    Witnesses for the theorems on identities, exports and references, and the
    runs in which the index loses references. *)

From S2P Require Import Prelude GoStd GoText GoBytes Model Compiler Identity Exports References ReferencesTheorems.

Record ssymbol := mkSym { ss_path : string; ss_start : Z; ss_end : Z; ss_name : string; ss_target : option (string * Z * Z * string) }.

Record snode := mkNode { sn_path : string; sn_start : Z; sn_end : Z; sn_reference : bool; sn_symbol : option ssymbol }.

Record sfile := mkFile {
  sf_path : string;
  sf_text : string;
  sf_module : bool;
  sf_imports : list string;
  sf_nodes : list snode;
  sf_exports : list ssymbol;
}.

#[export] Instance ssymbol_eq : EqDecision ssymbol.
Proof. solve_decision. Defined.
#[export] Instance ssymbol_countable : Countable ssymbol.
Proof.
  apply (inj_countable' (fun s => (ss_path s, ss_start s, ss_end s, ss_name s, ss_target s))
    (fun '(p, s, e, n, t) => mkSym p s e n t)). by intros [].
Defined.
#[export] Instance snode_eq : EqDecision snode.
Proof. solve_decision. Defined.
#[export] Instance snode_countable : Countable snode.
Proof.
  apply (inj_countable' (fun n => (sn_path n, sn_start n, sn_end n, sn_reference n, sn_symbol n))
    (fun '(p, s, e, r, y) => mkNode p s e r y)). by intros [].
Defined.
#[export] Instance sfile_eq : EqDecision sfile.
Proof. solve_decision. Defined.
#[export] Instance sfile_countable : Countable sfile.
Proof.
  apply (inj_countable' (fun f => (sf_path f, sf_text f, sf_module f, sf_imports f, sf_nodes f, sf_exports f))
    (fun '(p, t, m, i, n, e) => mkFile p t m i n e)). by intros [].
Defined.

Definition file_at (program : list sfile) (path : string) : option sfile :=
  find (fun f => String.eqb (sf_path f) path) program.

Definition ss_alias (s : ssymbol) : option ssymbol :=
  (fun '(p, a, b, n) => mkSym p a b n None) <$> ss_target s.

(** A symbol without a path has no declaration. *)
Definition ss_node (s : ssymbol) : option snode :=
  if String.eqb (ss_path s) "" then None else Some (mkNode (ss_path s) (ss_start s) (ss_end s) false (Some s)).

Definition covers (position : Z) (n : snode) : bool := (sn_start n <=? position) && (position <? sn_end n).

#[export] Instance sample_compiler : Compiler := {|
  NodeID := snode;
  Symbol := ssymbol;
  SourceFile := sfile;
  Specifier := string;
  Program := list sfile;
  Checker := list sfile;
  SourceFiles p := p;
  GetSourceFile := file_at;
  GetResolvedModuleFromModuleSpecifier p f spec := sf_path <$> file_at p spec;
  FileName := sf_path;
  Text := sf_text;
  IsDeclarationFile _ := false;
  IsExternalModule := sf_module;
  Imports := sf_imports;
  Statements f := (fun n => Tree n []) <$> sf_nodes f;
  file_Symbol f := Some (mkSym (sf_path f) 0 0 "" None);
  SkipTrivia _ position := position;
  Pos := sn_start;
  End_ := sn_end;
  Ancestors _ := [];
  node_Name _ := None;
  GetSourceFileOfNode n := Some (mkFile (sn_path n) "" true [] [] []);
  GetNodeAtPosition f position := (fun n => Tree n []) <$> find (covers position) (sf_nodes f);
  IsIdentifier _ := true;
  IsDeclarationNameOrImportPropertyName n := negb (sn_reference n);
  IsQualifiedName _ := false;
  IsPartOfTypeNode _ := false;
  IsExternalModuleAugmentation _ := false;
  IsGlobalScopeAugmentation _ := false;
  sym_Name := ss_name;
  IsAlias s := match ss_target s with Some _ => true | None => false end;
  Declarations s := option_list (ss_node s);
  ValueDeclaration s := ss_node s;
  GetSymbolAtLocation _ n := sn_symbol n;
  GetAliasedSymbol _ := ss_alias;
  GetExportsOfModule c s := from_option sf_exports [] (file_at c (ss_path s));
|}.

(** ** Sample files *)

Definition thing : ssymbol := mkSym "/p/b.ts" 16 25 "makeThing" None.
Definition local_thing : ssymbol := mkSym "/p/a.ts" 9 18 "makeThing" (Some ("/p/b.ts", 16, 25, "makeThing")).
Definition other : ssymbol := mkSym "/p/c.ts" 13 18 "other" None.
Definition undeclared : ssymbol := mkSym "" 0 0 "undefined" None.

Definition text : string := "0123456789012345678901234567890123456789012345678901234567890123456789".

Definition file_a : sfile := mkFile "/p/a.ts" text true ["/p/b.ts"] [mkNode "/p/a.ts" 9 18 false (Some local_thing); mkNode "/p/a.ts" 50 59 true (Some local_thing)] [].
Definition file_b : sfile := mkFile "/p/b.ts" text true [] [mkNode "/p/b.ts" 16 25 false (Some thing); mkNode "/p/b.ts" 60 69 true (Some thing)] [thing].
Definition file_c : sfile := mkFile "/p/c.ts" text true [] [mkNode "/p/c.ts" 13 18 false (Some other); mkNode "/p/c.ts" 40 45 true (Some other)] [other].
(** An edit of [c.ts] that refers to its export twice. *)
Definition file_c' : sfile := mkFile "/p/c.ts" text true []
  [mkNode "/p/c.ts" 13 18 false (Some other); mkNode "/p/c.ts" 40 45 true (Some other); mkNode "/p/c.ts" 50 55 true (Some other)] [other].

Definition program1 : list sfile := [file_a; file_b; file_c].
Definition program2 : list sfile := [file_a; file_b; file_c'].

Definition first_ids : identities := mkIdentities 1 0 ∅ ∅ ∅ ∅ ∅.
Definition thing_id : SymbolID := snd (idFor first_ids thing).
Definition other_id : SymbolID := snd (idFor first_ids other).

Definition built : identities * referenceIndex := ensure (C := sample_compiler) program1 program1 first_ids empty_index.

Definition answers_at (ir : identities * referenceIndex) (i : SymbolID) : list (string * Z) :=
  (fun l => (Path l, StartByte l)) <$> locations (snd ir) i.

Definition result_or {A} (a : A) (r : result A) : A := match r with Ok x => x | Err _ => a end.

Example built_answers : (answers_at built thing_id, answers_at built other_id) =
  ([("/p/a.ts", 50); ("/p/b.ts", 60)], [("/p/c.ts", 40)]).
Proof. vm_compute. reflexivity. Qed.

(** An update of one file, and the query that follows it. *)
Definition updated (p : list sfile) (path : string) (r : referenceIndex) : referenceIndex :=
  invalidate (C := sample_compiler) p [path] (fun q => negb (String.eqb q path)) r.
Definition queried (p : list sfile) (ir : identities * referenceIndex) : identities * referenceIndex :=
  ensure (C := sample_compiler) p p (fst ir) (snd ir).

Example update_then_query :
  let ir := queried program2 (fst built, updated program2 "/p/c.ts" (snd built)) in
  (answers_at ir thing_id, answers_at ir other_id, changedSymbols (snd ir)) =
  ([("/p/a.ts", 50); ("/p/b.ts", 60)], [("/p/c.ts", 40); ("/p/c.ts", 50)], {[other_id]}).
Proof. vm_compute. reflexivity. Qed.

(** Two updates without a query between them: the second gives the merged index
    up, and the files that stay have no spans left to merge again. *)
Example two_updates_lose_references :
  let ir := queried program2 (fst built, updated program2 "/p/c.ts" (updated program2 "/p/c.ts" (snd built))) in
  (answers_at ir thing_id, answers_at ir other_id) = ([], [("/p/c.ts", 40); ("/p/c.ts", 50)]).
Proof. vm_compute. reflexivity. Qed.

(** Releasing the analysis forgets the rows nobody asked for, which nothing
    brings back in the same generation. *)
Example release_loses_references :
  let r := release_index (markUsed (snd built) other_id) in
  let ir := queried program1 (fst built, r) in
  (answers_at ir thing_id, answers_at ir other_id) = ([], [("/p/c.ts", 40)]).
Proof. vm_compute. reflexivity. Qed.

(** A release counts identities from the beginning again, within the same
    generation: the counter identity whose references were asked for now names
    another symbol, which is answered the references of the first. *)
Definition undeclared2 : ssymbol := mkSym "" 0 0 "globalThis" None.
Definition file_u : sfile := mkFile "/p/u.ts" text true []
  [mkNode "/p/u.ts" 5 9 true (Some undeclared); mkNode "/p/u.ts" 20 24 true (Some undeclared2)] [].
Example released_counter_answers_for_another :
  let p := [file_u] in
  let '(ids, r, first) := References (C := sample_compiler) p p (fst (idFor first_ids undeclared)) empty_index "symbol:1:1" in
  let '(ids, i) := idFor (release_identities ids) undeclared2 in
  let '(_, _, second) := References (C := sample_compiler) p p ids (release_index r) i in
  (i, StartByte <$> result_or [] first, StartByte <$> result_or [] second) = ("symbol:1:1", [5], [5]).
Proof. vm_compute. reflexivity. Qed.

(** A file that joins the program by an edit of another is never indexed. *)
Definition file_d : sfile := mkFile "/p/d.ts" text true ["/p/b.ts"] [mkNode "/p/d.ts" 30 39 true (Some thing)] [].
Definition file_c2 : sfile := mkFile "/p/c.ts" text true ["/p/d.ts"] [mkNode "/p/c.ts" 13 18 false (Some other)] [other].
Example joining_file_not_indexed :
  let program := [file_a; file_b; file_c2; file_d] in
  let ir := queried program (fst built, updated program "/p/c.ts" (snd built)) in
  answers_at ir thing_id = [("/p/a.ts", 50); ("/p/b.ts", 60)] /\
  answers_at (ensure (C := sample_compiler) program program first_ids empty_index) thing_id =
    [("/p/a.ts", 50); ("/p/b.ts", 60); ("/p/d.ts", 30)].
Proof. vm_compute. done. Qed.

(** ** Witnesses *)

Lemma first_ids_ok : ids_ok first_ids.
Proof. split; simpl; try done; intros; by rewrite lookup_empty in *. Qed.

(** The bytes two references are hashed over are those of different symbols. *)
Lemma identity_bytes_injective_witness :
  let r := mkRef "/p/b.ts" 16 25 "makeThing" in
  let r' := mkRef "/p/b.ts" 16 2 "5makeThing" in
  span_bytes "/p/b.ts" r <> span_bytes "/p/b.ts" r' /\ span_bytes "/p/b.ts" r <> export_bytes r'.
Proof.
  assert (os_path "/p/b.ts") as Hp by (split; [done|unfold nul_free; apply (bool_decide_unpack _); vm_compute; done]).
  destruct (identity_bytes_injective "/p/b.ts" "/p/b.ts" (mkRef "/p/b.ts" 16 25 "makeThing") (mkRef "/p/b.ts" 16 2 "5makeThing")
    Hp Hp Hp Hp) as (H1 & _ & H3).
  split; [|exact H3]. intros H. apply H1 in H as (_ & _ & H & _). discriminate H.
Defined.

Lemma identities_one_to_one_witness :
  let st := foldl ask first_ids [AskId thing; AskId undeclared; AskSymbol (C := sample_compiler) program1 program1 "symbol:1:1"] in
  let '(st1, i) := idFor st undeclared in let '(st2, j) := idFor st1 other in
  i = "symbol:1:1" /\ i <> j /\ symbolFor (C := sample_compiler) program1 program1 st2 i = (st2, Some undeclared).
Proof.
  pose proof (identities_one_to_one first_ids [AskId thing; AskId undeclared; AskSymbol (C := sample_compiler) program1 program1 "symbol:1:1"]
    undeclared other first_ids_ok ltac:(vm_compute; done)) as H. cbv zeta in *.
  set (st := foldl ask _ _) in *. assert (snd (idFor st undeclared) = "symbol:1:1") as Hi by (vm_compute; reflexivity).
  destruct (idFor st undeclared) as [st1 i]. destruct (idFor st1 other) as [st2 j]. destruct H as ([H _] & _ & Hs).
  split; [exact Hi|]. split; [intros E; apply H in E; discriminate E|apply Hs].
Defined.

(** The identity of [other] is found again after a release and an edit. *)
Lemma durable_identity_rehydrates_witness :
  let '(st, i) := idFor first_ids other in
  DurableSymbolID i = true /\ snd (symbolFor (C := sample_compiler) program2 program2 (release_identities st) i) = Some other.
Proof.
  pose proof (durable_identity_rehydrates first_ids other first_ids_ok ltac:(done)) as H.
  assert (DurableSymbolID (snd (idFor first_ids other)) = true) as Hd by (vm_compute; reflexivity).
  assert (match durableRefs (fst (idFor first_ids other)) !! snd (idFor first_ids other) with
          | Some ref => resolve_ref (C := sample_compiler) program2 program2 ref | None => None end = Some other) as Hr
    by (vm_compute; reflexivity).
  destruct (idFor first_ids other) as [st i]. simpl in Hd, Hr. rewrite Hd in H. destruct H as (ref & Href & _ & H).
  split; [exact Hd|]. rewrite Href in Hr. specialize (H program2 program2).
  destruct (symbolFor _ _ _ i) as [st2 o]. destruct H as [-> _]. exact Hr.
Defined.

Definition shape_c : declarationShape :=
  mkShape [1; 2] (default [] (exportedDurableSymbols (C := sample_compiler) program1 file_c)) [].
Definition moved : ssymbol := mkSym "/p/c.ts" 30 35 "other" None.
Definition file_c3 : sfile := mkFile "/p/c.ts" text true [] [mkNode "/p/c.ts" 30 35 false (Some moved)] [moved].
Definition shape_c3 : declarationShape :=
  mkShape [1; 2] (default [] (exportedDurableSymbols (C := sample_compiler) [file_c3] file_c3)) [].

Lemma shape_c3_ok : Forall export_ok (exports shape_c3).
Proof.
  unfold shape_c3. cbn [exports]. destruct (exportedDurableSymbols _ _) as [es|] eqn:E; [|constructor].
  exact (exportedDurableSymbols_ok _ _ _ E).
Qed.

(** An export that moved within its file keeps its identity. *)
Lemma shape_keeps_identities_witness :
  let current := declarationExportIdentities shape_c3 in
  let st' := next_generation first_ids (replace_exports first_ids "/p/c.ts" current) current in
  ids_ok st' /\ snd (idFor st' moved) = exportedID (mkRef "/p/c.ts" 13 18 "other").
Proof.
  assert (match preserveExportIdentities shape_c shape_c3 with Some _ => true | None => false end = true) as Hm by (vm_compute; reflexivity).
  destruct (preserveExportIdentities shape_c shape_c3) as [m|] eqn:E; [|discriminate Hm].
  assert (match exports shape_c !! 0%nat with Some old => exp_id old = exportedID (mkRef "/p/c.ts" 13 18 "other") | None => False end) as Ho
    by (vm_compute; reflexivity).
  assert (match exports shape_c3 !! 0%nat with Some new => exp_symbol new = moved | None => False end) as Hn by (vm_compute; reflexivity).
  destruct (shape_keeps_identities first_ids shape_c shape_c3 "/p/c.ts" m first_ids_ok shape_c3_ok E) as (H1 & _ & H3).
  split; [exact H1|]. specialize (H3 0%nat). destruct (exports shape_c !! 0%nat) as [old|]; [|done].
  destruct (exports shape_c3 !! 0%nat) as [new|]; [|done]. destruct (H3 old new eq_refl eq_refl) as [_ H].
  rewrite <- Hn, H. exact Ho.
Defined.

Lemma apart1 : program_apart (C := sample_compiler) program1.
Proof.
  assert (Forall (identifiers_apart (C := sample_compiler)) program1) as H by (repeat constructor; vm_compute; set_solver).
  rewrite Forall_forall in H. intros f [Hf|[path Hf]]; [by apply H|]. apply find_some in Hf as [Hf _]. by apply H, list_elem_of_In.
Qed.

Lemma apart2 : program_apart (C := sample_compiler) program2.
Proof.
  assert (Forall (identifiers_apart (C := sample_compiler)) program2) as H by (repeat constructor; vm_compute; set_solver).
  rewrite Forall_forall in H. intros f [Hf|[path Hf]]; [by apply H|]. apply find_some in Hf as [Hf _]. by apply H, list_elem_of_In.
Qed.

Lemma distinct1 : NoDup (file_path <$> indexed_files (C := sample_compiler) program1).
Proof. apply (bool_decide_unpack _). vm_compute. done. Qed.

Lemma fresh_index_answers_witness : exists F,
  (forall p, is_Some (F !! p) <-> p ∈ file_path <$> indexed_files (C := sample_compiler) program1) /\
  forall i, locations (snd built) i = file_locations (paths (snd built)) F i.
Proof.
  pose proof (fresh_index_answers (C := sample_compiler) program1 program1 first_ids empty_index eq_refl eq_refl distinct1 apart1) as H.
  unfold built. destruct (ensure _ _ _ _) as [ids r]. destruct H as (F & _ & _ & Hd & _ & H). exists F. exact (conj Hd H).
Defined.

Lemma built_represents : exists F, represents F (snd built).
Proof.
  pose proof (fresh_index_represents (C := sample_compiler) program1 program1 first_ids empty_index eq_refl eq_refl distinct1 apart1) as H.
  unfold built. destruct (ensure _ _ _ _) as [ids r]. destruct H as (F & H & _). exists F. exact H.
Qed.

(** The index after the edit of [c.ts] and a query. *)
Definition after_edit : identities * referenceIndex :=
  ensure (C := sample_compiler) program2 program2 (fst built)
    (invalidate (C := sample_compiler) program2 ["/p/c.ts"] (fun q => negb (String.eqb q "/p/c.ts")) (snd built)).

Lemma thing_unchanged : bool_decide (thing_id ∈ changedSymbols (snd after_edit)) = false.
Proof. vm_compute. reflexivity. Qed.

(** The edit of [c.ts]: the references to [thing], which is not reported as
    changed, stay. *)
Lemma update_patches_index_witness :
  (exists F, represents F (snd after_edit)) /\ locations (snd after_edit) thing_id = locations (snd built) thing_id.
Proof.
  pose proof (bool_decide_eq_false_1 _ thing_unchanged) as Hc. destruct built_represents as [F HF].
  pose proof (update_patches_index (C := sample_compiler) F (snd built) program2 program2 (fst built) ["/p/c.ts"]
    (fun q => negb (String.eqb q "/p/c.ts")) HF ltac:(simpl; lia) apart2) as H.
  unfold after_edit in Hc |- *. destruct (ensure _ _ _ _) as [ids' r']. destruct H as (F' & H1 & _ & _ & _ & _ & _ & H).
  split; [exists F'; exact H1|]. apply H. exact Hc.
Defined.
