(* ===== verification/SemanticTypesTheorems.v ===== *)
(** * What the verdicts on types mean

    What the facts of SemanticTypes promise of a type's values and calls, for
    any checker; the sample checker at the end evaluates them. *)

From S2P Require Import Prelude GoStd GoText Model Domain FactEqual Compiler SemanticTypes SampleReferences.

(** * What the verdicts say *)

Section Verdicts.
Context `{C : !Compiler} `{TC : !TypeChecker} (checker : Checker).

(** The constituents of a type none of which is open. *)
Definition constituents_of (openFlags : list TypeFlag) (value : option CType) (l : list CType) : Prop :=
  exists v, value = Some v /\ flagged v openFlags = false /\ Distributed v = Some <$> l /\ l <> [] /\
    Forall (fun c => flagged c openFlags = false) l.

Lemma classes_spec {A} openFlags (classify : CType -> A) l r :
  classes openFlags classify l = Some r <->
  exists cs, l = Some <$> cs /\ Forall (fun c => flagged c openFlags = false) cs /\ r = classify <$> cs.
Proof.
  unfold classes. revert r. induction l as [|c l IH]; intros r; cbn [mapM].
  { split; [intros [= <-]; by exists []|]. intros ([|] & E & _ & ->); done. }
  split.
  - intros H. apply bind_Some in H as (x & Hx & H). apply bind_Some in H as (r' & Hr & [= <-]).
    destruct c as [c|]; [|done]. destruct (flagged c openFlags) eqn:Ef; [done|]. injection Hx as <-.
    apply IH in Hr as (cs & -> & Hcs & ->). exists (c :: cs). split_and!; [done|by constructor|done].
  - intros ([|c' cs] & E & Hcs & ->); [done|]. injection E as -> ->. apply Forall_cons in Hcs as [Hc Hcs]. rewrite Hc. cbn.
    by rewrite (proj2 (IH (classify <$> cs))) by (by exists cs).
Qed.

Lemma classes_of_spec {A} openFlags (classify : CType -> A) value r :
  classes_of openFlags classify value = Some r <-> exists l, constituents_of openFlags value l /\ r = classify <$> l.
Proof.
  unfold classes_of, constituents_of. destruct value as [v|]; [|split; [done|]; by intros (l & (v & ? & _) & _)].
  destruct (flagged v openFlags) eqn:Ef; [split; [done|]; intros (l & (v' & [= <-] & ? & _) & _); congruence|].
  destruct (Distributed v) as [|c l0] eqn:Ed.
  { split; [done|]. intros (l & (v' & [= <-] & _ & E & Hl & _) & _). rewrite Ed in E. by destruct l. }
  rewrite classes_spec. split.
  - intros (cs & E & Hcs & ->). exists cs. split; [|done]. exists v. rewrite Ed. split_and!; [done|done|done| |done]. by intros ->.
  - intros (l & (v' & [= <-] & _ & E & Hl & Hcs) & ->). exists l. by rewrite <- Ed.
Qed.

Lemma classes_of_none {A} openFlags (classify : CType -> A) value :
  classes_of openFlags classify value = None <-> ~ exists l, constituents_of openFlags value l.
Proof.
  split.
  - intros E [l Hl]. assert (classes_of openFlags classify value = Some (classify <$> l)); [|congruence]. apply classes_of_spec. by exists l.
  - intros Hno. destruct (classes_of openFlags classify value) as [r|] eqn:E; [|done]. exfalso. apply classes_of_spec in E as (l & Hl & _). apply Hno. by exists l.
Qed.

(** A call is answered by a signature, or allowed without one. *)
Definition has_call (c : CType) : bool := has_signatures checker c SignatureKindCall.
Definition accepts_call (c : CType) : bool := has_call c || callableWithoutSignatures checker c.

Lemma call_class_spec (l : list CType) k : k ∈ (call_class_of checker <$> l) <->
  exists c, c ∈ l /\ match k with Callable_ => has_call c = true | UntypedCallable_ => has_call c = false /\ accepts_call c = true | NonCallable_ => accepts_call c = false end.
Proof.
  rewrite list_elem_of_fmap. split.
  - intros (c & -> & Hc). exists c. split; [done|]. unfold call_class_of, accepts_call, has_call.
    destruct (has_signatures checker c SignatureKindCall); [done|]. by destruct (callableWithoutSignatures checker c).
  - intros (c & Hc & H). exists c. split; [|done]. unfold call_class_of, accepts_call, has_call in *.
    destruct (has_signatures checker c SignatureKindCall), (callableWithoutSignatures checker c), k; naive_solver.
Qed.
End Verdicts.

(** C24: The callability of a type is unknown exactly when the type or a constituent is open or
    missing, and is otherwise the one verdict that describes how its constituents accept a call:
    all by signature, all in some sense but not all by signature, none, or some and not others.
    *)
Theorem callability_decides `{C : !Compiler} `{TC : !TypeChecker} (checker : Checker) (value : option CType) :
  (callabilityOfType checker value = CallabilityUnknown <-> ~ exists l, constituents_of openCallFlags value l) /\
  forall l, constituents_of openCallFlags value l ->
    (callabilityOfType checker value = CallabilityCallable <-> forall c, c ∈ l -> has_call checker c = true) /\
    (callabilityOfType checker value = CallabilityUntypedCallable <->
       (forall c, c ∈ l -> accepts_call checker c = true) /\ exists c, c ∈ l /\ has_call checker c = false) /\
    (callabilityOfType checker value = CallabilityNonCallable <-> forall c, c ∈ l -> accepts_call checker c = false) /\
    (callabilityOfType checker value = CallabilityMixed <->
       (exists c, c ∈ l /\ accepts_call checker c = true) /\ exists c, c ∈ l /\ accepts_call checker c = false).
Proof.
  unfold callabilityOfType. split.
  { rewrite <- (classes_of_none openCallFlags (call_class_of checker)). destruct (classes_of _ _ _) as [r|]; [|done].
    split; [|done]. by repeat case_bool_decide. }
  intros l Hl. rewrite (proj2 (classes_of_spec openCallFlags (call_class_of checker) value (call_class_of checker <$> l))) by (by exists l).
  destruct Hl as (_ & _ & _ & _ & Hne & _). destruct l as [|c0 l0] eqn:El; [done|]. rewrite <- El. assert (c0 ∈ l) as Hc0 by (subst; left). clear El Hne.
  assert (forall c, has_call checker c = true -> accepts_call checker c = true) as Hha by (unfold accepts_call; by intros c ->).
  pose proof (call_class_spec checker l Callable_) as H1. pose proof (call_class_spec checker l UntypedCallable_) as H2.
  pose proof (call_class_spec checker l NonCallable_) as H3. cbn beta iota in H1, H2, H3.
  set (r := if _ && _ then CallabilityMixed else _).
  assert (r = CallabilityCallable /\ (forall c, c ∈ l -> has_call checker c = true) \/
    r = CallabilityUntypedCallable /\ (forall c, c ∈ l -> accepts_call checker c = true) /\ (exists c, c ∈ l /\ has_call checker c = false) \/
    r = CallabilityNonCallable /\ (forall c, c ∈ l -> accepts_call checker c = false) \/
    r = CallabilityMixed /\ (exists c, c ∈ l /\ accepts_call checker c = true) /\ (exists c, c ∈ l /\ accepts_call checker c = false)) as Hr.
  { subst r. destruct (decide (NonCallable_ ∈ call_class_of checker <$> l)) as [D3|D3].
    - rewrite (bool_decide_eq_true_2 _ D3). apply H3 in D3. destruct (decide (Callable_ ∈ call_class_of checker <$> l)) as [D1|D1].
      + rewrite (bool_decide_eq_true_2 _ D1). apply H1 in D1 as (c & ? & ?). right. right. right. split_and!; [done|by exists c; auto|done].
      + rewrite (bool_decide_eq_false_2 _ D1). destruct (decide (UntypedCallable_ ∈ call_class_of checker <$> l)) as [D2|D2].
        * rewrite (bool_decide_eq_true_2 _ D2). apply H2 in D2 as (c & ? & _ & ?). right. right. right. split_and!; [done|by exists c|done].
        * rewrite (bool_decide_eq_false_2 _ D2). right. right. left. split; [done|]. intros c Hc. apply not_true_iff_false. intros Ha.
          destruct (has_call checker c) eqn:Eh; [apply D1, H1; by exists c|apply D2, H2; by exists c].
    - rewrite (bool_decide_eq_false_2 _ D3). assert (forall c, c ∈ l -> accepts_call checker c = true) as Ha.
      { intros c Hc. apply not_false_iff_true. intros Hf. apply D3, H3. by exists c. }
      destruct (decide (UntypedCallable_ ∈ call_class_of checker <$> l)) as [D2|D2].
      + rewrite (bool_decide_eq_true_2 _ D2). apply H2 in D2 as (c & ? & ? & _). right. left. split_and!; [done|done|by exists c].
      + rewrite (bool_decide_eq_false_2 _ D2). assert (forall c, c ∈ l -> has_call checker c = true) as Hh.
        { intros c Hc. apply not_false_iff_true. intros Hf. apply D2, H2. exists c. auto. }
        rewrite bool_decide_eq_true_2 by (apply H1; exists c0; auto). by left. }
  clearbody r. clear H1 H2 H3.
  assert (forall c, has_call checker c = true -> accepts_call checker c = false -> False) as Hx by (intros c Hh; by rewrite Hha).
  assert (forall c, accepts_call checker c = true -> accepts_call checker c = false -> False) as Hy by (by intros c ->).
  assert (forall c, has_call checker c = true -> has_call checker c = false -> False) as Hz by (by intros c ->).
  destruct Hr as [(-> & H)|[(-> & H & ? & ? & ?)|[(-> & H)|(-> & (? & ? & ?) & ? & ? & ?)]]]; split_and!; (split; [intros E; first [discriminate E|naive_solver]|intros ?; first [reflexivity|exfalso; naive_solver]]).
Qed.

(** * Values *)

(** The kinds of a value; a number is finite or not. *)
Inductive js_kind := JString | JNumber (finite : bool) | JBoolean | JBigInt | JSymbol | JNull | JUndefined | JObject.

#[global] Instance js_kind_eq : EqDecision js_kind.
Proof. solve_decision. Defined.

(** A domain that is not known, or reports the kind. *)
Definition admits (d : PrimitiveValueDomain) (k : js_kind) : bool :=
  IsUnknown d ||
  match k with
  | JString => MayBeString d
  | JNumber finite => MayBeNumber d && (finite || negb (NumbersAreFinite d))
  | JBoolean => MayBeBoolean d
  | JBigInt => MayBeBigInt d
  | JSymbol => MayBeSymbol d
  | JNull => MayBeNull d
  | JUndefined => MayBeUndefined d
  | JObject => MayBeObject d
  end.

(** A runtime domain that reports [undefined], or a value that is there. *)
Definition admits_presence (d : RuntimeValueDomain) (k : js_kind) : bool :=
  Unknown d || match k with JUndefined => Model.MayBeUndefined d | _ => MayBeCallable d || MayBeOther d end.

Lemma admits_union d o k : domain_ok d -> domain_ok o -> admits (Union d o) k = true <-> admits d k = true \/ admits o k = true.
Proof.
  intros Hd Ho. destruct (Union_semilattice d o d Hd Ho Hd) as (_ & _ & _ & _ & _ & Hm & Hu & Hk). unfold admits. rewrite Hu.
  destruct (IsUnknown d) eqn:E1; [cbn; tauto|]. destruct (IsUnknown o) eqn:E2; [cbn; tauto|]. cbn [orb] in *. destruct (Hk eq_refl) as [_ Hf].
  destruct k; rewrite ?Hm by (unfold reports; tauto); rewrite ?orb_true_iff; try tauto.
  rewrite Hf. destruct finite; [rewrite !orb_true_l, !andb_true_r, orb_true_iff; tauto|].
  destruct (MayBeNumber d) eqn:M1, (MayBeNumber o) eqn:M2, (NumbersAreFinite d) eqn:F1, (NumbersAreFinite o) eqn:F2; cbn; split; try tauto; try done;
    unfold NumbersAreFinite in *; rewrite ?M1, ?M2 in *; try done; intros [|]; done.
Qed.

(** A domain that admits the kind, or leaves it to the objects: a structural
    type has values that are no objects. *)
Definition covered (d : PrimitiveValueDomain) (k : js_kind) : bool := admits d k || MayBeObject d.

Lemma covered_union d o k : domain_ok d -> domain_ok o -> covered d k = true \/ covered o k = true -> covered (Union d o) k = true.
Proof.
  intros Hd Ho. unfold covered. destruct (Union_semilattice d o d Hd Ho Hd) as (_ & _ & _ & _ & _ & Hm & _). rewrite !orb_true_iff.
  rewrite admits_union, (Hm MayBeObject), orb_true_iff by (done || unfold reports; tauto). tauto.
Qed.

Lemma foldl_ext_in {A B} (f g : A -> B -> A) l a : (forall a b, b ∈ l -> f a b = g a b) -> foldl f a l = foldl g a l.
Proof.
  revert a. induction l as [|b l IH]; intros a H; [done|]. cbn. rewrite (H a b) by left. apply IH. intros a' b' Hb. apply H. by right.
Qed.

Section Values.
Context `{C : !Compiler} `{TC : !TypeChecker} (checker : Checker).

(** A type that the checker's assignability says something of: [any] and the
    error type are assignable to everything. *)
Definition closed_type (t : CType) : Prop := flagged t [TypeFlagsAny; TypeFlagsUnknown; TypeFlagsNever; TypeFlagsIncludesError] = false.

(** The values of every type that is closed and assignable to a primitive are
    of one kind. *)
Definition assignable_kind (inhabits : CType -> js_kind -> Prop) (p : PrimitiveType) (of_kind : js_kind -> Prop) : Prop :=
  forall t k, closed_type t -> assignable_to checker t p = true -> inhabits t k -> of_kind k.

Definition is_number (k : js_kind) : Prop := exists finite, k = JNumber finite.

(** The values of types, as the checker documents its flags, constraints and
    assignability under strict null checks; a void result is trusted to be
    undefined, as the code trusts it. Nothing is said of [any], whose values are
    of every kind, nor of a type that is none of these: the values of a
    structural type need not be objects. *)
Record kinds_ok (inhabits : CType -> js_kind -> Prop) : Prop := {
  ki_never : forall t k, Flags t TypeFlagsNever = true -> ~ inhabits t k;
  ki_constraint : forall t c k, Flags t TypeFlagsInstantiable = true -> constraint_of checker t = Some c -> inhabits t k -> inhabits c k;
  ki_union : forall t k, Flags t TypeFlagsUnion = true -> inhabits t k -> exists c, c ∈ Types t /\ forall c', c = Some c' -> inhabits c' k;
  ki_string : forall t k, Flags t TypeFlagsStringLike = true -> inhabits t k -> k = JString;
  ki_number : forall t k, Flags t TypeFlagsNumberLike = true -> inhabits t k -> is_number k;
  ki_finite : forall t finite, Flags t TypeFlagsNumberLike = true -> NumberLiteralIsFinite t = true -> inhabits t (JNumber finite) -> finite = true;
  ki_boolean : forall t k, Flags t TypeFlagsBooleanLike = true -> inhabits t k -> k = JBoolean;
  ki_bigint : forall t k, Flags t TypeFlagsBigIntLike = true -> inhabits t k -> k = JBigInt;
  ki_symbol : forall t k, Flags t TypeFlagsESSymbolLike = true -> inhabits t k -> k = JSymbol;
  ki_null : forall t k, Flags t TypeFlagsNull = true -> inhabits t k -> k = JNull;
  ki_undefined : forall t k, Flags t TypeFlagsUndefined = true \/ Flags t TypeFlagsVoid = true -> inhabits t k -> k = JUndefined;
  ki_to_string : assignable_kind inhabits StringType (eq JString);
  ki_to_number : assignable_kind inhabits NumberType is_number;
  ki_to_boolean : assignable_kind inhabits BooleanType (eq JBoolean);
  ki_to_bigint : assignable_kind inhabits BigIntType (eq JBigInt);
  ki_to_symbol : assignable_kind inhabits ESSymbolType (eq JSymbol);
  ki_to_null : assignable_kind inhabits NullType (eq JNull);
  ki_to_undefined : assignable_kind inhabits UndefinedType (eq JUndefined);
}.

(** The types a walk from [universe] stays in. *)
Definition closed_universe (universe : gset CType) : Prop := forall t, t ∈ universe ->
  (forall c, constraint_of checker t = Some c -> c ∈ universe) /\ (forall c, Some c ∈ Types t -> c ∈ universe).

Lemma primitive_leaf_ok t : domain_ok (primitive_leaf checker t).
Proof. unfold primitive_leaf. repeat (destruct (_ : bool); [first [apply new_ok|right; by left]|]). apply new_ok. Qed.

Lemma primitive_leaf_sound inhabits t k : kinds_ok inhabits -> inhabits t k -> flagged t [TypeFlagsAny; TypeFlagsUnknown] = false ->
  Flags t TypeFlagsNever = false -> covered (primitive_leaf checker t) k = true.
Proof.
  intros K Hi Hf Hn. unfold primitive_leaf.
  destruct (Flags t TypeFlagsStringLike) eqn:F1; [by rewrite (ki_string _ K t k F1 Hi)|].
  destruct (Flags t TypeFlagsNumberLike) eqn:F2.
  { destruct (ki_number _ K t k F2 Hi) as [finite ->]. destruct (NumberLiteralIsFinite t) eqn:En; [by rewrite (ki_finite _ K t finite F2 En Hi)|by destruct finite]. }
  destruct (Flags t TypeFlagsBooleanLike) eqn:F3; [by rewrite (ki_boolean _ K t k F3 Hi)|].
  destruct (Flags t TypeFlagsBigIntLike) eqn:F4; [by rewrite (ki_bigint _ K t k F4 Hi)|].
  destruct (Flags t TypeFlagsESSymbolLike) eqn:F5; [by rewrite (ki_symbol _ K t k F5 Hi)|].
  destruct (Flags t TypeFlagsNull) eqn:F6; [by rewrite (ki_null _ K t k F6 Hi)|].
  destruct (flagged t [TypeFlagsUndefined; TypeFlagsVoid]) eqn:F7.
  { unfold flagged in F7. cbn in F7. rewrite orb_false_r in F7. apply orb_true_iff in F7. by rewrite (ki_undefined _ K t k F7 Hi). }
  destruct (Flags t TypeFlagsIncludesError) eqn:F8; [done|].
  assert (closed_type t) as Hc.
  { unfold closed_type, flagged in *. cbn in *. rewrite !orb_false_r in *. apply orb_false_iff in Hf as [-> ->]. by rewrite Hn, F8. }
  destruct (assignable_to checker t StringType) eqn:A1; [by rewrite <- (ki_to_string _ K t k Hc A1 Hi)|].
  destruct (assignable_to checker t NumberType) eqn:A2; [by destruct (ki_to_number _ K t k Hc A2 Hi) as [[|] ->]|].
  destruct (assignable_to checker t BooleanType) eqn:A3; [by rewrite <- (ki_to_boolean _ K t k Hc A3 Hi)|].
  destruct (assignable_to checker t BigIntType) eqn:A4; [by rewrite <- (ki_to_bigint _ K t k Hc A4 Hi)|].
  destruct (assignable_to checker t ESSymbolType) eqn:A5; [by rewrite <- (ki_to_symbol _ K t k Hc A5 Hi)|].
  destruct (assignable_to checker t NullType) eqn:A6; [by rewrite <- (ki_to_null _ K t k Hc A6 Hi)|].
  destruct (assignable_to checker t UndefinedType) eqn:A7; [by rewrite <- (ki_to_undefined _ K t k Hc A7 Hi)|].
  apply orb_true_r.
Qed.

Lemma primitive_ok fuel seen value : domain_ok (primitiveValueDomainOfTypeSeen checker fuel seen value).
Proof.
  revert seen value. induction fuel as [|fuel IH]; intros seen value; [right; by left|]. destruct value as [t|]; [|right; by left].
  cbn [primitiveValueDomainOfTypeSeen]. destruct (flagged _ _); [right; by left|]. destruct (Flags t TypeFlagsNever); [apply new_ok|].
  destruct (bool_decide _); [right; by left|]. cbv zeta.
  assert (forall l d, domain_ok d -> domain_ok (foldl (fun domain constituent => Union domain (primitiveValueDomainOfTypeSeen checker fuel ({[t]} ∪ seen) constituent)) d l)) as Hl.
  { induction l as [|c l IHl]; intros d Hd; [done|]. cbn. apply IHl. by apply union_ok. }
  assert (domain_ok (if Flags t TypeFlagsUnion then
    foldl (fun domain constituent => Union domain (primitiveValueDomainOfTypeSeen checker fuel ({[t]} ∪ seen) constituent)) (mkPrimitiveValueDomain 0) (Types t)
    else primitive_leaf checker t)) as Hrest.
  { destruct (Flags t TypeFlagsUnion); [apply Hl; by left|apply primitive_leaf_ok]. }
  destruct (Flags t TypeFlagsInstantiable); [|done]. destruct (constraint_of checker t); [|right; by left]. destruct (bool_decide _); [done|apply IH].
Qed.

Lemma primitive_sound inhabits fuel seen t k : kinds_ok inhabits -> inhabits t k ->
  covered (primitiveValueDomainOfTypeSeen checker fuel seen (Some t)) k = true.
Proof.
  intros K. revert seen t. induction fuel as [|fuel IH]; intros seen t Hi; [done|]. cbn [primitiveValueDomainOfTypeSeen].
  destruct (flagged t _) eqn:Ef; [done|]. destruct (Flags t TypeFlagsNever) eqn:En; [by destruct (ki_never _ K t k En)|].
  destruct (bool_decide _); [done|]. cbv zeta.
  assert (covered
    (if Flags t TypeFlagsUnion then
       foldl (fun domain constituent => Union domain (primitiveValueDomainOfTypeSeen checker fuel ({[t]} ∪ seen) constituent)) (mkPrimitiveValueDomain 0) (Types t)
     else primitive_leaf checker t) k = true) as Hrest.
  { destruct (Flags t TypeFlagsUnion) eqn:Eu.
    - destruct (ki_union _ K t k Eu Hi) as (c & Hin & Hck).
      assert (covered (primitiveValueDomainOfTypeSeen checker fuel ({[t]} ∪ seen) c) k = true) as Hpart by (destruct c as [c|]; [by apply IH, Hck|by destruct fuel]).
      clear Hck. assert (forall l d, domain_ok d -> covered d k = true \/ c ∈ l ->
        covered (foldl (fun domain constituent => Union domain (primitiveValueDomainOfTypeSeen checker fuel ({[t]} ∪ seen) constituent)) d l) k = true) as Hl.
      { induction l as [|x l IHl]; intros d Hd Hor; [destruct Hor as [?|Hn]; [done|by apply elem_of_nil in Hn]|]. cbn [foldl]. apply IHl; [apply union_ok; [done|apply primitive_ok]|].
        destruct Hor as [?|[->|?]%elem_of_cons]; [left; apply covered_union; auto using primitive_ok..|by right]. }
      apply Hl; [by left|by right].
    - by apply (primitive_leaf_sound inhabits). }
  destruct (Flags t TypeFlagsInstantiable) eqn:Ei; [|done]. destruct (constraint_of checker t) as [c|] eqn:Ec; [|done].
  case_bool_decide; [done|]. apply IH. by apply (ki_constraint _ K t c).
Qed.

(** Fuel above the types that are not on the way makes no difference. *)
Lemma primitive_fuel universe fuel fuel' seen t : closed_universe universe -> t ∈ universe ->
  (size (universe ∖ seen) < fuel)%nat -> (size (universe ∖ seen) < fuel')%nat ->
  primitiveValueDomainOfTypeSeen checker fuel seen (Some t) = primitiveValueDomainOfTypeSeen checker fuel' seen (Some t).
Proof.
  intros HU. revert fuel' seen t. induction fuel as [|fuel IH]; intros fuel' seen t Ht Hf Hf'; [lia|]. destruct fuel' as [|fuel']; [lia|].
  cbn [primitiveValueDomainOfTypeSeen]. destruct (flagged _ _); [done|]. destruct (Flags t TypeFlagsNever); [done|].
  case_bool_decide as Hs; [done|]. cbv zeta. destruct (HU t Ht) as [Hc Hty].
  assert (size (universe ∖ ({[t]} ∪ seen)) < size (universe ∖ seen))%nat as Hlt by (apply subset_size; set_solver).
  rewrite (foldl_ext_in _ (fun domain constituent => Union domain (primitiveValueDomainOfTypeSeen checker fuel' ({[t]} ∪ seen) constituent))).
  2:{ intros d [c|] Hin; [f_equal; apply IH; [by apply Hty|lia|lia]|by destruct fuel, fuel']. }
  destruct (Flags t TypeFlagsInstantiable); [|done]. destruct (constraint_of checker t) as [c|] eqn:Ec; [|done].
  case_bool_decide; [done|]. apply IH; [by apply Hc|lia|lia].
Qed.

Lemma runtime_fuel universe fuel fuel' seen t : closed_universe universe -> t ∈ universe ->
  (size (universe ∖ seen) < fuel)%nat -> (size (universe ∖ seen) < fuel')%nat ->
  runtimeValueDomainOfTypeSeen checker fuel seen (Some t) = runtimeValueDomainOfTypeSeen checker fuel' seen (Some t).
Proof.
  intros HU. revert fuel' seen t. induction fuel as [|fuel IH]; intros fuel' seen t Ht Hf Hf'; [lia|]. destruct fuel' as [|fuel']; [lia|].
  cbn [runtimeValueDomainOfTypeSeen]. destruct (flagged _ _); [done|]. destruct (Flags t TypeFlagsNever); [done|].
  case_bool_decide as Hs; [done|]. cbv zeta. destruct (HU t Ht) as [Hc Hty].
  assert (size (universe ∖ ({[t]} ∪ seen)) < size (universe ∖ seen))%nat as Hlt by (apply subset_size; set_solver).
  rewrite (foldl_ext_in _ (fun domain constituent => join_runtime domain (runtimeValueDomainOfTypeSeen checker fuel' ({[t]} ∪ seen) constituent))).
  2:{ intros d [c|] Hin; [f_equal; apply IH; [by apply Hty|lia|lia]|by destruct fuel, fuel']. }
  destruct (Flags t TypeFlagsInstantiable); [|done]. destruct (constraint_of checker t) as [c|] eqn:Ec; [|done].
  case_bool_decide; [done|]. apply IH; [by apply Hc|lia|lia].
Qed.
End Values.

(** C21: Under strict null checks, and for values that respect what the checker documents of
    flags, constraints and unions and of assignability to the primitive types (of types other
    than any, unknown, never and error; a void result is trusted to be undefined), a value of a
    type is of a kind the primitive domain of the type admits, for every domain that does not
    report objects: the walk over constraints and unions misses no kind, whatever cycles it
    meets; more fuel than there are types makes no difference. *)
Theorem primitive_domain_sound `{C : !Compiler} `{TC : !TypeChecker} (checker : Checker) inhabits universe fuel t :
  kinds_ok checker inhabits -> closed_universe checker universe -> t ∈ universe -> (size universe < fuel)%nat ->
  domain_ok (primitiveValueDomainOfType checker fuel (Some t)) /\
  (forall k, inhabits t k -> MayBeObject (primitiveValueDomainOfType checker fuel (Some t)) = false ->
     admits (primitiveValueDomainOfType checker fuel (Some t)) k = true) /\
  forall fuel', (size universe < fuel')%nat -> primitiveValueDomainOfType checker fuel' (Some t) = primitiveValueDomainOfType checker fuel (Some t).
Proof.
  intros K HU Ht Hf. split_and!.
  - apply primitive_ok.
  - intros k Hi Ho. pose proof (primitive_sound checker inhabits fuel ∅ t k K Hi) as Hc. apply orb_true_iff in Hc as [?|?]; [done|]. unfold primitiveValueDomainOfType in Ho. congruence.
  - intros fuel' Hf'. by apply (primitive_fuel checker universe); [| |rewrite difference_empty_L..].
Qed.

Section Presence.
Context `{C : !Compiler} `{TC : !TypeChecker} (checker : Checker).
Context (inhabits : CType -> js_kind -> Prop) (K : kinds_ok checker inhabits).

(** [undefined] is a value of a single type only when the checker says so. *)
Definition undefined_ok : Prop := forall t, inhabits t JUndefined ->
  flagged t [TypeFlagsAny; TypeFlagsUnknown; TypeFlagsIncludesError; TypeFlagsNever; TypeFlagsUnion] = false ->
  (Flags t TypeFlagsInstantiable = true -> constraint_of checker t = Some t) ->
  Flags t TypeFlagsUndefined || Flags t TypeFlagsVoid = true \/ has_signatures checker t SignatureKindCall = false /\ assignable_to checker t UndefinedType = true.

Lemma admits_join d part k : admits_presence d k = true \/ admits_presence part k = true -> admits_presence (join_runtime d part) k = true.
Proof.
  unfold admits_presence, join_runtime. cbn. rewrite !orb_true_iff. destruct k; rewrite ?orb_true_iff; tauto.
Qed.

Lemma runtime_leaf_presence t k : undefined_ok -> inhabits t k ->
  flagged t [TypeFlagsAny; TypeFlagsUnknown; TypeFlagsIncludesError; TypeFlagsNever; TypeFlagsUnion] = false ->
  (Flags t TypeFlagsInstantiable = true -> constraint_of checker t = Some t) ->
  admits_presence (runtime_leaf checker t) k = true.
Proof.
  intros HU Hi Hf Hc. unfold runtime_leaf. destruct (decide (k = JUndefined)) as [->|Hk].
  - destruct (HU t Hi Hf Hc) as [->|[-> ->]]; [done|]. by destruct (_ || _).
  - assert (forall callable other, callable || other = true -> admits_presence (mkRuntimeValueDomain callable false other false) k = true) as Hp by (destruct k; done).
    destruct (Flags t TypeFlagsUndefined) eqn:E1; [by destruct Hk; apply (ki_undefined _ _ K t k); auto|].
    destruct (Flags t TypeFlagsVoid) eqn:E2; [by destruct Hk; apply (ki_undefined _ _ K t k); auto|]. cbn [orb].
    destruct (has_signatures checker t SignatureKindCall); [by apply Hp|].
    destruct (assignable_to checker t UndefinedType) eqn:E3; [|by apply Hp].
    destruct Hk. symmetry. apply (ki_to_undefined _ _ K t k); [|done|done]. unfold closed_type, flagged in *. cbn in *.
    repeat (apply orb_false_iff in Hf as [? Hf]). by repeat (apply orb_false_iff; split).
Qed.

Lemma runtime_presence fuel seen t k : undefined_ok -> inhabits t k ->
  admits_presence (runtimeValueDomainOfTypeSeen checker fuel seen (Some t)) k = true.
Proof.
  intros HU. revert seen t. induction fuel as [|fuel IH]; intros seen t Hi; [done|]. cbn [runtimeValueDomainOfTypeSeen].
  destruct (flagged t _) eqn:Ef; [done|]. destruct (Flags t TypeFlagsNever) eqn:En; [by destruct (ki_never _ _ K t k En)|].
  destruct (bool_decide _); [done|]. cbv zeta.
  assert ((Flags t TypeFlagsInstantiable = true -> constraint_of checker t = Some t) -> admits_presence
    (if Flags t TypeFlagsUnion then
       foldl (fun domain constituent => join_runtime domain (runtimeValueDomainOfTypeSeen checker fuel ({[t]} ∪ seen) constituent)) emptyRuntimeValueDomain (Types t)
     else runtime_leaf checker t) k = true) as Hrest.
  { intros Hcon. destruct (Flags t TypeFlagsUnion) eqn:Eu.
    - destruct (ki_union _ _ K t k Eu Hi) as (c & Hin & Hck).
      assert (admits_presence (runtimeValueDomainOfTypeSeen checker fuel ({[t]} ∪ seen) c) k = true) as Hpart by (destruct c as [c|]; [by apply IH, Hck|by destruct fuel]).
      clear Hck. assert (forall l d, admits_presence d k = true \/ c ∈ l ->
        admits_presence (foldl (fun domain constituent => join_runtime domain (runtimeValueDomainOfTypeSeen checker fuel ({[t]} ∪ seen) constituent)) d l) k = true) as Hl.
      { induction l as [|x l IHl]; intros d Hor; [destruct Hor as [?|Hn]; [done|by apply elem_of_nil in Hn]|]. cbn [foldl]. apply IHl.
        destruct Hor as [?|[->|?]%elem_of_cons]; [left; apply admits_join; by left|left; apply admits_join; by right|by right]. }
      apply Hl. by right.
    - apply runtime_leaf_presence; [done|done| |done]. unfold flagged in *. cbn in *.
      apply orb_false_iff in Ef as [-> Ef]. apply orb_false_iff in Ef as [-> Ef]. apply orb_false_iff in Ef as [-> _]. by rewrite En, Eu. }
  destruct (Flags t TypeFlagsInstantiable) eqn:Ei; [|by apply Hrest]. destruct (constraint_of checker t) as [c|] eqn:Ec; [|done].
  case_bool_decide as Hct; [apply Hrest; intros _; by rewrite Hct|]. apply IH. by apply (ki_constraint _ _ K t c).
Qed.
End Presence.

(** Whether a value may be undefined, or may be anything else: the runtime
    domain of a type reports it. *)
Theorem runtime_domain_presence `{C : !Compiler} `{TC : !TypeChecker} (checker : Checker) inhabits universe fuel t :
  kinds_ok checker inhabits -> undefined_ok checker inhabits -> closed_universe checker universe -> t ∈ universe -> (size universe < fuel)%nat ->
  (forall k, inhabits t k -> admits_presence (runtimeValueDomainOfType checker fuel (Some t)) k = true) /\
  forall fuel', (size universe < fuel')%nat -> runtimeValueDomainOfType checker fuel' (Some t) = runtimeValueDomainOfType checker fuel (Some t).
Proof.
  intros K HU Hcl Ht Hf. split.
  - intros k Hi. by apply (runtime_presence checker inhabits).
  - intros fuel' Hf'. by apply (runtime_fuel checker universe); [| |rewrite difference_empty_L..].
Qed.

(** * Tuple shapes *)

(** One promise is no stronger than another. *)
Definition callability_le (a b : Callability) : bool :=
  String.eqb a b || String.eqb a CallabilityUnknown ||
  (String.eqb a CallabilityMixed && negb (String.eqb b CallabilityUnknown)) ||
  (String.eqb a CallabilityUntypedCallable && String.eqb b CallabilityCallable).

Definition callabilities : list Callability :=
  [CallabilityCallable; CallabilityUntypedCallable; CallabilityNonCallable; CallabilityMixed; CallabilityUnknown].

Record shape_ok (s : TupleShape) : Prop := {
  so_callability : ElementZero s ∈ callabilities;
  so_exact : ExactLengthKnown s = false -> ExactLength s = 0;
}.

Record shape_le (a b : TupleShape) : Prop := {
  le_fixed : FixedLength a <= FixedLength b;
  le_rest : HasRest a = true -> HasRest b = true;
  le_exact : ExactLengthKnown a = true -> ExactLengthKnown b = true /\ ExactLength b = ExactLength a;
  le_callability : callability_le (ElementZero a) (ElementZero b) = true;
  le_parameters : ElementZeroMinimumParameters b <= ElementZeroMinimumParameters a;
}.

Lemma callabilityOfType_known `{C : !Compiler} `{TC : !TypeChecker} (checker : Checker) value : callabilityOfType checker value ∈ callabilities.
Proof. unfold callabilityOfType, callabilities. destruct (classes_of _ _ _); [|refine (bool_decide_unpack _ _); by vm_compute].
  repeat case_bool_decide; refine (bool_decide_unpack _ _); by vm_compute. Qed.

(** The meet of promises: a table of twenty-five entries. *)
Lemma meet_callability_glb a b c : a ∈ callabilities -> b ∈ callabilities -> c ∈ callabilities ->
  meet_callability a b ∈ callabilities /\ callability_le (meet_callability a b) a = true /\ callability_le (meet_callability a b) b = true /\
  (callability_le c a = true -> callability_le c b = true -> callability_le c (meet_callability a b) = true).
Proof.
  intros Ha Hb Hc. repeat (apply elem_of_cons in Ha as [->|Ha]); [..|by apply elem_of_nil in Ha];
    (repeat (apply elem_of_cons in Hb as [->|Hb]); [..|by apply elem_of_nil in Hb]);
    (repeat (apply elem_of_cons in Hc as [->|Hc]); [..|by apply elem_of_nil in Hc]); (split; [refine (bool_decide_unpack _ _); by vm_compute|by vm_compute]).
Qed.

Lemma shape_le_refl s : shape_le s s.
Proof. split; [lia|done|done| |lia]. unfold callability_le. by rewrite String.eqb_refl. Qed.

Lemma callability_le_trans a b c : a ∈ callabilities -> b ∈ callabilities -> c ∈ callabilities ->
  callability_le a b = true -> callability_le b c = true -> callability_le a c = true.
Proof.
  intros Ha Hb Hc. repeat (apply elem_of_cons in Ha as [->|Ha]); [..|by apply elem_of_nil in Ha];
    (repeat (apply elem_of_cons in Hb as [->|Hb]); [..|by apply elem_of_nil in Hb]);
    (repeat (apply elem_of_cons in Hc as [->|Hc]); [..|by apply elem_of_nil in Hc]); by vm_compute.
Qed.

Lemma shape_le_trans a b c : shape_ok a -> shape_ok b -> shape_ok c -> shape_le a b -> shape_le b c -> shape_le a c.
Proof.
  intros [Ha _] [Hb _] [Hc _] [A1 A2 A3 A4 A5] [B1 B2 B3 B4 B5]. split; [lia|auto| |by apply (callability_le_trans _ (ElementZero b))|lia].
  intros H. destruct (A3 H) as [H1 E1]. destruct (B3 H1) as [H2 E2]. split; [done|congruence].
Qed.

Lemma meet_glb a b : shape_ok a -> shape_ok b -> shape_ok (meetTupleShapes a b) /\
  shape_le (meetTupleShapes a b) a /\ shape_le (meetTupleShapes a b) b /\
  forall c, shape_ok c -> shape_le c a -> shape_le c b -> shape_le c (meetTupleShapes a b).
Proof.
  intros [Ha Ea] [Hb Eb]. unfold meetTupleShapes. destruct (meet_callability_glb _ _ _ Ha Hb Ha) as (M1 & M2 & M3 & _). split_and!.
  - split; cbn [ElementZero ExactLengthKnown ExactLength]; [done|]. by intros ->.
  - split; cbn; [lia|by intros [? _]%andb_prop| |done|lia]. intros H. rewrite H. by apply andb_prop in H as [[? _]%andb_prop _].
  - split; cbn; [lia|by intros [_ ?]%andb_prop| |done|lia]. intros H. rewrite H. apply andb_prop in H as [[_ H]%andb_prop E]. apply Z.eqb_eq in E. by rewrite E.
  - intros c [Hc Ec] [A1 A2 A3 A4 A5] [B1 B2 B3 B4 B5]. split; cbn.
    + lia.
    + intros H. by rewrite A2, B2.
    + intros H. destruct (A3 H) as [-> E1], (B3 H) as [-> E2]. cbn [andb]. assert (ExactLength a =? ExactLength b = true) as -> by (apply Z.eqb_eq; congruence). done.
    + by apply (meet_callability_glb _ _ _ Ha Hb Hc).
    + lia.
Qed.

Section Tuples.
Context `{C : !Compiler} `{TC : !TypeChecker} (checker : Checker).

Lemma tuple_elements_ok flags s : shape_ok s -> shape_ok (foldl tuple_element s flags).
Proof.
  revert s. induction flags as [|f flags IH]; intros s [H1 H2]; [done|]. apply IH. unfold tuple_element.
  destruct (NonRequired f), (Variable_ f); by split.
Qed.

Lemma tupleShapeOfType_ok t s : tupleShapeOfType checker t = Some s -> shape_ok s.
Proof.
  unfold tupleShapeOfType. destruct (negb _); [done|]. destruct (TargetTupleType t) as [target|]; [|done]. intros [= <-].
  match goal with |- context [foldl tuple_element ?s0 ?fl] => assert (shape_ok (foldl tuple_element s0 fl)) as Hs end.
  { apply tuple_elements_ok. split; [refine (bool_decide_unpack _ _); by vm_compute|done]. }
  destruct (getTypeArguments checker t) as [|e l]; [done|]. destruct (_ <? _); [|done]. destruct Hs as [H1 H2]. split; [apply callabilityOfType_known|done].
Qed.

(** A constituent that can hold a value, and its shape. *)
Definition nullish (c : CType) : bool := flagged c [TypeFlagsUndefined; TypeFlagsNull; TypeFlagsVoid].

Definition present_shape (value : CType) (s : TupleShape) : Prop :=
  exists c, Some c ∈ Distributed value /\ nullish c = false /\ tupleShapeOfType checker c = Some s.

(** The loop: every constituent is there and closed, nullish or a tuple, and
    the result is the meet of the shapes. *)
Lemma merge_none l : foldl (merge_constituent checker) None l = None.
Proof. by induction l. Qed.

Lemma merge_nullish l : Forall (fun c => exists t, c = Some t /\ nullish t = true) l ->
  foldl (merge_constituent checker) (Some None) l = Some None \/ foldl (merge_constituent checker) (Some None) l = None.
Proof.
  induction 1 as [|c l (t & -> & Hn) _ IH]; [by left|]. cbn [foldl]. unfold merge_constituent at 2 4.
  destruct (flagged t openArrayShapeFlags); [right; apply merge_none|]. fold (nullish t). rewrite Hn. exact IH.
Qed.

Lemma merge_spec l merged r : when_some shape_ok merged -> foldl (merge_constituent checker) (Some merged) l = Some r ->
  when_some shape_ok r /\ (forall c, c ∈ l -> exists t, c = Some t /\ (nullish t = true \/ is_Some (tupleShapeOfType checker t))) /\
  (r = None -> merged = None /\ forall t, Some t ∈ l -> nullish t = true) /\
  forall shape, r = Some shape ->
    when_some (shape_le shape) merged /\ (forall t s, Some t ∈ l -> nullish t = false -> tupleShapeOfType checker t = Some s -> shape_le shape s) /\
    forall c, shape_ok c -> when_some (shape_le c) merged ->
      (forall t s, Some t ∈ l -> nullish t = false -> tupleShapeOfType checker t = Some s -> shape_le c s) ->
      (merged <> None \/ exists t, Some t ∈ l /\ nullish t = false) -> shape_le c shape.
Proof.
  revert merged. induction l as [|c l IH]; intros merged Hm; cbn [foldl].
  { intros [= <-]. split_and!; [done|by intros c Hc%elem_of_nil|split; [done|by intros t Ht%elem_of_nil]|]. intros shape ->. split_and!.
    - intros x [= <-]. apply shape_le_refl.
    - by intros t s Ht%elem_of_nil.
    - intros x Hx Hle _ _. by apply Hle. }
  destruct c as [t|]; [|by rewrite merge_none]. unfold merge_constituent at 2. destruct (flagged t openArrayShapeFlags); [by rewrite merge_none|].
  fold (nullish t). destruct (nullish t) eqn:En.
  - intros Hr. destruct (IH merged Hm Hr) as (A1 & A2 & A3 & A4). split_and!; [done| | |].
    + intros x [->|Hx]%elem_of_cons; [exists t; auto|by apply A2].
    + intros E. destruct (A3 E) as [-> H]. split; [done|]. intros x [[= ->]|Hx]%elem_of_cons; [done|by apply H].
    + intros shape E. destruct (A4 shape E) as (B1 & B2 & B3). split_and!; [done| |].
      * intros x s [[= ->]|Hx]%elem_of_cons; [congruence|by apply B2].
      * intros x Hx Hle Hall Hsome. apply B3; [done|done|intros y s Hy; apply Hall; by right|].
        destruct Hsome as [?|(y & [[= ->]|Hy]%elem_of_cons & Hn)]; [by left|congruence|right; by exists y].
  - destruct (tupleShapeOfType checker t) as [s|] eqn:Et; [|by rewrite merge_none].
    pose proof (tupleShapeOfType_ok t s Et) as Hs. set (merged' := match merged with None => s | Some merged => meetTupleShapes merged s end).
    intros Hr. assert (shape_ok merged') as Hm'.
    { unfold merged'. destruct merged as [m|]; [|done]. by apply meet_glb; [apply Hm|]. }
    destruct (IH (Some merged') ltac:(by intros x [= <-]) Hr) as (A1 & A2 & A3 & A4).
    assert (shape_le merged' s /\ when_some (shape_le merged') merged) as [L1 L2].
    { unfold merged'. destruct merged as [m|]; [|by split; [apply shape_le_refl|]]. destruct (meet_glb m s (Hm m eq_refl) Hs) as (_ & ? & ? & _). split; [done|]. by intros x [= <-]. }
    split_and!; [done| |intros E; by destruct (A3 E)|].
    + intros x [->|Hx]%elem_of_cons; [exists t; split; [done|right; by eexists]|by apply A2].
    + intros shape E. destruct (A4 shape E) as (B1 & B2 & B3). pose proof (A1 shape E) as Hok. specialize (B1 merged' eq_refl). split_and!.
      * intros m Em. subst merged. apply (shape_le_trans shape merged' m); auto.
      * intros x s' [[= ->]|Hx]%elem_of_cons Hn Hx'; [|by eapply B2]. assert (s' = s) as -> by congruence. by apply (shape_le_trans shape merged' s).
      * intros x Hx Hle Hall _. apply B3; [done| |intros y s' Hy; apply Hall; by right|by left]. intros ? [= <-].
        unfold merged'. assert (shape_le x s) as Hxs by (apply (Hall t s); [left|done|done]). destruct merged as [m|]; [|done].
        by apply (meet_glb m s (Hm m eq_refl) Hs); [|apply Hle|].
Qed.
End Tuples.

(** C23: The tuple shape of a union promises no more than any constituent that can hold a value,
    and everything all of them promise: it is the greatest lower bound of their shapes, and
    exists only if each of them is a tuple. *)
Theorem tuple_shape_meets `{C : !Compiler} `{TC : !TypeChecker} (checker : Checker) value shape :
  tuple_shape checker (Some value) = Some shape ->
  (forall c, c ∈ Distributed value -> exists t, c = Some t /\ (nullish t = true \/ is_Some (tupleShapeOfType checker t))) /\
  (forall s, present_shape checker value s -> shape_le shape s) /\
  (forall c, shape_ok c -> (forall s, present_shape checker value s -> shape_le c s) -> shape_le c shape) /\
  shape_ok shape /\ exists s, present_shape checker value s.
Proof.
  unfold tuple_shape. destruct (flagged value openArrayShapeFlags); [done|].
  destruct (foldl (merge_constituent checker) (Some None) (Distributed value)) as [r|] eqn:Er; [|done]. intros ->.
  destruct (merge_spec checker _ None _ ltac:(done) Er) as (A1 & A2 & _ & A4). destruct (A4 shape eq_refl) as (_ & B2 & B3).
  assert (exists t, Some t ∈ Distributed value /\ nullish t = false) as (t & Ht & Hn).
  { destruct (existsb (fun c => match c with Some t => negb (nullish t) | None => false end) (Distributed value)) eqn:He.
    - apply existsb_exists in He as ([t|] & Hc & Hn); [|done]. exists t. split; [by apply list_elem_of_In|by apply negb_true_iff].
    - exfalso. assert (Forall (fun c => exists t, c = Some t /\ nullish t = true) (Distributed value)) as Hall.
      { apply Forall_forall. intros c Hc. destruct (A2 c Hc) as (t & -> & _). exists t. split; [done|]. apply not_false_iff_true. intros Hn.
        apply not_true_iff_false in He. apply He, existsb_exists. exists (Some t). split; [by apply list_elem_of_In|by rewrite Hn]. }
      by destruct (merge_nullish checker _ Hall); congruence. }
  split_and!; [done| | |by apply A1|].
  - intros s (c & Hc & Hcn & Hs). by apply (B2 c s).
  - intros c Hc Hall. apply B3; [done|done| |right; by exists t]. intros x s Hx Hxn Hs. apply Hall. by exists x.
  - destruct (A2 _ Ht) as (t' & [= <-] & [?|[s Hs]]); [congruence|]. by exists s, t.
Qed.

(** * Literal candidates *)

Section Candidates.
Context `{C : !Compiler} `{TC : !TypeChecker} (checker : Checker).

(** From a type that is not open to its constraint, or to a constituent of it. *)
Definition leads (t u : CType) : Prop :=
  flagged t openCallFlags = false /\
  if Flags t TypeFlagsInstantiable then constraint_of checker t = Some u /\ u <> t
  else Flags t TypeFlagsUnion = true /\ Some u ∈ Types t.

(** A type that stands for itself, with its literal. *)
Definition literal_leaf (u : CType) (c : PrimitiveLiteralCandidate) : Prop :=
  flagged u openCallFlags = false /\ Flags u TypeFlagsInstantiable = false /\ Flags u TypeFlagsUnion = false /\ literal_candidate u = Some c.

Definition literal_of (t : CType) (c : PrimitiveLiteralCandidate) : Prop := exists u, rtc leads t u /\ literal_leaf u c.

(** A way that stays out of a set. *)
Definition leads_around (seen : gset CType) (t u : CType) : Prop := leads t u /\ u ∉ seen.

(** A way around a set need not come back to where it starts. *)
Lemma around_first seen t u : rtc (leads_around seen) t u -> t = u \/
  exists c, leads t c /\ c ∉ {[t]} ∪ seen /\ rtc (leads_around ({[t]} ∪ seen)) c u.
Proof.
  intros Hr. enough (forall x, rtc (leads_around seen) x u -> rtc (leads_around ({[t]} ∪ seen)) x u \/ t = u \/
    exists c, leads t c /\ c ∉ {[t]} ∪ seen /\ rtc (leads_around ({[t]} ∪ seen)) c u) as H.
  { destruct (H t Hr) as [Ht|?]; [|done]. apply rtc_inv in Ht as [->|(c & [? ?] & ?)]; [by left|]. right. by exists c. }
  induction 1 as [x|x y z [Hxy Hy] _ IH]; [left; done|]. destruct (IH Hr) as [Hz|?]; [|by right].
  destruct (decide (y = t)) as [->|Hne].
  - right. apply rtc_inv in Hz as [->|(c & [? ?] & ?)]; [by left|]. right. by exists c.
  - left. apply (rtc_l _ _ y); [split; [done|set_solver]|done].
Qed.

Lemma collect_grows fuel seen cs t : exists l, collect checker fuel seen cs t = cs ++ l.
Proof.
  revert seen cs t. induction fuel as [|fuel IH]; intros seen cs t; cbn [collect]; [exists []; by rewrite app_nil_r|].
  assert (exists l, cs = cs ++ l) as Hsame by (exists []; by rewrite app_nil_r).
  destruct t as [t|]; [|done]. destruct (_ <=? _)%nat; [done|]. destruct (flagged _ _); [done|]. destruct (bool_decide _); [done|]. cbv zeta.
  destruct (Flags t TypeFlagsInstantiable).
  { destruct (constraint_of checker t) as [c|]; [|done]. destruct (bool_decide _); [done|apply IH]. }
  destruct (Flags t TypeFlagsUnion); [|by eexists].
  generalize (Types t) cs. intros l. induction l as [|x l IHl]; intros cs0; [exists []; by rewrite app_nil_r|]. cbn [foldl].
  destruct (IH ({[t]} ∪ seen) cs0 x) as [l1 ->]. destruct (IHl (cs0 ++ l1)) as [l2 ->]. exists (l1 ++ l2). by rewrite app_assoc.
Qed.

Lemma collect_many_grows fuel seen cs l : exists l', foldl (collect checker fuel seen) cs l = cs ++ l'.
Proof.
  revert cs. induction l as [|x l IH]; intros cs; [exists []; by rewrite app_nil_r|]. cbn [foldl].
  destruct (collect_grows fuel seen cs x) as [l1 ->]. destruct (IH (cs ++ l1)) as [l2 ->]. exists (l1 ++ l2). by rewrite app_assoc.
Qed.

Lemma collect_sound fuel seen cs t c : c ∈ collect checker fuel seen cs t -> c ∈ cs \/ exists t0, t = Some t0 /\ literal_of t0 c.
Proof.
  revert seen cs t. induction fuel as [|fuel IH]; intros seen cs t; cbn [collect]; [by left|].
  destruct t as [t|]; [|by left]. destruct (_ <=? _)%nat; [by left|]. destruct (flagged t openCallFlags) eqn:Ef; [by left|]. destruct (bool_decide _); [by left|]. cbv zeta.
  assert (forall x, leads t x -> literal_of x c -> literal_of t c) as Hl.
  { intros x Hx (u & Hu & Hc). exists u. split; [by apply (rtc_l _ _ x)|done]. }
  destruct (Flags t TypeFlagsInstantiable) eqn:Ei.
  { destruct (constraint_of checker t) as [x|] eqn:Ec; [|by left]. case_bool_decide as Hne; [by left|].
    intros [?|(? & [= <-] & Hx)]%IH; [by left|]. right. exists t. split; [done|]. apply (Hl x); [|done]. split; [done|]. by rewrite Ei. }
  destruct (Flags t TypeFlagsUnion) eqn:Eu.
  - assert (forall l cs0, (forall x, Some x ∈ l -> leads t x) -> c ∈ foldl (collect checker fuel ({[t]} ∪ seen)) cs0 l -> c ∈ cs0 \/ literal_of t c) as Hf.
    { induction l as [|x l IHl]; intros cs0 Hin Hc; [by left|]. cbn [foldl] in Hc. destruct (IHl _ ltac:(intros y Hy; apply Hin; by right) Hc) as [[?|(t0 & -> & H0)]%IH|?]; [by left| |by right].
      right. apply (Hl t0); [apply Hin; by left|done]. }
    intros Hc. destruct (Hf (Types t) cs) as [?|?]; [|done|by left|right; by exists t]. intros x Hx. split; [done|]. by rewrite Ei.
  - intros [?|Hc]%elem_of_app; [by left|]. right. exists t. split; [done|]. exists t. split; [done|].
    destruct (literal_candidate t) as [c0|] eqn:Elc; [|by apply elem_of_nil in Hc]. apply list_elem_of_singleton in Hc as ->. by split_and!.
Qed.

Lemma collect_complete universe fuel seen cs t u c : closed_universe checker universe -> t ∈ universe -> t ∉ seen -> (size (universe ∖ seen) < fuel)%nat ->
  rtc (leads_around seen) t u -> literal_leaf u c -> (length (collect checker fuel seen cs (Some t)) < maxPrimitiveLiteralCandidates)%nat ->
  c ∈ collect checker fuel seen cs (Some t).
Proof.
  intros HU Ht Hs Hf Hr (Lf & Li & Lu & Lc). revert seen cs t Ht Hs Hf Hr. induction fuel as [|fuel IH]; intros seen cs t Ht Hs Hf Hr; [lia|].
  cbn [collect]. destruct (_ <=? _)%nat eqn:Elen; [apply Nat.leb_le in Elen; lia|]. clear Elen.
  assert (size (universe ∖ ({[t]} ∪ seen)) < fuel)%nat as Hf' by (assert (size (universe ∖ ({[t]} ∪ seen)) < size (universe ∖ seen))%nat by (apply subset_size; set_solver); lia).
  rewrite (bool_decide_eq_false_2 _ Hs). cbv zeta. apply around_first in Hr as [<-|(x & [Hx Hstep] & Hxs & Hxr)].
  { rewrite Lf, Li, Lu, Lc. intros _. apply elem_of_app. right. by left. }
  rewrite Hx. destruct (HU t Ht) as [HUc HUt]. destruct (Flags t TypeFlagsInstantiable).
  - destruct Hstep as [Ec Hne]. rewrite Ec, (bool_decide_eq_false_2 _ Hne). intros Hlen. apply IH; [by apply HUc|done|done|done|done].
  - destruct Hstep as [-> Hin]. generalize dependent cs. specialize (HUt x Hin). revert Hin. generalize (Types t). intros l. induction l as [|y l IHl]; intros Hin cs; [by apply elem_of_nil in Hin|]. cbn [foldl].
    apply elem_of_cons in Hin as [<-|Hin]; [|by apply IHl]. destruct (collect_many_grows fuel ({[t]} ∪ seen) (collect checker fuel ({[t]} ∪ seen) cs (Some x)) l) as [l' ->].
    rewrite length_app. intros Hlen. apply elem_of_app. left. apply IH; [done|done|done|done|lia].
Qed.

(** The limit: a candidate is added below it only. *)
Lemma collect_bound fuel seen cs t : (length cs <= maxPrimitiveLiteralCandidates)%nat -> (length (collect checker fuel seen cs t) <= maxPrimitiveLiteralCandidates)%nat.
Proof.
  revert seen cs t. induction fuel as [|fuel IH]; intros seen cs t Hcs; cbn [collect]; [done|]. destruct t as [t|]; [|done].
  destruct (_ <=? _)%nat eqn:El; [done|]. apply Nat.leb_gt in El. destruct (flagged _ _); [done|]. destruct (bool_decide _); [done|]. cbv zeta.
  destruct (Flags t TypeFlagsInstantiable).
  { destruct (constraint_of checker t); [|done]. destruct (bool_decide _); [done|by apply IH]. }
  destruct (Flags t TypeFlagsUnion).
  - clear El. revert cs Hcs. induction (Types t) as [|x l IHl]; intros cs Hcs; [done|]. cbn [foldl]. by apply IHl, IH.
  - rewrite length_app. destruct (literal_candidate t); cbn; lia.
Qed.
End Candidates.

(** ** Their order *)

Lemma literal_less_irrefl a b : literal_less a b = true -> literal_less b a = false.
Proof.
  unfold literal_less. rewrite (String.eqb_sym (plc_Kind b)). destruct (String.eqb_spec (plc_Kind a) (plc_Kind b)) as [->|_]; cbn [negb].
  - destruct (String.eqb _ PrimitiveLiteralString); [intros H; by apply sle_not_slt, slt_asym|].
    destruct (String.eqb _ PrimitiveLiteralNumber); [rewrite Z.ltb_lt, Z.ltb_ge; lia|].
    destruct (String.eqb _ PrimitiveLiteralBoolean); [|done]. by destruct (plc_Boolean a), (plc_Boolean b).
  - intros H. by apply sle_not_slt, slt_asym.
Qed.

Lemma literal_not_after_trans a b c : not_after literal_less a b -> not_after literal_less b c -> not_after literal_less a c.
Proof.
  unfold not_after, literal_less.
  destruct (String.eqb_spec (plc_Kind b) (plc_Kind a)) as [Eab|Nab], (String.eqb_spec (plc_Kind c) (plc_Kind b)) as [Ebc|Nbc]; cbn [negb]; intros H1 H2.
  - rewrite Ebc, Eab, String.eqb_refl. rewrite Eab in H1. rewrite Ebc, Eab in H2. cbn [negb].
    destruct (String.eqb _ PrimitiveLiteralString); [exact (sle_trans _ _ _ H1 H2)|].
    destruct (String.eqb _ PrimitiveLiteralNumber); [rewrite Z.ltb_ge in *; lia|].
    destruct (String.eqb _ PrimitiveLiteralBoolean); [|done]. by destruct (plc_Boolean a), (plc_Boolean b), (plc_Boolean c).
  - rewrite <- Eab. destruct (String.eqb_spec (plc_Kind c) (plc_Kind b)); [done|exact H2].
  - rewrite Ebc. destruct (String.eqb_spec (plc_Kind b) (plc_Kind a)); [done|exact H1].
  - assert (slt (plc_Kind a) (plc_Kind b)) as S1 by (apply sle_lt_eq in H1 as [|]; [done|congruence]).
    assert (slt (plc_Kind b) (plc_Kind c)) as S2 by (apply sle_lt_eq in H2 as [|]; [done|congruence]).
    assert (slt (plc_Kind a) (plc_Kind c)) as S3 by (by transitivity (plc_Kind b)).
    destruct (String.eqb_spec (plc_Kind c) (plc_Kind a)) as [E|_]; [rewrite E in S3; by apply slt_irrefl in S3|]. by apply slt_le.
Qed.

(** A candidate as the collection builds it. *)
Definition plain_literal (c : PrimitiveLiteralCandidate) : Prop :=
  (plc_Kind c = PrimitiveLiteralString /\ plc_Number c = 0 /\ plc_Boolean c = false) \/
  (plc_Kind c = PrimitiveLiteralNumber /\ plc_String c = "" /\ plc_Boolean c = false /\ 0 <= plc_Number c < 2 ^ 64 /\ float_is_finite (plc_Number c) = true) \/
  (plc_Kind c = PrimitiveLiteralBoolean /\ plc_String c = "" /\ plc_Number c = 0).

Lemma float_split n : 0 <= n < 2 ^ 64 -> n = (if Z.testbit n 63 then 2 ^ 63 else 0) + Z.land n (2 ^ 63 - 1).
Proof.
  intros Hn. replace (2 ^ 63 - 1) with (Z.ones 63) by reflexivity. rewrite Z.land_ones by lia. rewrite Z.testbit_odd, Z.shiftr_div_pow2 by lia.
  assert (n / 2 ^ 63 = 0 \/ n / 2 ^ 63 = 1) as Hq.
  { assert (0 <= n / 2 ^ 63 < 2) by (split; [apply Z.div_pos; lia|apply Z.div_lt_upper_bound; lia]). lia. }
  pose proof (Z.div_mod n (2 ^ 63) ltac:(lia)) as Hd. destruct Hq as [Hq|Hq]; rewrite Hq in Hd |- *; cbn [Z.odd]; lia.
Qed.

Lemma float_order_eq a b : 0 <= a < 2 ^ 64 -> 0 <= b < 2 ^ 64 -> float_is_finite a = true -> float_is_finite b = true ->
  float_order a = float_order b -> float_eqb a b = true.
Proof.
  intros Ha Hb [_ Fa]%andb_prop [_ Fb]%andb_prop. apply negb_true_iff in Fa, Fb. unfold float_order, float_eqb. rewrite Fa, Fb. cbn [negb andb].
  pose proof (float_split a Ha) as Sa. pose proof (float_split b Hb) as Sb. unfold is_zero.
  assert (forall n, 0 <= Z.land n (2 ^ 63 - 1)) as Hp by (intros n; apply Z.land_nonneg; right; lia). pose proof (Hp a). pose proof (Hp b).
  destruct (Z.testbit a 63), (Z.testbit b 63); intros E; apply orb_true_iff; rewrite andb_true_iff, !Z.eqb_eq; lia.
Qed.

Lemma literal_strict a b : plain_literal a -> plain_literal b -> not_after literal_less a b -> literal_eq b a = false -> literal_less a b = true.
Proof.
  intros Pa Pb Hn He. apply not_false_iff_true. intros Hl. apply not_true_iff_false in He. apply He. unfold not_after, literal_less in *.
  rewrite (String.eqb_sym (plc_Kind b)) in Hn. destruct (String.eqb_spec (plc_Kind a) (plc_Kind b)) as [E|N]; cbn [negb] in *.
  2:{ apply sle_not_slt in Hn, Hl. destruct (slt_total (plc_Kind a) (plc_Kind b)) as [|[|]]; done. }
  unfold literal_eq. rewrite !andb_true_iff, !go_eq_true. rewrite E in *.
  destruct Pa as [(Ka & A1 & A2)|[(Ka & A1 & A2 & A3 & A4)|(Ka & A1 & A2)]], Pb as [(Kb & B1 & B2)|[(Kb & B1 & B2 & B3 & B4)|(Kb & B1 & B2)]];
    rewrite E in Ka; rewrite Ka in Kb; try discriminate Kb; rewrite Ka in *; cbn in Hn, Hl; rewrite ?A1, ?A2, ?B1, ?B2.
  - split_and!; try done. apply sle_not_slt in Hn, Hl. destruct (slt_total (plc_String a) (plc_String b)) as [|[|]]; done.
  - split_and!; try done. apply Z.ltb_ge in Hn, Hl. apply float_order_eq; [done..|lia].
  - split_and!; try done. by destruct (plc_Boolean a), (plc_Boolean b).
Qed.

Lemma literal_eq_refl c : plain_literal c -> literal_eq c c = true.
Proof.
  intros Pc. unfold literal_eq. rewrite !andb_true_iff, !go_eq_true. split_and!; try done. apply float_eqb_refl.
  destruct Pc as [(_ & -> & _)|[(_ & _ & _ & _ & Hf)|(_ & _ & ->)]]; [done| |done]. apply andb_prop in Hf as [_ Hf]. by apply negb_true_iff.
Qed.

Lemma literal_eq_trans a b c : literal_eq a b = true -> literal_eq b c = true -> literal_eq a c = true.
Proof.
  unfold literal_eq. rewrite !andb_true_iff, !go_eq_true, !float_eqb_norm. intros [[[-> ->] [? ->]] ->] [[[-> ->] [? ->]] ->]. done.
Qed.

(** Compacting a sorted list leaves it strictly sorted, and every element up to [==]. *)
Lemma compact_behind_spec p l : plain_literal p -> Forall plain_literal l -> StronglySorted (not_after literal_less) (p :: l) ->
  StronglySorted (fun a b => literal_less a b = true) (compact_behind literal_eq p l) /\
  Forall (fun c => literal_less p c = true /\ c ∈ l) (compact_behind literal_eq p l) /\
  forall c, c ∈ l -> literal_eq c p = true \/ exists c', c' ∈ compact_behind literal_eq p l /\ literal_eq c c' = true.
Proof.
  intros Pp Hl. revert p Pp. induction Hl as [|x l Px Hl IH]; intros p Pp Hs; cbn [compact_behind]; [split_and!; [constructor|constructor|by intros c Hc%elem_of_nil]|].
  apply StronglySorted_inv in Hs as [Hs Hp]. apply Forall_cons in Hp as [Hpx Hp]. destruct (IH x Px Hs) as (A1 & A2 & A3).
  destruct (literal_eq x p) eqn:E.
  - split_and!; [done| |].
    + apply Forall_forall. intros c Hc. rewrite Forall_forall in A2. destruct (A2 c Hc) as [Hxc Hin]. split; [|by right]. apply not_false_iff_true. intros Hpc.
      assert (literal_less x c = false); [|congruence]. exact (literal_not_after_trans c p x Hpc Hpx).
    + intros c [->|Hc]%elem_of_cons; [by left|]. destruct (A3 c Hc) as [Hcx|?]; [left; by apply (literal_eq_trans _ x)|by right].
  - assert (literal_less p x = true) as Hlt by (by apply literal_strict). split_and!.
    + constructor; [done|]. eapply Forall_impl; [exact A2|]. by intros c [? _].
    + constructor; [split; [done|by left]|]. apply Forall_forall. intros c Hc. rewrite Forall_forall in A2. destruct (A2 c Hc) as [Hxc Hin]. split; [|by right].
      apply not_false_iff_true. intros Hpc. assert (literal_less p x = false); [|congruence]. apply (literal_not_after_trans x c p); [|exact Hpc]. unfold not_after. by apply literal_less_irrefl.
    + intros c [->|Hc]%elem_of_cons; [right; exists x; split; [by left|by apply literal_eq_refl]|].
      destruct (A3 c Hc) as [Hcx|(c' & ? & ?)]; [right; exists x; split; [by left|done]|right; exists c'; split; [by right|done]].
Qed.

Lemma compact_behind_length {A} (eq : A -> A -> bool) p l : (length (compact_behind eq p l) <= length l)%nat.
Proof. revert p. induction l as [|x l IH]; intros p; cbn; [lia|]. specialize (IH x). destruct (eq x p); cbn; lia. Qed.

Lemma slices_Compact_spec l : Forall plain_literal l -> StronglySorted (not_after literal_less) l ->
  StronglySorted (fun a b => literal_less a b = true) (slices_Compact literal_eq l) /\ (length (slices_Compact literal_eq l) <= length l)%nat /\
  (forall c, c ∈ slices_Compact literal_eq l -> c ∈ l) /\ forall c, c ∈ l -> exists c', c' ∈ slices_Compact literal_eq l /\ literal_eq c c' = true.
Proof.
  intros Hl Hs. destruct l as [|x l]; [split_and!; [constructor|done|done|by intros c Hc%elem_of_nil]|]. apply Forall_cons in Hl as [Px Hl].
  destruct (compact_behind_spec x l Px Hl Hs) as (A1 & A2 & A3). cbn [slices_Compact]. rewrite Forall_forall in A2. split_and!.
  - constructor; [done|]. apply Forall_forall. intros c Hc. by apply A2.
  - cbn. pose proof (compact_behind_length literal_eq x l). lia.
  - intros c [->|Hc]%elem_of_cons; [by left|]. right. by apply A2.
  - intros c [->|Hc]%elem_of_cons; [exists x; split; [by left|by apply literal_eq_refl]|].
    destruct (A3 c Hc) as [?|(c' & ? & ?)]; [exists x; split; [by left|done]|exists c'; split; [by right|done]].
Qed.

(** Numbers of literal types are 64-bit patterns. *)
Definition literal_words `{C : !Compiler} `{TC : !TypeChecker} : Prop := forall t n, AsLiteralType t = NumberValue n -> 0 <= n < 2 ^ 64.

Lemma literal_candidate_plain `{C : !Compiler} `{TC : !TypeChecker} t c : literal_words -> literal_candidate t = Some c -> plain_literal c.
Proof.
  intros W. unfold literal_candidate, PrimitiveStringLiteral, PrimitiveNumberLiteral, PrimitiveBooleanLiteral, plain_literal. specialize (W t).
  destruct (Flags t TypeFlagsStringLiteral && _), (Flags t TypeFlagsNumberLiteral && _), (Flags t TypeFlagsBooleanLiteral), (AsLiteralType t) as [text|n|b|]; cbn;
    try destruct (float_is_finite n) eqn:Ef; cbn; try done; intros [= <-]; cbn; naive_solver.
Qed.

(** C22: The literal candidates of a type are strictly ordered, at most 32, finite and well
    formed, each the literal of a type reached over constraints and unions; when the limit is
    not reached every such literal is among them up to Go equality, although the walk cuts every
    cycle. *)
Theorem literal_candidates_exact `{C : !Compiler} `{TC : !TypeChecker} (checker : Checker) universe fuel t :
  literal_words -> closed_universe checker universe -> t ∈ universe -> (size universe < fuel)%nat ->
  let candidates := primitiveLiteralCandidatesOfType checker fuel (Some t) in
  StronglySorted (fun a b => literal_less a b = true) candidates /\ (length candidates <= maxPrimitiveLiteralCandidates)%nat /\
  (forall c, c ∈ candidates -> plain_literal c /\ literal_of checker t c) /\
  ((length (collect checker fuel ∅ [] (Some t)) < maxPrimitiveLiteralCandidates)%nat ->
     forall c, literal_of checker t c -> exists c', c' ∈ candidates /\ literal_eq c c' = true).
Proof.
  intros W HU Ht Hf candidates. set (found := collect checker fuel ∅ [] (Some t)).
  assert (forall c, c ∈ found -> plain_literal c /\ literal_of checker t c) as Hfound.
  { intros c Hc. destruct (collect_sound _ _ _ _ _ _ Hc) as [Hn|(? & [= <-] & Hl)]; [by apply elem_of_nil in Hn|]. split; [|done].
    destruct Hl as (u & _ & _ & _ & _ & Hl). by eapply literal_candidate_plain. }
  pose proof (sort_slice_perm literal_less found) as Hp. assert (forall c, c ∈ sort_slice literal_less found <-> c ∈ found) as Hin by (intros c; by rewrite Hp).
  destruct (slices_Compact_spec (sort_slice literal_less found)) as (A1 & A2 & A3 & A4).
  { apply Forall_forall. intros c Hc. by apply Hfound, Hin. }
  { apply sort_slice_sorted; [apply literal_not_after_trans|apply literal_less_irrefl]. }
  split_and!; [done| | |].
  - etransitivity; [exact A2|]. rewrite (Permutation_length Hp). apply collect_bound. cbn. lia.
  - intros c Hc. by apply Hfound, Hin, A3.
  - intros Hlen c (u & Hu & Hc). apply A4, Hin. apply (collect_complete checker universe fuel ∅ [] t u c); [done|done|set_solver|by rewrite difference_empty_L| |done|done].
    clear -Hu. induction Hu as [|x y z ? _ IH]; [done|]. apply (rtc_l _ _ y); [split; [done|set_solver]|done].
Qed.

(** * A sample checker *)

#[export] Instance TypeFlag_eq : EqDecision TypeFlag.
Proof. solve_decision. Defined.

(** [Param] is constrained by [Choice], which is [string | 5 | false | undefined];
    [Function_] has no signatures; [Calls] is [Function_ | Fn]; [Pair] is a
    tuple of two, [Rest] one of one and more, [Tuples] is [Pair | Rest | undefined];
    [Empty] is the type of [{}]; [Any_] is assignable to all of them. *)
Inductive sample_type :=
| Str | Num | Bool_ | Big | Sym | Null_ | Undef | Five | False_ | Fn | Function_ | Choice | Param | Calls | Pair | Rest | Tuples | Empty | Any_.

#[export] Instance sample_type_eq : EqDecision sample_type.
Proof. solve_decision. Defined.

Definition sample_types : list sample_type :=
  [Str; Num; Bool_; Big; Sym; Null_; Undef; Five; False_; Fn; Function_; Choice; Param; Calls; Pair; Rest; Tuples; Empty; Any_].

Definition sample_number (t : sample_type) : nat :=
  match t with
  | Str => 0 | Num => 1 | Bool_ => 2 | Big => 3 | Sym => 4 | Null_ => 5 | Undef => 6 | Five => 7 | False_ => 8 | Fn => 9
  | Function_ => 10 | Choice => 11 | Param => 12 | Calls => 13 | Pair => 14 | Rest => 15 | Tuples => 16 | Empty => 17 | Any_ => 18
  end.

#[export] Instance sample_type_countable : Countable sample_type.
Proof. apply (inj_countable' sample_number (fun n => nth n sample_types Str)). by intros []. Defined.

Definition sample_flags (t : sample_type) : list TypeFlag :=
  match t with
  | Str => [TypeFlagsStringLike]
  | Num => [TypeFlagsNumberLike]
  | Bool_ => [TypeFlagsBooleanLike]
  | Big => [TypeFlagsBigIntLike]
  | Sym => [TypeFlagsESSymbolLike]
  | Null_ => [TypeFlagsNull]
  | Undef => [TypeFlagsUndefined]
  | Five => [TypeFlagsNumberLike; TypeFlagsNumberLiteral]
  | False_ => [TypeFlagsBooleanLike; TypeFlagsBooleanLiteral]
  | Choice | Calls | Tuples => [TypeFlagsUnion]
  | Param => [TypeFlagsInstantiable; TypeFlagsTypeParameter]
  | Any_ => [TypeFlagsAny]
  | Fn | Function_ | Pair | Rest | Empty => [TypeFlagsObject]
  end.

Definition sample_members (t : sample_type) : list (option sample_type) :=
  match t with
  | Choice => [Some Str; Some Five; Some False_; Some Undef]
  | Calls => [Some Function_; Some Fn]
  | Tuples => [Some Pair; Some Rest; Some Undef]
  | _ => []
  end.

Definition sample_constraint (t : sample_type) : option sample_type := match t with Param => Some Choice | _ => None end.

Definition sample_assignable (s t : sample_type) : bool :=
  bool_decide (s = t) || match s, t with Any_, _ | Five, Num | False_, Bool_ => true | _, _ => false end.

#[export] Instance sample_type_checker : TypeChecker := {|
  CType := sample_type;
  Signature := Z;
  Flags t f := bool_decide (f ∈ sample_flags t);
  Distributed t := match sample_members t with [] => [Some t] | l => l end;
  Types := sample_members;
  type_Symbol _ := None;
  IsTupleType t := match t with Pair | Rest => true | _ => false end;
  TargetTupleType t :=
    match t with
    | Pair => Some (mkTupleTarget 2 [mkElementFlags false false; mkElementFlags false false])
    | Rest => Some (mkTupleTarget 1 [mkElementFlags false false; mkElementFlags true true])
    | _ => None
    end;
  AsLiteralType t := match t with Five => NumberValue 4617315517961601024 | False_ => BooleanValue false | _ => OtherValue end;
  MinArgumentCount n := n;
  IsOptional _ := true;
  file_Path := sf_path;
  IsSourceFileDefaultLibrary _ path := String.eqb path "/lib.d.ts";
  GetTypeAtLocation _ _ := None;
  GetSignaturesOfType _ t kind := match t, kind with Fn, SignatureKindCall => [2; 1] | _, _ => [] end;
  GetPropertiesOfType _ _ := [];
  GetTypeOfPropertyOfType _ _ _ := None;
  GetConstraintOfTypeParameter _ := sample_constraint;
  getBaseConstraintOfType _ := sample_constraint;
  getReducedApparentType _ t := Some t;
  isUntypedFunctionCall _ t _ := bool_decide (t = Function_);
  isArrayOrTupleType _ t := match t with Pair | Rest => true | _ => false end;
  getTypeArguments _ t := match t with Pair => [Some Fn; Some Str] | Rest => [Some Function_; Some Str] | _ => [] end;
  GetPrimitiveType _ p :=
    match p with
    | StringType => Str | NumberType => Num | BooleanType => Bool_ | BigIntType => Big
    | ESSymbolType => Sym | NullType => Null_ | UndefinedType => Undef
    end;
  IsTypeAssignableTo _ := sample_assignable;
|}.

(** What the values of the sample types are; a string and a number are values
    of [{}]. *)
Definition sample_kinds (t : sample_type) : list js_kind :=
  match t with
  | Str => [JString]
  | Num => [JNumber true; JNumber false]
  | Bool_ | False_ => [JBoolean]
  | Big => [JBigInt]
  | Sym => [JSymbol]
  | Null_ => [JNull]
  | Undef => [JUndefined]
  | Five => [JNumber true]
  | Choice | Param => [JString; JNumber true; JBoolean; JUndefined]
  | Tuples => [JObject; JUndefined]
  | Fn | Function_ | Calls | Pair | Rest => [JObject]
  | Empty => [JString; JNumber true; JNumber false; JBoolean; JBigInt; JSymbol; JObject]
  | Any_ => [JString; JNumber true; JNumber false; JBoolean; JBigInt; JSymbol; JNull; JUndefined; JObject]
  end.

Definition sample_inhabits (t : sample_type) (k : js_kind) : Prop := bool_decide (k ∈ sample_kinds t) = true.

Definition sample_universe : gset sample_type := list_to_set sample_types.

Definition sample_checker : Checker := [].

(** A fact about sample types that evaluates to a contradiction. *)
Ltac absurd_fact H := exfalso; vm_compute in H; discriminate H.

Lemma sample_kinds_ok : kinds_ok sample_checker sample_inhabits.
Proof.
  split.
  - intros [] k H; try absurd_fact H.
  - intros [] c k H E; try absurd_fact H. injection E as <-. done.
  - intros [] k H; try absurd_fact H; intros Hk%bool_decide_eq_true_1; repeat (apply elem_of_cons in Hk as [->|Hk]); try (by apply elem_of_nil in Hk).
    all: try (eexists; split; [left|intros c' [= <-]; reflexivity]; fail).
    all: try (eexists; split; [right; left|intros c' [= <-]; reflexivity]; fail).
    all: try (eexists; split; [right; right; left|intros c' [= <-]; reflexivity]; fail).
    all: eexists; split; [right; right; right; left|intros c' [= <-]; reflexivity].
  - intros [] [] H Hk; first [absurd_fact H|absurd_fact Hk|reflexivity].
  - intros [] [] H Hk; first [absurd_fact H|absurd_fact Hk|by eexists].
  - intros [] [] H1 H2 Hk; first [absurd_fact H1|absurd_fact H2|absurd_fact Hk|reflexivity].
  - intros [] [] H Hk; first [absurd_fact H|absurd_fact Hk|reflexivity].
  - intros [] [] H Hk; first [absurd_fact H|absurd_fact Hk|reflexivity].
  - intros [] [] H Hk; first [absurd_fact H|absurd_fact Hk|reflexivity].
  - intros [] [] H Hk; first [absurd_fact H|absurd_fact Hk|reflexivity].
  - intros [] [] [H|H] Hk; first [absurd_fact H|absurd_fact Hk|reflexivity].
  - intros [] [] Hc H Hk; first [absurd_fact Hc|absurd_fact H|absurd_fact Hk|reflexivity].
  - intros [] [] Hc H Hk; first [absurd_fact Hc|absurd_fact H|absurd_fact Hk|by eexists].
  - intros [] [] Hc H Hk; first [absurd_fact Hc|absurd_fact H|absurd_fact Hk|reflexivity].
  - intros [] [] Hc H Hk; first [absurd_fact Hc|absurd_fact H|absurd_fact Hk|reflexivity].
  - intros [] [] Hc H Hk; first [absurd_fact Hc|absurd_fact H|absurd_fact Hk|reflexivity].
  - intros [] [] Hc H Hk; first [absurd_fact Hc|absurd_fact H|absurd_fact Hk|reflexivity].
  - intros [] [] Hc H Hk; first [absurd_fact Hc|absurd_fact H|absurd_fact Hk|reflexivity].
Qed.

Lemma sample_undefined_ok : undefined_ok sample_checker sample_inhabits.
Proof. intros [] Hk Hf Hc; first [absurd_fact Hk|absurd_fact Hf|specialize (Hc eq_refl); absurd_fact Hc|by left|by right]. Qed.

Lemma sample_in_universe t : t ∈ sample_universe.
Proof. apply elem_of_list_to_set. destruct t; apply (bool_decide_eq_true_1 _); reflexivity. Qed.

Lemma sample_closed : closed_universe sample_checker sample_universe.
Proof. intros t _. split; intros; apply sample_in_universe. Qed.

Lemma sample_size : (size sample_universe < 20)%nat.
Proof. assert (size sample_universe = 19%nat) as ->; [|lia]. apply (size_list_to_set (C := gset sample_type)). refine (bool_decide_unpack _ _). by vm_compute. Qed.

(** ** Witnesses *)

Lemma callability_decides_witness : callabilityOfType (TC := sample_type_checker) sample_checker (Some Calls) = CallabilityUntypedCallable.
Proof.
  destruct (callability_decides (TC := sample_type_checker) sample_checker (Some Calls)) as [_ H]. apply (H [Function_; Fn]).
  - exists Calls. split_and!; [done|done|done|done|]. by repeat constructor.
  - split; [|exists Function_; split; [left|done]]. intros c [->|[->|Hc%elem_of_nil]%elem_of_cons]%elem_of_cons; done.
Defined.

Lemma primitive_domain_sound_witness :
  domain_ok (primitiveValueDomainOfType (TC := sample_type_checker) sample_checker 20 (Some Param)) /\
  admits (primitiveValueDomainOfType (TC := sample_type_checker) sample_checker 20 (Some Param)) (JNumber true) = true /\
  MayBeObject (primitiveValueDomainOfType (TC := sample_type_checker) sample_checker 20 (Some Param)) = false.
Proof.
  destruct (primitive_domain_sound (TC := sample_type_checker) sample_checker sample_inhabits sample_universe 20 Param sample_kinds_ok sample_closed (sample_in_universe Param) sample_size) as (H1 & H2 & _).
  split; [exact H1|]. split; [apply H2; reflexivity|reflexivity].
Defined.

Lemma runtime_domain_presence_witness :
  (forall k, sample_inhabits Param k -> admits_presence (runtimeValueDomainOfType (TC := sample_type_checker) sample_checker 20 (Some Param)) k = true) /\
  runtimeValueDomainOfType (TC := sample_type_checker) sample_checker 20 (Some Param) = mkRuntimeValueDomain false true true false.
Proof.
  split; [|reflexivity].
  exact (proj1 (runtime_domain_presence (TC := sample_type_checker) sample_checker sample_inhabits sample_universe 20 Param sample_kinds_ok sample_undefined_ok sample_closed (sample_in_universe Param) sample_size)).
Defined.

Lemma tuple_shape_meets_witness :
  tuple_shape (TC := sample_type_checker) sample_checker (Some Tuples) = Some (mkTupleShape 1 0 false false CallabilityUntypedCallable 1) /\
  exists s, present_shape (TC := sample_type_checker) sample_checker Tuples s.
Proof.
  assert (tuple_shape (TC := sample_type_checker) sample_checker (Some Tuples) = Some (mkTupleShape 1 0 false false CallabilityUntypedCallable 1)) as H by reflexivity.
  split; [exact H|]. destruct (tuple_shape_meets (TC := sample_type_checker) sample_checker Tuples _ H) as (_ & _ & _ & _ & Hs). exact Hs.
Defined.

Lemma sample_words : literal_words.
Proof. intros [] n H; try discriminate H. injection H as <-. lia. Qed.

Lemma literal_candidates_exact_witness :
  primitiveLiteralCandidatesOfType (TC := sample_type_checker) sample_checker 20 (Some Param) =
    [mkPrimitiveLiteralCandidate PrimitiveLiteralBoolean "" 0 false; mkPrimitiveLiteralCandidate PrimitiveLiteralNumber "" 4617315517961601024 false] /\
  forall c, c ∈ primitiveLiteralCandidatesOfType (TC := sample_type_checker) sample_checker 20 (Some Param) -> literal_of (TC := sample_type_checker) sample_checker Param c.
Proof.
  split; [vm_compute; reflexivity|].
  destruct (literal_candidates_exact (TC := sample_type_checker) sample_checker sample_universe 20 Param sample_words sample_closed (sample_in_universe Param) sample_size) as (_ & _ & H & _).
  intros c Hc. apply (H c Hc).
Defined.

(** The type of [{}] has strings as values, and its domain has objects only. *)
Example structural_type_misses_string :
  sample_inhabits Empty JString /\ admits (primitiveValueDomainOfType (TC := sample_type_checker) sample_checker 20 (Some Empty)) JString = false.
Proof. by split. Qed.

Example empty_object_witness : constructionWitness (TC := sample_type_checker) sample_checker 20 (Some Empty) = ConstructionWitnessEmptyObject.
Proof. reflexivity. Qed.

Example function_is_no_empty_object : constructionWitness (TC := sample_type_checker) sample_checker 20 (Some Fn) = ConstructionWitnessUnknown.
Proof. reflexivity. Qed.
