(* ===== verification/Project.v ===== *)
(** * The project of the compiler adapter (project.go)

    [project] keeps one program of the compiler, the overlay it reads files
    through and what it derived from the program. [Update] builds the next
    program, decides which files the change affects and keeps what the others
    were answered.

    The compiler's construction, the file system below the overlay, the
    working directory and the cancellation of a call are behind [Toolchain];
    the checker's lease and the pool that hands it out are locking and are
    left out, as are durations and traces. *)

From S2P Require Import Prelude GoStd GoText GoSha GoBytes SortedPaths Model Closure Proc Overlay Compiler ImportGraph Identity Exports References.

(** What one emit of declarations did: the texts written, each with whether
    its data had diagnostics or a skipped write, and what it returned, if
    anything: whether the emit was skipped and its number of diagnostics. *)
Record emitted := mkEmitted {
  em_writes : list (string * bool);
  em_result : option (bool * nat);
}.

Class Toolchain (W : Type) `{C : !Compiler} := {
  Config : Type;
  ctx_Err : W -> W * option error;
  Abs : string -> proc W string;
  GetParsedCommandLineOfConfigFile : overlayFS -> string -> W -> W * (option Config * list string);
  config_Errors : Config -> nat;
  NewProgram : overlayFS -> Config -> W -> W * option Program;
  UpdateProgram : Program -> SourceFile -> overlayFS -> W -> W * option Program;
  GetTypeChecker : Program -> W -> W * option Checker;
  Emit : Program -> SourceFile -> W -> W * emitted;
}.

Definition ErrClosed : error := ErrText "type facts project is closed".

Section Project.
Context {W : Type} `{C : !Compiler} `{TC : !Toolchain W} `{MR : !MapRange}.

(** ** Programs *)

(** A query of the world that cannot fail. *)
Definition asks {A} (f : W -> W * A) : proc W A := fun w => let '(w, a) := f w in (w, Ok a).

Definition finishProgram (program : Program) : proc W (Program * Checker) :=
  do! checker := asks (GetTypeChecker program) in
  match checker with
  | None => p_fail (ErrText "create TypeScript checker")
  | Some checker => p_ret (program, checker)
  end.

Definition buildProgram (configPath : string) (fs : overlayFS) : proc W (Program * Checker) :=
  do! parsed := asks (GetParsedCommandLineOfConfigFile fs configPath) in
  match parsed with
  | (_, _ :: _) => p_fail (ErrText "parse tsconfig")
  | (None, []) => p_fail (ErrText "parse tsconfig: no configuration returned")
  | (Some config, []) =>
      if negb (config_Errors config =? 0)%nat then p_fail (ErrText "parse tsconfig: configuration errors")
      else
        do! program := asks (NewProgram fs config) in
        match program with
        | None => p_fail (ErrText "create TypeScript program")
        | Some program => finishProgram program
        end
  end.

Definition updateProgram (oldProgram : Program) (configPath : string) (fs : overlayFS) (changedPath : string) :
    proc W (Program * Checker) :=
  do! e := asks ctx_Err in
  match e with
  | Some e => p_fail e
  | None =>
      match GetSourceFile oldProgram changedPath with
      | None => buildProgram configPath fs
      | Some oldFile =>
          do! program := asks (UpdateProgram oldProgram oldFile fs) in
          match program with
          | None => p_fail (ErrText "update TypeScript program")
          | Some program => finishProgram program
          end
      end
  end.

(** [startByte] and [endByte]. *)
Definition asyncLocationKey : Type := Z * Z.

(** A fact set and its [has] flag are an option. *)
Record fileFactsMemo := mkMemo {
  absPath : string;
  calls : option (list SourceCall);
  bindings : option (list SourceBinding);
  functions : option (list SourceFunction);
  async : option (list AsyncFunctionFact);
  asyncAt : gmap asyncLocationKey (list AsyncFunctionFact);
}.

Record project := mkProject {
  configPath : string;
  pr_fs : overlayFS;
  versions : gmap string Z;
  pr_program : Program;
  pr_checker : option Checker;
  pr_closed : bool;
  pr_ids : identities;
  pr_index : referenceIndex;
  sourceFactsMemo : gmap string fileFactsMemo;
  declarationShapes : gmap string declarationShape;
  pr_graph : importGraph;
}.

(** The project and the world, as a procedure sees them. *)
Definition state : Type := W * project.

Definition set_checker (p : project) (checker : option Checker) : project :=
  mkProject (configPath p) (pr_fs p) (versions p) (pr_program p) checker (pr_closed p) (pr_ids p) (pr_index p)
    (sourceFactsMemo p) (declarationShapes p) (pr_graph p).

(** A call into the world. *)
Definition in_world {A} (f : W -> W * A) : proc state A := fun '(w, p) => let '(w, a) := f w in ((w, p), Ok a).
Definition with_world {A} (m : proc W A) : proc state A := fun '(w, p) => let '(w, r) := m w in ((w, p), r).
Definition get_project : proc state project := fun '(w, p) => ((w, p), Ok p).
Definition put_project (p : project) : proc state unit := fun '(w, _) => ((w, p), Ok tt).

Definition ctx_check : proc state unit :=
  do! e := in_world ctx_Err in match e with Some e => p_fail e | None => p_ret tt end.

Definition when_open : proc state unit :=
  do! p := get_project in if pr_closed p then p_fail ErrClosed else p_ret tt.

Definition ensureCheckerLocked : proc state unit :=
  do! p := get_project in
  match pr_checker p with
  | Some _ => p_ret tt
  | None =>
      do! checker := in_world (GetTypeChecker (pr_program p)) in
      match checker with
      | None => p_fail (ErrText "create TypeScript checker")
      | Some checker => put_project (set_checker p (Some checker))
      end
  end.

(** ** The shape of a module *)

Definition hasGlobalOrModuleAugmentation (sourceFile : SourceFile) : bool :=
  existsb (fun node => IsExternalModuleAugmentation node || IsGlobalScopeAugmentation node) (file_nodes sourceFile).

Definition resolvedImportPaths (program : Program) (sourceFile : SourceFile) : option (list string) :=
  sort_Strings <$> mapM (fun specifier => Clean <$> GetResolvedModuleFromModuleSpecifier program sourceFile specifier) (Imports sourceFile).

(** [WriteFile]: the first text, and whether anything was wrong. *)
Definition write_file (st : string * bool) (write : string * bool) : string * bool :=
  let '(declarationText, writeDiagnostics) := st in
  let '(text, troubled) := write in
  let writeDiagnostics := writeDiagnostics || troubled in
  if String.eqb declarationText "" then (text, writeDiagnostics) else (declarationText, true).

(** The shape, if the emit proves one, and the checker that is left. *)
Definition declarationShapeFor (program : Program) (checker : option Checker) (path : string) :
    proc state (option declarationShape * option Checker) :=
  match GetSourceFile program path with
  | None => p_ret (None, checker)
  | Some sourceFile =>
      if negb (IsExternalModule sourceFile) || hasGlobalOrModuleAugmentation sourceFile then p_ret (None, checker)
      else
        do! emit := in_world (Emit program sourceFile) in
        let '(declarationText, writeDiagnostics) := foldl write_file ("", false) (em_writes emit) in
        do! checker := in_world (GetTypeChecker program) in
        match checker with
        | None => p_ret (None, None)
        | Some checker =>
            do! cancelled := in_world ctx_Err in
            let failed :=
              match em_result emit with
              | None => true
              | Some (EmitSkipped, diagnostics) => EmitSkipped || negb (diagnostics =? 0)%nat
              end in
            match cancelled with
            | Some _ => p_ret (None, Some checker)
            | None =>
                if failed || writeDiagnostics || String.eqb declarationText "" then p_ret (None, Some checker)
                else
                  match exportedDurableSymbols checker sourceFile, resolvedImportPaths program sourceFile with
                  | Some exports, Some imports =>
                      p_ret (Some (mkShape (Sha256.Sum256 (string_bytes declarationText)) exports imports), Some checker)
                  | _, _ => p_ret (None, Some checker)
                  end
            end
        end
  end.

(** ** The changes of an update *)

Record candidate := mkCandidate {
  cand_fs : overlayFS;
  cand_versions : gmap string Z;
  changedPaths : list string;
  incrementalPath : string;
  incremental : bool;
}.

Definition take_change (p : project) (change : FileChange) (c : candidate) : proc state candidate := fun st =>
  let '(st, absolutePath) := with_world (Abs (fc_Path change)) st in
  match absolutePath with
  | Err e => (st, Err (ErrWrap "resolve changed path" e))
  | Ok absolutePath =>
      if match cand_versions c !! absolutePath with Some version => fc_Version change <=? version | None => false end
      then (st, Ok c)
      else
        let single := negb (negb (String.eqb (incrementalPath c) "") || fc_Deleted change || String.eqb absolutePath (configPath p)) in
        (st, Ok (mkCandidate
          (if fc_Deleted change then delete_path (cand_fs c) absolutePath
           else set (cand_fs c) absolutePath (bytes_string (fc_Source change)))
          (<[absolutePath := fc_Version change]> (cand_versions c))
          (changedPaths c ++ [absolutePath])
          (if single then absolutePath else incrementalPath c)
          (incremental c && single)))
  end.

(** [incremental && incrementalPath != ""]. *)
Definition one_path (c : candidate) : bool := incremental c && negb (String.eqb (incrementalPath c) "").

(** ** What an accepted update keeps *)

Definition retained_file (program : Program) (affected : list string) (path : string) : bool :=
  bool_decide (path ∉ affected) && in_program program path.

(** The files the change affects. *)
Definition affected_files (semanticCutoff patched : bool) (changed : list string) (oldProgram program : Program)
    (oldReverse reverse : gmap string (gset string)) : list string :=
  sort_Strings
    (if semanticCutoff then changed
     else if globalScopeChange changed [oldProgram; program] then everySourcePath [oldProgram; program]
     else if patched then affectedFromReverseDeps [reverse] changed
     else affectedFromReverseDeps [oldReverse; reverse] changed).

(** What [Update] decided before it replaces the state. *)
Record decision := mkDecision {
  d_program : Program;
  d_checker : option Checker;
  semanticCutoff : bool;
  currentExports : option (gmap Symbol preservedExportIdentity);
  newShape : option declarationShape;
}.

(** The state after an accepted update, and the files it affects. *)
Definition accept (p : project) (c : candidate) (d : decision) : project * list string :=
  let program := d_program d in
  let exported :=
    match one_path c, currentExports d with
    | true, Some exports => replace_exports (pr_ids p) (incrementalPath c) exports
    | _, _ => match d_checker d with Some checker => collected_exports program checker | None => (∅, ∅) end
    end in
  let ids := next_generation (pr_ids p) exported (default ∅ (currentExports d)) in
  let patched := one_path c && patchImportGraph (pr_graph p) program (incrementalPath c) in
  let graph := if patched then pr_graph p else rebuildImportGraph program in
  let affected := affected_files (semanticCutoff d) patched (changedPaths c) (pr_program p) program (reverseDeps (pr_graph p)) (reverseDeps graph) in
  let retained := retained_file program affected in
  let memo := if one_path c then filter (fun kv => retained (absPath kv.2) = true) (sourceFactsMemo p) else ∅ in
  let index := if one_path c then invalidate program affected retained (pr_index p) else reset (pr_index p) in
  let ids := if one_path c then ids else sweepDurableIdentities program ids in
  let shapes :=
    if one_path c then
      let kept := foldl (fun shapes path => delete (Clean path) shapes) (declarationShapes p) affected in
      match newShape d with Some shape => <[incrementalPath c := shape]> kept | None => kept end
    else ∅ in
  (mkProject (configPath p) (cand_fs c) (cand_versions c) program (d_checker d) (pr_closed p) ids index memo shapes graph, affected).

(** ** The decision *)

Definition old_shape (c : candidate) (noImporters : bool) : proc state (option declarationShape) :=
  do! p := get_project in
  if one_path c && negb noImporters then
    do! shape :=
      match declarationShapes p !! incrementalPath c with
      | Some shape => p_ret (Some shape)
      | None =>
          do! answer := declarationShapeFor (pr_program p) (pr_checker p) (incrementalPath c) in
          put_project (set_checker p (snd answer));!
          p_ret (fst answer)
      end in
    ctx_check;! p_ret shape
  else p_ret None.

(** The exports of a module nobody imports. *)
Definition leaf_exports (program : Program) (checker : Checker) (path : string) : option (gmap Symbol preservedExportIdentity) :=
  match GetSourceFile program path with
  | None => None
  | Some sourceFile =>
      if IsExternalModule sourceFile && negb (hasGlobalOrModuleAugmentation sourceFile) then
        (fun exports => declarationExportIdentities (mkShape [] exports [])) <$> exportedDurableSymbols checker sourceFile
      else None
  end.

Definition decide_update (c : candidate) : proc state decision :=
  do! p := get_project in
  let noImporters := one_path c && bool_decide (importers_of (reverseDeps (pr_graph p)) (incrementalPath c) = ∅) in
  do! oldShape := old_shape c noImporters in
  do! built :=
    with_world (if one_path c then updateProgram (pr_program p) (configPath p) (cand_fs c) (incrementalPath c)
                else buildProgram (configPath p) (cand_fs c)) in
  let '(program, checker) := built in
  let leaf := if noImporters then leaf_exports program checker (incrementalPath c) else None in
  match oldShape with
  | None => p_ret (mkDecision program (Some checker) (match leaf with Some _ => true | None => false end) leaf None)
  | Some oldShape =>
      do! answer := declarationShapeFor program (Some checker) (incrementalPath c) in
      let '(newShape, checker) := answer in
      ctx_check;!
      p_ret (match newShape with
             | None => mkDecision program checker (match leaf with Some _ => true | None => false end) leaf None
             | Some shape =>
                 mkDecision program checker (match preserveExportIdentities oldShape shape with Some _ => true | None => false end)
                   (Some (declarationExportIdentities shape)) (Some shape)
             end)
  end.

Definition Update (changes : list FileChange) : proc state AffectedSet :=
  ctx_check;! when_open;! ensureCheckerLocked;!
  do! p := get_project in
  do! c := p_fold (take_change p) changes (mkCandidate (clone (pr_fs p)) (versions p) [] "" true) in
  match changedPaths c with
  | [] => p_ret (mkAffectedSet [])
  | _ =>
      do! d := decide_update c in
      do! p := get_project in
      let '(p, affected) := accept p c d in
      put_project p;! p_ret (mkAffectedSet affected)
  end.

(** ** Releasing and closing *)

Definition ReleaseAnalysisState (p : project) : project :=
  match pr_closed p, pr_checker p with
  | true, _ | _, None => p
  | false, Some _ =>
      mkProject (configPath p) (pr_fs p) (versions p) (pr_program p) None (pr_closed p) (release_identities (pr_ids p))
        (release_index (pr_index p)) (sourceFactsMemo p) (declarationShapes p) (pr_graph p)
  end.

Definition Close : proc state unit :=
  when_open;!
  do! p := get_project in
  put_project (mkProject (configPath p) (pr_fs p) (versions p) (pr_program p) None true
    (mkIdentities (generation (pr_ids p)) (nextSymbol (pr_ids p)) ∅ ∅ ∅ ∅ ∅)
    (reset (pr_index p)) ∅ ∅ (pr_graph p)).

(** ** Opening *)

Definition backslash : Ascii.ascii := Ascii.ascii_of_nat 92.

Fixpoint ReplaceAll_backslash (path : string) : string :=
  match path with
  | EmptyString => EmptyString
  | String c path => String (if Ascii.eqb c backslash then slash else c) (ReplaceAll_backslash path)
  end.

Definition normalizeTypeScriptPath (path : string) : string :=
  let path := ReplaceAll_backslash path in
  if String.prefix "//?/UNC/" path then "//" +:+ TrimPrefix path "//?/UNC/" else TrimPrefix path "//?/".

Definition OpenProject (path : string) : proc W project :=
  do! absConfigPath := (fun w => let '(w, r) := Abs path w in (w, wrap_err "resolve tsconfig path" r)) in
  let absConfigPath := normalizeTypeScriptPath absConfigPath in
  do! built := buildProgram absConfigPath newOverlayFS in
  let '(program, checker) := built in
  let exported := collected_exports program checker in
  p_ret (mkProject absConfigPath newOverlayFS ∅ program (Some checker) false
    (mkIdentities 1 0 ∅ ∅ ∅ (fst exported) (snd exported)) empty_index ∅ ∅ (rebuildImportGraph program)).
End Project.
