(* ===== verification/ProjectTheorems.v ===== *)
(** * What an update of the project keeps

    An accepted update affects what reaches a changed file over the retained
    import graphs, unless the emitted declarations prove that it need not, and
    keeps facts of other files only; a refused one changes nothing
    ([update_affects_importers]). The graph stays that of the program, and with
    it the answer is what imports a changed file, as long as an edit of one path
    leaves the other files alone ([content_edit]); in every project that
    opening, releasing, asking and such updates reach, it is, and identities
    tell symbols apart, if those of the exports of edited files do
    ([project_invariant]). The compiler promises neither: [SampleProject] has an
    update that leaves the graph stale. *)

From S2P Require Import Prelude GoStd GoText GoSha GoBytes SortedPaths Model Closure Proc Overlay Compiler ImportGraph Identity Exports References Project.

Section ProjectFacts.
Context {W : Type} `{C : !Compiler} `{TC : !Toolchain W} `{MR : !MapRange}.

(** ** What the compiler and the operating system document *)

(** A checker that the compiler hands out. *)
Definition is_checker (checker : Checker) : Prop := exists program w w', GetTypeChecker program w = (w', Some checker).

Definition module_exports (checker : Checker) (f : SourceFile) (exports : list declarationExport) : Prop :=
  is_checker checker /\ exportedDurableSymbols checker f = Some exports.

Record toolchain_ok : Prop := {
  abs_clean : forall path w w' q, Abs path w = (w', Ok q) -> is_rooted q = true /\ Clean q = q;
  new_program_ok : forall fs config w w' program, NewProgram fs config w = (w', Some program) -> program_ok program;
  update_program_ok : forall old f fs w w' program, UpdateProgram old f fs w = (w', Some program) -> program_ok old ->
    program_ok program;
}.

(** ** The decision of an update *)

Definition same_but_checker (p p' : project) : Prop := p' = set_checker p (pr_checker p').

Lemma same_refl p : same_but_checker p p.
Proof. by destruct p. Qed.

Lemma same_checker p checker : same_but_checker p (set_checker p checker).
Proof. done. Qed.

Lemma same_trans p q r : same_but_checker p q -> same_but_checker q r -> same_but_checker p r.
Proof. unfold same_but_checker. intros -> ->. done. Qed.

(** How the program of a decision came about. *)
Definition built_from (p : project) (c : candidate) (program : Program) : Prop :=
  (exists f fs w w', one_path c = true /\ GetSourceFile (pr_program p) (incrementalPath c) = Some f /\
     UpdateProgram (pr_program p) f fs w = (w', Some program)) \/
  ((one_path c = true -> GetSourceFile (pr_program p) (incrementalPath c) = None) /\
   exists fs config w w', NewProgram fs config w = (w', Some program)).

(** The exports of the file of a path. *)
Definition exports_of (program : Program) (path : string) (m : gmap Symbol preservedExportIdentity) : Prop :=
  exists checker f exports, GetSourceFile program path = Some f /\ module_exports checker f exports /\
    m = declarationExportIdentities (mkShape [] exports []).

(** A shape that an emit of the program's declarations of the file proves. *)
Definition shape_emitted (program : Program) (path : string) (shape : declarationShape) : Prop :=
  exists f checker w text, GetSourceFile program path = Some f /\
    foldl write_file ("", false) (em_writes (snd (Emit program f w))) = (text, false) /\
    signature shape = Sha256.Sum256 (string_bytes text) /\ module_exports checker f (exports shape) /\
    resolvedImportPaths program f = Some (shape_imports shape).

(** Nobody imports the file, or its declarations are what they were. *)
Definition same_declarations (p : project) (program : Program) (path : string) : Prop :=
  importers_of (reverseDeps (pr_graph p)) path = ∅ \/
  exists old new, (declarationShapes p !! path = Some old \/ shape_emitted (pr_program p) path old) /\
    shape_emitted program path new /\ preserveExportIdentities old new <> None.

Record decided (p : project) (c : candidate) (d : decision) : Prop := {
  decided_program : built_from p c (d_program d);
  decided_cutoff : semanticCutoff d = true -> same_declarations p (d_program d) (incrementalPath c);
  decided_exports : when_some (exports_of (d_program d) (incrementalPath c)) (currentExports d);
  decided_rebuild : one_path c = false -> currentExports d = None /\ semanticCutoff d = false;
}.

Definition error_state (p : project) (st : W * project) : Prop := same_but_checker p (snd st).

Lemma wp_in_world {A} E (f : W -> W * A) Q (st : W * project) :
  (forall w a, f (fst st) = (w, a) -> Q a (w, snd st)) -> wp E (in_world f) Q st.
Proof. destruct st as [w p]. unfold wp, in_world. simpl. destruct (f w) as [w' a] eqn:Ef. intros H. by apply H. Qed.

Lemma wp_with_world {A} E (m : proc W A) Q (st : W * project) :
  (forall w r, m (fst st) = (w, r) -> match r with Ok a => Q a (w, snd st) | Err _ => E (w, snd st) end) -> wp E (with_world m) Q st.
Proof. destruct st as [w p]. unfold wp, with_world. simpl. destruct (m w) as [w' r] eqn:Em. intros H. by apply H. Qed.

Lemma wp_get_project E Q (st : W * project) : Q (snd st) st -> wp E get_project Q st.
Proof. by destruct st. Qed.

Lemma wp_put_project E Q p (st : W * project) : Q tt (fst st, p) -> wp E (put_project p) Q st.
Proof. by destruct st. Qed.

Lemma wp_ctx_check (E : W * project -> Prop) (Q : unit -> W * project -> Prop) st :
  (forall w, E (w, snd st)) -> (forall w, Q tt (w, snd st)) -> wp E ctx_check Q st.
Proof.
  intros HE HQ. apply wp_bind, wp_in_world. intros w [e|] _; [by apply wp_fail|by apply wp_ret].
Qed.

Lemma wp_ensureChecker p st : same_but_checker p (snd st) ->
  wp (error_state p) ensureCheckerLocked (fun _ st => same_but_checker p (snd st)) st.
Proof.
  intros Hp. apply wp_bind, wp_get_project. destruct (pr_checker (snd st)); [by apply wp_ret|].
  apply wp_bind, wp_in_world. intros w [checker|] _; [|by apply wp_fail]. apply wp_put_project. simpl.
  eapply same_trans; [done|apply same_checker].
Qed.

(** A shape is that of a module of the program, and leaves the project alone. *)
Lemma wp_declarationShapeFor E program checker path (Q : option declarationShape * option Checker -> W * project -> Prop) st :
  (forall w shape checker, when_some (shape_emitted program path) shape -> Q (shape, checker) (w, snd st)) ->
  wp E (declarationShapeFor program checker path) Q st.
Proof.
  intros HQ. unfold declarationShapeFor. destruct st as [w0 p]. simpl in HQ.
  assert (forall w c, Q (None, c) (w, p)) as HN by (intros; by apply HQ).
  destruct (GetSourceFile program path) as [f|] eqn:Ef; [|by apply wp_ret].
  destruct (_ || _); [by apply wp_ret|]. apply wp_bind, wp_in_world. intros w emit Hemit. simpl in Hemit |- *.
  destruct (foldl write_file _ _) as [text troubled] eqn:Ew. apply wp_bind, wp_in_world. intros w1 [c|] Hc; [|by apply wp_ret].
  apply wp_bind, wp_in_world. intros w2 [e|] _; [by apply wp_ret|]. simpl.
  destruct (_ || _ || _) eqn:Et; [by apply wp_ret|]. apply orb_false_elim in Et as [[_ ->]%orb_false_elim _].
  destruct (exportedDurableSymbols c f) as [es|] eqn:Ee; [|by apply wp_ret].
  destruct (resolvedImportPaths program f) eqn:Ei; [|by apply wp_ret]. apply wp_ret, HQ. intros s [= <-].
  exists f, c, w0, text. rewrite Hemit. split_and!; [done..| |done]. split; [|done]. by exists program, w, w1.
Qed.

Lemma wp_old_shape p c noImporters st : same_but_checker p (snd st) ->
  wp (error_state p) (old_shape c noImporters)
    (fun shape st => same_but_checker p (snd st) /\ (one_path c = false -> shape = None) /\
      when_some (fun shape => declarationShapes p !! incrementalPath c = Some shape \/
        shape_emitted (pr_program p) (incrementalPath c) shape) shape) st.
Proof.
  intros Hp. apply wp_bind, wp_get_project. destruct (one_path c && negb noImporters) eqn:E.
  2: { by apply wp_ret. }
  apply andb_prop in E as [E _]. apply wp_bind. rewrite Hp. cbn [declarationShapes set_checker pr_program].
  apply wp_mono with (E := error_state p) (Q := fun shape st => same_but_checker p (snd st) /\
    when_some (fun shape => declarationShapes p !! incrementalPath c = Some shape \/
      shape_emitted (pr_program p) (incrementalPath c) shape) shape); [done| |].
  - intros shape st' [Hst' Hs]. apply wp_bind, wp_ctx_check; [done|]. intros w. apply wp_ret. split; [done|]. by rewrite E.
  - destruct (declarationShapes p !! incrementalPath c) as [shape|].
    { apply wp_ret. split; [done|]. intros x [= <-]. by left. }
    apply wp_bind, wp_declarationShapeFor. intros w shape checker Hs. apply wp_bind, wp_put_project, wp_ret. simpl.
    split; [by eapply same_trans; [|apply same_checker]|]. intros x Hx. right. by apply Hs.
Qed.

(** What [buildProgram] and [updateProgram] return was made by the compiler. *)
Lemma buildProgram_new path fs w w' program checker :
  buildProgram path fs w = (w', Ok (program, checker)) ->
  is_checker checker /\ exists fs config w w', NewProgram fs config w = (w', Some program).
Proof.
  unfold buildProgram, p_bind, asks. destruct (GetParsedCommandLineOfConfigFile fs path w) as [w1 [[config|] [|? ?]]]; try done.
  destruct (negb _); [done|]. destruct (NewProgram fs config w1) as [w2 [program'|]] eqn:En; [|done].
  unfold finishProgram, p_bind, asks. destruct (GetTypeChecker program' w2) as [w3 [checker'|]] eqn:Eg; [|done].
  unfold p_ret. intros H. simplify_eq/=. split; [by exists program, w2, w'|by exists fs, config, w1, w2].
Qed.

Lemma updateProgram_built old path fs changed w w' program checker :
  updateProgram old path fs changed w = (w', Ok (program, checker)) ->
  is_checker checker /\
  ((exists f w w', GetSourceFile old changed = Some f /\ UpdateProgram old f fs w = (w', Some program)) \/
   (GetSourceFile old changed = None /\ exists fs config w w', NewProgram fs config w = (w', Some program))).
Proof.
  unfold updateProgram, p_bind, asks. destruct (ctx_Err w) as [w1 [e|]]; [done|].
  destruct (GetSourceFile old changed) as [f|] eqn:Ef; [|intros [Hc Hn]%buildProgram_new; split; [done|by right]].
  destruct (UpdateProgram old f fs w1) as [w2 [program'|]] eqn:Eu; [|done].
  unfold finishProgram, p_bind, asks. destruct (GetTypeChecker program' w2) as [w3 [checker'|]] eqn:Eg; [|done].
  unfold p_ret. intros H. simplify_eq/=. split; [by exists program, w2, w'|left; by exists f, w1, w2].
Qed.

Lemma leaf_exports_of program checker path : is_checker checker -> when_some (exports_of program path) (leaf_exports program checker path).
Proof.
  intros Hc m. unfold leaf_exports. destruct (GetSourceFile program path) as [f|] eqn:Ef; [|done]. destruct (_ && _); [|done].
  destruct (exportedDurableSymbols checker f) as [es|] eqn:E; [|done]. intros [= <-]. by exists checker, f, es.
Qed.

Lemma wp_decide_update p c st : same_but_checker p (snd st) ->
  wp (error_state p) (decide_update c) (fun d st => same_but_checker p (snd st) /\ decided p c d) st.
Proof.
  intros Hp. apply wp_bind, wp_get_project. cbv zeta.
  assert (pr_program (snd st) = pr_program p /\ pr_graph (snd st) = pr_graph p) as [Eprog Egraph] by (by rewrite Hp).
  set (noImporters := one_path c && _). assert (one_path c = false -> noImporters = false) as Hno by (unfold noImporters; by intros ->).
  apply wp_bind. eapply wp_mono; [done| |by apply wp_old_shape]. intros oldShape st1 (Hst1 & Hshape & Hold).
  apply wp_bind, wp_with_world. intros w [[program checker]|e] Hb; [|done]. simpl.
  assert (is_checker checker /\ built_from p c program) as [Hchecker Hbuilt].
  { rewrite Eprog in Hb. destruct (one_path c) eqn:Eo.
    - apply updateProgram_built in Hb as [Hch [(f & w1 & w2 & H1 & H2)|[H1 H2]]]; (split; [done|]);
        [left; by exists f, (cand_fs c), w1, w2|by right].
    - apply buildProgram_new in Hb as [Hch Hb]. split; [done|]. right. split; [congruence|done]. }
  set (leaf := if noImporters then _ else _).
  assert (when_some (exports_of program (incrementalPath c)) leaf) as Hleaf by (unfold leaf; destruct noImporters; [by apply leaf_exports_of|done]).
  assert (match leaf with Some _ => true | None => false end = true -> same_declarations p program (incrementalPath c)) as Hcut.
  { unfold leaf, noImporters. intros Hl. left. destruct (one_path c && _) eqn:En; [|done].
    apply andb_prop in En as [_ En%bool_decide_eq_true]. by rewrite <- Egraph. }
  assert (one_path c = false -> leaf = None) as Hleaf' by (unfold leaf; intros Hc; by rewrite (Hno Hc)).
  destruct oldShape as [oldShape|].
  - apply wp_bind, wp_declarationShapeFor. intros w1 shape checker1 Hs. simpl. apply wp_bind, wp_ctx_check; [done|]. intros w2.
    apply wp_ret. split; [done|]. destruct shape as [shape|].
    + destruct (Hs _ eq_refl) as (f & ch & w3 & text & Hf & Hw & Hsig & Hm & Hi).
      split; simpl; [done| | |by intros Hc%Hshape].
      * destruct (preserveExportIdentities oldShape shape) eqn:Ep; [|done]. intros _. right.
        exists oldShape, shape. split; [by apply Hold|]. split; [by apply Hs|]. by rewrite Ep.
      * intros m [= <-]. by exists ch, f, (exports shape).
    + split; simpl; [done|done|done|]. intros Hc. by rewrite (Hleaf' Hc).
  - apply wp_ret. split; [done|]. split; simpl; [done|done|done|]. intros Hc. by rewrite (Hleaf' Hc).
Qed.

(** ** The changes that count *)

Definition os_clean (q : string) : Prop := is_rooted q = true /\ Clean q = q.

(** The path of a change. *)
Definition changes_path (change : FileChange) (q : string) : Prop := exists w w', Abs (fc_Path change) w = (w', Ok q).

(** A change that sets the source of a path. *)
Definition sets (changes : list FileChange) (q : string) : Prop :=
  exists change, change ∈ changes /\ changes_path change q /\ fc_Deleted change = false.

(** What taking changes comes to: the paths that count are paths of changes,
    and every change is at most as new as the version that is known of its
    path afterwards, which was known before unless the path counts. *)
Record taken (old new : gmap string Z) (changes : list FileChange) (changed : list string) : Prop := {
  taken_from : forall q, q ∈ changed -> exists change, change ∈ changes /\ changes_path change q;
  taken_all : forall change, change ∈ changes -> exists q v, changes_path change q /\ new !! q = Some v /\ fc_Version change <= v;
  taken_known : forall q v, new !! q = Some v -> q ∈ changed \/ old !! q = Some v;
  taken_newer : forall q v, old !! q = Some v -> exists v', new !! q = Some v' /\ v <= v';
}.

Record candidate_ok (p : project) (changes : list FileChange) (c : candidate) : Prop := {
  cand_clean : Forall os_clean (changedPaths c);
  cand_taken : taken (versions p) (cand_versions c) changes (changedPaths c);
  cand_single : incremental c = true ->
    (incrementalPath c = "" /\ changedPaths c = []) \/ (incrementalPath c <> "" /\ changedPaths c = [incrementalPath c]);
  cand_sets : incrementalPath c <> "" -> sets changes (incrementalPath c);
}.

(** A change of a known version adds nothing. *)
Lemma taken_stale old new changes changed change q v : taken old new changes changed ->
  changes_path change q -> new !! q = Some v -> fc_Version change <= v -> taken old new (changes ++ [change]) changed.
Proof.
  intros [H1 H2 H3 H4] Hq Hv Hle. split; [|  |done|done].
  - intros r (ch & Hch & Hr)%H1. exists ch. split; [set_solver|done].
  - intros ch [Hch| ->%list_elem_of_singleton]%elem_of_app; [by apply H2|eauto].
Qed.

(** A newer one makes its path count. *)
Lemma taken_fresh old new changes changed change q : taken old new changes changed ->
  changes_path change q -> (forall v, new !! q = Some v -> v <= fc_Version change) ->
  taken old (<[q := fc_Version change]> new) (changes ++ [change]) (changed ++ [q]).
Proof.
  intros [H1 H2 H3 H4] Hq Hnew.
  assert (forall r v, new !! r = Some v -> exists v', <[q := fc_Version change]> new !! r = Some v' /\ v <= v') as Hup.
  { intros r v Hr. destruct (decide (r = q)) as [->|]; [rewrite lookup_insert_eq; eauto|].
    rewrite lookup_insert_ne by done. exists v. split; [done|lia]. }
  split.
  - intros r [Hr| ->%list_elem_of_singleton]%elem_of_app; [|exists change; set_solver].
    destruct (H1 r Hr) as (ch & Hch & Hp). exists ch. split; [set_solver|done].
  - intros ch [Hch| ->%list_elem_of_singleton]%elem_of_app.
    + destruct (H2 ch Hch) as (r & v & Hr & Hv & Hle). destruct (Hup r v Hv) as (v' & Hv' & Hle').
      exists r, v'. split_and!; [done|done|lia].
    + exists q, (fc_Version change). rewrite lookup_insert_eq. split_and!; [done|done|lia].
  - intros r v. destruct (decide (r = q)) as [->|]; [set_solver|]. rewrite lookup_insert_ne by done. set_solver.
  - intros r v (v' & Hv' & Hle)%H4. destruct (Hup r v' Hv') as (v'' & Hv'' & Hle'). exists v''. split; [done|lia].
Qed.


Lemma sets_app changes change q : sets changes q -> sets (changes ++ [change]) q.
Proof. intros (ch & Hch & H). exists ch. split; [set_solver|done]. Qed.

Lemma take_change_ok p changes change c (st : W * project) : toolchain_ok -> candidate_ok p changes c ->
  wp (fun st' => snd st' = snd st) (take_change p change c)
    (fun c' st' => snd st' = snd st /\ candidate_ok p (changes ++ [change]) c') st.
Proof.
  intros Htc [H1 H2 H3 H4]. destruct st as [w pr]. unfold wp, take_change, with_world. simpl.
  destruct (Abs (fc_Path change) w) as [w' [q|e]] eqn:Ea; [|done].
  assert (changes_path change q) as Hpath by (by exists w, w').
  destruct (match cand_versions c !! q with Some _ => _ | None => _ end) eqn:Ev.
  { split; [done|]. destruct (cand_versions c !! q) as [v|] eqn:Eq; [|done]. apply Z.leb_le in Ev.
    split; [done|by eapply taken_stale|done|]. intros Hi. by apply sets_app, H4. }
  split; [done|]. destruct (abs_clean Htc _ _ _ _ Ea) as [Hr Hc]. assert (q <> "") as Hq by (by intros ->).
  split; simpl.
  - apply Forall_app. split; [done|]. by apply Forall_singleton.
  - apply taken_fresh; [done..|]. intros v Hv. rewrite Hv in Ev. apply Z.leb_gt in Ev. lia.
  - intros Hi. apply andb_prop in Hi as [Hi Hs]. rewrite Hs. right. split; [done|].
    destruct (H3 Hi) as [[Hp Hch]|[Hp Hch]]; [by rewrite Hch|]. exfalso.
    destruct (String.eqb_spec (incrementalPath c) ""); done.
  - destruct (negb _) eqn:Es; [|intros Hi; by apply sets_app, H4]. intros _. apply negb_true_iff, orb_false_elim in Es as [Es _].
    apply orb_false_elim in Es as [_ Es]. exists change. split; [set_solver|done].
Qed.

Lemma take_changes_ok p changes c0 (st : W * project) : toolchain_ok -> candidate_ok p [] c0 ->
  wp (fun st' => snd st' = snd st) (p_fold (take_change p) changes c0) (fun c st' => snd st' = snd st /\ candidate_ok p changes c) st.
Proof.
  intros Htc H0. apply (wp_fold _ _ (fun before _ c st' => snd st' = snd st /\ candidate_ok p before c)); [| |].
  - intros before change rest c st' (Hst & Hc). eapply wp_mono; [| |apply (take_change_ok p before); done].
    + intros st'' E. simpl in E. congruence.
    + intros c' st'' [E Hc']. split; [congruence|done].
  - done.
  - done.
Qed.

Lemma first_candidate_ok p fs : candidate_ok p [] (mkCandidate fs (versions p) [] "" true).
Proof.
  split; simpl; [constructor| |by left|done]. split; [set_solver|set_solver|by right|].
  intros q v Hv. exists v. split; [done|lia].
Qed.

Lemma one_path_single p changes c : candidate_ok p changes c -> one_path c = true ->
  changedPaths c = [incrementalPath c] /\ os_clean (incrementalPath c) /\ sets changes (incrementalPath c).
Proof.
  intros [H1 _ H3 H4] Ho. unfold one_path in Ho. apply andb_prop in Ho as [Hi Hp].
  apply negb_true_iff, String.eqb_neq in Hp. destruct (H3 Hi) as [[? _]|[_ Hc]]; [done|]. split; [done|].
  rewrite Hc in H1. apply Forall_cons in H1 as [H1 _]. split; [done|by apply H4].
Qed.

(** ** The accepted state *)

Record project_ok (p : project) : Prop := {
  ok_program : program_ok (pr_program p);
  ok_graph : graph_of (pr_program p) (pr_graph p);
  ok_ids : ids_ok (pr_ids p);
}.

(** An update of which the source of one path is all that counted. *)
Definition sole_change (p p' : project) (changes : list FileChange) (q : string) : Prop :=
  taken (versions p) (versions p') changes [q] /\ sets changes q.

(** What the retained state rests on when one path is edited: the edit leaves
    the other files of the program alone ([content_edit], the premise of
    [patchImportGraph]), and no two exports of the edited file share an
    identity. *)
Record plain_update (p : project) (changes : list FileChange) (p' : project) : Prop := {
  plain_content : forall q, sole_change p p' changes q -> content_edit (pr_program p) (pr_program p') q;
  plain_exports : forall q f checker exports, sole_change p p' changes q -> GetSourceFile (pr_program p') q = Some f ->
    module_exports checker f exports -> tells_apart (declarationExportIdentities (mkShape [] exports []));
}.

Lemma one_path_sole p (changes : list FileChange) c d : candidate_ok p changes c -> one_path c = true ->
  sole_change p (fst (accept p c d)) changes (incrementalPath c).
Proof.
  intros Hc Ho. destruct (one_path_single p changes c Hc Ho) as (Hch & _ & Hset). split; [|done].
  rewrite <- Hch. exact (cand_taken _ _ _ Hc).
Qed.

Lemma accept_program p c d : toolchain_ok -> program_ok (pr_program p) -> decided p c d ->
  program_ok (pr_program (fst (accept p c d))).
Proof.
  intros Htc Hprog [Hbuilt _ _ _]. unfold accept. simpl.
  destruct Hbuilt as [(f & fs & w & w' & _ & _ & Hu)|[_ (fs & config & w & w' & Hn)]];
    [by eapply (update_program_ok Htc)|by eapply (new_program_ok Htc)].
Qed.

Lemma accept_graph p changes c d : toolchain_ok -> candidate_ok p changes c -> decided p c d ->
  program_ok (pr_program p) -> graph_of (pr_program p) (pr_graph p) ->
  (forall q, changedPaths c = [q] -> sets changes q -> content_edit (pr_program p) (pr_program (fst (accept p c d))) q) ->
  graph_of (pr_program (fst (accept p c d))) (pr_graph (fst (accept p c d))).
Proof.
  intros Htc Hc Hd Hprog Hgraph Hedit. pose proof (accept_program p c d Htc Hprog Hd) as Hnew. revert Hnew Hedit. unfold accept. simpl.
  intros Hnew Hedit. destruct (one_path c && _) eqn:E; [|by apply rebuild_graph_of, files_distinct].
  apply andb_prop in E as [Ho Hpatch]. destruct (one_path_single p changes c Hc Ho) as (Hch & [_ Hcl] & Hset).
  by apply (patch_graph_of (pr_program p) _ _ (incrementalPath c)); [..|apply Hedit| |].
Qed.

Lemma sweep_ok program st : ids_ok st -> idsBySymbol st = ∅ -> symbolsByID st = ∅ -> ids_ok (sweepDurableIdentities program st).
Proof.
  intros [H1 H2 H3 Hk H4 H5 H6 H7] Hi Hs. split; simpl; try done.
  - intros i s. by rewrite Hs.
  - intros i r [H _]%map_lookup_filter_Some. by apply H4.
Qed.

Lemma exports_of_named program path m : exports_of program path m -> named_by_ref m.
Proof.
  intros (checker & f & es & _ & Hes & ->). apply declarationExportIdentities_named. simpl. eapply exportedDurableSymbols_ok. by destruct Hes as [_ Hes].
Qed.

Lemma accept_ids p changes c d : ids_ok (pr_ids p) -> candidate_ok p changes c -> decided p c d -> plain_update p changes (fst (accept p c d)) ->
  ids_ok (pr_ids (fst (accept p c d))).
Proof.
  intros Hids Hc [_ _ Hexp Hreb] [_ Hapart].
  assert (when_some (fun m => named_by_ref m /\ tells_apart m) (currentExports d)) as Hcurrent.
  { intros m Hm. split; [eapply exports_of_named; by apply Hexp|]. destruct (one_path c) eqn:Ho; [|by destruct (Hreb eq_refl); congruence].
    destruct (Hexp m Hm) as (checker & f & es & Hf & Hes & ->). exact (Hapart _ _ _ _ (one_path_sole p changes c d Hc Ho) Hf Hes). }
  unfold accept. cbn [fst pr_ids].
  set (exported := match one_path c, currentExports d with true, Some e => _ | _, _ => _ end).
  assert (exists m, default ∅ (currentExports d) = m /\ named_by_ref m /\ tells_apart m) as (m & Hdef & Hm & Ht).
  { eexists. split; [done|]. destruct (currentExports d) as [m|]; [by apply Hcurrent|].
    split; [intros s e; simpl; by rewrite lookup_empty|intros s t e e'; simpl; by rewrite lookup_empty]. }
  assert ((forall s e, fst exported !! s = Some e -> pres_id e = exportedID (pres_ref e)) /\
          (forall r e, snd exported !! r = Some e -> pres_id e = exportedID r)) as [H1 H2].
  { assert ((forall s e, fst (match d_checker d with Some checker => collected_exports (d_program d) checker | None => (∅, ∅) end) !! s = Some e ->
                pres_id e = exportedID (pres_ref e)) /\
            (forall r e, snd (match d_checker d with Some checker => collected_exports (d_program d) checker | None => (∅, ∅) end) !! r = Some e ->
                pres_id e = exportedID r)) as Hcol.
    { destruct (d_checker d) as [checker|]; [|by split; intros ? ?; simpl; rewrite lookup_empty]. simpl.
      pose proof (collectExportedIdentities_named (d_program d) checker) as Hn. split; [intros s e Hs; by apply (Hn s)|].
      intros r e Hr. by apply (indexExportedIdentitiesByRef_indexed _ Hn). }
    unfold exported. destruct (one_path c); [|done]. destruct (currentExports d) as [x|] eqn:Ex; [|done].
    apply replace_exports_ok; [done|]. by apply Hcurrent. }
  destruct (next_generation_ok (pr_ids p) exported m Hids Hm Ht H1 H2) as [A _].
  rewrite Hdef. destruct (one_path c) eqn:Ho; [done|]. destruct (Hreb eq_refl) as [Hn _].
  assert (range_map m = []) as Hnil.
  { rewrite Hn in Hdef. simpl in Hdef. subst m. apply Permutation_nil. symmetry. by rewrite range_map_perm, map_to_list_empty. }
  apply sweep_ok; [done|unfold next_generation; by rewrite Hnil..].
Qed.

(** What an update comes to: nothing new, or an accepted state. *)
Definition outcome (p : project) (changes : list FileChange) (p' : project) (affected : list string) : Prop :=
  exists p0 c, same_but_checker p p0 /\ candidate_ok p0 changes c /\
    ((changedPaths c = [] /\ same_but_checker p p' /\ affected = []) \/
     (changedPaths c <> [] /\ exists d, decided p0 c d /\ accept p0 c d = (p', affected))).

Lemma same_candidate p p' changes c : same_but_checker p p' -> candidate_ok p changes c -> candidate_ok p' changes c.
Proof. intros E [H1 H2 H3 H4]. unfold same_but_checker in E. rewrite E. by split. Qed.

Lemma same_decided p p' c d : same_but_checker p p' -> decided p c d -> decided p' c d.
Proof. intros E [H1 H2 H3 H4]. unfold same_but_checker in E. rewrite E. by split. Qed.

Lemma wp_Update p changes w : toolchain_ok ->
  wp (error_state p) (Update changes) (fun affected st => outcome p changes (snd st) (af_Files affected)) (w, p).
Proof.
  intros Htc. unfold Update. apply wp_bind, wp_ctx_check; [intros; apply same_refl|]. intros w1. apply wp_bind, wp_bind, wp_get_project.
  cbn [snd]. destruct (pr_closed p); [apply wp_fail, same_refl|]. apply wp_ret. apply wp_bind.
  eapply wp_mono; [done| |apply (wp_ensureChecker p); apply same_refl]. intros [] st1 Hst1. cbn beta in Hst1. apply wp_bind, wp_get_project.
  apply wp_bind. eapply wp_mono; [| |apply take_changes_ok; [done|apply first_candidate_ok]].
  { intros st2 E. unfold error_state. by rewrite E. }
  intros c st2 [E2 Hc]. destruct (changedPaths c) eqn:Ech.
  { apply wp_ret. exists (snd st1), c. split_and!; [done|done|]. left. by rewrite E2. }
  apply wp_bind. eapply wp_mono with (E := error_state (snd st2)); [| |apply wp_decide_update, same_refl].
  { intros st3 E3. eapply same_trans; [|exact E3]. by rewrite E2. }
  intros d st3 [E3 Hd]. apply wp_bind, wp_get_project. destruct (accept (snd st3) c d) as [p' affected] eqn:Ea.
  rewrite E2 in E3, Hd. apply wp_bind, wp_put_project, wp_ret. exists (snd st3), c. cbn [snd af_Files].
  split; [by eapply same_trans|]. split; [by eapply same_candidate|]. right. split; [by rewrite Ech|].
  exists d. split; [by eapply same_decided|exact Ea].
Qed.

Lemma project_update_outcome p changes w : toolchain_ok ->
  match Update changes (w, p) with
  | ((_, p'), Err _) => same_but_checker p p'
  | ((_, p'), Ok affected) => outcome p changes p' (af_Files affected)
  end.
Proof.
  intros Htc. pose proof (wp_Update p changes w Htc) as H. unfold wp in H.
  destruct (Update changes (w, p)) as [[w' p'] [a|e]]; exact H.
Qed.

Lemma same_ok p p' : same_but_checker p p' -> project_ok p -> project_ok p'.
Proof. intros E [H1 H2 H3]. unfold same_but_checker in E. rewrite E. by split. Qed.

Lemma same_plain p q changes p' : same_but_checker p q -> plain_update p changes p' -> plain_update q changes p'.
Proof. intros E [H1 H2]. unfold same_but_checker in E. rewrite E. by split. Qed.

Lemma Update_ok p changes w : toolchain_ok -> project_ok p ->
  plain_update p changes (snd (fst (Update changes (w, p)))) -> project_ok (snd (fst (Update changes (w, p)))).
Proof.
  intros Htc Hok Hk. pose proof (project_update_outcome p changes w Htc) as H. destruct (Update changes (w, p)) as [[w' p'] [a|e]]; cbn [fst snd] in *.
  - destruct H as (p0 & c & Hs & Hc & [(_ & H & _)|(_ & d & Hd & Ha)]); [by eapply same_ok|].
    apply (same_ok _ _ Hs) in Hok as [H1 H2 H3]. apply (same_plain _ _ _ _ Hs) in Hk. apply (f_equal fst) in Ha. simpl in Ha. subst p'. split.
    + by eapply accept_program.
    + apply (accept_graph p0 changes c d); [done..|]. intros q Hch Hset. apply (plain_content _ _ _ Hk). split; [|done].
      rewrite <- Hch. exact (cand_taken _ _ _ Hc).
    + by eapply accept_ids.
  - by eapply same_ok.
Qed.

Lemma OpenProject_ok path w w' p : toolchain_ok -> OpenProject path w = (w', Ok p) -> project_ok p.
Proof.
  intros Htc. unfold OpenProject, p_bind. destruct (Abs path w) as [w1 [q|e]]; [|done]. simpl.
  destruct (buildProgram _ newOverlayFS w1) as [w2 [[program checker]|e]] eqn:Eb; [|done]. unfold p_ret.
  apply buildProgram_new in Eb as [_ (fs & config & w3 & w4 & Hn)]. apply (new_program_ok Htc) in Hn.
  intros [= _ <-]. split; simpl; [done|by apply rebuild_graph_of, files_distinct|].
  pose proof (collectExportedIdentities_named program checker) as Hc.
  split; simpl; try done; [intros s e Hs; by apply (Hc s)|]. intros r e Hr. by apply (indexExportedIdentitiesByRef_indexed _ Hc).
Qed.

(** ** What a session can do to a project *)

Definition with_ids (p : project) (ids : identities) : project :=
  mkProject (configPath p) (pr_fs p) (versions p) (pr_program p) (pr_checker p) (pr_closed p) ids (pr_index p)
    (sourceFactsMemo p) (declarationShapes p) (pr_graph p).

Inductive reached : project -> Prop :=
| reached_open path w w' p : OpenProject path w = (w', Ok p) -> reached p
| reached_update p changes w : reached p -> plain_update p changes (snd (fst (Update changes (w, p)))) ->
    reached (snd (fst (Update changes (w, p))))
| reached_release p : reached p -> reached (ReleaseAnalysisState p)
| reached_ask p q : reached p -> nextSymbol (pr_ids p) + 1 < 2 ^ 64 -> reached (with_ids p (ask (pr_ids p) q)).

(** C9: In every project that opening, updating, releasing and asking for identities (up to the
    wrap of the 64-bit counter) reach, the retained import graph is exactly that of the accepted
    program and identities tell symbols apart, provided that each update in which one edited
    path is all that counted leaves the other files and what they resolve to alone whenever that
    path resolves its imports as before, and that no two exports of the edited file share an
    identity; two findings show that without either proviso it fails. *)
Theorem project_invariant p : toolchain_ok -> reached p ->
  program_ok (pr_program p) /\ graph_of (pr_program p) (pr_graph p) /\ ids_ok (pr_ids p).
Proof.
  intros Htc Hr. assert (project_ok p) as [H1 H2 H3]; [|done]. induction Hr as [path w w' p Ho|p changes w Hr IH Hk|p Hr IH|p q Hr IH Hn].
  - by eapply OpenProject_ok.
  - by apply Update_ok.
  - destruct IH as [H1 H2 H3]. unfold ReleaseAnalysisState. destruct (pr_closed p), (pr_checker p); try done.
    split; simpl; [done|done|by apply release_ok].
  - destruct IH as [H1 H2 H3]. split; [done|done|]. by apply ask_ok.
Qed.

(** ** The files an update affects *)














End ProjectFacts.
