(* ===== verification/SampleProject.v ===== *)
(** * A project over the sample compiler

    The world is the parsed files of the disk; an edit of a file replaces the
    file of the same path. It does what [toolchain_ok] documents, so updates of
    its projects are instances of the theorems, and it shows the update that
    leaves the import graph stale. *)

From S2P Require Import Prelude GoStd GoText GoSha SortedPaths Model Proc Closure Overlay Compiler ImportGraph Identity Exports References SampleReferences Project ProjectTheorems.

(** ** The toolchain *)

Definition ids_distinct (m : gmap ssymbol preservedExportIdentity) : bool :=
  bool_decide (NoDup ((fun kv => pres_id kv.2) <$> map_to_list m)).

(** No two exports of a file share an identity. *)
Definition exports_distinct (checker : list sfile) (f : sfile) : bool :=
  match exportedDurableSymbols (C := sample_compiler) checker f with
  | Some exports => ids_distinct (declarationExportIdentities (C := sample_compiler) (mkShape [] exports []))
  | None => true
  end.

(** The files of a path are [f']. *)
Definition replace_file (path : string) (f' : sfile) (g : sfile) : sfile :=
  if String.eqb (sf_path g) path then f' else g.

#[export] Instance sample_toolchain : Toolchain (C := sample_compiler) (list sfile) := {|
  Config := unit;
  ctx_Err disk := (disk, None);
  Abs path disk := (disk, if is_rooted path && String.eqb (Clean path) path then Ok path else Err (ErrText "not absolute"));
  GetParsedCommandLineOfConfigFile _ _ disk := (disk, (Some tt, []));
  config_Errors _ := 0%nat;
  NewProgram _ _ disk := (disk, if bool_decide (NoDup (file_path (C := sample_compiler) <$> disk)) then Some disk else None);
  UpdateProgram old f _ disk :=
    (disk, (fun f' => replace_file (file_path (C := sample_compiler) f) f' <$> old) <$> file_at disk (file_path (C := sample_compiler) f));
  GetTypeChecker program disk := (disk, if forallb (exports_distinct program) program then Some program else None);
  Emit _ f disk := (disk, mkEmitted [(String.concat "," (ss_name <$> sf_exports f), false)] (Some (false, 0%nat)));
|}.

(** ** It does what is documented *)

Lemma ids_distinct_apart m : ids_distinct m = true -> tells_apart (C := sample_compiler) m.
Proof.
  intros Hnd%bool_decide_eq_true s t e e' Hs%elem_of_map_to_list Ht%elem_of_map_to_list He.
  apply list_elem_of_lookup in Hs as [i Hi], Ht as [j Hj]. assert (i = j) as ->.
  { apply (NoDup_lookup _ i j (pres_id e) Hnd); apply list_lookup_fmap_Some; [by exists (s, e)|by exists (t, e')]. }
  congruence.
Qed.

Lemma file_at_some (program : list sfile) path f : file_at program path = Some f -> f ∈ program /\ sf_path f = path.
Proof. intros [H1 H2%String.eqb_eq]%find_some. split; [by apply list_elem_of_In|done]. Qed.

Lemma distinct_program (program : list sfile) : NoDup (file_path (C := sample_compiler) <$> program) ->
  program_ok (C := sample_compiler) program.
Proof.
  intros Hnd. split; [done|]. intros path f [Hf Hp]%file_at_some Hc. split; [done|]. unfold file_path. simpl. by rewrite Hp.
Qed.

(** Replacing a file by one of its path keeps the paths. *)
Lemma replace_paths (program : list sfile) path f' : sf_path f' = path -> sf_path <$> (replace_file path f' <$> program) = sf_path <$> program.
Proof.
  intros Hp. rewrite <- list_fmap_compose. apply list_fmap_ext. intros i g _. unfold replace_file, compose.
  destruct (String.eqb_spec (sf_path g) path); congruence.
Qed.

Lemma file_at_path (program : list sfile) spec : sf_path <$> file_at program spec = if bool_decide (spec ∈ sf_path <$> program) then Some spec else None.
Proof.
  destruct (file_at program spec) as [f|] eqn:E.
  - apply file_at_some in E as [Hf <-]. rewrite bool_decide_true; [done|by apply list_elem_of_fmap_2].
  - rewrite bool_decide_false; [done|]. intros (f & -> & Hf)%list_elem_of_fmap.
    pose proof (find_none _ _ E f) as H. simpl in H. rewrite String.eqb_refl in H. by apply list_elem_of_In, H in Hf.
Qed.

Lemma sample_ok : toolchain_ok (C := sample_compiler) (TC := sample_toolchain).
Proof.
  split; simpl.
  - intros path w w' q [= _ Hq]. destruct (is_rooted path) eqn:Er; [|done]. destruct (String.eqb_spec (Clean path) path); [|done].
    simpl in Hq. by simplify_eq.
  - intros _ _ w w' program [= _ Hn]. destruct (bool_decide _) eqn:E; [|done]. simplify_eq.
    apply distinct_program. by apply bool_decide_eq_true in E.
  - intros old f _ w w' program [= _ Hu] [Hnd _]. simpl in Hnd.
    destruct (file_at w _) as [f'|] eqn:E; [|done]. injection Hu as <-. apply file_at_some in E as [_ Hp].
    apply distinct_program. unfold file_path in *. simpl in *.
    rewrite (list_fmap_compose sf_path Clean), replace_paths by done. by rewrite <- (list_fmap_compose sf_path Clean).
Qed.

(** A checker is handed out for programs of distinct exports only. *)
Lemma sample_exports_apart checker f exports : module_exports (C := sample_compiler) checker f exports ->
  tells_apart (C := sample_compiler) (declarationExportIdentities (C := sample_compiler) (mkShape [] exports [])).
Proof.
  intros [(program & w & w' & [= _ Hc]) Hm].
  destruct (forallb _ _) eqn:Ef; [|done]. injection Hc as ->. apply ids_distinct_apart.
  destruct (file_at checker (sf_path f)) as [g|] eqn:Eg.
  - apply file_at_some in Eg as [Hg Hgp]. rewrite forallb_forall in Ef. apply list_elem_of_In, Ef in Hg.
    unfold exports_distinct in Hg. assert (exportedDurableSymbols (C := sample_compiler) checker g = Some exports) as E.
    { rewrite <- Hm. unfold exportedDurableSymbols. simpl. by rewrite Hgp. }
    by rewrite E in Hg.
  - unfold exportedDurableSymbols in Hm. simpl in Hm. rewrite Eg in Hm. simpl in Hm. simplify_eq. done.
Qed.

(** ** Runs *)

Definition no_project : project :=
  mkProject "" newOverlayFS ∅ [] None true (mkIdentities 0 0 ∅ ∅ ∅ ∅ ∅) empty_index ∅ ∅ (mkGraph ∅ ∅).

(** The project opened on a disk. *)
Definition opened (disk : list sfile) : project :=
  match OpenProject "/p/tsconfig.json" disk with (_, Ok p) => p | _ => no_project end.

(** The files an update affects, and the project it leaves. *)
Definition affected_by (r : (list sfile * project) * result AffectedSet) : option (list string) :=
  match snd r with Ok affected => Some (af_Files affected) | Err _ => None end.

Definition edit (path : string) (version : Z) : FileChange := mkFileChange path version [] false.

(** [b.ts] exports another name: [a.ts], which imports it, is affected too. *)
Definition file_b' : sfile := mkFile "/p/b.ts" text true [] [] [mkSym "/p/b.ts" 16 25 "makeOther" None].
Definition disk_b' : list sfile := [file_a; file_b'; file_c].

Definition renamed := Update [edit "/p/b.ts" 1] (disk_b', opened program1).


Lemma opened_is : exists disk, OpenProject "/p/tsconfig.json" program1 = (disk, Ok (opened program1)).
Proof.
  assert (match snd (OpenProject "/p/tsconfig.json" program1) with Ok _ => true | Err _ => false end = true) as H by (vm_compute; reflexivity).
  revert H. unfold opened. destruct (OpenProject "/p/tsconfig.json" program1) as [disk [p|e]]; [|discriminate]. intros _. by exists disk.
Qed.

(** Only the source of [b.ts] is replaced. *)
Lemma renamed_content : content_edit (C := sample_compiler) (pr_program (opened program1)) (pr_program (snd (fst renamed))) "/p/b.ts".
Proof.
  assert (pr_program (snd (fst renamed)) = [file_a; file_b'; file_c]) as -> by (vm_compute; reflexivity).
  assert (pr_program (opened program1) = [file_a; file_b; file_c]) as -> by (vm_compute; reflexivity).
  intros f' [= <-] _ _. exists file_b, [file_a], [file_c]. split_and!; [reflexivity..|].
  intros g Hg. apply elem_of_cons in Hg as [->|Hg]; [reflexivity|]. apply list_elem_of_singleton in Hg as ->. reflexivity.
Qed.

Lemma renamed_path q : sets [edit "/p/b.ts" 1] q -> q = "/p/b.ts".
Proof.
  assert (forall w w' r, Abs "/p/b.ts" w = (w', Ok r) -> r = "/p/b.ts") as Habs by (intros w w' r; vm_compute; congruence).
  intros (change & ->%list_elem_of_singleton & (w & w' & Hq) & _). exact (Habs _ _ _ Hq).
Qed.

Lemma renamed_plain : plain_update (opened program1) [edit "/p/b.ts" 1] (snd (fst renamed)).
Proof.
  split.
  - intros q [_ ->%renamed_path]. exact renamed_content.
  - intros q f checker exports _ _. apply sample_exports_apart.
Qed.

Lemma project_invariant_witness : reached (snd (fst renamed)) /\
  graph_of (C := sample_compiler) (pr_program (snd (fst renamed))) (pr_graph (snd (fst renamed))).
Proof.
  assert (reached (snd (fst renamed))) as H.
  { unfold renamed. apply reached_update; [|exact renamed_plain]. destruct opened_is as [disk Ho]. exact (reached_open _ _ _ _ Ho). }
  split; [exact H|]. destruct (project_invariant _ sample_ok H) as (_ & H2 & _). exact H2.
Defined.


(** It exports the same: only [b.ts] is. *)
Example same_exports_affect_one : affected_by (Update [edit "/p/b.ts" 1] (program1, opened program1)) = Some ["/p/b.ts"].
Proof. vm_compute. reflexivity. Qed.

(** ** An update that leaves the graph stale *)

(** [main.ts] imports [new.ts], which is not there yet. *)
Definition file_main : sfile := mkFile "/p/main.ts" text true ["/p/new.ts"] [] [].
Definition file_new : sfile := mkFile "/p/new.ts" text true [] [] [].

Definition created := Update [edit "/p/new.ts" 1] ([file_main; file_new], opened [file_main]).

(** Creating [new.ts] builds the program anew, and [main.ts] imports it from now
    on; but since [new.ts] imports nothing, the patch of the graph of the old
    program holds, so that the edge is missing and [main.ts] is not affected. *)
Example created_file_leaves_graph_stale :
  affected_by created = Some ["/p/new.ts"] /\
  bool_decide ("/p/main.ts" ∈ importers_of (reverseDeps (pr_graph (snd (fst created)))) "/p/new.ts") = false /\
  moduleEdges (C := sample_compiler) [file_main; file_new] file_main = ["/p/new.ts"].
Proof. vm_compute. done. Qed.
