(* ===== verification/Protocol.v ===== *)
(** * The lifecycle protocol

    The requests and responses of [protocolv3.go] and the validation every
    request passes first. Durations are clock readings and are left out of the
    timings; the startup handshake carries constants only. *)

From S2P Require Import Prelude GoStd GoText Model Modules CompactDemands Closure.
Open Scope Z_scope.

Definition TypeFactsSchemaVersionV1 : Z := 1.
Definition TypeFactsHandshakeProtocol : Z := 2.

Record ServiceHandshake := mkHandshake {
  Protocol : Z;
  SchemaHash : string;
  BuildID : string;
}.

(** An open [string] type in the source, so unknown operations are values. *)
Definition LifecycleOperation := string.
Definition LifecycleOpen : LifecycleOperation := "open".
Definition LifecycleUpdate : LifecycleOperation := "update".
Definition LifecycleAnalyze : LifecycleOperation := "analyze".
Definition LifecycleSymbols : LifecycleOperation := "symbols".
Definition LifecycleSources : LifecycleOperation := "sources".
Definition LifecycleModules : LifecycleOperation := "modules".
Definition LifecycleCancel : LifecycleOperation := "cancel".
Definition LifecycleClose : LifecycleOperation := "close".

Definition lifecycle_operations : list LifecycleOperation :=
  [LifecycleOpen; LifecycleUpdate; LifecycleAnalyze; LifecycleSymbols; LifecycleSources; LifecycleModules;
   LifecycleCancel; LifecycleClose].

Record FileChangeV3 := mkFileChangeV3 {
  fcv_Path : string;
  fcv_Version : Z;
  fcv_Source : list Z;
  fcv_Deleted : bool;
}.

Record LifecycleRequest := mkRequest {
  rq_Schema : Z;
  RequestID : Z;
  Operation : LifecycleOperation;
  rq_ProjectID : string;
  rq_Generation : Z;
  Changes : list FileChangeV3;
  Demands : list EntityDemand;
  CompactDemands : option CompactDemandsV3;
  StateToken : string;
  ResetState : bool;
  RemovedDemandPaths : list string;
  SymbolQueries : list SymbolQueryV6;
  ReleaseAnalysis : bool;
  ReferenceChanges : bool;
  ReferencePaths : list string;
  CancelRequestID : Z;
  ModuleGraph : option ModuleInventoryDemand;
}.

Record LifecycleError := mkLifecycleError {
  Code : string;
  Message : error;
}.

Record SourceFileV3 := mkSourceFileV3 {
  sf3_Path : string;
  sf3_Source : list Z;
  Local : bool;
}.

Record LifecycleTimings := mkTimings {
  Materialized : bool;
  tm_RetainedFiles : Z;
  tm_RecomputedFiles : Z;
  tm_NonDurableFiles : Z;
}.

Record LifecycleResponse := mkResponse {
  rs_Schema : Z;
  rs_RequestID : Z;
  rs_ProjectID : string;
  rs_Generation : Z;
  OK : bool;
  TableTransition : list Z;
  rs_SymbolEvidence : list SymbolFact;
  ReferenceEvidence : list SymbolFact;
  ChangedReferenceSymbols : list SymbolID;
  ReferenceChangesExact : bool;
  rs_StateToken : string;
  Affected : list string;
  rs_Sources : list SourceFileV3;
  SourceArena : string;
  SourceLengths : list Z;
  Timings : option LifecycleTimings;
  rs_Error : option LifecycleError;
  rs_Modules : list ModuleFact;
  ModuleImports : list ModuleImportFact;
  rs_UnknownImportPaths : list string;
}.

Definition ValidateLifecycleRequest (request : LifecycleRequest) : result unit :=
  if negb (rq_Schema request =? TypeFactsSchemaVersionV1) then Err (ErrText "unsupported TypeFacts schema")
  else if (RequestID request =? 0) || String.eqb (rq_ProjectID request) "" || (rq_Generation request =? 0)
  then Err ErrGenerationMismatch
  else if bool_decide (Operation request ∈ lifecycle_operations) then Ok tt
  else Err (ErrText "unsupported lifecycle operation").
