(* ===== verification/Writer.v ===== *)
(** * The packed writer

    [packedWriter] of [wire_transition_codec.go]: varint-coded rows over the
    frame dictionary, with an optional sink that takes the bytes in chunks. A
    writer program is a state transformer that may fail; the streaming lemmas
    say that a sink changes nothing but where the bytes go. *)

From S2P Require Import Prelude GoStd GoText GoBytes StringTable Model.
Open Scope Z_scope.

(** ** State *)

(** [flush] is the callback [func([]byte) error]; what it keeps is the
    [sink]. *)
Record packedWriter {S : Type} := mkWriter {
  w_bytes : list Z;
  dict : stringTableV3;
  flush : option (S -> list Z -> S * option error);
  flushLimit : Z;
  flushed : Z;
  w_err : option error;
  sink : S;
}.
Arguments packedWriter : clear implicits.
Arguments mkWriter {S}.

Definition len {A} (l : list A) : Z := Z.of_nat (length l).

(** A writer program: Go statements over [w] that may return an error. *)
Definition W (S A : Type) : Type := packedWriter S -> packedWriter S * result A.

Definition w_ret {S A} (a : A) : W S A := fun w => (w, Ok a).
Definition w_fail {S A} (e : error) : W S A := fun w => (w, Err e).
Definition w_bind {S A B} (m : W S A) (k : A -> W S B) : W S B :=
  fun w => match m w with (w', Ok a) => k a w' | (w', Err e) => (w', Err e) end.

(** [if err := f(); err != nil { return fmt.Errorf("...: %w", err) }]. *)
Definition w_wrap {S A} (msg : string) (m : W S A) : W S A :=
  fun w => let '(w', r) := m w in (w', wrap_err msg r).

(** A call that does not touch the writer. *)
Definition w_lift {S A} (r : result A) : W S A := fun w => (w, r).

Notation "'let!' x ':=' e 'in' k" :=
  (w_bind e (fun x => k)) (at level 10, x pattern, e at level 200, k at level 200) : go_scope.
Notation "e ';;' k" := (w_bind e (fun _ => k)) (at level 100, right associativity) : go_scope.

(** [if cond { return err }]. *)
Definition w_guard {S} (cond : bool) (e : error) : W S unit := if cond then w_fail e else w_ret tt.
Definition w_when {S} (cond : bool) (m : W S unit) : W S unit := if cond then m else w_ret tt.

(** [if p != nil { ... }]. *)
Definition w_option {S A} (p : option A) (m : A -> W S unit) : W S unit :=
  match p with Some a => m a | None => w_ret tt end.

(** [for _, x := range l] over a loop state. *)
Fixpoint w_fold {S A St} (f : A -> St -> W S St) (l : list A) (st : St) : W S St :=
  match l with
  | [] => w_ret st
  | x :: l' => let! st' := f x st in w_fold f l' st'
  end.

Definition w_each {S A} (f : A -> W S unit) (l : list A) : W S unit :=
  w_fold (fun x _ => f x) l tt.

(** ** Primitives *)
Section Primitives.
Context {S : Type}.

Definition set_bytes (w : packedWriter S) (b : list Z) : packedWriter S :=
  mkWriter b (dict w) (flush w) (flushLimit w) (flushed w) (w_err w) (sink w).

(** The call of [w.flush] both [maybeFlush] and [finish] make. *)
Definition flush_now (f : S -> list Z -> S * option error) (w : packedWriter S) : packedWriter S :=
  let length := len (w_bytes w) in
  let '(s, e) := f (sink w) (w_bytes w) in
  mkWriter [] (dict w) (flush w) (flushLimit w)
    (match e with None => i64 (flushed w + length) | Some _ => flushed w end) e s.

Definition maybeFlush (w : packedWriter S) : packedWriter S :=
  match flush w with
  | None => w
  | Some f =>
      if (match w_err w with Some _ => true | None => false end) ||
         (len (w_bytes w) <? flushLimit w)
      then w
      else flush_now f w
  end.

Definition finish (w : packedWriter S) : packedWriter S * option error :=
  let w' :=
    match w_err w, flush w with
    | None, Some f => if negb (len (w_bytes w) =? 0) then flush_now f w else w
    | _, _ => w
    end in
  (w', w_err w').

Definition put_u64 (value : Z) : W S unit := fun w =>
  (maybeFlush (set_bytes w (append_uvarint (w_bytes w) value)), Ok tt).

Definition signed (value : Z) : W S unit :=
  put_u64 (Z.lxor (u64 (Z.shiftl value 1)) (u64 (Z.shiftr value 63))).

Definition raw (value : list Z) : W S unit := fun w =>
  (maybeFlush (set_bytes w (w_bytes w ++ value)), Ok tt).

(** [w.dict.intern(value)]. *)
Definition w_intern (value : string) : W S Z := fun w =>
  let '(index, d) := intern (dict w) value in
  (mkWriter (w_bytes w) d (flush w) (flushLimit w) (flushed w) (w_err w) (sink w), Ok index).

Definition text (value : string) : W S unit :=
  let! index := w_intern value in put_u64 index.

(** ** Locations and the records built from them *)

Record packedLocationState := mkLocationState {
  st_path : Z;
  st_start : Z;
  st_valid : bool;
}.

Definition no_location : packedLocationState := mkLocationState 0 0 false.

Definition internalLocation (location : Location) (state : packedLocationState) :
    W S packedLocationState :=
  let! path := w_intern (Path location) in
  let start := u64 (StartByte location) in
  (if st_valid state && (st_path state =? path) then
     put_u64 1;;
     signed (i64 (i64 start - i64 (st_start state)))
   else
     put_u64 (u64 (Z.shiftl path 1));;
     put_u64 start);;
  put_u64 (u64 (i64 (EndByte location - StartByte location)));;
  w_ret (mkLocationState path start true).

(** A slice is written after its length. *)
Definition put_len {A} (l : list A) : W S unit := put_u64 (u64 (len l)).

Definition internalLocations (locations : list Location) : W S unit :=
  put_len locations;;
  w_fold internalLocation locations no_location;;
  w_ret tt.

Definition internalDeclaration (declaration : Declaration) (state : packedLocationState) :
    W S packedLocationState :=
  text (wireSymbolName (decl_Name declaration));;
  text (decl_Kind declaration);;
  internalLocation (decl_Location declaration) state.

Definition internalDeclarations (declarations : list Declaration) : W S unit :=
  put_len declarations;;
  w_fold internalDeclaration declarations no_location;;
  w_ret tt.

Definition internalTypeDescriptor (descriptor : TypeDescriptor) : W S unit :=
  text (Text descriptor);;
  text (td_OriginModule descriptor);;
  internalDeclarations (AliasDeclarations descriptor).

Definition internalOwner (owner : DeclarationOwner) (state : packedLocationState) :
    W S packedLocationState :=
  text (own_Symbol owner);;
  text (wireSymbolName (own_Name owner));;
  text (own_Kind owner);;
  internalLocation (own_Location owner) state.

Definition boolBit (value : bool) : Z := if value then 1 else 0.

Definition internalResolvedDeclaration (declaration : ResolvedDeclaration) : W S unit :=
  text (rd_Symbol declaration);;
  text (wireSymbolName (rd_Name declaration));;
  text (rd_Kind declaration);;
  let! state := internalLocation (rd_Location declaration) no_location in
  put_len (Owners declaration);;
  w_fold internalOwner (Owners declaration) state;;
  text (QualifiedName declaration);;
  text (rd_OriginModule declaration);;
  text (rd_SourceFile declaration);;
  put_u64 (boolBit (StandardLibrary declaration)).

Definition internalSourceCall (call : SourceCall) : W S unit :=
  let! state := internalLocation (sc_Location call) no_location in
  let! _ := internalLocation (Callee call) state in
  internalLocations (sc_Arguments call);;
  text (sc_Target call).

(** ** The dictionary section of a frame *)

Definition hashed_prefix : string := "symbol:h:".

(** The zero digest is the one the code returns beside [false]. *)
Definition packedHashedSymbol (symbol : string) : option (list Z) :=
  if negb (String.prefix hashed_prefix symbol) ||
     negb (Nat.eqb (String.length symbol) (String.length hashed_prefix + 24))
  then None
  else hex_Decode (string_bytes (string_drop (String.length hashed_prefix) symbol)).

Fixpoint commonStringPrefix (left right : string) : nat :=
  match left, right with
  | String a left', String b right' =>
      if Ascii.eqb a b then Datatypes.S (commonStringPrefix left' right') else 0%nat
  | _, _ => 0%nat
  end.

Definition dictionary_entry (value previous : string) : W S string :=
  match packedHashedSymbol value with
  | Some digest =>
      put_u64 1;;
      raw digest;;
      w_ret previous
  | None =>
      put_u64 0;;
      let prefix := commonStringPrefix previous value in
      let suffix := string_drop prefix value in
      put_u64 (u64 (Z.of_nat prefix));;
      put_u64 (u64 (Z.of_nat (String.length suffix)));;
      raw (string_bytes suffix);;
      w_ret value
  end.

Definition appendPackedDictionary (values : list string) : W S unit :=
  put_len values;;
  w_fold dictionary_entry values "";;
  w_ret tt.
End Primitives.

(** ** Programs

    What the row writers are made of: one program at two types of sink. A
    property of every writer program is proved by induction on it. *)

(** The longest run of bytes a row primitive appends: a digest. *)
Definition max_write : Z := 32.

Inductive program {S T} : forall {A}, W S A -> W T A -> Prop :=
| program_ret {A} (a : A) : program (w_ret a) (w_ret a)
| program_fail {A} e : program (w_fail (A:=A) e) (w_fail e)
| program_put v : program (put_u64 v) (put_u64 v)
| program_raw v : len v <= max_write -> program (raw v) (raw v)
| program_intern v : program (w_intern v) (w_intern v)
| program_bind {A B} (m : W S A) (k : A -> W S B) (m' : W T A) (k' : A -> W T B) :
    program m m' -> (forall a, program (k a) (k' a)) -> program (w_bind m k) (w_bind m' k')
| program_wrap {A} msg (m : W S A) (m' : W T A) : program m m' -> program (w_wrap msg m) (w_wrap msg m').
Existing Class program.
#[global] Typeclasses Opaque w_ret w_fail w_bind w_wrap w_lift w_guard w_when w_option w_fold w_each
  put_u64 raw signed w_intern text put_len internalLocation internalLocations internalDeclaration
  internalDeclarations internalTypeDescriptor internalOwner internalResolvedDeclaration internalSourceCall.
#[export] Existing Instance program_ret.
#[export] Existing Instance program_fail.
#[export] Existing Instance program_put.
#[export] Existing Instance program_intern.
#[export] Existing Instance program_bind.
#[export] Existing Instance program_wrap.

Section Programs.
Context {S T : Type}.

#[export] Instance program_lift {A} (r : result A) : program (S:=S) (T:=T) (w_lift r) (w_lift r).
Proof. destruct r; [apply program_ret|apply program_fail]. Qed.

#[export] Instance program_if {A} (c : bool) (m1 m2 : W S A) (m1' m2' : W T A) :
  program m1 m1' -> program m2 m2' -> program (if c then m1 else m2) (if c then m1' else m2').
Proof. by destruct c. Qed.

#[export] Instance program_guard c e : program (S:=S) (T:=T) (w_guard c e) (w_guard c e).
Proof. unfold w_guard. apply _. Qed.

#[export] Instance program_when c (m : W S unit) (m' : W T unit) : program m m' -> program (w_when c m) (w_when c m').
Proof. unfold w_when. intros. apply _. Qed.

#[export] Instance program_option {A} (o : option A) (m : A -> W S unit) (m' : A -> W T unit) :
  (forall a, program (m a) (m' a)) -> program (w_option o m) (w_option o m').
Proof. intros. destruct o; simpl; apply _. Qed.

#[export] Instance program_fold {A St} (f : A -> St -> W S St) (f' : A -> St -> W T St) l st :
  (forall x s, program (f x s) (f' x s)) -> program (w_fold f l st) (w_fold f' l st).
Proof. intros Hf. revert st. induction l; intros st; simpl; apply _. Qed.

#[export] Instance program_each {A} (f : A -> W S unit) (f' : A -> W T unit) l :
  (forall x, program (f x) (f' x)) -> program (w_each f l) (w_each f' l).
Proof. unfold w_each. intros. apply _. Qed.

#[export] Instance program_text v : program (S:=S) (T:=T) (text v) (text v).
Proof. unfold text. apply _. Qed.
#[export] Instance program_signed v : program (S:=S) (T:=T) (signed v) (signed v).
Proof. unfold signed. apply _. Qed.
#[export] Instance program_len {A} (l : list A) : program (S:=S) (T:=T) (put_len l) (put_len l).
Proof. unfold put_len. apply _. Qed.
#[export] Instance program_location l st : program (S:=S) (T:=T) (internalLocation l st) (internalLocation l st).
Proof. unfold internalLocation. apply _. Qed.
#[export] Instance program_locations l : program (S:=S) (T:=T) (internalLocations l) (internalLocations l).
Proof. unfold internalLocations. apply _. Qed.
#[export] Instance program_declaration d st : program (S:=S) (T:=T) (internalDeclaration d st) (internalDeclaration d st).
Proof. unfold internalDeclaration. apply _. Qed.
#[export] Instance program_declarations l : program (S:=S) (T:=T) (internalDeclarations l) (internalDeclarations l).
Proof. unfold internalDeclarations. apply _. Qed.
#[export] Instance program_descriptor d : program (S:=S) (T:=T) (internalTypeDescriptor d) (internalTypeDescriptor d).
Proof. unfold internalTypeDescriptor. apply _. Qed.
#[export] Instance program_owner o st : program (S:=S) (T:=T) (internalOwner o st) (internalOwner o st).
Proof. unfold internalOwner. apply _. Qed.
#[export] Instance program_resolved_declaration d : program (S:=S) (T:=T) (internalResolvedDeclaration d) (internalResolvedDeclaration d).
Proof. unfold internalResolvedDeclaration. apply _. Qed.
#[export] Instance program_source_call c : program (S:=S) (T:=T) (internalSourceCall c) (internalSourceCall c).
Proof. unfold internalSourceCall. apply _. Qed.
End Programs.

(** A program leaves the sink configuration alone, only extends the
    dictionary, and meets no error without a sink. *)
Definition extends {S} (w w' : packedWriter S) : Prop :=
  flush w' = flush w /\ values (dict w) `prefix_of` values (dict w') /\
  (flush w = None -> w_err w' = w_err w /\ sink w' = sink w).

#[export] Instance extends_refl {S} : Reflexive (extends (S:=S)).
Proof. by intros w. Qed.

#[export] Instance extends_trans {S} : Transitive (extends (S:=S)).
Proof.
  intros w1 w2 w3 (F1 & P1 & E1) (F2 & P2 & E2). split; [by rewrite F2|]. split; [by etrans|].
  intros H. destruct (E1 H) as [<- <-]. apply E2. by rewrite F1.
Qed.

Lemma extends_append {S} (w : packedWriter S) bs : extends w (maybeFlush (set_bytes w bs)).
Proof. unfold extends, maybeFlush, flush_now. simpl. split_ifs; done. Qed.

Lemma extends_intern {S} v (w : packedWriter S) : extends w (fst (w_intern v w)).
Proof. unfold w_intern. pose proof (intern_prefix (dict w) v). by destruct (intern (dict w) v). Qed.

Lemma program_grows {S T A} (m : W S A) (m' : W T A) w : program m m' -> extends w (fst (m w)).
Proof.
  intros Hm. revert w. induction Hm as [| |v|v Hv|v|A B m k m' k' _ IHm _ IHk|A msg m m' _ IH]; intros w; try done.
  - apply extends_append.
  - apply extends_append.
  - apply extends_intern.
  - unfold w_bind. specialize (IHm w). destruct (m w) as [w1 [a|e]]; [|done].
    by etrans; [exact IHm|apply IHk].
  - unfold w_wrap. specialize (IH w). by destruct (m w).
Qed.
