(* ===== verification/Stream.v ===== *)
(** * Streaming

    A writer with a sink hands its bytes out in chunks. Two writers run the
    same program, one plain and one with a sink that may refuse any chunk; they
    stay in step, whatever the program and whatever the sink keeps. *)

From S2P Require Import Prelude GoStd GoText GoBytes StringTable Model Writer.
Open Scope Z_scope.

Lemma len_app {A} (a b : list A) : len (a ++ b) = len a + len b.
Proof. unfold len. rewrite length_app. lia. Qed.

Section Streaming.
Context {S T : Type} (append : S -> list Z -> S * option error) (s0 : S) (limit : Z) (limit_pos : 0 < limit).

(** The sink has taken the chunks, in order. *)
Inductive fed : S -> list (list Z) -> Prop :=
  | fed_nil : fed s0 []
  | fed_app s chunks b s' : fed s chunks -> append s b = (s', None) -> fed s' (chunks ++ [b]).

(** The sink has refused a chunk after taking others. *)
Definition refused (s : S) (e : error) : Prop :=
  exists s1 chunks b, fed s1 chunks /\ append s1 b = (s, Some e).

(** What the sink holds of the bytes of a plain writer, the rest [pending]. *)
Definition streamed_part (s : S) (pending bytes : list Z) (sent : Z) : Prop :=
  exists chunks, fed s chunks /\ concat chunks ++ pending = bytes /\ i64 sent = i64 (len (concat chunks)) /\
    Forall (fun c => limit <= len c < limit + max_write) chunks.

Record in_step (w : packedWriter S) (p : packedWriter T) : Prop := {
  step_dict : dict w = dict p;
  step_flush : flush w = Some append;
  step_limit : flushLimit w = limit;
  step_plain : flush p = None;
  step_pending : w_err w = None -> len (w_bytes w) < limit;
  step_fed : w_err w = None -> streamed_part (sink w) (w_bytes w) (w_bytes p) (flushed w);
  step_err e : w_err w = Some e -> refused (sink w) e;
}.

(** The flush of a full buffer. *)
Lemma flush_fed w bytes : w_err w = None -> streamed_part (sink w) (w_bytes w) bytes (flushed w) ->
  let w' := flush_now append w in
  dict w' = dict w /\ flush w' = flush w /\ flushLimit w' = flushLimit w /\ w_bytes w' = [] /\
  (w_err w' = None -> exists chunks, fed (sink w') chunks /\ concat chunks = bytes /\
     i64 (flushed w') = i64 (len (concat chunks)) /\
     exists before, chunks = before ++ [w_bytes w] /\ Forall (fun c => limit <= len c < limit + max_write) before) /\
  (forall e, w_err w' = Some e -> refused (sink w') e).
Proof.
  intros He (chunks & Hf & Hb & Hn & Hk). unfold flush_now.
  destruct (append (sink w) (w_bytes w)) as [s [e|]] eqn:Ea; simpl; split_and!; try done.
  - intros e' [= <-]. by exists (sink w), chunks, (w_bytes w).
  - intros _. exists (chunks ++ [w_bytes w]). split; [by eapply fed_app|].
    rewrite concat_app. simpl. rewrite app_nil_r, Hb. split_and!; [done| |by exists chunks].
    rewrite <- Hb, len_app. by apply i64_add_congr.
Qed.

Lemma in_step_append w p bs :
  in_step w p -> len bs <= max_write ->
  in_step (maybeFlush (set_bytes w (w_bytes w ++ bs))) (maybeFlush (set_bytes p (w_bytes p ++ bs))).
Proof.
  intros [Hd Hf Hl Hp Hn Hs He0] Hbs. unfold maybeFlush. simpl. rewrite Hf, Hp.
  destruct (w_err w) as [e|] eqn:Ee; simpl.
  { split; simpl; auto; by rewrite Ee. }
  specialize (Hs eq_refl). specialize (Hn eq_refl). rewrite Hl.
  assert (streamed_part (sink w) (w_bytes w ++ bs) (w_bytes p ++ bs) (flushed w)) as Hs'.
  { destruct Hs as (chunks & ? & <- & ?). exists chunks. by rewrite app_assoc. }
  destruct (len (w_bytes w ++ bs) <? limit) eqn:E.
  - apply Z.ltb_lt in E. split; simpl; auto. by rewrite Ee.
  - apply Z.ltb_ge in E. destruct (flush_fed (set_bytes w (w_bytes w ++ bs)) (w_bytes p ++ bs) Ee Hs') as (F1 & F2 & F3 & F4 & F5 & F6).
    split; [by rewrite F1|by rewrite F2|by rewrite F3|done|by rewrite F4| |done].
    + intros He. destruct (F5 He) as (chunks & K1 & K2 & K3 & before & -> & K4). exists (before ++ [w_bytes w ++ bs]).
      rewrite F4, app_nil_r. split_and!; [done..|]. apply Forall_app. split; [done|]. apply Forall_singleton.
      rewrite len_app in *. lia.
Qed.

Lemma uvarint_short v : len (uvarint_bytes 9 v) <= max_write.
Proof. unfold len, max_write. pose proof (uvarint_bytes_length 9 v). lia. Qed.

(** Every program keeps the two writers in step. *)
Lemma program_in_step {A} (m : W S A) (m' : W T A) w p :
  program m m' -> in_step w p -> snd (m w) = snd (m' p) /\ in_step (fst (m w)) (fst (m' p)).
Proof.
  intros Hm. revert w p.
  induction Hm as [| |v|v Hv|v|A B m k m' k' _ IHm _ IHk|A msg m m' _ IH]; intros w p H; try done.
  - split; [done|]. apply in_step_append; [done|apply uvarint_short].
  - split; [done|]. by apply in_step_append.
  - unfold w_intern. destruct H as [Hd ? ? ? ? ? ?]. rewrite Hd.
    destruct (intern (dict p) v) as [i d]. simpl. split; [done|]. by split.
  - unfold w_bind. specialize (IHm w p H).
    destruct (m w) as [w' r], (m' p) as [p' r']. simpl in IHm. destruct IHm as [-> H'].
    destruct r' as [a|e]; [by apply IHk|done].
  - unfold w_wrap. specialize (IH w p H).
    destruct (m w) as [w' r], (m' p) as [p' r']. simpl in *. by destruct IH as [-> ?].
Qed.

(** A finished stream carries exactly the plain bytes, in chunks that stay
    within one write of the limit; one that does not finish was refused. *)
Lemma finish_in_step w p : in_step w p ->
  match snd (finish w) with
  | None => exists chunks, fed (sink (fst (finish w))) chunks /\ concat chunks = w_bytes p /\
      i64 (flushed (fst (finish w))) = i64 (len (w_bytes p)) /\
      Forall (fun c => 0 < len c < limit + max_write) chunks
  | Some e => refused (sink (fst (finish w))) e
  end.
Proof.
  intros [Hd Hf Hl Hp Hn Hs He0]. unfold finish.
  destruct (w_err w) as [e|] eqn:Ee; simpl; [rewrite Ee; by apply He0|]. rewrite Hf.
  specialize (Hn eq_refl). specialize (Hs eq_refl).
  assert (forall l, Forall (fun c => limit <= len c < limit + max_write) l -> Forall (fun c : list Z => 0 < len c < limit + max_write) l) as Hlim
    by (intros l Hk; eapply Forall_impl; [exact Hk|]; simpl; intros; lia).
  destruct (len (w_bytes w) =? 0) eqn:E0; simpl.
  - apply Z.eqb_eq in E0. assert (w_bytes w = []) as E.
    { destruct (w_bytes w); [done|unfold len in E0; simpl in E0; lia]. }
    destruct Hs as (chunks & H1 & H2 & H3 & H4). rewrite Ee. exists chunks. rewrite E, app_nil_r in H2. rewrite <- H2. auto.
  - apply Z.eqb_neq in E0. destruct (flush_fed w (w_bytes p) Ee Hs) as (_ & _ & _ & _ & F5 & F6).
    destruct (w_err (flush_now append w)) as [e|] eqn:Ef; [by apply F6|].
    destruct (F5 eq_refl) as (chunks & K1 & K2 & K3 & before & -> & K4). eexists. split; [done|]. rewrite <- K2. split_and!; [done..|].
    apply Forall_app. split; [by apply Hlim|]. apply Forall_singleton. unfold len, max_write in *. lia.
Qed.

Lemma finish_plain w p : in_step w p -> w_err p = None -> finish p = (p, None).
Proof. intros H He. unfold finish. by rewrite He, (step_plain _ _ H), He. Qed.
End Streaming.

(** A plain writer does not depend on its sink. *)
Section Plain.
Context {S T : Type}.

Record plain_pair (w : packedWriter S) (p : packedWriter T) : Prop := {
  pp_bytes : w_bytes w = w_bytes p;
  pp_dict : dict w = dict p;
  pp_plain : flush w = None /\ flush p = None;
  pp_err : w_err w = w_err p;
}.

Lemma program_plain {A} (m : W S A) (m' : W T A) w p :
  program m m' -> plain_pair w p -> snd (m w) = snd (m' p) /\ plain_pair (fst (m w)) (fst (m' p)).
Proof.
  intros Hm. revert w p.
  assert (forall w p bs, plain_pair w p ->
    plain_pair (maybeFlush (set_bytes w (w_bytes w ++ bs))) (maybeFlush (set_bytes p (w_bytes p ++ bs)))) as Happ.
  { intros w p bs [H1 H2 [H3 H4] H5]. unfold maybeFlush. simpl. rewrite H3, H4. split; simpl; try done; congruence. }
  induction Hm as [| |v|v Hv|v|A B m k m' k' _ IHm _ IHk|A msg m m' _ IH]; intros w p H; try done.
  - split; [done|]. by apply Happ.
  - split; [done|]. by apply Happ.
  - unfold w_intern. destruct H as [H1 H2 H3 H5]. rewrite H2.
    destruct (intern (dict p) v) as [i d]. simpl. split; [done|]. by split.
  - unfold w_bind. specialize (IHm w p H).
    destruct (m w) as [w' r], (m' p) as [p' r']. simpl in IHm. destruct IHm as [-> H'].
    destruct r' as [a|e]; [by apply IHk|done].
  - unfold w_wrap. specialize (IH w p H).
    destruct (m w) as [w' r], (m' p) as [p' r']. simpl in *. by destruct IH as [-> ?].
Qed.
End Plain.
