(* ===== verification/Rows.v ===== *)
(** * Transition rows

    [wire_transition_rows.go]: how path and symbol operations and the rows they
    carry are written. A row is checked before its first byte; the error
    returned is an [Err] of the writer program. *)

From S2P Require Import Prelude GoStd GoText GoBytes StringTable Model Domain SymbolStore FactTable TransitionDiff Writer.
Open Scope Z_scope.

(** ** Table schemas ([facttable.go]) *)

Definition TypeFactsTableSchemaVersionV5 : Z := 5.
Definition TypeFactsTableSchemaVersionV6 : Z := 6.
Definition TypeFactsTableSchemaVersionV7 : Z := 7.
Definition TypeFactsTableSchemaVersionV8 : Z := 8.
Definition TypeFactsTableSchemaVersionV9 : Z := 9.
Definition TypeFactsTableSchemaVersionV11 : Z := 11.
Definition TypeFactsTableSchemaVersionV12 : Z := 12.
Definition TypeFactsTableSchemaVersionV13 : Z := 13.
Definition TypeFactsTableSchemaVersionV14 : Z := 14.
Definition TypeFactsTableSchemaVersionV15 : Z := 15.
Definition TypeFactsTableSchemaVersionV16 : Z := 16.
Definition TypeFactsTableSchemaVersionV17 : Z := 17.
Definition TypeFactsTableSchemaVersion : Z := TypeFactsTableSchemaVersionV17.

(** ** Flag bits *)

Definition bindingFlagArray : Z := Z.shiftl 1 0.
Definition functionFlagExported : Z := Z.shiftl 1 0.
Definition functionFlagAsync : Z := Z.shiftl 1 1.
Definition functionFlagArrow : Z := Z.shiftl 1 2.
Definition asyncFunctionFlagCanReturnAsync : Z := Z.shiftl 1 0.

Definition wireTransitionSourceOpShift : Z := 0.
Definition wireTransitionEntityOpShift : Z := 2.
Definition wireTransitionFileOpShift : Z := 4.

Definition wireTransitionEntityHasTypeDescriptor : Z := Z.shiftl 1 0.
Definition wireTransitionEntityHasResolvedCall : Z := Z.shiftl 1 1.
Definition wireTransitionEntityHasCallability : Z := Z.shiftl 1 2.
Definition wireTransitionEntityHasReferenceSpace : Z := Z.shiftl 1 3.
Definition wireTransitionEntityHasRuntimeIdentity : Z := Z.shiftl 1 4.
Definition wireTransitionEntityHasRuntimeValueDomain : Z := Z.shiftl 1 5.
Definition wireTransitionEntitySymbolUnresolved : Z := Z.shiftl 1 6.
Definition wireTransitionEntityHasCallResultDomain : Z := Z.shiftl 1 7.
Definition wireTransitionEntityHasConstantValue : Z := Z.shiftl 1 8.
Definition wireTransitionEntityHasArrayShape : Z := Z.shiftl 1 9.
Definition wireTransitionEntityHasTupleShape : Z := Z.shiftl 1 10.
Definition wireTransitionEntityHasLibraryTypes : Z := Z.shiftl 1 11.
Definition wireTransitionEntityHasPrimitiveValueDomain : Z := Z.shiftl 1 12.
Definition wireTransitionEntityHasConstructability : Z := Z.shiftl 1 13.
Definition wireTransitionEntityHasPrimitiveLiteralCandidates : Z := Z.shiftl 1 14.

Definition wireTransitionParameterHasDeclaration : Z := Z.shiftl 1 0.
Definition wireTransitionParameterIsRest : Z := Z.shiftl 1 1.
Definition wireTransitionParameterIsOptional : Z := Z.shiftl 1 2.
Definition wireTransitionParameterHasTypeDescriptor : Z := Z.shiftl 1 3.
Definition wireTransitionParameterHasObjectShape : Z := Z.shiftl 1 4.

(** ** Closed code spaces *)

(** [switch value { case c: return k, nil ... default: return 0, err }]. *)
Fixpoint switch (cases : list (string * Z)) (msg : string) (value : string) : result Z :=
  match cases with
  | [] => Err (ErrText msg)
  | (c, k) :: cases' => if String.eqb value c then Ok k else switch cases' msg value
  end.

Definition wireTransitionConstructionWitnessCode : ConstructionWitness -> result Z :=
  switch [(ConstructionWitnessUnknown, 0); (ConstructionWitnessEmptyArray, 1);
          (ConstructionWitnessEmptyObject, 2)] "unknown construction witness".

Definition wireTransitionValidityCode : ResolvedCallValidity -> result Z :=
  switch [(ResolvedCallValid, 0); (ResolvedCallRecovery, 1); (ResolvedCallUnresolved, 2)]
    "unknown resolved-call validity".

Definition wireTransitionCallKindCode : CallKind -> result Z :=
  switch [(CallKindUnknown, 0); (CallKindCall, 1); (CallKindConstruct, 2)] "unknown call kind".

Definition wireTransitionMappingStatusCode : ArgumentMappingStatus -> result Z :=
  switch [(ArgumentMappingResolved, 0); (ArgumentMappingUnresolved, 1)]
    "unknown argument-mapping status".

Definition wireTransitionMappingReasonCode : ArgumentMappingReason -> result Z :=
  switch [(EmptyString, 0); (ArgumentMappingCallUnresolved, 1); (ArgumentMappingRecoverySignature, 2);
          (ArgumentMappingCompositeSignature, 3); (ArgumentMappingSpreadArgument, 4);
          (ArgumentMappingParameterUnavailable, 5)] "unknown argument-mapping reason".

(** [untypedCallable] joined the space at schema 15 and degrades to
    [unknown] before it. *)
Definition degrade_callability (value : Callability) (tableSchema : Z) : Callability :=
  if String.eqb value CallabilityUntypedCallable && (tableSchema <? TypeFactsTableSchemaVersionV15)
  then CallabilityUnknown else value.

Definition wireTransitionCallabilityCode (value : Callability) (tableSchema : Z) : result Z :=
  switch [(CallabilityCallable, 0); (CallabilityNonCallable, 1); (CallabilityMixed, 2);
          (CallabilityUnknown, 3); (CallabilityUntypedCallable, 4)] "unknown callability"
    (degrade_callability value tableSchema).

Definition wireTransitionConstructabilityCode (value : Constructability) : result Z :=
  if value =? ConstructabilityConstructable then Ok 0
  else if value =? ConstructabilityNonConstructable then Ok 1
  else if value =? ConstructabilityMixed then Ok 2
  else if value =? ConstructabilityUnknown then Ok 3
  else Err (ErrText "unknown constructability").

Definition wireTransitionArrayShapeCode : ArrayShape -> result Z :=
  switch [(ArrayShapeArray, 0); (ArrayShapeNotArray, 1); (ArrayShapeMixed, 2); (ArrayShapeUnknown, 3)]
    "unknown array shape".

Definition wireTransitionReferenceSpaceCode : ReferenceSpace -> result Z :=
  switch [(ReferenceSpaceValue, 0); (ReferenceSpaceType, 1); (ReferenceSpaceBoth, 2);
          (ReferenceSpaceNeither, 3)] "unknown reference space".

Definition wireTransitionRuntimeValueDomainBits (value : RuntimeValueDomain) : Z :=
  let bits := 0 in
  let bits := or_flag (MayBeCallable value) (Z.shiftl 1 0) bits in
  let bits := or_flag (Model.MayBeUndefined value) (Z.shiftl 1 1) bits in
  let bits := or_flag (MayBeOther value) (Z.shiftl 1 2) bits in
  or_flag (Unknown value) (Z.shiftl 1 3) bits.

Definition wireTransitionPrimitiveValueDomainBits (value : PrimitiveValueDomain) : Z :=
  Z.lor (boolBit (MayBeString value))
  (Z.lor (Z.shiftl (boolBit (MayBeNumber value)) 1)
  (Z.lor (Z.shiftl (boolBit (MayBeBoolean value)) 2)
  (Z.lor (Z.shiftl (boolBit (MayBeBigInt value)) 3)
  (Z.lor (Z.shiftl (boolBit (MayBeSymbol value)) 4)
  (Z.lor (Z.shiftl (boolBit (MayBeNull value)) 5)
  (Z.lor (Z.shiftl (boolBit (Domain.MayBeUndefined value)) 6)
  (Z.lor (Z.shiftl (boolBit (MayBeObject value)) 7)
  (Z.lor (Z.shiftl (boolBit (IsUnknown value)) 8)
  (Z.shiftl (boolBit (NumbersAreFinite value)) 9))))))))).

Definition validateWireTransitionLocation (location : Location) : result unit :=
  if StartByte location <? 0 then Err (ErrText "negative start byte")
  else if EndByte location <? StartByte location then Err (ErrText "end byte precedes start byte")
  else Ok tt.

Section Rows.
Context {S : Type}.
Implicit Type tableSchema : Z.

(** ** Resolved calls *)

Definition parameter_flags (parameter : ParameterFact) tableSchema : Z :=
  let flags := 0 in
  let flags := or_flag (bool_decide (is_Some (pf_Declaration parameter))) wireTransitionParameterHasDeclaration flags in
  let flags := or_flag (Rest parameter) wireTransitionParameterIsRest flags in
  let flags := or_flag (Optional parameter) wireTransitionParameterIsOptional flags in
  let flags := or_flag (bool_decide (is_Some (pf_TypeDescriptor parameter))) wireTransitionParameterHasTypeDescriptor flags in
  or_flag ((TypeFactsTableSchemaVersionV17 <=? tableSchema) && bool_decide (is_Some (ObjectShape parameter)))
    wireTransitionParameterHasObjectShape flags.

Definition parameter_declaration (declaration : Declaration) : W S unit :=
  text (wireSymbolName (decl_Name declaration));;
  text (decl_Kind declaration);;
  internalLocation (decl_Location declaration) no_location;;
  w_ret tt.

Definition object_property (property : ObjectConstructionProperty) : W S unit :=
  text (ocp_Name property);;
  let! code := w_lift (wrap_err "argument mapping parameter property"
                         (wireTransitionConstructionWitnessCode (Witness property))) in
  put_u64 code.

Definition writeWireTransitionParameter (parameter : ParameterFact) tableSchema : W S unit :=
  w_guard (pf_Index parameter <? 0) (ErrText "argument mapping has negative parameter index");;
  let! callability := w_lift (wrap_err "argument mapping parameter"
                                (wireTransitionCallabilityCode (pf_Callability parameter) tableSchema)) in
  put_u64 (u64 (pf_Index parameter));;
  text (pf_Symbol parameter);;
  put_u64 (parameter_flags parameter tableSchema);;
  w_option (pf_Declaration parameter) parameter_declaration;;
  put_u64 callability;;
  w_option (pf_TypeDescriptor parameter) internalTypeDescriptor;;
  w_when (TypeFactsTableSchemaVersionV17 <=? tableSchema)
    (w_option (ObjectShape parameter) (fun shape =>
       put_len (RequiredProperties shape);;
       w_each object_property (RequiredProperties shape))).

Definition target_candidate (candidate : ResolvedDeclaration) : W S unit :=
  w_guard (String.eqb (rd_Symbol candidate) "") (ErrText "target candidate has no symbol");;
  internalResolvedDeclaration candidate.

Definition call_targets (targets : CallTargetSet) : W S unit :=
  w_guard (len (Candidates targets) =? 0) (ErrText "resolved-call target set has no candidates");;
  put_u64 (boolBit (Exhaustive targets));;
  put_len (Candidates targets);;
  w_each target_candidate (Candidates targets).

Definition argument_mapping tableSchema (mapping : ArgumentMapping) : W S unit :=
  w_guard (ArgumentIndex mapping <? 0) (ErrText "argument mapping has negative argument index");;
  let! status := w_lift (wrap_err "argument mapping" (wireTransitionMappingStatusCode (Status mapping))) in
  let! reason := w_lift (wrap_err "argument mapping" (wireTransitionMappingReasonCode (Unresolved mapping))) in
  w_guard (xorb (status =? 0) (reason =? 0)) (ErrText "argument mapping status and reason disagree");;
  put_u64 (u64 (ArgumentIndex mapping));;
  put_u64 status;;
  put_u64 reason;;
  put_u64 (boolBit (bool_decide (is_Some (Parameter_ mapping))));;
  w_option (Parameter_ mapping) (fun parameter => writeWireTransitionParameter parameter tableSchema).

Definition writeWireTransitionResolvedCall (call : Call) tableSchema : W S unit :=
  let! validity := w_lift (wireTransitionValidityCode (Validity call)) in
  let! kind := w_lift (wireTransitionCallKindCode (call_Kind call)) in
  text (call_Target call);;
  text (ReturnTypeText call);;
  put_u64 validity;;
  put_u64 kind;;
  put_u64 (boolBit (bool_decide (is_Some (call_Declaration call))));;
  w_option (call_Declaration call) internalResolvedDeclaration;;
  w_when (TypeFactsTableSchemaVersionV6 <=? tableSchema)
    (put_u64 (boolBit (bool_decide (is_Some (Targets call))));;
     w_option (Targets call) call_targets);;
  put_len (call_Arguments call);;
  w_each (argument_mapping tableSchema) (call_Arguments call).

(** ** Entities *)

(** The codes the checks before the first byte compute. *)
Record entity_codes := mkEntityCodes {
  ec_callability : Z;
  ec_constructability : Z;
  ec_referenceSpace : Z;
  ec_arrayShape : Z;
  ec_tupleElementZero : Z;
}.

Definition tuple_element_zero (shape : TupleShape) : Callability :=
  if String.eqb (ElementZero shape) "" then CallabilityUnknown else ElementZero shape.

Definition tuple_code (shape : TupleShape) tableSchema : result Z :=
  let? code := wrap_err "entity tuple shape"
                 (wireTransitionCallabilityCode (tuple_element_zero shape) tableSchema) in
  if (FixedLength shape <? 0) || (ElementZeroMinimumParameters shape <? 0) || (ExactLength shape <? 0)
  then Err (ErrText "entity has a negative tuple count") else Ok code.

(** [var code uint64; if s != "" { code, err = f(s) }]. *)
Definition code_unless {A} (absent : bool) (code : A -> result Z) (value : A) : result Z :=
  if absent then Ok 0 else wrap_err "entity" (code value).

Definition entity_checks (path : string) (entity : EntityFact) tableSchema : result entity_codes :=
  if negb (String.eqb (Path (ef_Location entity)) path) then Err (ErrText "entity path, run path")
  else
    let? _ := wrap_err "entity location" (validateWireTransitionLocation (ef_Location entity)) in
    if negb (String.eqb (ef_Symbol entity) "") && SymbolUnresolved entity
    then Err (ErrText "entity cannot be both resolved and unresolved")
    else
      let? callability := code_unless (String.eqb (ef_Callability entity) "")
        (fun value => wireTransitionCallabilityCode value tableSchema) (ef_Callability entity) in
      let? constructability := code_unless (negb (Constructability_IsPresent (ef_Constructability entity)))
        wireTransitionConstructabilityCode (ef_Constructability entity) in
      let? referenceSpace := code_unless (String.eqb (ef_ReferenceSpace entity) "")
        wireTransitionReferenceSpaceCode (ef_ReferenceSpace entity) in
      let? arrayShape := code_unless (String.eqb (ef_ArrayShape entity) "")
        wireTransitionArrayShapeCode (ef_ArrayShape entity) in
      let? tupleElementZero :=
        match ef_TupleShape entity with Some shape => tuple_code shape tableSchema | None => Ok 0 end in
      Ok (mkEntityCodes callability constructability referenceSpace arrayShape tupleElementZero).

(** The optional fields: present, and carried by the schema. *)
Definition writes_call_result_domain (entity : EntityFact) tableSchema : bool :=
  (TypeFactsTableSchemaVersionV7 <=? tableSchema) && bool_decide (is_Some (CallResultDomain entity)).
Definition writes_constant_value (entity : EntityFact) tableSchema : bool :=
  (TypeFactsTableSchemaVersionV8 <=? tableSchema) && bool_decide (is_Some (ef_ConstantValue entity)).
Definition writes_array_shape (entity : EntityFact) tableSchema : bool :=
  (TypeFactsTableSchemaVersionV9 <=? tableSchema) && negb (String.eqb (ef_ArrayShape entity) "").
Definition writes_tuple_shape (entity : EntityFact) tableSchema : bool :=
  (TypeFactsTableSchemaVersionV11 <=? tableSchema) && bool_decide (is_Some (ef_TupleShape entity)).
Definition library_types (entity : EntityFact) : list string := default [] (LibraryTypes entity).
Definition writes_library_types (entity : EntityFact) tableSchema : bool :=
  (TypeFactsTableSchemaVersionV12 <=? tableSchema) && negb (len (library_types entity) =? 0).
Definition writes_primitive_value_domain (entity : EntityFact) tableSchema : bool :=
  (TypeFactsTableSchemaVersionV13 <=? tableSchema) && IsPresent (ef_PrimitiveValueDomain entity).
Definition writes_constructability (entity : EntityFact) tableSchema : bool :=
  (TypeFactsTableSchemaVersionV14 <=? tableSchema) && Constructability_IsPresent (ef_Constructability entity).
Definition writes_literal_candidates (entity : EntityFact) tableSchema : bool :=
  (TypeFactsTableSchemaVersionV16 <=? tableSchema) && negb (len (PrimitiveLiteralCandidates entity) =? 0).
Definition writes_unresolved (entity : EntityFact) tableSchema : bool :=
  (TypeFactsTableSchemaVersionV5 <=? tableSchema) && SymbolUnresolved entity.

Definition entity_flags (entity : EntityFact) tableSchema : Z :=
  let flags := 0 in
  let flags := or_flag (bool_decide (is_Some (ef_TypeDescriptor entity))) wireTransitionEntityHasTypeDescriptor flags in
  let flags := or_flag (bool_decide (is_Some (ResolvedCall entity))) wireTransitionEntityHasResolvedCall flags in
  let flags := or_flag (negb (String.eqb (ef_Callability entity) "")) wireTransitionEntityHasCallability flags in
  let flags := or_flag (negb (String.eqb (ef_ReferenceSpace entity) "")) wireTransitionEntityHasReferenceSpace flags in
  let flags := or_flag (negb (String.eqb (RuntimeIdentity entity) "")) wireTransitionEntityHasRuntimeIdentity flags in
  let flags := or_flag (bool_decide (is_Some (ef_RuntimeValueDomain entity))) wireTransitionEntityHasRuntimeValueDomain flags in
  let flags := or_flag (writes_call_result_domain entity tableSchema) wireTransitionEntityHasCallResultDomain flags in
  let flags := or_flag (writes_constant_value entity tableSchema) wireTransitionEntityHasConstantValue flags in
  let flags := or_flag (writes_array_shape entity tableSchema) wireTransitionEntityHasArrayShape flags in
  let flags := or_flag (writes_tuple_shape entity tableSchema) wireTransitionEntityHasTupleShape flags in
  let flags := or_flag (writes_library_types entity tableSchema) wireTransitionEntityHasLibraryTypes flags in
  let flags := or_flag (writes_primitive_value_domain entity tableSchema) wireTransitionEntityHasPrimitiveValueDomain flags in
  let flags := or_flag (writes_constructability entity tableSchema) wireTransitionEntityHasConstructability flags in
  let flags := or_flag (writes_literal_candidates entity tableSchema) wireTransitionEntityHasPrimitiveLiteralCandidates flags in
  or_flag (writes_unresolved entity tableSchema) wireTransitionEntitySymbolUnresolved flags.

Definition constant_value (value : ConstantValue) : W S unit :=
  if String.eqb (cv_Kind value) ConstantValueString then
    put_u64 0;; text (cv_String value)
  else if String.eqb (cv_Kind value) ConstantValueNumber then
    put_u64 1;; put_u64 (cv_Number value)
  else w_fail (ErrText "entity has unknown constant-value kind").

(** One packed word: the fixed slot count with the rest flag in bit 0; then
    element zero. *)
Definition tuple_shape (shape : TupleShape) (elementZero : Z) tableSchema : W S unit :=
  let packed := u64 (Z.shiftl (u64 (FixedLength shape)) 1) in
  let packed := if HasRest shape then Z.lor packed 1 else packed in
  put_u64 packed;;
  put_u64 elementZero;;
  put_u64 (u64 (ElementZeroMinimumParameters shape));;
  w_when (TypeFactsTableSchemaVersionV13 <=? tableSchema)
    (put_u64 (if ExactLengthKnown shape then u64 (u64 (ExactLength shape) + 1) else 0)).

Definition literal_candidate (candidate : PrimitiveLiteralCandidate) : W S unit :=
  if String.eqb (plc_Kind candidate) PrimitiveLiteralString then
    put_u64 0;; text (plc_String candidate)
  else if String.eqb (plc_Kind candidate) PrimitiveLiteralNumber then
    w_guard (is_nan (plc_Number candidate) || is_inf (plc_Number candidate))
      (ErrText "entity has non-finite primitive literal candidate");;
    put_u64 1;; put_u64 (plc_Number candidate)
  else if String.eqb (plc_Kind candidate) PrimitiveLiteralBoolean then
    put_u64 2;; (if plc_Boolean candidate then put_u64 1 else put_u64 0)
  else w_fail (ErrText "entity has unknown primitive literal kind").

Definition entity_row (path : string) tableSchema (entity : EntityFact) (previousStart : Z) : W S Z :=
  let! codes := w_lift (entity_checks path entity tableSchema) in
  let start := StartByte (ef_Location entity) in
  signed (i64 (start - previousStart));;
  put_u64 (u64 (i64 (EndByte (ef_Location entity) - StartByte (ef_Location entity))));;
  text (ef_Symbol entity);;
  put_u64 (entity_flags entity tableSchema);;
  w_option (ef_TypeDescriptor entity) internalTypeDescriptor;;
  w_option (ResolvedCall entity) (fun call =>
    w_wrap "entity resolved call" (writeWireTransitionResolvedCall call tableSchema));;
  w_when (negb (String.eqb (ef_Callability entity) "")) (put_u64 (ec_callability codes));;
  w_when (negb (String.eqb (ef_ReferenceSpace entity) "")) (put_u64 (ec_referenceSpace codes));;
  w_when (negb (String.eqb (RuntimeIdentity entity) "")) (text (RuntimeIdentity entity));;
  w_option (ef_RuntimeValueDomain entity) (fun d => put_u64 (wireTransitionRuntimeValueDomainBits d));;
  w_when (TypeFactsTableSchemaVersionV7 <=? tableSchema)
    (w_option (CallResultDomain entity) (fun d => put_u64 (wireTransitionRuntimeValueDomainBits d)));;
  w_when (TypeFactsTableSchemaVersionV8 <=? tableSchema) (w_option (ef_ConstantValue entity) constant_value);;
  w_when (writes_array_shape entity tableSchema) (put_u64 (ec_arrayShape codes));;
  w_when (TypeFactsTableSchemaVersionV11 <=? tableSchema)
    (w_option (ef_TupleShape entity) (fun shape => tuple_shape shape (ec_tupleElementZero codes) tableSchema));;
  w_when (writes_library_types entity tableSchema)
    (put_len (library_types entity);; w_each text (library_types entity));;
  w_when (writes_primitive_value_domain entity tableSchema)
    (put_u64 (wireTransitionPrimitiveValueDomainBits (ef_PrimitiveValueDomain entity)));;
  w_when (writes_constructability entity tableSchema) (put_u64 (ec_constructability codes));;
  w_when (writes_literal_candidates entity tableSchema)
    (put_len (PrimitiveLiteralCandidates entity);;
     w_each literal_candidate (PrimitiveLiteralCandidates entity));;
  w_ret start.

Definition writeWireTransitionEntityRun (path : string) (entities : list EntityFact) tableSchema : W S unit :=
  put_len entities;;
  w_fold (entity_row path tableSchema) entities 0;;
  w_ret tt.

(** ** Files *)

Definition source_binding (binding : SourceBinding) : W S unit :=
  put_u64 (or_flag (Array binding) bindingFlagArray 0);;
  internalLocations (Names binding);;
  internalSourceCall (Initializer binding).

Definition source_function (function : SourceFunction) : W S unit :=
  let! state := internalLocation (sf_Name function) no_location in
  let! _ := internalLocation (Body function) state in
  internalLocations (sf_Parameters function);;
  let flags := 0 in
  let flags := or_flag (Exported function) functionFlagExported flags in
  let flags := or_flag (sf_Async function) functionFlagAsync flags in
  let flags := or_flag (Arrow function) functionFlagArrow flags in
  put_u64 flags.

Definition async_function (function : AsyncFunctionFact) : W S unit :=
  internalLocation (Expression function) no_location;;
  text (af_Symbol function);;
  text (af_Target function);;
  put_u64 (or_flag (CanReturnAsync function) asyncFunctionFlagCanReturnAsync 0);;
  internalLocations (CallsAfterAwait function).

Definition writeWireTransitionFileBody (file : FileFact) : W S unit :=
  put_len (Calls file);;
  w_each internalSourceCall (Calls file);;
  put_len (Bindings file);;
  w_each source_binding (Bindings file);;
  put_len (Functions file);;
  w_each source_function (Functions file);;
  put_len (AsyncFunctions file);;
  w_each async_function (AsyncFunctions file).

(** ** Operations *)

(** The operations are a closed type, so the [default] is out of reach. *)
Definition validateWireTransitionCollectionOp (operation : wireTransitionCollectionOp) : result unit :=
  match operation with
  | wireTransitionUnchanged | wireTransitionReplace | wireTransitionRemove => Ok tt
  end.

Definition wireTransitionPathFlags (operation : wireTransitionPathOp) : result Z :=
  let? _ := validateWireTransitionCollectionOp (sourceOp operation) in
  let? _ := validateWireTransitionCollectionOp (entityOp operation) in
  let? _ := validateWireTransitionCollectionOp (fileOp operation) in
  Ok (Z.lor (Z.shiftl (collection_op_tag (sourceOp operation)) wireTransitionSourceOpShift)
     (Z.lor (Z.shiftl (collection_op_tag (entityOp operation)) wireTransitionEntityOpShift)
            (Z.shiftl (collection_op_tag (fileOp operation)) wireTransitionFileOpShift))).

Definition is_replace (op : wireTransitionCollectionOp) : bool := bool_decide (op = wireTransitionReplace).

Definition writeWireTransitionPathOp (operation : wireTransitionPathOp) tableSchema : W S unit :=
  w_guard (String.eqb (op_path operation) "") (ErrText "path operation has an empty path");;
  let! flags := w_lift (wireTransitionPathFlags operation) in
  text (op_path operation);;
  put_u64 flags;;
  w_when (is_replace (sourceOp operation))
    (w_guard (negb (String.eqb (dig_Path (op_source operation)) (op_path operation)))
       (ErrText "source replacement path, operation path");;
     raw (SHA256 (op_source operation)));;
  w_when (is_replace (entityOp operation))
    (w_wrap "entity replacement"
       (writeWireTransitionEntityRun (op_path operation) (op_entities operation) tableSchema));;
  w_when (is_replace (fileOp operation))
    (w_guard (negb (String.eqb (ff_Path (op_file operation)) (op_path operation)))
       (ErrText "file replacement path, operation path");;
     writeWireTransitionFileBody (op_file operation)).

Inductive wireTransitionMode := wireTransitionFull | wireTransitionDelta.
#[export] Instance mode_eq_dec : EqDecision wireTransitionMode.
Proof. solve_decision. Defined.
Definition mode_tag (mode : wireTransitionMode) : Z :=
  match mode with wireTransitionFull => 0 | wireTransitionDelta => 1 end.

Definition reference_check (path : string) (reference : Location) : W S unit :=
  w_guard (negb (String.eqb (Path reference) path)) (ErrText "reference path, operation path");;
  w_lift (wrap_err "reference location" (validateWireTransitionLocation reference)).

Definition writeWireTransitionSymbolOp (mode : wireTransitionMode) (operation : wireTransitionSymbolOp) : W S unit :=
  w_guard (String.eqb (sop_id operation) "") (ErrText "symbol operation has an empty ID");;
  let! id := w_intern (sop_id operation) in
  (if bool_decide (mode = wireTransitionFull) then
     w_guard (bool_decide (sop_tag operation <> wireTransitionReplaceSymbol))
       (ErrText "full symbol operation tag, want replace");;
     put_u64 id
   else put_u64 (Z.lor (u64 (Z.shiftl id 2)) (symbol_op_tag (sop_tag operation))));;
  match sop_tag operation with
  | wireTransitionReplaceSymbol =>
      w_guard (negb (String.eqb (ID (sop_fact operation)) (sop_id operation)))
        (ErrText "symbol replacement ID, operation ID");;
      text (AliasTarget (sop_fact operation));;
      internalDeclarations (Declarations (sop_fact operation));;
      (if String.eqb (AliasTarget (sop_fact operation)) ""
       then internalLocations (References (sop_fact operation))
       else put_u64 0)
  | wireTransitionRemoveSymbol => w_ret tt
  | wireTransitionReplaceReferencePath =>
      w_guard (String.eqb (sop_referencePath operation) "")
        (ErrText "symbol reference operation has an empty path");;
      text (sop_referencePath operation);;
      w_each (reference_check (sop_referencePath operation)) (sop_references operation);;
      internalLocations (sop_references operation)
  end.
End Rows.

(** ** The row writers are programs *)
#[global] Typeclasses Opaque parameter_declaration object_property writeWireTransitionParameter target_candidate
  call_targets argument_mapping writeWireTransitionResolvedCall constant_value tuple_shape literal_candidate
  entity_row writeWireTransitionEntityRun source_binding source_function async_function
  writeWireTransitionFileBody reference_check writeWireTransitionSymbolOp writeWireTransitionPathOp.

Section RowPrograms.
Context {S T : Type}.

#[export] Instance program_parameter_declaration d : program (S:=S) (T:=T) (parameter_declaration d) (parameter_declaration d).
Proof. unfold parameter_declaration. apply _. Qed.
#[export] Instance program_object_property p : program (S:=S) (T:=T) (object_property p) (object_property p).
Proof. unfold object_property. apply _. Qed.
#[export] Instance program_parameter p s : program (S:=S) (T:=T) (writeWireTransitionParameter p s) (writeWireTransitionParameter p s).
Proof. unfold writeWireTransitionParameter. apply _. Qed.
#[export] Instance program_candidate d : program (S:=S) (T:=T) (target_candidate d) (target_candidate d).
Proof. unfold target_candidate. apply _. Qed.
#[export] Instance program_targets t : program (S:=S) (T:=T) (call_targets t) (call_targets t).
Proof. unfold call_targets. apply _. Qed.
#[export] Instance program_argument s m : program (S:=S) (T:=T) (argument_mapping s m) (argument_mapping s m).
Proof. unfold argument_mapping. apply _. Qed.
#[export] Instance program_call c s : program (S:=S) (T:=T) (writeWireTransitionResolvedCall c s) (writeWireTransitionResolvedCall c s).
Proof. unfold writeWireTransitionResolvedCall. apply _. Qed.
#[export] Instance program_constant v : program (S:=S) (T:=T) (constant_value v) (constant_value v).
Proof. unfold constant_value. apply _. Qed.
#[export] Instance program_tuple shape z s : program (S:=S) (T:=T) (tuple_shape shape z s) (tuple_shape shape z s).
Proof. unfold tuple_shape. apply _. Qed.
#[export] Instance program_literal c : program (S:=S) (T:=T) (literal_candidate c) (literal_candidate c).
Proof. unfold literal_candidate. apply _. Qed.
#[export] Instance program_entity path s e previous : program (S:=S) (T:=T) (entity_row path s e previous) (entity_row path s e previous).
Proof. unfold entity_row. apply _. Qed.
#[export] Instance program_entity_run path es s : program (S:=S) (T:=T) (writeWireTransitionEntityRun path es s) (writeWireTransitionEntityRun path es s).
Proof. unfold writeWireTransitionEntityRun. apply _. Qed.
#[export] Instance program_binding b : program (S:=S) (T:=T) (source_binding b) (source_binding b).
Proof. unfold source_binding. apply _. Qed.
#[export] Instance program_function f : program (S:=S) (T:=T) (source_function f) (source_function f).
Proof. unfold source_function. apply _. Qed.
#[export] Instance program_async f : program (S:=S) (T:=T) (async_function f) (async_function f).
Proof. unfold async_function. apply _. Qed.
#[export] Instance program_file f : program (S:=S) (T:=T) (writeWireTransitionFileBody f) (writeWireTransitionFileBody f).
Proof. unfold writeWireTransitionFileBody. apply _. Qed.
#[export] Instance program_reference path l : program (S:=S) (T:=T) (reference_check path l) (reference_check path l).
Proof. unfold reference_check. apply _. Qed.
#[export] Instance program_symbol_op mode op : program (S:=S) (T:=T) (writeWireTransitionSymbolOp mode op) (writeWireTransitionSymbolOp mode op).
Proof. unfold writeWireTransitionSymbolOp. destruct (sop_tag op); apply _. Qed.

(** A digest is a Go [[32]byte]. *)
Lemma program_path_op op s :
  length (SHA256 (op_source op)) = 32%nat -> program (S:=S) (T:=T) (writeWireTransitionPathOp op s) (writeWireTransitionPathOp op s).
Proof.
  intros H. assert (program (S:=S) (T:=T) (raw (SHA256 (op_source op))) (raw (SHA256 (op_source op)))).
  { apply program_raw. unfold len, max_write. lia. }
  unfold writeWireTransitionPathOp. apply _.
Qed.
End RowPrograms.
