(* ===== verification/Transition.v ===== *)
(** * The transition encoder

    [wireTransitionEncoder] of [wire_transition.go]: validation, planning, the
    rows program, and the two ways out, a detached frame or an arena that takes
    the rows in chunks. The buffers [rows] and [frame] are scratch whose
    contents are never read back, so only the bytes written are modelled. *)

From S2P Require Import Prelude GoStd GoText GoBytes SortedPaths Model FactEqual SymbolStore FactTable TransitionDiff StringTable Writer Rows.
Open Scope Z_scope.

Definition wireTransitionVersion : Z := 1.
Definition maxRetainedWireTransitionBuffer : Z := Z.shiftl 1 20.
Definition streamedWireTransitionChunk : Z := Z.shiftl 64 10.

Record wireTransitionInput := mkTransitionInput {
  in_ProjectID : string;
  in_BaseStateToken : string;
  in_Base : option FactTable;
  in_Target : option FactTable;
  in_Sparse : bool;
}.

Record encodedWireTransition := mkEncoded {
  Bytes : list Z;
  enc_Mode : wireTransitionMode;
  PathOperations : Z;
  SymbolOperations : Z;
}.

(** The interface; [S] is what the implementation keeps. *)
Record TransitionArena (S : Type) := mkArena {
  AppendRows : S -> list Z -> S * option error;
  Finish : S -> list Z -> S * option error;
}.
Arguments AppendRows {S}.
Arguments Finish {S}.

Record wireTransitionEncoder := mkEncoder {
  e_tableSchema : Z;
  e_dict : option stringTableV3;
  e_plan : wirePlan;
}.

Definition set_plan (e : wireTransitionEncoder) (p : wirePlan) : wireTransitionEncoder :=
  mkEncoder (e_tableSchema e) (e_dict e) p.
Definition set_dict (e : wireTransitionEncoder) (d : option stringTableV3) : wireTransitionEncoder :=
  mkEncoder (e_tableSchema e) d (e_plan e).

(** ** Validation *)

Definition validateWireTransitionInput (input : wireTransitionInput) : result (wireTransitionMode * Z * FactTable) :=
  match in_Target input with
  | None => Err (ErrText "wire transition target is nil")
  | Some target =>
      if String.eqb (in_ProjectID input) "" then Err (ErrText "wire transition project ID is empty")
      else if negb (Schema target =? TypeFactsSchemaVersion) then Err (ErrText "wire transition target schema")
      else if Generation target =? 0 then Err (ErrText "wire transition target generation is zero")
      else
        match in_Base input with
        | None =>
            if negb (String.eqb (in_BaseStateToken input) "")
            then Err (ErrText "full wire transition carries a base state token")
            else Ok (wireTransitionFull, 0, target)
        | Some base =>
            if negb (Schema base =? TypeFactsSchemaVersion) then Err (ErrText "wire transition base schema")
            else if String.eqb (in_BaseStateToken input) "" then Err (ErrText "delta wire transition has no base state token")
            else if Generation base =? 0 then Err (ErrText "delta wire transition base generation is zero")
            else if Generation target <? Generation base
            then Err (ErrText "wire transition target generation precedes base generation")
            else Ok (wireTransitionDelta, Generation base, target)
        end
  end.

Section Encoder.
Context `{BK : !Backing} `{MR : !MapRange}.

(** ** Planning *)

(** The candidate of one collection: unconditional upserts and removals. *)
Definition sparse_op (candidate present : bool) : wireTransitionCollectionOp :=
  if candidate then (if present then wireTransitionReplace else wireTransitionRemove) else wireTransitionUnchanged.

Definition sparse_path_op (target : FactTable) (manifest : factTableTransportChanges) (path : string) :
    wireTransitionPathOp :=
  let rows := wireTransitionPathRowsAt target path in
  let source := sparse_op (bool_decide (path ∈ sourcePaths manifest)) (bool_decide (is_Some (rows_source rows))) in
  let entity := sparse_op (bool_decide (path ∈ entityPaths manifest)) (negb (len (rows_entities rows) =? 0)) in
  let file := sparse_op (bool_decide (path ∈ filePaths manifest)) (bool_decide (is_Some (rows_file rows))) in
  mkPathOp path
    source (if is_replace source then default empty_digest (rows_source rows) else empty_digest)
    entity (if is_replace entity then rows_entities rows else [])
    file (if is_replace file then default empty_file (rows_file rows) else empty_file).

Definition planSparseDelta (base target : FactTable) (manifest : factTableTransportChanges) (e : wirePlan) : wirePlan :=
  let paths := plan_paths e ++ range_set (sourcePaths manifest) in
  let paths := paths ++ range_set (entityPaths manifest) in
  let paths := paths ++ range_set (filePaths manifest) in
  let paths := sortUniqueWireTransitionPaths paths in
  let ops := plan_pathOps e ++ map (sparse_path_op target manifest) paths in
  planExactSymbolDelta base target manifest (mkPlan paths (plan_symbolIDs e) ops (plan_symbolOps e)).

(** The plan [encode] makes; [e] is released. *)
Definition plan_transition (input : wireTransitionInput) (target : FactTable) (e : wirePlan) : result wirePlan :=
  match in_Base input with
  | None => Ok (planFull target e)
  | Some base =>
      if in_Sparse input then
        match transport target with
        | Some manifest => if exact manifest then Ok (planSparseDelta base target manifest e) else Err ErrSparseTransitionUnavailable
        | None => Err ErrSparseTransitionUnavailable
        end
      else Ok (planDelta base target e)
  end.

Definition path_operation_count (mode : wireTransitionMode) (p : wirePlan) : Z :=
  match mode with wireTransitionFull => len (plan_paths p) | wireTransitionDelta => len (plan_pathOps p) end.
Definition symbol_operation_count (mode : wireTransitionMode) (target : FactTable) (p : wirePlan) : Z :=
  match mode with
  | wireTransitionFull => Z.of_nat (symbolFactsCount target)
  | wireTransitionDelta => len (plan_symbolOps p)
  end.

(** ** The rows *)
Section RowsProgram.
Context {S : Type}.

Definition intern_key (key : string) : W S unit := let! _ := w_intern key in w_ret tt.

Definition internOperationKeys (p : wirePlan) : W S unit :=
  w_each (fun op => intern_key (op_path op)) (plan_pathOps p);;
  w_each (fun op => intern_key (sop_id op)) (plan_symbolOps p);;
  w_each (fun op => w_when (bool_decide (sop_tag op = wireTransitionReplaceReferencePath))
                      (intern_key (sop_referencePath op))) (plan_symbolOps p).

Definition internFullOperationKeys (target : FactTable) (p : wirePlan) : W S unit :=
  w_each intern_key (plan_paths p);;
  w_each (fun fact => intern_key (ID fact)) (rangeSymbolFacts target).

Definition intern_keys (mode : wireTransitionMode) (target : FactTable) (p : wirePlan) : W S unit :=
  match mode with
  | wireTransitionFull => internFullOperationKeys target p
  | wireTransitionDelta => internOperationKeys p
  end.

Definition full_path_op (target : FactTable) (path : string) : wireTransitionPathOp * bool :=
  wireTransitionPathDifference None target path true true true.

Definition write_full_path (target : FactTable) (tableSchema : Z) (path : string) : W S unit :=
  let '(operation, changed) := full_path_op target path in
  w_guard (negb changed) (ErrText "encode path operation: full path has no rows");;
  w_wrap "encode path operation" (writeWireTransitionPathOp operation tableSchema).

Definition write_symbol (mode : wireTransitionMode) (operation : wireTransitionSymbolOp) : W S unit :=
  w_wrap "encode symbol operation" (writeWireTransitionSymbolOp mode operation).

Definition write_path_ops (mode : wireTransitionMode) (target : FactTable) (tableSchema : Z) (p : wirePlan) : W S unit :=
  match mode with
  | wireTransitionFull => w_each (write_full_path target tableSchema) (plan_paths p)
  | wireTransitionDelta =>
      w_each (fun op => w_wrap "encode path operation" (writeWireTransitionPathOp op tableSchema)) (plan_pathOps p)
  end.

Definition write_symbol_ops (mode : wireTransitionMode) (target : FactTable) (p : wirePlan) : W S unit :=
  match mode with
  | wireTransitionFull =>
      w_each (fun fact => write_symbol mode (replace_symbol (ID fact) fact)) (rangeSymbolFacts target);;
      w_guard (negb (len (rangeSymbolFacts target) =? symbol_operation_count mode target p))
        (ErrText "encoded full symbol operations, want")
  | wireTransitionDelta => w_each (write_symbol mode) (plan_symbolOps p)
  end.

Definition transition_rows (input : wireTransitionInput) (mode : wireTransitionMode) (target : FactTable)
    (tableSchema : Z) (p : wirePlan) : W S unit :=
  text (in_ProjectID input);;
  text (in_BaseStateToken input);;
  intern_keys mode target p;;
  put_u64 (u64 (path_operation_count mode p));;
  write_path_ops mode target tableSchema p;;
  put_u64 (u64 (symbol_operation_count mode target p));;
  write_symbol_ops mode target p.

Definition transition_header (mode : wireTransitionMode) (tableSchema baseGeneration targetGeneration : Z)
    (dictionary : list string) : W S unit :=
  put_u64 wireTransitionVersion;;
  put_u64 (mode_tag mode);;
  put_u64 tableSchema;;
  put_u64 baseGeneration;;
  put_u64 targetGeneration;;
  appendPackedDictionary dictionary.
End RowsProgram.

(** ** Encoding *)

(** [packedWriter{bytes: e.rows[:0], dict: e.dict}], with the arena's
    callback; the frame's writer has neither. *)
Definition rows_writer {S} (arena : option (TransitionArena S)) (d : stringTableV3) (s : S) : packedWriter S :=
  match arena with
  | None => mkWriter [] d None 0 0 None s
  | Some a => mkWriter [] d (Some (AppendRows a)) streamedWireTransitionChunk 0 None s
  end.
Definition frame_writer : packedWriter unit := mkWriter [] newStringTableV3 None 0 0 None tt.

(** [e.dict], [e.pathOps], [e.symbolOps], [e.paths] and [e.symbolIDs] dropped. *)
Definition drop_one_shot (e : wireTransitionEncoder) : wireTransitionEncoder :=
  mkEncoder (e_tableSchema e) None (mkPlan [] [] [] []).

(** The bytes handed out, and the encoder that handed them out. *)
Definition detachFrame (e : wireTransitionEncoder) (frame : list Z) : wireTransitionEncoder * list Z :=
  if maxRetainedWireTransitionBuffer <=? len frame then (drop_one_shot e, frame) else (e, frame).

(** What the arena path does instead once the arena has the frame. *)
Definition detach_streamed (e : wireTransitionEncoder) (flushed : Z) (frame : list Z) : wireTransitionEncoder :=
  if maxRetainedWireTransitionBuffer <=? i64 (flushed + len frame) then drop_one_shot e else e.

(** The deferred [resetDictionary] and [releasePlan]. *)
Definition close_encoder (e : wireTransitionEncoder) : wireTransitionEncoder :=
  mkEncoder (e_tableSchema e) (Some (resetDictionary (e_dict e))) (releasePlan (e_plan e)).

Definition encode {S} (e : wireTransitionEncoder) (input : wireTransitionInput)
    (arena : option (TransitionArena S)) (s : S) :
    wireTransitionEncoder * S * result encodedWireTransition :=
  match validateWireTransitionInput input with
  | Err err => (e, s, Err err)
  | Ok (mode, baseGeneration, target) =>
      let e := set_plan e (releasePlan (e_plan e)) in
      match plan_transition input target (e_plan e) with
      | Err err => (e, s, Err err)
      | Ok p =>
          let paths := path_operation_count mode p in
          let symbols := symbol_operation_count mode target p in
          if bool_decide (mode = wireTransitionDelta) && (baseGeneration =? Generation target) &&
             (paths =? 0) && (symbols =? 0)
          then (set_plan e (releasePlan p), s, Ok (mkEncoded [] mode 0 0))
          else
            let e := set_plan e p in
            let tableSchema := if e_tableSchema e =? 0 then TypeFactsTableSchemaVersion else e_tableSchema e in
            let '(rows, r) := transition_rows input mode target tableSchema p
                                (rows_writer arena (resetDictionary (e_dict e)) s) in
            let e := set_dict e (Some (dict rows)) in
            match r with
            | Err err => (close_encoder e, sink rows, Err err)
            | Ok _ =>
                let '(rows, failed) := finish rows in
                match failed with
                | Some err => (close_encoder e, sink rows, Err (ErrWrap "stream transition rows" err))
                | None =>
                    let '(frame, _) := transition_header mode tableSchema baseGeneration (Generation target)
                                         (values (dict rows)) frame_writer in
                    match arena with
                    | Some a =>
                        let '(s, failed) := Finish a (sink rows) (w_bytes frame) in
                        match failed with
                        | Some err => (close_encoder e, s, Err (ErrWrap "finish transition arena" err))
                        | None =>
                            (close_encoder (detach_streamed e (flushed rows) (w_bytes frame)), s,
                             Ok (mkEncoded [] mode paths symbols))
                        end
                    | None =>
                        let '(e, owned) := detachFrame e (w_bytes frame ++ w_bytes rows) in
                        (close_encoder e, sink rows, Ok (mkEncoded owned mode paths symbols))
                    end
                end
            end
      end
  end.

(** Without an arena nothing is ever put in the sink. *)
Definition no_sink : list (list Z) := [].

Definition Encode (e : wireTransitionEncoder) (input : wireTransitionInput) :
    wireTransitionEncoder * result encodedWireTransition :=
  let '(e, _, r) := encode e input None no_sink in (e, r).

Definition EncodeInto {S} (e : wireTransitionEncoder) (input : wireTransitionInput)
    (arena : option (TransitionArena S)) (s : S) : wireTransitionEncoder * S * result encodedWireTransition :=
  match arena with
  | None => (e, s, Err (ErrText "transition arena is nil"))
  | Some a => encode e input (Some a) s
  end.
End Encoder.
