(* ===== verification/SparseDelta.v ===== *)
(** * Sparse deltas

    [planSparseDelta] sends unconditional upserts and removals for the keys of
    an exact manifest: the client keeps the base table, so whatever rows it has
    at a candidate path, it ends with the target's. *)

From S2P Require Import Prelude GoStd SortedPaths Model FactEqual SymbolStore FactTable TransitionDiff PathDelta Writer Rows Transition.
Open Scope Z_scope.

Section Sparse.
Context `{BK : !Backing} `{MR : !MapRange}.

(** The paths the manifest names. *)
Definition candidate_paths (manifest : factTableTransportChanges) : gset string :=
  sourcePaths manifest ∪ entityPaths manifest ∪ filePaths manifest.

(** Rows that differ from the target's at most in the collections the manifest
    names. *)
Record agrees_outside (manifest : factTableTransportChanges) (p : string) (rows next : wireTransitionPathRows) : Prop := {
  outside_path : rows_path rows = rows_path next;
  outside_source : p ∉ sourcePaths manifest -> rows_source rows = rows_source next;
  outside_entities : p ∉ entityPaths manifest -> rows_entities rows = rows_entities next;
  outside_file : p ∉ filePaths manifest -> rows_file rows = rows_file next;
}.

Lemma apply_sparse {A} c b (value old gone next : A) :
  (c = false -> old = next) -> (c = true -> b = true -> value = next) -> (c = true -> b = false -> gone = next) ->
  apply_collection (sparse_op c b) value old gone = next.
Proof. intros H1 H2 H3. unfold sparse_op. destruct c, b; simpl; auto. Qed.

Lemma is_replace_sparse c b : is_replace (sparse_op c b) = c && b.
Proof. by destruct c, b. Qed.

Lemma sparse_path_op_apply target manifest p rows :
  agrees_outside manifest p rows (wireTransitionPathRowsAt target p) ->
  apply_path_op (sparse_path_op target manifest p) rows = wireTransitionPathRowsAt target p.
Proof.
  intros [Hp Hs He Hf]. unfold apply_path_op, sparse_path_op. cbn [sourceOp op_source entityOp op_entities fileOp op_file].
  rewrite !is_replace_sparse. destruct (wireTransitionPathRowsAt target p) as [q s es f]. simpl in *. f_equal; [done|..];
    apply apply_sparse; rewrite ?bool_decide_eq_true, ?bool_decide_eq_false; try done.
  - intros Hc Hb. rewrite !bool_decide_true by done. by destruct s; [|destruct Hb].
  - intros Hc Hb. destruct s; [|done]. destruct Hb. by eexists.
  - intros Hc Hb. rewrite bool_decide_true by done. by rewrite Hb.
  - intros Hc Hb. destruct es; [done|]. unfold len in Hb. simpl in Hb. lia.
  - intros Hc Hb. rewrite !bool_decide_true by done. by destruct f; [|destruct Hb].
  - intros Hc Hb. destruct f; [|done]. destruct Hb. by eexists.
Qed.

Lemma sparse_ops base target manifest e :
  plan_paths e = [] -> plan_pathOps e = [] ->
  exists paths, plan_pathOps (planSparseDelta base target manifest e) = map (sparse_path_op target manifest) paths /\
    keys_sorted id paths /\ forall p, p ∈ paths <-> p ∈ candidate_paths manifest.
Proof.
  intros Hp Ho. unfold planSparseDelta. cbn [plan_pathOps planExactSymbolDelta]. rewrite Hp, Ho. cbn [app].
  eexists. split; [done|]. destruct (sortUnique_spec ((range_set (sourcePaths manifest) ++ range_set (entityPaths manifest)) ++
    range_set (filePaths manifest))) as [H1 H2]. split; [exact H1|]. intros p. rewrite H2, !elem_of_app, !range_set_elem.
  unfold candidate_paths. set_solver.
Qed.

Lemma sparse_sorted target manifest paths :
  keys_sorted id paths -> keys_sorted op_path (map (sparse_path_op target manifest) paths).
Proof.
  unfold keys_sorted. intros Hs. change (map ?f paths) with (f <$> paths). by rewrite <- list_fmap_compose.
Qed.

Lemma find_sparse target manifest paths p :
  keys_sorted id paths ->
  find_key op_path (map (sparse_path_op target manifest) paths) p =
    if bool_decide (p ∈ paths) then Some (sparse_path_op target manifest p) else None.
Proof.
  intros Hs. pose proof (sparse_sorted target manifest paths Hs) as Hk.
  case_bool_decide as Hp.
  - apply find_key_spec; [done|]. split; [|done]. apply list_elem_of_fmap. by exists p.
  - apply find_key_None; [done|]. intros (x & -> & (q & -> & Hq)%list_elem_of_fmap)%list_elem_of_fmap. done.
Qed.

(** C33: The sparse plan has strictly path-ordered operations for exactly the paths the manifest
    names, and applied to rows that differ from the target only in the named collections they
    give the target's rows. *)
Theorem sparse_delta_applies base target manifest e p rows :
  plan_paths e = [] -> plan_pathOps e = [] ->
  agrees_outside manifest p rows (wireTransitionPathRowsAt target p) ->
  let ops := plan_pathOps (planSparseDelta base target manifest e) in
  keys_sorted op_path ops /\
  (is_Some (find_key op_path ops p) <-> p ∈ candidate_paths manifest) /\
  match find_key op_path ops p with Some op => apply_path_op op rows | None => rows end =
    wireTransitionPathRowsAt target p.
Proof.
  intros Hp Ho Hr. destruct (sparse_ops base target manifest e Hp Ho) as (paths & -> & Hs & Hin).
  cbv zeta. rewrite find_sparse by done. split; [by apply sparse_sorted|].
  case_bool_decide as Hc; (split; [rewrite <- Hin|]).
  - split; [done|by eexists].
  - by apply sparse_path_op_apply.
  - split; [by intros []|done].
  - rewrite Hin in Hc. unfold candidate_paths in Hc. destruct Hr as [H1 H2 H3 H4].
    destruct rows as [q s es f], (wireTransitionPathRowsAt target p) as [q' s' es' f']. simpl in *.
    f_equal; [done|..]; set_solver.
Qed.
End Sparse.

(** The client's rows at a candidate path are replaced whatever they are. *)
Lemma sparse_delta_applies_witness :
  let manifest := mkTransportChanges 1 1 {["b.ts"]} {["a.ts"]} ∅ ∅ true in
  let rows := mkPathRows "a.ts" None [table_row "a.ts" 40] None in
  exists op, find_key op_path (plan_pathOps (planSparseDelta (sample_table true) (sample_table true) manifest fresh_plan)) "a.ts" = Some op /\
    apply_path_op op rows = wireTransitionPathRowsAt (sample_table true) "a.ts".
Proof.
  intros manifest rows.
  assert (agrees_outside manifest "a.ts" rows (wireTransitionPathRowsAt (sample_table true) "a.ts")) as Ha.
  { split; [reflexivity|vm_compute; reflexivity|intros H; exfalso; apply H; simpl; set_solver|vm_compute; reflexivity]. }
  destruct (sparse_delta_applies (sample_table true) (sample_table true) manifest fresh_plan "a.ts" rows eq_refl eq_refl Ha)
    as (_ & [_ H] & E).
  destruct (find_key _ _ _) as [op|]; [exists op; split; [reflexivity|exact E]|].
  destruct (H ltac:(unfold candidate_paths, manifest; simpl; set_solver)) as [op Hop]. discriminate Hop.
Defined.
