(* ===== verification/AnalysisSpec.v ===== *)
(** * One analysis and the client's rows

    What a replica of the rows becomes under the operations of a transition;
    the runs after a table was built, and what the client ends with when it
    applies the transition to it: at the path of a run, either the rows the
    backend was just asked for, or what it had there for the same run before. *)

From S2P Require Import Prelude GoStd GoText GoSha SortedPaths Model FactEqual SymbolStore FactTable TransitionDiff PathDelta TransportManifest CompactDemands DemandGroup SessionDemands Proc Contributions ContributionStore Closure Materialize MaterializeSpec DemandEdits MaterializeTable ClosureSpec Writer Rows Transition SparseDelta.
Open Scope Z_scope.

Section Replica.
Context `{BK : !Backing} `{MR : !MapRange}.

(** The entity rows a client has, by path. *)
Definition replica : Type := string -> list EntityFact.

Definition apply_entities (op : wireTransitionPathOp) (old : list EntityFact) : list EntityFact :=
  apply_collection (entityOp op) (op_entities op) old [].

(** The rows after the transition planned as [p] from [input]. *)
Definition replica_apply (input : wireTransitionInput) (p : wirePlan) (client : replica) : replica := fun path =>
  match in_Base input, in_Target input with
  | None, Some target =>
      if bool_decide (path ∈ plan_paths p) then apply_entities (fst (full_path_op target path)) [] else []
  | Some _, _ =>
      match find_key op_path (plan_pathOps p) path with
      | Some op => apply_entities op (client path)
      | None => client path
      end
  | None, None => client path
  end.

(** ** Full transitions *)

Lemma absent_path_rows t path : table_ok t -> path ∉ table_paths t -> wireTransitionEntityPath t path = [].
Proof.
  intros Hok Hn. rewrite (entity_path_rows t path Hok). unfold table_paths in Hn. rewrite stream_paths_elem in Hn.
  destruct (table_runs_ok t Hok) as [Hs _].
  by rewrite (proj2 (find_key_None run_path _ path Hs)) by tauto.
Qed.

Lemma full_entities t path : apply_entities (fst (full_path_op t path)) [] = wireTransitionEntityPath t path.
Proof.
  unfold full_path_op, wireTransitionPathDifference, wireTransitionPathRowsDifference, apply_entities.
  destruct (source_difference _ _ _) as [sop s]. destruct (file_difference _ _ _) as [fop f].
  assert (rows_entities (wireTransitionPathRowsAt t path) = wireTransitionEntityPath t path) as -> by done.
  cbn [rows_entities empty_rows]. unfold entity_difference. simpl.
  destruct (wireTransitionEntityPath t path) as [|e es]; [done|]. simpl. done.
Qed.

Lemma full_replica input t p client path : in_Base input = None -> in_Target input = Some t -> table_ok t ->
  plan_transition input t fresh_plan = Ok p -> replica_apply input p client path = wireTransitionEntityPath t path.
Proof.
  intros Hb Ht Hok Hp. unfold plan_transition in Hp. rewrite Hb in Hp. injection Hp as <-.
  unfold replica_apply. rewrite Hb, Ht. unfold planFull. cbn [plan_paths fresh_plan app].
  rewrite (cursor_walk_rows t Hok) by done. rewrite map_map. simpl. rewrite map_id.
  case_bool_decide as Hin; [apply full_entities|]. symmetry. by apply absent_path_rows.
Qed.

Lemma empty_replica input t p client path : in_Base input = None -> in_Target input = Some t ->
  wireTransitionEntityPath t path = [] -> replica_apply input p client path = [].
Proof.
  intros Hb Ht Hrows. unfold replica_apply. rewrite Hb, Ht, full_entities, Hrows. by case_bool_decide.
Qed.

(** ** Sparse deltas *)

Lemma sparse_entities t manifest path old :
  apply_entities (sparse_path_op t manifest path) old =
  if bool_decide (path ∈ entityPaths manifest) then wireTransitionEntityPath t path else old.
Proof.
  unfold apply_entities, sparse_path_op. cbn [entityOp op_entities]. rewrite is_replace_sparse.
  assert (rows_entities (wireTransitionPathRowsAt t path) = wireTransitionEntityPath t path) as -> by done.
  case_bool_decide; [|done]. destruct (wireTransitionEntityPath t path) as [|e es]; [done|]. done.
Qed.

Lemma sparse_replica input base t manifest p client path : in_Base input = Some base -> in_Sparse input = true ->
  transport t = Some manifest -> plan_transition input t fresh_plan = Ok p ->
  replica_apply input p client path =
  if bool_decide (path ∈ entityPaths manifest) then wireTransitionEntityPath t path else client path.
Proof.
  intros Hb Hs Hm Hp. unfold plan_transition in Hp. rewrite Hb, Hs, Hm in Hp. destruct (exact manifest); [|done].
  injection Hp as <-. unfold replica_apply. rewrite Hb.
  destruct (sparse_ops base t manifest fresh_plan eq_refl eq_refl) as (paths & -> & Hsorted & Hin).
  rewrite find_sparse by done. case_bool_decide as Hc.
  - apply sparse_entities.
  - rewrite bool_decide_eq_false_2; [done|]. rewrite Hin in Hc. unfold candidate_paths in Hc. set_solver.
Qed.

(** A table without a manifest has no sparse transition. *)
Lemma sparse_plan_manifest input t p : is_Some (in_Base input) -> in_Sparse input = true ->
  plan_transition input t fresh_plan = Ok p -> exists manifest, transport t = Some manifest /\ exact manifest = true.
Proof.
  intros [base Hb] Hs. unfold plan_transition. rewrite Hb, Hs. destruct (transport t) as [manifest|]; [|done].
  destruct (exact manifest) eqn:E; [|done]. by exists manifest.
Qed.

(** A manifest of a materialized table names the paths it was built from. *)
Lemma manifest_entity_paths previous paths manifest path : (forall q, q ∈ default ∅ paths -> Clean q = q) ->
  rustOwnedTransportManifest previous paths = Some manifest -> path ∈ entityPaths manifest <-> path ∈ default ∅ paths.
Proof.
  intros Hc H. unfold rustOwnedTransportManifest in H. destruct previous as [t|]; [|done]. destruct paths as [s|]; [|done].
  injection H as <-. simpl. rewrite elem_of_list_to_set, list_elem_of_fmap. split.
  - intros (q & -> & Hq). apply range_set_elem in Hq. by rewrite Hc.
  - intros Hp. exists path. split; [by rewrite Hc|]. by apply range_set_elem.
Qed.

(** ** What an encoding carries *)

(** An encoding that succeeds carries the plan of its input. *)
Lemma encode_planned {S} e input (arena : option (TransitionArena S)) s e' s' enc :
  encode e input arena s = (e', s', Ok enc) ->
  exists mode baseGeneration target p, validateWireTransitionInput input = Ok (mode, baseGeneration, target) /\
    in_Target input = Some target /\ plan_transition input target fresh_plan = Ok p /\ enc_Mode enc = mode /\
    PathOperations enc = path_operation_count mode p /\ SymbolOperations enc = symbol_operation_count mode target p.
Proof.
  unfold encode. destruct (validateWireTransitionInput input) as [[[mode bg] target]|err] eqn:Ev; [|done]. cbv zeta.
  assert (in_Target input = Some target) as Ht.
  { unfold validateWireTransitionInput in Ev. destruct (in_Target input) as [t|]; [|done]. repeat (case_match; try done); congruence. }
  change (e_plan (set_plan e (releasePlan (e_plan e)))) with fresh_plan.
  destruct (plan_transition input target fresh_plan) as [p|err] eqn:Ep; [|done]. intros H.
  exists mode, bg, target, p. split_and!; try done; revert H;
    destruct (_ && _ && _ && _) eqn:Eb; try (intros [= <- <- <-]; simpl; lia || done);
    try (destruct (transition_rows _ _ _ _ _ _) as [rows [[]|err]]; [|done]; destruct (Writer.finish rows) as [rows' [err|]]; [done|];
      destruct (transition_header _ _ _ _ _ _) as [frame ?]; destruct arena as [a|];
      [destruct (Finish a _ _) as [? [?|]]; [done|]; by intros [= <- <- <-]|
       destruct (detachFrame _ _) as [? ?]; by intros [= <- <- <-]]).
Qed.
End Replica.

Section Analysis.
Context `{BK : !Backing} `{MR : !MapRange} `{MH : !Maphash} {W : Type} `{BE : !ClosureBackend W}.
Implicit Types m : machine W.

(** What a client that has the rows [client] for the runs of [m0] has for the
    runs of [m]. *)
Definition run_follows m0 m (client client' : replica) (path : string) : Prop :=
  match find_key dg_path (m_groups m) path with
  | None => client' path = []
  | Some g =>
      exists a, dg_contribution g = Some a /\
        ((exists c, m_heap m0 !! a = None /\ holds m a c /\ backend_answer g c /\
            c_entities c = Some (client' path)) \/
         (contribution_get (retained (m_closure m0)) path = Some a /\ client' path = client path /\
            exists g0, find_key dg_path (m_groups m0) path = Some g0 /\ same_run g0 g))
  end.

(** A client has rows for runs only. *)
Definition supported m (client : replica) : Prop := forall path, client path <> [] -> path ∈ map dg_path (m_groups m).

Lemma run_follows_supported m0 m client client' : keys_sorted dg_path (m_groups m) ->
  (forall path, run_follows m0 m client client' path) -> supported m client'.
Proof.
  intros Hs H path Hp. specialize (H path). unfold run_follows in H.
  destruct (find_key dg_path (m_groups m) path) as [g|] eqn:E; [|done].
  apply find_key_spec in E as [Hg <-]; [|done]. by apply list_elem_of_fmap_2.
Qed.

(** The rows are given to the client by then. *)
Lemma run_follows_release m0 m m' client client' path :
  m_groups m' = m_groups m -> (forall a c, m_heap m !! a = Some c -> holds m' a c) ->
  (forall a c, m_heap m !! a = Some (releaseTransportRows c) -> m_heap m' !! a = Some (releaseTransportRows c)) ->
  run_follows m0 m client client' path -> run_follows m0 m' client client' path.
Proof.
  intros Hg H1 H2. unfold run_follows. rewrite Hg. destruct (find_key dg_path (m_groups m) path) as [g|]; [|done].
  intros (a & Ha & [(c & K1 & K2 & K3)|K]); exists a; (split; [done|]); [left|by right].
  exists c. split_and!; [done| |apply K3..]. destruct K2 as [K2|K2]; [by apply H1|]. right. by apply H2.
Qed.

(** ** The runs of a built generation *)

Lemma find_key_map_same {A} (key : A -> string) (f : A -> A) l p : (forall x, key (f x) = key x) ->
  keys_sorted key l -> find_key key (map f l) p = f <$> find_key key l p.
Proof.
  intros Hf Hs. assert (keys_sorted key (map f l)) as Hs'.
  { unfold keys_sorted in *. change (key <$> ?k) with (map key k) in *. rewrite map_map. by rewrite (map_ext _ _ Hf). }
  destruct (find_key key l p) as [x|] eqn:E; simpl.
  - apply find_key_spec in E as [Hx <-]; [|done]. apply find_key_spec; [done|]. split; [by apply list_elem_of_fmap_2|done].
  - apply find_key_None in E; [|done]. apply find_key_None; [done|]. intros Hin. apply E.
    change (key <$> ?k) with (map key k) in *. rewrite map_map in Hin. by rewrite (map_ext _ _ Hf) in Hin.
Qed.

Lemma releaseExpanded_path g : dg_path (releaseExpanded g) = dg_path g.
Proof. apply releaseExpanded_same. Qed.

Lemma releaseExpanded_contribution g : dg_contribution (releaseExpanded g) = dg_contribution g.
Proof. unfold releaseExpanded. by destruct (isCompact g). Qed.

Section Built.
Context (generation : Z) (mb mB : machine W) (t : FactTable) (ch : list nat) (st : ClosureStats).
Context (Hok : machine_ok mb) (B : built generation mb mB t ch).

Lemma built_sorted : keys_sorted dg_path (m_groups mB).
Proof. eapply same_run_sorted; [apply B|apply Hok]. Qed.

Lemma after_build_find path : find_key dg_path (m_groups (after_build mB t st)) path = releaseExpanded <$> find_key dg_path (m_groups mB) path.
Proof. simpl. apply find_key_map_same; [apply releaseExpanded_path|apply built_sorted]. Qed.

(** A run is either recomputed or kept. *)
Lemma built_run path g : find_key dg_path (m_groups mB) path = Some g ->
  exists i g0, m_groups mB !! i = Some g /\ dg_path g = path /\ find_key dg_path (m_groups mb) path = Some g0 /\ same_run g0 g /\
    (i < length (m_groups mb))%nat.
Proof.
  intros Hf. pose proof built_sorted as Hs. apply find_key_spec in Hf as [Hg Hp]; [|done].
  apply list_elem_of_lookup in Hg as [i Hi]. destruct (Forall2_lookup_r _ _ _ _ _ (bu_runs _ _ _ _ _ B) Hi) as (g0 & Hg0 & Hsame).
  exists i, g0. split_and!; try done; [|by eapply lookup_lt_Some].
  apply find_key_spec; [apply Hok|]. split; [by eapply list_elem_of_lookup_2|]. by rewrite <- (sr_path _ _ Hsame).
Qed.

(** The table has the answer at the path of a recomputed run. *)
Lemma built_fresh path g i : m_groups mB !! i = Some g -> dg_path g = path -> i ∈ ch ->
  exists a c, dg_contribution g = Some a /\ m_heap mb !! a = None /\ m_heap mB !! a = Some c /\ backend_answer g c /\
    c_entities c = Some (wireTransitionEntityPath t path).
Proof.
  intros Hi Hp Hin. destruct (bu_fresh _ _ _ _ _ B i Hin) as (g' & a & c & es & H1 & H2 & H3 & H4 & H5 & _ & H6).
  rewrite Hi in H1. injection H1 as <-. exists a, c. split_and!; [done..|done|].
  rewrite H5, (bu_rows _ _ _ _ _ B). f_equal. unfold rows_held_at.
  assert (find_key dg_path (m_groups mB) path = Some g) as ->.
  { apply find_key_spec; [apply built_sorted|]. split; [by eapply list_elem_of_lookup_2|done]. }
  unfold group_rows. rewrite H2. simpl. by rewrite H4, H5.
Qed.

Lemma built_absent path : find_key dg_path (m_groups mB) path = None -> wireTransitionEntityPath t path = [].
Proof. intros H. rewrite (bu_rows _ _ _ _ _ B). unfold rows_held_at. by rewrite H. Qed.

(** Nothing is kept where nothing is stored. *)
Lemma built_all_fresh i : (forall g, g ∈ m_groups mb -> contribution_get (retained (m_closure mb)) (dg_path g) = None) ->
  (i < length (m_groups mb))%nat -> i ∈ ch.
Proof.
  intros Hnone Hi. destruct (decide (i ∈ ch)) as [|Hn]; [done|]. exfalso.
  destruct (bu_kept _ _ _ _ _ B i Hi Hn) as (g & a & Hg & _ & _ & Hget).
  destruct (Forall2_lookup_r _ _ _ _ _ (bu_runs _ _ _ _ _ B) Hg) as (g0 & Hg0 & Hsame).
  rewrite (sr_path _ _ Hsame), Hnone in Hget; [done|]. by eapply list_elem_of_lookup_2.
Qed.

(** A full transition to a table whose runs are all recomputed. *)
Lemma built_full m0 client client' path :
  (forall a, m_heap mb !! a = None -> m_heap m0 !! a = None) ->
  (forall g, g ∈ m_groups mb -> contribution_get (retained (m_closure mb)) (dg_path g) = None) ->
  client' path = wireTransitionEntityPath t path ->
  run_follows m0 (after_build mB t st) client client' path.
Proof.
  intros Hheap Hnone Hc. unfold run_follows. rewrite after_build_find, Hc.
  destruct (find_key dg_path (m_groups mB) path) as [g|] eqn:E; simpl; [|by apply built_absent].
  destruct (built_run path g E) as (i & g0 & Hi & Hp & _ & _ & Hlt).
  destruct (built_fresh path g i Hi Hp) as (a & c & H1 & H2 & H3 & H4 & H5); [by apply built_all_fresh|].
  exists a. rewrite releaseExpanded_contribution. split; [done|]. left. exists c. split_and!; [by apply Hheap|by left| |done].
      eapply backend_answer_same; [apply releaseExpanded_same|done].
Qed.

(** The paths a manifest names. *)
Lemma built_manifest manifest : transport t = Some manifest ->
  (forall i g, i ∈ ch -> m_groups mB !! i = Some g -> dg_path g ∈ entityPaths manifest) /\
  (forall p, p ∈ set_of (transportChangedPaths (m_closure mb)) -> p ∈ entityPaths manifest) /\
  (forall p, p ∈ entityPaths manifest -> p ∈ set_of (transportChangedPaths (m_closure mb)) \/
     exists i g, i ∈ ch /\ m_groups mB !! i = Some g /\ dg_path g = p).
Proof.
  intros Hm. destruct (bu_manifest _ _ _ _ _ B) as (paths & Htr & H1 & H2 & _ & H3). rewrite Hm in Htr. symmetry in Htr.
  assert (forall q, q ∈ set_of paths -> Clean q = q) as Hclean.
  { intros q [Hq|(i & g & _ & Hg & <-)]%H3; [apply (mo_named_clean _ Hok); by left|].
    assert (Forall (fun g => Clean (dg_path g) = dg_path g) (m_groups mB)) as Hcl by (eapply same_runs_clean; [apply B|apply Hok]).
    rewrite Forall_lookup in Hcl. by eapply Hcl. }
  pose proof (fun p => manifest_entity_paths _ _ manifest p Hclean Htr) as Hin. split_and!.
  - intros i g Hi Hg. apply Hin. by eapply H1.
  - intros p Hp. apply Hin. destruct (transportChangedPaths (m_closure mb)) as [s|]; [|done].
    destruct (H2 s eq_refl) as (s' & -> & Hsub). simpl in *. by apply Hsub.
  - intros p Hp%Hin. by apply H3.
Qed.

(** A sparse delta. *)
Lemma built_sparse m0 client client' manifest path :
  (forall a, m_heap mb !! a = None -> m_heap m0 !! a = None) ->
  (forall p a, contribution_get (retained (m_closure mb)) p = Some a -> contribution_get (retained (m_closure m0)) p = Some a) ->
  (forall p, p ∉ set_of (transportChangedPaths (m_closure mb)) -> find_key dg_path (m_groups mb) p = find_key dg_path (m_groups m0) p) ->
  keys_sorted dg_path (m_groups m0) -> supported m0 client -> transport t = Some manifest ->
  client' path = (if bool_decide (path ∈ entityPaths manifest) then wireTransitionEntityPath t path else client path) ->
  run_follows m0 (after_build mB t st) client client' path.
Proof.
  intros Hheap Hget Hsame Hs0 Hsup Hm Hc. destruct (built_manifest manifest Hm) as (N1 & N2 & N3).
  unfold run_follows. rewrite after_build_find, Hc.
  destruct (find_key dg_path (m_groups mB) path) as [g|] eqn:E; simpl.
  - destruct (built_run path g E) as (i & g0 & Hi & Hp & Hg0 & Hrun & Hlt).
    destruct (decide (i ∈ ch)) as [Hin|Hn].
    + destruct (built_fresh path g i Hi Hp Hin) as (a & c & H1 & H2 & H3 & H4 & H5). exists a.
      rewrite releaseExpanded_contribution, bool_decide_eq_true_2 by (rewrite <- Hp; by eapply N1).
      split; [done|]. left. exists c. split_and!; [by apply Hheap|by left| |done].
      eapply backend_answer_same; [apply releaseExpanded_same|done].
    + destruct (bu_kept _ _ _ _ _ B i Hlt Hn) as (g' & a & H1 & H2 & _ & H4). rewrite Hi in H1. injection H1 as <-. rewrite Hp in H4.
      assert (path ∉ set_of (transportChangedPaths (m_closure mb))) as Hno by (intros Hno%(mo_unnamed _ Hok); congruence).
      rewrite bool_decide_eq_false_2; [|intros [?|(j & h & Hj & Hh & Hhp)]%N3; [done|]].
      2: { assert (j = i) as ->; [|done]. pose proof (keys_sorted_NoDup dg_path _ built_sorted) as Hnd.
           apply (NoDup_lookup _ j i path Hnd); rewrite list_lookup_fmap; [by rewrite Hh; simpl; f_equal|by rewrite Hi; simpl; f_equal]. }
      exists a. rewrite releaseExpanded_contribution. split; [done|]. right. split_and!; [by apply Hget|done|].
      exists g0. split; [by rewrite <- Hsame|]. etrans; [done|apply releaseExpanded_same].
  - rewrite (built_absent path E). case_bool_decide as Hn; [done|].
    destruct (client path) as [|e es] eqn:Ec; [done|]. exfalso. apply Hn, N2.
    destruct (decide (path ∈ set_of (transportChangedPaths (m_closure mb)))) as [|Hno]; [done|]. exfalso.
    specialize (Hsame path Hno). assert (path ∈ map dg_path (m_groups m0)) as Hin by (apply Hsup; by rewrite Ec).
    assert (find_key dg_path (m_groups mb) path = None) as Hnone.
    { apply find_key_None; [apply Hok|]. apply find_key_None in E; [|apply built_sorted].
      pose proof (same_runs_paths _ _ (bu_runs _ _ _ _ _ B)) as Hpaths. change (dg_path <$> ?l) with (map dg_path l) in *.
      by rewrite Hpaths in E. }
    rewrite Hnone in Hsame. symmetry in Hsame. by apply find_key_None in Hsame.
Qed.
End Built.

(** ** The table of a demand transaction *)

(** A table for the runs of [mb], and the machine it leaves. *)
Inductive tabled (generation : Z) (paths : list string) (mb : machine W) (t : FactTable) (m : machine W) : Prop :=
  | tabled_reused : table (m_closure mb) = Some t -> paths = [] -> m = mb -> tabled generation paths mb t m
  | tabled_built mB ch st : table (m_closure (build_base paths mb)) = None -> built generation (build_base paths mb) mB t ch ->
      m = after_build mB t st -> tabled generation paths mb t m.

Lemma tabled_spec generation paths mb : machine_ok mb ->
  wp (survives mb) (demandTableForCanonicalGroups generation paths)
    (fun t m => generation = Closure.generation (m_closure mb) /\ tabled generation paths mb t m) mb.
Proof.
  intros Hok. eapply wp_mono; [done| |by apply demandTable_spec]. intros t m [-> H]. split; [done|].
  destruct H as [(H1 & H2 & H3)|(H1 & mB & ch & st & H2 & H3)]; [by eapply tabled_reused|by eapply tabled_built].
Qed.

Lemma tabled_ok generation paths mb t m : machine_ok mb -> tabled generation paths mb t m ->
  machine_ok m /\ survives mb m /\ table (m_closure m) = Some t.
Proof.
  intros Hok [H1 H2 ->|mB ch st H1 H2 ->]; [done|]. split_and!; [|etrans; [apply build_base_survives|by eapply built_survives]|done].
  eapply after_build_ok; [by apply build_base_ok|done|done].
Qed.

Lemma tabled_header generation paths mb t m : tabled generation paths mb t m ->
  table (m_closure mb) = None -> Generation t = generation /\ table_ok t.
Proof. intros [H1 H2 ->|mB ch st H1 H2 ->] Hn; [congruence|]. split; [apply H2|by eapply bu_ok]. Qed.

(** The base of a build keeps of the contributions those the changed paths do
    not name, and adds these to the manifest. *)
Lemma build_base_get paths m path a : machine_ok m -> contribution_get (retained (m_closure (build_base paths m))) path = Some a ->
  contribution_get (retained (m_closure m)) path = Some a /\ path ∉ map Clean paths.
Proof.
  intros Hok. unfold build_base. destruct paths as [|q paths]; [intros H; split; [done|]; simpl; by intros ?%elem_of_nil|].
  unfold discard_changed. cbv zeta. set (invalidated := list_to_set (map Clean (q :: paths)) : gset string). simpl.
  destruct (discard_spec (m_heap m) (retained (m_closure m)) invalidated (mo_store _ Hok)) as [_ Hget].
  unfold contribution_get. rewrite Hget. case_bool_decide as Hc; [done|]. intros H. split; [done|].
  intros Hin. apply Hc. by apply elem_of_list_to_set.
Qed.

Lemma build_base_named paths m path : path ∈ paths -> Clean path = path ->
  path ∈ set_of (transportChangedPaths (m_closure (build_base paths m))).
Proof.
  intros Hp Hc. unfold build_base. destruct paths as [|q paths]; [by apply elem_of_nil in Hp|]. unfold discard_changed. cbv zeta.
  assert (path ∈ map Clean (q :: paths)) as Hin by (rewrite <- Hc; by apply list_elem_of_fmap_2).
  set (invalidated := list_to_set (map Clean (q :: paths)) : gset string). simpl.
  apply elem_of_union. left. by apply elem_of_list_to_set.
Qed.

(** A full transition to a table built where no run has a contribution. *)
Lemma tabled_full generation paths mb t m m0 input p client :
  machine_ok mb -> tabled generation paths mb t m -> m_heap m0 ⊆ m_heap mb ->
  (table (m_closure mb) = Some t -> paths = [] -> m_groups mb = [] /\ forall path, wireTransitionEntityPath t path = []) ->
  (forall g, g ∈ m_groups mb -> contribution_get (retained (m_closure (build_base paths mb))) (dg_path g) = None) ->
  in_Base input = None -> in_Target input = Some t -> plan_transition input t fresh_plan = Ok p ->
  forall path, run_follows m0 m client (replica_apply input p client) path.
Proof.
  intros Hok Ht Hheap Hreuse Hnone Hb Htgt Hp path.
  destruct (build_base_fields paths mb) as (Hg & Hh & _). destruct Ht as [H1 H2 ->|mB ch st H1 H2 ->].
  - destruct (Hreuse H1 H2) as [Hgs Hrows]. unfold run_follows. rewrite Hgs. simpl.
    by eapply empty_replica; [done|done|apply Hrows].
  - eapply (built_full generation (build_base paths mb) mB t ch st); [by apply build_base_ok|done| | |].
    + intros a Ha. rewrite Hh in Ha. destruct (m_heap m0 !! a) eqn:E; [|done]. by rewrite (lookup_weaken _ _ _ _ E Hheap) in Ha.
    + intros g. rewrite Hg. apply Hnone.
    + by eapply full_replica; [done|done|apply H2|].
Qed.

(** The runs of a transaction that begins in a state a session leaves. *)
Lemma begun_ok m reset gs tx : machine_ok m -> edited (m_groups m) reset gs tx -> machine_ok (set_groups m gs).
Proof.
  intros [H1 H2 H3 H4 H5 H6 H7 H8 H9] [E1 E2 E3 _ _ _ _ _]. split; simpl; try done; [by apply E2|by apply E3].
Qed.

(** A sparse transition to the table of a transaction without a reset. *)
Lemma tabled_sparse generation m0 gs tx t m input p client :
  machine_ok m0 -> edited (m_groups m0) false gs tx -> supported m0 client ->
  tabled generation (changedPaths tx) (set_groups m0 gs) t m ->
  (table (m_closure m0) = Some t -> changedPaths tx <> []) ->
  is_Some (in_Base input) -> in_Sparse input = true -> plan_transition input t fresh_plan = Ok p ->
  forall path, run_follows m0 m client (replica_apply input p client) path.
Proof.
  intros Hok Hed Hsup Ht Hreuse [base Hb] Hsp Hp path. pose proof (begun_ok _ _ _ _ Hok Hed) as Hokb.
  destruct Ht as [H1 H2 ->|mB ch st H1 H2 ->]; [by destruct (Hreuse H1)|].
  destruct (sparse_plan_manifest input t p) as (manifest & Hm & _); [by eexists|done|done|].
  set (mb := set_groups m0 gs) in *. destruct (build_base_fields (changedPaths tx) mb) as (Hg & Hh & _).
  eapply (built_sparse generation (build_base (changedPaths tx) mb) mB t ch st); [by apply build_base_ok|done| | | |apply Hok|done|done|].
  - intros a. by rewrite Hh.
  - intros q a Hq. by apply build_base_get in Hq as [? _].
  - intros q Hq. rewrite Hg. unfold mb. simpl. apply (ed_same _ _ _ _ Hed); [done|]. intros Hin. apply Hq.
    apply build_base_named; [done|]. by eapply ed_changed_clean.
  - by eapply sparse_replica.
Qed.

(** A full transition to the table of a transaction that starts over, or that
    finds nothing stored. *)
Lemma tabled_restart generation m0 reset gs tx t m input p client :
  machine_ok m0 -> edited (m_groups m0) reset gs tx ->
  (reset = true \/ byPath (retained (m_closure m0)) = ∅ /\ table (m_closure m0) = None) ->
  (table (m_closure m0) = Some t -> forall path, wireTransitionEntityPath t path = []) ->
  tabled generation (changedPaths tx) (set_groups m0 gs) t m ->
  in_Base input = None -> in_Target input = Some t -> plan_transition input t fresh_plan = Ok p ->
  forall path, run_follows m0 m client (replica_apply input p client) path.
Proof.
  intros Hok Hed Hcase Hrows Ht Hb Htgt Hp. pose proof (begun_ok _ _ _ _ Hok Hed) as Hokb.
  eapply tabled_full; [exact Hokb|done|done| | |done|done|done]; simpl.
  - intros Hs Hnil. split; [|by apply Hrows]. destruct Hcase as [->|[_ Hn]]; [|congruence].
    destruct gs as [|g gs]; [done|]. pose proof (ed_reset _ _ _ _ Hed g eq_refl) as H. rewrite Hnil in H.
    specialize (H ltac:(by left)). by apply elem_of_nil in H.
  - intros g Hg. destruct (contribution_get _ _) as [a|] eqn:E; [|done]. exfalso.
    apply build_base_get in E as [E Hn]; [|done]. destruct Hcase as [->|[He _]].
    + apply Hn. pose proof (ed_reset _ _ _ _ Hed g eq_refl Hg) as Hin.
      rewrite <- (ed_changed_clean _ _ _ _ Hed _ Hin). by apply list_elem_of_fmap_2.
    + unfold contribution_get in E. simpl in E. rewrite He in E. by rewrite lookup_empty in E.
Qed.
End Analysis.
