(* ===== verification/Session.v ===== *)
(** * The session

    [Session] of [session.go]: one retained analysis lifetime behind the
    lifecycle requests. A request runs on the session, the transition arena of
    the caller and the response under construction; a failure keeps what the
    response holds by then and names a code. The file that carries sources to
    the client is behind an interface of the operating system. *)

From S2P Require Import Prelude GoStd GoText SortedPaths Model FactEqual Modules CompactDemands DemandGroup SessionDemands Contributions ContributionStore FactTable TransitionDiff StringTable Writer Rows Transition Proc Closure Materialize Protocol.
From stdpp Require Import pretty.
Open Scope Z_scope.

(** ** The source arena's file system *)

Definition ErrNotExist : error := ErrText "file does not exist".

Class FileSystem (W : Type) := {
  fs_CreateTemp : proc W string;
  fs_Write : string -> list Z -> proc W unit;
  fs_Flush : string -> proc W unit;
  fs_CloseFile : string -> proc W unit;
  fs_Remove : string -> proc W unit;
}.

Definition removeSourceArena {W : Type} `{FS : !FileSystem W} (path : string) : proc W unit := fun w =>
  if String.eqb path "" then (w, Ok tt)
  else
    let '(w, r) := fs_Remove path w in
    (w, match r with Ok _ => Ok tt | Err e => if error_is ErrNotExist e then Ok tt else Err e end).

(** ** The session's state *)

Record Session {W : Type} := mkSession {
  s_machine : machine W;
  s_projectID : string;
  token : Z;
  tokenText : string;
  retained_table : option FactTable;
  s_transition : wireTransitionEncoder;
  sourceArenaPath : string;
  s_closed : bool;
  closeErr : option error;
  s_schema : Z;
}.
Arguments Session : clear implicits.
Arguments mkSession {W}.

(** One call: the session, what the arena keeps, and the response. *)
Record call {W S : Type} := mkCall {
  c_session : Session W;
  c_arena : S;
  c_response : LifecycleResponse;
}.
Arguments call : clear implicits.
Arguments mkCall {W S}.

Section Fields.
Context {W : Type}.
Implicit Types s : Session W.

Definition with_machine s (m : machine W) : Session W :=
  mkSession m (s_projectID s) (token s) (tokenText s) (retained_table s) (s_transition s) (sourceArenaPath s)
    (s_closed s) (closeErr s) (s_schema s).
Definition with_retained s (tok : Z) (text : string) (t : option FactTable) : Session W :=
  mkSession (s_machine s) (s_projectID s) tok text t (s_transition s) (sourceArenaPath s)
    (s_closed s) (closeErr s) (s_schema s).
Definition with_encoder s (e : wireTransitionEncoder) : Session W :=
  mkSession (s_machine s) (s_projectID s) (token s) (tokenText s) (retained_table s) e (sourceArenaPath s)
    (s_closed s) (closeErr s) (s_schema s).
Definition with_source_arena s (path : string) : Session W :=
  mkSession (s_machine s) (s_projectID s) (token s) (tokenText s) (retained_table s) (s_transition s) path
    (s_closed s) (closeErr s) (s_schema s).
Definition with_close s (err : option error) : Session W :=
  mkSession (s_machine s) (s_projectID s) (token s) (tokenText s) (retained_table s) (s_transition s)
    (sourceArenaPath s) true err (s_schema s).
End Fields.

(** The response's fields an operation fills in. *)
Definition with_generation (r : LifecycleResponse) (generation : Z) (affected : list string) : LifecycleResponse :=
  mkResponse (rs_Schema r) (rs_RequestID r) (rs_ProjectID r) generation (OK r) (TableTransition r) (rs_SymbolEvidence r)
    (ReferenceEvidence r) (ChangedReferenceSymbols r) (ReferenceChangesExact r) (rs_StateToken r) affected (rs_Sources r)
    (SourceArena r) (SourceLengths r) (Timings r) (rs_Error r) (rs_Modules r) (ModuleImports r) (rs_UnknownImportPaths r).
Definition with_outcome (r : LifecycleResponse) (ok : bool) (err : option LifecycleError) : LifecycleResponse :=
  mkResponse (rs_Schema r) (rs_RequestID r) (rs_ProjectID r) (rs_Generation r) ok (TableTransition r) (rs_SymbolEvidence r)
    (ReferenceEvidence r) (ChangedReferenceSymbols r) (ReferenceChangesExact r) (rs_StateToken r) (Affected r) (rs_Sources r)
    (SourceArena r) (SourceLengths r) (Timings r) err (rs_Modules r) (ModuleImports r) (rs_UnknownImportPaths r).
Definition with_timings (r : LifecycleResponse) (text : string) (timings : LifecycleTimings) : LifecycleResponse :=
  mkResponse (rs_Schema r) (rs_RequestID r) (rs_ProjectID r) (rs_Generation r) (OK r) (TableTransition r) (rs_SymbolEvidence r)
    (ReferenceEvidence r) (ChangedReferenceSymbols r) (ReferenceChangesExact r) text (Affected r) (rs_Sources r)
    (SourceArena r) (SourceLengths r) (Some timings) (rs_Error r) (rs_Modules r) (ModuleImports r) (rs_UnknownImportPaths r).
Definition with_transition (r : LifecycleResponse) (bytes : list Z) : LifecycleResponse :=
  mkResponse (rs_Schema r) (rs_RequestID r) (rs_ProjectID r) (rs_Generation r) (OK r) bytes (rs_SymbolEvidence r)
    (ReferenceEvidence r) (ChangedReferenceSymbols r) (ReferenceChangesExact r) (rs_StateToken r) (Affected r) (rs_Sources r)
    (SourceArena r) (SourceLengths r) (Timings r) (rs_Error r) (rs_Modules r) (ModuleImports r) (rs_UnknownImportPaths r).
Definition with_symbol_evidence (r : LifecycleResponse) (evidence : list SymbolFact) : LifecycleResponse :=
  mkResponse (rs_Schema r) (rs_RequestID r) (rs_ProjectID r) (rs_Generation r) (OK r) (TableTransition r) evidence
    (ReferenceEvidence r) (ChangedReferenceSymbols r) (ReferenceChangesExact r) (rs_StateToken r) (Affected r) (rs_Sources r)
    (SourceArena r) (SourceLengths r) (Timings r) (rs_Error r) (rs_Modules r) (ModuleImports r) (rs_UnknownImportPaths r).
Definition with_changed_references (r : LifecycleResponse) (ids : list SymbolID) (exact : bool) : LifecycleResponse :=
  mkResponse (rs_Schema r) (rs_RequestID r) (rs_ProjectID r) (rs_Generation r) (OK r) (TableTransition r) (rs_SymbolEvidence r)
    (ReferenceEvidence r) ids exact (rs_StateToken r) (Affected r) (rs_Sources r)
    (SourceArena r) (SourceLengths r) (Timings r) (rs_Error r) (rs_Modules r) (ModuleImports r) (rs_UnknownImportPaths r).
Definition with_reference_evidence (r : LifecycleResponse) (evidence : list SymbolFact) : LifecycleResponse :=
  mkResponse (rs_Schema r) (rs_RequestID r) (rs_ProjectID r) (rs_Generation r) (OK r) (TableTransition r) (rs_SymbolEvidence r)
    evidence (ChangedReferenceSymbols r) (ReferenceChangesExact r) (rs_StateToken r) (Affected r) (rs_Sources r)
    (SourceArena r) (SourceLengths r) (Timings r) (rs_Error r) (rs_Modules r) (ModuleImports r) (rs_UnknownImportPaths r).
Definition with_sources (r : LifecycleResponse) (arena : string) (sources : list SourceFileV3) (lengths : list Z) : LifecycleResponse :=
  mkResponse (rs_Schema r) (rs_RequestID r) (rs_ProjectID r) (rs_Generation r) (OK r) (TableTransition r) (rs_SymbolEvidence r)
    (ReferenceEvidence r) (ChangedReferenceSymbols r) (ReferenceChangesExact r) (rs_StateToken r) (Affected r) sources
    arena lengths (Timings r) (rs_Error r) (rs_Modules r) (ModuleImports r) (rs_UnknownImportPaths r).
Definition with_modules (r : LifecycleResponse) (inventory : ModuleInventory) : LifecycleResponse :=
  mkResponse (rs_Schema r) (rs_RequestID r) (rs_ProjectID r) (rs_Generation r) (OK r) (TableTransition r) (rs_SymbolEvidence r)
    (ReferenceEvidence r) (ChangedReferenceSymbols r) (ReferenceChangesExact r) (rs_StateToken r) (Affected r) (rs_Sources r)
    (SourceArena r) (SourceLengths r) (Timings r) (rs_Error r) (Modules inventory) (Imports inventory) (UnknownImportPaths inventory).

(** [strconv.FormatUint(token, 10)]. *)
Definition FormatUint (z : Z) : string := pretty (Z.to_N z).

Section Lifecycle.
Context `{BK : !Backing} `{MR : !MapRange} `{MH : !Maphash} {W S : Type} `{BE : !ClosureBackend W} `{FS : !FileSystem W}.

Notation P := (proc (call W S)).

(** [return fail(code, err)]. *)
Definition fail {A} (code : string) (err : error) : P A := p_fail (ErrWrap code err).

Definition get_session : P (Session W) := fun c => (c, Ok (c_session c)).
Definition modify_session (f : Session W -> Session W) : P unit :=
  p_modify (fun c => mkCall (f (c_session c)) (c_arena c) (c_response c)).
Definition modify_response (f : LifecycleResponse -> LifecycleResponse) : P unit :=
  p_modify (fun c => mkCall (c_session c) (c_arena c) (f (c_response c))).

(** A call of the closure. *)
Definition on_machine {A} (f : proc (machine W) A) : P A :=
  p_zoom (fun c => s_machine (c_session c))
    (fun c m => mkCall (with_machine (c_session c) m) (c_arena c) (c_response c)) f.
Definition on_world {A} (f : proc W A) : P A := on_machine (in_world f).

Definition poll : P (option error) := on_world (fun w => let '(w, e) := ctx_Err w in (w, Ok e)).

(** [if err := ctx.Err(); err != nil { return fail("analysis-cancelled", err) }]. *)
Definition check_cancelled : P unit :=
  do! e := poll in match e with Some e => fail "analysis-cancelled" e | None => p_ret tt end.

(** [if err != nil { if ctx.Err() != nil { return fail("analysis-cancelled", ctx.Err()) }; return fail(code, err) }]. *)
Definition or_cancelled {A} (code : string) (f : P A) : P A := fun c =>
  let '(c, r) := f c in
  match r with
  | Ok a => (c, Ok a)
  | Err err =>
      (do! first := poll in
       match first with
       | None => fail code err
       | Some e => do! again := poll in fail "analysis-cancelled" (default e again)
       end) c
  end.

Definition or_fail {A} (code : string) (f : P A) : P A := fun c =>
  let '(c, r) := f c in (c, match r with Ok a => Ok a | Err err => Err (ErrWrap code err) end).

(** [f] on every way out with an error. *)
Definition on_error {A} (f : call W S -> call W S) (m : P A) : P A := fun c =>
  let '(c, r) := m c in match r with Ok a => (c, Ok a) | Err e => (f c, Err e) end.

(** ** Encoding into the caller's arena *)

Definition encode_transition (arena : option (TransitionArena S)) (input : wireTransitionInput) :
    P encodedWireTransition := fun c =>
  let s := c_session c in
  match arena with
  | None =>
      let '(e, r) := Encode (s_transition s) input in
      (mkCall (with_encoder s e) (c_arena c) (c_response c), r)
  | Some _ =>
      let '(e, st, r) := EncodeInto (s_transition s) input arena (c_arena c) in
      (mkCall (with_encoder s e) st (c_response c), r)
  end.

(** ** Symbol evidence *)

Definition evidence_table (generation : Z) (projectID : string) (evidence : list SymbolFact) : FactTable :=
  mkFactTable TypeFactsSchemaVersion generation projectID [] [] evidence [] 0 None None None None None.

(** The references at the paths asked for. *)
Definition keep_references (paths : gset string) (fact : SymbolFact) : SymbolFact :=
  mkSymbolFact (ID fact) (AliasTarget fact) (Declarations fact)
    (filter (fun location => Path location ∈ paths) (References fact)).

Definition populateSymbolEvidence (request : LifecycleRequest) (arena : option (TransitionArena S)) : P unit :=
  do! evidence := on_machine (resolveSymbolEvidence (SymbolQueries request)) in
  (if String.eqb (Operation request) LifecycleSymbols && negb (Nat.eqb (length evidence) 0) then
     do! s := get_session in
     let evidence := sort_slice (key_less ID) evidence in
     let input := mkTransitionInput (s_projectID s) "" None
                    (Some (evidence_table (rq_Generation request) (s_projectID s) evidence)) false in
     do! packed := (fun c => let '(c, r) := encode_transition arena input c in (c, wrap_err "pack symbol evidence" r)) in
     modify_response (fun r => with_transition r (Bytes packed))
   else modify_response (fun r => with_symbol_evidence r evidence)) ;!
  (if ReferenceChanges request then
     do! changed := on_machine changedReferences in
     let '(ids, exact) := changed in
     modify_response (fun r => with_changed_references r ids exact) ;!
     (if exact && negb (Nat.eqb (length ids) 0) then
        do! evidence := on_machine (resolveSymbolEvidence (map (fun id => mkSymbolQuery id true false) ids)) in
        let kept :=
          match ReferencePaths request with
          | [] => evidence
          | paths => map (keep_references (list_to_set (map Clean paths))) evidence
          end in
        modify_response (fun r => with_reference_evidence r kept)
      else p_ret tt)
   else p_ret tt) ;!
  (if ReleaseAnalysis request then on_machine releaseBackendAnalysisState else p_ret tt).

(** ** Operations *)

Definition run_update (request : LifecycleRequest) : P unit :=
  do! s := get_session in
  if negb (rq_Generation request =? u64 (generation (m_closure (s_machine s)) + 1))
  then fail "generation-mismatch" ErrGenerationMismatch
  else
    let changes := map (fun change => mkFileChange (fcv_Path change) (fcv_Version change) (fcv_Source change) (fcv_Deleted change))
                     (Changes request) in
    do! affected := or_fail "update-failed" (on_machine (Update changes)) in
    do! s := get_session in
    modify_response (fun r => with_generation r (generation (m_closure (s_machine s))) (af_Files affected)).

(** The retained answer serves when nothing is asked to change. *)
Definition serves_retained (s : Session W) (request : LifecycleRequest) (generation : Z) : bool :=
  negb (ResetState request) && Nat.eqb (length (Demands request)) 0 &&
  match CompactDemands request with None => true | Some compact => Nat.eqb (length (Groups compact)) 0 end &&
  Nat.eqb (length (RemovedDemandPaths request)) 0 &&
  match retained_table s with Some t => Generation t =? generation | None => false end.

Definition no_timings : LifecycleTimings := mkTimings false 0 0 0.

Definition demand_store (s : Session W) : retainedDemandStore := mkDemandStore (m_groups (s_machine s)).
Definition put_demands (s : Session W) (d : retainedDemandStore) : Session W :=
  with_machine s (set_groups (s_machine s) (groups d)).

Definition begin_demands (request : LifecycleRequest) : P retainedDemandTransaction := fun c =>
  let s := c_session c in
  match CompactDemands request with
  | Some compact =>
      match beginCompact (demand_store s) compact (RemovedDemandPaths request) (ResetState request) with
      | Err e => (c, Err (ErrWrap "invalid-demands" e))
      | Ok (d, t) => (mkCall (put_demands s d) (c_arena c) (c_response c), Ok t)
      end
  | None =>
      let '(d, t) := begin (demand_store s) (Demands request) (RemovedDemandPaths request) (ResetState request) in
      (mkCall (put_demands s d) (c_arena c) (c_response c), Ok t)
  end.

(** The deferred [abandonAnalysis] and [rollback]. *)
Definition abandon_call (t : retainedDemandTransaction) (c : call W S) : call W S :=
  let s := c_session c in
  let m := s_machine s in
  let s := with_machine s (set_closure m (abandonAnalysis (m_closure m))) in
  mkCall (put_demands s (fst (rollback (demand_store s, t)))) (c_arena c) (c_response c).

Definition analysis_timings (before : Z) (st : ClosureStats) : LifecycleTimings :=
  if BuildSequence st =? before then no_timings
  else mkTimings true (u64 (RetainedFiles (Retention st))) (u64 (RecomputedFiles (Retention st)))
         (u64 (NonDurableFiles (Retention st))).

Definition analysis_input (s : Session W) (request : LifecycleRequest) (target : FactTable) : wireTransitionInput :=
  match ResetState request, retained_table s with
  | false, Some base => mkTransitionInput (s_projectID s) (tokenText s) (Some base) (Some target) true
  | _, _ => mkTransitionInput (s_projectID s) "" None (Some target) true
  end.

(** The table and its transition; without exact evidence, once more in full. *)
Definition encode_analysis (request : LifecycleRequest) (arena : option (TransitionArena S)) (generation : Z)
    (paths : list string) (target : FactTable) : P (FactTable * encodedWireTransition) := fun c =>
  let s := c_session c in
  let '(c, r) := encode_transition arena (analysis_input s request target) c in
  match r with
  | Ok transition => (c, Ok (target, transition))
  | Err err =>
      if error_is ErrSparseTransitionUnavailable err then
        (on_machine (modify_closure forceFullMaterialization) ;!
         do! target := on_machine (demandTableForCanonicalGroups generation paths) in
         do! transition := encode_transition arena (mkTransitionInput (s_projectID s) "" None (Some target) false) in
         p_ret (target, transition)) c
      else (c, Err err)
  end.

(** Whether the client needs the frame. *)
Definition carries_frame (s : Session W) (target : FactTable) (transition : encodedWireTransition) : bool :=
  negb (bool_decide (enc_Mode transition = wireTransitionDelta)) ||
  negb (match retained_table s with Some t => Generation target =? Generation t | None => false end) ||
  negb (PathOperations transition =? 0) || negb (SymbolOperations transition =? 0).

(** [s.retained.table] with its borrowed slices cleared. *)
Definition detached_header (t : FactTable) : FactTable := with_rows t [] [] None None.

Definition publish_analysis (token : Z) (text : string) (t : retainedDemandTransaction) (target : FactTable) : P unit :=
  modify_session (fun s => with_retained s token text (retained_table s)) ;!
  modify_session (fun s => put_demands s (fst (SessionDemands.commit (demand_store s, t)))) ;!
  modify_session (fun s =>
    with_retained (with_machine s (closure_releaseTransportRows (s_machine s))) token text (Some (detached_header target))).

Definition analyze_transaction (request : LifecycleRequest) (arena : option (TransitionArena S)) (generation : Z)
    (t : retainedDemandTransaction) : P unit :=
  do! s := get_session in
  let before := BuildSequence (stats (m_closure (s_machine s))) in
  do! target := or_cancelled "analysis-failed" (on_machine (demandTableForCanonicalGroups generation (changedPaths t))) in
  check_cancelled ;!
  do! s := get_session in
  let nextToken := u64 (token s + 1) in
  let nextTokenText := FormatUint nextToken in
  modify_response (fun r => with_timings r nextTokenText (analysis_timings before (stats (m_closure (s_machine s))))) ;!
  do! encoded := or_fail "assembly-failed" (encode_analysis request arena generation (changedPaths t) target) in
  let '(target, transition) := encoded in
  do! s := get_session in
  (if carries_frame s target transition then modify_response (fun r => with_transition r (Bytes transition)) else p_ret tt) ;!
  check_cancelled ;!
  (if negb (Nat.eqb (length (SymbolQueries request)) 0) || ReferenceChanges request || ReleaseAnalysis request
   then or_cancelled "analysis-failed" (populateSymbolEvidence request None) else p_ret tt) ;!
  check_cancelled ;!
  publish_analysis nextToken nextTokenText t target.

Definition run_analyze (request : LifecycleRequest) (arena : option (TransitionArena S)) (generation : Z) : P unit :=
  do! s := get_session in
  if negb (rq_Generation request =? generation) then fail "generation-mismatch" ErrGenerationMismatch
  else if match CompactDemands request with Some _ => negb (Nat.eqb (length (Demands request)) 0) | None => false end
  then fail "invalid-demands" (ErrText "analyze carries both demands and compactDemands")
  else if negb (ResetState request) && negb (String.eqb (StateToken request) (tokenText s))
  then fail "state-mismatch" ErrGenerationMismatch
  else if serves_retained s request generation
  then modify_response (fun r => with_timings r (tokenText s) no_timings)
  else
    do! t := begin_demands request in
    on_error (abandon_call t) (analyze_transaction request arena generation t).

Definition run_symbols (request : LifecycleRequest) (arena : option (TransitionArena S)) (generation : Z) : P unit :=
  do! s := get_session in
  if negb (rq_Generation request =? generation) then fail "generation-mismatch" ErrGenerationMismatch
  else if String.eqb (StateToken request) "" || negb (String.eqb (StateToken request) (tokenText s))
  then fail "state-mismatch" (ErrWrap "symbol evidence token, retained token" ErrGenerationMismatch)
  else or_cancelled "analysis-failed" (populateSymbolEvidence request arena).

(** The writes of the source bodies; [bufio] only delays them. *)
Definition write_source (path : string) (source : SourceFile) (st : list SourceFileV3 * list Z) :
    proc W (list SourceFileV3 * list Z) :=
  fs_Write path (Source source) ;!
  p_ret (fst st ++ [mkSourceFileV3 (src_Path source) [] false], snd st ++ [u64 (len (Source source))]).

(** The deferred clean-up of a file that is not kept. *)
Definition discard_file (path : string) (w : W) : W :=
  let '(w, _) := fs_CloseFile path w in let '(w, _) := fs_Remove path w in w.

Definition write_sources (path : string) (sources : list SourceFile) : proc W (list SourceFileV3 * list Z) := fun w =>
  let '(w, r) :=
    (do! st := p_fold (write_source path) sources ([], []) in
     fs_Flush path ;!
     fs_CloseFile path ;!
     p_ret st) w in
  match r with Ok st => (w, Ok st) | Err e => (discard_file path w, Err e) end.

Definition writeSourceArena (sources : list SourceFile) : P (string * list SourceFileV3 * list Z) :=
  do! s := get_session in
  on_world (removeSourceArena (sourceArenaPath s)) ;!
  modify_session (fun s => with_source_arena s "") ;!
  do! path := on_world fs_CreateTemp in
  do! st := on_world (write_sources path sources) in
  modify_session (fun s => with_source_arena s path) ;!
  p_ret (path, fst st, snd st).

Definition run_sources (request : LifecycleRequest) (generation : Z) : P unit :=
  if negb (rq_Generation request =? generation) then fail "generation-mismatch" ErrGenerationMismatch
  else
    do! sources := or_fail "sources-failed" (on_machine closure_SourceFiles) in
    do! written := or_fail "sources-failed" (writeSourceArena sources) in
    let '(path, descriptors, lengths) := written in
    modify_response (fun r => with_sources r path descriptors lengths).

Definition run_modules (request : LifecycleRequest) (generation : Z) : P unit :=
  if negb (rq_Generation request =? generation) then fail "generation-mismatch" ErrGenerationMismatch
  else
    let demand := default empty_module_demand (ModuleGraph request) in
    do! inventory := or_cancelled "modules-failed" (on_machine (closure_ModuleGraph demand)) in
    modify_response (fun r => with_modules r inventory).

(** [errors.Join]. *)
Definition join_errors (a b : result unit) : option error :=
  match a, b with
  | Ok _, Ok _ => None
  | Err e, _ => Some e
  | Ok _, Err e => Some e
  end.

Definition session_Close : P (option error) := fun c =>
  let s := c_session c in
  if s_closed s then (c, Ok (closeErr s))
  else
    let '(m, closed) := Close (s_machine s) in
    let '(w, removed) := removeSourceArena (sourceArenaPath s) (m_world m) in
    let err := join_errors closed removed in
    (mkCall (with_close (with_machine s (set_world m w)) err) (c_arena c) (c_response c), Ok err).

Definition run_close (request : LifecycleRequest) (generation : Z) : P unit :=
  if negb (rq_Generation request =? generation) then fail "generation-mismatch" ErrGenerationMismatch
  else
    do! err := session_Close in
    match err with Some e => fail "close-failed" e | None => p_ret tt end.

Definition run_operation (request : LifecycleRequest) (arena : option (TransitionArena S)) (generation : Z) : P unit :=
  let operation := Operation request in
  if String.eqb operation LifecycleOpen then
    (if negb (rq_Generation request =? generation) then fail "generation-mismatch" ErrGenerationMismatch else p_ret tt)
  else if String.eqb operation LifecycleUpdate then run_update request
  else if String.eqb operation LifecycleAnalyze then run_analyze request arena generation
  else if String.eqb operation LifecycleSymbols then run_symbols request arena generation
  else if String.eqb operation LifecycleSources then run_sources request generation
  else if String.eqb operation LifecycleModules then run_modules request generation
  else if String.eqb operation LifecycleClose then run_close request generation
  else p_ret tt.

Definition dispatch (request : LifecycleRequest) (arena : option (TransitionArena S)) : P unit :=
  do! s := get_session in
  let generation := generation (m_closure (s_machine s)) in
  match ValidateLifecycleRequest request with
  | Err e => fail "invalid-request" e
  | Ok _ =>
      if negb (rq_Schema request =? s_schema s) then fail "invalid-request" (ErrText "unsupported TypeFacts schema")
      else if negb (String.eqb (Clean (rq_ProjectID request)) (s_projectID s)) then fail "project-mismatch" ErrGenerationMismatch
      else if s_closed s then
        (if String.eqb (Operation request) LifecycleClose && is_none (closeErr s) then p_ret tt
         else fail "session-closed" ErrSessionClosed)
      else run_operation request arena generation
  end.

Definition empty_response (s : Session W) (request : LifecycleRequest) : LifecycleResponse :=
  mkResponse (s_schema s) (RequestID request) (s_projectID s) (generation (m_closure (s_machine s))) false
    [] [] [] [] false "" [] [] "" [] None None [] [] [].

(** The code and the error of a failure. *)
Definition lifecycle_error (e : error) : LifecycleError :=
  match e with ErrWrap code err => mkLifecycleError code err | _ => mkLifecycleError "" e end.

Definition lifecycle (s : Session W) (request : LifecycleRequest) (arena : option (TransitionArena S)) (st : S) :
    Session W * S * LifecycleResponse :=
  let '(c, r) := dispatch request arena (mkCall s st (empty_response s request)) in
  (c_session c, c_arena c,
   match r with
   | Ok _ => with_outcome (c_response c) true (rs_Error (c_response c))
   | Err e => with_outcome (c_response c) (OK (c_response c)) (Some (lifecycle_error e))
   end).

Definition Lifecycle (s : Session W) (request : LifecycleRequest) (st : S) : Session W * S * LifecycleResponse :=
  lifecycle s request None st.
Definition LifecycleInto (s : Session W) (request : LifecycleRequest) (arena : TransitionArena S) (st : S) :
    Session W * S * LifecycleResponse := lifecycle s request (Some arena) st.

(** The closure owns the backend; a session that cannot be made closes it. *)
Definition NewSession (w : W) (projectID : string) : W * result (Session W) :=
  let projectID := Clean projectID in
  if String.eqb projectID "" || String.eqb projectID "."
  then (fst (bk_Close w), Err (ErrText "Type Facts session requires a project identity"))
  else
    (w, Ok (mkSession (mkMachine newDemandClosure ∅ [] w) projectID 0 "" None
              (mkEncoder TypeFactsTableSchemaVersion None (mkPlan [] [] [] [])) "" false None TypeFactsSchemaVersionV1)).
End Lifecycle.
