(* ===== verification/SampleSession.v ===== *)
(** * A concrete session

    A backend small enough to run: two files, and rows that carry the number of
    updates the backend has seen. The witnesses of the session theorems run on
    it. *)

From S2P Require Import Prelude GoStd GoText SortedPaths Model FactEqual Modules CompactDemands DemandGroup SessionDemands Contributions ContributionStore FactTable TransitionDiff StringTable Writer Rows Transition Proc Closure Materialize Protocol Session.
Open Scope Z_scope.

(** The world counts the updates and holds the cancellation, if any. *)
Record sample_world := mkSampleWorld {
  sw_updates : nat;
  sw_cancelled : option error;
}.

Definition versioned_row (w : sample_world) (d : EntityDemand) : EntityFact :=
  mkEntityFact (dem_Location d) ("symbol:h:" ++ FormatUint (Z.of_nat (sw_updates w))) false None None "" None
    (mkPrimitiveValueDomain 0) [] 0 None None "" None None "" "".

(** [b.ts] depends on [c.ts]. *)
Definition versioned_run (w : sample_world) (run : SemanticDemandRun) : SemanticDemandRunResult :=
  mkSemanticDemandRunResult (map (versioned_row w) (run_Demands run)) (map (fun _ => "") (run_Demands run))
    (if String.eqb (run_Path run) "b.ts" then ["c.ts"] else []) true.

#[export] Instance sample_hash : Maphash := {| Sum64 l := foldl (fun h b => u64 (31 * h + b)) 7 l |}.

#[export] Instance sample_files : FileSystem sample_world := {|
  fs_CreateTemp := p_ret "sources";
  fs_Write _ _ := p_ret tt;
  fs_Flush _ := p_ret tt;
  fs_CloseFile _ := p_ret tt;
  fs_Remove _ := p_ret tt;
|}.

#[export] Instance sample_backend : ClosureBackend sample_world.
Proof.
  refine {|
    ctx_Err w := (w, sw_cancelled w);
    bk_SourceFiles := p_ret [mkSourceFile "a.ts" [97]; mkSourceFile "b.ts" [98]];
    bk_Update changes w :=
      (mkSampleWorld (S (sw_updates w)) (sw_cancelled w), Ok (mkAffectedSet (map (fun change => Clean (fc_Path change)) changes)));
    bk_Close := p_ret tt;
    ResolveAlias _ := p_fail ErrNotFound;
    bk_Declarations _ := p_fail ErrNotFound;
    SemanticDemandRuns runs _ w := (w, Ok (map (versioned_run w) runs));
    AsyncFunctionsAt _ := p_ret [];
    ReferencesBatch _ := p_ret ∅;
    ChangedReferences := p_ret ([], true);
    ReleaseAnalysisState w := w;
    SourceDigests := Some (p_ret [mkSourceDigest "a.ts" (repeat 1 32); mkSourceDigest "b.ts" (repeat 2 32)]);
    SymbolEvidence := None;
    bk_ModuleGraph := None;
  |}.
  - intros changes w w' affected [= _ <-]. apply Forall_map, Forall_true. intros change. apply Clean_idempotent.
  - by intros w w' e [= <- H].
Defined.

Definition sample_start : sample_world := mkSampleWorld 0 None.

Definition sample_request (operation : LifecycleOperation) (generation : Z) (changes : list FileChangeV3)
    (demands : list EntityDemand) (removed : list string) (tok : string) : LifecycleRequest :=
  mkRequest 1 1 operation "p" generation changes demands None tok false removed [] false false [] 0 None.

Definition asked_at (path : string) (a : Z) : EntityDemand :=
  mkEntityDemand (mkLocation path a (a + 2)) None true false false false false false false false false false
    false false false false false false false false false.

(** A session through its first analysis, an update of [a.ts], and the
    analysis after it. *)
Definition run_request (s : Session sample_world) (request : LifecycleRequest) : Session sample_world * LifecycleResponse :=
  let '(s, _, r) := Lifecycle s request tt in (s, r).

Definition new_sample : Session sample_world :=
  mkSession (mkMachine newDemandClosure ∅ [] sample_start) "p" 0 "" None
    (mkEncoder TypeFactsTableSchemaVersion None (mkPlan [] [] [] [])) "" false None TypeFactsSchemaVersionV1.

Definition first_analysis : LifecycleRequest :=
  sample_request LifecycleAnalyze 1 [] [asked_at "a.ts" 3; asked_at "b.ts" 5; asked_at "d.ts" 1] [] "".
Definition first_update : LifecycleRequest :=
  sample_request LifecycleUpdate 2 [mkFileChangeV3 "./a.ts" 2 [99] false] [] [] "".
Definition second_analysis : LifecycleRequest :=
  sample_request LifecycleAnalyze 2 [] [] ["d.ts"] "1".

Definition analyzed_once : Session sample_world := fst (run_request new_sample first_analysis).
Definition updated_once : Session sample_world := fst (run_request analyzed_once first_update).
Definition analyzed_twice : Session sample_world := fst (run_request updated_once second_analysis).
