(* ===== verification/SessionSpec.v ===== *)
(** * What a session keeps between requests

    The invariant of a session's state, what a request may change of it, and
    the rows of a client that follows its analyses. *)

From S2P Require Import Prelude GoStd GoText SortedPaths Model FactEqual FactTable TransitionDiff PathDelta StringTable CompactDemands DemandGroup SessionDemands Modules Proc Contributions ContributionStore Closure Materialize MaterializeSpec DemandEdits MaterializeTable ClosureSpec Protocol Writer Rows Transition AnalysisSpec Session.
Open Scope Z_scope.

Section Spec.
Context `{BK : !Backing} `{MR : !MapRange} `{MH : !Maphash} {W S : Type} `{BE : !ClosureBackend W} `{FS : !FileSystem W}.
Implicit Types (s : Session W) (c : call W S).
Notation P := (proc (call W S)).

(** ** Procedures that move little *)

Definition put_machine c (m : machine W) : call W S :=
  mkCall (with_machine (c_session c) m) (c_arena c) (c_response c).
Definition put_world c (w : W) : call W S := put_machine c (set_world (s_machine (c_session c)) w).

(** Only the world outside and the encoder may differ. *)
Definition unmoved s s' : Prop := exists w e, s' = with_encoder (with_machine s (set_world (s_machine s) w)) e.

#[export] Instance unmoved_preorder : PreOrder unmoved.
Proof.
  split.
  - intros s. exists (m_world (s_machine s)), (s_transition s). by destruct s as [[] ? ? ? ? ? ? ? ? ?].
  - intros a b d (w & e & ->) (w' & e' & ->). by exists w', e'.
Qed.

Definition idle c c' : Prop := unmoved (c_session c) (c_session c').
Definition idle_frame c c' : Prop := idle c c' /\ TableTransition (c_response c') = TableTransition (c_response c).

#[export] Instance idle_preorder : PreOrder idle.
Proof. split; [by intros c; unfold idle|intros a b d H1 H2; unfold idle in *; by etrans]. Qed.
#[export] Instance idle_frame_preorder : PreOrder idle_frame.
Proof. split; [by intros c; split|]. intros a b d [H1 H2] [H3 H4]. split; [by etrans|congruence]. Qed.

Definition moves {A} (R : call W S -> call W S -> Prop) (f : P A) : Prop := forall c, R c (fst (f c)).

Lemma moves_wp {A} (R : call W S -> call W S -> Prop) E (f : P A) Q c :
  moves R f -> (forall c', R c c' -> E c') -> (forall a c', R c c' -> Q a c') -> wp E f Q c.
Proof. intros Hm HE HQ. unfold wp. specialize (Hm c). destruct (f c) as [c' [a|e]]; simpl in Hm; auto. Qed.

Section Moves.
Context (R : call W S -> call W S -> Prop) `{HR : !PreOrder R}.

Lemma moves_ret {A} (a : A) : moves R (p_ret a).
Proof. intros c. simpl. done. Qed.
Lemma moves_fail {A} code e : moves R (fail (A:=A) code e).
Proof. intros c. simpl. done. Qed.
Lemma moves_get : moves R get_session.
Proof. intros c. simpl. done. Qed.
Lemma moves_bind {A B} (f : P A) (k : A -> P B) : moves R f -> (forall a, moves R (k a)) -> moves R (p_bind f k).
Proof.
  intros Hf Hk c. unfold p_bind. specialize (Hf c). destruct (f c) as [c' [a|e]]; [|done]. simpl in Hf.
  etrans; [exact Hf|apply Hk].
Qed.
Lemma moves_if {A} (b : bool) (f g : P A) : moves R f -> moves R g -> moves R (if b then f else g).
Proof. by destruct b. Qed.
End Moves.

Lemma idle_put_world c w : idle_frame c (put_world c w).
Proof. split; [|done]. exists w, (s_transition (c_session c)). simpl. by destruct (c_session c). Qed.

Lemma moves_machine {A} (f : proc (machine W) A) : (forall m, exists w, fst (f m) = set_world m w) -> moves idle_frame (on_machine f).
Proof.
  intros Hf c. unfold on_machine, p_zoom. destruct (Hf (s_machine (c_session c))) as [w Hw].
  destruct (f _) as [m r]. simpl in *. subst m. apply idle_put_world.
Qed.

Lemma moves_world {A} (f : proc W A) : moves idle_frame (on_world f).
Proof.
  apply moves_machine. intros m. unfold in_world, p_zoom. destruct (f (m_world m)) as [w r]. by exists w.
Qed.

Lemma moves_when_open {A} (f : proc W A) : forall m : machine W, exists w, fst (when_open (in_world f) m) = set_world m w.
Proof.
  intros m. unfold when_open, p_bind, p_get. destruct (cl_closed (m_closure m)).
  - exists (m_world m). by destruct m.
  - unfold in_world, p_zoom. destruct (f (m_world m)) as [w r]. by exists w.
Qed.

Lemma moves_encode arena input : moves idle_frame (encode_transition arena input).
Proof.
  intros c. unfold encode_transition. cbv zeta.
  assert (forall st e, idle_frame c (mkCall (with_encoder (c_session c) e) st (c_response c))) as H.
  { intros st e. split; [|done]. exists (m_world (s_machine (c_session c))), e. simpl. by destruct (c_session c) as [[] ? ? ? ? ? ? ? ? ?]. }
  destruct arena as [a|].
  - destruct (EncodeInto _ _ _ _) as [[e st] r]. apply H.
  - destruct (Encode _ _) as [e r]. apply H.
Qed.

Lemma moves_poll : moves idle_frame poll.
Proof. apply moves_world. Qed.

Lemma moves_check : moves idle_frame check_cancelled.
Proof. apply moves_bind; [apply _|apply moves_poll|]. intros [e|]; [apply moves_fail|apply moves_ret]; apply _. Qed.

Lemma moves_response (f : LifecycleResponse -> LifecycleResponse) : (forall r, TableTransition (f r) = TableTransition r) ->
  moves idle_frame (modify_response f).
Proof. intros Hf c. split; [|apply Hf]. by unfold idle. Qed.

Lemma moves_response_idle (f : LifecycleResponse -> LifecycleResponse) : moves idle (modify_response f).
Proof. intros c. by unfold idle. Qed.

Lemma moves_weaken {A} (f : P A) : moves idle_frame f -> moves idle f.
Proof. intros H c. apply H. Qed.

Lemma moves_or_cancelled {A} R `{HR : !PreOrder R} code (f : P A) : moves R poll -> moves R f -> moves R (or_cancelled code f).
Proof.
  intros Hw Hf c. unfold or_cancelled. specialize (Hf c). destruct (f c) as [c1 [a|err]]; [done|]. simpl in Hf. etrans; [exact Hf|].
  revert c1 Hf. intros c1 _. revert c1.
  assert (forall (k : P A), moves R k -> forall c1, R c1 (fst (k c1))) as Hk by (intros k Hk c1; apply Hk).
  apply Hk. apply moves_bind; [done|done|]. intros [e|]; [|by apply moves_fail].
  apply moves_bind; [done|done|]. intros again. by apply moves_fail.
Qed.

(** ** Symbol evidence *)

Lemma moves_evidence queries : moves idle_frame (on_machine (resolveSymbolEvidence queries)).
Proof. apply moves_machine. unfold resolveSymbolEvidence. apply moves_when_open. Qed.

Lemma moves_changed : moves idle_frame (on_machine changedReferences).
Proof.
  apply moves_machine. intros m. unfold changedReferences, in_world, p_zoom. destruct (ChangedReferences _) as [w r]. by exists w.
Qed.

Lemma moves_release : moves idle_frame (on_machine releaseBackendAnalysisState).
Proof. apply moves_machine. intros m. by eexists. Qed.

(** Evidence is read from the backend; only a symbols request carries it in a
    frame. *)
Lemma moves_populate R `{HR : !PreOrder R} request arena :
  (forall A (f : P A), moves idle_frame f -> moves R f) ->
  (Operation request = LifecycleSymbols -> forall f, moves R (modify_response f)) ->
  moves R (populateSymbolEvidence request arena).
Proof.
  intros Hw Hsym. unfold populateSymbolEvidence.
  apply moves_bind; [done|apply Hw, moves_evidence|]. intros evidence. apply moves_bind; [done| |].
  - destruct (String.eqb_spec (Operation request) LifecycleSymbols) as [Ho|]; simpl; [|by apply Hw, moves_response].
    destruct (negb _); [|by apply Hw, moves_response]. apply moves_bind; [done|by apply moves_get|]. intros s. cbv zeta.
    apply moves_bind; [done| |intros packed; by apply Hsym]. apply Hw. intros c.
    pose proof (moves_encode arena (mkTransitionInput (s_projectID s) "" None
      (Some (evidence_table (rq_Generation request) (s_projectID s) (sort_slice (key_less ID) evidence))) false) c) as H.
    destruct (encode_transition _ _ c) as [c' r]. exact H.
  - intros []. apply moves_bind; [done| |].
    + apply moves_if; [|by apply moves_ret]. apply moves_bind; [done|apply Hw, moves_changed|]. intros [ids exact].
      apply moves_bind; [done|by apply Hw, moves_response|]. intros [].
      apply moves_if; [|by apply moves_ret]. apply moves_bind; [done|apply Hw, moves_evidence|]. intros evidence'.
      by apply Hw, moves_response.
    + intros []. apply moves_if; [apply Hw, moves_release|by apply moves_ret].
Qed.

Lemma populate_idle request arena : moves idle (populateSymbolEvidence request arena).
Proof. apply moves_populate; [apply _|intros; by apply moves_weaken|intros; apply moves_response_idle]. Qed.

Lemma populate_idle_frame request arena : Operation request <> LifecycleSymbols ->
  moves idle_frame (populateSymbolEvidence request arena).
Proof. intros Hn. apply moves_populate; [apply _|done|by intros ?]. Qed.

(** ** In the course of an analysis *)

(** What has not changed since the transaction began on the runs [gs]. *)
Record in_flight s0 (gs : list demandGroup) s : Prop := {
  fl_retained : (token s, tokenText s, retained_table s) = (token s0, tokenText s0, retained_table s0);
  fl_session : (s_projectID s, s_schema s, sourceArenaPath s, s_closed s, closeErr s) =
    (s_projectID s0, s_schema s0, sourceArenaPath s0, s_closed s0, closeErr s0);
  fl_runs : Forall2 same_run gs (m_groups (s_machine s));
  fl_generation : generation (m_closure (s_machine s)) = generation (m_closure (s_machine s0));
  fl_cl_closed : cl_closed (m_closure (s_machine s)) = cl_closed (m_closure (s_machine s0));
}.

Lemma in_flight_unmoved s0 gs s s' : in_flight s0 gs s -> unmoved s s' -> in_flight s0 gs s'.
Proof. intros [H1 H2 H3 H4 H5] (w & e & ->). by split. Qed.

Lemma in_flight_machine s0 gs s m : in_flight s0 gs s -> survives (s_machine s) m -> in_flight s0 gs (with_machine s m).
Proof.
  intros [H1 H2 H3 H4 H5] [K1 K2 K3 K4]. split; simpl; [done|done|by etrans|congruence|congruence].
Qed.

Lemma wp_on_machine {A} E (f : proc (machine W) A) Q c :
  wp (fun m => E (put_machine c m)) f (fun a m => Q a (put_machine c m)) (s_machine (c_session c)) -> wp E (on_machine f) Q c.
Proof. unfold wp, on_machine, p_zoom. by destruct (f _) as [m [a|e]]. Qed.

Lemma wp_get_session E Q c : Q (c_session c) c -> wp E get_session Q c.
Proof. done. Qed.

Lemma wp_or_fail {A} E code (f : P A) Q c : wp E f Q c -> wp E (or_fail code f) Q c.
Proof. unfold wp, or_fail. by destruct (f c) as [c' [a|e]]. Qed.

Lemma wp_or_cancelled {A} E code (f : P A) Q c : (forall c c', E c -> idle_frame c c' -> E c') ->
  wp E f Q c -> wp E (or_cancelled code f) Q c.
Proof.
  intros HE. unfold wp, or_cancelled. destruct (f c) as [c1 [a|err]]; [done|]. intros H1.
  assert (moves idle_frame (do! first := poll in
    match first with None => fail (A:=A) code err | Some e => do! again := poll in fail "analysis-cancelled" (default e again) end)) as Hm.
  { apply moves_bind; [apply _|apply moves_poll|]. intros [e|]; [|apply moves_fail; apply _].
    apply moves_bind; [apply _|apply moves_poll|]. intros again. apply moves_fail; apply _. }
  specialize (Hm c1).
  assert (forall a, snd ((do! first := poll in
    match first with None => fail (A:=A) code err | Some e => do! again := poll in fail "analysis-cancelled" (default e again) end) c1) <> Ok a) as Hno.
  { intros a. unfold p_bind. destruct (poll c1) as [c2 [[e|]|e]]; simpl; try done. by destruct (poll c2) as [c3 [? |?]]. }
  destruct (p_bind _ _ c1) as [c2 [a|e]]; simpl in *; [by destruct (Hno a)|]. by eapply HE.
Qed.

(** ** The transition of an analysis *)

(** The transition sent: what was encoded, and the plan it carries. *)
Record encodes (arena : option (TransitionArena S)) input (target : FactTable) (p : wirePlan) (enc : encodedWireTransition) : Prop := {
  en_call : exists c c', encode_transition arena input c = (c', Ok enc);
  en_target : in_Target input = Some target;
  en_plan : plan_transition input target fresh_plan = Ok p;
  en_counts : exists mode baseGeneration, validateWireTransitionInput input = Ok (mode, baseGeneration, target) /\
    enc_Mode enc = mode /\ PathOperations enc = path_operation_count mode p /\
    SymbolOperations enc = symbol_operation_count mode target p;
}.

Lemma encode_transition_encodes arena input c c' enc : encode_transition arena input c = (c', Ok enc) ->
  exists target p, encodes arena input target p enc.
Proof.
  intros H. assert (exists S' (a : option (TransitionArena S')) st e st', encode (s_transition (c_session c)) input a st = (e, st', Ok enc))
    as (S' & a & st & e & st' & He).
  { unfold encode_transition in H. cbv zeta in H. destruct arena as [a|].
    - unfold EncodeInto in H. destruct (encode _ _ (Some a) _) as [[e st] r] eqn:E. injection H as _ ->. by repeat eexists.
    - unfold Encode in H. destruct (encode _ _ None no_sink) as [[e st] r] eqn:E. injection H as _ ->. by repeat eexists. }
  apply encode_planned in He as (mode & bg & target & p & H1 & H2 & H3 & H4 & H5 & H6).
  exists target, p. split; [by exists c, c'|done|done|]. by exists mode, bg.
Qed.

(** The table of an analysis of the runs of [mb], the input encoded for it and
    the machine left: the first attempt, or the second, in full. *)
Inductive assembled s0 (request : LifecycleRequest) (generation : Z) (paths : list string) (mb : machine W)
    (t : FactTable) : wireTransitionInput -> machine W -> Prop :=
  | assembled_first m : tabled generation paths mb t m ->
      assembled s0 request generation paths mb t (analysis_input s0 request t) m
  | assembled_again m1 m : machine_ok m1 -> survives mb m1 -> tabled generation paths (reset_closure m1) t m ->
      assembled s0 request generation paths mb t (mkTransitionInput (s_projectID s0) "" None (Some t) false) m.

Lemma analysis_input_flight s0 gs s request t : in_flight s0 gs s -> analysis_input s request t = analysis_input s0 request t.
Proof. intros [[= H1 H2 H3] [= K1 _ _ _ _] _ _ _]. unfold analysis_input. by rewrite K1, H2, H3. Qed.

Lemma survives_world (m : machine W) w : survives m (set_world m w).
Proof. by split. Qed.

Lemma survives_reset (m : machine W) : survives m (reset_closure m).
Proof. by split. Qed.

Lemma in_flight_put s0 gs c m : in_flight s0 gs (c_session c) -> survives (s_machine (c_session c)) m ->
  in_flight s0 gs (c_session (put_machine c m)).
Proof. apply in_flight_machine. Qed.

Lemma idle_machine c c' (m : machine W) w : idle c c' -> s_machine (c_session c) = set_world m w ->
  exists w', s_machine (c_session c') = set_world m w'.
Proof. intros (w' & e & Hs) Hm. exists w'. rewrite Hs. simpl. by rewrite Hm. Qed.

Lemma encode_analysis_spec s0 gs request arena generation paths mb t m w c :
  in_flight s0 gs (c_session c) -> s_machine (c_session c) = set_world m w -> machine_ok mb -> tabled generation paths mb t m ->
  wp (fun c' => in_flight s0 gs (c_session c')) (encode_analysis request arena generation paths t)
    (fun '(t, enc) c' => in_flight s0 gs (c_session c') /\ TableTransition (c_response c') = TableTransition (c_response c) /\
       exists input p m w, assembled s0 request generation paths mb t input m /\ encodes arena input t p enc /\
         s_machine (c_session c') = set_world m w) c.
Proof.
  intros Hf Hm Hok Ht. unfold wp, encode_analysis. cbv zeta. rewrite (analysis_input_flight s0 gs) by done.
  pose proof (moves_encode arena (analysis_input s0 request t) c) as [Hi Hfr].
  destruct (encode_transition arena (analysis_input s0 request t) c) as [c1 [enc|err]] eqn:Ee; simpl in Hi, Hfr.
  - pose proof (in_flight_unmoved _ _ _ _ Hf Hi). split_and!; [done|done|].
    destruct (encode_transition_encodes _ _ _ _ _ Ee) as (t' & p & He). assert (t' = t) as ->.
    { pose proof (en_target _ _ _ _ _ He) as H1. unfold analysis_input in H1. by destruct (ResetState request), (retained_table s0); injection H1. }
    destruct (idle_machine c c1 m w Hi Hm) as [w' Hw]. exists (analysis_input s0 request t), p, m, w'. split_and!; [by constructor|done|done].
  - pose proof (in_flight_unmoved _ _ _ _ Hf Hi) as Hf1. destruct (error_is _ _); [|done].
    destruct (idle_machine c c1 m w Hi Hm) as [w1 Hw1]. destruct (tabled_ok _ _ _ _ _ Hok Ht) as (Hokm & Hsv & _).
    set (m1 := set_world m w1) in *.
    apply wp_bind, wp_on_machine. rewrite Hw1. unfold modify_closure. apply wp_modify.
    change (set_closure m1 (forceFullMaterialization (m_closure m1))) with (reset_closure m1).
    assert (machine_ok (reset_closure m1)) as Hokr by (apply reset_closure_ok; apply Hokm).
    assert (in_flight s0 gs (c_session (put_machine c1 (reset_closure m1)))) as Hf2.
    { apply in_flight_put; [done|]. rewrite Hw1. apply survives_reset. }
    apply wp_bind, wp_on_machine. eapply wp_mono; [| |apply tabled_spec, Hokr].
    + intros m' Hs. apply in_flight_put; [exact Hf2|exact Hs].
    + intros t2 m2 [Hgen Ht2]. destruct (tabled_ok _ _ _ _ _ Hokr Ht2) as (Hok2 & Hsv2 & _).
      set (c2 := put_machine _ m2). assert (in_flight s0 gs (c_session c2)) as Hfc2 by (apply in_flight_put; [exact Hf2|exact Hsv2]).
      set (input := mkTransitionInput _ "" None (Some t2) false).
      assert (input = mkTransitionInput (s_projectID s0) "" None (Some t2) false) as Hinput.
      { unfold input. destruct Hf as [_ [= -> _ _ _ _] _ _ _]. done. }
      clearbody input. subst input. set (input := mkTransitionInput _ "" None (Some t2) false).
      apply wp_bind. pose proof (moves_encode arena input c2) as [Hi3 Hfr3]. unfold wp at 1.
      destruct (encode_transition arena input c2) as [c3 [enc|err3]] eqn:Ee3; simpl in Hi3, Hfr3;
        pose proof (in_flight_unmoved _ _ _ _ Hfc2 Hi3) as Hf3; [|done]. apply wp_ret.
      destruct (encode_transition_encodes _ _ _ _ _ Ee3) as (t' & p & He).
      assert (t' = t2) as -> by (pose proof (en_target _ _ _ _ _ He) as H1; by injection H1).
      destruct (idle_machine c2 c3 m2 (m_world m2) Hi3) as [w3 Hw3]; [simpl; by destruct m2|].
      split_and!; [done|by rewrite Hfr3|]. exists input, p, m2, w3. split_and!; [|done|done].
      apply (assembled_again _ _ _ _ _ _ m1); [by apply machine_ok_world| |exact Ht2]. etrans; [exact Hsv|apply survives_world].
Qed.

(** ** The transaction of an analysis *)

(** What a published analysis leaves: [c] is where its transaction began. *)
Record analyzed s0 (request : LifecycleRequest) arena (generation : Z) (tx : retainedDemandTransaction) c c'
    (t : FactTable) input (p : wirePlan) (enc : encodedWireTransition) (m : machine W) : Prop := {
  an_assembled : assembled s0 request generation (changedPaths tx) (s_machine (c_session c)) t input m;
  an_encodes : encodes arena input t p enc;
  an_machine : exists w, s_machine (c_session c') = closure_releaseTransportRows (set_world m w);
  an_retained : (token (c_session c'), tokenText (c_session c'), retained_table (c_session c')) =
    (u64 (token s0 + 1), FormatUint (u64 (token s0 + 1)), Some (detached_header t));
  an_frame : TableTransition (c_response c') =
    if carries_frame s0 t enc then Bytes enc else TableTransition (c_response c);
  an_session : (s_projectID (c_session c'), s_schema (c_session c'), sourceArenaPath (c_session c'), s_closed (c_session c'),
      closeErr (c_session c')) =
    (s_projectID s0, s_schema s0, sourceArenaPath s0, s_closed s0, closeErr s0);
}.

Lemma commit_groups (d : retainedDemandStore) t : fst (SessionDemands.commit (d, t)) = d.
Proof. unfold SessionDemands.commit, SessionDemands.finish. by destruct (finished t). Qed.

Lemma put_demands_same s : put_demands s (demand_store s) = s.
Proof. by destruct s as [[] ? ? ? ? ? ? ? ? ?]. Qed.

Lemma carries_frame_flight s0 gs s t enc : in_flight s0 gs s -> carries_frame s t enc = carries_frame s0 t enc.
Proof. intros [[= _ _ H] _ _ _ _]. unfold carries_frame. by rewrite H. Qed.

(** A step that moves only the world, on the way through a transaction. *)
Lemma wp_idle {A} s0 gs (f : P A) Q c : moves idle_frame f -> in_flight s0 gs (c_session c) ->
  (forall a c', idle_frame c c' -> in_flight s0 gs (c_session c') -> Q a c') -> wp (fun c' => in_flight s0 gs (c_session c')) f Q c.
Proof.
  intros Hm Hf HQ. apply (moves_wp idle_frame); [done| |].
  - intros c' [Hi _]. by eapply in_flight_unmoved.
  - intros a c' Hi. apply HQ; [done|]. by eapply in_flight_unmoved; [|apply Hi].
Qed.

Lemma analyze_transaction_spec s0 gs request arena generation tx c :
  in_flight s0 gs (c_session c) -> machine_ok (s_machine (c_session c)) -> Operation request <> LifecycleSymbols ->
  wp (fun c' => in_flight s0 gs (c_session c')) (analyze_transaction request arena generation tx)
    (fun _ c' => exists t input p enc m, analyzed s0 request arena generation tx c c' t input p enc m) c.
Proof.
  intros Hf Hok Hop. unfold analyze_transaction. apply wp_bind, wp_get_session. cbv zeta. apply wp_bind.
  apply wp_or_cancelled; [by intros ? ? ? [? _]; eapply in_flight_unmoved|].
  apply wp_on_machine. eapply wp_mono; [| |apply tabled_spec, Hok].
  { intros m Hs. by apply in_flight_put. }
  intros t m [Hgen Ht]. destruct (tabled_ok _ _ _ _ _ Hok Ht) as (Hokm & Hsv & _). set (c1 := put_machine c m).
  assert (in_flight s0 gs (c_session c1)) as Hf1 by by apply in_flight_put.
  apply wp_bind, (wp_idle s0 gs); [apply moves_check|done|]. intros [] c2 [Hi2 Hr2] Hf2.
  destruct (idle_machine c1 c2 m (m_world m) Hi2) as [w2 Hw2]; [simpl; by destruct m|].
  apply wp_bind, wp_get_session. cbv zeta. apply wp_bind.
  apply (wp_idle s0 gs); [by apply moves_response|done|]. intros [] c3 [Hi3 Hr3] Hf3.
  destruct (idle_machine c2 c3 m w2 Hi3 Hw2) as [w3 Hw3].
  apply wp_bind, wp_or_fail.
  eapply wp_mono; [| |exact (encode_analysis_spec s0 gs request arena generation _ _ t m w3 c3 Hf3 Hw3 Hok Ht)]; [done|].
  intros [t' enc] c4 (Hf4 & Hr4 & input & p & m4 & w4 & Has & Hen & Hw4). cbv beta iota.
  apply wp_bind, wp_get_session. rewrite (carries_frame_flight s0 gs) by done.
  assert (TableTransition (c_response c4) = TableTransition (c_response c)) as Hresp by (rewrite Hr4, Hr3, Hr2; done).
  apply wp_bind.
  assert (forall Q, (forall c5, in_flight s0 gs (c_session c5) -> c_session c5 = c_session c4 ->
      TableTransition (c_response c5) = (if carries_frame s0 t' enc then Bytes enc else TableTransition (c_response c)) -> Q tt c5) ->
    wp (fun c' => in_flight s0 gs (c_session c'))
      (if carries_frame s0 t' enc then modify_response (fun r => with_transition r (Bytes enc)) else p_ret tt) Q c4) as Hstep.
  { intros Q HQ. destruct (carries_frame s0 t' enc); [apply wp_modify|apply wp_ret]; by apply HQ. }
  apply Hstep. clear Hstep. intros c5 Hf5 Hs5 Hr5. rewrite <- Hs5 in Hw4.
  apply wp_bind, (wp_idle s0 gs); [apply moves_check|done|]. intros [] c6 [Hi6 Hr6] Hf6.
  destruct (idle_machine c5 c6 m4 w4 Hi6 Hw4) as [w6 Hw6]. apply wp_bind.
  apply (wp_idle s0 gs); [|done|].
  { destruct (_ || _); [|apply moves_ret; apply _].
    apply moves_or_cancelled; [apply _|apply moves_poll|by apply populate_idle_frame]. }
  intros [] c7 [Hi7 Hr7] Hf7. destruct (idle_machine c6 c7 m4 w6 Hi7 Hw6) as [w7 Hw7].
  apply wp_bind, (wp_idle s0 gs); [apply moves_check|done|]. intros [] c8 [Hi8 Hr8] Hf8.
  destruct (idle_machine c7 c8 m4 w7 Hi8 Hw7) as [w8 Hw8].
  unfold publish_analysis. apply wp_bind, wp_modify, wp_bind, wp_modify, wp_modify.
  rewrite commit_groups, put_demands_same. exists t', input, p, enc, m4.
  pose proof Hf2 as [[= Htok _ _] _ _ _ _]. rewrite Htok.
  split; simpl; [done|done|exists w8; by rewrite Hw8|done|by rewrite Hr8, Hr7, Hr6, Hr5|apply Hf8].
Qed.

(** ** The state between requests *)

Record session_ok s : Prop := {
  sn_machine : machine_ok (s_machine s);
  sn_unretained : retained_table s = None ->
    byPath (retained (m_closure (s_machine s))) = ∅ /\ table (m_closure (s_machine s)) = None;
  sn_table t : table (m_closure (s_machine s)) = Some t ->
    (forall path, wireTransitionEntityPath t path = []) /\ Generation t = generation (m_closure (s_machine s)) /\
    exists r, retained_table s = Some r /\ Generation r = generation (m_closure (s_machine s));
}.

Lemma session_ok_unmoved s s' : session_ok s -> unmoved s s' -> session_ok s'.
Proof. intros [H1 H2 H3] (w & e & ->). split; simpl; [by apply machine_ok_world|done|done]. Qed.

(** A failed analysis keeps what the client can name and forgets the rest, or
    did not start. *)
Record abandoned s s' : Prop := {
  ab_flight : in_flight s (m_groups (s_machine s)) s';
  ab_closure : s' = s \/
    let p := m_closure (s_machine s') in
    table p = None /\ previousTable p = None /\ transportChangedPaths p = None /\ byPath (retained p) = ∅;
}.

Lemma abandoned_same s : abandoned s s.
Proof. split; [by split|by left]. Qed.

Lemma machine_ok_reset_any (m m' : machine W) : machine_ok m -> Forall2 same_run (m_groups m) (m_groups m') -> machine_ok (reset_closure m').
Proof.
  intros [_ _ H3 H4 _ _ _ H8 _] Hs. apply reset_closure_ok; [by eapply same_runs_located|by eapply same_run_sorted|by eapply same_runs_clean].
Qed.

Lemma abandoned_ok s s' : session_ok s -> abandoned s s' -> s' = s \/ machine_ok (s_machine s') -> session_ok s'.
Proof.
  intros Hok [Hf Hc] Hm. destruct Hc as [->|(H1 & H2 & H3 & H4)]; [done|]. destruct Hm as [->|Hm]; [done|].
  split; [done|done|]. intros t Ht. by rewrite H1 in Ht.
Qed.

(** The run of the deferred clean-up. *)
Lemma abandon_call_spec s0 reset gs tx c : machine_ok (s_machine s0) -> edited (m_groups (s_machine s0)) reset gs tx ->
  in_flight s0 gs (c_session c) ->
  abandoned s0 (c_session (abandon_call tx c)) /\ machine_ok (s_machine (c_session (abandon_call tx c))).
Proof.
  intros Hok Hed [H1 H2 H3 H4 H5]. unfold abandon_call. cbv zeta. cbn [c_session].
  set (m := s_machine (c_session c)) in *.
  pose proof (ed_rollback _ _ _ _ Hed _ H3) as Hroll.
  change (demand_store (with_machine (c_session c) (set_closure m (abandonAnalysis (m_closure m)))))
    with (mkDemandStore (m_groups m)).
  set (gs' := groups (fst (rollback (mkDemandStore (m_groups m), tx)))) in *.
  split.
  - split; [|by right]. split; simpl; done.
  - simpl. change (machine_ok (reset_closure (set_groups m gs'))). by eapply machine_ok_reset_any.
Qed.

(** ** Analyses *)

(** The session once the transaction [tx] began on the runs [gs]. *)
Record begun s (request : LifecycleRequest) (gs : list demandGroup) (tx : retainedDemandTransaction) s' : Prop := {
  be_session : s' = put_demands s (mkDemandStore gs);
  be_edited : edited (m_groups (s_machine s)) (ResetState request) gs tx;
  be_unchanged : changedPaths tx = [] -> RemovedDemandPaths request = [] /\
    match CompactDemands request with Some compact => Groups compact = [] | None => Demands request = [] end;
}.

Lemma begin_demands_spec request c : machine_ok (s_machine (c_session c)) ->
  wp (fun c' => c' = c) (begin_demands request)
    (fun tx c' => exists gs, begun (c_session c) request gs tx (c_session c') /\ c_response c' = c_response c) c.
Proof.
  intros Hok. unfold wp, begin_demands. cbv zeta. pose proof (mo_sorted _ Hok) as Hs.
  destruct (CompactDemands request) as [compact|] eqn:Ec.
  - destruct (beginCompact _ _ _ _) as [[d t]|e] eqn:Eb; [|done]. exists (groups d). split; [|done].
    split; simpl; [by destruct d|by apply (beginCompact_edited _ _ _ _ (d, t)) in Eb|].
    intros Hn. rewrite Ec. by destruct (beginCompact_unchanged _ _ _ _ _ Eb Hn).
  - pose proof (begin_edited (demand_store (c_session c)) (Demands request) (RemovedDemandPaths request) (ResetState request) Hs) as He.
    pose proof (begin_unchanged (demand_store (c_session c)) (Demands request) (RemovedDemandPaths request) (ResetState request)) as Hu.
    destruct (begin _ _ _ _) as [d t]. exists (groups d). split; [|done]. split; simpl; [by destruct d|exact He|].
    intros Hn. rewrite Ec. by destruct (Hu Hn).
Qed.

Lemma begun_flight s request gs tx s' : begun s request gs tx s' -> in_flight s gs s'.
Proof. intros [-> _ _]. by split. Qed.

(** What an analysis that was not served from the retained answer did. *)
Record analysis c (request : LifecycleRequest) arena (generation : Z) c' t input p enc (m : machine W) : Prop := {
  ay_fresh : serves_retained (c_session c) request generation = false;
  ay_run : exists gs tx c1, begun (c_session c) request gs tx (c_session c1) /\
    analyzed (c_session c) request arena generation tx c1 c' t input p enc m /\ c_response c1 = c_response c /\
    (changedPaths tx = [] -> is_Some (table (m_closure (s_machine (c_session c)))) -> ResetState request = true);
}.

Lemma unchanged_serves s request gs tx s' t : session_ok s -> begun s request gs tx s' ->
  match CompactDemands request with Some _ => Demands request = [] | None => True end ->
  changedPaths tx = [] -> table (m_closure (s_machine s)) = Some t -> ResetState request = false ->
  serves_retained s request (generation (m_closure (s_machine s))) = true.
Proof.
  intros Hok Hb Hd Hn Ht Hr. destruct (be_unchanged _ _ _ _ _ Hb Hn) as [H1 H2].
  destruct (sn_table _ Hok t Ht) as (_ & _ & r & H3 & H4). unfold serves_retained. rewrite Hr, H1, H3, H4, Z.eqb_refl.
  destruct (CompactDemands request) as [compact|]; [by rewrite Hd, H2|by rewrite H2].
Qed.

Lemma run_analyze_spec request arena c : session_ok (c_session c) -> Operation request <> LifecycleSymbols ->
  let generation := generation (m_closure (s_machine (c_session c))) in
  wp (fun c' => abandoned (c_session c) (c_session c') /\ (c_session c' = c_session c \/ machine_ok (s_machine (c_session c'))))
    (run_analyze request arena generation)
    (fun _ c' =>
       (serves_retained (c_session c) request generation = true /\ c_session c' = c_session c /\
          TableTransition (c_response c') = TableTransition (c_response c)) \/
       exists t input p enc m, analysis c request arena generation c' t input p enc m) c.
Proof.
  intros Hok Hop generation. unfold run_analyze. apply wp_bind, wp_get_session. set (s0 := c_session c) in *.
  assert (forall code e, wp (fun c' => abandoned s0 (c_session c') /\ (c_session c' = s0 \/ machine_ok (s_machine (c_session c'))))
    (fail (A:=unit) code e) (fun _ _ => False) c) as Hfail.
  { intros code e. apply wp_fail. split; [apply abandoned_same|by left]. }
  assert (forall code e Q, wp (fun c' => abandoned s0 (c_session c') /\ (c_session c' = s0 \/ machine_ok (s_machine (c_session c'))))
    (fail (A:=unit) code e) Q c) as Hfail'.
  { intros code e Q. by eapply wp_mono; [| |apply Hfail]. }
  destruct (negb (rq_Generation request =? generation)); [apply Hfail'|].
  destruct (CompactDemands request) as [compact|] eqn:Ec; [destruct (Nat.eqb_spec (length (Demands request)) 0) as [Hd|]; [|apply Hfail']|];
    cbn [negb]; (destruct (negb (ResetState request) && _) eqn:Etok; [apply Hfail'|]);
    (destruct (serves_retained s0 request generation) eqn:Esv; [apply wp_modify; by left|]).
  all: assert (match CompactDemands request with Some _ => Demands request = [] | None => True end) as Hd0
    by (rewrite Ec; by destruct (Demands request)).
  all: apply wp_bind; eapply wp_mono; [| |apply begin_demands_spec, Hok];
    [intros c' ->; split; [apply abandoned_same|by left]|].
  all: intros tx c1 (gs & Hb & Hresp); assert (machine_ok (s_machine (c_session c1))) as Hok1
    by (destruct Hb as [-> He _]; simpl; by eapply begun_ok; [apply Hok|]).
  all: pose proof (begun_flight _ _ _ _ _ Hb) as Hf.
  all: pose proof (analyze_transaction_spec s0 gs request arena generation tx c1 Hf Hok1 Hop) as Htx.
  all: unfold wp in Htx |- *; unfold on_error; destruct (analyze_transaction _ _ _ _ c1) as [c2 [[]|err]];
    [|destruct (abandon_call_spec s0 (ResetState request) gs tx c2) as [H1 H2]; [apply Hok|apply Hb|done|]; split; [done|by right]].
  all: right; destruct Htx as (t & input & p & enc & m & Htx); exists t, input, p, enc, m; split; [done|].
  all: exists gs, tx, c1; split_and!; [done|done|done|].
  all: intros Hn [t0 Ht0]; destruct (ResetState request) eqn:Er; [done|].
  all: pose proof (unchanged_serves s0 request gs tx (c_session c1) t0 Hok Hb Hd0 Hn Ht0 Er) as Hsv; unfold generation in Esv; congruence.
Qed.

(** The machine a table was built in. *)
Lemma assembled_survives s0 request generation paths mb t input m : machine_ok mb -> assembled s0 request generation paths mb t input m ->
  machine_ok m /\ survives mb m /\ table (m_closure m) = Some t.
Proof.
  intros Hok [m' Ht|m1 m' Hok1 Hsv Ht]; [by eapply tabled_ok|].
  assert (machine_ok (reset_closure m1)) as Hokr by (apply reset_closure_ok; apply Hok1).
  destruct (tabled_ok _ _ _ _ _ Hokr Ht) as (H1 & H2 & H3). split_and!; [done| |done].
  etrans; [exact Hsv|]. etrans; [apply survives_reset|done].
Qed.

Lemma assembled_generation s0 request generation paths mb t input m : machine_ok mb ->
  (forall t', table (m_closure mb) = Some t' -> Generation t' = generation) ->
  assembled s0 request generation paths mb t input m -> Generation t = generation.
Proof.
  intros Hok Hgen [m' [H1 _ _|mB ch st _ H2 _]|m1 m' Hok1 Hsv [H1 _ _|mB ch st _ H2 _]]; [by apply Hgen|apply H2|done|apply H2].
Qed.

(** An analysis leaves a session state. *)
Lemma analysis_ok c request arena c' t input p enc m : session_ok (c_session c) ->
  let generation := generation (m_closure (s_machine (c_session c))) in
  analysis c request arena generation c' t input p enc m ->
  session_ok (c_session c') /\ machine_ok m /\ Generation t = generation /\
  Closure.generation (m_closure (s_machine (c_session c'))) = generation /\
  m_groups (s_machine (c_session c')) = m_groups m.
Proof.
  intros Hok generation [_ (gs & tx & c1 & Hb & Ha & _ & Hre)]. destruct Hb as [Hs1 Hed _].
  pose proof (begun_ok _ _ _ _ (sn_machine _ Hok) Hed) as Hok1.
  destruct Ha as [Has _ [w Hm] [= _ _ Hret] _ _]. rewrite Hs1 in Has. simpl in Has.
  destruct (assembled_survives _ _ _ _ _ _ _ _ Hok1 Has) as (Hokm & Hsv & Htab).
  assert (Generation t = generation) as Hgen.
  { eapply assembled_generation; [exact Hok1| |exact Has]. intros t' Ht'. by apply (sn_table _ Hok). }
  destruct (release_rows_same (set_world m w)) as (Hg & _ & Hge & Hta).
  assert (Closure.generation (m_closure (s_machine (c_session c'))) = generation) as Hgen'.
  { rewrite Hm, Hge. simpl. by rewrite (sv_generation _ _ Hsv). }
  split_and!; [|done|done|done|by rewrite Hm, Hg]. split.
  - rewrite Hm. by apply release_rows_ok, machine_ok_world.
  - by rewrite Hret.
  - intros t' Ht'. rewrite Hm, Hta in Ht'. simpl in Ht'. rewrite Htab in Ht'. injection Ht' as <-.
    split; [apply release_table_rows|]. rewrite Hgen'. split; [done|]. by exists (detached_header t).
Qed.

(** The client's rows after an analysis. *)
Lemma analysis_follows c request arena c' t input p enc m client : session_ok (c_session c) ->
  let generation := generation (m_closure (s_machine (c_session c))) in
  analysis c request arena generation c' t input p enc m -> supported (s_machine (c_session c)) client ->
  forall path, run_follows (s_machine (c_session c)) (s_machine (c_session c')) client (replica_apply input p client) path.
Proof.
  intros Hok generation Hay Hsup path.
  destruct (analysis_ok c request arena c' t input p enc m Hok Hay) as (_ & Hokm & _ & _ & Hgroups).
  destruct Hay as [_ (gs & tx & c1 & Hb & Ha & _ & Hre)]. destruct Hb as [Hs1 Hed _].
  set (s0 := c_session c) in *. set (m0 := s_machine s0) in *.
  pose proof (begun_ok _ _ _ _ (sn_machine _ Hok) Hed) as Hok1.
  destruct Ha as [Has [_ Htgt Hplan _] [w Hm] _ _ _]. rewrite Hs1 in Has. simpl in Has. fold m0 in Has, Hed, Hok1.
  assert (forall t', table (m_closure m0) = Some t' -> forall path, wireTransitionEntityPath t' path = []) as Hrows
    by (intros t' Ht'; by apply (sn_table _ Hok)).
  eapply (run_follows_release m0 (set_world m w)); [by rewrite Hm; apply release_rows_same| | |].
  { intros a d Hd. rewrite Hm. by apply release_rows_holds. }
  { intros a d Hd. rewrite Hm. destruct (release_rows_holds (set_world m w) a _ Hd) as [H|H]; [done|].
    by rewrite releaseTransportRows_twice in H. }
  change (run_follows m0 m client (replica_apply input p client) path). destruct Has as [m' Ht|m1 m' Hokm1 Hsv Ht].
  - unfold analysis_input in *. destruct (ResetState request) eqn:Er; [|destruct (retained_table s0) as [base|] eqn:Et].
    + eapply tabled_restart; [apply Hok|exact Hed|by left|apply Hrows|exact Ht|done|done|exact Hplan].
    + eapply tabled_sparse; [apply Hok|exact Hed|done|exact Ht| |by eexists|done|exact Hplan].
      intros Hs Hn. specialize (Hre Hn ltac:(by eexists)). done.
    + destruct (sn_unretained _ Hok Et) as [H1 H2].
      eapply tabled_restart; [apply Hok|exact Hed|by right|apply Hrows|exact Ht|done|done|exact Hplan].
  - assert (machine_ok (reset_closure m1)) as Hokr by (apply reset_closure_ok; apply Hokm1).
    eapply (tabled_full generation _ (reset_closure m1)); [exact Hokr|exact Ht|exact (sv_heap _ _ Hsv)|done| |done|done|exact Hplan].
    intros g Hg. destruct (contribution_get _ _) as [a|] eqn:E; [|done]. exfalso.
    apply build_base_get in E as [E _]; [|done]. by unfold contribution_get in E.
Qed.
End Spec.
