(* ===== verification/SessionLife.v ===== *)
(** * The life of a session

    Every request on a session has one of a few outcomes; the session's
    invariant and a client that follows the responses survive all of them. *)

From S2P Require Import Prelude GoStd GoText SortedPaths Model FactEqual FactTable TransitionDiff PathDelta StringTable CompactDemands DemandGroup SessionDemands Modules Proc Contributions ContributionStore Closure Materialize MaterializeSpec DemandEdits MaterializeTable ClosureSpec Protocol Writer Rows Transition AnalysisSpec Session SessionSpec.
Open Scope Z_scope.

Section Verdict.
Context `{BK : !Backing} `{MR : !MapRange} `{MH : !Maphash} {W S : Type} `{BE : !ClosureBackend W} `{FS : !FileSystem W}.
Implicit Types c : call W S.
Notation P := (proc (call W S)).

Definition verdict (r : LifecycleResponse) : bool * option LifecycleError := (OK r, rs_Error r).

Definition same_verdict c c' : Prop := verdict (c_response c') = verdict (c_response c).

#[export] Instance same_verdict_preorder : PreOrder same_verdict.
Proof. split; [done|]. intros a b d H1 H2. unfold same_verdict in *. congruence. Qed.

Lemma verdict_response f : (forall r, verdict (f r) = verdict r) -> moves (W:=W) (S:=S) same_verdict (modify_response f).
Proof. intros Hf c. apply Hf. Qed.
Lemma verdict_session f : moves (W:=W) (S:=S) same_verdict (modify_session f).
Proof. done. Qed.
Lemma verdict_machine {A} (f : proc (machine W) A) : moves (S:=S) same_verdict (on_machine f).
Proof. intros c. unfold on_machine, p_zoom. by destruct (f _) as [m r]. Qed.
Lemma verdict_world {A} (f : proc W A) : moves (S:=S) same_verdict (on_world f).
Proof. apply verdict_machine. Qed.
Lemma verdict_encode arena input : moves (W:=W) (S:=S) same_verdict (encode_transition arena input).
Proof.
  intros c. unfold encode_transition. cbv zeta. destruct arena as [a|].
  - by destruct (EncodeInto _ _ _ _) as [[e st] r].
  - by destruct (Encode _ _) as [e r].
Qed.
Lemma verdict_or_fail {A} code (f : P A) : moves same_verdict f -> moves same_verdict (or_fail code f).
Proof. intros H c. specialize (H c). unfold or_fail. by destruct (f c) as [c' r]. Qed.
Lemma verdict_or_cancelled {A} code (f : P A) : moves same_verdict f -> moves same_verdict (or_cancelled code f).
Proof. apply moves_or_cancelled; [apply _|apply verdict_world]. Qed.
Lemma verdict_on_error {A} g (f : P A) : (forall c, same_verdict c (g c)) -> moves same_verdict f -> moves same_verdict (on_error g f).
Proof.
  intros Hg Hf c. specialize (Hf c). unfold on_error. destruct (f c) as [c' [a|e]]; [done|]. simpl in *. etrans; [exact Hf|apply Hg].
Qed.

Ltac verdict_step :=
  match goal with
  | |- moves _ (p_bind _ _) => apply moves_bind; [exact _| |intros ?]
  | |- moves _ (p_ret _) => apply moves_ret; exact _
  | |- moves _ (fail _ _) => apply moves_fail; exact _
  | |- moves _ get_session => apply moves_get; exact _
  | |- moves _ (modify_response _) => apply verdict_response; intros ?; reflexivity
  | |- moves _ (modify_session _) => apply verdict_session
  | |- moves _ (on_machine _) => apply verdict_machine
  | |- moves _ (on_world _) => apply verdict_world
  | |- moves _ poll => apply verdict_world
  | |- moves _ (encode_transition _ _) => apply verdict_encode
  | |- moves _ (or_fail _ _) => apply verdict_or_fail
  | |- moves _ (or_cancelled _ _) => apply verdict_or_cancelled
  | |- moves _ (if ?b then _ else _) => destruct b
  | |- moves _ (match ?x with _ => _ end) => destruct x
  end.
Ltac verdict_solve := repeat (cbv zeta; verdict_step).

Lemma verdict_populate request arena : moves (W:=W) (S:=S) same_verdict (populateSymbolEvidence request arena).
Proof.
  unfold populateSymbolEvidence. verdict_solve. intros c.
  match goal with |- context [encode_transition ?a ?i c] => pose proof (verdict_encode a i c) as H end.
  by destruct (encode_transition _ _ c) as [c' r].
Qed.

Lemma verdict_encode_analysis request arena generation paths t :
  moves (W:=W) (S:=S) same_verdict (encode_analysis request arena generation paths t).
Proof.
  intros c. unfold encode_analysis. cbv zeta.
  match goal with |- context [encode_transition ?a ?i c] => pose proof (verdict_encode a i c) as H end.
  destruct (encode_transition _ _ c) as [c' [enc|e]]; [done|]. destruct (error_is _ _); [|done].
  etrans; [exact H|]. simpl. revert c' H. intros c' _.
  match goal with |- same_verdict _ (fst (?f c')) => assert (moves same_verdict f) as Hm by verdict_solve end. apply Hm.
Qed.

Lemma verdict_analyze request arena generation : moves (W:=W) (S:=S) same_verdict (run_analyze request arena generation).
Proof.
  unfold run_analyze. verdict_solve.
  all: try (intros c; unfold begin_demands; cbv zeta; destruct (CompactDemands request) as [compact|];
    [by destruct (beginCompact _ _ _ _) as [[d t]|e]|by destruct (begin _ _ _ _) as [d t]]).
  all: apply verdict_on_error; [done|]; unfold analyze_transaction, publish_analysis, check_cancelled; verdict_solve;
    first [apply verdict_encode_analysis|apply verdict_populate].
Qed.

Lemma verdict_operation request arena generation : moves (W:=W) (S:=S) same_verdict (run_operation request arena generation).
Proof.
  unfold run_operation. cbv zeta. repeat case_match; try apply verdict_analyze;
    unfold run_update, run_symbols, run_sources, run_modules, run_close, writeSourceArena; verdict_solve; try apply verdict_populate.
  intros c. unfold session_Close. cbv zeta. destruct (s_closed _); [done|]. destruct (Close _) as [m r].
  by destruct (removeSourceArena _ _) as [w r'].
Qed.

Lemma verdict_dispatch request arena : moves (W:=W) (S:=S) same_verdict (dispatch request arena).
Proof. unfold dispatch. verdict_solve. apply verdict_operation. Qed.

(** A response is OK exactly when the request was carried out. *)
Lemma lifecycle_verdict s request arena (st : S) c r : dispatch request arena (mkCall s st (empty_response s request)) = (c, r) ->
  lifecycle s request arena st =
    (c_session c, c_arena c, match r with
     | Ok _ => with_outcome (c_response c) true None
     | Err e => with_outcome (c_response c) false (Some (lifecycle_error e))
     end).
Proof.
  intros H. pose proof (verdict_dispatch request arena (mkCall s st (empty_response s request))) as Hv.
  unfold lifecycle. rewrite H in *. unfold same_verdict, verdict in Hv. simpl in Hv. injection Hv as -> ->. by destruct r.
Qed.
End Verdict.

Section Life.
Context `{BK : !Backing} `{MR : !MapRange} `{MH : !Maphash} {W S : Type} `{BE : !ClosureBackend W} `{FS : !FileSystem W}.
Implicit Types (s : Session W) (c : call W S).
Notation P := (proc (call W S)).

Definition closure_of s : DemandClosure := m_closure (s_machine s).

(** Only the world, the encoder and the source file may differ. *)
Definition still s s' : Prop :=
  exists w e path, s' = with_source_arena (with_encoder (with_machine s (set_world (s_machine s) w)) e) path.
Definition still_call c c' : Prop := still (c_session c) (c_session c').

#[export] Instance still_preorder : PreOrder still.
Proof.
  split.
  - intros s. exists (m_world (s_machine s)), (s_transition s), (sourceArenaPath s). by destruct s as [[] ? ? ? ? ? ? ? ? ?].
  - intros a b d (w & e & p & ->) (w' & e' & p' & ->). by exists w', e', p'.
Qed.
#[export] Instance still_call_preorder : PreOrder still_call.
Proof. split; [by intros c; unfold still_call|]. intros a b d H1 H2. unfold still_call in *. by etrans. Qed.

Lemma unmoved_still s s' : unmoved s s' -> still s s'.
Proof. intros (w & e & ->). exists w, e, (sourceArenaPath s). by destruct s. Qed.

Lemma moves_still {A} (f : P A) : moves idle f -> moves still_call f.
Proof. intros H c. apply unmoved_still, H. Qed.

Lemma still_frame {A} (f : P A) : moves idle_frame f -> moves still_call f.
Proof. intros H. by apply moves_still, moves_weaken. Qed.

Lemma still_fail {A} code e : moves still_call (fail (A:=A) code e).
Proof. apply moves_fail; apply _. Qed.

Lemma still_response f : moves (W:=W) (S:=S) still_call (modify_response f).
Proof. apply moves_still, moves_response_idle. Qed.

Lemma still_or_fail {A} code (f : P A) : moves still_call f -> moves still_call (or_fail code f).
Proof. intros H c. specialize (H c). unfold or_fail. by destruct (f c). Qed.

Lemma still_symbols request arena generation : moves (W:=W) (S:=S) still_call (run_symbols request arena generation).
Proof.
  unfold run_symbols. apply moves_bind; [apply _|apply moves_get; apply _|]. intros s. repeat case_match; try apply still_fail.
  apply moves_or_cancelled; [apply _|apply still_frame, moves_poll|]. apply moves_still, populate_idle.
Qed.

Lemma still_write sources : moves (W:=W) (S:=S) still_call (writeSourceArena sources).
Proof.
  assert (forall path, moves (W:=W) (S:=S) still_call (modify_session (fun s => with_source_arena s path))) as Hp.
  { intros path c. exists (m_world (s_machine (c_session c))), (s_transition (c_session c)), path. simpl.
    by destruct (c_session c) as [[] ? ? ? ? ? ? ? ? ?]. }
  unfold writeSourceArena. apply moves_bind; [apply _|apply moves_get; apply _|]. intros s.
  apply moves_bind; [apply _|apply still_frame, moves_world|]. intros []. apply moves_bind; [apply _|apply Hp|]. intros [].
  apply moves_bind; [apply _|apply still_frame, moves_world|]. intros path.
  apply moves_bind; [apply _|apply still_frame, moves_world|]. intros st.
  apply moves_bind; [apply _|apply Hp|]. intros []. apply moves_ret; apply _.
Qed.

Lemma still_sources request generation : moves (W:=W) (S:=S) still_call (run_sources request generation).
Proof.
  unfold run_sources. case_match; [apply still_fail|].
  apply moves_bind; [apply _|apply still_or_fail, still_frame, moves_machine; unfold closure_SourceFiles; apply moves_when_open|].
  intros sources. apply moves_bind; [apply _|apply still_or_fail, still_write|]. intros [[path descriptors] lengths].
  apply still_response.
Qed.

Lemma still_modules request generation : moves (W:=W) (S:=S) still_call (run_modules request generation).
Proof.
  unfold run_modules. case_match; [apply still_fail|]. cbv zeta.
  apply moves_bind; [apply _| |intros inventory; apply still_response].
  apply moves_or_cancelled; [apply _|apply still_frame, moves_poll|]. apply still_frame, moves_machine.
  intros m. unfold closure_ModuleGraph. destruct bk_ModuleGraph as [provider|]; [apply moves_when_open|].
  unfold when_open, p_bind, p_get. exists (m_world m). destruct (cl_closed _); by destruct m.
Qed.

(** ** Outcomes *)

Definition file_changes (request : LifecycleRequest) : list FileChange :=
  map (fun change => mkFileChange (fcv_Path change) (fcv_Version change) (fcv_Source change) (fcv_Deleted change)) (Changes request).

(** A session whose backend accepted an update. *)
Definition updated s request s' : Prop :=
  exists affected w ev, Forall (fun path => Clean path = path) (af_Files affected) /\
    s' = with_machine s (accept_update (invalid_paths affected (file_changes request)) ev (set_world (s_machine s) w)).

(** A session that closed its backend. *)
Definition closed_down s s' : Prop :=
  exists p w err, s' = with_close (with_machine s (set_world (reset_closure (set_closure (s_machine s) p)) w)) err /\
    generation p = generation (closure_of s).

Inductive outcome s request arena (st : S) s' (r : LifecycleResponse) : Prop :=
  | outcome_still : still s s' -> (Operation request = LifecycleUpdate -> OK r = false) ->
      (Operation request = LifecycleAnalyze -> OK r = true ->
         serves_retained s request (generation (closure_of s)) = true /\ TableTransition r = []) ->
      (Operation request = LifecycleClose -> OK r = true -> s_closed s = true) ->
      outcome s request arena st s' r
  | outcome_updated : Operation request = LifecycleUpdate -> OK r = true -> s_closed s = false ->
      rs_Generation r = generation (closure_of s') -> updated s request s' -> outcome s request arena st s' r
  | outcome_analyzed c t input p enc m : Operation request = LifecycleAnalyze -> OK r = true -> s_closed s = false ->
      analysis (mkCall s st (empty_response s request)) request arena (generation (closure_of s)) c t input p enc m ->
      c_session c = s' -> TableTransition r = TableTransition (c_response c) -> outcome s request arena st s' r
  | outcome_abandoned : Operation request = LifecycleAnalyze -> OK r = false -> abandoned s s' ->
      (s' = s \/ machine_ok (s_machine s')) -> outcome s request arena st s' r
  | outcome_closed : Operation request = LifecycleClose -> s_closed s = false -> closed_down s s' -> outcome s request arena st s' r.

Lemma Close_spec (m : machine W) : exists p w, fst (Close m) = set_world (reset_closure (set_closure m p)) w /\
  generation p = generation (m_closure m).
Proof.
  unfold Close, p_bind, modify_closure, p_modify, in_world, p_zoom. cbn [m_world set_closure].
  destruct (bk_Close (m_world m)) as [w r]. by eexists _, w.
Qed.

Definition verdict_of c (r : Prelude.result unit) : LifecycleResponse :=
  match r with
  | Ok _ => with_outcome (c_response c) true None
  | Err e => with_outcome (c_response c) false (Some (lifecycle_error e))
  end.

Lemma verdict_OK c r : OK (verdict_of c r) = true <-> is_ok r = true.
Proof. by destruct r. Qed.

(** An operation that leaves the session still. *)
Lemma still_outcome s request arena st f c r : moves still_call f -> f (mkCall s st (empty_response s request)) = (c, r) ->
  Operation request <> LifecycleUpdate -> Operation request <> LifecycleAnalyze ->
  (Operation request = LifecycleClose -> is_ok r = true -> s_closed s = true) ->
  outcome s request arena st (c_session c) (verdict_of c r).
Proof.
  intros Hm Hf Hu Ha Hc. specialize (Hm (mkCall s st (empty_response s request))). rewrite Hf in Hm. simpl in Hm.
  apply outcome_still; [done|done|done|]. intros Hop Hok. apply Hc; [done|]. by apply (verdict_OK c r).
Qed.

(** A request refused before anything is done. *)
Lemma refused_outcome s request arena st code e :
  outcome s request arena st s (verdict_of (mkCall s st (empty_response s request)) (Err (ErrWrap code e))).
Proof. by apply outcome_still. Qed.

Lemma update_outcome s request arena st c r : session_ok s -> s_closed s = false -> Operation request = LifecycleUpdate ->
  run_update request (mkCall s st (empty_response s request)) = (c, r) ->
  outcome s request arena st (c_session c) (verdict_of c r).
Proof.
  intros Hok Hcl Hop. unfold run_update. unfold p_bind at 1, get_session. cbn [c_session].
  destruct (negb _); [intros [= <- <-]; apply refused_outcome|].
  fold (file_changes request). unfold p_bind at 1, or_fail at 1, on_machine, p_zoom. cbn [c_session].
  pose proof (Update_spec (file_changes request) (s_machine s)) as Hu. unfold wp in Hu.
  destruct (Update (file_changes request) (s_machine s)) as [m [affected|e]].
  - destruct Hu as (Hc & w & ev & ->). intros [= <- <-]. apply outcome_updated; try done. by exists affected, w, ev.
  - destruct Hu as [w ->]. intros [= <- <-]. simpl. apply outcome_still; [|done|by rewrite Hop|by rewrite Hop].
    exists w, (s_transition s), (sourceArenaPath s). by destruct s.
Qed.

Lemma analyze_outcome s request arena st c r : session_ok s -> s_closed s = false -> Operation request = LifecycleAnalyze ->
  run_analyze request arena (generation (closure_of s)) (mkCall s st (empty_response s request)) = (c, r) ->
  outcome s request arena st (c_session c) (verdict_of c r).
Proof.
  intros Hok Hcl Hop Hr. assert (Operation request <> LifecycleSymbols) as Hn by by rewrite Hop.
  pose proof (run_analyze_spec request arena (mkCall s st (empty_response s request)) Hok Hn) as H.
  unfold wp in H. cbv zeta in H. cbn [c_session] in H. unfold closure_of in Hr. rewrite Hr in H. destruct r as [[]|e].
  - destruct H as [(H1 & H2 & H3)|(t & input & p & enc & m & H)].
    + rewrite H2. apply outcome_still; [done|by rewrite Hop| |by rewrite Hop]. intros _ _. by split.
    + by eapply (outcome_analyzed _ _ _ _ _ _ c t input p enc m).
  - destruct H as [H1 H2]. by apply outcome_abandoned.
Qed.

Lemma close_outcome s request arena st c r : s_closed s = false -> Operation request = LifecycleClose ->
  run_close request (generation (closure_of s)) (mkCall s st (empty_response s request)) = (c, r) ->
  outcome s request arena st (c_session c) (verdict_of c r).
Proof.
  intros Hcl Hop. unfold run_close. destruct (negb _); [intros [= <- <-]; apply refused_outcome|].
  unfold p_bind, session_Close. cbn [c_session]. cbv zeta. rewrite Hcl.
  destruct (Close_spec (s_machine s)) as (p & w & Hm & Hg). destruct (Close (s_machine s)) as [m rc]. simpl in Hm. subst m.
  destruct (removeSourceArena _ _) as [w' rr]. intros H.
  apply outcome_closed; [done|done|]. exists p, w', (join_errors rc rr).
  assert (c_session c = with_close (with_machine s (set_world (set_world (reset_closure (set_closure (s_machine s) p)) w) w'))
    (join_errors rc rr)) as ->; [|done].
  destruct (join_errors rc rr); injection H as <- <-; done.
Qed.

Lemma dispatch_outcome s request arena st c r : session_ok s ->
  dispatch request arena (mkCall s st (empty_response s request)) = (c, r) ->
  outcome s request arena st (c_session c) (verdict_of c r).
Proof.
  intros Hok. unfold dispatch, p_bind, get_session. cbn [c_session]. cbv zeta. fold (closure_of s).
  destruct (ValidateLifecycleRequest request); [|intros [= <- <-]; apply refused_outcome].
  destruct (negb _); [intros [= <- <-]; apply refused_outcome|].
  destruct (negb _); [intros [= <- <-]; apply refused_outcome|].
  destruct (s_closed s) eqn:Hcl.
  { destruct (String.eqb_spec (Operation request) LifecycleClose) as [Ho|Ho]; simpl.
    - destruct (is_none (closeErr s)); intros [= <- <-]; [|apply refused_outcome]. apply outcome_still; simpl; try done; by rewrite Ho.
    - intros [= <- <-]; apply refused_outcome. }
  unfold run_operation. cbv zeta.
  destruct (String.eqb_spec (Operation request) LifecycleOpen) as [Ho|Hopen].
  { destruct (negb _); intros [= <- <-]; [apply refused_outcome|]. apply outcome_still; simpl; try done; by rewrite Ho. }
  destruct (String.eqb_spec (Operation request) LifecycleUpdate) as [Ho|Hup]; [by apply update_outcome|].
  destruct (String.eqb_spec (Operation request) LifecycleAnalyze) as [Ho|Han]; [by apply analyze_outcome|].
  destruct (String.eqb_spec (Operation request) LifecycleSymbols) as [Ho|Hsy].
  { intros H. eapply still_outcome; [apply still_symbols|exact H|done|done|by rewrite Ho]. }
  destruct (String.eqb_spec (Operation request) LifecycleSources) as [Ho|Hso].
  { intros H. eapply still_outcome; [apply still_sources|exact H|done|done|by rewrite Ho]. }
  destruct (String.eqb_spec (Operation request) LifecycleModules) as [Ho|Hmo].
  { intros H. eapply still_outcome; [apply still_modules|exact H|done|done|by rewrite Ho]. }
  destruct (String.eqb_spec (Operation request) LifecycleClose) as [Ho|Hclose]; [by apply close_outcome|].
  intros H. eapply still_outcome; [apply moves_ret; apply _|exact H|done|done|done].
Qed.

Lemma lifecycle_outcome s request arena st s' st' r : session_ok s -> lifecycle s request arena st = (s', st', r) ->
  outcome s request arena st s' r.
Proof.
  intros Hok Hl. destruct (dispatch request arena (mkCall s st (empty_response s request))) as [c res] eqn:Ed.
  rewrite (lifecycle_verdict _ _ _ _ _ _ Ed) in Hl. injection Hl as <- _ <-. by apply dispatch_outcome.
Qed.

(** ** The invariant *)

Lemma still_ok s s' : session_ok s -> still s s' -> session_ok s'.
Proof. intros [H1 H2 H3] (w & e & path & ->). split; simpl; [by apply machine_ok_world|done|done]. Qed.

Lemma updated_ok s request s' : session_ok s -> updated s request s' -> session_ok s'.
Proof.
  intros [H1 H2 H3] (affected & w & ev & Hc & ->).
  pose proof (invalid_paths_clean affected (file_changes request) Hc) as Hclean.
  pose proof (accept_update_ok _ ev _ (machine_ok_world _ w H1) Hclean) as Hok.
  set (m := set_world (s_machine s) w) in *. set (invalid := invalid_paths affected (file_changes request)) in *.
  destruct (accept_update_same invalid ev m) as (_ & _ & Ht & _). split; [done| |].
  - intros Hn. split; [|done]. apply map_empty. intros p.
    destruct (accept_update_get invalid ev m p (mo_store _ (machine_ok_world _ w H1))) as [_ Hget].
    unfold contribution_get in Hget. simpl in *. rewrite Hget. destruct (H2 Hn) as [-> _]. rewrite lookup_empty. by case_bool_decide.
  - intros t' Ht'. simpl in Ht'. congruence.
Qed.

Lemma closed_down_ok s s' : session_ok s -> closed_down s s' -> session_ok s'.
Proof.
  intros [H1 H2 H3] (p & w & err & -> & _). split; simpl; [|done|done].
  apply machine_ok_world, reset_closure_ok; apply H1.
Qed.

Lemma outcome_ok s request arena st s' r : session_ok s -> outcome s request arena st s' r -> session_ok s'.
Proof.
  intros Hok [Hs _ _ _|_ _ _ _ Hu|c t input p enc m _ _ _ Ha <- _|_ _ Hb Hm|_ _ Hd].
  - by eapply still_ok.
  - by eapply updated_ok.
  - by destruct (analysis_ok (mkCall s st (empty_response s request)) request arena c t input p enc m Hok Ha) as (H & _).
  - by eapply abandoned_ok.
  - by eapply closed_down_ok.
Qed.

Lemma new_session_ok (w w' : W) projectID s : NewSession w projectID = (w', Ok s) -> session_ok s.
Proof.
  unfold NewSession. cbv zeta. destruct (_ || _); [done|]. intros [= <- <-]. split; simpl; try done.
  split; simpl; try done; [apply empty_store_ok|constructor|apply keys_sorted_nil|].
  intros path [Hp|[a Ha]]; [done|]. by unfold contribution_get in Ha.
Qed.
End Life.
