(* ===== verification/SessionClient.v ===== *)
(** * Sessions and their clients

    The theorems on whole lifetimes: the invariant of every state a session
    can reach, the rows of a client that follows its responses, and what a
    request may change. *)

From S2P Require Import Prelude GoStd GoText SortedPaths Model FactEqual FactTable TransitionDiff PathDelta StringTable CompactDemands DemandGroup SessionDemands Modules Proc Contributions ContributionStore Closure Materialize MaterializeSpec DemandEdits MaterializeTable ClosureSpec Protocol Writer Rows Transition AnalysisSpec Session SampleSession SessionSpec SessionLife.
Open Scope Z_scope.

Section Client.
Context `{BK : !Backing} `{MR : !MapRange} `{MH : !Maphash} {W S : Type} `{BE : !ClosureBackend W} `{FS : !FileSystem W}.
Implicit Types (s : Session W) (c : call W S).

(** ** Lifetimes *)

(** A session lives from [NewSession] through any requests, the world moving
    on by itself between them. *)
Inductive reachable : Session W -> Prop :=
  | reachable_new (w w' : W) projectID s : NewSession w projectID = (w', Ok s) -> reachable s
  | reachable_world s w : reachable s -> reachable (with_machine s (set_world (s_machine s) w))
  | reachable_request s request arena (st : S) s' st' r : reachable s -> lifecycle s request arena st = (s', st', r) -> reachable s'.

Lemma reachable_ok s : reachable s -> session_ok s.
Proof.
  induction 1 as [w w' projectID s Hn|s w _ IH|s request arena st s' st' r _ IH Hl].
  - by eapply new_session_ok.
  - apply (still_ok s); [done|]. exists w, (s_transition s), (sourceArenaPath s). by destruct s.
  - eapply outcome_ok; [exact IH|by eapply lifecycle_outcome].
Qed.

(** ** The client of one analysis *)

(** The transition of a response, and what the client may take from it. *)
Record transition_of s arena (r : LifecycleResponse) s' input (t : FactTable) (p : wirePlan) (enc : encodedWireTransition) : Prop := {
  tr_encodes : encodes (W:=W) (S:=S) arena input t p enc;
  tr_base : in_Base input = None \/
    in_Base input = retained_table s /\ in_BaseStateToken input = tokenText s;
  tr_retained : retained_table s' = Some (detached_header t) /\ token s' = u64 (token s + 1) /\ tokenText s' = FormatUint (token s');
  tr_frame : TableTransition r = if carries_frame s t enc then Bytes enc else [];
}.

(** A transition that is not sent changes nothing. *)
Lemma unsent_nothing s arena input t p enc client path : encodes (W:=W) (S:=S) arena input t p enc ->
  carries_frame s t enc = false -> replica_apply input p client path = client path.
Proof.
  intros [_ Ht Hp (mode & bg & Hv & Hm & Hn & _)] Hc. unfold carries_frame in Hc.
  apply orb_false_iff in Hc as [Hc _]. apply orb_false_iff in Hc as [Hc Hops]. apply orb_false_iff in Hc as [Hmode _].
  rewrite Hm in Hmode. apply negb_false_iff, bool_decide_eq_true in Hmode. subst mode.
  rewrite Hmode in Hn. rewrite Hn in Hops. simpl in Hops. apply negb_false_iff, Z.eqb_eq in Hops.
  assert (plan_pathOps p = []) as Hnil by (destruct (plan_pathOps p); [done|]; unfold len in Hops; simpl in Hops; lia).
  assert (is_Some (in_Base input)) as [base Hb].
  { unfold validateWireTransitionInput in Hv. rewrite Ht in Hv. destruct (in_Base input) as [b|]; [by eexists|].
    repeat (case_match; try done). congruence. }
  unfold replica_apply. rewrite Hb, Hnil. done.
Qed.

Lemma assembled_base s request generation paths mb t input m : assembled s request generation paths mb t input m ->
  in_Base input = None \/ in_Base input = retained_table s /\ in_BaseStateToken input = tokenText s.
Proof.
  intros [m' _|m1 m' _ _ _]; [|by left]. unfold analysis_input.
  destruct (ResetState request); [by left|]. destruct (retained_table s) as [base|]; [by right|by left].
Qed.

Lemma analysis_transition s st request arena c t input p enc m r :
  analysis (mkCall s st (empty_response s request)) request arena (generation (closure_of s)) c t input p enc m ->
  TableTransition r = TableTransition (c_response c) -> transition_of s arena r (c_session c) input t p enc.
Proof.
  intros [_ (gs & tx & c1 & Hb & [Has Hen _ [= Htok Htext Hret] Hfr _] & Hresp & _)] Hr. cbn [c_session] in *. split.
  - done.
  - by eapply assembled_base.
  - by rewrite Htok, Htext, Hret.
  - rewrite Hr, Hfr, Hresp. done.
Qed.

(** What a request may do to the rows of a client. *)
Lemma follows_outcome s request arena (st : S) s' r client : session_ok s -> supported (s_machine s) client ->
  outcome s request arena st s' r ->
  if bool_decide (Operation request = LifecycleAnalyze) && OK r && negb (serves_retained s request (generation (closure_of s)))
  then exists input t p enc, transition_of s arena r s' input t p enc /\
    supported (s_machine s') (replica_apply input p client) /\
    forall path, run_follows (s_machine s) (s_machine s') client (replica_apply input p client) path
  else supported (s_machine s') client.
Proof.
  intros Hok Hsup Ho. pose proof (outcome_ok _ _ _ _ _ _ Hok Ho) as Hok'.
  assert (Forall2 same_run (m_groups (s_machine s)) (m_groups (s_machine s')) -> supported (s_machine s') client) as Hsame.
  { intros Hs path Hp. specialize (Hsup path Hp). by rewrite (same_runs_paths _ _ Hs). }
  destruct Ho as [Hs _ Ha _|Hop _ _ _ Hu|c t input p enc m Hop HOK _ Ha <- Hr|Hop HOK Hab _|Hop _ Hd].
  - destruct Hs as (w & e & path & ->).
    destruct (bool_decide_reflect (Operation request = LifecycleAnalyze)) as [Hop|]; [|by apply Hsame].
    destruct (OK r) eqn:HOK; [|by apply Hsame]. destruct (Ha Hop eq_refl) as [-> _]. by apply Hsame.
  - rewrite Hop. destruct Hu as (affected & w & ev & _ & ->). apply Hsame. cbn [s_machine with_machine].
    by destruct (accept_update_same (invalid_paths affected (file_changes request)) ev (set_world (s_machine s) w)) as [-> _].
  - rewrite bool_decide_eq_true_2, HOK by done. rewrite (ay_fresh _ _ _ _ _ _ _ _ _ _ Ha : serves_retained s request (generation (closure_of s)) = false).
    exists input, t, p, enc.
    pose proof (analysis_follows (mkCall s st (empty_response s request)) _ _ _ _ _ _ _ _ client Hok Ha Hsup) as Hf. split; [by eapply analysis_transition|].
    split; [|exact Hf]. eapply run_follows_supported; [|exact Hf]. apply Hok'.
  - rewrite HOK, andb_false_r. apply Hsame, Hab.
  - rewrite Hop. destruct Hd as (p & w & err & -> & _). apply Hsame. done.
Qed.

(** ** What a request moves *)

(** An analysis that made a new table for the client. *)
Definition published s (request : LifecycleRequest) (r : LifecycleResponse) : bool :=
  bool_decide (Operation request = LifecycleAnalyze) && OK r && negb (serves_retained s request (generation (closure_of s))).

Definition accepted (request : LifecycleRequest) (r : LifecycleResponse) : bool :=
  bool_decide (Operation request = LifecycleUpdate) && OK r.

Definition answer_of s : Z * string * option FactTable := (token s, tokenText s, retained_table s).

Lemma moves_outcome s request arena (st : S) s' r : session_ok s -> outcome s request arena st s' r ->
  generation (closure_of s') = (if accepted request r then u64 (generation (closure_of s) + 1) else generation (closure_of s)) /\
  (if published s request r
   then exists t, Generation t = generation (closure_of s) /\
     answer_of s' = (u64 (token s + 1), FormatUint (u64 (token s + 1)), Some (detached_header t))
   else answer_of s' = answer_of s /\ Forall2 same_run (m_groups (s_machine s)) (m_groups (s_machine s'))) /\
  (s_closed s = true -> s_closed s' = true) /\
  (s_closed s' = true -> s_closed s = true \/ Operation request = LifecycleClose).
Proof.
  intros Hok Ho. unfold accepted, published.
  destruct Ho as [Hs Hu Ha _|Hop HOK _ _ Hu|c t input p enc m Hop HOK _ Ha <- Hr|Hop HOK Hab _|Hop _ Hd].
  - destruct Hs as (w & e & path & ->). simpl. split_and!; [| |done|by left].
    + destruct (bool_decide_reflect (Operation request = LifecycleUpdate)) as [Hop|]; [|done]. by rewrite (Hu Hop).
    + destruct (bool_decide_reflect (Operation request = LifecycleAnalyze)) as [Hop|]; [|done].
      destruct (OK r) eqn:HOK; [|done]. destruct (Ha Hop eq_refl) as [-> _]. done.
  - rewrite Hop, HOK. destruct Hu as (affected & w & ev & _ & ->).
    destruct (accept_update_same (invalid_paths affected (file_changes request)) ev (set_world (s_machine s) w))
      as (Hg & _ & _ & _ & Hge & _). unfold closure_of. cbn [s_machine with_machine s_closed]. rewrite Hge, Hg. split_and!; try done. by left.
  - rewrite Hop, HOK.
    rewrite (ay_fresh _ _ _ _ _ _ _ _ _ _ Ha : serves_retained s request (generation (closure_of s)) = false).
    destruct (analysis_ok (mkCall s st (empty_response s request)) _ _ _ _ _ _ _ _ Hok Ha) as (_ & _ & Hgt & Hge & _).
    destruct Ha as [_ (gs & tx & c1 & Hb & [_ _ _ Hret _ [= _ _ _ Hcl _]] & _)]. simpl in *.
    split_and!; [exact Hge|exists t; by split|by rewrite Hcl|rewrite Hcl; by left].
  - rewrite Hop, HOK. destruct Hab as [[H1 [= _ _ _ H2 _] H3 H4 _] _]. simpl. split_and!; [exact H4|done|done|by rewrite H2|rewrite H2; by left].
  - rewrite Hop. destruct Hd as (p & w & err & -> & Hg). simpl. split_and!; [exact Hg|done|done|done|by right].
Qed.

(** ** The theorems *)

(** C1: A client that has the rows of the base and takes the frame of a published analysis has,
    at the path of every demand run, either what the backend was just asked and answered for
    exactly the demands of that run, or, for a run that demands what it did, the rows it had
    under the same retained contribution, and no rows elsewhere; a frame that is not sent would
    have changed nothing. The backend, cancellation and the file system are arbitrary. *)
Theorem analysis_follows_runs s request arena (st : S) s' st' r client :
  reachable s -> supported (s_machine s) client -> lifecycle s request arena st = (s', st', r) ->
  published s request r = true ->
  exists input t p enc, transition_of s arena r s' input t p enc /\
    supported (s_machine s') (replica_apply input p client) /\
    (forall path, run_follows (s_machine s) (s_machine s') client (replica_apply input p client) path) /\
    (carries_frame s t enc = false -> forall path, replica_apply input p client path = client path).
Proof.
  intros Hr Hsup Hl Hp. pose proof (reachable_ok s Hr) as Hok. pose proof (lifecycle_outcome _ _ _ _ _ _ _ Hok Hl) as Ho.
  pose proof (follows_outcome _ _ _ _ _ _ client Hok Hsup Ho) as Hf. unfold published in Hp. rewrite Hp in Hf.
  destruct Hf as (input & t & p & enc & Ht & Hs & Hf). exists input, t, p, enc. split_and!; [done|done|exact Hf|].
  intros Hc path. eapply unsent_nothing; [apply Ht|exact Hc].
Qed.

(** C2: In every state a session can reach through any requests, answers, failures and
    cancellations, the runs are sorted, canonical and demand what their expansion says, both
    reverse indexes of the retained contributions are exact, their rows are at their paths, no
    contribution is kept at a path the next manifest has to name, and a table is kept only for
    the generation the client was told. *)
Theorem session_invariant s : reachable s -> session_ok s.
Proof. apply reachable_ok. Qed.

(** C3: A request moves the generation only by an accepted update, which adds one modulo 2^64;
    it moves the token, its text and the retained table only by a published analysis, whose
    table has the session's generation, and every other request leaves what the runs demand; a
    closed session stays closed and only a close request closes one. *)
Theorem lifecycle_moves s request arena (st : S) s' st' r :
  reachable s -> lifecycle s request arena st = (s', st', r) ->
  generation (closure_of s') = (if accepted request r then u64 (generation (closure_of s) + 1) else generation (closure_of s)) /\
  (if published s request r
   then exists t, Generation t = generation (closure_of s) /\
     answer_of s' = (u64 (token s + 1), FormatUint (u64 (token s + 1)), Some (detached_header t))
   else answer_of s' = answer_of s /\ Forall2 same_run (m_groups (s_machine s)) (m_groups (s_machine s'))) /\
  (s_closed s = true -> s_closed s' = true) /\
  (s_closed s' = true -> s_closed s = true \/ Operation request = LifecycleClose).
Proof.
  intros Hr Hl. pose proof (reachable_ok s Hr) as Hok. eapply moves_outcome; [done|]. by eapply lifecycle_outcome.
Qed.

(** A request the session accepts: well formed, of its schema and for its
    project. *)
Definition addressed s (request : LifecycleRequest) : Prop :=
  ValidateLifecycleRequest request = Ok tt /\ rq_Schema request = s_schema s /\ Clean (rq_ProjectID request) = s_projectID s.

(** C4: A closed session changes nothing and sends no frame whatever it is asked; it answers OK
    exactly to an addressed close request when its close succeeded, and refuses every other
    addressed request with the session-closed error. *)
Theorem closed_session_refuses s request arena (st : S) s' st' r :
  lifecycle s request arena st = (s', st', r) -> s_closed s = true ->
  s' = s /\ st' = st /\ TableTransition r = [] /\
  (OK r = true <-> addressed s request /\ Operation request = LifecycleClose /\ closeErr s = None) /\
  (addressed s request -> OK r = false -> rs_Error r = Some (mkLifecycleError "session-closed" ErrSessionClosed)).
Proof.
  intros Hl Hcl. destruct (dispatch request arena (mkCall s st (empty_response s request))) as [c res] eqn:Ed.
  rewrite (lifecycle_verdict _ _ _ _ _ _ Ed) in Hl. injection Hl as <- <- <-.
  revert Ed. unfold dispatch, p_bind, get_session, addressed. cbn [c_session]. cbv zeta. rewrite Hcl.
  destruct (ValidateLifecycleRequest request) as [[]|]; [|intros [= <- <-]; naive_solver].
  destruct (Z.eqb_spec (rq_Schema request) (s_schema s)); simpl; [|intros [= <- <-]; naive_solver].
  destruct (String.eqb_spec (Clean (rq_ProjectID request)) (s_projectID s)); simpl; [|intros [= <- <-]; naive_solver].
  destruct (String.eqb_spec (Operation request) LifecycleClose); simpl; [|intros [= <- <-]; naive_solver].
  destruct (closeErr s); intros [= <- <-]; naive_solver.
Qed.
End Client.

(** ** The sample session *)

Lemma run_request_reachable s request : reachable (S:=unit) s -> reachable (S:=unit) (fst (run_request s request)).
Proof.
  intros H. unfold run_request, Lifecycle. destruct (lifecycle s request None tt) as [[s' st'] r] eqn:E.
  by eapply reachable_request.
Qed.

Lemma new_sample_reachable : reachable (S:=unit) new_sample.
Proof. by apply (reachable_new sample_start sample_start "p"). Qed.

Lemma samples_reachable : reachable (S:=unit) analyzed_once /\ reachable (S:=unit) updated_once /\ reachable (S:=unit) analyzed_twice.
Proof.
  assert (reachable (S:=unit) analyzed_once) as H1 by apply run_request_reachable, new_sample_reachable.
  assert (reachable (S:=unit) updated_once) as H2 by apply run_request_reachable, H1.
  split_and!; [exact H1|exact H2|apply run_request_reachable, H2].
Qed.

(** The client of the sample session after its first analysis. *)
Definition sample_client : replica := fun path =>
  if String.eqb path "a.ts" then [versioned_row sample_start (asked_at "a.ts" 3)]
  else if String.eqb path "b.ts" then [versioned_row sample_start (asked_at "b.ts" 5)]
  else if String.eqb path "d.ts" then [versioned_row sample_start (asked_at "d.ts" 1)] else [].

Lemma sample_client_supported : supported (s_machine updated_once) sample_client.
Proof.
  intros path Hp. assert (map dg_path (m_groups (s_machine updated_once)) = ["a.ts"; "b.ts"; "d.ts"]) as -> by (vm_compute; reflexivity).
  unfold sample_client in Hp. destruct (String.eqb_spec path "a.ts"); [set_solver|].
  destruct (String.eqb_spec path "b.ts"); [set_solver|]. destruct (String.eqb_spec path "d.ts"); [set_solver|done].
Qed.

Definition second_response : LifecycleResponse := snd (run_request updated_once second_analysis).

Lemma second_lifecycle : lifecycle updated_once second_analysis None tt = (analyzed_twice, tt, second_response).
Proof. vm_compute. reflexivity. Qed.

(** After the second analysis the run of [a.ts], which changed, follows fresh
    rows. *)
Lemma analysis_follows_runs_witness : exists client' : replica,
  supported (s_machine analyzed_twice) client' /\
  run_follows (s_machine updated_once) (s_machine analyzed_twice) sample_client client' "a.ts" /\
  run_follows (s_machine updated_once) (s_machine analyzed_twice) sample_client client' "b.ts".
Proof.
  destruct (analysis_follows_runs updated_once second_analysis None tt analyzed_twice tt second_response sample_client)
    as (input & t & p & enc & _ & H1 & H2 & _).
  - exact (proj1 (proj2 samples_reachable)).
  - exact sample_client_supported.
  - exact second_lifecycle.
  - vm_compute. reflexivity.
  - exists (replica_apply input p sample_client). split; [exact H1|]. split; apply H2.
Defined.

Lemma session_invariant_witness : session_ok updated_once.
Proof. exact (session_invariant (S:=unit) updated_once (proj1 (proj2 samples_reachable))). Defined.

Lemma answer_token {W : Type} (s : Session W) n text t : answer_of s = (n, text, t) -> token s = n.
Proof. unfold answer_of. congruence. Qed.

Lemma second_published : published updated_once second_analysis second_response = true.
Proof. vm_compute. reflexivity. Qed.

Lemma second_token : u64 (token updated_once + 1) = 2.
Proof. vm_compute. reflexivity. Qed.

Lemma second_accepted : accepted second_analysis second_response = false.
Proof. vm_compute. reflexivity. Qed.

Lemma lifecycle_moves_witness :
  published updated_once second_analysis second_response = true /\
  token analyzed_twice = 2 /\ generation (closure_of analyzed_twice) = generation (closure_of updated_once).
Proof.
  destruct (lifecycle_moves updated_once second_analysis None tt analyzed_twice tt second_response) as (H1 & H2 & _).
  - exact (proj1 (proj2 samples_reachable)).
  - exact second_lifecycle.
  - rewrite second_published in H2. destruct H2 as (t & _ & H2). apply answer_token in H2. rewrite second_accepted in H1.
    split; [exact second_published|]. split; [etransitivity; [exact H2|exact second_token]|exact H1].
Defined.

Definition close_request : LifecycleRequest := sample_request LifecycleClose 2 [] [] [] "".
Definition closed_sample : Session sample_world := fst (run_request analyzed_twice close_request).
Definition late_response : LifecycleResponse := snd (run_request closed_sample second_analysis).

Lemma closed_session_refuses_witness :
  s_closed closed_sample = true /\
  rs_Error late_response = Some (mkLifecycleError "session-closed" ErrSessionClosed).
Proof.
  assert (lifecycle closed_sample second_analysis None tt = (closed_sample, tt, late_response)) as Hl by (vm_compute; reflexivity).
  assert (s_closed closed_sample = true) as Hc by (vm_compute; reflexivity).
  destruct (closed_session_refuses closed_sample second_analysis None tt closed_sample tt late_response Hl Hc)
    as (_ & _ & _ & _ & H).
  split; [exact Hc|]. apply H; [|vm_compute; reflexivity].
  split; [vm_compute; reflexivity|]. split; vm_compute; reflexivity.
Defined.
