(* ===== verification/ClosureTheorems.v ===== *)
(** * What the demand closure promises

    The theorems on the closure's two operations that matter most: an update
    and a demand table; and what the demand hash tells apart. *)

From S2P Require Import Prelude GoStd GoText GoSha SortedPaths Model CompactDemands DemandGroup Contributions ContributionStore FactTable TransportManifest SessionDemands Proc Closure Materialize MaterializeSpec MaterializeTable ClosureSpec Protocol Session SessionSpec SampleSession SessionClient.
Open Scope Z_scope.

Section Closure.
Context `{MR : !MapRange} `{MH : !Maphash} {W : Type} `{BE : !ClosureBackend W}.
Implicit Types m : machine W.

(** C28: A demand table is answered only for the closure's own generation and is either the
    table already built for unchanged runs or a new build: recomputed runs hold rows the backend
    answered at their paths, the others keep the stored contribution, the table has the rows of
    each run at its path, the manifest names every recomputed or changed path, and the store,
    the suppression set and the state id are published together; a failure leaves the
    contributions and what the runs demand. *)
Theorem demandTable_builds g paths m0 : machine_ok m0 ->
  let '(m, r) := demandTableForPreparedGroups g paths m0 in
  survives m0 m /\
  match r with
  | Err _ => True
  | Ok t =>
      g = generation (m_closure m0) /\ machine_ok m /\
      (table (m_closure m0) = Some t /\ paths = [] /\ m = m0 \/
       exists mB ch st, built g (build_base paths m0) mB t ch /\ m = after_build mB t st)
  end.
Proof.
  intros Hok. pose proof (demandTable_spec g paths m0 Hok) as H. unfold wp in H.
  destruct (demandTableForPreparedGroups g paths m0) as [m [t|e]]; [|done].
  destruct H as [Hg [(H1 & H2 & ->)|(Hn & mB & ch & st & B & ->)]]; [split_and!; try done; by left|].
  pose proof (build_base_ok paths m0 Hok) as Hokb. split; [|split_and!; [done| |right; by exists mB, ch, st]].
  - etrans; [apply (build_base_survives paths)|]. by eapply built_survives.
  - by eapply after_build_ok.
Qed.

(** C29: An accepted update advances the generation, retires the table, and forgets exactly the
    contributions at the affected and changed paths and at the paths whose contribution depends
    on one of them, all of which the next manifest names; a refused update changes the backend
    only. *)
Theorem Update_forgets changes m : store_ok (m_heap m) (retained (m_closure m)) ->
  let '(m', r) := Update changes m in
  match r with
  | Err _ => exists w, m' = set_world m w
  | Ok affected =>
      let told := set_of (transportChangedPaths (m_closure m')) in
      generation (m_closure m') = u64 (generation (m_closure m) + 1) /\
      table (m_closure m') = None /\ previousTable (m_closure m') = table (m_closure m) /\ m_groups m' = m_groups m /\
      (forall path, path ∈ told <-> path ∈ invalid_paths affected changes \/
         exists a c d, contribution_get (retained (m_closure m)) path = Some a /\ m_heap m !! a = Some c /\
           d ∈ dependencies c /\ d ∈ invalid_paths affected changes) /\
      (forall path, contribution_get (retained (m_closure m')) path =
         if bool_decide (path ∈ told) then None else contribution_get (retained (m_closure m)) path)
  end.
Proof.
  intros Hok. pose proof (Update_spec changes m) as H. unfold wp in H. destruct (Update changes m) as [m' [affected|e]]; [|done].
  destruct H as (_ & w & ev & ->). cbv zeta. set (invalid := invalid_paths affected changes). set (mw := set_world m w).
  destruct (accept_update_same invalid ev mw) as (H1 & H2 & H3 & H4 & H5 & H6).
  split_and!; [exact H5|exact H3|exact H4|exact H1| |intros path; by apply (accept_update_get invalid ev mw)].
  intros path. unfold accept_update. pose proof (invalidate_spec (m_heap mw) (retained (m_closure mw)) invalid Hok) as Hi.
  destruct (invalidate _ _ invalid) as [st invalid']. destruct Hi as (_ & Hin & _). simpl. rewrite Hin. unfold keys_at, contribution_get.
  split; (intros [?|H]; [by left|right]).
  - destruct H as (a & d & Ha & Hd & Hk). simpl in Hk. destruct (m_heap m !! a) as [c|] eqn:Ec; [|by apply elem_of_nil in Hk].
    by exists a, c, d.
  - destruct H as (a & c & d & Ha & Hc & Hk & Hd). exists a, d. simpl. by rewrite Hc.
Qed.
End Closure.

(** ** The hash input *)

Lemma le_bytes_inj n x y : 0 <= x < 256 ^ Z.of_nat n -> 0 <= y < 256 ^ Z.of_nat n -> le_bytes n x = le_bytes n y -> x = y.
Proof.
  revert x y. induction n as [|n IH]; intros x y Hx Hy; [simpl in *; lia|]. cbn [le_bytes]. intros [= H1 H2].
  rewrite Nat2Z.inj_succ, Z.pow_succ_r in Hx, Hy by lia.
  apply IH in H2; [|split; [apply Z.div_pos; lia|apply Z.div_lt_upper_bound; lia]..].
  rewrite (Z.div_mod x 256), (Z.div_mod y 256) by lia. lia.
Qed.

Lemma le_bytes_length n x : length (le_bytes n x) = n.
Proof. revert x. induction n as [|n IH]; intros x; simpl; [done|]. by rewrite IH. Qed.

(** An offset of a demand, an int of 64 bits. *)
Definition offset_ok (x : Z) : Prop := 0 <= x < 2 ^ 64.

Lemma le_u64_app x y l l' : offset_ok x -> offset_ok y -> le_u64 x ++ l = le_u64 y ++ l' -> x = y /\ l = l'.
Proof.
  intros Hx Hy H. unfold le_u64 in H. apply app_inj_1 in H as [H ->]; [|by rewrite !le_bytes_length]. split; [|done].
  unfold u64 in H. rewrite !Z.mod_small in H by (unfold offset_ok in *; lia). by apply le_bytes_inj in H.
Qed.

Lemma bool_bit_inj a b : bool_bit a = bool_bit b -> a = b.
Proof. by destruct a, b. Qed.

(** A demand whose places are both in the run's file. *)
Definition demand_in (path : string) (d : EntityDemand) : Prop :=
  Path (dem_Location d) = path /\ offset_ok (StartByte (dem_Location d)) /\ offset_ok (EndByte (dem_Location d)) /\
  when_some (fun q => Path q = path /\ offset_ok (StartByte q) /\ offset_ok (EndByte q)) (QueryLocation d).

Lemma demand_bytes_app path d d' l l' : demand_in path d -> demand_in path d' ->
  demand_bytes d ++ l = demand_bytes d' ++ l' -> d = d' /\ l = l'.
Proof.
  intros (Hp & Hs & He & Hq) (Hp' & Hs' & He' & Hq') H. destruct d as [[p a b] q], d' as [[p' a' b'] q'].
  unfold demand_bytes in H. cbn [dem_Location QueryLocation StartByte EndByte Path] in *. subst p p'.
  rewrite <- !app_assoc in H. apply le_u64_app in H as [-> H]; [|done|done]. apply le_u64_app in H as [-> H]; [|done|done].
  destruct q as [[p a2 b2]|], q' as [[p' a2' b2']|]; [|discriminate H..|].
  - destruct (Hq _ eq_refl) as (Hqp & Hqs & Hqe), (Hq' _ eq_refl) as (Hqp' & Hqs' & Hqe').
    cbn [StartByte EndByte Path] in *. subst p p'. rewrite <- !app_assoc in H. cbn [app] in H. apply (f_equal (@tail Z)) in H. cbn [tail] in H.
    apply le_u64_app in H as [-> H]; [|done|done]. apply le_u64_app in H as [-> H]; [|done|done].
    apply app_inj_1 in H as [H ->]; [|done]. injection H. intros. repeat (match goal with H : bool_bit _ = bool_bit _ |- _ =>
      apply bool_bit_inj in H; subst end). done.
  - cbn [app] in H. injection H. intros. repeat (match goal with H : bool_bit _ = bool_bit _ |- _ =>
      apply bool_bit_inj in H; subst end). done.
Qed.

(** The bytes a demand list is hashed over determine the demands of a run, so two different
    runs are taken for the same only when the hash collides. *)
Theorem demand_bytes_injective path ds ds' : Forall (demand_in path) ds -> Forall (demand_in path) ds' ->
  concat (map demand_bytes ds) = concat (map demand_bytes ds') -> ds = ds'.
Proof.
  intros H. revert ds'. induction H as [|d ds Hd _ IH]; intros ds' H' He; destruct H' as [|d' ds' Hd' H']; [done|..].
  - discriminate He.
  - discriminate He.
  - cbn [map concat] in He. eapply demand_bytes_app in He as [-> He]; [|done..]. f_equal. by apply IH.
Qed.

(** ** Witnesses *)

Lemma asked_in path a : 0 <= a < 1000 -> demand_in path (asked_at path a).
Proof. intros H. unfold demand_in, offset_ok. simpl. split_and!; try done; try lia. Qed.

Lemma demand_bytes_injective_witness :
  Forall (demand_in "a.ts") [asked_at "a.ts" 3; asked_at "a.ts" 5] /\
  [asked_at "a.ts" 3; asked_at "a.ts" 5] = [asked_at "a.ts" 3; asked_at "a.ts" 5].
Proof.
  assert (Forall (demand_in "a.ts") [asked_at "a.ts" 3; asked_at "a.ts" 5]) as H
    by (apply Forall_cons; split; [|apply Forall_singleton]; apply asked_in; lia).
  split; [exact H|]. apply (demand_bytes_injective "a.ts"); [exact H|exact H|reflexivity].
Defined.

(** The session's machine after an update of [a.ts]: the contributions of the
    other files are still stored. *)
Lemma sample_machine_ok : machine_ok (s_machine analyzed_once) /\ machine_ok (s_machine updated_once).
Proof. destruct samples_reachable as (H1 & H2 & _). split; [apply (reachable_ok _ H1)|apply (reachable_ok _ H2)]. Qed.

Lemma demandTable_builds_witness :
  is_ok (snd (demandTableForPreparedGroups 2 [] (s_machine updated_once))) = true /\
  survives (s_machine updated_once) (fst (demandTableForPreparedGroups 2 [] (s_machine updated_once))).
Proof.
  pose proof (demandTable_builds 2 [] (s_machine updated_once) (proj2 sample_machine_ok)) as H.
  split; [vm_compute; reflexivity|]. destruct (demandTableForPreparedGroups 2 [] (s_machine updated_once)) as [m r].
  destruct H as [H _]. exact H.
Defined.

(** An update of [c.ts] forgets the contribution of [b.ts], which depends on
    it, and keeps that of [a.ts]. *)
Lemma Update_forgets_witness :
  let m' := fst (Update [mkFileChange "c.ts" 2 [] false] (s_machine analyzed_once)) in
  contribution_get (retained (m_closure m')) "b.ts" = None /\
  is_Some (contribution_get (retained (m_closure m')) "a.ts").
Proof.
  cbv zeta. pose proof (Update_forgets [mkFileChange "c.ts" 2 [] false] (s_machine analyzed_once) (mo_store _ (proj1 sample_machine_ok))) as H.
  destruct (Update [mkFileChange "c.ts" 2 [] false] (s_machine analyzed_once)) as [m' [affected|e]] eqn:E; [|vm_compute in E; discriminate E].
  destruct H as (_ & _ & _ & _ & _ & H). cbn [fst]. rewrite !H. vm_compute in E. injection E as <- _.
  vm_compute. split; [reflexivity|]. eexists. reflexivity.
Defined.
