(* ===== verification/Totality.v ===== *)
(** * Programs that succeed

    A writer program fails only where its source returns an error. [total]
    programs return whatever the writer's state; the primitives and the
    records written without checks are total, and a row is total when the
    checks on it pass. *)

From S2P Require Import Prelude GoStd GoText GoBytes StringTable Model Domain SymbolStore FactTable TransitionDiff Writer Rows.
Open Scope Z_scope.

Class total {S A} (m : W S A) : Prop := returns : forall w, exists w' a, m w = (w', Ok a).

Section Total.
Context {S : Type}.

#[export] Instance total_ret {A} (a : A) : total (S:=S) (w_ret a).
Proof. intros w. by eexists _, _. Qed.
#[export] Instance total_put v : total (S:=S) (put_u64 v).
Proof. intros w. by eexists _, _. Qed.
#[export] Instance total_raw v : total (S:=S) (raw v).
Proof. intros w. by eexists _, _. Qed.
#[export] Instance total_intern v : total (S:=S) (w_intern v).
Proof. intros w. unfold w_intern. destruct (intern (dict w) v). by eexists _, _. Qed.

#[export] Instance total_bind {A B} (m : W S A) (k : A -> W S B) :
  total m -> (forall a, total (k a)) -> total (w_bind m k).
Proof. intros Hm Hk w. unfold w_bind. destruct (Hm w) as (w' & a & ->). apply Hk. Qed.

#[export] Instance total_wrap {A} msg (m : W S A) : total m -> total (w_wrap msg m).
Proof. intros Hm w. unfold w_wrap. destruct (Hm w) as (w' & a & ->). by eexists _, _. Qed.

Lemma total_lift_bind {A B} (r : result A) (k : A -> W S B) a :
  r = Ok a -> total (k a) -> total (w_bind (w_lift r) k).
Proof. intros -> Hk w. apply Hk. Qed.

Lemma total_lift {A} (r : result A) a : r = Ok a -> total (S:=S) (w_lift r).
Proof. intros -> w. by eexists _, _. Qed.

Lemma total_guard c e : c = false -> total (S:=S) (w_guard c e).
Proof. intros -> w. by eexists _, _. Qed.

#[export] Instance total_if {A} (c : bool) (m m' : W S A) : total m -> total m' -> total (if c then m else m').
Proof. by destruct c. Qed.

Lemma total_when c (m : W S unit) : (c = true -> total m) -> total (w_when c m).
Proof. unfold w_when. destruct c; [auto|intros; apply _]. Qed.

Lemma total_option {A} (o : option A) (m : A -> W S unit) : (forall a, o = Some a -> total (m a)) -> total (w_option o m).
Proof. destruct o; simpl; [auto|intros; apply _]. Qed.

Lemma total_fold {A St} (f : A -> St -> W S St) l st : (forall x s, x ∈ l -> total (f x s)) -> total (w_fold f l st).
Proof.
  revert st. induction l as [|x l IH]; intros st Hf; simpl; [apply _|].
  apply total_bind; [apply Hf; set_solver|]. intros. apply IH. intros. apply Hf. set_solver.
Qed.

Lemma total_each {A} (f : A -> W S unit) l : (forall x, x ∈ l -> total (f x)) -> total (w_each f l).
Proof. intros. unfold w_each. apply total_fold. auto. Qed.

#[export] Instance total_when_any c (m : W S unit) : total m -> total (w_when c m) | 5.
Proof. intros. by apply total_when. Qed.
#[export] Instance total_option_any {A} (o : option A) (m : A -> W S unit) : (forall a, total (m a)) -> total (w_option o m) | 5.
Proof. intros. by apply total_option. Qed.
#[export] Instance total_fold_any {A St} (f : A -> St -> W S St) l st : (forall x s, total (f x s)) -> total (w_fold f l st) | 5.
Proof. intros. by apply total_fold. Qed.
#[export] Instance total_each_any {A} (f : A -> W S unit) l : (forall x, total (f x)) -> total (w_each f l) | 5.
Proof. intros. by apply total_each. Qed.

#[export] Instance total_text v : total (S:=S) (text v).
Proof. unfold text. apply _. Qed.
#[export] Instance total_signed v : total (S:=S) (signed v).
Proof. unfold signed. apply _. Qed.
#[export] Instance total_len {A} (l : list A) : total (S:=S) (put_len l).
Proof. unfold put_len. apply _. Qed.
#[export] Instance total_location l st : total (S:=S) (internalLocation l st).
Proof. unfold internalLocation. apply _. Qed.
#[export] Instance total_locations l : total (S:=S) (internalLocations l).
Proof. unfold internalLocations. apply _. Qed.
#[export] Instance total_declaration d st : total (S:=S) (internalDeclaration d st).
Proof. unfold internalDeclaration. apply _. Qed.
#[export] Instance total_declarations l : total (S:=S) (internalDeclarations l).
Proof. unfold internalDeclarations. apply _. Qed.
#[export] Instance total_descriptor d : total (S:=S) (internalTypeDescriptor d).
Proof. unfold internalTypeDescriptor. apply _. Qed.
#[export] Instance total_owner o st : total (S:=S) (internalOwner o st).
Proof. unfold internalOwner. apply _. Qed.
#[export] Instance total_resolved_declaration d : total (S:=S) (internalResolvedDeclaration d).
Proof. unfold internalResolvedDeclaration. apply _. Qed.
#[export] Instance total_source_call c : total (S:=S) (internalSourceCall c).
Proof. unfold internalSourceCall. apply _. Qed.
#[export] Instance total_parameter_declaration d : total (S:=S) (parameter_declaration d).
Proof. unfold parameter_declaration. apply _. Qed.
#[export] Instance total_binding b : total (S:=S) (source_binding b).
Proof. unfold source_binding. apply _. Qed.
#[export] Instance total_function f : total (S:=S) (source_function f).
Proof. unfold source_function. apply _. Qed.
#[export] Instance total_async f : total (S:=S) (async_function f).
Proof. unfold async_function. apply _. Qed.
#[export] Instance total_file f : total (S:=S) (writeWireTransitionFileBody f).
Proof. unfold writeWireTransitionFileBody. apply _. Qed.
#[export] Instance total_entry v previous : total (S:=S) (dictionary_entry v previous).
Proof. unfold dictionary_entry. destruct (packedHashedSymbol v); apply _. Qed.
#[export] Instance total_dictionary l : total (S:=S) (appendPackedDictionary l).
Proof. unfold appendPackedDictionary. apply _. Qed.
End Total.

(** ** Rows the checks accept *)

Definition accepted {A} (r : result A) : Prop := exists a, r = Ok a.

Record parameter_accepted (s : Z) (p : ParameterFact) : Prop := {
  pa_index : 0 <= pf_Index p;
  pa_callability : accepted (wireTransitionCallabilityCode (pf_Callability p) s);
  pa_shape : when_some (fun shape => Forall (fun q =>
    accepted (wireTransitionConstructionWitnessCode (Witness q))) (RequiredProperties shape)) (ObjectShape p);
}.

(** A resolved argument has no reason and an unresolved one has one. *)
Record argument_accepted (s : Z) (m : ArgumentMapping) : Prop := {
  aa_index : 0 <= ArgumentIndex m;
  aa_status : Status m = ArgumentMappingResolved /\ Unresolved m = "" \/
    Status m = ArgumentMappingUnresolved /\ Unresolved m <> "" /\ accepted (wireTransitionMappingReasonCode (Unresolved m));
  aa_parameter : when_some (parameter_accepted s) (Parameter_ m);
}.

Record call_accepted (s : Z) (c : Call) : Prop := {
  ca_validity : accepted (wireTransitionValidityCode (Validity c));
  ca_kind : accepted (wireTransitionCallKindCode (call_Kind c));
  ca_targets : when_some (fun t => Candidates t <> [] /\ Forall (fun d => rd_Symbol d <> "") (Candidates t)) (Targets c);
  ca_arguments : Forall (argument_accepted s) (call_Arguments c);
}.

Definition constant_accepted (v : ConstantValue) : Prop :=
  cv_Kind v = ConstantValueString \/ cv_Kind v = ConstantValueNumber.

Definition literal_accepted (c : PrimitiveLiteralCandidate) : Prop :=
  plc_Kind c = PrimitiveLiteralString \/ plc_Kind c = PrimitiveLiteralBoolean \/
  plc_Kind c = PrimitiveLiteralNumber /\ is_nan (plc_Number c) = false /\ is_inf (plc_Number c) = false.

Record entity_accepted (path : string) (s : Z) (e : EntityFact) : Prop := {
  ea_checks : accepted (entity_checks path e s);
  ea_call : when_some (call_accepted s) (ResolvedCall e);
  ea_constant : when_some constant_accepted (ef_ConstantValue e);
  ea_literals : Forall literal_accepted (PrimitiveLiteralCandidates e);
}.

Record path_op_accepted (s : Z) (op : wireTransitionPathOp) : Prop := {
  poa_path : op_path op <> "";
  poa_source : is_replace (sourceOp op) = true -> dig_Path (op_source op) = op_path op;
  poa_entities : is_replace (entityOp op) = true -> Forall (entity_accepted (op_path op) s) (op_entities op);
  poa_file : is_replace (fileOp op) = true -> ff_Path (op_file op) = op_path op;
}.

Record symbol_op_accepted (mode : wireTransitionMode) (op : wireTransitionSymbolOp) : Prop := {
  soa_id : sop_id op <> "";
  soa_full : mode = wireTransitionFull -> sop_tag op = wireTransitionReplaceSymbol;
  soa_replace : sop_tag op = wireTransitionReplaceSymbol -> ID (sop_fact op) = sop_id op;
  soa_path : sop_tag op = wireTransitionReplaceReferencePath -> sop_referencePath op <> "" /\
    Forall (fun r => Path r = sop_referencePath op /\ accepted (validateWireTransitionLocation r)) (sop_references op);
}.

Section Accepted.
Context {S : Type}.

Lemma total_property q :
  accepted (wireTransitionConstructionWitnessCode (Witness q)) -> total (S:=S) (object_property q).
Proof.
  intros [k Hk]. unfold object_property. apply total_bind; [apply _|]. intros _.
  eapply total_lift_bind; [by rewrite Hk|apply _].
Qed.

Lemma total_parameter p s : parameter_accepted s p -> total (S:=S) (writeWireTransitionParameter p s).
Proof.
  intros [Hi [k Hk] Hs]. unfold writeWireTransitionParameter.
  apply total_bind; [apply total_guard; lia|]. intros _.
  eapply total_lift_bind; [by rewrite Hk|].
  do 6 (apply total_bind; [apply _|]; intros _). apply total_when. intros _. apply total_option. intros shape Hshape.
  apply total_bind; [apply _|]. intros _. apply total_each. intros q Hq.
  specialize (Hs shape Hshape). rewrite Forall_forall in Hs. by apply total_property, Hs.
Qed.

Lemma reason_code v k : wireTransitionMappingReasonCode v = Ok k -> (k = 0 <-> v = "").
Proof.
  unfold wireTransitionMappingReasonCode. cbn [switch]. intros H.
  repeat match type of H with
  | context [String.eqb ?x ?y] => destruct (String.eqb_spec x y) as [->|]
  end; simplify_eq; split; intros; try done; lia.
Qed.

Lemma total_argument m s : argument_accepted s m -> total (S:=S) (argument_mapping s m).
Proof.
  intros [Hi Hst Hp]. unfold argument_mapping. apply total_bind; [apply total_guard; lia|]. intros _.
  assert (exists st rs, wireTransitionMappingStatusCode (Status m) = Ok st /\
    wireTransitionMappingReasonCode (Unresolved m) = Ok rs /\ xorb (st =? 0) (rs =? 0) = false) as (st & rs & H1 & H2 & H3).
  { destruct Hst as [[-> ->]|(-> & Hne & [rs Hrs])]; [by exists 0, 0|]. exists 1, rs. split_and!; [done|done|].
    pose proof (reason_code _ _ Hrs) as Hz. destruct (Z.eqb_spec rs 0) as [E|]; [|done]. by destruct Hne; apply Hz. }
  eapply total_lift_bind; [by rewrite H1|]. eapply total_lift_bind; [by rewrite H2|].
  apply total_bind; [by apply total_guard|]. intros _.
  do 4 (apply total_bind; [apply _|]; intros _). apply total_option. intros p Hp'. by apply total_parameter, Hp.
Qed.

Lemma total_targets t :
  Candidates t <> [] -> Forall (fun d => rd_Symbol d <> "") (Candidates t) -> total (S:=S) (call_targets t).
Proof.
  intros Hne Hc. rewrite Forall_forall in Hc. unfold call_targets.
  apply total_bind; [apply total_guard; by destruct (Candidates t)|]. intros _.
  do 2 (apply total_bind; [apply _|]; intros _). apply total_each. intros d Hd. unfold target_candidate.
  apply total_bind; [|intros; apply _]. apply total_guard. by destruct (String.eqb_spec (rd_Symbol d) ""); [destruct (Hc d Hd)|].
Qed.

Lemma total_call c s : call_accepted s c -> total (S:=S) (writeWireTransitionResolvedCall c s).
Proof.
  intros [[v Hv] [k Hk] Ht Ha]. unfold writeWireTransitionResolvedCall.
  eapply total_lift_bind; [by rewrite Hv|]. eapply total_lift_bind; [by rewrite Hk|].
  do 6 (apply total_bind; [apply _|]; intros _). apply total_bind.
  { apply total_when. intros _. apply total_bind; [apply _|]. intros _. apply total_option. intros t Ht'.
    destruct (Ht t Ht'). by apply total_targets. }
  intros _. apply total_bind; [apply _|]. intros _. apply total_each. intros m Hm.
  rewrite Forall_forall in Ha. by apply total_argument, Ha.
Qed.

Lemma total_constant v : constant_accepted v -> total (S:=S) (constant_value v).
Proof. unfold constant_value. intros [->| ->]; simpl; apply _. Qed.

Lemma total_literal c : literal_accepted c -> total (S:=S) (literal_candidate c).
Proof.
  unfold literal_candidate. intros [->|[->|(-> & Hn & Hf)]].
  - change (String.eqb PrimitiveLiteralString PrimitiveLiteralString) with true. apply _.
  - change (String.eqb PrimitiveLiteralBoolean PrimitiveLiteralString) with false.
    change (String.eqb PrimitiveLiteralBoolean PrimitiveLiteralNumber) with false.
    change (String.eqb PrimitiveLiteralBoolean PrimitiveLiteralBoolean) with true. apply _.
  - change (String.eqb PrimitiveLiteralNumber PrimitiveLiteralString) with false.
    change (String.eqb PrimitiveLiteralNumber PrimitiveLiteralNumber) with true.
    apply total_bind; [apply total_guard; by rewrite Hn, Hf|intros; apply _].
Qed.

Lemma total_entity_row path s e previous : entity_accepted path s e -> total (S:=S) (entity_row path s e previous).
Proof.
  intros [[codes Hcodes] Hc Hcv Hl]. unfold entity_row. eapply total_lift_bind; [exact Hcodes|].
  do 5 (apply total_bind; [apply _|]; intros _).
  apply total_bind. { apply total_option. intros c Hc'. apply total_wrap, total_call. by apply Hc. }
  intros _. do 5 (apply total_bind; [apply _|]; intros _). apply total_bind.
  { apply total_when. intros _. apply total_option. intros v Hv. by apply total_constant, Hcv. }
  intros _. apply total_bind; [apply _|]. intros _.
  apply total_bind. { apply total_when. intros _. apply total_option. intros t _. unfold tuple_shape. apply _. }
  intros _. do 3 (apply total_bind; [apply _|]; intros _). apply total_bind; [|intros; apply _].
  apply total_when. intros _. apply total_bind; [apply _|]. intros _. apply total_each. intros c Hc'.
  rewrite Forall_forall in Hl. by apply total_literal, Hl.
Qed.

Lemma total_path_op s op : path_op_accepted s op -> total (S:=S) (writeWireTransitionPathOp op s).
Proof.
  intros [Hp Hs He Hf]. unfold writeWireTransitionPathOp.
  apply total_bind; [apply total_guard; by destruct (String.eqb_spec (op_path op) "")|]. intros _.
  assert (exists k, wireTransitionPathFlags op = Ok k) as [k Hk].
  { unfold wireTransitionPathFlags. destruct (sourceOp op), (entityOp op), (fileOp op); by eexists. }
  eapply total_lift_bind; [exact Hk|]. do 2 (apply total_bind; [apply _|]; intros _).
  apply total_bind.
  { apply total_when. intros Hr. apply total_bind; [|intros; apply _]. apply total_guard. by rewrite (Hs Hr), String.eqb_refl. }
  intros _. apply total_bind.
  { apply total_when. intros Hr. apply total_wrap. unfold writeWireTransitionEntityRun.
    apply total_bind; [apply _|]. intros _. apply total_bind; [|intros; apply _]. apply total_fold. intros e previous Hin.
    specialize (He Hr). rewrite Forall_forall in He. by apply total_entity_row, He. }
  intros _. apply total_when. intros Hr. apply total_bind; [|intros; apply _]. apply total_guard.
  by rewrite (Hf Hr), String.eqb_refl.
Qed.

Lemma total_symbol_op mode op : symbol_op_accepted mode op -> total (S:=S) (writeWireTransitionSymbolOp mode op).
Proof.
  intros [Hi Hf Hr Hp]. unfold writeWireTransitionSymbolOp.
  apply total_bind; [apply total_guard; by destruct (String.eqb_spec (sop_id op) "")|]. intros _.
  apply total_bind; [apply _|]. intros i. apply total_bind.
  { destruct (bool_decide (mode = wireTransitionFull)) eqn:Em; [|apply _]. apply bool_decide_eq_true in Em.
    apply total_bind; [|intros; apply _]. apply total_guard. apply bool_decide_eq_false. intros H. by apply H, Hf. }
  intros _. destruct (sop_tag op) eqn:Et.
  - apply total_bind; [apply total_guard; by rewrite (Hr eq_refl), String.eqb_refl|]. intros _. apply _.
  - apply _.
  - destruct (Hp eq_refl) as [Hne Hall]. rewrite Forall_forall in Hall.
    apply total_bind; [apply total_guard; by destruct (String.eqb_spec (sop_referencePath op) "")|]. intros _.
    apply total_bind; [apply _|]. intros _. apply total_bind; [|intros; apply _]. apply total_each.
    intros r Hin. destruct (Hall r Hin) as [Hpath [u Hu]]. unfold reference_check.
    apply total_bind; [apply total_guard; by rewrite Hpath, String.eqb_refl|]. intros _.
    eapply total_lift. by rewrite Hu.
Qed.
End Accepted.
