(* ===== verification/Reader.v ===== *)
(** * The consumer's reader

    The frame decoder of the other process ([src/crates/typefacts/src/v3.rs]),
    which the rows of [wire_transition_rows.go] are written for. It is here so
    that "the client reads back what the producer wrote" is a statement about
    two programs. A cursor is the input that is left. *)

From S2P Require Import Prelude GoStd GoText GoBytes StringTable Model Domain SymbolStore FactTable TransitionDiff Writer Rows.
Open Scope Z_scope.

(** ** The cursor *)

Definition R (A : Type) : Type := list Z -> result (A * list Z).

Definition r_ret {A} (a : A) : R A := fun input => Ok (a, input).
Definition r_fail {A} (msg : string) : R A := fun _ => Err (ErrText msg).
Definition r_bind {A B} (m : R A) (k : A -> R B) : R B :=
  fun input => match m input with Ok (a, rest) => k a rest | Err e => Err e end.
Definition r_lift {A} (r : result A) : R A :=
  fun input => match r with Ok a => Ok (a, input) | Err e => Err e end.

Notation "'let*' x ':=' e 'in' k" :=
  (r_bind e (fun x => k)) (at level 10, x pattern, e at level 200, k at level 200) : go_scope.

Notation "e ';;;' k" := (r_bind e (fun _ => k)) (at level 100, right associativity) : go_scope.

Definition r_guard (cond : bool) (msg : string) : R unit := if cond then r_fail msg else r_ret tt.

(** [if cond { Some(read) } else { None }]. *)
Definition r_when {A} (cond : bool) (m : R A) : R (option A) :=
  if cond then (let* a := m in r_ret (Some a)) else r_ret None.

(** [for _ in 0..count], collecting, over a loop state. *)
Fixpoint r_fold {A St} (n : nat) (f : St -> R (A * St)) (st : St) : R (list A * St) :=
  match n with
  | O => r_ret ([], st)
  | S n' =>
      let* (a, st') := f st in
      let* (l, st'') := r_fold n' f st' in
      r_ret (a :: l, st'')
  end.

Definition r_times {A} (n : nat) (f : R A) : R (list A) :=
  let* (l, _) := r_fold n (fun _ => let* a := f in r_ret (a, tt)) tt in r_ret l.

(** [for shift in (0..=63).step_by(7)]: [n] turns are left. *)
Fixpoint cursor_loop (n : nat) (shift value : Z) (input : list Z) : result (Z * list Z) :=
  match n with
  | O => Err (ErrText "packed table integer overflow")
  | S n' =>
      match input with
      | [] => Err (ErrText "packed table is truncated")
      | byte :: input' =>
          if (shift =? 63) && (1 <? byte) then Err (ErrText "packed table integer overflow")
          else
            let value := Z.lor value (u64 (Z.shiftl (Z.land byte 127) shift)) in
            if Z.land byte 128 =? 0 then
              if negb (shift =? 0) && (byte =? 0)
              then Err (ErrText "packed table integer is not shortest-form encoded")
              else Ok (value, input')
            else cursor_loop n' (shift + 7) value input'
      end
  end.

Definition cursor_u64 : R Z := cursor_loop 10 0 0.

Definition cursor_signed : R Z :=
  let* value := cursor_u64 in
  r_ret (Z.lxor (i64 (Z.shiftr value 1)) (- i64 (Z.land value 1))).

Definition PACKED_COLLECTION_LIMIT : Z := 1000000.

Definition cursor_count : R nat :=
  let* count := cursor_u64 in
  r_guard (PACKED_COLLECTION_LIMIT <? count) "packed count exceeds the limit";;; r_ret (Z.to_nat count).

Definition cursor_boolean : R bool :=
  let* value := cursor_u64 in
  if value =? 0 then r_ret false
  else if value =? 1 then r_ret true
  else r_fail "packed boolean".

Definition cursor_raw (length : Z) : R (list Z) := fun input =>
  if len input <? length then Err (ErrText "packed table is truncated")
  else Ok (take (Z.to_nat length) input, drop (Z.to_nat length) input).

(** [base.checked_add] and [base.checked_sub] on 64 bits. *)
Definition checked_u64 (value : Z) (msg : string) : R Z :=
  if (value <? 0) || (2 ^ 64 <=? value) then r_fail msg else r_ret value.

Definition add_signed (base delta : Z) : R Z := checked_u64 (base + delta) "packed delta overflow".

(** [cases.get(value)]: the parse tables of the closed vocabularies. *)
Definition parse_tag {A} (tags : list A) (msg : string) (value : Z) : R A :=
  if value <? len tags
  then match tags !! Z.to_nat value with Some a => r_ret a | None => r_fail msg end
  else r_fail msg.

Definition parse_array_shape : Z -> R ArrayShape :=
  parse_tag [ArrayShapeArray; ArrayShapeNotArray; ArrayShapeMixed; ArrayShapeUnknown] "unknown array-shape tag".

Definition parse_callability (value table_schema : Z) : R Callability :=
  if (value =? 4) && negb (TypeFactsTableSchemaVersionV15 <=? table_schema)
  then r_fail "unknown callability tag"
  else parse_tag [CallabilityCallable; CallabilityNonCallable; CallabilityMixed; CallabilityUnknown;
                  CallabilityUntypedCallable] "unknown callability tag" value.

Definition parse_constructability : Z -> R Constructability :=
  parse_tag [ConstructabilityConstructable; ConstructabilityNonConstructable; ConstructabilityMixed;
             ConstructabilityUnknown] "unknown constructability tag".

Definition parse_reference_space : Z -> R ReferenceSpace :=
  parse_tag [ReferenceSpaceValue; ReferenceSpaceType; ReferenceSpaceBoth; ReferenceSpaceNeither]
    "unknown reference-space tag".

Definition parse_resolved_call_validity : Z -> R ResolvedCallValidity :=
  parse_tag [ResolvedCallValid; ResolvedCallRecovery; ResolvedCallUnresolved] "unknown resolved-call validity tag".

Definition parse_call_kind : Z -> R CallKind :=
  parse_tag [CallKindUnknown; CallKindCall; CallKindConstruct] "unknown call-kind tag".

Definition parse_argument_mapping_status : Z -> R ArgumentMappingStatus :=
  parse_tag [ArgumentMappingResolved; ArgumentMappingUnresolved] "unknown argument-mapping status tag".

Definition parse_argument_mapping_reason (status : ArgumentMappingStatus) (value : Z) : R ArgumentMappingReason :=
  let* reason := parse_tag [EmptyString; ArgumentMappingCallUnresolved; ArgumentMappingRecoverySignature;
      ArgumentMappingCompositeSignature; ArgumentMappingSpreadArgument; ArgumentMappingParameterUnavailable]
      "unknown argument-mapping reason tag" value in
  r_guard (xorb (String.eqb status ArgumentMappingResolved) (String.eqb reason ""))
    "packed argument status and reason disagree";;;
  r_ret reason.

Definition parse_construction_witness : Z -> R ConstructionWitness :=
  parse_tag [ConstructionWitnessUnknown; ConstructionWitnessEmptyArray; ConstructionWitnessEmptyObject]
    "unknown construction-witness tag".

(** [value & !mask != 0]. *)
Definition outside (value mask : Z) : bool := negb (Z.land value (Z.lnot mask) =? 0).

Definition parse_runtime_value_domain (value : Z) : R RuntimeValueDomain :=
  r_guard (outside value 15) "unknown runtime value-domain bits";;;
  r_ret (mkRuntimeValueDomain (has_flag value 1) (has_flag value 2) (has_flag value 4) (has_flag value 8)).

Definition parse_primitive_value_domain (value : Z) : R PrimitiveValueDomain :=
  r_guard (outside value 1023) "unknown primitive value-domain bits";;;
  r_ret (if has_flag value 256 then UnknownPrimitiveValueDomain
         else NewPrimitiveValueDomain (has_flag value 1) (has_flag value 2) (has_flag value 4)
                (has_flag value 8) (has_flag value 16) (has_flag value 32) (has_flag value 64)
                (has_flag value 128) (has_flag value 512)).

(** ** Rows *)
Section ReaderRows.
Context (strings : list string).

Definition string_index : R string :=
  let* index := cursor_u64 in r_lift (lookup_string strings index).

Definition location (state : packedLocationState) : R (Location * packedLocationState) :=
  let* path_token := cursor_u64 in
  let* (path, start) :=
    if Z.land path_token 1 =? 1 then
      r_guard (negb (path_token =? 1) || negb (st_valid state)) "packed location has invalid repeated-path marker";;;
      let* delta := cursor_signed in
      let* start := add_signed (st_start state) delta in
      r_ret (st_path state, start)
    else
      let path := Z.shiftr path_token 1 in
      r_guard (len strings <=? path) "packed location path index is out of range";;;
      let* start := cursor_u64 in
      r_ret (path, start) in
  let* length := cursor_u64 in
  let* end_byte := checked_u64 (start + length) "packed location end overflow" in
  let* p := r_lift (lookup_string strings path) in
  r_ret (mkLocation p start end_byte, mkLocationState path start true).

Definition locations : R (list Location) :=
  let* count := cursor_count in
  let* (l, _) := r_fold count location no_location in
  r_ret l.

Definition declaration (state : packedLocationState) : R (Declaration * packedLocationState) :=
  let* name := string_index in
  let* kind := string_index in
  let* (loc, state') := location state in
  r_ret (mkDeclaration name kind loc, state').

Definition declarations : R (list Declaration) :=
  let* count := cursor_count in
  let* (l, _) := r_fold count declaration no_location in
  r_ret l.

Definition type_descriptor : R TypeDescriptor :=
  let* text := string_index in
  let* origin := string_index in
  let* aliases := declarations in
  r_ret (mkTypeDescriptor text origin aliases).

Definition declaration_owner (state : packedLocationState) : R (DeclarationOwner * packedLocationState) :=
  let* symbol := string_index in
  let* name := string_index in
  let* kind := string_index in
  let* (loc, state') := location state in
  r_ret (mkDeclarationOwner symbol name kind loc, state').

Definition resolved_declaration : R ResolvedDeclaration :=
  let* symbol := string_index in
  let* name := string_index in
  let* kind := string_index in
  let* (loc, state) := location no_location in
  let* count := cursor_count in
  let* (owners, _) := r_fold count declaration_owner state in
  let* qualified := string_index in
  let* origin := string_index in
  let* source := string_index in
  let* standard := cursor_boolean in
  r_ret (mkResolvedDeclaration symbol name kind loc owners qualified origin source standard).

Definition object_construction_property : R ObjectConstructionProperty :=
  let* name := string_index in
  let* tag := cursor_u64 in
  let* witness := parse_construction_witness tag in
  r_ret (mkObjectConstructionProperty name witness).

Definition object_construction_shape : R ObjectConstructionShape :=
  let* count := cursor_count in
  let* properties := r_times count object_construction_property in
  r_ret (mkObjectConstructionShape properties).

Definition read_parameter_declaration : R Declaration :=
  let* (d, _) := declaration no_location in r_ret d.

Definition read_parameter (table_schema : Z) : R ParameterFact :=
  let* index := cursor_u64 in
  let* symbol := string_index in
  let* flags := cursor_u64 in
  r_guard (outside flags (if TypeFactsTableSchemaVersionV17 <=? table_schema then 31 else 15))
    "packed parameter has unknown flags";;;
  let* decl := r_when (has_flag flags 1) read_parameter_declaration in
  let* tag := cursor_u64 in
  let* callability := parse_callability tag table_schema in
  let* descriptor := r_when (has_flag flags 8) type_descriptor in
  let* shape := r_when (has_flag flags 16) object_construction_shape in
  r_ret (mkParameterFact index symbol decl (has_flag flags 2) (has_flag flags 4) callability descriptor shape).

Definition read_argument (table_schema : Z) : R ArgumentMapping :=
  let* index := cursor_u64 in
  let* status_tag := cursor_u64 in
  let* status := parse_argument_mapping_status status_tag in
  let* reason_tag := cursor_u64 in
  let* reason := parse_argument_mapping_reason status reason_tag in
  let* present := cursor_boolean in
  let* parameter := r_when present (read_parameter table_schema) in
  r_ret (mkArgumentMapping index status reason parameter).

Definition read_candidate : R ResolvedDeclaration :=
  let* candidate := resolved_declaration in
  r_guard (String.eqb (rd_Symbol candidate) "") "packed target candidate has no symbol";;;
  r_ret candidate.

Definition read_targets : R CallTargetSet :=
  let* exhaustive := cursor_boolean in
  let* count := cursor_count in
  r_guard (count =? 0)%nat "packed resolved-call target set has no candidates";;;
  let* candidates := r_times count read_candidate in
  r_ret (mkCallTargetSet exhaustive candidates).

Definition resolved_call (table_schema : Z) : R Call :=
  let* target := string_index in
  let* return_type := string_index in
  let* validity_tag := cursor_u64 in
  let* validity := parse_resolved_call_validity validity_tag in
  let* kind_tag := cursor_u64 in
  let* kind := parse_call_kind kind_tag in
  let* declared := cursor_boolean in
  let* decl := r_when declared resolved_declaration in
  let* targeted := (if TypeFactsTableSchemaVersionV6 <=? table_schema then cursor_boolean else r_ret false) in
  let* targets := r_when targeted read_targets in
  let* count := cursor_count in
  let* arguments := r_times count (read_argument table_schema) in
  r_ret (mkCall target return_type validity kind decl targets arguments).

Definition source_call : R SourceCall :=
  let* (loc, state) := location no_location in
  let* (callee, _) := location state in
  let* arguments := locations in
  let* target := string_index in
  r_ret (mkSourceCall loc callee arguments target).

(** ** Entities *)

Definition known_entity_flags (table_schema : Z) : Z :=
  if (table_schema =? 16) || (table_schema =? 17) then 32767
  else if (table_schema =? 15) || (table_schema =? 14) then 16383
  else if table_schema =? 13 then 8191
  else if table_schema =? 12 then 4095
  else if table_schema =? 11 then 2047
  else if table_schema =? 9 then 1023
  else if table_schema =? 8 then 511
  else if table_schema =? 7 then 255
  else if (table_schema =? 5) || (table_schema =? 6) then 127
  else if table_schema =? 4 then 63
  else 31.

Definition read_constant_value : R ConstantValue :=
  let* tag := cursor_u64 in
  if tag =? 0 then
    let* s := string_index in r_ret (mkConstantValue ConstantValueString s 0)
  else if tag =? 1 then
    let* number := cursor_u64 in
    r_guard (is_nan number) "packed constant number is NaN";;;
    r_ret (mkConstantValue ConstantValueNumber "" number)
  else r_fail "unknown constant-value tag".

(** [u32::try_from]. *)
Definition cursor_u32 : R Z :=
  let* value := cursor_u64 in
  r_guard (2 ^ 32 <=? value) "packed tuple count overflows";;; r_ret value.

Definition read_exact_length : R (option Z) :=
  let* encoded := cursor_u64 in
  if encoded =? 0 then r_ret None
  else r_guard (2 ^ 32 <=? encoded - 1) "packed tuple exact length overflows";;; r_ret (Some (encoded - 1)).

(** [TupleShape::try_new] bounds the fixed length and the successor of the
    exact one. *)
Definition read_tuple_shape (table_schema : Z) : R TupleShape :=
  let* packed := cursor_u64 in
  let* tag := cursor_u64 in
  let* element_zero := parse_callability tag table_schema in
  let* minimum := cursor_u32 in
  let* exact_length := (if 13 <=? table_schema then read_exact_length else r_ret None) in
  r_guard (2 ^ 32 <=? Z.shiftr packed 1) "packed tuple fixed length overflows";;;
  r_guard (2 ^ 28 - 1 <? Z.shiftr packed 1) "tuple fixed length exceeds compact representation";;;
  r_guard (match exact_length with Some n => 2 ^ 32 <=? n + 1 | None => false end)
    "tuple exact length overflows compact representation";;;
  r_ret (mkTupleShape (Z.shiftr packed 1) (default 0 exact_length) (bool_decide (is_Some exact_length))
           (negb (Z.land packed 1 =? 0)) element_zero minimum).

Definition read_library_types : R (list string) :=
  let* count := cursor_u64 in r_times (Z.to_nat count) string_index.

Definition read_literal_candidate : R PrimitiveLiteralCandidate :=
  let* tag := cursor_u64 in
  if tag =? 0 then
    let* s := string_index in r_ret (mkPrimitiveLiteralCandidate PrimitiveLiteralString s 0 false)
  else if tag =? 1 then
    let* number := cursor_u64 in
    r_guard (is_nan number || is_inf number) "packed primitive literal number is not finite";;;
    r_ret (mkPrimitiveLiteralCandidate PrimitiveLiteralNumber "" number false)
  else if tag =? 2 then
    let* boolean := cursor_boolean in
    r_ret (mkPrimitiveLiteralCandidate PrimitiveLiteralBoolean "" 0 boolean)
  else r_fail "unknown primitive literal tag".

Definition read_literal_candidates : R (list PrimitiveLiteralCandidate) :=
  let* count := cursor_u64 in
  r_guard (32 <? count) "packed primitive literal candidate count exceeds 32";;;
  r_times (Z.to_nat count) read_literal_candidate.

Definition read_entity (path : string) (table_schema previous_start : Z) : R (EntityFact * Z) :=
  let* delta := cursor_signed in
  let* start := add_signed previous_start delta in
  let* length := cursor_u64 in
  let* end_byte := checked_u64 (start + length) "packed entity end overflow" in
  let* symbol := string_index in
  let* flags := cursor_u64 in
  r_guard (outside flags (known_entity_flags table_schema)) "packed entity has unknown flags";;;
  let* descriptor := r_when (has_flag flags 1) type_descriptor in
  let* call := r_when (has_flag flags 2) (resolved_call table_schema) in
  let* callability := r_when (has_flag flags 4) (let* tag := cursor_u64 in parse_callability tag table_schema) in
  let* space := r_when (has_flag flags 8) (let* tag := cursor_u64 in parse_reference_space tag) in
  let* identity := r_when (has_flag flags 16) string_index in
  let* value_domain := r_when (has_flag flags 32) (let* v := cursor_u64 in parse_runtime_value_domain v) in
  let* result_domain := r_when (has_flag flags 128) (let* v := cursor_u64 in parse_runtime_value_domain v) in
  let* constant := r_when (has_flag flags 256) read_constant_value in
  let* array := r_when (has_flag flags 512) (let* tag := cursor_u64 in parse_array_shape tag) in
  let* tuple := r_when (has_flag flags 1024) (read_tuple_shape table_schema) in
  let* library := r_when (has_flag flags 2048) read_library_types in
  let* primitive := r_when (has_flag flags 4096) (let* v := cursor_u64 in parse_primitive_value_domain v) in
  let* construct := r_when (has_flag flags 8192) (let* tag := cursor_u64 in parse_constructability tag) in
  let* literals := r_when (has_flag flags 16384) read_literal_candidates in
  let unresolved := has_flag flags 64 in
  r_guard (unresolved && negb (String.eqb symbol "")) "packed entity cannot be both resolved and unresolved";;;
  r_ret ({| ef_Location := mkLocation path start end_byte;
            ef_Symbol := symbol;
            SymbolUnresolved := unresolved;
            ef_TypeDescriptor := descriptor;
            ResolvedCall := call;
            ef_Callability := default EmptyString callability;
            ef_RuntimeValueDomain := value_domain;
            ef_PrimitiveValueDomain := default (mkPrimitiveValueDomain 0) primitive;
            PrimitiveLiteralCandidates := default [] literals;
            ef_Constructability := default ConstructabilityAbsent construct;
            CallResultDomain := result_domain;
            ef_ConstantValue := constant;
            ef_ArrayShape := default EmptyString array;
            ef_TupleShape := tuple;
            LibraryTypes := library;
            ef_ReferenceSpace := default EmptyString space;
            RuntimeIdentity := default EmptyString identity |}, start).

Definition decode_entity_run (path : string) (table_schema : Z) : R (list EntityFact) :=
  let* count := cursor_count in
  let* (l, _) := r_fold count (read_entity path table_schema) 0 in
  r_ret l.

(** ** Files *)

Definition read_binding : R SourceBinding :=
  let* flags := cursor_u64 in
  r_guard (outside flags bindingFlagArray) "packed binding has unknown flags";;;
  let* names := locations in
  let* initializer := source_call in
  r_ret (mkSourceBinding (has_flag flags bindingFlagArray) names initializer).

Definition read_function : R SourceFunction :=
  let* (name, state) := location no_location in
  let* (body, _) := location state in
  let* parameters := locations in
  let* flags := cursor_u64 in
  r_guard (outside flags (Z.lor (Z.lor functionFlagExported functionFlagAsync) functionFlagArrow))
    "packed function has unknown flags";;;
  r_ret (mkSourceFunction name body parameters (has_flag flags functionFlagExported)
           (has_flag flags functionFlagAsync) (has_flag flags functionFlagArrow)).

Definition read_async_function : R AsyncFunctionFact :=
  let* (expression, _) := location no_location in
  let* symbol := string_index in
  let* target := string_index in
  let* flags := cursor_u64 in
  r_guard (outside flags asyncFunctionFlagCanReturnAsync) "packed async function has unknown flags";;;
  let* calls := locations in
  r_ret (mkAsyncFunctionFact expression symbol target (has_flag flags asyncFunctionFlagCanReturnAsync) calls).

Definition decode_file_fact (path : string) : R FileFact :=
  let* call_count := cursor_count in
  let* calls := r_times call_count source_call in
  let* binding_count := cursor_count in
  let* bindings := r_times binding_count read_binding in
  let* function_count := cursor_count in
  let* functions := r_times function_count read_function in
  let* async_count := cursor_count in
  let* async_functions := r_times async_count read_async_function in
  r_ret (mkFileFact path calls bindings functions async_functions).
End ReaderRows.

(** ** The frame *)

Definition slot_tag (value : Z) : R wireTransitionCollectionOp :=
  parse_tag [wireTransitionUnchanged; wireTransitionReplace; wireTransitionRemove]
    "table transition has invalid operation" value.

(** [(path, start, end)] in order. *)
Definition location_le (a b : Location) : bool :=
  String.ltb (Path a) (Path b) ||
  (String.eqb (Path a) (Path b) &&
   ((StartByte a <? StartByte b) || ((StartByte a =? StartByte b) && (EndByte a <=? EndByte b)))).

Fixpoint adjacent {A} (P : A -> A -> bool) (l : list A) : bool :=
  match l with
  | x :: ((y :: _) as l') => P x y && adjacent P l'
  | _ => true
  end.

Definition locations_are_canonical : list Location -> bool := adjacent location_le.

Definition entity_run_is_canonical (path : string) (entities : list EntityFact) : bool :=
  forallb (fun e => String.eqb (Path (ef_Location e)) path) entities &&
  adjacent (fun a b =>
    (StartByte (ef_Location a) <? StartByte (ef_Location b)) ||
    ((StartByte (ef_Location a) =? StartByte (ef_Location b)) &&
     (EndByte (ef_Location a) <=? EndByte (ef_Location b)))) entities.

Definition is_remove (op : wireTransitionCollectionOp) : bool := bool_decide (op = wireTransitionRemove).
Definition is_unchanged (op : wireTransitionCollectionOp) : bool := bool_decide (op = wireTransitionUnchanged).
Definition is_full (mode : wireTransitionMode) : bool := bool_decide (mode = wireTransitionFull).

Section ReaderFrame.
Context (strings : list string) (mode : wireTransitionMode) (table_schema : Z).

(** A digest is kept as its bytes. *)
Definition read_path_op (previous : option string) : R (wireTransitionPathOp * option string) :=
  let* path := string_index strings in
  r_guard (String.eqb path "") "table transition path is empty";;;
  r_guard (match previous with Some p => negb (String.ltb p path) | None => false end)
    "table transition paths are not strictly ordered";;;
  let* flags := cursor_u64 in
  r_guard (outside flags 63) "table transition path has unknown flags";;;
  let* source_op := slot_tag (Z.land flags 3) in
  let* entity_op := slot_tag (Z.land (Z.shiftr flags 2) 3) in
  let* file_op := slot_tag (Z.land (Z.shiftr flags 4) 3) in
  r_guard (is_unchanged source_op && is_unchanged entity_op && is_unchanged file_op)
    "table transition contains an empty path operation";;;
  r_guard (is_full mode && (is_remove source_op || is_remove entity_op || is_remove file_op))
    "full table transition contains a remove operation";;;
  let* digest := r_when (is_replace source_op) (cursor_raw 32) in
  let* entities := r_when (is_replace entity_op)
    (let* entities := decode_entity_run strings path table_schema in
     r_guard (len entities =? 0) "entity replacement is empty; use remove";;;
     r_guard (negb (entity_run_is_canonical path entities)) "entity replacement is not canonical";;;
     r_ret entities) in
  let* file := r_when (is_replace file_op) (decode_file_fact strings path) in
  r_ret (mkPathOp path source_op (from_option (mkSourceDigest path) empty_digest digest)
           entity_op (default [] entities) file_op (default empty_file file), Some path).

(** [(id, tag, path)] in order. *)
Definition symbol_key_lt (a b : string * Z * string) : bool :=
  let '(ida, taga, patha) := a in
  let '(idb, tagb, pathb) := b in
  String.ltb ida idb ||
  (String.eqb ida idb && ((taga <? tagb) || ((taga =? tagb) && String.ltb patha pathb))).

Definition read_symbol_header : R (Z * Z) :=
  let* header := cursor_u64 in
  if is_full mode then r_ret (header, 0)
  else
    r_guard (Z.land header 3 =? 3) "table transition symbol has invalid tag 3";;;
    r_ret (Z.shiftr header 2, Z.land header 3).

Definition read_replace_symbol (id : string) : R wireTransitionSymbolOp :=
  let* alias := string_index strings in
  let* decls := declarations strings in
  let* references := locations strings in
  r_guard (negb (locations_are_canonical references)) "symbol replacement has non-canonical references";;;
  r_guard (negb (String.eqb alias "") && negb (len references =? 0)) "alias symbol replacement carries references";;;
  r_ret (replace_symbol id (mkSymbolFact id alias decls references)).

Definition read_reference_path (id : string) : R wireTransitionSymbolOp :=
  let* path := string_index strings in
  r_guard (String.eqb path "") "symbol reference path is empty";;;
  let* references := locations strings in
  r_guard (negb (forallb (fun r => String.eqb (Path r) path) references) ||
           negb (locations_are_canonical references)) "symbol reference replacement is not canonical";;;
  r_ret (replace_reference_path id path references).

Definition read_symbol_op (previous : option (string * Z * string)) :
    R (wireTransitionSymbolOp * option (string * Z * string)) :=
  let* (index, tag) := read_symbol_header in
  let* id := r_lift (lookup_string strings index) in
  r_guard (String.eqb id "") "table transition symbol id is empty";;;
  let* operation :=
    if tag =? 0 then read_replace_symbol id
    else if tag =? 1 then r_ret (remove_symbol id)
    else read_reference_path id in
  let key := (id, tag, sop_referencePath operation) in
  r_guard (match previous with Some p => negb (symbol_key_lt p key) | None => false end)
    "table transition symbol operations are not strictly ordered";;;
  r_ret (operation, Some key).
End ReaderFrame.

(** ** The dictionary *)

(** [previous] is the prefix window; hashed symbols leave it. *)
Definition read_packed_string (previous : string) : R (string * string) :=
  let* tag := cursor_u64 in
  if tag =? 0 then
    let* prefix := cursor_u64 in
    r_guard (len (string_bytes previous) <? prefix) "packed string prefix exceeds previous string";;;
    let* suffix_length := cursor_u64 in
    let* suffix := cursor_raw suffix_length in
    let value := bytes_string (take (Z.to_nat prefix) (string_bytes previous) ++ suffix) in
    r_guard (negb (ValidString value)) "packed string is not UTF-8";;;
    r_ret (value, value)
  else if tag =? 1 then
    let* raw := cursor_raw 12 in
    r_ret (hashed_prefix +:+ bytes_string (hex_Encode raw), previous)
  else r_fail "packed string has unknown encoding tag".

Definition decode_packed_strings : R (list string) :=
  let* count := cursor_count in
  let* (strings, _) := r_fold count read_packed_string "" in
  r_ret strings.

(** A decoded transition. *)
Record WireTableTransition := mkWireTransition {
  wt_mode : wireTransitionMode;
  wt_table_schema : Z;
  wt_base_generation : Z;
  wt_target_generation : Z;
  wt_project_id : string;
  wt_base_state_token : string;
  wt_paths : list wireTransitionPathOp;
  wt_symbols : list wireTransitionSymbolOp;
}.

Definition supported_schema (s : Z) : bool :=
  existsb (Z.eqb s) [3; 4; 5; 6; 7; 8; 9; 11; 12; 13; 14; 15; 16; 17].

Definition base_identity_error (mode : wireTransitionMode) (base target : Z) (token : string) : option string :=
  match mode with
  | wireTransitionFull =>
      if negb (base =? 0) || negb (String.eqb token "") then Some "full table transition has a base identity"%string else None
  | wireTransitionDelta =>
      if (base =? 0) || String.eqb token "" then Some "delta table transition has no base identity"%string
      else if target <? base then Some "delta table transition target precedes its base"%string else None
  end.

(** Version, mode, schema, generations and dictionary. *)
Definition read_header : R (wireTransitionMode * Z * Z * Z * list string) :=
  let* version := cursor_u64 in
  r_guard (negb (version =? 1)) "unsupported table transition version";;;
  let* mode_tag := cursor_u64 in
  let* mode := parse_tag [wireTransitionFull; wireTransitionDelta] "unsupported table transition mode" mode_tag in
  let* table_schema := cursor_u64 in
  r_guard (negb (supported_schema table_schema)) "unsupported Wire table schema";;;
  let* base := cursor_u64 in
  let* target := cursor_u64 in
  r_guard (target =? 0) "table transition target generation is zero";;;
  let* strings := decode_packed_strings in
  r_guard (match head strings with Some s => negb (String.eqb s "") | None => true end)
    "table transition dictionary does not begin with the empty string";;;
  r_guard (bool_decide (~ NoDup strings)) "table transition dictionary contains a duplicate string";;;
  r_ret (mode, table_schema, base, target, strings).

Definition read_rows (mode : wireTransitionMode) (table_schema base target : Z) (strings : list string) :
    R WireTableTransition :=
  let* project := string_index strings in
  r_guard (String.eqb project "") "table transition project id is empty";;;
  let* token := string_index strings in
  r_guard (bool_decide (is_Some (base_identity_error mode base target token))) "base identity";;;
  let* path_count := cursor_count in
  let* (paths, _) := r_fold path_count (read_path_op strings mode table_schema) None in
  let* symbol_count := cursor_count in
  let* (symbols, _) := r_fold symbol_count (read_symbol_op strings mode) None in
  r_ret (mkWireTransition mode table_schema base target project token paths symbols).

Definition read_table_transition : R WireTableTransition :=
  let* (mode, table_schema, base, target, strings) := read_header in
  read_rows mode table_schema base target strings.

Definition decode_table_transition (input : list Z) : result WireTableTransition :=
  match read_table_transition input with
  | Ok (t, []) => Ok t
  | Ok (_, _ :: _) => Err (ErrText "table transition has trailing bytes")
  | Err e => Err e
  end.
