(* ===== verification/Emits.v ===== *)
(** * What a writer program emits

    [emits m rd post]: when the program [m] succeeds, the bytes it appended are
    exactly what the reader [rd] consumes, and the two results are related by
    [post]. The rules follow the structure of writer programs, so the row
    round trips are compositions of them. *)

From S2P Require Import Prelude GoStd GoText GoBytes StringTable Model Writer Rows Reader.
Open Scope Z_scope.

(** ** Integers *)

Lemma land_128_small b : 0 <= b < 128 -> Z.land b 128 = 0.
Proof.
  intros Hb. change 128 with (2 ^ 7). apply Z.bits_inj'. intros k Hk.
  rewrite Z.land_spec, Z.bits_0, Z.pow2_bits_eqb by lia.
  destruct (Z.eqb_spec 7 k) as [<-|]; [|by rewrite andb_false_r].
  rewrite <- (Z.mod_small b (2 ^ 7)) by lia. by rewrite Z.mod_pow2_bits_high by lia.
Qed.

Lemma land_128_cont x : 0 <= x -> Z.land (Z.lor (u8 x) 128) 128 = 128.
Proof. intros. rewrite Z.land_lor_distr_l. change (Z.land 128 128) with 128.
  rewrite Z.lor_comm. change 128 with (2 ^ 7). apply Z.bits_inj'. intros k Hk.
  rewrite Z.lor_spec, Z.land_spec. destruct (Z.testbit (2 ^ 7) k); [done|by rewrite andb_false_r].
Qed.

Lemma land_127_small b : 0 <= b < 128 -> Z.land b 127 = b.
Proof. intros. change 127 with (Z.ones 7). rewrite Z.land_ones by lia. by rewrite Z.mod_small. Qed.

Lemma cursor_loop_bytes fuel i x acc rest :
  (i + fuel = 9)%nat ->
  0 <= acc < 2 ^ (7 * Z.of_nat i) ->
  0 <= x < 2 ^ (64 - 7 * Z.of_nat i) ->
  (i <> 0%nat -> 0 < x) ->
  cursor_loop (S fuel) (7 * Z.of_nat i) acc (uvarint_bytes fuel x ++ rest) =
  Ok (acc + x * 2 ^ (7 * Z.of_nat i), rest).
Proof.
  revert i x acc. induction fuel as [|fuel IH]; intros i x acc Hi Hacc Hx Hshort.
  { assert (i = 9%nat) as -> by lia. change (64 - 7 * Z.of_nat 9) with 1 in Hx.
    assert (x = 1) as -> by lia. change (7 * Z.of_nat 9) with 63 in *.
    change (uvarint_bytes 0 1) with [1]. cbn [app cursor_loop].
    change (Z.land 1 127) with 1. change (Z.land 1 128) with 0. cbn [Z.eqb Pos.eqb andb negb Z.ltb Z.compare Pos.compare Pos.compare_cont].
    change (u64 (Z.shiftl 1 63)) with (Z.shiftl 1 63). rewrite lor_shiftl_add by lia. done. }
  assert (2 ^ 64 = 2 ^ (64 - 7 * Z.of_nat i) * 2 ^ (7 * Z.of_nat i)) as Hpow
    by (rewrite <- Z.pow_add_r by lia; f_equal; lia).
  assert (0 < 2 ^ (7 * Z.of_nat i)) as Hpos by (apply Z.pow_pos_nonneg; lia).
  change (uvarint_bytes (S fuel) x) with
    (if x <? 128 then [u8 x] else Z.lor (u8 x) 128 :: uvarint_bytes fuel (Z.shiftr x 7)).
  destruct (x <? 128) eqn:E; cbn [app]; remember (S fuel) as turns eqn:Ht; cbn [cursor_loop]; subst turns.
  - apply Z.ltb_lt in E. assert (u8 x = x) as -> by (unfold u8; mlia).
    replace (7 * Z.of_nat i =? 63) with false by lia. cbn [andb].
    rewrite land_128_small, land_127_small by lia. cbn [Z.eqb].
    replace (negb (7 * Z.of_nat i =? 0) && (x =? 0)) with false.
    2: { symmetry. destruct (decide (i = 0%nat)) as [->|Hne]; [done|]. specialize (Hshort Hne).
         apply andb_false_intro2. lia. }
    rewrite u64_id, lor_shiftl_add by
      (try lia; unfold is_u64; rewrite Z.shiftl_mul_pow2 by lia; nia). done.
  - apply Z.ltb_ge in E. replace (7 * Z.of_nat i =? 63) with false by lia. cbn [andb].
    rewrite land_128_cont, land_127_lor_128 by lia. cbn [Z.eqb].
    assert (2 ^ (7 * Z.of_nat (S i)) = 128 * 2 ^ (7 * Z.of_nat i)) as HS
      by (replace (7 * Z.of_nat (S i)) with (7 + 7 * Z.of_nat i) by lia;
          by rewrite Z.pow_add_r by lia).
    assert (2 ^ (64 - 7 * Z.of_nat i) = 128 * 2 ^ (64 - 7 * Z.of_nat (S i))) as HS'
      by (replace (64 - 7 * Z.of_nat i) with (7 + (64 - 7 * Z.of_nat (S i))) by lia;
          by rewrite Z.pow_add_r by lia).
    assert (0 <= x mod 128 < 128) as Hm by mlia.
    assert (x mod 128 <= x) as Hle by mlia.
    rewrite u64_id, lor_shiftl_add by
      (try lia; unfold is_u64; rewrite Z.shiftl_mul_pow2 by lia; nia).
    replace (7 * Z.of_nat i + 7) with (7 * Z.of_nat (S i)) by lia.
    rewrite Z.shiftr_div_pow2 by lia. change (2 ^ 7) with 128.
    pose proof (Z.div_mod x 128 ltac:(lia)) as Hdm.
    rewrite IH; [|lia|rewrite HS; nia|split; [apply Z.div_pos; lia|apply Z.div_lt_upper_bound; lia]|].
    + do 2 f_equal. rewrite HS. nia.
    + intros _. assert (1 <= x / 128); [|lia]. apply Z.div_le_lower_bound; lia.
Qed.

(** The reader's integer is the writer's, in its shortest form. *)
Lemma cursor_u64_bytes x rest : is_u64 x -> cursor_u64 (uvarint_bytes 9 x ++ rest) = Ok (x, rest).
Proof.
  intros Hx. unfold cursor_u64. pose proof (cursor_loop_bytes 9 0 x 0 rest) as H.
  simpl (Z.of_nat 0) in H. rewrite Z.mul_0_r in H.
  rewrite H; [|done|lia|exact Hx|done]. do 2 f_equal. lia.
Qed.

(** Zigzag. *)
Definition zigzag (v : Z) : Z := Z.lxor (u64 (Z.shiftl v 1)) (u64 (Z.shiftr v 63)).

Lemma zigzag_value v : is_i64 v -> zigzag v = if v <? 0 then - 2 * v - 1 else 2 * v.
Proof.
  unfold is_i64, zigzag. intros Hv. rewrite Z.shiftl_mul_pow2, Z.shiftr_div_pow2 by lia.
  destruct (v <? 0) eqn:E.
  - apply Z.ltb_lt in E. assert (v / 2 ^ 63 = -1) as -> by mlia.
    change (u64 (-1)) with (Z.ones 64).
    rewrite Z.lxor_comm. assert (u64 (v * 2 ^ 1) = v * 2 + 2 ^ 64) as -> by (unfold u64; mlia).
    assert (Z.lxor (Z.ones 64) (v * 2 + 2 ^ 64) = Z.ones 64 - (v * 2 + 2 ^ 64)) as ->.
    { rewrite Z.lxor_comm. rewrite Z.sub_nocarry_ldiff.
      - apply Z.bits_inj'. intros k Hk. rewrite Z.lxor_spec, Z.ldiff_spec.
        destruct (decide (k < 64)).
        + rewrite Z.ones_spec_low by lia. rewrite xorb_true_r. done.
        + rewrite Z.ones_spec_high by lia. rewrite xorb_false_r. simpl.
          rewrite <- (Z.mod_small (v * 2 + 2 ^ 64) (2 ^ 64)) by lia.
          by rewrite Z.mod_pow2_bits_high by lia.
      - apply Z.bits_inj'. intros k Hk. rewrite Z.ldiff_spec, Z.bits_0.
        destruct (decide (k < 64)).
        + rewrite Z.ones_spec_low by lia. apply andb_false_r.
        + rewrite <- (Z.mod_small (v * 2 + 2 ^ 64) (2 ^ 64)) by lia.
          by rewrite Z.mod_pow2_bits_high by lia. }
    change (Z.ones 64) with (2 ^ 64 - 1). lia.
  - apply Z.ltb_ge in E. assert (v / 2 ^ 63 = 0) as -> by mlia. change (u64 0) with 0.
    rewrite Z.lxor_0_r. unfold u64. mlia.
Qed.

Lemma zigzag_u64 v : is_i64 v -> is_u64 (zigzag v).
Proof.
  intros Hv. rewrite zigzag_value by done. unfold is_i64, is_u64 in *.
  destruct (v <? 0) eqn:E; lia.
Qed.

Lemma lxor_m1 a : Z.lxor a (-1) = - a - 1.
Proof. rewrite Z.lxor_m1_r. unfold Z.lnot. lia. Qed.

Lemma land_1_mod z : Z.land z 1 = z mod 2.
Proof. change 1 with (Z.ones 1) at 1. by rewrite Z.land_ones by lia. Qed.

Lemma cursor_signed_bytes v rest :
  is_i64 v -> cursor_signed (uvarint_bytes 9 (zigzag v) ++ rest) = Ok (v, rest).
Proof.
  intros Hv. unfold cursor_signed, r_bind. rewrite cursor_u64_bytes by by apply zigzag_u64.
  unfold r_ret. do 2 f_equal. rewrite zigzag_value by done. unfold is_i64 in Hv.
  rewrite Z.shiftr_div_pow2, land_1_mod by lia.
  change (2 ^ 1) with 2. destruct (v <? 0) eqn:E.
  - apply Z.ltb_lt in E. assert ((-2 * v - 1) / 2 = - v - 1) as -> by mlia.
    assert ((-2 * v - 1) mod 2 = 1) as -> by mlia. rewrite i64_id by (unfold is_i64; lia).
    change (- i64 1) with (-1). rewrite lxor_m1. lia.
  - apply Z.ltb_ge in E. assert (2 * v / 2 = v) as -> by mlia.
    assert (2 * v mod 2 = 0) as -> by mlia. rewrite i64_id by (unfold is_i64; lia).
    change (- i64 0) with 0. apply Z.lxor_0_r.
Qed.

(** ** Emission *)

(** A program only extends the dictionary; so does a run of bytes of any
    length, which is no row. *)
Class grows {S A} (m : W S A) : Prop :=
  growth : forall w, extends w (fst (m w)).

#[export] Instance program_growth {S A} (m : W S A) : program m m -> grows m | 0.
Proof. intros Hm w. by apply (program_grows m m). Qed.

#[export] Instance raw_growth {S} v : grows (S:=S) (raw v) | 5.
Proof. intros w. apply extends_append. Qed.

#[export] Instance bind_growth {S A B} (m : W S A) (k : A -> W S B) :
  grows m -> (forall a, grows (k a)) -> grows (w_bind m k) | 10.
Proof.
  intros Hm Hk w. unfold w_bind. specialize (Hm w). destruct (m w) as [w1 [a|e]]; [|done].
  by etrans; [exact Hm|apply Hk].
Qed.

#[export] Instance fold_growth {S A St} (f : A -> St -> W S St) l st :
  (forall x s, grows (f x s)) -> grows (w_fold f l st) | 10.
Proof.
  intros Hf. revert st. induction l as [|x l IH]; intros st; simpl; [apply _|].
  apply bind_growth; auto.
Qed.

(** Two bits of a word are left beside an index. *)
Class SmallDictionary (strings : list string) : Prop := strings_small : len strings < 2 ^ 62.

#[export] Instance each_growth {S A} (f : A -> W S unit) l : (forall x, grows (f x)) -> grows (w_each f l) | 10.
Proof. intros. unfold w_each. by apply fold_growth. Qed.

#[export] Instance if_growth {S A} (c : bool) (m m' : W S A) : grows m -> grows m' -> grows (if c then m else m') | 10.
Proof. by destruct c. Qed.

#[export] Instance when_growth {S} c (m : W S unit) : grows m -> grows (w_when c m) | 10.
Proof. intros. unfold w_when. destruct c; apply _. Qed.

#[export] Instance option_growth {S A} (o : option A) (m : A -> W S unit) : (forall a, grows (m a)) -> grows (w_option o m) | 10.
Proof. intros. destruct o; simpl; apply _. Qed.

#[export] Instance wrap_growth {S A} msg (m : W S A) : grows m -> grows (w_wrap msg m) | 10.
Proof. intros Hm w. unfold w_wrap. specialize (Hm w). by destruct (m w). Qed.

Section Emits.
(** [strings] is the finished dictionary the reader is given. *)
Context {S : Type} (strings : list string).

Definition emits {A B} (m : W S A) (rd : R B) (post : A -> B -> Prop) : Prop :=
  forall w w' a, m w = (w', Ok a) -> flush w = None ->
    values (dict w') `prefix_of` strings -> table_ok (dict w) ->
    table_ok (dict w') /\
    exists out b, w_bytes w' = w_bytes w ++ out /\ post a b /\
                  forall rest, rd (out ++ rest) = Ok (b, rest).

(** The common case: the grows returns nothing. *)
Definition writes {B} (m : W S unit) (rd : R B) (b : B) : Prop := emits m rd (fun _ b' => b' = b).

Lemma emits_bind {A B A' B'} (m : W S A) (k : A -> W S A') (rd : R B) (rk : B -> R B') post post' :
  grows m -> (forall a, grows (k a)) ->
  emits m rd post -> (forall a b, post a b -> emits (k a) (rk b) post') ->
  emits (w_bind m k) (r_bind rd rk) post'.
Proof.
  intros Pm Pk Hm Hk w w' c H Hf Hp Hok. unfold w_bind in H.
  destruct (m w) as [w1 [a|e]] eqn:E; [|done].
  pose proof (Pm w) as (Hf1 & Hg1 & _). rewrite E in Hf1, Hg1. simpl in Hf1, Hg1.
  pose proof (Pk a w1) as (_ & Hg2 & _). rewrite H in Hg2. simpl in Hg2.
  destruct (Hm w w1 a E Hf) as (Hok1 & out1 & b & Hb1 & Hpost & Hr1); [by etrans|done|].
  destruct (Hk a b Hpost w1 w' c H) as (Hok2 & out2 & b2 & Hb2 & Hpost2 & Hr2);
    [by rewrite Hf1|done|done|].
  split; [done|]. exists (out1 ++ out2), b2. rewrite Hb2, Hb1, app_assoc.
  split_and!; [done|done|]. intros rest. unfold r_bind. by rewrite <- app_assoc, Hr1.
Qed.

Lemma emits_ret {A B} (a : A) (b : B) (post : A -> B -> Prop) : post a b -> emits (w_ret a) (r_ret b) post.
Proof.
  intros Hp w w' a' H Hf _ Hok. injection H as <- <-. split; [done|]. exists [], b.
  by rewrite app_nil_r.
Qed.

(** Steps that emit nothing are absorbed into what follows. *)
Lemma emits_lift {A A' B} (r : result A) (k : A -> W S A') (rd : R B) post :
  (forall a, r = Ok a -> emits (k a) rd post) -> emits (w_bind (w_lift r) k) rd post.
Proof.
  intros Hk w w' c H. unfold w_bind, w_lift in H. destruct r as [a|e]; [|done].
  exact (Hk a eq_refl w w' c H).
Qed.

Lemma emits_guard {A B} c e (k : unit -> W S A) (rd : R B) post :
  (c = false -> emits (k tt) rd post) -> emits (w_bind (w_guard c e) k) rd post.
Proof.
  intros Hk w w' a H. unfold w_bind, w_guard in H. destruct c; [done|].
  exact (Hk eq_refl w w' a H).
Qed.

(** A guard of the reader that does not fire. *)
Lemma emits_r_guard {A B} (m : W S A) c msg (rk : unit -> R B) post :
  c = false -> emits m (rk tt) post -> emits m (r_bind (r_guard c msg) rk) post.
Proof. intros -> H. exact H. Qed.

(** An error's wrapping. *)
Lemma emits_wrap {A B} msg (m : W S A) (rd : R B) post : emits m rd post -> emits (w_wrap msg m) rd post.
Proof.
  intros H w w' a Ha. apply (H w w' a). unfold w_wrap in Ha. destruct (m w) as [w1 r].
  injection Ha as -> Hr. apply wrap_err_ok in Hr. by subst r.
Qed.

(** Rebracketing. *)
Lemma emits_assoc {A1 A2 A3 B} (m : W S A1) (k1 : A1 -> W S A2) (k2 : A2 -> W S A3) (rd : R B) post :
  emits (w_bind m (fun a => w_bind (k1 a) k2)) rd post -> emits (w_bind (w_bind m k1) k2) rd post.
Proof.
  intros H w w' a Ha. apply (H w w' a). unfold w_bind in *. by destruct (m w) as [? []].
Qed.

Lemma emits_r_assoc {A B1 B2 B3} (m : W S A) (rd : R B1) (k1 : B1 -> R B2) (k2 : B2 -> R B3) post :
  emits m (r_bind rd (fun a => r_bind (k1 a) k2)) post -> emits m (r_bind (r_bind rd k1) k2) post.
Proof.
  intros H w w' a Ha Hf Hp Hok. destruct (H w w' a Ha Hf Hp Hok) as (Hok' & out & b & Hb & Hpost & Hr).
  split; [done|]. exists out, b. split_and!; [done|done|]. intros rest. rewrite <- Hr.
  unfold r_bind. by destruct (rd (out ++ rest)) as [[]|].
Qed.

(** A step of the reader that consumes nothing. *)
Lemma emits_r_step {A B1 B2} (m : W S A) (rd : R B1) (k : B1 -> R B2) b post :
  (forall input, rd input = Ok (b, input)) -> emits m (k b) post -> emits m (r_bind rd k) post.
Proof.
  intros Hb H w w' a Ha Hf Hp Hok. destruct (H w w' a Ha Hf Hp Hok) as (Hok' & out & b' & Hb' & Hpost & Hr).
  split; [done|]. exists out, b'. split_and!; [done|done|]. intros rest. rewrite <- Hr.
  unfold r_bind. by rewrite Hb.
Qed.

(** ** Primitives *)

Lemma emits_put v : is_u64 v -> writes (put_u64 v) cursor_u64 v.
Proof.
  intros Hv w w' a H Hf _ Hok. unfold put_u64, maybeFlush in H. simpl in H. rewrite Hf in H.
  injection H as <- _. split; [done|]. exists (uvarint_bytes 9 v), v. split_and!; [done|done|].
  intros rest. by apply cursor_u64_bytes.
Qed.

Lemma emits_signed v : is_i64 v -> writes (signed v) cursor_signed v.
Proof.
  intros Hv w w' a H Hf _ Hok. unfold signed, put_u64, maybeFlush in H. simpl in H. rewrite Hf in H.
  injection H as <- _. split; [done|]. exists (uvarint_bytes 9 (zigzag v)), v. split_and!; [done|done|].
  intros rest. by apply cursor_signed_bytes.
Qed.

Lemma emits_raw v : writes (raw v) (cursor_raw (len v)) v.
Proof.
  intros w w' a H Hf _ Hok. unfold raw, maybeFlush in H. simpl in H. rewrite Hf in H.
  injection H as <- _. split; [done|]. exists v, v. split_and!; [done|done|].
  intros rest. unfold cursor_raw, len. rewrite length_app, Nat2Z.id.
  destruct (Z.ltb_spec (Z.of_nat (length v + length rest)) (Z.of_nat (length v))); [lia|]. by rewrite take_app_length, drop_app_length.
Qed.

(** Writer and reader bind the same value. *)
Lemma writes_bind {A B B'} (m : W S unit) (k : unit -> W S A) (rd : R B) (rk : B -> R B') b post :
  grows m -> (forall a, grows (k a)) ->
  writes m rd b -> emits (k tt) (rk b) post -> emits (w_bind m k) (r_bind rd rk) post.
Proof.
  intros Pm Pk Hm Hk. eapply emits_bind; [done|done|exact Hm|]. by intros [] b' ->.
Qed.

(** The last statement of a grows, and the reader's final [Ok]. *)
Lemma writes_last {A B} (m : W S unit) (rd : R A) (f : A -> R B) a b :
  grows m -> writes m rd a -> f a = r_ret b -> writes m (r_bind rd f) b.
Proof.
  intros Pm Hm Hf w w' c H Hfl Hp Hok.
  destruct (Hm w w' c H Hfl Hp Hok) as (Hok' & out & a' & Hb & -> & Hr).
  split; [done|]. exists out, b. split_and!; [done|done|].
  intros rest. unfold r_bind. by rewrite Hr, Hf.
Qed.

Lemma is_u64_bool b : is_u64 (boolBit b).
Proof. unfold is_u64. destruct b; simpl; lia. Qed.

Lemma emits_bool b : writes (put_u64 (boolBit b)) cursor_boolean b.
Proof.
  eapply writes_last; [apply _|apply emits_put, is_u64_bool|]. by destruct b.
Qed.

Definition fits {A} (l : list A) : Prop := len l <= PACKED_COLLECTION_LIMIT.

Lemma emits_len {A} (l : list A) : fits l -> writes (put_len l) cursor_count (length l).
Proof.
  unfold fits, put_len, PACKED_COLLECTION_LIMIT. intros Hl.
  assert (is_u64 (len l)) as Hu by (unfold is_u64, len in *; lia).
  rewrite u64_id by done. eapply writes_last; [apply _|by apply emits_put|].
  replace (PACKED_COLLECTION_LIMIT <? len l) with false by (unfold PACKED_COLLECTION_LIMIT; lia).
  cbv beta delta [r_bind r_guard r_ret]. unfold len. by rewrite Nat2Z.id.
Qed.

(** [if cond] on both sides. *)
Lemma emits_when {B} c (m : W S unit) (rd : R B) b :
  (c = true -> writes m rd b) -> grows m ->
  writes (w_when c m) (r_when c rd) (if c then Some b else None).
Proof.
  intros Hm Pm. unfold w_when, r_when. destruct c; [|by apply emits_ret].
  eapply writes_last; [done|by apply Hm|done].
Qed.

Lemma emits_option {A B} (o : option A) (m : A -> W S unit) (rd : R B) (f : A -> B) :
  (forall a, grows (m a)) -> (forall a, o = Some a -> writes (m a) rd (f a)) ->
  writes (w_option o m) (r_when (bool_decide (is_Some o)) rd) (f <$> o).
Proof.
  intros Pm Hm. destruct o as [a|]; simpl.
  - eapply writes_last; [done|by apply Hm|done].
  - by apply emits_ret.
Qed.

(** ** Loops *)

(** [I] is what the loop state keeps. *)
Lemma emits_fold {A B St} (I : St -> Prop) (f : A -> St -> W S St) (rd : St -> R (B * St)) (g : A -> B) (l : list A) st :
  (forall x s, grows (f x s)) ->
  (forall x s, x ∈ l -> I s -> emits (f x s) (rd s) (fun s' r => snd r = s' /\ fst r = g x /\ I s')) ->
  I st ->
  emits (w_fold f l st) (r_fold (length l) rd st) (fun s' r => snd r = s' /\ fst r = map g l /\ I s').
Proof.
  intros Pf. revert st. induction l as [|x l IH]; intros st Hf HI; simpl; [by apply emits_ret|].
  eapply emits_bind; [apply _|apply _|apply Hf; [set_solver|done]|].
  intros s' [b s''] (Es & Eb & HI'). simpl in Es, Eb. subst s'' b. intros w w' a Ha Hfl Hp Hok.
  destruct (IH s' ltac:(intros; apply Hf; set_solver) HI' w w' a Ha Hfl Hp Hok)
    as (Hok' & out & [bs s3] & Hb & (Es & Eb & HI3) & Hr). simpl in Es, Eb. subst s3 bs.
  split; [done|]. exists out, (g x :: map g l, a). split; [done|]. split; [done|].
  intros rest. unfold r_bind. by rewrite Hr.
Qed.

Lemma emits_each {A B} (f : A -> W S unit) (rd : R B) (g : A -> B) (l : list A) :
  (forall x, grows (f x)) -> (forall x, x ∈ l -> writes (f x) rd (g x)) ->
  writes (w_each f l) (r_times (length l) rd) (map g l).
Proof.
  intros Pf Hf w w' a H Hfl Hp Hok.
  assert (emits (w_fold (fun x (_ : unit) => f x) l tt)
            (r_fold (length l) (fun _ : unit => let* b := rd in r_ret (b, tt)) tt)
            (fun s' r => snd r = s' /\ fst r = map g l /\ True)) as HF.
  { apply emits_fold; [done| |done]. intros x s Hx _ w1 w2 c H1 Hf1 Hp1 Hok1.
    destruct (Hf x Hx w1 w2 c H1 Hf1 Hp1 Hok1) as (Hok2 & out & b & Hb & -> & Hr).
    split; [done|]. exists out, (g x, tt). split; [done|]. split; [by destruct c|].
    intros rest. unfold r_bind. by rewrite Hr. }
  destruct (HF w w' a H Hfl Hp Hok) as (Hok' & out & [bs []] & Hb & (_ & Eb & _) & Hr).
  simpl in Eb. subst bs. split; [done|]. exists out, (map g l). split_and!; [done|done|].
  intros rest. unfold r_times, r_bind. by rewrite Hr.
Qed.
(** ** Strings *)

Context `{SD : !SmallDictionary strings}.

Lemma emits_intern {A B} v (k : Z -> W S A) (rd : R B) post :
  (forall i, grows (k i)) ->
  (forall i, 0 <= i < 2 ^ 62 -> lookup_string strings i = Ok (wire_text v) -> emits (k i) rd post) ->
  emits (w_bind (w_intern v) k) rd post.
Proof.
  intros Pk Hk w w' c H Hf Hp Hok. unfold w_bind, w_intern in H.
  destruct (intern (dict w) v) as [i d] eqn:E.
  set (w1 := mkWriter _ _ _ _ _ _ _) in H.
  pose proof (Pk i w1) as (_ & Hg & _). rewrite H in Hg. simpl in Hg.
  assert (values d `prefix_of` strings) as Hpd by (by etrans).
  pose proof (intern_size (dict w) v) as Hs. pose proof (intern_prefix (dict w) v) as Hpre.
  pose proof (intern_ok (dict w) v Hok) as Hok1. pose proof (intern_lookup (dict w) v strings Hok) as Hl.
  rewrite E in Hs, Hpre, Hok1, Hl. simpl in Hs, Hpre, Hok1, Hl.
  assert (table_size d <= len strings) as Hsz.
  { destruct Hpd as [x ->]. unfold table_size, len. rewrite length_app. lia. }
  pose proof (strings_small (strings := strings)) as Hsmall. specialize (Hl ltac:(lia) Hpd).
  assert (0 <= i < 2 ^ 62) as Hi.
  { unfold lookup_string in Hl. destruct (_ <=? i) eqn:Ei; [done|]. apply Z.leb_gt in Ei.
    unfold len in *. split; [|lia].
    pose proof (intern_index_u64 (dict w) v Hok ltac:(lia)) as Hu. rewrite E in Hu. apply Hu. }
  destruct (Hk i Hi Hl w1 w' c H Hf Hp (Hok1 ltac:(lia))) as (Hok2 & out & b & Hb & Hpost & Hr).
  split; [done|]. exists out, b. done.
Qed.

Lemma emits_text v : writes (text v) (string_index strings) (wire_text v).
Proof.
  unfold text. apply emits_intern; [apply _|]. intros i Hi Hl.
  eapply writes_last; [apply _|apply emits_put; unfold is_u64; lia|].
  unfold r_lift. by rewrite Hl.
Qed.

Lemma emits_name v : writes (text (wireSymbolName v)) (string_index strings) (wireSymbolName v).
Proof. pose proof (emits_text (wireSymbolName v)) as H. by rewrite wire_text_id in H by apply wireSymbolName_valid. Qed.

End Emits.

(** One bound statement, by its lemma; then the last one. *)
Ltac emit lem := eapply writes_bind; [apply _|apply _|apply lem; auto|]; cbv beta.
Ltac emit_last lem := eapply writes_last; [apply _|apply lem; auto|reflexivity].
