(* ===== verification/RowsRoundtrip.v ===== *)
(** * Row round trips

    Reading the rows a transition carries gives back the rows that were
    written, in the wire's normal form: text made valid UTF-8, symbol names in
    their public spelling, and only the fields the table schema carries. *)

From S2P Require Import Prelude GoStd GoText GoBytes StringTable Model Domain SymbolStore FactTable TransitionDiff Writer Rows Reader Emits.
Open Scope Z_scope.

(** ** Normal forms *)

Definition wire_location (l : Location) : Location := mkLocation (wire_text (Path l)) (StartByte l) (EndByte l).

Definition wire_declaration (d : Declaration) : Declaration :=
  mkDeclaration (wireSymbolName (decl_Name d)) (wire_text (decl_Kind d)) (wire_location (decl_Location d)).

Definition wire_descriptor (d : TypeDescriptor) : TypeDescriptor :=
  mkTypeDescriptor (wire_text (Text d)) (wire_text (td_OriginModule d)) (map wire_declaration (AliasDeclarations d)).

Definition wire_owner (o : DeclarationOwner) : DeclarationOwner :=
  mkDeclarationOwner (wire_text (own_Symbol o)) (wireSymbolName (own_Name o)) (wire_text (own_Kind o))
    (wire_location (own_Location o)).

Definition wire_resolved_declaration (d : ResolvedDeclaration) : ResolvedDeclaration :=
  mkResolvedDeclaration (wire_text (rd_Symbol d)) (wireSymbolName (rd_Name d)) (wire_text (rd_Kind d))
    (wire_location (rd_Location d)) (map wire_owner (Owners d)) (wire_text (QualifiedName d))
    (wire_text (rd_OriginModule d)) (wire_text (rd_SourceFile d)) (StandardLibrary d).

Definition wire_source_call (c : SourceCall) : SourceCall :=
  mkSourceCall (wire_location (sc_Location c)) (wire_location (Callee c)) (map wire_location (sc_Arguments c))
    (wire_text (sc_Target c)).

Definition wire_property (p : ObjectConstructionProperty) : ObjectConstructionProperty :=
  mkObjectConstructionProperty (wire_text (ocp_Name p)) (Witness p).

Definition wire_shape (shape : ObjectConstructionShape) : ObjectConstructionShape :=
  mkObjectConstructionShape (map wire_property (RequiredProperties shape)).

(** An optional field the schema [s] carries from [since] on. *)
Definition since {A} (s v : Z) (o : option A) : option A := if v <=? s then o else None.

Definition wire_parameter (s : Z) (p : ParameterFact) : ParameterFact :=
  mkParameterFact (pf_Index p) (wire_text (pf_Symbol p)) (wire_declaration <$> pf_Declaration p)
    (Rest p) (Optional p) (degrade_callability (pf_Callability p) s) (wire_descriptor <$> pf_TypeDescriptor p)
    (since s TypeFactsTableSchemaVersionV17 (wire_shape <$> ObjectShape p)).

Definition wire_argument (s : Z) (m : ArgumentMapping) : ArgumentMapping :=
  mkArgumentMapping (ArgumentIndex m) (Status m) (Unresolved m) (wire_parameter s <$> Parameter_ m).

Definition wire_targets (t : CallTargetSet) : CallTargetSet :=
  mkCallTargetSet (Exhaustive t) (map wire_resolved_declaration (Candidates t)).

Definition wire_call (s : Z) (c : Call) : Call :=
  mkCall (wire_text (call_Target c)) (wire_text (ReturnTypeText c)) (Validity c) (call_Kind c)
    (wire_resolved_declaration <$> call_Declaration c)
    (since s TypeFactsTableSchemaVersionV6 (wire_targets <$> Targets c))
    (map (wire_argument s) (call_Arguments c)).

(** ** Rows the wire can carry

    Byte offsets are ordered and non-negative, and no collection exceeds the
    reader's limit. *)

Definition location_ok (l : Location) : Prop := 0 <= StartByte l <= EndByte l /\ EndByte l < 2 ^ 63.
Definition locations_ok (l : list Location) : Prop := fits l /\ Forall location_ok l.
Definition declarations_ok (l : list Declaration) : Prop := fits l /\ Forall (fun d => location_ok (decl_Location d)) l.
Definition owners_ok (l : list DeclarationOwner) : Prop := fits l /\ Forall (fun o => location_ok (own_Location o)) l.
Definition resolved_declaration_ok (d : ResolvedDeclaration) : Prop :=
  location_ok (rd_Location d) /\ owners_ok (Owners d).
Definition source_call_ok (c : SourceCall) : Prop :=
  location_ok (sc_Location c) /\ location_ok (Callee c) /\ locations_ok (sc_Arguments c).

Definition descriptor_ok (d : TypeDescriptor) : Prop := declarations_ok (AliasDeclarations d).

Record parameter_ok (p : ParameterFact) : Prop := {
  pok_index : pf_Index p < 2 ^ 63;
  pok_declaration : when_some (fun d => location_ok (decl_Location d)) (pf_Declaration p);
  pok_descriptor : when_some descriptor_ok (pf_TypeDescriptor p);
  pok_shape : when_some (fun shape => fits (RequiredProperties shape)) (ObjectShape p);
}.

(** A candidate the reader accepts keeps a name after it is made valid
    text. *)
Definition candidate_ok (d : ResolvedDeclaration) : Prop :=
  resolved_declaration_ok d /\ ValidString (rd_Symbol d) = true.

Record call_ok (c : Call) : Prop := {
  cok_declaration : when_some resolved_declaration_ok (call_Declaration c);
  cok_targets : when_some (fun t => fits (Candidates t) /\ Forall candidate_ok (Candidates t)) (Targets c);
  cok_arguments : fits (call_Arguments c) /\
    Forall (fun m => ArgumentIndex m < 2 ^ 63 /\ when_some parameter_ok (Parameter_ m)) (call_Arguments c);
}.

(** ** Closed code spaces *)

(** A code and the parse table's answer to it. *)
Definition decodes {A} (code : result Z) (parse : Z -> R A) (a : A) : Prop :=
  forall k, code = Ok k -> is_u64 k /\ forall input, parse k input = Ok (a, input).

Ltac unfold_codes H :=
  unfold wireTransitionConstructionWitnessCode, wireTransitionValidityCode, wireTransitionCallKindCode,
    wireTransitionMappingStatusCode, wireTransitionMappingReasonCode, wireTransitionArrayShapeCode,
    wireTransitionReferenceSpaceCode in H; cbn [switch] in H.

Ltac codes :=
  intros k Hk; unfold_codes Hk;
  repeat match type of Hk with
  | context [String.eqb ?x ?y] => destruct (String.eqb_spec x y) as [->|]
  end; simplify_eq; (split; [unfold is_u64; lia|done]).

Lemma decodes_witness v : decodes (wireTransitionConstructionWitnessCode v) parse_construction_witness v.
Proof. codes. Qed.
Lemma decodes_validity v : decodes (wireTransitionValidityCode v) parse_resolved_call_validity v.
Proof. codes. Qed.
Lemma decodes_call_kind v : decodes (wireTransitionCallKindCode v) parse_call_kind v.
Proof. codes. Qed.
Lemma decodes_status v : decodes (wireTransitionMappingStatusCode v) parse_argument_mapping_status v.
Proof. codes. Qed.
Lemma decodes_array_shape v : decodes (wireTransitionArrayShapeCode v) parse_array_shape v.
Proof. codes. Qed.
Lemma decodes_reference_space v : decodes (wireTransitionReferenceSpaceCode v) parse_reference_space v.
Proof. codes. Qed.

Lemma decodes_callability v s :
  decodes (wireTransitionCallabilityCode v s) (fun k => parse_callability k s) (degrade_callability v s).
Proof.
  unfold wireTransitionCallabilityCode, parse_callability, decodes. intros k.
  destruct (TypeFactsTableSchemaVersionV15 <=? s) eqn:E.
  - simpl negb. rewrite andb_false_r. generalize (degrade_callability v s) as d. intros d. revert k. codes.
  - assert (degrade_callability v s <> CallabilityUntypedCallable) as Hne.
    { unfold degrade_callability. replace (s <? _) with true by lia.
      destruct (String.eqb_spec v CallabilityUntypedCallable); simpl; [discriminate|done]. }
    revert Hne. generalize (degrade_callability v s) as d. intros d Hne. revert k. codes.
Qed.

Lemma decodes_constructability v : decodes (wireTransitionConstructabilityCode v) parse_constructability v.
Proof.
  intros k Hk. unfold wireTransitionConstructabilityCode in Hk.
  repeat match type of Hk with
  | context [?x =? ?y] => destruct (Z.eqb_spec x y) as [->|]
  end; simplify_eq; (split; [unfold is_u64; lia|done]).
Qed.

(** A status and a reason the writer accepts together. *)
Lemma decodes_reason status k v reason :
  wireTransitionMappingStatusCode status = Ok k -> wireTransitionMappingReasonCode v = Ok reason ->
  xorb (k =? 0) (reason =? 0) = false ->
  is_u64 reason /\ forall input, parse_argument_mapping_reason status reason input = Ok (v, input).
Proof.
  intros Hk Hr Hx. unfold_codes Hk; unfold_codes Hr.
  repeat match type of Hk with
  | context [String.eqb ?x ?y] => destruct (String.eqb_spec x y) as [->|]
  end; simplify_eq;
  repeat match type of Hr with
  | context [String.eqb ?x ?y] => destruct (String.eqb_spec x y) as [->|]
  end; simplify_eq; try done; (split; [unfold is_u64; lia|done]).
Qed.

(** ** Flags *)

Lemma outside_small v n : 0 <= n -> 0 <= v < 2 ^ n -> outside v (Z.ones n) = false.
Proof.
  intros Hn Hv. unfold outside.
  replace (Z.land v (Z.lnot (Z.ones n))) with 0; [done|]. symmetry.
  apply Z.bits_inj'. intros k Hk. rewrite Z.land_spec, Z.lnot_spec, Z.bits_0 by done.
  destruct (decide (k < n)).
  - rewrite Z.ones_spec_low by lia. apply andb_false_r.
  - rewrite <- (Z.mod_small v (2 ^ n)) by lia. by rewrite Z.mod_pow2_bits_high by lia.
Qed.

Lemma or_flag_false bit f : or_flag false bit f = f.
Proof. done. Qed.

Ltac flag_range := repeat (apply or_flag_range; [lia|]); lia.

Section Roundtrip.
Context {S : Type} (strings : list string) `{SD : !SmallDictionary strings}.

(** What a location state keeps. *)
Definition state_ok (st : packedLocationState) : Prop := 0 <= st_start st < 2 ^ 63.

Lemma no_location_ok : state_ok no_location.
Proof. unfold state_ok. simpl. lia. Qed.

Definition located {A} (a : A) (st : packedLocationState) (r : A * packedLocationState) : Prop :=
  snd r = st /\ fst r = a /\ state_ok st.

Lemma emits_location l st :
  location_ok l -> state_ok st ->
  emits strings (internalLocation (S:=S) l st) (location strings st) (located (wire_location l)).
Proof.
  intros [[H1 H2] H3] Hst. unfold state_ok in Hst. unfold internalLocation. apply emits_intern; [apply _|apply _|].
  pose proof (strings_small (strings := strings)).
  intros i Hi Hl. rewrite u64_id by (unfold is_u64; lia).
  assert (i < len strings) as Hlen.
  { unfold lookup_string in Hl. destruct (_ <=? i) eqn:E; [done|]. unfold len. lia. }
  rewrite (i64_id (EndByte l - StartByte l)) by (unfold is_i64; lia).
  rewrite (u64_id (EndByte l - StartByte l)) by (unfold is_u64; lia).
  assert (emits strings
    (w_bind (S:=S) (put_u64 (EndByte l - StartByte l)) (fun _ => w_ret (mkLocationState i (StartByte l) true)))
    (let* length := cursor_u64 in
     let* end_byte := checked_u64 (StartByte l + length) "packed location end overflow" in
     let* p := r_lift (lookup_string strings i) in
     r_ret (mkLocation p (StartByte l) end_byte, mkLocationState i (StartByte l) true))
    (located (wire_location l))) as Htail.
  { eapply writes_bind; [apply _|apply _|apply emits_put; unfold is_u64; lia|].
    eapply emits_r_step.
    { intros input. unfold checked_u64. destruct (_ || _) eqn:E; [exfalso; lia|done]. }
    eapply emits_r_step; [intros input; unfold r_lift; by rewrite Hl|].
    apply emits_ret. unfold located, state_ok, wire_location. simpl. split_and!; [done| |lia|lia].
    f_equal. lia. }
  unfold location. destruct (st_valid st && (st_path st =? i)) eqn:E.
  - apply andb_prop in E as [Hv Hp]. apply Z.eqb_eq in Hp.
    apply emits_assoc. eapply writes_bind; [apply _|apply _|apply emits_put; unfold is_u64; lia|].
    change (Z.land 1 1 =? 1) with true. cbv iota. apply emits_r_assoc, emits_r_guard; [by rewrite Hv|].
    apply emits_r_assoc. rewrite (i64_id (StartByte l)), (i64_id (st_start st)), i64_id by (unfold is_i64; lia).
    eapply writes_bind; [apply _|apply _|apply emits_signed; unfold is_i64; lia|].
    apply emits_r_assoc. eapply emits_r_step.
    { intros input. unfold add_signed, checked_u64. destruct (_ || _) eqn:E; [exfalso; lia|done]. }
    eapply emits_r_step; [done|]. rewrite Hp.
    by replace (st_start st + (StartByte l - st_start st)) with (StartByte l) by lia.
  - assert (u64 (Z.shiftl i 1) = 2 * i) as ->
      by (rewrite Z.shiftl_mul_pow2 by lia; rewrite u64_id by (unfold is_u64; lia); lia).
    apply emits_assoc. eapply writes_bind; [apply _|apply _|apply emits_put; unfold is_u64; lia|].
    assert (Z.land (2 * i) 1 = 0) as -> by (rewrite land_1_mod; mlia). cbv iota beta.
    change (0 =? 1) with false. cbv iota.
    assert (Z.shiftr (2 * i) 1 = i) as -> by (rewrite Z.shiftr_div_pow2 by lia; mlia).
    apply emits_r_assoc, emits_r_guard; [lia|].
    apply emits_r_assoc. eapply writes_bind; [apply _|apply _|apply emits_put; unfold is_u64; lia|].
    eapply emits_r_step; [done|]. exact Htail.
Qed.

(** A length and the elements it announces, over a loop state. *)
Lemma emits_collection {A B St C B'} (I : St -> Prop) (f : A -> St -> W S St) (rd : St -> R (B * St))
    (g : A -> B) l st (k : St -> W S C) (rk : list B * St -> R B') post :
  fits l -> I st -> (forall x s, grows (f x s)) -> (forall s, grows (k s)) ->
  (forall x s, x ∈ l -> I s -> emits strings (f x s) (rd s) (fun s' r => snd r = s' /\ fst r = g x /\ I s')) ->
  (forall s, I s -> emits strings (k s) (rk (map g l, s)) post) ->
  emits strings (w_bind (put_len l) (fun _ => w_bind (w_fold f l st) k))
    (r_bind cursor_count (fun n => r_bind (r_fold n rd st) rk)) post.
Proof.
  intros Hfit HI Pf Pk Hf Hk. emit @emits_len.
  eapply emits_bind; [apply _|apply _|by apply (emits_fold strings I)|].
  intros s [bs s'] (Es & Eb & HI'). simpl in *. subst. by apply Hk.
Qed.

Lemma emits_items {A B} (f : A -> W S unit) (rd : R B) (g : A -> B) l C B' (k : unit -> W S C)
    (rk : list B -> R B') post :
  fits l -> (forall x, grows (f x)) -> (forall s, grows (k s)) ->
  (forall x, x ∈ l -> writes strings (f x) rd (g x)) ->
  emits strings (k tt) (rk (map g l)) post ->
  emits strings (w_bind (put_len l) (fun _ => w_bind (w_each f l) k))
    (r_bind cursor_count (fun n => r_bind (r_times n rd) rk)) post.
Proof.
  intros Hfit Pf Pk Hf Hk. emit @emits_len.
  eapply writes_bind; [apply _|apply _|by apply emits_each|done].
Qed.

Lemma emits_locations l :
  locations_ok l -> writes (S:=S) strings (internalLocations l) (locations strings) (map wire_location l).
Proof.
  intros [Hf Hl]. rewrite Forall_forall in Hl.
  apply (emits_collection state_ok) with (g := wire_location); auto using no_location_ok with typeclass_instances.
  - intros x s Hx Hs. apply emits_location; auto.
  - intros s _. by apply emits_ret.
Qed.

Lemma emits_declaration d st :
  location_ok (decl_Location d) -> state_ok st ->
  emits strings (internalDeclaration (S:=S) d st) (declaration strings st) (located (wire_declaration d)).
Proof.
  intros Hl Hst. unfold internalDeclaration, declaration. emit @emits_name. emit @emits_text.
  intros w w' a Ha Hf Hp Hok.
  destruct (emits_location _ st Hl Hst w w' a Ha Hf Hp Hok) as (Hok' & out & [b st'] & Hb & (E1 & E2 & HI) & Hr).
  simpl in E1, E2. subst. split; [done|]. exists out, (wire_declaration d, a). split_and!; [done|done|].
  intros rest. unfold r_bind. by rewrite Hr.
Qed.

Lemma emits_declarations l :
  declarations_ok l -> writes (S:=S) strings (internalDeclarations l) (declarations strings) (map wire_declaration l).
Proof.
  intros [Hf Hl]. rewrite Forall_forall in Hl.
  apply (emits_collection state_ok) with (g := wire_declaration); auto using no_location_ok with typeclass_instances.
  - intros x s Hx Hs. apply emits_declaration; auto.
  - intros s _. by apply emits_ret.
Qed.

Lemma emits_descriptor d :
  declarations_ok (AliasDeclarations d) ->
  writes (S:=S) strings (internalTypeDescriptor d) (type_descriptor strings) (wire_descriptor d).
Proof.
  intros Hd. unfold internalTypeDescriptor, type_descriptor. emit @emits_text. emit @emits_text.
  emit_last @emits_declarations.
Qed.

Lemma emits_owner o st :
  location_ok (own_Location o) -> state_ok st ->
  emits strings (internalOwner (S:=S) o st) (declaration_owner strings st) (located (wire_owner o)).
Proof.
  intros Hl Hst. unfold internalOwner, declaration_owner.
  emit @emits_text. emit @emits_name. emit @emits_text.
  intros w w' a Ha Hf Hp Hok.
  destruct (emits_location _ st Hl Hst w w' a Ha Hf Hp Hok) as (Hok' & out & [b st'] & Hb & (E1 & E2 & HI) & Hr).
  simpl in E1, E2. subst. split; [done|]. exists out, (wire_owner o, a). split_and!; [done|done|].
  intros rest. unfold r_bind. by rewrite Hr.
Qed.

(** A bound location. *)
Lemma emits_location_bind {C B} l st (k : packedLocationState -> W S C) (rk : Location * packedLocationState -> R B) post :
  location_ok l -> state_ok st -> (forall s, grows (k s)) ->
  (forall s, state_ok s -> emits strings (k s) (rk (wire_location l, s)) post) ->
  emits strings (w_bind (internalLocation l st) k) (r_bind (location strings st) rk) post.
Proof.
  intros Hl Hst Pk Hk. eapply emits_bind; [apply _|apply _|by apply emits_location|].
  intros s [b s'] (E1 & E2 & Hs). simpl in *. subst. by apply Hk.
Qed.

Lemma emits_resolved_declaration d :
  resolved_declaration_ok d ->
  writes (S:=S) strings (internalResolvedDeclaration d) (resolved_declaration strings) (wire_resolved_declaration d).
Proof.
  intros [Hl [Hf Ho]]. rewrite Forall_forall in Ho. unfold internalResolvedDeclaration, resolved_declaration.
  emit @emits_text. emit @emits_name. emit @emits_text.
  apply emits_location_bind; [done|apply no_location_ok|apply _|]. intros st Hst. cbn beta iota.
  apply (emits_collection state_ok) with (g := wire_owner); [done|done|apply _|apply _| |].
  { intros x s Hx Hs. apply emits_owner; auto. }
  intros s _. cbn beta iota. emit @emits_text. emit @emits_text. emit @emits_text. emit_last @emits_bool.
Qed.

Lemma emits_source_call c :
  source_call_ok c -> writes (S:=S) strings (internalSourceCall c) (source_call strings) (wire_source_call c).
Proof.
  intros (H1 & H2 & H3). unfold internalSourceCall, source_call.
  apply emits_location_bind; [done|apply no_location_ok|apply _|]. intros st Hst. cbn beta iota.
  apply emits_location_bind; [done|done|apply _|]. intros st' _. cbn beta iota.
  emit @emits_locations. emit_last @emits_text.
Qed.

(** A code and the value it stands for. *)
Lemma emits_code {A C B} (code : result Z) (parse : Z -> R A) a k (w : unit -> W S C) (rk : A -> R B) post :
  decodes code parse a -> code = Ok k -> (forall u, grows (w u)) ->
  emits strings (w tt) (rk a) post ->
  emits strings (w_bind (put_u64 k) w) (r_bind cursor_u64 (fun tag => r_bind (parse tag) rk)) post.
Proof.
  intros Hd Hk Pw H. destruct (Hd k Hk) as [Hu Hp]. emit @emits_put.
  eapply emits_r_step; [exact Hp|exact H].
Qed.

Lemma emits_code_last (A : Type) (code : result Z) (parse : Z -> R A) a k :
  decodes code parse a -> code = Ok k ->
  writes (S:=S) strings (put_u64 k) (r_bind cursor_u64 parse) a.
Proof.
  intros Hd Hk w w' u H Hf Hp Hok. destruct (Hd k Hk) as [Hu Hpk].
  destruct (emits_put strings k Hu w w' u H Hf Hp Hok) as (Hok' & out & b & Hb & -> & Hr).
  split; [done|]. exists out, a. split_and!; [done|done|]. intros rest. unfold r_bind. by rewrite Hr.
Qed.

Lemma emits_code_end {A B} (code : result Z) (parse : Z -> R A) a k (rk : A -> R B) b :
  decodes code parse a -> code = Ok k -> rk a = r_ret b ->
  writes (S:=S) strings (put_u64 k) (r_bind cursor_u64 (fun tag => r_bind (parse tag) rk)) b.
Proof.
  intros Hd Hk Hb w w' u H Hf Hp Hok. destruct (Hd k Hk) as [Hu Hpk].
  destruct (emits_put strings k Hu w w' u H Hf Hp Hok) as (Hok' & out & c & Hbs & -> & Hr).
  split; [done|]. exists out, b. split_and!; [done|done|]. intros rest. unfold r_bind.
  by rewrite Hr, Hpk, Hb.
Qed.

Lemma emits_property p :
  writes (S:=S) strings (object_property p) (object_construction_property strings) (wire_property p).
Proof.
  unfold object_property, object_construction_property. emit @emits_text.
  apply emits_lift. intros code Hc. apply wrap_err_ok in Hc.
  by eapply emits_code_end; [apply decodes_witness|exact Hc|].
Qed.

Lemma emits_shape shape :
  fits (RequiredProperties shape) ->
  writes (S:=S) strings (w_bind (put_len (RequiredProperties shape))
            (fun _ => w_each object_property (RequiredProperties shape)))
    (object_construction_shape strings) (wire_shape shape).
Proof.
  intros Hf. unfold object_construction_shape. emit @emits_len.
  eapply writes_last; [apply _| |done]. apply emits_each; [apply _|]. intros; apply emits_property.
Qed.

Lemma emits_parameter_declaration d :
  location_ok (decl_Location d) ->
  writes (S:=S) strings (parameter_declaration d) (read_parameter_declaration strings) (wire_declaration d).
Proof.
  intros Hl. unfold parameter_declaration, read_parameter_declaration, declaration.
  apply emits_r_assoc. emit @emits_name. apply emits_r_assoc. emit @emits_text. apply emits_r_assoc.
  apply emits_location_bind; [done|apply no_location_ok|apply _|]. intros st _. cbn beta iota.
  eapply emits_r_step; [done|]. by apply emits_ret.
Qed.

(** An optional part announced by a flag. *)
Lemma emits_flagged {A B C B'} (o : option A) (b : bool) (m : A -> W S unit) (rd : R B) (f : A -> B)
    (k : unit -> W S C) (rk : option B -> R B') post :
  b = bool_decide (is_Some o) -> (forall a, grows (m a)) -> (forall u, grows (k u)) ->
  when_some (fun a => writes strings (m a) rd (f a)) o ->
  emits strings (k tt) (rk (f <$> o)) post ->
  emits strings (w_bind (w_option o m) k) (r_bind (r_when b rd) rk) post.
Proof.
  intros -> Pm Pk Hm Hk. eapply writes_bind; [apply _|apply _|apply emits_option; [done|exact Hm]|exact Hk].
Qed.

Lemma parameter_flags_bits p s :
  has_flag (parameter_flags p s) 1 = bool_decide (is_Some (pf_Declaration p)) /\
  has_flag (parameter_flags p s) 2 = Rest p /\
  has_flag (parameter_flags p s) 4 = Optional p /\
  has_flag (parameter_flags p s) 8 = bool_decide (is_Some (pf_TypeDescriptor p)) /\
  has_flag (parameter_flags p s) 16 =
    (TypeFactsTableSchemaVersionV17 <=? s) && bool_decide (is_Some (ObjectShape p)) /\
  outside (parameter_flags p s) (if TypeFactsTableSchemaVersionV17 <=? s then 31 else 15) = false /\
  is_u64 (parameter_flags p s).
Proof.
  change 1 with (Z.shiftl 1 0) at 1. change 2 with (Z.shiftl 1 1) at 1. change 4 with (Z.shiftl 1 2) at 1.
  change 8 with (Z.shiftl 1 3) at 1. change 16 with (Z.shiftl 1 4) at 1.
  unfold parameter_flags. cbv zeta.
  unfold wireTransitionParameterHasDeclaration, wireTransitionParameterIsRest, wireTransitionParameterIsOptional,
    wireTransitionParameterHasTypeDescriptor, wireTransitionParameterHasObjectShape.
  split_and!; try solve [or_flag_bits].
  - destruct (TypeFactsTableSchemaVersionV17 <=? s).
    + apply (outside_small _ 5); [lia|]. flag_range.
    + apply (outside_small _ 4); [lia|]. rewrite andb_false_l, or_flag_false. flag_range.
  - match goal with |- is_u64 ?f => assert (0 <= f < 2 ^ 5) by flag_range end. unfold is_u64. lia.
Qed.

Lemma emits_parameter p s :
  parameter_ok p ->
  writes (S:=S) strings (writeWireTransitionParameter p s) (read_parameter strings s) (wire_parameter s p).
Proof.
  intros [H1 H2 H3 H4]. destruct (parameter_flags_bits p s) as (F1 & F2 & F4 & F8 & F16 & Fo & Fu).
  unfold writeWireTransitionParameter, read_parameter. apply emits_guard. intros Hi.
  apply emits_lift. intros c Hc. apply wrap_err_ok in Hc.
  rewrite (u64_id (pf_Index p)) by (unfold is_u64; lia).
  emit @emits_put; [unfold is_u64; lia|]. emit @emits_text. emit @emits_put.
  apply emits_r_guard; [done|].
  apply emits_flagged with (f := wire_declaration); [done|apply _|apply _| |].
  { intros d Hd. apply emits_parameter_declaration; auto. }
  eapply emits_code; [apply decodes_callability|exact Hc|apply _|].
  apply emits_flagged with (f := wire_descriptor); [done|apply _|apply _| |].
  { intros d Hd. apply emits_descriptor; auto. apply H3; auto. }
  eapply writes_last; [apply _| |]; cycle 1.
  - unfold wire_parameter. rewrite F2, F4. reflexivity.
  - rewrite F16. unfold since. destruct (TypeFactsTableSchemaVersionV17 <=? s); simpl andb; [|by apply emits_ret].
    apply emits_option; [apply _|]. intros shape Hs. apply emits_shape. auto.
Qed.

Lemma emits_argument m s :
  ArgumentIndex m < 2 ^ 63 -> when_some parameter_ok (Parameter_ m) ->
  writes (S:=S) strings (argument_mapping s m) (read_argument strings s) (wire_argument s m).
Proof.
  intros H1 H2. unfold argument_mapping, read_argument. apply emits_guard. intros Hi.
  apply emits_lift. intros status Hs. apply wrap_err_ok in Hs.
  apply emits_lift. intros reason Hr. apply wrap_err_ok in Hr. apply emits_guard. intros Hx.
  rewrite (u64_id (ArgumentIndex m)) by (unfold is_u64; lia).
  emit @emits_put; [unfold is_u64; lia|].
  eapply emits_code; [apply decodes_status|exact Hs|apply _|].
  destruct (decodes_reason _ _ _ _ Hs Hr Hx) as [Hu Hp].
  emit @emits_put. eapply emits_r_step; [exact Hp|].
  emit @emits_bool. eapply writes_last; [apply _| |reflexivity].
  apply emits_option; [apply _|]. intros p Hp'. apply emits_parameter. auto.
Qed.

Lemma emits_candidate d :
  candidate_ok d ->
  writes (S:=S) strings (target_candidate d) (read_candidate strings) (wire_resolved_declaration d).
Proof.
  intros [Hd Hv]. unfold target_candidate, read_candidate. apply emits_guard. intros Hs.
  eapply writes_last; [apply _|by apply emits_resolved_declaration|].
  unfold wire_resolved_declaration. simpl. rewrite wire_text_id by done. by rewrite Hs.
Qed.

Lemma emits_targets t :
  fits (Candidates t) -> Forall candidate_ok (Candidates t) ->
  writes (S:=S) strings (call_targets t) (read_targets strings) (wire_targets t).
Proof.
  intros Hf Hc. rewrite Forall_forall in Hc. unfold call_targets, read_targets.
  apply emits_guard. intros Hl. emit @emits_bool. emit @emits_len.
  apply emits_r_guard; [by destruct (Candidates t)|].
  eapply writes_last; [apply _| |reflexivity]. apply emits_each; [apply _|].
  intros; apply emits_candidate; auto.
Qed.

(** The target set, where the schema has one. *)
Lemma emits_call_targets {C B} (o : option CallTargetSet) s (k : unit -> W S C) (rk : option CallTargetSet -> R B) post :
  when_some (fun t => fits (Candidates t) /\ Forall candidate_ok (Candidates t)) o ->
  (forall u, grows (k u)) ->
  emits strings (k tt) (rk (since s TypeFactsTableSchemaVersionV6 (wire_targets <$> o))) post ->
  emits strings
    (w_bind (w_when (TypeFactsTableSchemaVersionV6 <=? s)
       (w_bind (put_u64 (boolBit (bool_decide (is_Some o)))) (fun _ => w_option o call_targets))) k)
    (let* targeted := (if TypeFactsTableSchemaVersionV6 <=? s then cursor_boolean else r_ret false) in
     r_bind (r_when targeted (read_targets strings)) rk) post.
Proof.
  intros Ho Pk Hk. unfold since in Hk. unfold w_when. destruct (TypeFactsTableSchemaVersionV6 <=? s).
  - apply emits_assoc. emit @emits_bool. apply emits_flagged with (f := wire_targets); [done|apply _|apply _| |done].
    intros t Ht. destruct (Ho t Ht). by apply emits_targets.
  - eapply emits_r_step; [done|]. eapply emits_r_step; [done|]. exact Hk.
Qed.

Lemma emits_call c s :
  call_ok c ->
  writes (S:=S) strings (writeWireTransitionResolvedCall c s) (resolved_call strings s) (wire_call s c).
Proof.
  intros [H1 H2 [H3 H4]]. rewrite Forall_forall in H4. unfold writeWireTransitionResolvedCall, resolved_call.
  apply emits_lift. intros validity Hv. apply emits_lift. intros kind Hk.
  emit @emits_text. emit @emits_text.
  eapply emits_code; [apply decodes_validity|exact Hv|apply _|].
  eapply emits_code; [apply decodes_call_kind|exact Hk|apply _|].
  emit @emits_bool. apply emits_flagged with (f := wire_resolved_declaration); [done|apply _|apply _| |].
  { intros d Hd. apply emits_resolved_declaration. auto. }
  apply emits_call_targets; [done|apply _|]. emit @emits_len. eapply writes_last; [apply _| |reflexivity].
  apply emits_each; [apply _|]. intros m Hm. destruct (H4 m Hm). by apply emits_argument.
Qed.
End Roundtrip.
