(* ===== verification/DictionaryRoundtrip.v ===== *)
(** * Dictionary round trip

    [appendPackedDictionary] against the reader's [decode_packed_strings]:
    prefix coding and raw digests. A text that only looks like a hashed symbol,
    with upper-case digits, comes back in lower case. *)

From S2P Require Import Prelude GoStd GoText GoBytes StringTable Model Writer Rows Reader Emits RowsRoundtrip.
Open Scope Z_scope.

(** An entry as the reader spells it. *)
Definition wire_entry (value : string) : string :=
  match packedHashedSymbol value with
  | Some digest => hashed_prefix +:+ bytes_string (hex_Encode digest)
  | None => value
  end.

Definition canonical_entry (value : string) : Prop := wire_entry value = value.

(** ** Common prefixes *)

Lemma common_prefix_bytes previous value :
  take (commonStringPrefix previous value) (string_bytes previous) ++
  string_bytes (string_drop (commonStringPrefix previous value) value) = string_bytes value.
Proof.
  revert value. induction previous as [|a previous IH]; intros [|b value]; simpl; try done.
  destruct (Ascii.eqb_spec a b) as [->|]; [|done]. simpl. by rewrite IH.
Qed.

Lemma common_prefix_bounds previous value :
  (commonStringPrefix previous value <= String.length previous)%nat /\
  (commonStringPrefix previous value <= String.length value)%nat.
Proof.
  revert value. induction previous as [|a previous IH]; intros [|b value]; simpl; try lia.
  destruct (Ascii.eqb a b); [|lia]. destruct (IH value). simpl. lia.
Qed.

Lemma string_drop_length n s : String.length (string_drop n s) = (String.length s - n)%nat.
Proof. revert s. induction n as [|n IH]; intros [|c s]; simpl; auto. Qed.

(** ** Hashed symbols *)

Lemma prefix_split p s : String.prefix p s = true -> s = p +:+ string_drop (String.length p) s.
Proof.
  revert s. induction p as [|a p IH]; intros s H; [done|]. destruct s as [|b s]; [done|]. simpl in H.
  destruct (Ascii.ascii_dec a b) as [->|]; [|done]. simpl.
  change (String b p +:+ ?x) with (String b (p +:+ x)). by rewrite <- IH.
Qed.

Lemma packedHashedSymbol_spec s digest :
  packedHashedSymbol s = Some digest ->
  s = hashed_prefix +:+ string_drop 9 s /\ String.length (string_drop 9 s) = 24%nat /\
  hex_Decode (string_bytes (string_drop 9 s)) = Some digest /\ length digest = 12%nat /\ Forall is_byte digest.
Proof.
  unfold packedHashedSymbol. change (String.length hashed_prefix) with 9%nat.
  destruct (String.prefix hashed_prefix s) eqn:Hp; [|done]. simpl negb.
  destruct (Nat.eqb_spec (String.length s) 33) as [Hl|]; cbn [orb negb]; [|done]. intros Hd.
  destruct (hex_Decode_bytes _ _ Hd) as [Hb Hlen]. rewrite string_bytes_length, string_drop_length in Hlen.
  split; [exact (prefix_split _ _ Hp)|]. rewrite string_drop_length. split_and!; [lia|done|lia|done].
Qed.

(** Lower-case digits are kept. *)
Lemma wire_entry_lower s :
  forallb lower_hex (string_bytes (string_drop 9 s)) = true -> canonical_entry s.
Proof.
  intros Hlow. unfold canonical_entry, wire_entry. destruct (packedHashedSymbol s) as [digest|] eqn:E; [|done].
  destruct (packedHashedSymbol_spec _ _ E) as (Hs & _ & Hd & _). 
  rewrite (hex_Encode_Decode _ _ Hlow Hd), bytes_string_bytes. by symmetry.
Qed.

(** ** The round trip *)

#[export] Instance entry_growth {S} value previous : grows (S:=S) (dictionary_entry value previous).
Proof. unfold dictionary_entry. destruct (packedHashedSymbol value); apply _. Qed.

Lemma emits_entry {S} (strings : list string) value previous :
  ValidString value = true -> Z.of_nat (String.length value) < 2 ^ 64 -> Z.of_nat (String.length previous) < 2 ^ 64 ->
  emits (S:=S) strings (dictionary_entry value previous) (read_packed_string previous)
    (fun p r => snd r = p /\ fst r = wire_entry value /\ (p = previous \/ p = value)).
Proof.
  intros Hv Hl Hp. unfold dictionary_entry, read_packed_string, wire_entry.
  destruct (packedHashedSymbol value) as [digest|] eqn:E.
  - destruct (packedHashedSymbol_spec _ _ E) as (_ & _ & _ & Hlen & _).
    emit @emits_put; [unfold is_u64; lia|]. cbn [Z.eqb Pos.eqb].
    eapply writes_bind; [apply _|apply _| |].
    { pose proof (emits_raw (S:=S) strings digest) as Hr. unfold len in Hr. rewrite Hlen in Hr. exact Hr. }
    apply emits_ret. simpl. auto.
  - emit @emits_put; [unfold is_u64; lia|]. cbn [Z.eqb Pos.eqb]. cbv zeta.
    destruct (common_prefix_bounds previous value) as [Hb1 Hb2].
    set (n := commonStringPrefix previous value) in *.
    rewrite (u64_id (Z.of_nat n)) by (unfold is_u64; lia).
    pose proof (string_drop_length n value) as Hd.
    rewrite (u64_id (Z.of_nat (String.length (string_drop n value)))) by (unfold is_u64; lia).
    emit @emits_put; [unfold is_u64; lia|].
    apply emits_r_guard; [unfold len; rewrite string_bytes_length; lia|].
    emit @emits_put; [unfold is_u64; lia|].
    eapply writes_bind; [apply _|apply _| |].
    { pose proof (emits_raw (S:=S) strings (string_bytes (string_drop n value))) as Hr.
      unfold len in Hr. rewrite string_bytes_length in Hr. exact Hr. }
    rewrite Nat2Z.id. unfold n. rewrite common_prefix_bytes, bytes_string_bytes.
    apply emits_r_guard; [by rewrite Hv|]. apply emits_ret. simpl. auto.
Qed.

#[export] Instance dictionary_growth {S} l : grows (S:=S) (appendPackedDictionary l).
Proof. unfold appendPackedDictionary. apply _. Qed.

(** The strings a dictionary holds: valid text, and shorter than a word
    counts. *)
Definition dictionary_ok (l : list string) : Prop :=
  fits l /\ Forall (fun s => ValidString s = true /\ Z.of_nat (String.length s) < 2 ^ 64) l.

Lemma emits_dictionary {S} (strings : list string) l :
  dictionary_ok l ->
  writes (S:=S) strings (appendPackedDictionary l) decode_packed_strings (map wire_entry l).
Proof.
  intros [Hf Hl]. rewrite Forall_forall in Hl. unfold appendPackedDictionary, decode_packed_strings.
  apply (emits_collection strings (fun p => Z.of_nat (String.length p) < 2 ^ 64)) with (g := wire_entry);
    [done|simpl; lia|apply _|apply _| |].
  - intros x previous Hx Hp. destruct (Hl x Hx) as [Hv Hlen].
    intros w w' a H Hfl Hpre Hok.
    destruct (emits_entry strings x previous Hv Hlen Hp w w' a H Hfl Hpre Hok)
      as (Hok' & out & b & Hb & (E1 & E2 & E3) & Hr).
    split; [done|]. exists out, b. split_and!; try done. by destruct E3 as [->| ->].
  - intros p _. by apply emits_ret.
Qed.
