(* ===== verification/EntityRoundtrip.v ===== *)
(** * Entity round trip

    The optional fields of an entity row and its flag word, and the round trip
    of a whole run. *)

From S2P Require Import Prelude GoStd GoText GoBytes StringTable Model Domain SymbolStore FactTable TransitionDiff Writer Rows Reader Emits RowsRoundtrip.
Open Scope Z_scope.

(** ** Normal forms *)

Definition wire_constant (v : ConstantValue) : ConstantValue :=
  if String.eqb (cv_Kind v) ConstantValueString
  then mkConstantValue ConstantValueString (wire_text (cv_String v)) 0
  else mkConstantValue ConstantValueNumber "" (cv_Number v).

Definition wire_literal (c : PrimitiveLiteralCandidate) : PrimitiveLiteralCandidate :=
  if String.eqb (plc_Kind c) PrimitiveLiteralString
  then mkPrimitiveLiteralCandidate PrimitiveLiteralString (wire_text (plc_String c)) 0 false
  else if String.eqb (plc_Kind c) PrimitiveLiteralNumber
  then mkPrimitiveLiteralCandidate PrimitiveLiteralNumber "" (plc_Number c) false
  else mkPrimitiveLiteralCandidate PrimitiveLiteralBoolean "" 0 (plc_Boolean c).

(** Before schema 13 the exact length is not carried. *)
Definition wire_tuple (s : Z) (t : TupleShape) : TupleShape :=
  let known := (TypeFactsTableSchemaVersionV13 <=? s) && ExactLengthKnown t in
  mkTupleShape (FixedLength t) (if known then ExactLength t else 0) known (HasRest t)
    (degrade_callability (tuple_element_zero t) s) (ElementZeroMinimumParameters t).

(** An entity as the schema [s] carries it. *)
Definition wire_entity (s : Z) (e : EntityFact) : EntityFact :=
  {| ef_Location := wire_location (ef_Location e);
     ef_Symbol := wire_text (ef_Symbol e);
     SymbolUnresolved := writes_unresolved e s;
     ef_TypeDescriptor := wire_descriptor <$> ef_TypeDescriptor e;
     ResolvedCall := wire_call s <$> ResolvedCall e;
     ef_Callability := degrade_callability (ef_Callability e) s;
     ef_RuntimeValueDomain := ef_RuntimeValueDomain e;
     ef_PrimitiveValueDomain :=
       if writes_primitive_value_domain e s then ef_PrimitiveValueDomain e else mkPrimitiveValueDomain 0;
     PrimitiveLiteralCandidates :=
       if writes_literal_candidates e s then map wire_literal (PrimitiveLiteralCandidates e) else [];
     ef_Constructability := if writes_constructability e s then ef_Constructability e else ConstructabilityAbsent;
     CallResultDomain := since s TypeFactsTableSchemaVersionV7 (CallResultDomain e);
     ef_ConstantValue := since s TypeFactsTableSchemaVersionV8 (wire_constant <$> ef_ConstantValue e);
     ef_ArrayShape := if writes_array_shape e s then ef_ArrayShape e else EmptyString;
     ef_TupleShape := since s TypeFactsTableSchemaVersionV11 (wire_tuple s <$> ef_TupleShape e);
     LibraryTypes := if writes_library_types e s then Some (map wire_text (library_types e)) else None;
     ef_ReferenceSpace := ef_ReferenceSpace e;
     RuntimeIdentity := wire_text (RuntimeIdentity e) |}.

(** ** Rows the wire can carry *)

Definition constant_ok (v : ConstantValue) : Prop := is_u64 (cv_Number v) /\ is_nan (cv_Number v) = false.
Definition tuple_ok (t : TupleShape) : Prop :=
  FixedLength t < 2 ^ 28 /\ ElementZeroMinimumParameters t < 2 ^ 32 /\ ExactLength t < 2 ^ 32 - 1.

Record entity_ok (e : EntityFact) : Prop := {
  eok_end : EndByte (ef_Location e) < 2 ^ 63;
  eok_descriptor : when_some descriptor_ok (ef_TypeDescriptor e);
  eok_call : when_some call_ok (ResolvedCall e);
  eok_domain : IsPresent (ef_PrimitiveValueDomain e) = true -> domain_ok (ef_PrimitiveValueDomain e);
  eok_constant : when_some constant_ok (ef_ConstantValue e);
  eok_tuple : when_some tuple_ok (ef_TupleShape e);
  eok_library : len (library_types e) < 2 ^ 64;
  eok_literals : len (PrimitiveLiteralCandidates e) <= 32 /\
    Forall (fun c => is_u64 (plc_Number c)) (PrimitiveLiteralCandidates e);
}.

(** The table schemas both sides know. *)
Definition known_schema (s : Z) : Prop := s ∈ [4; 5; 6; 7; 8; 9; 11; 12; 13; 14; 15; 16; 17].

(** ** Flags *)

Ltac unfold_entity_bits :=
  unfold wireTransitionEntityHasTypeDescriptor, wireTransitionEntityHasResolvedCall,
    wireTransitionEntityHasCallability, wireTransitionEntityHasReferenceSpace,
    wireTransitionEntityHasRuntimeIdentity, wireTransitionEntityHasRuntimeValueDomain,
    wireTransitionEntitySymbolUnresolved, wireTransitionEntityHasCallResultDomain,
    wireTransitionEntityHasConstantValue, wireTransitionEntityHasArrayShape,
    wireTransitionEntityHasTupleShape, wireTransitionEntityHasLibraryTypes,
    wireTransitionEntityHasPrimitiveValueDomain, wireTransitionEntityHasConstructability,
    wireTransitionEntityHasPrimitiveLiteralCandidates.

Lemma entity_flags_range e s : 0 <= entity_flags e s < 2 ^ 15.
Proof. unfold entity_flags. cbv zeta. unfold_entity_bits. flag_range. Qed.

Lemma entity_flags_bits e s :
  has_flag (entity_flags e s) (Z.shiftl 1 0) = bool_decide (is_Some (ef_TypeDescriptor e)) /\
  has_flag (entity_flags e s) (Z.shiftl 1 1) = bool_decide (is_Some (ResolvedCall e)) /\
  has_flag (entity_flags e s) (Z.shiftl 1 2) = negb (String.eqb (ef_Callability e) "") /\
  has_flag (entity_flags e s) (Z.shiftl 1 3) = negb (String.eqb (ef_ReferenceSpace e) "") /\
  has_flag (entity_flags e s) (Z.shiftl 1 4) = negb (String.eqb (RuntimeIdentity e) "") /\
  has_flag (entity_flags e s) (Z.shiftl 1 5) = bool_decide (is_Some (ef_RuntimeValueDomain e)) /\
  has_flag (entity_flags e s) (Z.shiftl 1 6) = writes_unresolved e s /\
  has_flag (entity_flags e s) (Z.shiftl 1 7) = writes_call_result_domain e s /\
  has_flag (entity_flags e s) (Z.shiftl 1 8) = writes_constant_value e s /\
  has_flag (entity_flags e s) (Z.shiftl 1 9) = writes_array_shape e s /\
  has_flag (entity_flags e s) (Z.shiftl 1 10) = writes_tuple_shape e s /\
  has_flag (entity_flags e s) (Z.shiftl 1 11) = writes_library_types e s /\
  has_flag (entity_flags e s) (Z.shiftl 1 12) = writes_primitive_value_domain e s /\
  has_flag (entity_flags e s) (Z.shiftl 1 13) = writes_constructability e s /\
  has_flag (entity_flags e s) (Z.shiftl 1 14) = writes_literal_candidates e s.
Proof.
  unfold entity_flags. cbv zeta. unfold_entity_bits. split_and!; or_flag_bits.
Qed.

(** Before the schema that carries a field its flag is not set. *)
Ltac known_flags n :=
  repeat match goal with
  | |- context [Z.leb ?a ?b] => let v := eval vm_compute in (Z.leb a b) in change (Z.leb a b) with v
  end;
  rewrite ?andb_false_l, ?or_flag_false;
  apply (outside_small _ n); [lia|unfold_entity_bits; flag_range].

Lemma entity_flags_known e s : known_schema s -> outside (entity_flags e s) (known_entity_flags s) = false.
Proof.
  unfold known_schema. rewrite !elem_of_cons, elem_of_nil. intros H.
  unfold entity_flags. cbv zeta.
  unfold writes_unresolved, writes_call_result_domain, writes_constant_value, writes_array_shape,
    writes_tuple_shape, writes_library_types, writes_primitive_value_domain, writes_constructability,
    writes_literal_candidates.
  destruct H as [->|H]; [known_flags 6|]. do 2 (destruct H as [->|H]; [known_flags 7|]).
  destruct H as [->|H]; [known_flags 8|]. destruct H as [->|H]; [known_flags 9|].
  destruct H as [->|H]; [known_flags 10|]. destruct H as [->|H]; [known_flags 11|].
  destruct H as [->|H]; [known_flags 12|]. destruct H as [->|H]; [known_flags 13|].
  do 2 (destruct H as [->|H]; [known_flags 14|]). do 2 (destruct H as [->|H]; [known_flags 15|]). done.
Qed.

(** ** The primitive domain's word

    Every present well-formed word is the unknown one or one of the 1,024 words
    of ten bits, which are checked one by one. *)

Definition domain_word_reads (b : Z) : bool :=
  let w := wireTransitionPrimitiveValueDomainBits (mkPrimitiveValueDomain b) in
  (0 <=? w) && (w <? 2 ^ 10) &&
  match parse_primitive_value_domain w [] with
  | Ok (d, _) => bits d =? b
  | Err _ => false
  end.

Lemma domain_words_read :
  forallb (fun b => implb (closedb (mkPrimitiveValueDomain b)) (domain_word_reads b))
    (map Z.of_nat (seq 0 1024)) = true.
Proof. vm_compute. reflexivity. Qed.

Lemma closed_closedb d : closed d -> closedb d = true.
Proof.
  intros ([? ?] & Hf & He). unfold closedb. rewrite He, Bool.eqb_reflx.
  replace (0 <? bits d) with true by lia. replace (bits d <? 2 ^ 10) with true by lia.
  destruct (kind 8 d); [by rewrite Hf|done].
Qed.

Lemma domain_word_spec b input :
  domain_word_reads b = true ->
  is_u64 (wireTransitionPrimitiveValueDomainBits (mkPrimitiveValueDomain b)) /\
  parse_primitive_value_domain (wireTransitionPrimitiveValueDomainBits (mkPrimitiveValueDomain b)) input =
  Ok (mkPrimitiveValueDomain b, input).
Proof.
  unfold domain_word_reads. generalize (wireTransitionPrimitiveValueDomainBits (mkPrimitiveValueDomain b)) as w.
  intros w Hr. apply andb_prop in Hr as [Hw Hr]. apply andb_prop in Hw as [H1 H2].
  apply Z.leb_le in H1. apply Z.ltb_lt in H2. split; [unfold is_u64; lia|].
  unfold parse_primitive_value_domain, r_bind, r_guard, r_ret, r_fail in *.
  destruct (outside w 1023); [done|]. apply Z.eqb_eq in Hr. do 2 f_equal. revert Hr.
  generalize (if has_flag w 256 then UnknownPrimitiveValueDomain else NewPrimitiveValueDomain (has_flag w 1)
    (has_flag w 2) (has_flag w 4) (has_flag w 8) (has_flag w 16) (has_flag w 32) (has_flag w 64)
    (has_flag w 128) (has_flag w 512)). by intros [b'] <-.
Qed.

Lemma domain_decode d input :
  domain_ok d -> IsPresent d = true ->
  is_u64 (wireTransitionPrimitiveValueDomainBits d) /\
  parse_primitive_value_domain (wireTransitionPrimitiveValueDomainBits d) input = Ok (d, input).
Proof.
  intros Hd Hp. destruct Hd as [Hz|[->|Hc]].
  { unfold IsPresent in Hp. by rewrite Hz in Hp. }
  { split; [unfold is_u64; vm_compute; intuition congruence|reflexivity]. }
  pose proof domain_words_read as H. rewrite forallb_forall in H.
  pose proof Hc as ([? ?] & _ & _). specialize (H (bits d)).
  rewrite (closed_closedb (mkPrimitiveValueDomain (bits d))) in H by (by destruct d). simpl implb in H.
  assert (domain_word_reads (bits d) = true) as Hr.
  { apply H. apply in_map_iff. exists (Z.to_nat (bits d)). split; [lia|]. apply in_seq. lia. }
  destruct (domain_word_spec (bits d) input Hr) as [Hu Hw]. by destruct d.
Qed.

(** ** Parts of a row *)
Section Entity.
Context {S : Type} (strings : list string) `{SD : !SmallDictionary strings}.

(** A flagged code. *)
Lemma emits_code_when {A C B} (b b' : bool) (code : result Z) (parse : Z -> R A) a k
    (w : unit -> W S C) (rk : option A -> R B) post :
  b' = b -> (b = true -> decodes code parse a /\ code = Ok k) -> (forall u, grows (w u)) ->
  emits strings (w tt) (rk (if b then Some a else None)) post ->
  emits strings (w_bind (w_when b (put_u64 k)) w)
    (r_bind (r_when b' (let* tag := cursor_u64 in parse tag)) rk) post.
Proof.
  intros -> Hd Pw H. eapply writes_bind; [apply _|apply _| |exact H]. apply emits_when; [|apply _].
  intros Hb. destruct (Hd Hb). by eapply emits_code_last.
Qed.

Lemma runtime_bits_decode d input :
  is_u64 (wireTransitionRuntimeValueDomainBits d) /\
  parse_runtime_value_domain (wireTransitionRuntimeValueDomainBits d) input = Ok (d, input).
Proof. destruct d as [[] [] [] []]; (split; [unfold is_u64; vm_compute; intuition congruence|reflexivity]). Qed.

Lemma emits_runtime_domain d :
  writes (S:=S) strings (put_u64 (wireTransitionRuntimeValueDomainBits d))
    (let* v := cursor_u64 in parse_runtime_value_domain v) d.
Proof.
  apply (emits_code_last strings RuntimeValueDomain (Ok (wireTransitionRuntimeValueDomainBits d))); [|done].
  intros k [= <-]. split; [apply (runtime_bits_decode d [])|apply runtime_bits_decode].
Qed.

Lemma emits_constant v :
  constant_ok v -> writes (S:=S) strings (constant_value v) (read_constant_value strings) (wire_constant v).
Proof.
  intros [Hu Hn]. unfold constant_value, read_constant_value, wire_constant.
  destruct (String.eqb_spec (cv_Kind v) ConstantValueString) as [E|].
  - emit @emits_put; [unfold is_u64; lia|]. emit_last @emits_text.
  - destruct (String.eqb (cv_Kind v) ConstantValueNumber); [|by intros w w' a ?].
    emit @emits_put; [unfold is_u64; lia|]. cbn [Z.eqb Pos.eqb].
    eapply writes_last; [apply _|by apply emits_put|]. unfold r_guard. by rewrite Hn.
Qed.

Lemma emits_literal c :
  is_u64 (plc_Number c) ->
  writes (S:=S) strings (literal_candidate c) (read_literal_candidate strings) (wire_literal c).
Proof.
  intros Hu. unfold literal_candidate, read_literal_candidate, wire_literal.
  destruct (String.eqb (plc_Kind c) PrimitiveLiteralString).
  { emit @emits_put; [unfold is_u64; lia|]. emit_last @emits_text. }
  destruct (String.eqb (plc_Kind c) PrimitiveLiteralNumber).
  { apply emits_guard. intros Hn. emit @emits_put; [unfold is_u64; lia|]. cbn [Z.eqb Pos.eqb].
    eapply writes_last; [apply _|by apply emits_put|]. unfold r_guard. by rewrite Hn. }
  destruct (String.eqb (plc_Kind c) PrimitiveLiteralBoolean); [|by intros w w' a ?].
  emit @emits_put; [unfold is_u64; lia|]. cbn [Z.eqb Pos.eqb].
  eapply writes_last; [apply _| |done].
  pose proof (emits_bool (S:=S) strings (plc_Boolean c)) as H. by destruct (plc_Boolean c).
Qed.

Lemma emits_literals l :
  len l <= 32 -> Forall (fun c => is_u64 (plc_Number c)) l ->
  writes (S:=S) strings (w_bind (put_len l) (fun _ => w_each literal_candidate l))
    (read_literal_candidates strings) (map wire_literal l).
Proof.
  intros Hl Hc. rewrite Forall_forall in Hc. unfold read_literal_candidates, put_len.
  assert (is_u64 (len l)) as Hu by (unfold is_u64, len in *; lia). rewrite u64_id by done.
  emit @emits_put. apply emits_r_guard; [lia|]. unfold len at 1. rewrite Nat2Z.id.
  apply emits_each; [apply _|]. intros; apply emits_literal; auto.
Qed.

Lemma emits_library l :
  len l < 2 ^ 64 ->
  writes (S:=S) strings (w_bind (put_len l) (fun _ => w_each text l)) (read_library_types strings) (map wire_text l).
Proof.
  intros Hl. unfold read_library_types, put_len.
  assert (is_u64 (len l)) as Hu by (unfold is_u64, len in *; lia). rewrite u64_id by done.
  emit @emits_put. unfold len. rewrite Nat2Z.id. apply emits_each; [apply _|]. intros; apply emits_text; auto.
Qed.

Lemma shiftl_1 n : Z.shiftl n 1 = 2 * n.
Proof. rewrite Z.shiftl_mul_pow2 by lia. lia. Qed.

Lemma emits_tuple t code s :
  tuple_ok t -> tuple_code t s = Ok code ->
  writes (S:=S) strings (tuple_shape t code s) (read_tuple_shape s) (wire_tuple s t).
Proof.
  intros (H1 & H2 & H3) Hc. unfold tuple_code in Hc. apply result_bind_ok in Hc as (c & Hc & Hn).
  apply wrap_err_ok in Hc. destruct (_ || _) eqn:E in Hn; [done|]. simplify_eq.
  apply orb_false_elim in E as [E E3]. apply orb_false_elim in E as [E1 E2].
  unfold tuple_shape, read_tuple_shape. cbv zeta.
  rewrite (u64_id (FixedLength t)) by (unfold is_u64; lia). rewrite shiftl_1.
  rewrite (u64_id (2 * FixedLength t)) by (unfold is_u64; lia).
  rewrite (u64_id (ElementZeroMinimumParameters t)) by (unfold is_u64; lia).
  rewrite (u64_id (ExactLength t)) by (unfold is_u64; lia).
  rewrite (u64_id (ExactLength t + 1)) by (unfold is_u64; lia).
  set (packed := if HasRest t then Z.lor (2 * FixedLength t) 1 else 2 * FixedLength t).
  assert (packed = 2 * FixedLength t + bool_bit (HasRest t)) as Hpk.
  { unfold packed, bool_bit. destruct (HasRest t); [|lia].
    rewrite <- (shiftl_1 (FixedLength t)) at 1. rewrite Z.lor_comm, lor_shiftl_add by lia. lia. }
  assert (0 <= bool_bit (HasRest t) < 2) by (destruct (HasRest t); simpl; lia).
  assert (Z.shiftr packed 1 = FixedLength t) as Hs by (rewrite Z.shiftr_div_pow2 by lia; mlia).
  assert (negb (Z.land packed 1 =? 0) = HasRest t) as Hl.
  { rewrite land_1_mod, Hpk. replace ((2 * FixedLength t + bool_bit (HasRest t)) mod 2) with (bool_bit (HasRest t)) by mlia.
    by destruct (HasRest t). }
  emit @emits_put; [unfold is_u64; lia|].
  eapply emits_code; [apply decodes_callability|exact Hc|apply _|].
  unfold cursor_u32. apply emits_r_assoc. emit @emits_put; [unfold is_u64; lia|].
  apply emits_r_assoc, emits_r_guard; [lia|]. eapply emits_r_step; [done|].
  rewrite Hs, Hl. unfold wire_tuple, TypeFactsTableSchemaVersionV13.
  destruct (13 <=? s); simpl andb; unfold w_when.
  - unfold read_exact_length. apply emits_r_assoc.
    eapply writes_last; [apply _|apply emits_put; unfold is_u64; destruct (ExactLengthKnown t); lia|].
    destruct (ExactLengthKnown t).
    + replace (ExactLength t + 1 =? 0) with false by lia.
      unfold r_bind, r_guard, r_ret, r_fail. replace (2 ^ 32 <=? ExactLength t + 1 - 1) with false by lia.
      replace (2 ^ 32 <=? FixedLength t) with false by lia.
      replace (2 ^ 28 - 1 <? FixedLength t) with false by lia.
      replace (2 ^ 32 <=? ExactLength t + 1 - 1 + 1) with false by lia. simpl.
      by replace (ExactLength t + 1 - 1) with (ExactLength t) by lia.
    + unfold r_bind, r_guard, r_ret, r_fail. replace (2 ^ 32 <=? FixedLength t) with false by lia.
      by replace (2 ^ 28 - 1 <? FixedLength t) with false by lia.
  - eapply emits_r_step; [done|]. do 2 (apply emits_r_guard; [lia|]). apply emits_r_guard; [done|].
    by apply emits_ret.
Qed.

(** An optional part under a flag. *)
Lemma emits_cond {A C B} (b b' : bool) (m : W S unit) (rd : R A) a (k : unit -> W S C) (rk : option A -> R B) post :
  b' = b -> grows m -> (forall u, grows (k u)) ->
  (b = true -> writes strings m rd a) ->
  emits strings (k tt) (rk (if b then Some a else None)) post ->
  emits strings (w_bind (w_when b m) k) (r_bind (r_when b' rd) rk) post.
Proof. intros -> Pm Pk Hm Hk. eapply writes_bind; [apply _|apply _|by apply emits_when|exact Hk]. Qed.

(** An optional part the schema carries from [v] on. *)
Lemma emits_since {A B C B'} (v s : Z) (o : option A) b' (m : A -> W S unit) (rd : R B) (f : A -> B)
    (k : unit -> W S C) (rk : option B -> R B') post :
  b' = (v <=? s) && bool_decide (is_Some o) -> (forall a, grows (m a)) -> (forall u, grows (k u)) ->
  when_some (fun a => writes strings (m a) rd (f a)) o ->
  emits strings (k tt) (rk (since s v (f <$> o))) post ->
  emits strings (w_bind (w_when (v <=? s) (w_option o m)) k) (r_bind (r_when b' rd) rk) post.
Proof.
  intros -> Pm Pk Hm Hk. unfold since in Hk. unfold w_when. destruct (v <=? s); simpl andb.
  - by apply emits_flagged with (f := f).
  - eapply emits_r_step; [done|]. exact Hk.
Qed.

Lemma default_text (b : bool) (x : string) :
  (b = true -> x = "") -> default EmptyString (if negb b then Some x else None) = x.
Proof. destruct b; [intros H; by rewrite H|done]. Qed.

Lemma code_unless_ok {A} b (code : A -> result Z) v k :
  code_unless b code v = Ok k -> negb b = true -> code v = Ok k.
Proof. unfold code_unless. destruct b; [done|]. by intros H%wrap_err_ok _. Qed.

(** What the checks before the first byte establish. *)
Lemma entity_checks_ok path e s codes :
  entity_checks path e s = Ok codes ->
  Path (ef_Location e) = path /\ 0 <= StartByte (ef_Location e) <= EndByte (ef_Location e) /\
  (SymbolUnresolved e = true -> ef_Symbol e = "") /\
  (negb (String.eqb (ef_Callability e) "") = true ->
     wireTransitionCallabilityCode (ef_Callability e) s = Ok (ec_callability codes)) /\
  (Constructability_IsPresent (ef_Constructability e) = true ->
     wireTransitionConstructabilityCode (ef_Constructability e) = Ok (ec_constructability codes)) /\
  (negb (String.eqb (ef_ReferenceSpace e) "") = true ->
     wireTransitionReferenceSpaceCode (ef_ReferenceSpace e) = Ok (ec_referenceSpace codes)) /\
  (negb (String.eqb (ef_ArrayShape e) "") = true ->
     wireTransitionArrayShapeCode (ef_ArrayShape e) = Ok (ec_arrayShape codes)) /\
  when_some (fun t => tuple_code t s = Ok (ec_tupleElementZero codes)) (ef_TupleShape e).
Proof.
  unfold entity_checks. destruct (String.eqb_spec (Path (ef_Location e)) path) as [Hp|]; [|done]. simpl negb.
  cbv iota. intros H. apply result_bind_ok in H as (u & Hl & H). apply wrap_err_ok in Hl.
  destruct (negb (String.eqb (ef_Symbol e) "") && SymbolUnresolved e) eqn:Eu; [done|].
  apply result_bind_ok in H as (k1 & H1 & H). apply result_bind_ok in H as (k2 & H2 & H).
  apply result_bind_ok in H as (k3 & H3 & H). apply result_bind_ok in H as (k4 & H4 & H).
  apply result_bind_ok in H as (k5 & H5 & H). injection H as <-. simpl.
  unfold validateWireTransitionLocation in Hl.
  destruct (StartByte (ef_Location e) <? 0) eqn:E1; [done|].
  destruct (EndByte (ef_Location e) <? StartByte (ef_Location e)) eqn:E2; [done|].
  split; [done|]. split; [lia|]. split.
  { intros Hu. rewrite Hu, andb_true_r in Eu. destruct (String.eqb_spec (ef_Symbol e) ""); done. }
  split; [by apply code_unless_ok|]. split.
  { intros Hc. apply (code_unless_ok _ _ _ _ H2). by rewrite Hc. }
  split; [by apply code_unless_ok|]. split; [by apply code_unless_ok|].
  intros t Ht. by rewrite Ht in H5.
Qed.

Definition entity_start_ok (start : Z) : Prop := 0 <= start < 2 ^ 63.

Lemma emits_entity path s e previous :
  known_schema s -> entity_ok e -> entity_start_ok previous ->
  emits strings (entity_row (S:=S) path s e previous) (read_entity strings (wire_text path) s previous)
    (fun start r => snd r = start /\ fst r = wire_entity s e /\ entity_start_ok start).
Proof.
  intros Hs [He Hd Hc Hdom Hcv Ht Hlib [Hl32 Hlit]] Hprev.
  destruct (entity_flags_bits e s) as (F0 & F1 & F2 & F3 & F4 & F5 & F6 & F7 & F8 & F9 & F10 & F11 & F12 & F13 & F14).
  pose proof (entity_flags_range e s) as Hfr.
  unfold entity_row, read_entity. apply emits_lift. intros codes Hcodes.
  destruct (entity_checks_ok _ _ _ _ Hcodes) as (<- & Hloc & Hun & C1 & C2 & C3 & C4 & C5).
  unfold entity_start_ok in *.
  rewrite (i64_id (StartByte (ef_Location e) - previous)) by (unfold is_i64; lia).
  rewrite (i64_id (EndByte (ef_Location e) - StartByte (ef_Location e))) by (unfold is_i64; lia).
  rewrite (u64_id (EndByte (ef_Location e) - StartByte (ef_Location e))) by (unfold is_u64; lia).
  cbv zeta. emit @emits_signed; [unfold is_i64; lia|].
  eapply emits_r_step.
  { intros input. unfold add_signed, checked_u64. destruct (_ || _) eqn:E; [exfalso; lia|done]. }
  replace (previous + (StartByte (ef_Location e) - previous)) with (StartByte (ef_Location e)) by lia.
  emit @emits_put; [unfold is_u64; lia|].
  eapply emits_r_step.
  { intros input. unfold checked_u64. destruct (_ || _) eqn:E; [exfalso; lia|done]. }
  replace (StartByte (ef_Location e) + (EndByte (ef_Location e) - StartByte (ef_Location e)))
    with (EndByte (ef_Location e)) by lia.
  emit @emits_text. emit @emits_put; [unfold is_u64; lia|].
  apply emits_r_guard; [by apply entity_flags_known|].
  apply emits_flagged with (f := wire_descriptor); [exact F0|apply _|apply _| |].
  { intros d Hd'. apply emits_descriptor; auto. by apply Hd. }
  apply emits_flagged with (f := wire_call s); [exact F1|apply _|apply _| |].
  { intros c Hc'. apply emits_wrap. apply emits_call; auto. }
  apply emits_code_when with (code := wireTransitionCallabilityCode (ef_Callability e) s)
    (a := degrade_callability (ef_Callability e) s); [exact F2| |apply _|].
  { intros Hb. split; [apply decodes_callability|by apply C1]. }
  apply emits_code_when with (code := wireTransitionReferenceSpaceCode (ef_ReferenceSpace e))
    (a := ef_ReferenceSpace e); [exact F3| |apply _|].
  { intros Hb. split; [apply decodes_reference_space|by apply C3]. }
  apply emits_cond with (a := wire_text (RuntimeIdentity e)); [exact F4|apply _|apply _| |].
  { intros _. by apply emits_text. }
  apply emits_flagged with (f := fun d => d); [exact F5|apply _|apply _| |].
  { intros d _. apply emits_runtime_domain. }
  apply emits_since with (f := fun d => d); [exact F7|apply _|apply _| |].
  { intros d _. apply emits_runtime_domain. }
  apply emits_since with (f := wire_constant); [exact F8|apply _|apply _| |].
  { intros v Hv. apply emits_constant. by apply Hcv. }
  apply emits_code_when with (code := wireTransitionArrayShapeCode (ef_ArrayShape e))
    (a := ef_ArrayShape e); [exact F9| |apply _|].
  { intros Hb. apply andb_prop in Hb as [_ Hb]. split; [apply decodes_array_shape|by apply C4]. }
  apply emits_since with (f := wire_tuple s); [exact F10|apply _|apply _| |].
  { intros t Ht'. apply emits_tuple; [by apply Ht|by apply C5]. }
  apply emits_cond with (a := map wire_text (library_types e)); [exact F11|apply _|apply _| |].
  { intros _. by apply emits_library. }
  apply emits_code_when with (code := Ok (wireTransitionPrimitiveValueDomainBits (ef_PrimitiveValueDomain e)))
    (a := ef_PrimitiveValueDomain e); [exact F12| |apply _|].
  { intros Hb. apply andb_prop in Hb as [_ Hb]. split; [|done].
    intros k [= <-]. split; [by apply (domain_decode _ []); [apply Hdom|]|intros; by apply domain_decode; [apply Hdom|]]. }
  apply emits_code_when with (code := wireTransitionConstructabilityCode (ef_Constructability e))
    (a := ef_Constructability e); [exact F13| |apply _|].
  { intros Hb. apply andb_prop in Hb as [_ Hb]. split; [apply decodes_constructability|by apply C2]. }
  apply emits_cond with (a := map wire_literal (PrimitiveLiteralCandidates e)); [exact F14|apply _|apply _| |].
  { intros _. by apply emits_literals. }
  change 64 with (Z.shiftl 1 6). rewrite F6. apply emits_r_guard.
  { destruct (writes_unresolved e s) eqn:E; [|done]. apply andb_prop in E as [_ E]. by rewrite (Hun E). }
  apply emits_ret. split; [done|]. split; [|lia].
  unfold wire_entity. simpl. f_equal.
  - apply default_text. intros E%String.eqb_eq. by rewrite E.
  - by destruct (ef_RuntimeValueDomain e).
  - by destruct (writes_primitive_value_domain e s).
  - by destruct (writes_literal_candidates e s).
  - by destruct (writes_constructability e s).
  - f_equal. by destruct (CallResultDomain e).
  - by destruct (writes_array_shape e s).
  - apply default_text. by intros E%String.eqb_eq.
  - apply default_text. intros E%String.eqb_eq. by rewrite E.
Qed.

Lemma emits_entity_run path es s :
  known_schema s -> fits es -> Forall entity_ok es ->
  writes (S:=S) strings (writeWireTransitionEntityRun path es s)
    (decode_entity_run strings (wire_text path) s) (map (wire_entity s) es).
Proof.
  intros Hs Hf He. rewrite Forall_forall in He. unfold writeWireTransitionEntityRun, decode_entity_run.
  apply (emits_collection strings entity_start_ok) with (g := wire_entity s); [done|unfold entity_start_ok; lia|apply _|apply _| |].
  - intros x previous Hx Hp. apply emits_entity; auto.
  - intros start _. by apply emits_ret.
Qed.
End Entity.
