(* ===== verification/OpsRoundtrip.v ===== *)
(** * Operation round trips

    File bodies, path operations and symbol operations: what the reader makes
    of what the writer emitted, and the conditions under which it accepts. *)

From S2P Require Import Prelude GoStd GoText GoBytes StringTable Model Domain SymbolStore FactTable TransitionDiff Writer Rows Reader Emits RowsRoundtrip EntityRoundtrip.
Open Scope Z_scope.

(** ** Normal forms *)

Definition wire_binding (b : SourceBinding) : SourceBinding :=
  mkSourceBinding (Array b) (map wire_location (Names b)) (wire_source_call (Initializer b)).

Definition wire_function (f : SourceFunction) : SourceFunction :=
  mkSourceFunction (wire_location (sf_Name f)) (wire_location (Body f)) (map wire_location (sf_Parameters f))
    (Exported f) (sf_Async f) (Arrow f).

Definition wire_async (f : AsyncFunctionFact) : AsyncFunctionFact :=
  mkAsyncFunctionFact (wire_location (Expression f)) (wire_text (af_Symbol f)) (wire_text (af_Target f))
    (CanReturnAsync f) (map wire_location (CallsAfterAwait f)).

Definition wire_file (f : FileFact) : FileFact :=
  mkFileFact (wire_text (ff_Path f)) (map wire_source_call (Calls f)) (map wire_binding (Bindings f))
    (map wire_function (Functions f)) (map wire_async (AsyncFunctions f)).

Definition wire_path_op (s : Z) (op : wireTransitionPathOp) : wireTransitionPathOp :=
  mkPathOp (wire_text (op_path op))
    (sourceOp op) (if is_replace (sourceOp op) then mkSourceDigest (wire_text (op_path op)) (SHA256 (op_source op)) else empty_digest)
    (entityOp op) (if is_replace (entityOp op) then map (wire_entity s) (op_entities op) else [])
    (fileOp op) (if is_replace (fileOp op) then wire_file (op_file op) else empty_file).

Definition wire_symbol_fact (f : SymbolFact) : SymbolFact :=
  mkSymbolFact (wire_text (ID f)) (wire_text (AliasTarget f)) (map wire_declaration (Declarations f))
    (if String.eqb (AliasTarget f) "" then map wire_location (References f) else []).

Definition wire_symbol_op (op : wireTransitionSymbolOp) : wireTransitionSymbolOp :=
  match sop_tag op with
  | wireTransitionReplaceSymbol => replace_symbol (wire_text (sop_id op)) (wire_symbol_fact (sop_fact op))
  | wireTransitionRemoveSymbol => remove_symbol (wire_text (sop_id op))
  | wireTransitionReplaceReferencePath =>
      replace_reference_path (wire_text (sop_id op)) (wire_text (sop_referencePath op))
        (map wire_location (sop_references op))
  end.

(** ** Operations the reader accepts *)

Record file_ok (f : FileFact) : Prop := {
  fok_calls : fits (Calls f) /\ Forall source_call_ok (Calls f);
  fok_bindings : fits (Bindings f) /\
    Forall (fun b => locations_ok (Names b) /\ source_call_ok (Initializer b)) (Bindings f);
  fok_functions : fits (Functions f) /\
    Forall (fun g => location_ok (sf_Name g) /\ location_ok (Body g) /\ locations_ok (sf_Parameters g)) (Functions f);
  fok_async : fits (AsyncFunctions f) /\
    Forall (fun g => location_ok (Expression g) /\ locations_ok (CallsAfterAwait g)) (AsyncFunctions f);
}.

(** A digest is a Go [[32]byte]. *)
Definition digest_ok (op : wireTransitionPathOp) : Prop := length (SHA256 (op_source op)) = 32%nat.

Record path_op_ok (mode : wireTransitionMode) (op : wireTransitionPathOp) : Prop := {
  pop_text : ValidString (op_path op) = true;
  pop_digest : digest_ok op;
  pop_changed : is_unchanged (sourceOp op) && is_unchanged (entityOp op) && is_unchanged (fileOp op) = false;
  pop_full : mode = wireTransitionFull ->
    is_remove (sourceOp op) || is_remove (entityOp op) || is_remove (fileOp op) = false;
  pop_entities : is_replace (entityOp op) = true ->
    op_entities op <> [] /\ fits (op_entities op) /\ Forall entity_ok (op_entities op) /\
    entity_run_is_canonical (op_path op) (op_entities op) = true;
  pop_file : is_replace (fileOp op) = true -> file_ok (op_file op);
}.

(** Paths that follow the previous one. *)
Definition path_follows (previous : option string) (op : wireTransitionPathOp) : Prop :=
  match previous with Some p => slt p (op_path op) | None => True end.

Definition symbol_key (op : wireTransitionSymbolOp) : string * Z * string :=
  (sop_id op, symbol_op_tag (sop_tag op), sop_referencePath op).

Record symbol_op_ok (op : wireTransitionSymbolOp) : Prop := {
  syo_text : ValidString (sop_id op) = true;
  syo_key : sop_tag op <> wireTransitionReplaceReferencePath -> sop_referencePath op = "";
  syo_replace : sop_tag op = wireTransitionReplaceSymbol ->
    declarations_ok (Declarations (sop_fact op)) /\ locations_ok (References (sop_fact op)) /\
    locations_are_canonical (map wire_location (References (sop_fact op))) = true;
  syo_path : sop_tag op = wireTransitionReplaceReferencePath ->
    ValidString (sop_referencePath op) = true /\ locations_ok (sop_references op) /\
    locations_are_canonical (sop_references op) = true;
}.

Definition key_follows (previous : option (string * Z * string)) (op : wireTransitionSymbolOp) : Prop :=
  match previous with Some p => symbol_key_lt p (symbol_key op) = true | None => True end.

Lemma adjacent_map {A B} (P : B -> B -> bool) (f : A -> B) l :
  adjacent P (map f l) = adjacent (fun a b => P (f a) (f b)) l.
Proof. induction l as [|x [|y l] IH]; [done|done|]. cbn [map adjacent] in *. by rewrite IH. Qed.

Lemma wire_run_canonical path s es :
  entity_run_is_canonical path es = true -> entity_run_is_canonical (wire_text path) (map (wire_entity s) es) = true.
Proof.
  unfold entity_run_is_canonical. intros H. apply andb_prop in H as [Hp Ha].
  rewrite adjacent_map. apply andb_true_intro. split; [|exact Ha].
  rewrite forallb_forall in *. intros e' (e & <- & He)%in_map_iff. simpl.
  specialize (Hp e He). apply String.eqb_eq in Hp. rewrite Hp. apply String.eqb_refl.
Qed.

(** A list whose elements follow one another. *)
Fixpoint linked {A St} (follows : St -> A -> Prop) (next : A -> St) (st : St) (l : list A) : Prop :=
  match l with
  | [] => True
  | x :: l' => follows st x /\ linked follows next (next x) l'
  end.

Section Ops.
Context {S : Type} (strings : list string) `{SD : !SmallDictionary strings}.

(** A loop of the writer without a state, read with one. *)
Lemma emits_linked {A B St} (f : A -> W S unit) (rd : St -> R (B * St)) (g : A -> B)
    (follows : St -> A -> Prop) (next : A -> St) (l : list A) st :
  (forall x, x ∈ l -> grows (f x)) ->
  (forall x st, x ∈ l -> follows st x -> writes strings (f x) (rd st) (g x, next x)) ->
  linked follows next st l ->
  emits strings (w_each f l) (r_fold (length l) rd st) (fun _ r => fst r = map g l).
Proof.
  unfold w_each. revert st. induction l as [|x l IH]; intros st Pf Hf Hl; simpl; [by apply emits_ret|].
  destruct Hl as [Hx Hl].
  assert (forall u, grows (w_fold (S:=S) (fun x (_ : unit) => f x) l u)) as Pl.
  { clear -Pf. induction l as [|y l IH]; intros u; simpl; [apply _|].
    apply bind_growth; [apply Pf; set_solver|]. intros. apply IH. set_solver. }
  eapply writes_bind; [apply Pf; set_solver|exact Pl|apply Hf; [set_solver|done]|]. cbn beta iota.
  intros w w' a Ha Hfl Hp Hok.
  destruct (IH (next x) ltac:(intros; apply Pf; set_solver) ltac:(intros; apply Hf; set_solver) Hl w w' a Ha Hfl Hp Hok)
    as (Hok' & out & [bs s3] & Hb & Eb & Hr). simpl in Eb. subst bs.
  split; [done|]. exists out, (g x :: map g l, s3). split_and!; [done|done|].
  intros rest. unfold r_bind. by rewrite Hr.
Qed.

(** The empty list of locations. *)
Lemma emits_nothing : writes (S:=S) strings (put_u64 0) (locations strings) [].
Proof.
  unfold locations. eapply writes_last; [apply _| |].
  { apply (emits_len (S:=S) strings (@nil Location)). unfold fits, len, PACKED_COLLECTION_LIMIT. simpl. lia. }
  done.
Qed.

(** ** Files *)

Lemma emits_binding b :
  locations_ok (Names b) -> source_call_ok (Initializer b) ->
  writes (S:=S) strings (source_binding b) (read_binding strings) (wire_binding b).
Proof.
  intros H1 H2. unfold source_binding, read_binding.
  emit @emits_put; [unfold is_u64; by destruct (Array b)|].
  apply emits_r_guard; [by destruct (Array b)|]. emit @emits_locations.
  eapply writes_last; [apply _|by apply emits_source_call|]. unfold wire_binding. by destruct (Array b).
Qed.

Lemma emits_function g :
  location_ok (sf_Name g) -> location_ok (Body g) -> locations_ok (sf_Parameters g) ->
  writes (S:=S) strings (source_function g) (read_function strings) (wire_function g).
Proof.
  intros H1 H2 H3. unfold source_function, read_function.
  apply emits_location_bind; [done|done|apply no_location_ok|apply _|]. intros st Hst. cbn beta iota.
  apply emits_location_bind; [done|done|done|apply _|]. intros st' _. cbn beta iota.
  emit @emits_locations. cbv zeta.
  eapply writes_last; [apply _|apply emits_put|].
  - unfold is_u64. by destruct (Exported g), (sf_Async g), (Arrow g).
  - unfold wire_function. by destruct (Exported g), (sf_Async g), (Arrow g).
Qed.

Lemma emits_async g :
  location_ok (Expression g) -> locations_ok (CallsAfterAwait g) ->
  writes (S:=S) strings (async_function g) (read_async_function strings) (wire_async g).
Proof.
  intros H1 H2. unfold async_function, read_async_function.
  apply emits_location_bind; [done|done|apply no_location_ok|apply _|]. intros st Hst. cbn beta iota.
  emit @emits_text. emit @emits_text. emit @emits_put; [unfold is_u64; by destruct (CanReturnAsync g)|].
  apply emits_r_guard; [by destruct (CanReturnAsync g)|].
  eapply writes_last; [apply _|by apply emits_locations|]. unfold wire_async. by destruct (CanReturnAsync g).
Qed.

Lemma emits_file f :
  file_ok f -> writes (S:=S) strings (writeWireTransitionFileBody f) (decode_file_fact strings (wire_text (ff_Path f))) (wire_file f).
Proof.
  intros [[C1 C2] [B1 B2] [F1 F2] [A1 A2]]. rewrite Forall_forall in C2. rewrite Forall_forall in B2. rewrite Forall_forall in F2. rewrite Forall_forall in A2.
  unfold writeWireTransitionFileBody, decode_file_fact.
  apply emits_items with (g := wire_source_call); [done|apply _|apply _| |].
  { intros x Hx. apply emits_source_call; auto. }
  apply emits_items with (g := wire_binding); [done|apply _|apply _| |].
  { intros x Hx. destruct (B2 x Hx). by apply emits_binding. }
  apply emits_items with (g := wire_function); [done|apply _|apply _| |].
  { intros x Hx. destruct (F2 x Hx) as (? & ? & ?). by apply emits_function. }
  emit @emits_len. eapply writes_last; [apply _| |reflexivity]. apply emits_each; [apply _|].
  intros x Hx. destruct (A2 x Hx). by apply emits_async.
Qed.

(** ** Path operations *)

(** The three slots of the flag word. *)
Lemma path_flags_slots op k :
  wireTransitionPathFlags op = Ok k ->
  is_u64 k /\ outside k 63 = false /\
  Z.land k 3 = collection_op_tag (sourceOp op) /\
  Z.land (Z.shiftr k 2) 3 = collection_op_tag (entityOp op) /\
  Z.land (Z.shiftr k 4) 3 = collection_op_tag (fileOp op).
Proof.
  unfold wireTransitionPathFlags. intros H.
  apply result_bind_ok in H as (? & _ & H). apply result_bind_ok in H as (? & _ & H).
  apply result_bind_ok in H as (? & _ & H). injection H as <-.
  destruct (sourceOp op), (entityOp op), (fileOp op); split_and!; try done; unfold is_u64; vm_compute; intuition congruence.
Qed.

Lemma slot_tag_decodes op input : slot_tag (collection_op_tag op) input = Ok (op, input).
Proof. by destruct op. Qed.

Lemma emits_path_op mode s previous op :
  known_schema s -> path_op_ok mode op -> path_follows previous op ->
  writes (S:=S) strings (writeWireTransitionPathOp op s) (read_path_op strings mode s previous)
    (wire_path_op s op, Some (op_path op)).
Proof.
  intros Hs [Ht Hd Hc Hfull He Hfile] Hprev.
  unfold writeWireTransitionPathOp, read_path_op. apply emits_guard. intros Hempty.
  apply emits_lift. intros k Hk. destruct (path_flags_slots _ _ Hk) as (Hu & Hout & H1 & H2 & H3).
  emit @emits_text. rewrite wire_text_id by done. apply emits_r_guard; [done|].
  apply emits_r_guard. { destruct previous; [|done]. simpl in Hprev. unfold slt in Hprev. by rewrite Hprev. }
  emit @emits_put. apply emits_r_guard; [done|]. rewrite H1, H2, H3.
  do 3 (eapply emits_r_step; [intros; apply slot_tag_decodes|]).
  apply emits_r_guard; [done|]. apply emits_r_guard.
  { unfold is_full. destruct (decide (mode = wireTransitionFull)) as [->|]; [rewrite Hfull by done|]; simpl; [done|].
    by rewrite bool_decide_false. }
  apply emits_cond with (a := SHA256 (op_source op)); [done|apply _|apply _| |].
  { intros _. apply emits_guard. intros _. replace 32 with (len (SHA256 (op_source op))) by (unfold len; by rewrite Hd).
    apply emits_raw. }
  apply emits_cond with (a := map (wire_entity s) (op_entities op)); [done|apply _|apply _| |].
  { intros Hr. destruct (He Hr) as (Hne & Hfit & Hall & Hcan). apply emits_wrap.
    pose proof (emits_entity_run (S:=S) strings (op_path op) (op_entities op) s Hs Hfit Hall) as Hrun.
    pose proof (wire_run_canonical _ s _ Hcan) as Hw. rewrite wire_text_id in Hrun, Hw by done.
    eapply writes_last; [apply _|exact Hrun|]. rewrite Hw.
    unfold r_bind, r_guard, r_ret. by destruct (op_entities op). }
  eapply writes_last; [apply _|apply emits_when with (b := wire_file (op_file op)); [|apply _]|].
  { intros Hr. apply emits_guard. intros Hp. apply negb_false_iff, String.eqb_eq in Hp.
    pose proof (emits_file (op_file op) (Hfile Hr)) as Hf. rewrite Hp, wire_text_id in Hf by done.
    exact Hf. }
  unfold wire_path_op. rewrite wire_text_id by done.
  destruct (is_replace (sourceOp op)), (is_replace (entityOp op)), (is_replace (fileOp op)); reflexivity.
Qed.

(** ** Symbol operations *)

Lemma symbol_header_bits i tag :
  0 <= i < 2 ^ 62 -> is_u64 (Z.lor (u64 (Z.shiftl i 2)) (symbol_op_tag tag)) /\
  Z.land (Z.lor (u64 (Z.shiftl i 2)) (symbol_op_tag tag)) 3 = symbol_op_tag tag /\
  Z.shiftr (Z.lor (u64 (Z.shiftl i 2)) (symbol_op_tag tag)) 2 = i.
Proof.
  intros Hi. assert (0 <= symbol_op_tag tag < 3) as Ht by (destruct tag; simpl; lia).
  rewrite u64_id by (unfold is_u64; rewrite Z.shiftl_mul_pow2 by lia; lia).
  rewrite Z.lor_comm, lor_shiftl_add by lia. change 3 with (Z.ones 2). rewrite Z.land_ones by lia.
  rewrite Z.shiftr_div_pow2 by lia. change (2 ^ 2) with 4. unfold is_u64. split_and!; mlia.
Qed.

(** The word that opens an operation: an index, with a tag in a delta. *)
Lemma emits_symbol_header {A B} mode op i (k : unit -> W S A) (rk : Z * Z -> R B) post :
  0 <= i < 2 ^ 62 -> (forall u, grows (k u)) ->
  ((mode = wireTransitionFull -> sop_tag op = wireTransitionReplaceSymbol) ->
   emits strings (k tt) (rk (i, symbol_op_tag (sop_tag op))) post) ->
  emits strings
    (w_bind (if bool_decide (mode = wireTransitionFull) then
       w_bind (w_guard (bool_decide (sop_tag op <> wireTransitionReplaceSymbol))
         (ErrText "full symbol operation tag, want replace")) (fun _ => put_u64 i)
     else put_u64 (Z.lor (u64 (Z.shiftl i 2)) (symbol_op_tag (sop_tag op)))) k)
    (r_bind (read_symbol_header mode) rk) post.
Proof.
  intros Hi Pk Hk. unfold read_symbol_header, is_full.
  destruct (bool_decide (mode = wireTransitionFull)) eqn:Em.
  - apply emits_assoc. apply emits_guard. intros Htag. apply bool_decide_eq_false in Htag.
    apply dec_stable in Htag. apply emits_r_assoc. emit @emits_put; [unfold is_u64; lia|].
    eapply emits_r_step; [done|]. rewrite Htag in Hk. by apply Hk.
  - apply bool_decide_eq_false in Em. destruct (symbol_header_bits i (sop_tag op) Hi) as (Hu & H1 & H2).
    apply emits_r_assoc. emit @emits_put. rewrite H1, H2. apply emits_r_assoc, emits_r_guard.
    { by destruct (sop_tag op). }
    eapply emits_r_step; [done|]. by apply Hk.
Qed.

Lemma emits_replace_symbol op :
  symbol_op_ok op -> sop_tag op = wireTransitionReplaceSymbol ->
  writes (S:=S) strings
    (w_bind (w_guard (negb (String.eqb (ID (sop_fact op)) (sop_id op))) (ErrText "symbol replacement ID, operation ID"))
      (fun _ => w_bind (text (AliasTarget (sop_fact op)))
      (fun _ => w_bind (internalDeclarations (Declarations (sop_fact op)))
      (fun _ => if String.eqb (AliasTarget (sop_fact op)) ""
                then internalLocations (References (sop_fact op)) else put_u64 0))))
    (read_replace_symbol strings (sop_id op)) (wire_symbol_op op).
Proof.
  intros [Ht _ Hr _] Htag. destruct (Hr Htag) as (Hd & Hl & Hc). unfold read_replace_symbol.
  apply emits_guard. intros Hid. apply negb_false_iff, String.eqb_eq in Hid.
  emit @emits_text. emit @emits_declarations.
  unfold wire_symbol_op. rewrite Htag. unfold wire_symbol_fact. rewrite Hid, (wire_text_id (sop_id op)) by done.
  destruct (String.eqb_spec (AliasTarget (sop_fact op)) "") as [->|Hne].
  - eapply writes_last; [apply _|by apply emits_locations|]. rewrite Hc. reflexivity.
  - eapply writes_last; [apply _|apply emits_nothing|]. unfold r_bind, r_guard. simpl.
    by rewrite andb_false_r.
Qed.

Lemma reference_paths path l : 
  Forall (fun r => Path r = path) l -> ValidString path = true ->
  map wire_location l = l /\ forallb (fun r => String.eqb (Path r) path) (map wire_location l) = true.
Proof.
  intros Hl Hv. induction Hl as [|r l Hr _ [IH1 IH2]]; [done|]. simpl. rewrite IH1, <- IH1, IH2, IH1.
  unfold wire_location. rewrite Hr, wire_text_id by done. simpl. rewrite String.eqb_refl. split; [|done].
  f_equal. destruct r. simpl in *. by subst.
Qed.

Lemma reference_checks path l w w' :
  w_each (S:=S) (reference_check path) l w = (w', Ok tt) -> w' = w /\ Forall (fun r => Path r = path) l.
Proof.
  unfold w_each. induction l as [|r l IH]; simpl; [by intros [= ->]|].
  unfold w_bind at 1. unfold reference_check at 1. unfold w_bind at 1, w_guard.
  destruct (String.eqb_spec (Path r) path) as [Hr|]; [|done]. simpl.
  destruct (wrap_err _ _) as [[]|]; [|done]. intros H. simpl in H. destruct (IH H) as [-> HF]. split; [done|by constructor].
Qed.

Lemma emits_checks {A B} path l (k : unit -> W S A) (rd : R B) post :
  (Forall (fun r => Path r = path) l -> emits strings (k tt) rd post) ->
  emits strings (w_bind (w_each (reference_check path) l) k) rd post.
Proof.
  intros Hk w w' a H. unfold w_bind in H. destruct (w_each (reference_check path) l w) as [w1 [[]|e]] eqn:E; [|done].
  apply reference_checks in E as [-> HF]. exact (Hk HF w w' a H).
Qed.

Lemma emits_reference_path op :
  symbol_op_ok op -> sop_tag op = wireTransitionReplaceReferencePath ->
  writes (S:=S) strings
    (w_bind (w_guard (String.eqb (sop_referencePath op) "") (ErrText "symbol reference operation has an empty path"))
      (fun _ => w_bind (text (sop_referencePath op))
      (fun _ => w_bind (w_each (reference_check (sop_referencePath op)) (sop_references op))
      (fun _ => internalLocations (sop_references op)))))
    (read_reference_path strings (sop_id op)) (wire_symbol_op op).
Proof.
  intros [Ht _ _ Hp] Htag. destruct (Hp Htag) as (Hv & Hl & Hc). unfold read_reference_path.
  apply emits_guard. intros He. emit @emits_text. rewrite wire_text_id by done. apply emits_r_guard; [done|].
  apply emits_checks. intros HF. destruct (reference_paths _ _ HF Hv) as [E1 E2].
  eapply writes_last; [apply _|by apply emits_locations|].
  unfold wire_symbol_op. rewrite Htag, !wire_text_id by done. rewrite E2, E1, Hc. reflexivity.
Qed.

Lemma emits_symbol_op mode previous op :
  symbol_op_ok op -> key_follows previous op ->
  writes (S:=S) strings (writeWireTransitionSymbolOp mode op) (read_symbol_op strings mode previous)
    (wire_symbol_op op, Some (symbol_key op)).
Proof.
  intros Hok Hprev. unfold writeWireTransitionSymbolOp, read_symbol_op. apply emits_guard. intros Hempty.
  apply emits_intern; [done| |].
  { intros i. destruct (sop_tag op); apply _. }
  intros i Hi Hl. apply emits_symbol_header; [done| |].
  { intros u. destruct (sop_tag op); apply _. }
  intros Hfull. cbn beta iota.
  pose proof (syo_text _ Hok) as Ht. rewrite wire_text_id in Hl by done.
  eapply emits_r_step; [intros input; unfold r_lift; by rewrite Hl|]. apply emits_r_guard; [done|].
  assert (sop_referencePath (wire_symbol_op op) = sop_referencePath op) as Hkey.
  { unfold wire_symbol_op. destruct (sop_tag op) eqn:E; simpl; [by rewrite (syo_key _ Hok) by congruence..|].
    destruct (syo_path _ Hok E) as [Hv _]. by rewrite wire_text_id. }
  assert (match previous with
      Some p => negb (symbol_key_lt p (sop_id op, symbol_op_tag (sop_tag op), sop_referencePath op)) | None => false end
      = false) as Hend.
  { unfold key_follows, symbol_key in Hprev. destruct previous; [|done]. by rewrite Hprev. }
  destruct (sop_tag op) eqn:Etag; cbn [symbol_op_tag Z.eqb Pos.eqb] in *.
  - eapply writes_last; [apply _|by apply emits_replace_symbol|]. cbv zeta. rewrite Hkey, Hend.
    unfold symbol_key. by rewrite Etag.
  - eapply emits_r_step; [done|]. cbv zeta.
    replace (remove_symbol (sop_id op)) with (wire_symbol_op op)
      by (unfold wire_symbol_op; by rewrite Etag, wire_text_id by done).
    rewrite Hkey. apply emits_r_guard; [done|]. apply emits_ret. unfold symbol_key. by rewrite Etag.
  - eapply writes_last; [apply _|by apply emits_reference_path|]. cbv zeta. rewrite Hkey, Hend.
    unfold symbol_key. by rewrite Etag.
Qed.
End Ops.
