(* ===== verification/FrameRoundtrip.v ===== *)
(** * Frame round trip

    A whole transition: what [Encode] hands out decodes, in the consumer's
    reader, to the plan's operations in the wire's normal form. *)

From S2P Require Import Prelude GoStd GoText GoBytes SortedPaths Model FactEqual SymbolStore FactTable TransitionDiff PathDelta StringTable Writer Rows Transition Totality Reader Emits RowsRoundtrip DictionaryRoundtrip EntityRoundtrip OpsRoundtrip.
Open Scope Z_scope.

Section Frame.
Context `{BK : !Backing} `{MR : !MapRange}.

(** ** What a frame carries *)

Definition frame_path_ops (mode : wireTransitionMode) (target : FactTable) (p : wirePlan) : list wireTransitionPathOp :=
  match mode with
  | wireTransitionFull => map (fun path => fst (full_path_op target path)) (plan_paths p)
  | wireTransitionDelta => plan_pathOps p
  end.

Definition frame_symbol_ops (mode : wireTransitionMode) (target : FactTable) (p : wirePlan) : list wireTransitionSymbolOp :=
  match mode with
  | wireTransitionFull => map (fun fact => replace_symbol (ID fact) fact) (rangeSymbolFacts target)
  | wireTransitionDelta => plan_symbolOps p
  end.

Record frame_ok (input : wireTransitionInput) (mode : wireTransitionMode) (target : FactTable) (s : Z)
    (p : wirePlan) : Prop := {
  fr_schema : known_schema s;
  fr_names : ValidString (in_ProjectID input) = true /\ ValidString (in_BaseStateToken input) = true;
  fr_generations : 0 < Generation target < 2 ^ 64 /\ from_option (fun b => is_u64 (Generation b)) True (in_Base input);
  fr_paths : fits (frame_path_ops mode target p) /\ Forall (path_op_ok mode) (frame_path_ops mode target p) /\
    linked path_follows (fun op => Some (op_path op)) None (frame_path_ops mode target p);
  fr_symbols : fits (frame_symbol_ops mode target p) /\ Forall symbol_op_ok (frame_symbol_ops mode target p) /\
    linked key_follows (fun op => Some (symbol_key op)) None (frame_symbol_ops mode target p);
  fr_count : symbolFactsCount target = length (rangeSymbolFacts target);
}.

(** ** Silent statements *)

Lemma emits_key {S A B} (strings : list string) `{SD : !SmallDictionary strings} key (k : unit -> W S A) (rd : R B) post :
  (forall u, grows (k u)) -> emits strings (k tt) rd post -> emits strings (w_bind (intern_key key) k) rd post.
Proof.
  intros Pk H. unfold intern_key. apply emits_assoc. apply emits_intern; [done| |].
  - intros i. apply _.
  - intros i _ _. exact H.
Qed.

Lemma emits_keys {S A B X} (strings : list string) `{SD : !SmallDictionary strings} (f : X -> W S unit) l
    (k : unit -> W S A) (rd : R B) post :
  (forall x, grows (f x)) -> (forall u, grows (k u)) ->
  (forall x (k' : unit -> W S A), (forall u, grows (k' u)) -> emits strings (k' tt) rd post ->
     emits strings (w_bind (f x) k') rd post) ->
  emits strings (k tt) rd post -> emits strings (w_bind (w_each f l) k) rd post.
Proof.
  intros Pf Pk Hf Hk. unfold w_each. induction l as [|x l IH]; simpl; [exact Hk|].
  apply emits_assoc. apply Hf; [intros []; apply _|exact IH].
Qed.

Lemma linked_map {A B St} (follows : St -> B -> Prop) (next : B -> St) (h : A -> B) st l :
  linked follows next st (map h l) <-> linked (fun st x => follows st (h x)) (fun x => next (h x)) st l.
Proof. revert st. induction l as [|x l IH]; intros st; simpl; [done|]. by rewrite IH. Qed.

(** What validation establishes. *)
Lemma validated input mode base target :
  validateWireTransitionInput input = Ok (mode, base, target) ->
  in_Target input = Some target /\ in_ProjectID input <> "" /\
  base_identity_error mode base (Generation target) (in_BaseStateToken input) = None /\
  base = from_option Generation 0 (in_Base input) /\ mode = from_option (fun _ => wireTransitionDelta) wireTransitionFull (in_Base input).
Proof.
  unfold validateWireTransitionInput. destruct (in_Target input) as [t|]; [|done].
  destruct (String.eqb_spec (in_ProjectID input) ""); [done|]. destruct (negb _); [done|].
  destruct (Generation t =? 0) eqn:E0; [done|]. destruct (in_Base input) as [b|].
  - destruct (negb _); [done|]. destruct (String.eqb (in_BaseStateToken input) "") eqn:Et; [done|].
    destruct (Generation b =? 0) eqn:Eb; [done|]. destruct (Generation t <? Generation b) eqn:Eg; [done|].
    intros [= <- <- <-]. simpl. by rewrite Eb, Eg, Et.
  - destruct (String.eqb_spec (in_BaseStateToken input) "") as [->|]; [|done]. simpl. by intros [= <- <- <-].
Qed.

(** ** The statements only extend the dictionary *)

#[local] Instance full_path_growth {S} t sc path : grows (S:=S) (write_full_path t sc path).
Proof.
  unfold write_full_path. destruct (full_path_op t path) as [op changed].
  assert (grows (S:=S) (writeWireTransitionPathOp op sc)) by (unfold writeWireTransitionPathOp; apply _). apply _.
Qed.
#[local] Instance path_op_growth {S} op sc : grows (S:=S) (writeWireTransitionPathOp op sc).
Proof. unfold writeWireTransitionPathOp. apply _. Qed.
#[local] Instance symbol_growth {S} m op : grows (S:=S) (write_symbol m op).
Proof. unfold write_symbol. apply _. Qed.
#[local] Instance path_ops_growth {S} mode target s p : grows (S:=S) (write_path_ops mode target s p).
Proof. unfold write_path_ops. destruct mode; apply _. Qed.
#[local] Instance symbol_ops_growth {S} mode target p : grows (S:=S) (write_symbol_ops mode target p).
Proof. unfold write_symbol_ops. destruct mode; apply _. Qed.
#[local] Instance key_growth {S} key : grows (S:=S) (intern_key key).
Proof. unfold intern_key. apply _. Qed.

#[local] Instance keys_growth {S} mode target p : grows (S:=S) (intern_keys mode target p).
Proof. unfold intern_keys. destruct mode; [unfold internFullOperationKeys|unfold internOperationKeys]; apply _. Qed.

#[local] Instance rows_growth {S} input mode target s p : grows (S:=S) (transition_rows input mode target s p).
Proof. unfold transition_rows. apply _. Qed.

Section Rows.
Context {S : Type} (strings : list string) `{SD : !SmallDictionary strings}.
Variables (input : wireTransitionInput) (mode : wireTransitionMode) (target : FactTable) (s : Z) (p : wirePlan).
Hypothesis Hok : frame_ok input mode target s p.

Lemma emits_path_ops :
  emits strings (write_path_ops (S:=S) mode target s p)
    (r_fold (length (frame_path_ops mode target p)) (read_path_op strings mode s) None)
    (fun _ r => fst r = map (wire_path_op s) (frame_path_ops mode target p)).
Proof.
  destruct Hok as [Hs _ _ (_ & Hall & Hlink) _ _]. unfold write_path_ops, frame_path_ops in *.
  rewrite Forall_forall in Hall. destruct mode.
  - rewrite length_map, map_map. apply linked_map in Hlink.
    eapply emits_linked; [apply _|intros; apply _| |exact Hlink]. intros path st Hin Hf.
    unfold write_full_path. destruct (full_path_op target path) as [op changed] eqn:E.
    apply emits_guard. intros _. apply emits_wrap. simpl in Hf |- *. rewrite E in Hf. simpl in Hf.
    replace (fst (full_path_op target path)) with op by (by rewrite E).
    apply emits_path_op; [apply _|done| |done]. apply Hall. apply list_elem_of_fmap. exists path. by rewrite E.
  - eapply emits_linked; [apply _|intros; apply _| |exact Hlink]. intros op st Hin Hf.
    apply emits_wrap. apply emits_path_op; auto.
Qed.

Lemma emits_symbol_ops {B} (rk : list wireTransitionSymbolOp * option (string * Z * string) -> R B) b :
  (forall st, rk (map wire_symbol_op (frame_symbol_ops mode target p), st) = r_ret b) ->
  writes (S:=S) strings (write_symbol_ops mode target p)
    (r_bind (r_fold (length (frame_symbol_ops mode target p)) (read_symbol_op strings mode) None) rk) b.
Proof.
  intros Hrk. destruct Hok as [_ _ _ _ (_ & Hall & Hlink) _]. unfold write_symbol_ops, frame_symbol_ops in *.
  rewrite Forall_forall in Hall. destruct mode.
  - rewrite length_map in *. apply linked_map in Hlink. rewrite map_map in Hrk.
    eapply emits_bind with (post := fun _ r => fst r =
      map (fun fact => wire_symbol_op (replace_symbol (ID fact) fact)) (rangeSymbolFacts target)); [apply _|apply _| |].
    + eapply emits_linked; [apply _|intros; apply _| |exact Hlink]. intros fact st Hin Hf.
      unfold write_symbol. apply emits_wrap. apply emits_symbol_op; [apply _| |done].
      apply Hall. apply list_elem_of_fmap. by exists fact.
    + intros [] [ops st] Hops. simpl in Hops. subst ops. rewrite Hrk.
      unfold w_guard. destruct (negb _); [by intros w w' a ?|]. by apply emits_ret.
  - intros w w' a Ha Hfl Hp Ht.
    assert (emits strings (w_each (write_symbol (S:=S) wireTransitionDelta) (plan_symbolOps p))
      (r_fold (length (plan_symbolOps p)) (read_symbol_op strings wireTransitionDelta) None)
      (fun _ r => fst r = map wire_symbol_op (plan_symbolOps p))) as H.
    { eapply emits_linked; [apply _|intros; apply _| |exact Hlink]. intros op st Hin Hf.
      unfold write_symbol. apply emits_wrap. apply emits_symbol_op; auto. }
    destruct (H w w' a Ha Hfl Hp Ht) as (Ht' & out & [ops st] & Hb & Hops & Hr). simpl in Hops. subst ops.
    split; [done|]. exists out, b. split_and!; [done|done|]. intros rest. unfold r_bind. by rewrite Hr, Hrk.
Qed.

Lemma emits_full_keys {A B} (k : unit -> W S A) (rd : R B) post :
  (forall u, grows (k u)) -> emits strings (k tt) rd post ->
  emits strings (w_bind (intern_keys mode target p) k) rd post.
Proof.
  intros Pk Hk. unfold intern_keys. destruct mode; apply emits_assoc.
  - apply emits_keys; [done|apply _|apply _|intros; by apply emits_key|].
    apply emits_keys; [done|apply _|done|intros; by apply emits_key|done].
  - apply emits_keys; [done|apply _|apply _|intros; by apply emits_key|]. apply emits_assoc.
    apply emits_keys; [done|apply _|apply _|intros; by apply emits_key|].
    apply emits_keys; [done|apply _|done| |done].
    intros op k' Pk' Hk'. unfold w_when. destruct (bool_decide _); [by apply emits_key|exact Hk'].
Qed.

(** The rows of a validated input. *)
Definition frame_transition (base : Z) : WireTableTransition :=
  mkWireTransition mode s base (Generation target) (in_ProjectID input) (in_BaseStateToken input)
    (map (wire_path_op s) (frame_path_ops mode target p)) (map wire_symbol_op (frame_symbol_ops mode target p)).

Lemma emits_transition_rows base :
  validateWireTransitionInput input = Ok (mode, base, target) ->
  writes (S:=S) strings (transition_rows input mode target s p)
    (read_rows mode s base (Generation target) strings) (frame_transition base).
Proof.
  intros Hv. destruct (validated _ _ _ _ Hv) as (_ & Hproj & Hid & _).
  pose proof Hok as [Hs [Hn1 Hn2] _ (Hpf & _) (Hsf & _) Hcount].
  unfold transition_rows, read_rows. emit @emits_text. rewrite (wire_text_id (in_ProjectID input)) by done.
  apply emits_r_guard; [by destruct (String.eqb_spec (in_ProjectID input) "")|].
  emit @emits_text. rewrite (wire_text_id (in_BaseStateToken input)) by done. rewrite Hid.
  apply emits_r_guard; [done|]. apply emits_full_keys; [apply _|].
  assert (path_operation_count mode p = len (frame_path_ops mode target p)) as Hpc.
  { unfold path_operation_count, frame_path_ops, len. destruct mode; [by rewrite length_map|done]. }
  assert (symbol_operation_count mode target p = len (frame_symbol_ops mode target p)) as Hsc.
  { unfold symbol_operation_count, frame_symbol_ops, len. destruct mode; [by rewrite length_map, Hcount|done]. }
  rewrite Hpc, Hsc. eapply writes_bind; [apply _|apply _|exact (emits_len strings _ Hpf)|]. cbv beta.
  eapply emits_bind; [apply _|apply _|apply emits_path_ops|].
  intros [] [ops st] Hops. simpl in Hops. subst ops. cbn beta iota.
  eapply writes_bind; [apply _|apply _|exact (emits_len strings _ Hsf)|]. cbv beta.
  apply emits_symbol_ops. intros st'. done.
Qed.
End Rows.

(** ** The header *)

#[local] Instance total_header {S} mode s base target l : total (S:=S) (transition_header mode s base target l).
Proof. unfold transition_header. apply _. Qed.

Lemma supported_known s : known_schema s -> supported_schema s = true /\ is_u64 s.
Proof.
  unfold known_schema. rewrite !elem_of_cons, elem_of_nil. intros H.
  repeat destruct H as [->|H]; [..|done]; (split; [reflexivity|unfold is_u64; lia]).
Qed.

Lemma emits_header {S} (strings : list string) mode s base target l :
  known_schema s -> is_u64 base -> 0 < target < 2 ^ 64 ->
  dictionary_ok l -> Forall canonical_entry l -> head l = Some "" -> NoDup l ->
  writes (S:=S) strings (transition_header mode s base target l) read_header (mode, s, base, target, l).
Proof.
  intros Hs Hb Ht Hl Hc Hh Hn. destruct (supported_known s Hs) as [Hsup Hu].
  unfold transition_header, read_header.
  emit @emits_put; [unfold is_u64, wireTransitionVersion; lia|]. apply emits_r_guard; [done|].
  emit @emits_put; [unfold is_u64; destruct mode; simpl; lia|].
  eapply emits_r_step with (b := mode); [by destruct mode|].
  emit @emits_put. apply emits_r_guard; [by rewrite Hsup|]. emit @emits_put. emit @emits_put; [unfold is_u64; lia|].
  apply emits_r_guard; [lia|].
  assert (map wire_entry l = l) as Hmap.
  { clear -Hc. induction Hc as [|x l Hx _ IH]; [done|]. simpl. by rewrite Hx, IH. }
  pose proof (emits_dictionary (S:=S) strings l Hl) as Hd. rewrite Hmap in Hd.
  eapply writes_last; [apply _|exact Hd|]. rewrite Hh. rewrite bool_decide_false by (intros H; by apply H). reflexivity.
Qed.

(** ** The whole frame *)

(** The dictionary a plan's rows leave. *)
Definition frame_dictionary (input : wireTransitionInput) (mode : wireTransitionMode) (target : FactTable) (s : Z)
    (p : wirePlan) : list string :=
  values (dict (fst (transition_rows input mode target s p (rows_writer None newStringTableV3 no_sink)))).

(** Texts the reader spells as the writer does. *)
Definition spelled_ok (l : list string) : Prop :=
  fits l /\ Forall (fun s => canonical_entry s /\ Z.of_nat (String.length s) < 2 ^ 64) l.

Lemma table_values_distinct t : table_ok t -> head (values t) = Some "" /\ NoDup (values t) /\
  Forall (fun s => ValidString s = true) (values t).
Proof.
  intros [Hi Hz Hv]. split; [by destruct (values t); [|simpl in Hz; by simplify_eq]|]. split; [|done].
  apply NoDup_alt. intros i j x H1 H2.
  assert (indexes t !! x = Some (Z.of_nat i)) as E1 by (apply Hi; rewrite Nat2Z.id; split; [lia|done]).
  assert (indexes t !! x = Some (Z.of_nat j)) as E2 by (apply Hi; rewrite Nat2Z.id; split; [lia|done]).
  rewrite E1 in E2. injection E2. lia.
Qed.

Lemma plain_rows input mode target s p :
  let w := fst (transition_rows input mode target s p (rows_writer None newStringTableV3 no_sink)) in
  flush w = None /\ w_err w = None.
Proof.
  destruct (rows_growth input mode target s p (rows_writer None newStringTableV3 no_sink)) as (Hf & _ & He).
  by destruct (He eq_refl).
Qed.

(** Rows and header, written as [encode] writes them without an arena, read
    back as one transition. *)
Lemma frame_decodes input mode base target s p rows :
  validateWireTransitionInput input = Ok (mode, base, target) -> frame_ok input mode target s p ->
  transition_rows input mode target s p (rows_writer None newStringTableV3 no_sink) = (rows, Ok tt) ->
  spelled_ok (values (dict rows)) ->
  (flush rows = None /\ w_err rows = None) /\
  decode_table_transition
    (w_bytes (fst (transition_header mode s base (Generation target) (values (dict rows)) frame_writer)) ++
     w_bytes rows) = Ok (frame_transition input mode target s p base).
Proof.
  intros Hv Hok Hrows [Hfit Hspell].
  assert (SmallDictionary (values (dict rows))) as SD.
  { unfold SmallDictionary, fits, PACKED_COLLECTION_LIMIT in *. lia. }
  pose proof (emits_transition_rows (S:=list (list Z)) (values (dict rows)) input mode target s p Hok base Hv) as Hw.
  destruct (Hw _ _ _ Hrows eq_refl (reflexivity _) newStringTable_ok) as (Htab & out & b & Hb & -> & Hr).
  destruct (table_values_distinct _ Htab) as (Hhead & Hnd & Hvalid).
  assert (0 < Generation target < 2 ^ 64 /\ is_u64 base) as [Hg Hbase].
  { destruct (validated _ _ _ _ Hv) as (_ & _ & _ & -> & _). destruct Hok as [_ _ [Hg1 Hg2] _ _ _].
    split; [done|]. destruct (in_Base input); [done|unfold is_u64; simpl; lia]. }
  assert (dictionary_ok (values (dict rows))) as Hdict.
  { split; [done|]. rewrite Forall_forall in Hspell, Hvalid |- *. intros x Hx. split; [by apply Hvalid|by apply Hspell]. }
  assert (Forall canonical_entry (values (dict rows))) as Hcan.
  { eapply Forall_impl; [exact Hspell|]. by intros x []. }
  destruct (total_header (S:=unit) mode s base (Generation target) (values (dict rows)) frame_writer) as (frame & [] & Hf).
  pose proof (emits_header (S:=unit) (values (dict frame)) mode s base (Generation target) (values (dict rows))
    ltac:(by destruct Hok) Hbase Hg Hdict Hcan Hhead Hnd) as Hhdr.
  destruct (Hhdr _ _ _ Hf eq_refl (reflexivity _) newStringTable_ok) as (_ & head & b' & Hb' & -> & Hr').
  split; [pose proof (plain_rows input mode target s p) as H; by rewrite Hrows in H|].
  rewrite Hf. simpl fst. rewrite Hb, Hb'. simpl app. unfold decode_table_transition, read_table_transition, r_bind.
  rewrite Hr'. specialize (Hr []). rewrite app_nil_r in Hr. by rewrite Hr.
Qed.

(** ** What [Encode] hands out *)

(** An encoder between two calls. *)
Record encoder_ok (e : wireTransitionEncoder) : Prop := {
  enc_dict : forall t, e_dict e = Some t -> table_ok t;
  enc_plan : e_plan e = releasePlan (e_plan e);
  enc_schema : e_tableSchema e = 0 \/ known_schema (e_tableSchema e);
}.

Definition frame_schema (e : wireTransitionEncoder) : Z :=
  if e_tableSchema e =? 0 then TypeFactsTableSchemaVersion else e_tableSchema e.

Record frame_accepted (mode : wireTransitionMode) (target : FactTable) (s : Z) (p : wirePlan) : Prop := {
  fa_paths : Forall (path_op_accepted s) (frame_path_ops mode target p);
  fa_symbols : Forall (symbol_op_accepted mode) (frame_symbol_ops mode target p);
  fa_changed : mode = wireTransitionFull -> Forall (fun path => snd (full_path_op target path) = true) (plan_paths p);
}.

Lemma rows_total {S} input mode target s p :
  frame_accepted mode target s p -> symbolFactsCount target = length (rangeSymbolFacts target) ->
  total (S:=S) (transition_rows input mode target s p).
Proof.
  intros [Hp Hs Hc] Hcount. unfold transition_rows. do 2 (apply total_bind; [apply _|]; intros _).
  apply total_bind.
  { unfold intern_keys, internFullOperationKeys, internOperationKeys, intern_key. destruct mode; apply _. }
  intros _. apply total_bind; [apply _|]. intros _. rewrite Forall_forall in Hp. rewrite Forall_forall in Hs. apply total_bind.
  { unfold write_path_ops, frame_path_ops in *. destruct mode; apply total_each; intros x Hx.
    - unfold write_full_path. specialize (Hc eq_refl). rewrite Forall_forall in Hc. specialize (Hc x Hx).
      specialize (Hp (fst (full_path_op target x)) ltac:(by apply list_elem_of_fmap; exists x)).
      destruct (full_path_op target x) as [op changed]. simpl in *. subst changed.
      apply total_bind; [by apply total_guard|]. intros _. by apply total_wrap, total_path_op.
    - by apply total_wrap, total_path_op, Hp. }
  intros _. apply total_bind; [apply _|]. intros _. unfold write_symbol_ops, frame_symbol_ops, write_symbol in *. destruct mode.
  - apply total_bind.
    + apply total_each. intros x Hx. apply total_wrap, total_symbol_op, Hs. apply list_elem_of_fmap. by exists x.
    + intros _. apply total_guard. simpl. unfold len. rewrite Hcount. by rewrite Z.eqb_refl.
  - apply total_each. intros x Hx. by apply total_wrap, total_symbol_op, Hs.
Qed.

(** Whether the call has nothing to send. *)
Definition nothing_changed (mode : wireTransitionMode) (base : Z) (target : FactTable) (p : wirePlan) : bool :=
  bool_decide (mode = wireTransitionDelta) && (base =? Generation target) &&
  (path_operation_count mode p =? 0) && (symbol_operation_count mode target p =? 0).

(** C30: What Encode hands out for an accepted plan, the client's frame decoder reads back: the
    same mode, generations and identity, and the plan's path and symbol operations in their wire
    form, with the counts Encode reports; and when nothing changed there are no bytes. *)
Theorem encode_decodes e input mode base target p :
  encoder_ok e -> validateWireTransitionInput input = Ok (mode, base, target) ->
  plan_transition input target (releasePlan (e_plan e)) = Ok p ->
  let s := frame_schema e in
  frame_ok input mode target s p -> frame_accepted mode target s p ->
  spelled_ok (frame_dictionary input mode target s p) ->
  exists enc, snd (Encode e input) = Ok enc /\ enc_Mode enc = mode /\
    if nothing_changed mode base target p then Bytes enc = []
    else decode_table_transition (Bytes enc) = Ok (frame_transition input mode target s p base) /\
         PathOperations enc = len (wt_paths (frame_transition input mode target s p base)) /\
         SymbolOperations enc = len (wt_symbols (frame_transition input mode target s p base)).
Proof.
  intros He Hv Hp s Hok Hacc Hspell. unfold Encode, encode. rewrite Hv. simpl e_plan. rewrite Hp.
  unfold nothing_changed.
  destruct (bool_decide (mode = wireTransitionDelta) && (base =? Generation target) &&
    (path_operation_count mode p =? 0) && (symbol_operation_count mode target p =? 0)); [by eexists|].
  simpl e_dict. simpl e_tableSchema. change (if e_tableSchema e =? 0 then _ else _) with s.
  rewrite resetDictionary_new by apply He.
  destruct (rows_total (S:=list (list Z)) input mode target s p Hacc ltac:(by destruct Hok) (rows_writer None newStringTableV3 no_sink))
    as (rows & [] & Hrows).
  unfold frame_dictionary in Hspell. rewrite Hrows in Hspell |- *. simpl fst in Hspell.
  destruct (frame_decodes input mode base target s p rows Hv Hok Hrows Hspell) as [[Hfl Herr] Hdec].
  unfold finish. rewrite Herr, Hfl. simpl. rewrite Herr.
  destruct (transition_header mode s base (Generation target) (values (dict rows)) frame_writer) as [frame r].
  match goal with |- context [detachFrame ?x ?b] =>
    assert (snd (detachFrame x b) = b) as Hdet by (unfold detachFrame; by destruct (_ <=? _));
    destruct (detachFrame x b) as [e' owned] end.
  simpl in Hdet. subst owned. eexists. split; [reflexivity|]. split; [done|]. split; [exact Hdec|].
  destruct Hok as [_ _ _ _ _ Hcount]. unfold frame_transition, frame_path_ops, frame_symbol_ops, len. simpl.
  destruct mode; simpl; rewrite !length_map, ?Hcount; done.
Qed.
End Frame.

(** ** A cold frame *)

Definition cold_table : FactTable :=
  mkFactTable 1 1 "p" [mkSourceFile "b.ts" (repeat 7 32)] [table_row "a.ts" 1; table_row "a.ts" 5; table_row "c.ts" 2]
    [store_row "a" 1; store_row "c" 2] [mkFileFact "c.ts" [] [] [] []] 7 None None None None None.
Definition cold_input : wireTransitionInput := mkTransitionInput "p" "" None (Some cold_table) false.
Definition new_encoder : wireTransitionEncoder := mkEncoder 0 None fresh_plan.

Definition cold_plan : wirePlan := planFull cold_table fresh_plan.

Ltac concrete :=
  repeat match goal with
  | |- _ /\ _ => split
  | |- Forall _ [] => constructor
  | |- Forall _ (_ :: _) => constructor
  | |- accepted _ => eexists; vm_compute; reflexivity
  | |- _ -> _ => intros
  | |- _ = _ => vm_compute; reflexivity
  | H : ?a = ?b |- _ => vm_compute in H; discriminate H
  | |- path_op_ok _ _ => split
  | |- symbol_op_ok _ => split
  | |- entity_ok _ => split
  | |- file_ok _ => split
  | |- path_op_accepted _ _ => split
  | |- symbol_op_accepted _ _ => split
  | |- entity_accepted _ _ _ => split
  | |- _ <> _ => discriminate
  | _ => progress simpl
  | _ => done
  | _ => unfold fits, len, location_ok, PACKED_COLLECTION_LIMIT; simpl; lia
  end.

Lemma cold_paths : frame_path_ops wireTransitionFull cold_table cold_plan =
  ltac:(let t := eval vm_compute in (frame_path_ops wireTransitionFull cold_table cold_plan) in exact t).
Proof. vm_compute. reflexivity. Qed.

Lemma cold_frame_ok : frame_ok cold_input wireTransitionFull cold_table 17 cold_plan.
Proof.
  split; rewrite ?cold_paths; unfold frame_symbol_ops. 1: { unfold known_schema. rewrite !elem_of_cons. tauto. }
  all: concrete. all: try (unfold locations_ok; concrete). all: try (unfold declarations_ok; concrete).
Qed.

Lemma cold_frame_accepted : frame_accepted wireTransitionFull cold_table 17 cold_plan.
Proof.
  split; rewrite ?cold_paths; unfold frame_symbol_ops; concrete.
  all: try (unfold constant_accepted; concrete).
Qed.

Lemma cold_spelled : spelled_ok (frame_dictionary cold_input wireTransitionFull cold_table 17 cold_plan).
Proof.
  assert (frame_dictionary cold_input wireTransitionFull cold_table 17 cold_plan =
    [""; "p"; "a.ts"; "b.ts"; "c.ts"; "a"; "c"; "f.ts"]) as -> by (vm_compute; reflexivity).
  split; [|repeat constructor; simpl; lia]. unfold fits, len, PACKED_COLLECTION_LIMIT. simpl. lia.
Qed.

Lemma new_encoder_ok : encoder_ok new_encoder.
Proof. split; simpl; [discriminate|reflexivity|by left]. Qed.

Lemma encode_decodes_witness :
  exists enc, snd (Encode new_encoder cold_input) = Ok enc /\ PathOperations enc = 3 /\
    decode_table_transition (Bytes enc) =
      Ok (frame_transition cold_input wireTransitionFull cold_table 17 cold_plan 0).
Proof.
  destruct (encode_decodes new_encoder cold_input wireTransitionFull 0 cold_table cold_plan new_encoder_ok
    eq_refl eq_refl cold_frame_ok cold_frame_accepted cold_spelled) as (enc & He & _ & Hd & Hp & _).
  exists enc. split; [exact He|]. split; [rewrite Hp; vm_compute; reflexivity|exact Hd].
Defined.
