(* ===== verification/Codec.v ===== *)
(** * The codec, component by component

    What the sections of a frame promise each on its own: the integers, the
    dictionary, the closed vocabularies, one entity run, and the schema a row
    is written for. *)

From S2P Require Import Prelude GoStd GoText GoBytes StringTable Model Domain SymbolStore FactTable TransitionDiff Writer Rows Transition Totality Reader Emits RowsRoundtrip DictionaryRoundtrip EntityRoundtrip.
Open Scope Z_scope.

(** ** Integers *)

Lemma plain_put {S} v (w : packedWriter S) :
  flush w = None -> w_bytes (fst (put_u64 v w)) = w_bytes w ++ uvarint_bytes 9 v.
Proof. intros Hw. unfold put_u64, maybeFlush. simpl. by rewrite Hw. Qed.

(** Every 64-bit integer, plain or zigzag, takes between one and ten bytes and is read back
    whatever follows it. *)
Theorem packed_integers_roundtrip {S} (w : packedWriter S) u v :
  flush w = None -> is_u64 u -> is_i64 v ->
  exists ub vb, w_bytes (fst (put_u64 u w)) = w_bytes w ++ ub /\ w_bytes (fst (signed v w)) = w_bytes w ++ vb /\
    (1 <= length ub <= 10)%nat /\ (1 <= length vb <= 10)%nat /\
    forall rest, cursor_u64 (ub ++ rest) = Ok (u, rest) /\ cursor_signed (vb ++ rest) = Ok (v, rest).
Proof.
  intros Hw Hu Hv. exists (uvarint_bytes 9 u), (uvarint_bytes 9 (zigzag v)).
  unfold signed. fold (zigzag v). rewrite !plain_put by done.
  pose proof (uvarint_bytes_length 9 u). pose proof (uvarint_bytes_length 9 (zigzag v)).
  split_and!; try done; try lia. intros rest. split; [by apply cursor_u64_bytes|by apply cursor_signed_bytes].
Qed.

(** ** Closed vocabularies *)

(** The writer's codes and the reader's tags are inverse to each other. *)
Definition inverse_codes {A} (code : A -> result Z) (parse : Z -> R A) : Prop :=
  forall a k, is_u64 k -> (code a = Ok k <-> forall input, parse k input = Ok (a, input)).

Lemma inverse_of_tags {A} (code : A -> result Z) tags msg :
  (forall a, decodes (code a) (parse_tag tags msg) a) ->
  Forall (fun ka => code (snd ka) = Ok (fst ka)) (imap (fun i a => (Z.of_nat i, a)) tags) ->
  inverse_codes code (parse_tag tags msg).
Proof.
  intros Hd Ht a k Hk. split; [intros Hc; by apply Hd in Hc as [_ ?]|].
  intros Hp. specialize (Hp []). unfold parse_tag in Hp.
  destruct (k <? len tags); [|done]. destruct (tags !! Z.to_nat k) as [a'|] eqn:E; [|done].
  injection Hp as ->. rewrite Forall_lookup in Ht.
  assert (imap (fun i a => (Z.of_nat i, a)) tags !! Z.to_nat k = Some (k, a)) as Hl.
  { rewrite list_lookup_imap, E. simpl. by rewrite Z2Nat.id by (unfold is_u64 in Hk; lia). }
  by apply Ht in Hl.
Qed.

Ltac inverse lem := apply inverse_of_tags; [exact lem|by repeat constructor].

(** The codes of every closed vocabulary and the client's tags are inverse to each other;
    callability degrades as its schema demands, and value domains keep every possibility. *)
Theorem vocabularies_inverse :
  inverse_codes wireTransitionValidityCode parse_resolved_call_validity /\
  inverse_codes wireTransitionCallKindCode parse_call_kind /\
  inverse_codes wireTransitionMappingStatusCode parse_argument_mapping_status /\
  inverse_codes wireTransitionConstructionWitnessCode parse_construction_witness /\
  inverse_codes wireTransitionConstructabilityCode parse_constructability /\
  inverse_codes wireTransitionArrayShapeCode parse_array_shape /\
  inverse_codes wireTransitionReferenceSpaceCode parse_reference_space /\
  (forall s v, decodes (wireTransitionCallabilityCode v s) (fun k => parse_callability k s) (degrade_callability v s)) /\
  (forall d input, parse_runtime_value_domain (wireTransitionRuntimeValueDomainBits d) input = Ok (d, input)) /\
  (forall d input, domain_ok d -> IsPresent d = true ->
     parse_primitive_value_domain (wireTransitionPrimitiveValueDomainBits d) input = Ok (d, input)).
Proof.
  split; [inverse decodes_validity|]. split; [inverse decodes_call_kind|]. split; [inverse decodes_status|].
  split; [inverse decodes_witness|]. split; [inverse decodes_constructability|].
  split; [inverse decodes_array_shape|]. split; [inverse decodes_reference_space|].
  split; [intros; apply decodes_callability|]. split; [intros; apply runtime_bits_decode|].
  intros. by apply domain_decode.
Qed.

(** ** Frozen schemas *)

(** A row written for a schema the client knows sets only the flags of that schema, and no
    callability tag a reader of schema 14 or earlier would refuse. *)
Theorem rows_stay_in_schema entity s :
  known_schema s ->
  outside (entity_flags entity s) (known_entity_flags s) = false /\
  (s < TypeFactsTableSchemaVersionV15 -> forall v k, wireTransitionCallabilityCode v s = Ok k -> 0 <= k < 4).
Proof.
  intros Hs. split; [by apply entity_flags_known|]. intros Hlt v k Hk.
  destruct (decodes_callability v s k Hk) as [Hu Hp]. specialize (Hp []). unfold parse_callability in Hp.
  unfold TypeFactsTableSchemaVersionV15 in *. replace (15 <=? s) with false in Hp by lia.
  destruct (k =? 4) eqn:E4; cbn [andb negb] in Hp; [discriminate Hp|]. unfold parse_tag in Hp.
  match type of Hp with context [k <? ?n] => change n with 5 in Hp end.
  destruct (k <? 5) eqn:E5; [|discriminate Hp]. unfold is_u64 in Hu. lia.
Qed.

(** The runtime value domain is not gated: at schema 3, which the client
    knows too, the flag is out of the client's vocabulary. *)
Example runtime_domain_ungated :
  let entity := mkEntityFact (mkLocation "a" 0 1) "" false None None "" (Some (mkRuntimeValueDomain true false false false))
    (mkPrimitiveValueDomain 0) [] 0 None None "" None None "" "" in
  supported_schema 3 = true /\ outside (entity_flags entity 3) (known_entity_flags 3) = true.
Proof. vm_compute. done. Qed.

(** ** Sections of a frame *)

(** The dictionary section, prefix-coded texts and raw digests, is read back as the strings
    that were interned. *)
Theorem dictionary_section_roundtrip {S} (w : packedWriter S) l :
  flush w = None -> StringTable.table_ok (dict w) -> dictionary_ok l -> Forall canonical_entry l ->
  exists out, w_bytes (fst (appendPackedDictionary l w)) = w_bytes w ++ out /\
    snd (appendPackedDictionary l w) = Ok tt /\
    forall rest, decode_packed_strings (out ++ rest) = Ok (l, rest).
Proof.
  intros Hw Ht Hl Hc. assert (map wire_entry l = l) as Hmap.
  { clear -Hc. induction Hc as [|x l Hx _ IH]; [done|]. simpl. by rewrite Hx, IH. }
  destruct (total_dictionary l w) as (w' & [] & E). rewrite E.
  destruct (emits_dictionary (values (dict w')) l Hl w w' tt E Hw (reflexivity _) Ht) as (_ & out & b & Hb & -> & Hr).
  rewrite Hmap in Hr. by exists out.
Qed.

(** An entity run that is written without error is read back by the client, at every table
    schema it knows, as the rows in their wire form for that schema. *)
Theorem entity_run_roundtrip {S} (w w' : packedWriter S) path entities s :
  known_schema s -> fits entities -> Forall entity_ok entities -> flush w = None -> StringTable.table_ok (dict w) ->
  writeWireTransitionEntityRun path entities s w = (w', Ok tt) -> fits (values (dict w')) ->
  exists out, w_bytes w' = w_bytes w ++ out /\
    forall rest, decode_entity_run (values (dict w')) (wire_text path) s (out ++ rest) =
      Ok (map (wire_entity s) entities, rest).
Proof.
  intros Hs Hf He Hw Ht Hrun Hfit.
  assert (SmallDictionary (values (dict w'))) as SD.
  { unfold SmallDictionary, fits, PACKED_COLLECTION_LIMIT in *. lia. }
  destruct (emits_entity_run (values (dict w')) path entities s Hs Hf He w w' tt Hrun Hw (reflexivity _) Ht)
    as (_ & out & b & Hb & -> & Hr).
  by exists out.
Qed.

(** ** Concrete rows *)

Definition plain_writer : packedWriter unit := mkWriter [] newStringTableV3 None 0 0 None tt.

Lemma packed_integers_roundtrip_witness :
  exists ub vb, w_bytes (fst (put_u64 300 plain_writer)) = ub /\ w_bytes (fst (signed (-3) plain_writer)) = vb /\
    cursor_u64 (ub ++ [9]) = Ok (300, [9]) /\ cursor_signed (vb ++ [9]) = Ok (-3, [9]).
Proof.
  destruct (packed_integers_roundtrip plain_writer 300 (-3) eq_refl ltac:(unfold is_u64; lia) ltac:(unfold is_i64; lia))
    as (ub & vb & Hu & Hv & _ & _ & H).
  exists ub, vb. destruct (H [9]). split_and!; [exact Hu|exact Hv|assumption|assumption].
Defined.

Lemma rows_stay_in_schema_witness :
  outside (entity_flags (empty_entity (mkLocation "a.ts" 0 4)) 9) (known_entity_flags 9) = false.
Proof.
  apply (rows_stay_in_schema (empty_entity (mkLocation "a.ts" 0 4)) 9).
  unfold known_schema. rewrite !elem_of_cons. tauto.
Defined.

Definition sample_dictionary : list string := [""; "src/a.ts"; "src/b.ts"; "symbol:h:0123456789abcdef01234567"].

Lemma dictionary_section_roundtrip_witness :
  exists out, w_bytes (fst (appendPackedDictionary sample_dictionary plain_writer)) = out /\
    decode_packed_strings (out ++ [1]) = Ok (sample_dictionary, [1]).
Proof.
  assert (dictionary_ok sample_dictionary) as Hd.
  { split; [unfold fits, PACKED_COLLECTION_LIMIT, len; simpl; lia|]. repeat constructor; simpl; lia. }
  destruct (dictionary_section_roundtrip plain_writer sample_dictionary eq_refl newStringTable_ok Hd
    ltac:(repeat constructor; vm_compute; reflexivity)) as (out & Hb & _ & Hr).
  exists out. split; [exact Hb|apply Hr].
Defined.

Definition sample_run : list EntityFact := [empty_entity (mkLocation "a.ts" 2 4); empty_entity (mkLocation "a.ts" 7 9)].

Lemma entity_run_roundtrip_witness :
  exists out, w_bytes (fst (writeWireTransitionEntityRun "a.ts" sample_run 17 plain_writer)) = out /\
    decode_entity_run [""] "a.ts" 17 (out ++ [5]) = Ok (sample_run, [5]).
Proof.
  assert (Forall entity_ok sample_run) as He.
  { repeat constructor; simpl; try done; unfold len; simpl; lia. }
  destruct (entity_run_roundtrip plain_writer (fst (writeWireTransitionEntityRun "a.ts" sample_run 17 plain_writer))
    "a.ts" sample_run 17 ltac:(unfold known_schema; rewrite !elem_of_cons; tauto)
    ltac:(unfold fits, PACKED_COLLECTION_LIMIT, len; simpl; lia) He eq_refl newStringTable_ok
    ltac:(vm_compute; reflexivity) ltac:(unfold fits, PACKED_COLLECTION_LIMIT, len; vm_compute; discriminate))
    as (out & Hb & Hr).
  exists out. split; [exact Hb|apply (Hr [5])].
Defined.

(** A text that looks like a hashed symbol in upper case is packed as its
    digest and comes back in lower case, where it may repeat another entry. *)
Example upper_case_digest :
  let upper := "symbol:h:0123456789ABCDEF01234567" in
  let lower := "symbol:h:0123456789abcdef01234567" in
  decode_packed_strings (w_bytes (fst (appendPackedDictionary [""; upper; lower] plain_writer))) =
    Ok ([""; lower; lower], []).
Proof. vm_compute. reflexivity. Qed.
