(* ===== verification/EncoderLife.v ===== *)
(** * The encoder between calls, and its two ways out

    Whatever a call returns, it leaves the encoder clean; and handing the rows
    to an arena in chunks sends the bytes of the detached frame. *)

From S2P Require Import Prelude GoStd GoText GoBytes SortedPaths Model FactEqual SymbolStore FactTable TransitionDiff StringTable Writer Stream Rows Transition Totality Reader Emits RowsRoundtrip DictionaryRoundtrip EntityRoundtrip OpsRoundtrip FrameRoundtrip.
Open Scope Z_scope.

Section Life.
Context `{BK : !Backing} `{MR : !MapRange}.

(** No dictionary yet or a fresh one, and nothing planned. *)
Definition encoder_clean (e : wireTransitionEncoder) : Prop :=
  (e_dict e = None \/ e_dict e = Some newStringTableV3) /\ e_plan e = mkPlan [] [] [] [].

Lemma reset_nonempty d : values d <> [] -> resetDictionary (Some d) = newStringTableV3.
Proof. unfold resetDictionary. by destruct (values d). Qed.

Lemma clean_dict e : encoder_clean e -> resetDictionary (e_dict e) = newStringTableV3.
Proof. by intros [[->| ->] _]. Qed.

(** The rows keep the empty string at the front of the dictionary. *)
Lemma rows_dictionary {S} input mode target s p (w : packedWriter S) :
  values (dict w) <> [] -> values (dict (fst (transition_rows input mode target s p w))) <> [].
Proof.
  intros Hne. destruct (rows_growth input mode target s p w) as (_ & [k Hk] & _). rewrite Hk.
  by destruct (values (dict w)).
Qed.

Lemma finish_dict {S} (w : packedWriter S) : dict (fst (finish w)) = dict w.
Proof.
  unfold finish, flush_now. destruct (w_err w), (flush w) as [f|]; try done.
  destruct (negb _); [|done]. by destruct (f (sink w) (w_bytes w)).
Qed.

Lemma close_clean e d : values d <> [] -> e_dict e = None \/ e_dict e = Some d -> encoder_clean (close_encoder e).
Proof.
  intros Hd He. unfold close_encoder, encoder_clean. simpl. split; [right|done]. f_equal.
  by destruct He as [->| ->]; [|apply reset_nonempty].
Qed.

Lemma detach_dict e d frame : e_dict e = Some d ->
  e_dict (fst (detachFrame e frame)) = None \/ e_dict (fst (detachFrame e frame)) = Some d.
Proof. intros He. unfold detachFrame. destruct (_ <=? _); [by left|by right]. Qed.

Lemma detach_streamed_dict e d flushed frame : e_dict e = Some d ->
  e_dict (detach_streamed e flushed frame) = None \/ e_dict (detach_streamed e flushed frame) = Some d.
Proof. intros He. unfold detach_streamed. destruct (_ <=? _); [by left|by right]. Qed.

Lemma detach_bytes e frame : snd (detachFrame e frame) = frame.
Proof. unfold detachFrame. by destruct (_ <=? _). Qed.

Lemma encode_clean {S} e input (arena : option (TransitionArena S)) s :
  encoder_clean e -> encoder_clean (fst (fst (encode e input arena s))).
Proof.
  intros He. unfold encode.
  destruct (validateWireTransitionInput input) as [[[mode base] target]|err]; [|done].
  simpl e_plan. destruct (plan_transition _ _ _) as [p|err]; [|by destruct He].
  destruct (_ && _ && _ && _); [by destruct He|].
  set (w0 := rows_writer _ _ _).
  assert (values (dict w0) <> []) as H0.
  { unfold w0, rows_writer. simpl e_dict. rewrite clean_dict by done. by destruct arena. }
  match goal with |- context [transition_rows ?a ?b ?c ?d ?f w0] =>
    pose proof (rows_dictionary a b c d f w0 H0) as H1; destruct (transition_rows a b c d f w0) as [rows r] end.
  simpl fst in H1. destruct r as [u|err]; [|by eapply close_clean; [exact H1|right]].
  destruct (finish rows) as [rows' [err|]]; [by eapply close_clean; [exact H1|right]|].
  destruct (transition_header _ _ _ _ _ _) as [frame r]. destruct arena as [a|].
  - destruct (Finish a _ _) as [s' [err|]]; [by eapply close_clean; [exact H1|right]|].
    eapply close_clean; [exact H1|]. by apply detach_streamed_dict.
  - set (e' := set_dict _ _). pose proof (detach_dict e' (dict rows) (w_bytes frame ++ w_bytes rows') eq_refl) as Hd.
    destruct (detachFrame e' _) as [e'' owned]. by eapply close_clean; [exact H1|].
Qed.

(** C32: Whatever a call returns, it leaves the encoder with a fresh dictionary or none and an
    empty plan, with its schema unchanged, and untouched when the input is invalid. *)
Theorem encoder_stays_clean {S} e input (arena : option (TransitionArena S)) s :
  encoder_clean e ->
  encoder_clean (fst (Encode e input)) /\ encoder_clean (fst (fst (EncodeInto e input arena s))) /\
  e_tableSchema (fst (Encode e input)) = e_tableSchema e /\
  (is_ok (validateWireTransitionInput input) = false -> fst (Encode e input) = e).
Proof.
  intros He. unfold Encode, EncodeInto. split.
  { pose proof (encode_clean e input None no_sink He) as H. by destruct (encode e input None no_sink) as [[]]. }
  split. { destruct arena as [a|]; [by apply encode_clean|done]. }
  unfold encode. destruct (validateWireTransitionInput input) as [[[mode base] target]|err]; [|done].
  split; [|done]. destruct (plan_transition _ _ _) as [p|err]; [|done].
  destruct (_ && _ && _ && _); [done|]. destruct (transition_rows _ _ _ _ _ _) as [rows r].
  destruct r as [u|err]; [|done]. destruct (finish rows) as [rows' [err|]]; [done|].
  destruct (transition_header _ _ _ _ _ _) as [frame f]. unfold detachFrame. by destruct (_ <=? _).
Qed.

(** ** Streaming *)

Lemma rows_program {S T} input mode target s p :
  Forall digest_ok (frame_path_ops mode target p) ->
  program (S:=S) (T:=T) (transition_rows input mode target s p) (transition_rows input mode target s p).
Proof.
  intros Hd. rewrite Forall_forall in Hd. unfold transition_rows.
  do 2 (apply program_bind; [apply _|]; intros _). apply program_bind.
  { unfold intern_keys, internFullOperationKeys, internOperationKeys, intern_key. destruct mode; apply _. }
  intros _. apply program_bind; [apply _|]. intros _.
  assert (forall {X} (f : X -> W S unit) (f' : X -> W T unit) l, (forall x, x ∈ l -> program (f x) (f' x)) ->
    program (w_each f l) (w_each f' l)) as Heach.
  { intros X f f' l. unfold w_each. generalize tt. induction l as [|x l IH]; intros u Hf; simpl; [apply _|].
    apply program_bind; [apply Hf; set_solver|]. intros. apply IH. intros. apply Hf. set_solver. }
  apply program_bind.
  { unfold write_path_ops, frame_path_ops in *. destruct mode; apply Heach; intros x Hx.
    - unfold write_full_path. specialize (Hd (fst (full_path_op target x)) ltac:(by apply list_elem_of_fmap; exists x)).
      destruct (full_path_op target x) as [op changed]. simpl in Hd.
      apply program_bind; [apply _|]. intros _. apply program_wrap. by apply program_path_op.
    - by apply program_wrap, program_path_op, Hd. }
  intros _. apply program_bind; [apply _|]. intros _. unfold write_symbol_ops, write_symbol. destruct mode; apply _.
Qed.

Section Into.
Context {S : Type} (a : TransitionArena S) (s0 : S).

(** What the arena took for a frame of [bytes]: bounded nonempty chunks of
    rows, then the header and dictionary. *)
Definition streamed_as (bytes : list Z) (s : S) : Prop :=
  exists s1 chunks frame, fed (AppendRows a) s0 s1 chunks /\ Finish a s1 frame = (s, None) /\ bytes = frame ++ concat chunks /\
    Forall (fun c => 0 < len c < streamedWireTransitionChunk + max_write) chunks.

(** The arena was handed rows only. *)
Definition unfinished (s : S) : Prop :=
  (exists chunks, fed (AppendRows a) s0 s chunks) \/ exists cause, refused (AppendRows a) s0 s cause.

(** The arena refused a chunk or the frame. *)
Definition arena_refused (s : S) (err : error) : Prop :=
  (exists cause, err = ErrWrap "stream transition rows" cause /\ refused (AppendRows a) s0 s cause) \/
  exists cause s1 chunks frame, err = ErrWrap "finish transition arena" cause /\
    fed (AppendRows a) s0 s1 chunks /\ Finish a s1 frame = (s, Some cause).

Lemma rows_writers_in_step {T} d (t : T) :
  in_step (AppendRows a) s0 streamedWireTransitionChunk (rows_writer (Some a) d s0) (rows_writer None d t).
Proof. split; try done. intros _. exists []. split_and!; [constructor|done..]. Qed.

Lemma in_step_unfinished {T} limit w (p : packedWriter T) : in_step (AppendRows a) s0 limit w p -> unfinished (sink w).
Proof.
  intros H. destruct (w_err w) as [e|] eqn:E; [right; exists e; by eapply step_err|]. left.
  destruct (step_fed _ _ _ _ _ H E) as (chunks & Hf & _). by exists chunks.
Qed.

(** The rows of both writers, and what finishing the streamed one does. *)
Lemma encode_streams e input :
  (forall mode base target p, validateWireTransitionInput input = Ok (mode, base, target) ->
     plan_transition input target (releasePlan (e_plan e)) = Ok p -> Forall digest_ok (frame_path_ops mode target p)) ->
  match EncodeInto e input (Some a) s0 with
  | (_, s, Ok enc) =>
      exists plain, snd (Encode e input) = Ok plain /\ Bytes enc = [] /\ enc_Mode plain = enc_Mode enc /\
        PathOperations plain = PathOperations enc /\ SymbolOperations plain = SymbolOperations enc /\
        (Bytes plain = [] /\ s = s0 \/ streamed_as (Bytes plain) s)
  | (_, s, Err err) =>
      snd (Encode e input) = Err err /\ unfinished s \/
      is_ok (snd (Encode e input)) = true /\ arena_refused s err
  end.
Proof.
  assert (unfinished s0) as H0 by (left; exists []; constructor).
  intros Hd. unfold Encode, EncodeInto, encode.
  destruct (validateWireTransitionInput input) as [[[mode base] target]|err]; [|by left].
  simpl e_plan. destruct (plan_transition _ _ _) as [p|err] eqn:Hp; [|by left].
  specialize (Hd _ _ _ _ eq_refl Hp).
  destruct (_ && _ && _ && _).
  { eexists. split; [done|]. simpl. split_and!; auto. }
  simpl e_dict. simpl e_tableSchema. set (schema := if _ =? 0 then _ else _). set (d := resetDictionary _).
  pose proof (rows_program (S:=S) (T:=list (list Z)) input mode target schema p Hd) as Hprog.
  destruct (program_in_step _ _ streamedWireTransitionChunk ltac:(reflexivity) _ _ _ _ Hprog (rows_writers_in_step d no_sink)) as [Hr Hstep].
  destruct (rows_growth input mode target schema p (rows_writer None d no_sink)) as (_ & _ & Hplain).
  destruct (Hplain eq_refl) as [Herr _]. clear Hplain Hprog.
  destruct (transition_rows _ _ _ _ _ (rows_writer (Some _) d s0)) as [rows r].
  destruct (transition_rows _ _ _ _ _ (rows_writer None d no_sink)) as [rows' r']. simpl in Hr, Hstep, Herr. subst r'.
  destruct r as [u|err]; [|left; split; [done|by eapply in_step_unfinished]].
  rewrite (finish_plain _ _ _ _ _ Hstep Herr).
  pose proof (finish_in_step _ _ streamedWireTransitionChunk ltac:(reflexivity) _ _ Hstep) as Hfin.
  pose proof (finish_dict rows) as Hfd. pose proof (step_dict _ _ _ _ _ Hstep) as Hdict.
  destruct (finish rows) as [rows1 [err|]]; simpl in Hfin, Hfd; rewrite ?Hfd, ?Hdict;
    destruct (transition_header _ _ _ _ _ _) as [frame f];
    match goal with |- context [detachFrame ?x ?b] =>
      pose proof (detach_bytes x b) as Hdet; destruct (detachFrame x b) as [e' owned] end;
    simpl in Hdet; subst owned.
  { right. split; [done|]. left. by exists err. }
  destruct Hfin as (chunks & F1 & F2 & _ & F3). simpl.
  destruct (Finish a (sink rows1) (w_bytes frame)) as [s [err|]] eqn:Ef.
  { right. split; [done|]. right. by exists err, (sink rows1), chunks, (w_bytes frame). }
  eexists. split; [done|]. simpl. split_and!; try done. right. exists (sink rows1), chunks, (w_bytes frame). by rewrite F2.
Qed.

(** C31: Streaming a transition into an arena is the detached frame in pieces: on success the
    arena was handed bounded nonempty chunks of rows and then the header, which together are the
    bytes of Encode, with the same counts; a failure is the failure of Encode or a refusal of
    the arena. *)
Theorem EncodeInto_streams e input :
  (forall mode base target p, validateWireTransitionInput input = Ok (mode, base, target) ->
     plan_transition input target (releasePlan (e_plan e)) = Ok p -> Forall digest_ok (frame_path_ops mode target p)) ->
  match EncodeInto e input (Some a) s0 with
  | (_, s, Ok enc) =>
      exists plain, snd (Encode e input) = Ok plain /\ Bytes enc = [] /\ enc_Mode plain = enc_Mode enc /\
        PathOperations plain = PathOperations enc /\ SymbolOperations plain = SymbolOperations enc /\
        (Bytes plain = [] /\ s = s0 \/ streamed_as (Bytes plain) s)
  | (_, s, Err err) =>
      snd (Encode e input) = Err err /\ unfinished s \/
      is_ok (snd (Encode e input)) = true /\ arena_refused s err
  end.
Proof. apply encode_streams. Qed.
End Into.
End Life.

Lemma encoder_stays_clean_witness : encoder_clean (fst (Encode new_encoder cold_input)).
Proof.
  exact (proj1 (encoder_stays_clean (S:=unit) new_encoder cold_input None tt (conj (or_introl eq_refl) eq_refl))).
Defined.

(** An arena that takes everything and keeps it. *)
Definition keeping_arena : TransitionArena (list (list Z)) :=
  mkArena _ (fun sent chunk => (sent ++ [chunk], None)) (fun sent frame => (sent ++ [frame], None)).

Lemma EncodeInto_streams_witness :
  exists sent plain, snd (fst (EncodeInto new_encoder cold_input (Some keeping_arena) [])) = sent /\
    snd (Encode new_encoder cold_input) = Ok plain /\ streamed_as keeping_arena [] (Bytes plain) sent.
Proof.
  assert (forall mode base target p, validateWireTransitionInput cold_input = Ok (mode, base, target) ->
    plan_transition cold_input target (releasePlan (e_plan new_encoder)) = Ok p ->
    Forall digest_ok (frame_path_ops mode target p)) as Hd.
  { intros mode base target p [= <- <- <-] [= <-]. vm_compute. repeat constructor. }
  pose proof (EncodeInto_streams keeping_arena [] new_encoder cold_input Hd) as H.
  destruct (EncodeInto _ _ _ _) as [[e sent] [enc|err]] eqn:E; [|vm_compute in E; discriminate E].
  destruct H as (plain & Hp & _ & _ & _ & _ & [[_ ->]|Hs]); [vm_compute in E; discriminate E|].
  exists sent, plain. split; [reflexivity|]. split; [exact Hp|exact Hs].
Defined.
