(* ===== verification/Arena.v ===== *)
(** * The transition arena

    [transition_arena.go]: a file the client owns, into which a transition is
    streamed. Rows start at a fixed offset, so that the header and dictionary,
    known only at the end, can be put right before them; a header at the front
    says where the frame is. The operating system may fail or stop short at any
    call. *)

From S2P Require Import Prelude GoStd GoText GoBytes SortedPaths Model FactEqual SymbolStore FactTable TransitionDiff StringTable Writer Stream Reader Rows Transition OpsRoundtrip FrameRoundtrip EncoderLife Modules Protocol.
Open Scope Z_scope.

(** ** Files *)

(** The contents of an [os.File], and where it is written next. Bytes that
    were never written read as zero. *)
Record file := mkFile {
  fl_at : Z -> Z;
  fl_size : Z;
  fl_pos : Z;
}.

(** What the operating system answers: an error for a call that moves no
    bytes, and how many of the [n] bytes of a write arrived. [WriteAt] stops
    short only with an error. *)
Class OS (W : Type) := {
  os_open : string -> W -> W * result file;
  os_call : W -> W * option error;
  os_write : Z -> W -> W * (Z * option error);
  os_write_at : Z -> W -> W * option (Z * error);
}.

Definition put_bytes (f : file) (start : Z) (b : list Z) (pos : Z) : file :=
  mkFile (fun i => if (start <=? i) && (i <? start + len b) then nth (Z.to_nat (i - start)) b 0 else fl_at f i)
    (Z.max (fl_size f) (start + len b)) pos.

Definition file_bytes (f : file) (start : Z) (n : nat) : list Z := map (fun i => fl_at f (start + Z.of_nat i)) (seq 0 n).

Section Arena.
Context {W : Type} `{OS W}.

Definition Truncate (f : file) (size : Z) (w : W) : file * W * option error :=
  let '(w, e) := os_call w in
  match e with
  | Some e => (f, w, Some e)
  | None => (mkFile (fun i => if i <? size then fl_at f i else 0) size (fl_pos f), w, None)
  end.

Definition Seek (f : file) (start : Z) (w : W) : file * W * option error :=
  let '(w, e) := os_call w in
  match e with Some e => (f, w, Some e) | None => (mkFile (fl_at f) (fl_size f) start, w, None) end.

Definition WriteAt (f : file) (b : list Z) (start : Z) (w : W) : file * W * option error :=
  let '(w, e) := os_write_at (len b) w in
  match e with
  | None => (put_bytes f start b (fl_pos f), w, None)
  | Some (n, e) => (put_bytes f start (take (Z.to_nat n) b) (fl_pos f), w, Some e)
  end.

Definition Write (f : file) (b : list Z) (w : W) : file * W * Z * option error :=
  let '(w, (n, e)) := os_write (len b) w in
  let written := take (Z.to_nat n) b in
  (put_bytes f (fl_pos f) written (fl_pos f + len written), w, len written, e).

(** ** The arena *)

Definition transitionArenaRowsOffset : Z := Z.shiftl 64 20.
Definition transitionArenaHeaderSize : Z := 32.
Definition transitionArenaMagic : list Z := [83; 84; 70; 65; 82; 69; 78; 65].

Record transitionFileArena := mkFileArena {
  fa_path : string;
  fa_file : option file;
  requestID : Z;
  rowBytes : Z;
  offset : Z;
  fa_length : Z;
  committed : bool;
  fa_world : W;
}.

Definition with_file (a : transitionFileArena) (f : file) (w : W) : transitionFileArena :=
  mkFileArena (fa_path a) (Some f) (requestID a) (rowBytes a) (offset a) (fa_length a) (committed a) w.

Definition add_rows (a : transitionFileArena) (n : Z) : transitionFileArena :=
  mkFileArena (fa_path a) (fa_file a) (requestID a) (u64 (rowBytes a + n)) (offset a) (fa_length a) (committed a) (fa_world a).

Definition begin_request (a : transitionFileArena) (id : Z) : transitionFileArena :=
  mkFileArena (fa_path a) (fa_file a) id 0 0 0 false (fa_world a).

Definition commit_frame (a : transitionFileArena) (start n : Z) : transitionFileArena :=
  mkFileArena (fa_path a) (fa_file a) (requestID a) (rowBytes a) start n true (fa_world a).

(** [os.ErrInvalid]: a call on a nil file. *)
Definition ErrInvalid : error := ErrText "invalid argument".
Definition ErrShortWrite : error := ErrText "short write".

(** Only on Darwin is there a cache to disable; elsewhere the call cannot
    fail. *)
Definition disableTransitionArenaCache (w : W) : W * option error :=
  let '(w, e) := os_call w in
  (w, match e with Some e => Some (ErrWrap "disable transition arena cache" e) | None => None end).

Definition openTransitionFileArena (path : string) (w : W) : W * result (option transitionFileArena) :=
  if String.eqb path "" then (w, Ok None)
  else
    let '(w, r) := os_open path w in
    match r with
    | Err e => (w, Err (ErrWrap "open transition arena" e))
    | Ok f =>
        let '(w, e) := disableTransitionArenaCache w in
        match e with
        | Some e => (fst (os_call w), Err e)
        | None => (w, Ok (Some (mkFileArena path (Some f) 0 0 0 0 false w)))
        end
    end.

Definition fa_Close (a : option transitionFileArena) : option transitionFileArena * option error :=
  match a with
  | Some a =>
      match fa_file a with
      | None => (Some a, None)
      | Some f => let '(w, e) := os_call (fa_world a) in (Some (with_file a f w), e)
      end
  | None => (None, None)
  end.

(** One call on the arena's file, its error wrapped. *)
Definition on_file (msg : string) (call : file -> W -> file * W * option error) (a : transitionFileArena) :
    transitionFileArena * option error :=
  match fa_file a with
  | None => (a, Some (ErrWrap msg ErrInvalid))
  | Some f =>
      let '(f, w, e) := call f (fa_world a) in
      (with_file a f w, match e with Some e => Some (ErrWrap msg e) | None => None end)
  end.

(** [if err := f(); err != nil { return err }]. *)
Definition then_call (r : transitionFileArena * option error) (k : transitionFileArena -> transitionFileArena * option error) :
    transitionFileArena * option error :=
  match r with (a, Some e) => (a, Some e) | (a, None) => k a end.

Definition Begin (a : transitionFileArena) (id : Z) : transitionFileArena * option error :=
  match fa_file a with
  | None => (a, Some (ErrText "transition arena is closed"))
  | Some _ =>
      then_call (on_file "reset transition arena" (fun f => Truncate f transitionArenaRowsOffset) (begin_request a id)) (fun a =>
      then_call (on_file "seek transition arena rows" (fun f => Seek f transitionArenaRowsOffset) a) (fun a =>
      on_file "clear transition arena header" (fun f => WriteAt f (repeat 0 32) 0) a))
  end.

(** Each turn writes at least one byte, so the chunk's length is fuel enough. *)
Fixpoint append_loop (fuel : nat) (a : transitionFileArena) (chunk : list Z) : transitionFileArena * option error :=
  match chunk, fuel with
  | [], _ | _, O => (a, None)
  | _, S fuel =>
      match fa_file a with
      | None => (a, Some ErrInvalid)
      | Some f =>
          let '(f, w, n, e) := Write f chunk (fa_world a) in
          let a := with_file a f w in
          match e with
          | Some e => (a, Some e)
          | None =>
              if n =? 0 then (a, Some ErrShortWrite)
              else append_loop fuel (add_rows a n) (drop (Z.to_nat n) chunk)
          end
      end
  end.

Definition fa_AppendRows (a : transitionFileArena) (chunk : list Z) : transitionFileArena * option error :=
  append_loop (length chunk) a chunk.

(** [binary.LittleEndian.PutUint64]. *)
Fixpoint put_le (n : nat) (x : Z) : list Z :=
  match n with O => [] | S n => x mod 256 :: put_le n (x / 256) end.

Definition arena_header (id start n : Z) : list Z :=
  transitionArenaMagic ++ put_le 8 (u64 id) ++ put_le 8 (u64 start) ++ put_le 8 (u64 n).

Definition fa_Finish (a : transitionFileArena) (prefix : list Z) : transitionFileArena * option error :=
  if (len prefix =? 0) || (transitionArenaRowsOffset - transitionArenaHeaderSize <? len prefix)
  then (a, Some (ErrText "transition prefix length is out of range"))
  else
    let start := transitionArenaRowsOffset - len prefix in
    then_call (on_file "write transition arena prefix" (fun f => WriteAt f prefix start) a) (fun a =>
    let n := u64 (len prefix + rowBytes a) in
    then_call (on_file "commit transition arena" (fun f => WriteAt f (arena_header (requestID a) start n) 0) a) (fun a =>
    (commit_frame a start n, None))).

Definition file_arena : TransitionArena transitionFileArena := mkArena _ fa_AppendRows fa_Finish.

(** The path and the lengths a response carries. *)
Definition descriptor (a : transitionFileArena) : option (string * list Z) :=
  if committed a then Some (fa_path a, [requestID a; offset a; fa_length a]) else None.
End Arena.
Arguments transitionFileArena : clear implicits.

(** ** The client's side

    [SharedTransitionArena::attach] of the client, which puts the frame an
    arena holds into the response that names it. The client's reads of its own
    file succeed. *)

Definition MAX_MESSAGE_BYTES : Z := Z.shiftl 64 20.

Fixpoint from_le (b : list Z) : Z := match b with [] => 0 | x :: b => x + 256 * from_le b end.

Definition attached (r : LifecycleResponse) (transition : list Z) : LifecycleResponse :=
  mkResponse (rs_Schema r) (rs_RequestID r) (rs_ProjectID r) (rs_Generation r) (OK r) transition (rs_SymbolEvidence r)
    (ReferenceEvidence r) (ChangedReferenceSymbols r) (ReferenceChangesExact r) (rs_StateToken r) (Affected r)
    (rs_Sources r) "" [] (Timings r) (rs_Error r) (rs_Modules r) (ModuleImports r) (rs_UnknownImportPaths r).

Definition invalid {A} (msg : string) : result A := Err (ErrText msg).

Definition attach (path : string) (f : file) (r : LifecycleResponse) : result (bool * LifecycleResponse) :=
  if negb (String.eqb (SourceArena r) path) then Ok (false, r)
  else if negb (Nat.eqb (length (TableTransition r)) 0)
  then invalid "shared arena response also carries an inline transition"
  else
    match SourceLengths r with
    | [request_id; start; n] =>
        if negb (request_id =? rs_RequestID r) then invalid "shared transition arena request identity mismatch"
        else if (n =? 0) || (MAX_MESSAGE_BYTES <? n) then invalid "shared transition length is out of range"
        else if fl_size f <? 32 then invalid "read transition arena header"
        else
          let header := file_bytes f 0 32 in
          if negb (bool_decide (take 8 header = transitionArenaMagic)) then invalid "shared transition arena magic mismatch"
          else if negb ((from_le (take 8 (drop 8 header)) =? request_id) &&
                        (from_le (take 8 (drop 16 header)) =? start) && (from_le (take 8 (drop 24 header)) =? n))
          then invalid "shared transition descriptor does not match its committed header"
          else if 2 ^ 64 <=? start + n then invalid "shared transition range overflow"
          else if fl_size f <? start + n then invalid "shared transition range exceeds its arena"
          else Ok (true, attached r (file_bytes f start (Z.to_nat n)))
    | _ => invalid "shared transition arena descriptor must contain request, offset, and length"
    end.

(** ** Regions of a file *)

Lemma len_nonneg {A} (l : list A) : 0 <= len l.
Proof. unfold len. lia. Qed.

Lemma file_bytes_length f start n : length (file_bytes f start n) = n.
Proof. unfold file_bytes. by rewrite length_map, length_seq. Qed.

Lemma file_bytes_app f start n m :
  file_bytes f start (n + m) = file_bytes f start n ++ file_bytes f (start + Z.of_nat n) m.
Proof.
  unfold file_bytes. rewrite seq_app, map_app. f_equal. apply list_eq. intros i.
  change (map ?g ?l) with (g <$> l). rewrite !list_lookup_fmap. destruct (decide (i < m)%nat).
  - rewrite !lookup_seq_lt by done. simpl. do 2 f_equal. lia.
  - by rewrite !lookup_seq_ge by lia.
Qed.

(** A write elsewhere. *)
Lemma file_bytes_elsewhere f s b pos start n :
  start + Z.of_nat n <= s \/ s + len b <= start -> file_bytes (put_bytes f s b pos) start n = file_bytes f start n.
Proof.
  intros Hd. unfold file_bytes. apply map_ext_in. intros i Hi%in_seq. simpl.
  destruct (Z.leb_spec s (start + Z.of_nat i)), (Z.ltb_spec (start + Z.of_nat i) (s + len b)); simpl; try done. lia.
Qed.

Lemma file_bytes_written f s b pos : file_bytes (put_bytes f s b pos) s (length b) = b.
Proof.
  apply list_eq_same_length with (length b); [done|apply file_bytes_length|]. intros i x y Hi Hx Hy.
  unfold file_bytes in Hx. change (map ?g ?l) with (g <$> l) in Hx. apply list_lookup_fmap_Some in Hx as (j & -> & Hj).
  apply lookup_seq in Hj as [-> _]. simpl. unfold len.
  destruct (Z.leb_spec s (s + Z.of_nat i)); [|lia]. destruct (Z.ltb_spec (s + Z.of_nat i) (s + Z.of_nat (length b))); [|lia].
  simpl. replace (Z.to_nat (s + Z.of_nat i - s)) with i by lia. by apply nth_lookup_Some.
Qed.

(** ** What the arena holds *)

Section Holds.
Context {W : Type} `{OS W}.
Implicit Types a : transitionFileArena W.

Notation R := transitionArenaRowsOffset.

(** Nothing is promised: not committed, a cleared header, and writing goes on
    behind the rows' offset. *)
Record open_frame a (f : file) : Prop := {
  of_file : fa_file a = Some f;
  of_uncommitted : committed a = false;
  of_header : file_bytes f 0 32 = repeat 0 32;
  of_pos : R <= fl_pos f;
  of_size : fl_pos f <= fl_size f;
}.

Record rows_held a (rows : list Z) : Prop := {
  rh_file : exists f, open_frame a f /\ fl_pos f = R + len rows /\ file_bytes f R (length rows) = rows;
  rh_count : rowBytes a = u64 (len rows);
}.

(** The frame of a request, named by the header and by the descriptor. *)
Definition frame_held a (path : string) (id : Z) (frame : list Z) : Prop :=
  exists f start, fa_file a = Some f /\ descriptor a = Some (path, [id; start; u64 (len frame)]) /\
    transitionArenaHeaderSize <= start <= R /\ file_bytes f start (length frame) = frame /\
    file_bytes f 0 32 = arena_header id start (u64 (len frame)) /\ start + len frame <= fl_size f /\ frame <> [].

Lemma rows_offset_value : R = 67108864.
Proof. reflexivity. Qed.

Lemma Begin_spec a id :
  let '(a', e) := Begin a id in
  committed a' = (if fa_file a then false else committed a) /\ fa_path a' = fa_path a /\
  (e = None -> rows_held a' [] /\ requestID a' = id).
Proof.
  unfold Begin. destruct (fa_file a) as [f0|] eqn:E0; [|by split_and!].
  unfold then_call, on_file, begin_request, Truncate. cbn [fa_file fa_world]. rewrite E0.
  destruct (os_call (fa_world a)) as [w1 [e1|]]; [by split_and!|].
  unfold Seek. cbn [fa_file fa_world with_file]. destruct (os_call w1) as [w2 [e2|]]; [by split_and!|].
  unfold WriteAt. cbn [fa_file fa_world with_file]. destruct (os_write_at _ w2) as [w3 [[n e3]|]]; [by split_and!|].
  split_and!; [done..|]. intros _. split; [|done]. split; [|done]. eexists. split; [split; [done|done| |done|]|].
  - change 32%nat with (length (repeat 0 32)). apply file_bytes_written.
  - simpl. rewrite rows_offset_value. lia.
  - by split.
Qed.

(** Bytes written behind the rows leave the header alone. *)
Lemma open_frame_write a f w b pos : open_frame a f -> pos = fl_pos f + len b ->
  open_frame (with_file a (put_bytes f (fl_pos f) b pos) w) (put_bytes f (fl_pos f) b pos).
Proof.
  intros [H1 H2 H3 H4 H5] ->. pose proof (len_nonneg b). split; [done|done| |simpl; lia|simpl; lia].
  rewrite file_bytes_elsewhere by (rewrite rows_offset_value in H4; left; lia). done.
Qed.

Definition still_open a : Prop := exists f, open_frame a f.

Lemma append_loop_spec fuel a rows chunk : rows_held a rows -> (length chunk <= fuel)%nat ->
  let '(a', e) := append_loop fuel a chunk in
  still_open a' /\ requestID a' = requestID a /\ fa_path a' = fa_path a /\ (e = None -> rows_held a' (rows ++ chunk)).
Proof.
  revert a rows chunk. induction fuel as [|fuel IH]; intros a rows chunk Hr Hl.
  { destruct chunk; [|simpl in Hl; lia]. destruct Hr as [(f & Hf & Hr) Hc]. split_and!; [by exists f|done..|]. intros _.
    rewrite app_nil_r. split; [|done]. by exists f. }
  destruct chunk as [|b chunk].
  { destruct Hr as [(f & Hf & Hr) Hc]. split_and!; [by exists f|done..|]. intros _. rewrite app_nil_r. split; [|done]. by exists f. }
  cbn [append_loop]. remember (b :: chunk) as c eqn:Ec. destruct Hr as [(f & Hf & Hpos & Hrows) Hcount].
  rewrite (of_file _ _ Hf). unfold Write. destruct (os_write (len c) (fa_world a)) as [w [n e]]. cbv zeta.
  set (written := take (Z.to_nat n) c). set (f' := put_bytes f (fl_pos f) written (fl_pos f + len written)).
  assert (open_frame (with_file a f' w) f') as Hf' by by apply open_frame_write.
  destruct e as [e|]; [split_and!; try done; by exists f'|].
  destruct (Z.eqb_spec (len written) 0) as [Hz|Hz]; [split_and!; try done; by exists f'|].
  assert (drop (Z.to_nat (len written)) c = drop (length written) c) as -> by (f_equal; unfold len; lia).
  assert (c = written ++ drop (length written) c) as Hsplit.
  { unfold written. rewrite length_take. destruct (Nat.min_spec (Z.to_nat n) (length c)) as [[? ->]|[? ->]]; [by rewrite take_drop|].
    rewrite take_ge, drop_ge by lia. by rewrite app_nil_r. }
  assert (rows_held (add_rows (with_file a f' w) (len written)) (rows ++ written)) as Hr'.
  { split.
    - exists f'. split; [by destruct Hf'; split|]. split; [simpl; rewrite len_app; lia|].
      rewrite length_app, file_bytes_app. f_equal.
      + unfold f'. rewrite file_bytes_elsewhere; [done|]. left. rewrite Hpos. unfold len. lia.
      + unfold f'. rewrite Hpos. apply file_bytes_written.
    - cbn [rowBytes add_rows with_file]. rewrite Hcount, len_app. unfold u64. rewrite Zplus_mod_idemp_l. done. }
  specialize (IH _ _ (drop (length written) c) Hr'). destruct (append_loop fuel _ _) as [a' e].
  destruct IH as (H1 & H2 & H3 & H4).
  { rewrite length_drop. unfold len in Hz. lia. }
  split_and!; try done. intros He. specialize (H4 He). by rewrite <- app_assoc, <- Hsplit in H4.
Qed.

Lemma AppendRows_spec a rows chunk : rows_held a rows ->
  let '(a', e) := fa_AppendRows a chunk in
  still_open a' /\ requestID a' = requestID a /\ fa_path a' = fa_path a /\ (e = None -> rows_held a' (rows ++ chunk)).
Proof. intros Hr. by apply append_loop_spec. Qed.

(** The rows an arena was fed. *)
Lemma fed_rows a0 a chunks : rows_held a0 [] -> fed fa_AppendRows a0 a chunks ->
  rows_held a (concat chunks) /\ requestID a = requestID a0 /\ fa_path a = fa_path a0.
Proof.
  intros H0. induction 1 as [|a chunks b a' _ IH Ha]; [done|]. destruct IH as (Hr & Hi & Hp).
  pose proof (AppendRows_spec a _ b Hr) as Hs. rewrite Ha in Hs. destruct Hs as (_ & H1 & H2 & H3).
  rewrite concat_app. simpl. rewrite app_nil_r, H1, H2. auto.
Qed.

Lemma uncommitted_descriptor a : committed a = false -> descriptor a = None.
Proof. unfold descriptor. by intros ->. Qed.

Lemma put_le_length n x : length (put_le n x) = n.
Proof. revert x. induction n as [|n IH]; intros x; simpl; [done|]. by rewrite IH. Qed.

Lemma Finish_spec a rows prefix : rows_held a rows ->
  let '(a', e) := fa_Finish a prefix in
  match e with
  | Some _ => descriptor a' = None
  | None => frame_held a' (fa_path a) (requestID a) (prefix ++ rows)
  end.
Proof.
  intros [(f & Hf & Hpos & Hrows) Hcount]. unfold fa_Finish. pose proof (of_uncommitted _ _ Hf) as Hun.
  destruct (Z.eqb_spec (len prefix) 0) as [|Hne]; [by apply uncommitted_descriptor|].
  destruct (Z.ltb_spec (R - transitionArenaHeaderSize) (len prefix)) as [|Hle]; [by apply uncommitted_descriptor|].
  cbn [orb]. unfold transitionArenaHeaderSize in Hle. pose proof (len_nonneg prefix) as Hp.
  unfold on_file, then_call. rewrite (of_file _ _ Hf). unfold WriteAt.
  destruct (os_write_at (len prefix) (fa_world a)) as [w1 [[n e1]|]]; [by apply uncommitted_descriptor|].
  cbn [fa_file fa_world with_file requestID rowBytes].
  match goal with |- context [os_write_at ?k w1] => destruct (os_write_at k w1) as [w2 [[n e2]|]] end; [by apply uncommitted_descriptor|].
  set (start := R - len prefix). assert (u64 (len prefix + rowBytes a) = u64 (len (prefix ++ rows))) as ->.
  { rewrite Hcount, len_app. unfold u64. by rewrite Zplus_mod_idemp_r. }
  set (n := u64 (len (prefix ++ rows))). set (h := arena_header _ _ _).
  assert (length h = 32%nat) as Hh by (unfold h, arena_header; rewrite !length_app, !put_le_length; reflexivity).
  eexists _, start. split; [reflexivity|]. split; [done|]. split; [unfold transitionArenaHeaderSize, start; lia|]. split.
  - rewrite file_bytes_elsewhere by (right; unfold len at 1; rewrite Hh; unfold start; lia).
    rewrite length_app, file_bytes_app, file_bytes_written. f_equal.
    replace (start + Z.of_nat (length prefix)) with R by (unfold start, len; lia).
    rewrite file_bytes_elsewhere by (right; unfold start; lia). done.
  - split; [rewrite <- Hh; apply file_bytes_written|]. pose proof (of_size _ _ Hf). simpl. split.
    + rewrite len_app. unfold start. lia.
    + destruct prefix; [done|by intros].
Qed.

Lemma refused_open a0 a e : rows_held a0 [] -> refused fa_AppendRows a0 a e -> descriptor a = None.
Proof.
  intros H0 (a1 & chunks & b & Hf & Ha). destruct (fed_rows _ _ _ H0 Hf) as (Hr & _ & _).
  pose proof (AppendRows_spec a1 _ b Hr) as Hs. rewrite Ha in Hs. destruct Hs as ((f & Hs) & _).
  apply uncommitted_descriptor. apply Hs.
Qed.

Lemma fed_open a0 a chunks : rows_held a0 [] -> fed fa_AppendRows a0 a chunks -> descriptor a = None.
Proof.
  intros H0 Hf. destruct (fed_rows _ _ _ H0 Hf) as ([(f & Hs & _) _] & _). apply uncommitted_descriptor. apply Hs.
Qed.

Lemma streamed_held a0 a bytes : rows_held a0 [] -> streamed_as file_arena a0 bytes a ->
  frame_held a (fa_path a0) (requestID a0) bytes.
Proof.
  intros H0 (a1 & chunks & frame & Hf & Hfin & -> & _). destruct (fed_rows _ _ _ H0 Hf) as (Hr & <- & <-).
  pose proof (Finish_spec a1 _ frame Hr) as Hs. change (Finish file_arena) with (@fa_Finish W _) in Hfin. by rewrite Hfin in Hs.
Qed.

Lemma arena_refused_open a0 a err : rows_held a0 [] -> arena_refused file_arena a0 a err -> descriptor a = None.
Proof.
  intros H0 [(cause & _ & Hr)|(cause & a1 & chunks & frame & _ & Hf & Hfin)]; [by eapply refused_open|].
  destruct (fed_rows _ _ _ H0 Hf) as (Hr & _). pose proof (Finish_spec a1 _ frame Hr) as Hs.
  change (Finish file_arena) with (@fa_Finish W _) in Hfin. by rewrite Hfin in Hs.
Qed.

(** ** Attaching *)

Lemma from_put_le n x : 0 <= x < 256 ^ Z.of_nat n -> from_le (put_le n x) = x.
Proof.
  revert x. induction n as [|n IH]; intros x Hx; [simpl in *; lia|]. cbn [put_le from_le].
  rewrite Nat2Z.inj_succ, Z.pow_succ_r in Hx by lia.
  rewrite IH by (split; [apply Z.div_pos; lia|apply Z.div_lt_upper_bound; lia]). pose proof (Z.div_mod x 256). lia.
Qed.

Lemma from_le_u64 x : is_u64 x -> from_le (put_le 8 (u64 x)) = x.
Proof. intros Hx. rewrite u64_id by done. by apply from_put_le. Qed.

Lemma arena_header_fields id start n : is_u64 id -> is_u64 start -> is_u64 n ->
  let h := arena_header id start n in
  take 8 h = transitionArenaMagic /\ from_le (take 8 (drop 8 h)) = id /\ from_le (take 8 (drop 16 h)) = start /\
  from_le (take 8 (drop 24 h)) = n.
Proof.
  intros Hi Hs Hn. cbv zeta. split_and!; [done|by apply (from_le_u64 id)|by apply (from_le_u64 start)|by apply (from_le_u64 n)].
Qed.

(** A response that names the frame of an arena. *)
Record names_frame a (response : LifecycleResponse) : Prop := {
  nf_descriptor : descriptor a = Some (SourceArena response, SourceLengths response);
  nf_request : rs_RequestID response = requestID a;
  nf_inline : TableTransition response = [];
}.

Lemma attach_held a path id frame response : frame_held a path id frame -> requestID a = id -> is_u64 id ->
  len frame <= MAX_MESSAGE_BYTES -> names_frame a response ->
  exists f, fa_file a = Some f /\ attach path f response = Ok (true, attached response frame).
Proof.
  intros (f & start & Hf & Hd & Hstart & Hframe & Hh & Hsize & Hne) <- Hid Hmax [Hn Hr Ht].
  exists f. split; [done|]. rewrite Hd in Hn. injection Hn as Hp Hl. unfold attach. rewrite <- Hp, <- Hl, String.eqb_refl, Ht, Hr, Z.eqb_refl.
  cbn [negb length Nat.eqb]. rewrite rows_offset_value in Hstart. unfold MAX_MESSAGE_BYTES, transitionArenaHeaderSize in *.
  assert (0 < len frame) as Hpos by (destruct frame; [done|unfold len; simpl; lia]).
  change (Z.shiftl 64 20) with 67108864 in *.
  assert (is_u64 (len frame)) as Hlen by (unfold is_u64; lia). rewrite (u64_id _ Hlen) in *.
  destruct (Z.eqb_spec (len frame) 0); [lia|]. destruct (Z.ltb_spec 67108864 (len frame)); [lia|]. cbn [orb].
  destruct (Z.ltb_spec (fl_size f) 32); [lia|].
  destruct (arena_header_fields (requestID a) start (len frame) Hid ltac:(unfold is_u64; lia) Hlen) as (F1 & F2 & F3 & F4).
  rewrite Hh, F1, F2, F3, F4, bool_decide_eq_true_2, !Z.eqb_refl by done. cbn [negb andb].
  destruct (Z.leb_spec (2 ^ 64) (start + len frame)); [lia|]. destruct (Z.ltb_spec (fl_size f) (start + len frame)); [lia|].
  unfold len at 1. by rewrite Nat2Z.id, Hframe.
Qed.

(** Streaming into the begun file. *)
Lemma arena_encodes `{BK : !Backing} `{MR : !MapRange} a0 id a1 e input :
  (forall mode base target p, validateWireTransitionInput input = Ok (mode, base, target) ->
     plan_transition input target (releasePlan (e_plan e)) = Ok p -> Forall digest_ok (frame_path_ops mode target p)) ->
  Begin a0 id = (a1, None) ->
  match EncodeInto e input (Some file_arena) a1 with
  | (_, a, Ok enc) =>
      exists plain, snd (Encode e input) = Ok plain /\ enc_Mode plain = enc_Mode enc /\
        PathOperations plain = PathOperations enc /\ SymbolOperations plain = SymbolOperations enc /\
        (Bytes plain = [] /\ descriptor a = None \/ frame_held a (fa_path a0) id (Bytes plain))
  | (_, a, Err err) => descriptor a = None /\ (snd (Encode e input) = Err err \/ is_ok (snd (Encode e input)) = true)
  end.
Proof.
  intros Hd Hb. pose proof (Begin_spec a0 id) as Hs. rewrite Hb in Hs. destruct Hs as (_ & <- & Hs).
  destruct (Hs eq_refl) as [H0 <-]. pose proof (encode_streams file_arena a1 e input Hd) as H1.
  destruct (EncodeInto e input (Some file_arena) a1) as [[e' a] [enc|err]].
  - destruct H1 as (plain & K1 & _ & K2 & K3 & K4 & [[K5 ->]|K5]); exists plain; split_and!; try done; [left|right].
    + split; [done|]. eapply fed_open; [exact H0|constructor].
    + by apply streamed_held.
  - destruct H1 as [[He [[chunks Hf]|[cause Hr]]]|[He Hr]]; (split; [|by auto]);
      [by eapply fed_open|by eapply refused_open|by eapply arena_refused_open].
Qed.
(** C25: A transition streamed into an arena begun for a request, over a file whose calls may
    fail or stop short, is what the client attaches to the response that names the arena, byte
    for byte the detached frame; a failed or empty transition leaves no descriptor. *)
Theorem arena_transports `{BK : !Backing} `{MR : !MapRange} a0 id a1 e input :
  (forall mode base target p, validateWireTransitionInput input = Ok (mode, base, target) ->
     plan_transition input target (releasePlan (e_plan e)) = Ok p -> Forall digest_ok (frame_path_ops mode target p)) ->
  is_u64 id -> Begin a0 id = (a1, None) ->
  match EncodeInto e input (Some file_arena) a1 with
  | (_, a, Ok enc) =>
      exists plain, snd (Encode e input) = Ok plain /\ enc_Mode plain = enc_Mode enc /\
        PathOperations plain = PathOperations enc /\ SymbolOperations plain = SymbolOperations enc /\
        if decide (Bytes plain = []) then descriptor a = None
        else is_Some (descriptor a) /\ forall response, names_frame a response -> len (Bytes plain) <= MAX_MESSAGE_BYTES ->
          exists f, fa_file a = Some f /\ attach (fa_path a0) f response = Ok (true, attached response (Bytes plain))
  | (_, a, Err err) => descriptor a = None /\ (snd (Encode e input) = Err err \/ is_ok (snd (Encode e input)) = true)
  end.
Proof.
  intros Hd Hid Hb. pose proof (arena_encodes a0 id a1 e input Hd Hb) as H1.
  destruct (EncodeInto e input (Some file_arena) a1) as [[e' a] [enc|err]]; [|done].
  destruct H1 as (plain & K1 & K2 & K3 & K4 & K5). exists plain. split_and!; try done.
  destruct K5 as [[K5 K6]|K5]; [by rewrite decide_True|].
  pose proof K5 as (f & start & _ & Hdesc & _ & _ & _ & _ & Hne). rewrite decide_False by done. split; [by rewrite Hdesc|].
  intros response Hn Hmax. eapply attach_held; try done.
  unfold descriptor in Hdesc. destruct (committed a); [|done]. by injection Hdesc.
Qed.
End Holds.

(** ** A file that takes everything *)

#[export] Instance quiet_os : OS unit := {|
  os_open path w := (w, Ok (mkFile (fun _ => 0) 0 0));
  os_call w := (w, None);
  os_write n w := (w, (n, None));
  os_write_at n w := (w, None);
|}.

Definition empty_arena : transitionFileArena unit := mkFileArena "arena" (Some (mkFile (fun _ => 7) 9 0)) 0 0 0 0 false tt.
Definition begun_arena : transitionFileArena unit := fst (Begin empty_arena 3).
Definition streamed_arena `{BK : !Backing} `{MR : !MapRange} : transitionFileArena unit :=
  snd (fst (EncodeInto new_encoder cold_input (Some file_arena) begun_arena)).

Definition arena_response (lengths : list Z) : LifecycleResponse :=
  mkResponse 1 3 "p" 1 true [] [] [] [] false "" [] [] "arena" lengths None None [] [] [].

Definition streamed_lengths : list Z := match descriptor streamed_arena with Some (_, ns) => ns | None => [] end.

(** The client reads the streamed frame of request 3 as the detached one. *)
Lemma arena_transports_witness : exists plain f,
  snd (Encode new_encoder cold_input) = Ok plain /\ Bytes plain <> [] /\ fa_file streamed_arena = Some f /\
  attach "arena" f (arena_response streamed_lengths) = Ok (true, attached (arena_response streamed_lengths) (Bytes plain)).
Proof.
  assert (forall mode base target p, validateWireTransitionInput cold_input = Ok (mode, base, target) ->
    plan_transition cold_input target (releasePlan (e_plan new_encoder)) = Ok p ->
    Forall digest_ok (frame_path_ops mode target p)) as Hd.
  { intros mode base target p [= <- <- <-] [= <-]. vm_compute. repeat constructor. }
  assert (Begin empty_arena 3 = (begun_arena, None)) as Hb by reflexivity.
  assert (is_u64 3) as Hid by (unfold is_u64; lia).
  pose proof (arena_transports empty_arena 3 begun_arena new_encoder cold_input Hd Hid Hb) as H.
  assert (names_frame streamed_arena (arena_response streamed_lengths)) as Hn by (split; vm_compute; reflexivity).
  assert (is_ok (snd (EncodeInto new_encoder cold_input (Some file_arena) begun_arena)) = true) as Hok by (vm_compute; reflexivity).
  assert (descriptor streamed_arena <> None) as Hc by (vm_compute; discriminate).
  unfold streamed_arena in Hn, Hc |- *.
  destruct (EncodeInto new_encoder cold_input (Some file_arena) begun_arena) as [[e a] [enc|err]]; [|discriminate Hok].
  destruct H as (plain & Hp & _ & _ & _ & H). cbn [fst snd] in Hn, Hc |- *.
  destruct (decide (Bytes plain = [])) as [_|Hne]; [by destruct (Hc H)|]. destruct H as [_ H].
  assert (len (Bytes plain) <= MAX_MESSAGE_BYTES) as Hl.
  { vm_compute in Hp. injection Hp as <-. vm_compute. discriminate. }
  destruct (H _ Hn Hl) as (f & Hf & Ha). exists plain, f. split; [exact Hp|]. split; [exact Hne|]. split; [exact Hf|exact Ha].
Defined.
