(* ===== verification/Wire.v ===== *)
(** * Frames and response bytes

    The framing of [src/cmd/solid-typefacts/main.go] and the piecewise encoding
    of a large response. The CBOR library is a parameter: what it encodes a
    value to. *)

From S2P Require Import Prelude GoStd GoText GoBytes Model Modules CompactDemands Closure Protocol Writer Stream.
Open Scope Z_scope.

(** ** Values that are encoded *)

Inductive payload : Type :=
| PText (s : string)
| PUint (n : Z)
| PBool (b : bool)
| PBytes (b : list Z)
| PTexts (l : list string)
| PUints (l : list Z)
| PSources (l : list SourceFileV3)
| PSymbols (l : list SymbolFact)
| PModules (l : list ModuleFact)
| PImports (l : list ModuleImportFact)
| PTimings (t : LifecycleTimings)
| PError (e : LifecycleError)
| PHandshake (h : ServiceHandshake)
| PResponse (r : LifecycleResponse).

(** [encodingMode.Marshal] of the CBOR library. *)
Class CBOR := { cbor_Marshal : payload -> result (list Z) }.

Definition MaxMessageBytes : Z := Z.shiftl 64 20.

Section Wire.
Context `{CB : !CBOR}.

Definition Marshal (value : payload) : result (list Z) :=
  match cbor_Marshal value with
  | Err e => Err (ErrWrap "encode deterministic CBOR" e)
  | Ok encoded =>
      if MaxMessageBytes <? len encoded then Err (ErrText "encoded message exceeds the limit") else Ok encoded
  end.

(** ** The response in pieces *)

Record lifecycleResponseChunk := mkChunk {
  chunk_key : list Z;
  chunk_value : list Z;
}.

(** [binary.BigEndian.AppendUint16] and its siblings. *)
Fixpoint put_be (n : nat) (x : Z) : list Z :=
  match n with O => [] | S n' => x / 256 ^ Z.of_nat n' mod 256 :: put_be n' x end.

Definition appendCBORByteStringHeader (target : list Z) (size : Z) : list Z :=
  if size <? 24 then target ++ [Z.lor 64 (u8 size)]
  else if size <=? 255 then target ++ [88; u8 size]
  else if size <=? 65535 then (target ++ [89]) ++ put_be 2 size
  else if size <=? 4294967295 then (target ++ [90]) ++ put_be 4 size
  else (target ++ [91]) ++ put_be 8 size.

Definition add_field (fields : list lifecycleResponseChunk) (key : string) (field : payload) :
    result (list lifecycleResponseChunk) :=
  let? encodedKey := Marshal (PText key) in
  let? encodedValue := Marshal field in
  Ok (fields ++ [mkChunk encodedKey encodedValue]).

Fixpoint add_fields (fields : list lifecycleResponseChunk) (rows : list (string * payload)) :
    result (list lifecycleResponseChunk) :=
  match rows with
  | [] => Ok fields
  | (key, field) :: rows => let? fields := add_field fields key field in add_fields fields rows
  end.

Definition required_fields (value : LifecycleResponse) : list (string * payload) :=
  [("schema", PUint (rs_Schema value)); ("requestId", PUint (rs_RequestID value));
   ("projectId", PText (rs_ProjectID value)); ("generation", PUint (rs_Generation value)); ("ok", PBool (OK value))].

Definition filled {A} (l : list A) : bool := negb (Nat.eqb (length l) 0).

(** [{present, key, value}], the absent ones left out. *)
Definition present {A} (b : bool) (key : string) (wrap : A -> payload) (value : A) : list (string * payload) :=
  if b then [(key, wrap value)] else [].

Definition present_option {A} (key : string) (wrap : A -> payload) (value : option A) : list (string * payload) :=
  match value with Some v => [(key, wrap v)] | None => [] end.

Definition optional_fields (value : LifecycleResponse) : list (string * payload) :=
  present (negb (String.eqb (rs_StateToken value) "")) "stateToken" PText (rs_StateToken value) ++
  present (filled (Affected value)) "affected" PTexts (Affected value) ++
  present (filled (rs_Sources value)) "sources" PSources (rs_Sources value) ++
  present (negb (String.eqb (SourceArena value) "")) "sourceArena" PText (SourceArena value) ++
  present (filled (SourceLengths value)) "sourceLengths" PUints (SourceLengths value) ++
  present (filled (rs_SymbolEvidence value)) "symbolEvidence" PSymbols (rs_SymbolEvidence value) ++
  present (filled (ReferenceEvidence value)) "referenceEvidence" PSymbols (ReferenceEvidence value) ++
  present (filled (ChangedReferenceSymbols value)) "changedReferenceSymbols" PTexts (ChangedReferenceSymbols value) ++
  present (ReferenceChangesExact value) "referenceChangesExact" PBool (ReferenceChangesExact value) ++
  present (filled (rs_Modules value)) "modules" PModules (rs_Modules value) ++
  present (filled (ModuleImports value)) "moduleImports" PImports (ModuleImports value) ++
  present (filled (rs_UnknownImportPaths value)) "unknownImportPaths" PTexts (rs_UnknownImportPaths value) ++
  present_option "timings" PTimings (Timings value) ++
  present_option "error" PError (rs_Error value).

(** [bytes.Compare] orders keys as the strings they spell. *)
Definition chunk_order (c : lifecycleResponseChunk) : string := bytes_string (chunk_key c).

Definition chunk_pieces (transitionKey transition : list Z) (field : lifecycleResponseChunk) : list (list Z) :=
  [chunk_key field; chunk_value field] ++ (if bool_decide (chunk_key field = transitionKey) then [transition] else []).

Definition chunk_size (transitionKey transition : list Z) (total : Z) (field : lifecycleResponseChunk) : Z :=
  let total := total + (len (chunk_key field) + len (chunk_value field)) in
  if bool_decide (chunk_key field = transitionKey) then total + len transition else total.

Definition lifecycleResponseChunks (value : LifecycleResponse) : result (list (list Z) * Z) :=
  let? fields := add_fields [] (required_fields value ++ optional_fields value) in
  let? transitionKey := Marshal (PText "tableTransition") in
  let fields := fields ++ [mkChunk transitionKey (appendCBORByteStringHeader [] (len (TableTransition value)))] in
  let fields := sort_slice (key_less chunk_order) fields in
  Ok ([Z.lor 160 (u8 (len fields))] :: concat (map (chunk_pieces transitionKey (TableTransition value)) fields),
      foldl (chunk_size transitionKey (TableTransition value)) 1 fields).

(** ** Frames *)

(** A [bufio.Writer] over a pipe: what it was given, and the error it answers
    with from then on. The pipe may fail at any time. *)
Record bufio_writer := mkBufio { sent : list Z; broken : option error }.
Class Pipe := { pipe_err : list Z -> option error }.
Context `{PI : !Pipe}.

Definition out_write (out : bufio_writer) (b : list Z) : bufio_writer * option error :=
  match broken out with
  | Some e => (out, Some e)
  | None => let all := sent out ++ b in let e := pipe_err all in (mkBufio all e, e)
  end.

Definition out_flush (out : bufio_writer) : bufio_writer * option error := (out, broken out).

Fixpoint little_endian (n : nat) (x : Z) : list Z :=
  match n with O => [] | S n => x mod 256 :: little_endian n (x / 256) end.
Fixpoint from_little_endian (b : list Z) : Z := match b with [] => 0 | x :: b => x + 256 * from_little_endian b end.

Definition writeFrameHeader (out : bufio_writer) (size : Z) : bufio_writer * option error :=
  if MaxMessageBytes <? size then (out, Some (ErrText "response exceeds the limit"))
  else out_write out (little_endian 4 (size mod 2 ^ 32)).

Definition then_out (r : bufio_writer * option error) (k : bufio_writer -> bufio_writer * option error) :
    bufio_writer * option error :=
  match r with (out, Some e) => (out, Some e) | (out, None) => k out end.

Definition writeFrame (out : bufio_writer) (payload : list Z) : bufio_writer * option error :=
  then_out (writeFrameHeader out (len payload)) (fun out => out_write out payload).

Fixpoint write_chunks (out : bufio_writer) (chunks : list (list Z)) : bufio_writer * option error :=
  match chunks with
  | [] => (out, None)
  | chunk :: chunks => then_out (out_write out chunk) (fun out => write_chunks out chunks)
  end.

Definition writeLifecycleResponse (out : bufio_writer) (value : LifecycleResponse) : bufio_writer * option error :=
  if Z.shiftl 1 20 <=? len (TableTransition value) then
    match lifecycleResponseChunks value with
    | Err e => (out, Some (ErrWrap "encode response" e))
    | Ok (chunks, encodedSize) =>
        then_out (writeFrameHeader out encodedSize) (fun out =>
        then_out (write_chunks out chunks) out_flush)
    end
  else
    match Marshal (PResponse value) with
    | Err e => (out, Some (ErrWrap "encode response" e))
    | Ok encoded => then_out (writeFrame out encoded) out_flush
    end.

(** [io.EOF] and [io.ErrUnexpectedEOF]. *)
Definition EOF : error := ErrText "EOF".
Definition ErrUnexpectedEOF : error := ErrText "unexpected EOF".

(** [io.ReadFull] of a stream that ends. *)
Definition ReadFull (n : nat) (input : list Z) : result (list Z * list Z) :=
  if Nat.leb n (length input) then Ok (take n input, drop n input)
  else match input with [] => Err EOF | _ => Err ErrUnexpectedEOF end.

Definition readFrame (input : list Z) : result (list Z * list Z) :=
  let? (prefix, input) := ReadFull 4 input in
  let size := from_little_endian prefix in
  if MaxMessageBytes <? size then Err (ErrText "request exceeds the limit")
  else ReadFull (Z.to_nat size) input.
End Wire.
