(* ===== verification/WireTheorems.v ===== *)
(** * What the bytes of a response are

    A frame is read back as it was written; and the pieces of a large response
    are the library's own encoding of it. *)

From S2P Require Import Prelude GoStd GoText GoBytes Model Modules CompactDemands Closure Protocol Writer Stream Wire.
Open Scope Z_scope.

Lemma len_nonneg_list {A} (l : list A) : 0 <= len l.
Proof. unfold len. lia. Qed.

(** ** Frames *)

Lemma little_endian_length n x : length (little_endian n x) = n.
Proof. revert x. induction n as [|n IH]; intros x; simpl; [done|]. by rewrite IH. Qed.

Lemma from_little_endian_value n x : 0 <= x < 256 ^ Z.of_nat n -> from_little_endian (little_endian n x) = x.
Proof.
  revert x. induction n as [|n IH]; intros x Hx; [simpl in *; lia|]. cbn [little_endian from_little_endian].
  rewrite Nat2Z.inj_succ, Z.pow_succ_r in Hx by lia.
  rewrite IH by (split; [apply Z.div_pos; lia|apply Z.div_lt_upper_bound; lia]). pose proof (Z.div_mod x 256). lia.
Qed.

(** A message with its length in front. *)
Definition frame_of (message : list Z) : list Z := little_endian 4 (len message) ++ message.

Lemma ReadFull_app n a b : length a = n -> ReadFull n (a ++ b) = Ok (a, b).
Proof.
  intros <-. unfold ReadFull. rewrite (proj2 (Nat.leb_le _ _)) by (rewrite length_app; lia).
  by rewrite take_app_length, drop_app_length.
Qed.

Lemma readFrame_frame message rest : len message <= MaxMessageBytes -> readFrame (frame_of message ++ rest) = Ok (message, rest).
Proof.
  unfold MaxMessageBytes. change (Z.shiftl 64 20) with 67108864. intros Hm. unfold readFrame, frame_of.
  rewrite <- app_assoc, ReadFull_app by apply little_endian_length. cbn [result_bind].
  assert (0 <= len message) by (unfold len; lia). rewrite from_little_endian_value by lia.
  unfold MaxMessageBytes. change (Z.shiftl 64 20) with 67108864. destruct (Z.ltb_spec 67108864 (len message)); [lia|].
  apply ReadFull_app. unfold len. lia.
Qed.

Lemma byte_step a m : is_byte a -> (a + 256 * m) mod 256 = a /\ (a + 256 * m) / 256 = m.
Proof.
  unfold is_byte. intros Ha. rewrite Z.mul_comm, Z.mod_add, Z.div_add by lia.
  by rewrite Z.mod_small, Z.div_small by lia.
Qed.

(** Whatever is read as a frame is one. *)
Lemma readFrame_shape input message rest : Forall is_byte (take 4 input) -> readFrame input = Ok (message, rest) ->
  input = frame_of message ++ rest /\ len message <= MaxMessageBytes.
Proof.
  intros Hb. unfold readFrame, ReadFull at 1. destruct (Nat.leb_spec 4 (length input)) as [Hl|]; [|by destruct input].
  cbn [result_bind]. destruct (Z.ltb_spec MaxMessageBytes (from_little_endian (take 4 input))) as [|Hmax]; [done|].
  unfold ReadFull. destruct (Nat.leb_spec (Z.to_nat (from_little_endian (take 4 input))) (length (drop 4 input))) as [Hs|]; [|by destruct (drop 4 input)].
  intros [= <- <-].
  destruct input as [|a [|b [|c [|d input]]]]; simpl in Hl; try lia. change (take 4 (a :: b :: c :: d :: input)) with [a; b; c; d] in *. change (drop 4 (a :: b :: c :: d :: input)) with input in *.
  apply Forall_cons in Hb as [Ha Hb]. apply Forall_cons in Hb as [Hb Hc]. apply Forall_cons in Hc as [Hc Hd].
  apply Forall_cons in Hd as [Hd _]. unfold is_byte in *. cbn [from_little_endian] in *.
  set (n := a + 256 * (b + 256 * (c + 256 * (d + 256 * 0)))) in *.
  assert (len (take (Z.to_nat n) input) = n) as Hn by (unfold len; rewrite length_take; lia).
  split; [|by rewrite Hn]. unfold frame_of. rewrite Hn, <- app_assoc, take_drop. unfold little_endian, n.
  rewrite !(proj1 (byte_step a _ Ha)), !(proj2 (byte_step a _ Ha)), !(proj1 (byte_step b _ Hb)), !(proj2 (byte_step b _ Hb)),
    !(proj1 (byte_step c _ Hc)), !(proj2 (byte_step c _ Hc)), !(proj1 (byte_step d _ Hd)). done.
Qed.

Section Pipe.
Context `{PI : !Pipe}.

(** What a successful run of writes has put out. *)
Lemma out_write_ok out b out' : out_write out b = (out', None) -> broken out = None /\ broken out' = None /\ sent out' = sent out ++ b.
Proof. unfold out_write. destruct (broken out); [done|]. by intros [= <- ->]. Qed.

Lemma write_chunks_ok out chunks out' : broken out = None -> write_chunks out chunks = (out', None) ->
  broken out' = None /\ sent out' = sent out ++ concat chunks.
Proof.
  revert out. induction chunks as [|c chunks IH]; intros out Hb; simpl; [intros [= <-]; by rewrite app_nil_r|].
  unfold then_out. destruct (out_write out c) as [out1 [e|]] eqn:E; [done|]. apply out_write_ok in E as (_ & H1 & H2).
  intros H. destruct (IH _ H1 H) as [H3 ->]. by rewrite H2, app_assoc.
Qed.

Lemma writeFrameHeader_ok out size out' : writeFrameHeader out size = (out', None) ->
  size <= MaxMessageBytes /\ broken out' = None /\ sent out' = sent out ++ little_endian 4 (size mod 2 ^ 32).
Proof.
  unfold writeFrameHeader. destruct (Z.ltb_spec MaxMessageBytes size); [done|]. by intros (_ & H1 & H2)%out_write_ok.
Qed.

Lemma header_size n : 0 <= n <= MaxMessageBytes -> n mod 2 ^ 32 = n.
Proof. unfold MaxMessageBytes. change (Z.shiftl 64 20) with 67108864. intros. by rewrite Z.mod_small by lia. Qed.

Lemma writeFrame_ok out message out' : writeFrame out message = (out', None) ->
  len message <= MaxMessageBytes /\ broken out' = None /\ sent out' = sent out ++ frame_of message.
Proof.
  unfold writeFrame, then_out. destruct (writeFrameHeader out (len message)) as [out1 [e|]] eqn:E; [done|].
  apply writeFrameHeader_ok in E as (H1 & H2 & H3). intros (_ & H4 & H5)%out_write_ok.
  split_and!; [done..|]. rewrite H5, H3. rewrite header_size by (unfold len in *; lia). by rewrite <- app_assoc.
Qed.

(** C27: A message written as a frame is read back whatever follows it; a message over the limit
    is refused before anything is written, and a length over the limit is refused by the reader.
    *)
Theorem frame_roundtrip out message rest :
  match writeFrame out message with
  | (out', None) => exists f, sent out' = sent out ++ f /\ readFrame (f ++ rest) = Ok (message, rest)
  | (out', Some _) =>
      broken out' <> None \/ sent out' = sent out /\ is_ok (readFrame (little_endian 4 (Z.min (len message) (2 ^ 32 - 1)) ++ message ++ rest)) = false
  end.
Proof.
  destruct (writeFrame out message) as [out' [e|]] eqn:E.
  - revert E. unfold writeFrame, writeFrameHeader, then_out. destruct (Z.ltb_spec MaxMessageBytes (len message)) as [Hm|Hm].
    + intros [= <- _]. right. split; [done|]. unfold readFrame. rewrite ReadFull_app by apply little_endian_length. cbn [result_bind].
      unfold MaxMessageBytes in *. change (Z.shiftl 64 20) with 67108864 in *. rewrite from_little_endian_value by lia.
      destruct (Z.ltb_spec 67108864 (Z.min (len message) (2 ^ 32 - 1))); [done|lia].
    + assert (forall o b o' x, out_write o b = (o', Some x) -> broken o' <> None) as Hw.
      { intros o b o' x. unfold out_write. destruct (broken o) eqn:Eb; [intros [= <- _]; congruence|]. intros [= <- Hp]. simpl. congruence. }
      destruct (out_write out _) as [o1 [x|]] eqn:E1; [intros [= <- _]; left; by eapply Hw|]. intros E2. left. by eapply Hw.
  - apply writeFrame_ok in E as (H1 & _ & H2). exists (frame_of message). split; [done|]. by apply readFrame_frame.
Qed.
End Pipe.

(** ** The encoding of a response *)

(** The head of a CBOR item in its shortest form (RFC 8949, 3 and 4.2.1). *)
Definition cbor_head (major n : Z) : list Z :=
  if n <? 24 then [32 * major + n]
  else if n <? 2 ^ 8 then [32 * major + 24; n]
  else if n <? 2 ^ 16 then (32 * major + 25) :: put_be 2 n
  else if n <? 2 ^ 32 then (32 * major + 26) :: put_be 4 n
  else (32 * major + 27) :: put_be 8 n.

Lemma byte_string_header n : 0 <= n -> appendCBORByteStringHeader [] n = cbor_head 2 n.
Proof.
  intros Hn. unfold appendCBORByteStringHeader, cbor_head.
  destruct (Z.ltb_spec n 24).
  { unfold u8. rewrite Z.mod_small by lia. change 64 with (Z.shiftl 1 6). rewrite Z.lor_comm, (lor_shiftl_add n 1 6) by (change (2 ^ 6) with 64; lia).
    change (1 * 2 ^ 6) with 64. simpl. f_equal. lia. }
  destruct (Z.leb_spec n 255), (Z.ltb_spec n (2 ^ 8)); try lia.
  { unfold u8. by rewrite Z.mod_small by lia. }
  destruct (Z.leb_spec n 65535), (Z.ltb_spec n (2 ^ 16)); try lia; [done|].
  by destruct (Z.leb_spec n 4294967295), (Z.ltb_spec n (2 ^ 32)); try lia.
Qed.

(** The fields of [LifecycleResponse] in the order of the struct, those tagged
    [omitempty] only if they are not empty. *)
Definition response_fields (r : LifecycleResponse) : list (string * payload) :=
  required_fields r ++
  present (filled (TableTransition r)) "tableTransition" PBytes (TableTransition r) ++
  present (filled (rs_SymbolEvidence r)) "symbolEvidence" PSymbols (rs_SymbolEvidence r) ++
  present (filled (ReferenceEvidence r)) "referenceEvidence" PSymbols (ReferenceEvidence r) ++
  present (filled (ChangedReferenceSymbols r)) "changedReferenceSymbols" PTexts (ChangedReferenceSymbols r) ++
  present (ReferenceChangesExact r) "referenceChangesExact" PBool (ReferenceChangesExact r) ++
  present (negb (String.eqb (rs_StateToken r) "")) "stateToken" PText (rs_StateToken r) ++
  present (filled (Affected r)) "affected" PTexts (Affected r) ++
  present (filled (rs_Sources r)) "sources" PSources (rs_Sources r) ++
  present (negb (String.eqb (SourceArena r) "")) "sourceArena" PText (SourceArena r) ++
  present (filled (SourceLengths r)) "sourceLengths" PUints (SourceLengths r) ++
  present_option "timings" PTimings (Timings r) ++
  present_option "error" PError (rs_Error r) ++
  present (filled (rs_Modules r)) "modules" PModules (rs_Modules r) ++
  present (filled (ModuleImports r)) "moduleImports" PImports (ModuleImports r) ++
  present (filled (rs_UnknownImportPaths r)) "unknownImportPaths" PTexts (rs_UnknownImportPaths r).

Definition field_names : list string :=
  ["schema"; "requestId"; "projectId"; "generation"; "ok"; "stateToken"; "affected"; "sources"; "sourceArena"; "sourceLengths";
   "symbolEvidence"; "referenceEvidence"; "changedReferenceSymbols"; "referenceChangesExact"; "modules"; "moduleImports";
   "unknownImportPaths"; "timings"; "error"; "tableTransition"].

Section Encoding.
Context `{CB : !CBOR}.

Fixpoint encode_fields (fields : list (string * payload)) : result (list lifecycleResponseChunk) :=
  match fields with
  | [] => Ok []
  | (key, field) :: fields =>
      let? k := cbor_Marshal (PText key) in
      let? v := cbor_Marshal field in
      let? rest := encode_fields fields in
      Ok (mkChunk k v :: rest)
  end.

Definition pair_bytes (c : lifecycleResponseChunk) : list Z := chunk_key c ++ chunk_value c.

(** A struct as a map with its keys in bytewise order. *)
Definition marshal_map (fields : list (string * payload)) : result (list Z) :=
  let? pairs := encode_fields fields in
  Ok (cbor_head 5 (len pairs) ++ concat (map pair_bytes (sort_slice (key_less chunk_order) pairs))).

(** Core Deterministic Encoding, as the library documents it, of what the
    response is made of. *)
Record core_deterministic : Prop := {
  cd_text s : (String.length s < 24)%nat -> cbor_Marshal (PText s) = Ok (cbor_head 3 (Z.of_nat (String.length s)) ++ string_bytes s);
  cd_bytes b : cbor_Marshal (PBytes b) = Ok (cbor_head 2 (len b) ++ b);
  cd_response r : cbor_Marshal (PResponse r) = marshal_map (response_fields r);
}.

(** *** Fields *)

Definition encodes_to (f : string * payload) (c : lifecycleResponseChunk) : Prop :=
  cbor_Marshal (PText (fst f)) = Ok (chunk_key c) /\ cbor_Marshal (snd f) = Ok (chunk_value c).

Lemma encode_fields_ok fields cs : encode_fields fields = Ok cs <-> Forall2 encodes_to fields cs.
Proof.
  split.
  - revert cs. induction fields as [|[k f] fields IH]; intros cs; simpl; [by intros [= <-]|]. intros H. result_solve.
    constructor; [done|by apply IH].
  - induction 1 as [|[k f] c fields cs [H1 H2] _ IH]; [done|]. simpl in *. rewrite H1, H2. simpl. rewrite IH. by destruct c.
Qed.

Lemma add_fields_ok acc rows cs : add_fields acc rows = Ok cs -> exists more, cs = acc ++ more /\ Forall2 encodes_to rows more.
Proof.
  revert acc. induction rows as [|[k f] rows IH]; intros acc; simpl; [intros [= <-]; exists []; by rewrite app_nil_r|].
  unfold add_field, Marshal. intros (acc' & Ha & H)%result_bind_ok. apply IH in H as (more & -> & H).
  destruct (cbor_Marshal (PText k)) as [ek|] eqn:Ek; [|done]. destruct (_ <? _); [done|]. cbn [result_bind] in Ha.
  destruct (cbor_Marshal f) as [ev|] eqn:Ev; [|done]. destruct (_ <? _); [done|]. injection Ha as <-.
  exists (mkChunk ek ev :: more). rewrite <- app_assoc. split; [done|]. by constructor.
Qed.

(** A field that is refused is one the library refuses, or is too large. *)
Lemma add_fields_err acc rows e : (forall k f, (k, f) ∈ rows -> is_ok (Marshal (PText k)) = true) -> add_fields acc rows = Err e ->
  exists k f, (k, f) ∈ rows /\ (is_ok (cbor_Marshal f) = false \/ exists b, cbor_Marshal f = Ok b /\ MaxMessageBytes < len b).
Proof.
  revert acc. induction rows as [|[k f] rows IH]; intros acc Hk; simpl; [done|]. unfold add_field.
  destruct (Marshal (PText k)) as [ek|] eqn:Ek; [|specialize (Hk k f ltac:(left)); by rewrite Ek in Hk]. cbn [result_bind].
  destruct (Marshal f) as [ev|] eqn:Ev; cbn [result_bind].
  - intros H. apply IH in H as (k' & f' & Hin & H); [|intros; eapply Hk; by right]. exists k', f'. split; [by right|done].
  - intros _. exists k, f. split; [by left|]. unfold Marshal in Ev. destruct (cbor_Marshal f) as [b|]; [|by left].
    destruct (Z.ltb_spec MaxMessageBytes (len b)); [|done]. right. by exists b.
Qed.

(** *** Sorting *)

Lemma sort_slice_map {A B} (less : A -> A -> bool) (less' : B -> B -> bool) (f : A -> B) l :
  (forall x y, less' (f x) (f y) = less x y) -> sort_slice less' (map f l) = map f (sort_slice less l).
Proof.
  intros Hf. unfold sort_slice. induction l as [|x l IH]; [done|]. cbn [map foldr]. rewrite IH. generalize (foldr (sort_insert less) [] l).
  intros k. induction k as [|y k IHk]; [done|]. cbn [map sort_insert]. rewrite Hf. destruct (less y x); [|done]. cbn [map]. by rewrite IHk.
Qed.

Lemma sort_slice_unique {A} (key : A -> string) l l' : NoDup (map key l) -> l ≡ₚ l' ->
  sort_slice (key_less key) l = sort_slice (key_less key) l'.
Proof.
  intros Hnd Hp. apply (keys_sorted_unique key).
  - by apply sort_slice_keys_sorted.
  - apply sort_slice_keys_sorted. change (key <$> l') with (map key l'). by rewrite <- Hp.
  - intros x. by rewrite !sort_slice_perm, Hp.
Qed.

(** *** The response *)

Definition code_fields (r : LifecycleResponse) : list (string * payload) :=
  (required_fields r ++ optional_fields r) ++ [("tableTransition", PBytes (TableTransition r))].

Lemma fields_perm r : TableTransition r <> [] -> response_fields r ≡ₚ code_fields r.
Proof.
  intros Hne. unfold response_fields, code_fields, optional_fields.
  assert (present (filled (TableTransition r)) "tableTransition" PBytes (TableTransition r) =
    [("tableTransition", PBytes (TableTransition r))]) as -> by by destruct (TableTransition r).
  solve_Permutation.
Qed.

Lemma present_names {A} b key (wrap : A -> payload) v : map fst (present b key wrap v) `sublist_of` [key].
Proof. destruct b; simpl; [done|apply sublist_nil_l]. Qed.

Lemma present_option_names {A} key (wrap : A -> payload) v : map fst (present_option key wrap v) `sublist_of` [key].
Proof. destruct v; simpl; [done|apply sublist_nil_l]. Qed.

Lemma code_field_names r : map fst (code_fields r) `sublist_of` field_names.
Proof.
  unfold code_fields, optional_fields. rewrite !map_app.
  change field_names with (((["schema"; "requestId"; "projectId"; "generation"; "ok"] ++
    (["stateToken"] ++ ["affected"] ++ ["sources"] ++ ["sourceArena"] ++ ["sourceLengths"] ++ ["symbolEvidence"] ++
     ["referenceEvidence"] ++ ["changedReferenceSymbols"] ++ ["referenceChangesExact"] ++ ["modules"] ++ ["moduleImports"] ++
     ["unknownImportPaths"] ++ ["timings"] ++ ["error"])) ++ ["tableTransition"])).
  repeat first [done|apply present_names|apply present_option_names|apply sublist_app].
Qed.

Lemma names_distinct : NoDup field_names.
Proof. apply (bool_decide_unpack _). vm_compute. exact I. Qed.

Lemma names_short key : key ∈ field_names -> (String.length key < 24)%nat.
Proof.
  assert (Forall (fun key => (String.length key < 24)%nat) field_names) as H by (apply (bool_decide_unpack _); vm_compute; exact I).
  rewrite Forall_forall in H. apply H.
Qed.

Section Deterministic.
Context (CD : core_deterministic).

Definition key_bytes (key : string) : list Z := cbor_head 3 (Z.of_nat (String.length key)) ++ string_bytes key.

Lemma short_key key : key ∈ field_names -> cbor_Marshal (PText key) = Ok (key_bytes key).
Proof. intros H. apply (cd_text CD). by apply names_short. Qed.

Lemma key_bytes_inj a b : a ∈ field_names -> b ∈ field_names -> key_bytes a = key_bytes b -> a = b.
Proof.
  intros Ha%names_short Hb%names_short. unfold key_bytes, cbor_head.
  destruct (Z.ltb_spec (Z.of_nat (String.length a)) 24); [|lia]. destruct (Z.ltb_spec (Z.of_nat (String.length b)) 24); [|lia].
  intros [= _ Hs%string_bytes_inj]. done.
Qed.

Lemma key_order_inj a b : a ∈ field_names -> b ∈ field_names -> bytes_string (key_bytes a) = bytes_string (key_bytes b) -> a = b.
Proof.
  intros Ha Hb H. apply key_bytes_inj; [done..|].
  assert (forall k, k ∈ field_names -> Forall is_byte (key_bytes k)) as Hbytes.
  { intros k Hk%names_short. unfold key_bytes, cbor_head. destruct (Z.ltb_spec (Z.of_nat (String.length k)) 24); [|lia].
    apply Forall_app. split; [apply Forall_singleton; unfold is_byte; lia|apply string_bytes_range]. }
  rewrite <- (string_bytes_string (key_bytes a)), <- (string_bytes_string (key_bytes b)) by auto. by rewrite H.
Qed.

Lemma encoded_keys fields cs : Forall2 encodes_to fields cs -> (forall k, k ∈ map fst fields -> k ∈ field_names) ->
  map chunk_key cs = map key_bytes (map fst fields).
Proof.
  induction 1 as [|[k f] c fields cs [H1 _] _ IH]; intros Hk; [done|]. cbn [map fst] in *.
  rewrite IH by (intros; apply Hk; by right). rewrite short_key in H1 by (apply Hk; by left). by injection H1 as ->.
Qed.

Lemma encoded_orders fields cs : Forall2 encodes_to fields cs -> map fst fields `sublist_of` field_names ->
  NoDup (map chunk_order cs).
Proof.
  intros H Hs. assert (forall k, k ∈ map fst fields -> k ∈ field_names) as Hin by (intros k Hk; by eapply elem_of_sublist).
  assert (map chunk_order cs = map (fun k => bytes_string (key_bytes k)) (map fst fields)) as ->.
  { unfold chunk_order. rewrite <- (map_map chunk_key bytes_string), (encoded_keys _ _ H Hin). by rewrite map_map. }
  pose proof (sublist_NoDup _ _ names_distinct Hs) as Hnd. clear H Hs. induction Hnd as [|k l Hk _ IH]; [constructor|].
  cbn [map]. constructor; [|apply IH; intros; apply Hin; by right].
  intros (k' & Hk' & Hl)%list_elem_of_fmap. apply Hk. assert (k = k') as ->; [|done].
  apply key_order_inj; [apply Hin; by left|apply Hin; by right|done].
Qed.

(** *** The pieces *)

(** What the pieces of a field add up to. *)
Definition inlined (tk transition : list Z) (c : lifecycleResponseChunk) : lifecycleResponseChunk :=
  mkChunk (chunk_key c) (if bool_decide (chunk_key c = tk) then chunk_value c ++ transition else chunk_value c).

Lemma pieces_bytes tk transition cs : concat (concat (map (chunk_pieces tk transition) cs)) = concat (map pair_bytes (map (inlined tk transition) cs)).
Proof.
  induction cs as [|c cs IH]; [done|]. cbn [map concat]. rewrite concat_app, IH. f_equal.
  unfold chunk_pieces, pair_bytes, inlined. cbn [chunk_key chunk_value]. case_bool_decide; simpl; by rewrite ?app_nil_r.
Qed.

Lemma pieces_size tk transition cs n : foldl (chunk_size tk transition) n cs = n + len (concat (map pair_bytes (map (inlined tk transition) cs))).
Proof.
  revert n. induction cs as [|c cs IH]; intros n; [simpl; unfold len; simpl; lia|]. cbn [foldl map concat]. rewrite IH, len_app.
  unfold chunk_size, pair_bytes, inlined. cbn [chunk_key chunk_value]. case_bool_decide; rewrite !len_app; lia.
Qed.

Lemma inlined_others tk transition cs : tk ∉ map chunk_key cs -> map (inlined tk transition) cs = cs.
Proof.
  intros Hn. induction cs as [|c cs IH]; [done|]. cbn [map] in *. rewrite not_elem_of_cons in Hn. destruct Hn as [Hc Hn].
  rewrite IH by done. f_equal. unfold inlined. rewrite bool_decide_eq_false_2 by congruence. by destruct c.
Qed.

Lemma inlined_order tk transition x y : key_less chunk_order (inlined tk transition x) (inlined tk transition y) = key_less chunk_order x y.
Proof. done. Qed.

(** The library's bytes of a response with a transition. *)
Lemma marshal_response r more : TableTransition r <> [] -> Forall2 encodes_to (required_fields r ++ optional_fields r) more ->
  let tk := key_bytes "tableTransition" in
  let fields := sort_slice (key_less chunk_order) (more ++ [mkChunk tk (appendCBORByteStringHeader [] (len (TableTransition r)))]) in
  cbor_Marshal (PResponse r) = Ok (Z.lor 160 (u8 (len fields)) :: concat (map pair_bytes (map (inlined tk (TableTransition r)) fields))).
Proof.
  intros Hne Hm tk. cbv zeta. set (last := mkChunk tk (appendCBORByteStringHeader [] (len (TableTransition r)))).
  set (full := mkChunk tk (cbor_head 2 (len (TableTransition r)) ++ TableTransition r)).
  assert (Forall2 encodes_to (code_fields r) (more ++ [full])) as Hcode.
  { apply Forall2_app; [done|]. constructor; [|done]. split; simpl; [|apply (cd_bytes CD)].
    apply short_key. apply (bool_decide_unpack _). vm_compute. exact I. }
  assert (map (inlined tk (TableTransition r)) (more ++ [last]) = more ++ [full]) as Hin.
  { rewrite map_app, inlined_others.
    - assert (inlined tk (TableTransition r) last = full) as Hlast.
      { unfold inlined, last, full. cbn [chunk_key chunk_value]. rewrite bool_decide_eq_true_2 by done.
        by rewrite byte_string_header by (unfold len; lia). }
      cbn [map]. by rewrite Hlast.
    - pose proof (encoded_orders _ _ Hcode (code_field_names r)) as Hnd. rewrite map_app in Hnd. apply NoDup_app in Hnd as (_ & Hnd & _).
      intros (c & Hc & Hl)%list_elem_of_fmap. apply (Hnd (chunk_order c)); [by apply list_elem_of_fmap_2|].
      unfold chunk_order. rewrite <- Hc. by left. }
  rewrite <- (sort_slice_map (key_less chunk_order) (key_less chunk_order) (inlined tk (TableTransition r))) by apply inlined_order.
  rewrite Hin, (cd_response CD). unfold marshal_map.
  destruct (Permutation_Forall2 (symmetry (fields_perm r Hne)) Hcode) as (cs & Hp & Hcs).
  apply encode_fields_ok in Hcs. rewrite Hcs. cbn [result_bind].
  rewrite <- (sort_slice_unique chunk_order (more ++ [full]) cs) by (try apply (encoded_orders _ _ Hcode), code_field_names; done).
  assert (len cs = len (sort_slice (key_less chunk_order) (more ++ [last]))) as ->.
  { unfold len. rewrite <- Hp, sort_slice_perm, !length_app. done. }
  set (n := len (sort_slice (key_less chunk_order) (more ++ [last]))).
  assert (0 <= n < 24) as Hn.
  { unfold n, len. rewrite sort_slice_perm. assert (length (more ++ [last]) = length (map fst (code_fields r))) as ->.
    { rewrite length_map. apply Forall2_length in Hcode. rewrite Hcode, !length_app. done. }
    pose proof (sublist_length _ _ (code_field_names r)) as Hl. change (length field_names) with 20%nat in Hl. lia. }
  unfold cbor_head. destruct (Z.ltb_spec n 24); [|lia]. unfold u8. rewrite Z.mod_small by lia.
  change 160 with (Z.shiftl 5 5). rewrite Z.lor_comm, (lor_shiftl_add n 5 5) by (change (2 ^ 5) with 32; lia).
  change (5 * 2 ^ 5) with 160. cbn [app]. do 2 f_equal. lia.
Qed.

Lemma Marshal_key key : key ∈ field_names -> Marshal (PText key) = Ok (key_bytes key).
Proof.
  intros Hk. unfold Marshal. rewrite (short_key key Hk). destruct (Z.ltb_spec MaxMessageBytes (len (key_bytes key))) as [Hl|]; [|done].
  apply names_short in Hk. unfold key_bytes, cbor_head in Hl. destruct (Z.ltb_spec (Z.of_nat (String.length key)) 24); [|lia].
  rewrite len_app in Hl. unfold len in Hl. rewrite string_bytes_length in Hl.
  unfold MaxMessageBytes in Hl. change (Z.shiftl 64 20) with 67108864 in Hl. simpl in Hl. lia.
Qed.

Lemma code_name r k f : (k, f) ∈ required_fields r ++ optional_fields r -> k ∈ field_names.
Proof.
  intros Hin. eapply elem_of_sublist; [|apply (code_field_names r)]. unfold code_fields. rewrite map_app, elem_of_app. left.
  apply list_elem_of_fmap. by exists (k, f).
Qed.

Lemma chunks_ok r chunks n : TableTransition r <> [] -> lifecycleResponseChunks r = Ok (chunks, n) ->
  cbor_Marshal (PResponse r) = Ok (concat chunks) /\ n = len (concat chunks).
Proof.
  intros Hne. unfold lifecycleResponseChunks. intros (fields & Hf & H)%result_bind_ok. apply add_fields_ok in Hf as (more & -> & Hm).
  rewrite Marshal_key in H by (apply (bool_decide_unpack _); vm_compute; exact I). cbn [result_bind app] in H. injection H as <- <-.
  pose proof (marshal_response r more Hne Hm) as Hr. cbv zeta in Hr. rewrite Hr. cbn [concat]. rewrite pieces_bytes. split; [done|].
  by rewrite pieces_size, len_app.
Qed.

Lemma len_concat (l : list (list Z)) b : b ∈ l -> len b <= len (concat l).
Proof.
  induction l as [|c l IH]; [by intros H%elem_of_nil|]. cbn [concat]. rewrite len_app. intros [->|H]%elem_of_cons.
  - pose proof (len_nonneg_list (concat l)). lia.
  - specialize (IH H). pose proof (len_nonneg_list c). lia.
Qed.

(** A field inside an encoded response is encoded, and no longer. *)
Lemma response_field r b k f : cbor_Marshal (PResponse r) = Ok b -> TableTransition r <> [] ->
  (k, f) ∈ required_fields r ++ optional_fields r -> exists v, cbor_Marshal f = Ok v /\ len v <= len b.
Proof.
  rewrite (cd_response CD). unfold marshal_map. intros (cs & Hcs & [= <-])%result_bind_ok Hne Hin. apply encode_fields_ok in Hcs.
  assert ((k, f) ∈ response_fields r) as Hf by (rewrite (fields_perm r Hne); unfold code_fields; apply elem_of_app; by left).
  apply list_elem_of_lookup in Hf as [i Hi]. destruct (Forall2_lookup_l _ _ _ _ _ Hcs Hi) as (c & Hc & [_ Hv]). exists (chunk_value c).
  split; [done|]. rewrite len_app. pose proof (len_nonneg_list (cbor_head 5 (len cs))).
  assert (len (pair_bytes c) <= len (concat (map pair_bytes (sort_slice (key_less chunk_order) cs)))) as Hl.
  { apply len_concat, list_elem_of_fmap. exists c. split; [done|]. rewrite sort_slice_perm. by eapply list_elem_of_lookup_2. }
  unfold pair_bytes at 1 in Hl. rewrite len_app in Hl. pose proof (len_nonneg_list (chunk_key c)). lia.
Qed.

Lemma chunks_err r e : TableTransition r <> [] -> lifecycleResponseChunks r = Err e -> is_ok (Marshal (PResponse r)) = false.
Proof.
  intros Hne. unfold lifecycleResponseChunks.
  destruct (add_fields [] (required_fields r ++ optional_fields r)) as [fields|e'] eqn:Ea.
  - cbn [result_bind]. rewrite Marshal_key by (apply (bool_decide_unpack _); vm_compute; exact I). done.
  - intros _. apply add_fields_err in Ea as (k & f & Hin & Hf).
    + unfold Marshal. destruct (cbor_Marshal (PResponse r)) as [b|] eqn:Eb; [|done].
      destruct (response_field r b k f Eb Hne Hin) as (v & Hv & Hl). destruct Hf as [Hf|(b' & Hf & Hmax)]; rewrite Hv in Hf; [done|].
      injection Hf as <-. destruct (Z.ltb_spec MaxMessageBytes (len b)); [done|lia].
    + intros k f Hin. by rewrite Marshal_key by by eapply code_name.
Qed.

Context `{PI : !Pipe}.

Lemma out_write_err out b out' e : out_write out b = (out', Some e) -> broken out' <> None.
Proof. unfold out_write. destruct (broken out) eqn:Eb; intros [= <- Hp]; simpl; congruence. Qed.

Lemma write_chunks_err out chunks out' e : write_chunks out chunks = (out', Some e) -> broken out' <> None.
Proof.
  revert out. induction chunks as [|c chunks IH]; intros out; simpl; [done|]. unfold then_out.
  destruct (out_write out c) as [out1 [x|]] eqn:E; [intros [= <- _]; by eapply out_write_err|]. apply IH.
Qed.

Lemma writeFrameHeader_err out n out' e : writeFrameHeader out n = (out', Some e) -> broken out' <> None \/ out' = out /\ MaxMessageBytes < n.
Proof.
  unfold writeFrameHeader. destruct (Z.ltb_spec MaxMessageBytes n); [intros [= <- _]; by right|]. intros Hw%out_write_err. by left.
Qed.

Lemma response_written out value :
  match writeLifecycleResponse out value with
  | (out', None) => exists encoded, Marshal (PResponse value) = Ok encoded /\ sent out' = sent out ++ frame_of encoded /\ broken out' = None
  | (out', Some _) => broken out' <> None \/ sent out' = sent out /\ is_ok (Marshal (PResponse value)) = false
  end.
Proof.
  unfold writeLifecycleResponse. destruct (Z.leb_spec (Z.shiftl 1 20) (len (TableTransition value))) as [Hbig|Hsmall].
  - assert (TableTransition value <> []) as Hne by (intros Hn; rewrite Hn in Hbig; by vm_compute in Hbig).
    destruct (lifecycleResponseChunks value) as [[chunks n]|e] eqn:Ec; [|right; split; [done|by eapply chunks_err]].
    apply chunks_ok in Ec as [Hm ->]; [|done]. unfold then_out. pose proof (len_nonneg_list (concat chunks)).
    destruct (writeFrameHeader out _) as [o1 [e|]] eqn:Eh.
    + apply writeFrameHeader_err in Eh as [?|[-> Hl]]; [by left|]. right. split; [done|]. unfold Marshal. rewrite Hm.
      destruct (Z.ltb_spec MaxMessageBytes (len (concat chunks))); [done|lia].
    + apply writeFrameHeader_ok in Eh as (Hl & Hb & Hs). destruct (write_chunks o1 chunks) as [o2 [e|]] eqn:Ew.
      { left. by eapply write_chunks_err. }
      apply write_chunks_ok in Ew as [Hb2 Hs2]; [|done]. unfold out_flush. rewrite Hb2. exists (concat chunks). unfold Marshal. rewrite Hm.
      destruct (Z.ltb_spec MaxMessageBytes (len (concat chunks))); [lia|]. split; [done|].
      split; [|done].
      rewrite Hs2, Hs. unfold frame_of. rewrite header_size by lia. by rewrite <- app_assoc.
  - destruct (Marshal (PResponse value)) as [encoded|e] eqn:Em; [|by right]. unfold then_out.
    destruct (writeFrame out encoded) as [o1 [e|]] eqn:Ew.
    + left. revert Ew. unfold writeFrame, then_out. destruct (writeFrameHeader out _) as [o2 [e2|]] eqn:Eh.
      * intros [= <- _]. apply writeFrameHeader_err in Eh as [?|[-> Hl]]; [done|].
        unfold Marshal in Em. destruct (cbor_Marshal _); [|done]. destruct (Z.ltb_spec MaxMessageBytes (len a)); [done|]. injection Em as ->. lia.
      * by intros ?%out_write_err.
    + apply writeFrame_ok in Ew as (_ & Hb & Hs). unfold out_flush. rewrite Hb. exists encoded. split_and!; done.
Qed.

(** C26: Under the documented deterministic encoding of the CBOR library, a response that is
    written, in one piece or field by field around its transition, is one frame of the library's
    own encoding of it; if it is not written, the pipe broke or the library could not encode it
    within the limit and nothing was put out. *)
Theorem response_bytes out value :
  match writeLifecycleResponse out value with
  | (out', None) => exists encoded, Marshal (PResponse value) = Ok encoded /\ sent out' = sent out ++ frame_of encoded
  | (out', Some _) => broken out' <> None \/ sent out' = sent out /\ is_ok (Marshal (PResponse value)) = false
  end.
Proof.
  pose proof (response_written out value) as H. destruct (writeLifecycleResponse out value) as [out' [e|]]; [done|].
  destruct H as (encoded & H1 & H2 & _). by exists encoded.
Qed.
End Deterministic.
End Encoding.
