(* ===== verification/Service.v ===== *)
(** * The service

    [src/cmd/solid-typefacts/main.go]: a reader, a main loop, a worker and a
    writer around one session. Requests wait in a queue and are answered in
    their order of arrival; a cancel frame fires the context of its target at
    once and is acknowledged in order. The four goroutines interleave freely:
    the service is a step relation. *)

From S2P Require Import Prelude GoStd GoText GoBytes Model Modules CompactDemands Closure Protocol FactEqual Materialize Writer Stream Transition Session Arena Wire.
Open Scope Z_scope.

(** ** Queues *)

Record queue (T : Type) := mkQueue { items : list T; q_closed : bool }.
Arguments mkQueue {T}.
Arguments items {T}.
Arguments q_closed {T}.

Definition newQueue {T} : queue T := mkQueue [] false.

Definition push {T} (q : queue T) (item : T) : queue T :=
  if q_closed q then q else mkQueue (items q ++ [item]) false.

(** [None] waits; [Some (None, _)] is the end. *)
Definition pop {T} (q : queue T) : option (option T * queue T) :=
  match items q with
  | item :: rest => Some (Some item, mkQueue rest (q_closed q))
  | [] => if q_closed q then Some (None, q) else None
  end.

Definition close {T} (q : queue T) : queue T := mkQueue (items q) true.

(** ** The responder *)

Section Responder.
Context `{BK : !Backing} `{MR : !MapRange} `{MH : !Maphash} {W V : Type} `{BE : !ClosureBackend W} `{FS : !FileSystem W} `{OS_V : !OS V}.

Record lifecycleResponder := mkResponder {
  rp_session : Session W;
  rp_arena : option (transitionFileArena V);
}.

Definition with_descriptor (r : LifecycleResponse) (path : string) (lengths : list Z) : LifecycleResponse :=
  with_sources r path (rs_Sources r) lengths.

(** [lifecycle]; the crash markers are fault injection for the client's tests. *)
Definition responder_lifecycle (r : lifecycleResponder) (request : LifecycleRequest) : lifecycleResponder * LifecycleResponse :=
  let plain := let '(s, _, response) := Lifecycle (rp_session r) request tt in (s, response) in
  match rp_arena r with
  | Some a =>
      if String.eqb (Operation request) LifecycleAnalyze || String.eqb (Operation request) LifecycleSymbols then
        let '(a, failed) := Begin a (RequestID request) in
        match failed with
        | None =>
            let '(s, a, response) := LifecycleInto (rp_session r) request file_arena a in
            (mkResponder s (Some a),
             match descriptor a with
             | Some (path, lengths) => if OK response then with_descriptor response path lengths else response
             | None => response
             end)
        | Some _ => let '(s, response) := plain in (mkResponder s (Some a), response)
        end
      else let '(s, response) := plain in (mkResponder s (Some a), response)
  | None => let '(s, response) := plain in (mkResponder s None, response)
  end.
End Responder.
Arguments lifecycleResponder : clear implicits.

(** ** The goroutines *)

(** A request waiting for the worker: its context, and whether it is released
    after dispatch. A cancel request has the service's own context. *)
Record job := mkJob {
  jb_request : LifecycleRequest;
  jb_ctx : option nat;
}.

Definition frame : Type := result (list Z).

Inductive reader_state := Reading | Holding (f : frame) | ReaderDone.
Inductive worker_state :=
| WorkerIdle
| Busy (j : job)
| Answered (j : job) (r : LifecycleResponse)
| Pushing (r : LifecycleResponse)
| WorkerDone.
Inductive writer_state := WriterIdle | Writing (r : LifecycleResponse) | WriterDone.
Inductive main_state := Selecting | Draining (readErr : option error) | Failing (e : error) | Finished (r : result unit).

Record service {R : Type} := mkService {
  input : list Z;
  sv_reader : reader_state;
  sv_main : main_state;
  cancels : gmap Z nat;
  contexts : nat;
  fired : gset nat;
  jobs : queue job;
  sv_worker : worker_state;
  responses : queue LifecycleResponse;
  sv_writer : writer_state;
  fatal : option error;
  output : bufio_writer;
  respond_state : R;
}.
Arguments service : clear implicits.

(** The client's requests are decoded by the CBOR library; a responder answers
    a request, whose context may or may not have been fired meanwhile. *)
Class Decoder := { cbor_Unmarshal : list Z -> result LifecycleRequest }.
Class Responder (R : Type) := { answers : R -> LifecycleRequest -> bool -> R -> LifecycleResponse -> Prop }.

Section Serve.
Context {R : Type} `{DE : !Decoder} `{RE : !Responder R} `{CB : !CBOR} `{PI : !Pipe}.
Implicit Types v : service R.

Definition Unmarshal (encoded : list Z) : result LifecycleRequest :=
  if MaxMessageBytes <? len encoded then Err (ErrText "encoded message exceeds the limit")
  else match cbor_Unmarshal encoded with Ok r => Ok r | Err e => Err (ErrWrap "decode deterministic CBOR" e) end.

Definition serve (bytes : list Z) (out : bufio_writer) (r : R) : service R :=
  mkService _ bytes Reading Selecting ∅ 0 ∅ newQueue WorkerIdle newQueue WriterIdle None out r.

Definition set_main v (m : main_state) : service R :=
  mkService _ (input v) (sv_reader v) m (cancels v) (contexts v) (fired v) (jobs v) (sv_worker v) (responses v)
    (sv_writer v) (fatal v) (output v) (respond_state v).

Definition set_reader v (bytes : list Z) (r : reader_state) : service R :=
  mkService _ bytes r (sv_main v) (cancels v) (contexts v) (fired v) (jobs v) (sv_worker v) (responses v)
    (sv_writer v) (fatal v) (output v) (respond_state v).

Definition set_jobs v (q : queue job) (w : worker_state) : service R :=
  mkService _ (input v) (sv_reader v) (sv_main v) (cancels v) (contexts v) (fired v) q w (responses v)
    (sv_writer v) (fatal v) (output v) (respond_state v).

Definition set_responses v (w : worker_state) (q : queue LifecycleResponse) (o : writer_state) : service R :=
  mkService _ (input v) (sv_reader v) (sv_main v) (cancels v) (contexts v) (fired v) (jobs v) w q
    o (fatal v) (output v) (respond_state v).

Definition set_output v (o : writer_state) (e : option error) (out : bufio_writer) : service R :=
  mkService _ (input v) (sv_reader v) (sv_main v) (cancels v) (contexts v) (fired v) (jobs v) (sv_worker v) (responses v)
    o e out (respond_state v).

Definition set_answer v (w : worker_state) (r : R) : service R :=
  mkService _ (input v) (sv_reader v) (sv_main v) (cancels v) (contexts v) (fired v) (jobs v) w (responses v)
    (sv_writer v) (fatal v) (output v) r.

Definition set_cancels v (c : gmap Z nat) (n : nat) (f : gset nat) : service R :=
  mkService _ (input v) (sv_reader v) (sv_main v) c n f (jobs v) (sv_worker v) (responses v)
    (sv_writer v) (fatal v) (output v) (respond_state v).

(** [drain]. *)
Definition drain v (readErr : option error) : service R :=
  set_main (set_jobs v (close (jobs v)) (sv_worker v)) (Draining readErr).

(** One decoded request. *)
Definition accept v (request : LifecycleRequest) : service R :=
  if String.eqb (Operation request) LifecycleCancel then
    let v := match cancels v !! CancelRequestID request with
             | Some ctx => set_cancels v (cancels v) (contexts v) ({[ctx]} ∪ fired v)
             | None => v
             end in
    set_jobs v (push (jobs v) (mkJob request None)) (sv_worker v)
  else
    let ctx := contexts v in
    let v := set_cancels v (<[RequestID request := ctx]> (cancels v)) (S ctx) (fired v) in
    set_jobs v (push (jobs v) (mkJob request (Some ctx))) (sv_worker v).

(** One frame of the main loop. [errors.Is(err, io.EOF)] ends the input. *)
Definition handle_frame v (f : frame) : service R * option LifecycleRequest :=
  match f with
  | Err e => (drain v (if error_is EOF e then None else Some e), None)
  | Ok payload =>
      match Unmarshal payload with
      | Err e => (drain v (Some (ErrWrap "decode request" e)), None)
      | Ok request => (accept v request, Some request)
      end
  end.

(** The [release] of a job: its context is fired and forgotten. *)
Definition release v (j : job) : service R :=
  match jb_ctx j with
  | None => v
  | Some ctx => set_cancels v (delete (RequestID (jb_request j)) (cancels v)) (contexts v) ({[ctx]} ∪ fired v)
  end.

Definition is_fired v (j : job) : bool := match jb_ctx j with Some ctx => bool_decide (ctx ∈ fired v) | None => false end.

(** What [drain] returns once the pipeline has ended. *)
Definition drained v (readErr : option error) : result unit :=
  match fatal v, readErr with
  | Some e, _ | None, Some e => Err e
  | None, None => match out_flush (output v) with (_, Some e) => Err e | (_, None) => Ok tt end
  end.

(** What a step shows. *)
Inductive event :=
| Silent
| Accepted (request : LifecycleRequest)
| AnsweredWith (request : LifecycleRequest) (response : LifecycleResponse)
| Wrote (response : LifecycleResponse).

Inductive step : service R -> event -> service R -> Prop :=
  (* the reader *)
  | step_read v f rest : sv_reader v = Reading ->
      match readFrame (input v) with Ok (payload, rest') => f = Ok payload /\ rest = rest' | Err e => f = Err e /\ rest = input v end ->
      step v Silent (set_reader v rest (Holding f))
  (* the main loop *)
  | step_take v f v' accepted : sv_main v = Selecting -> sv_reader v = Holding f ->
      handle_frame (set_reader v (input v) (if is_ok f then Reading else ReaderDone)) f = (v', accepted) ->
      step v (match accepted with Some request => Accepted request | None => Silent end) v'
  | step_fatal v e : sv_main v = Selecting -> fatal v = Some e ->
      step v Silent (set_main (set_output (set_jobs v (close (jobs v)) (sv_worker v)) (sv_writer v) None (output v)) (Failing e))
  | step_drained v readErr : sv_main v = Draining readErr -> sv_worker v = WorkerDone -> sv_writer v = WriterDone ->
      step v Silent (set_main v (Finished (drained v readErr)))
  | step_failed v e : sv_main v = Failing e -> sv_worker v = WorkerDone -> sv_writer v = WriterDone ->
      step v Silent (set_main v (Finished (Err e)))
  (* the worker *)
  | step_next v j q : sv_worker v = WorkerIdle -> pop (jobs v) = Some (Some j, q) -> step v Silent (set_jobs v q (Busy j))
  | step_no_more v q : sv_worker v = WorkerIdle -> pop (jobs v) = Some (None, q) ->
      step v Silent (set_responses v WorkerDone (close (responses v)) (sv_writer v))
  | step_answer v j r response : sv_worker v = Busy j ->
      answers (respond_state v) (jb_request j) (is_fired v j) r response ->
      step v (AnsweredWith (jb_request j) response) (set_answer v (Answered j response) r)
  | step_release v j response : sv_worker v = Answered j response ->
      step v Silent (set_answer (release v j) (Pushing response) (respond_state v))
  | step_push v response : sv_worker v = Pushing response ->
      step v Silent (set_responses v WorkerIdle (push (responses v) response) (sv_writer v))
  (* the writer *)
  | step_dequeue v response q : sv_writer v = WriterIdle -> pop (responses v) = Some (Some response, q) ->
      step v Silent (set_responses v (sv_worker v) q (Writing response))
  | step_all_written v q : sv_writer v = WriterIdle -> pop (responses v) = Some (None, q) ->
      step v Silent (set_responses v (sv_worker v) q WriterDone)
  | step_write v response out : sv_writer v = Writing response -> writeLifecycleResponse (output v) response = (out, None) ->
      step v (Wrote response) (set_output v WriterIdle (fatal v) out)
  | step_write_fails v response out e : sv_writer v = Writing response ->
      writeLifecycleResponse (output v) response = (out, Some e) ->
      step v Silent (set_output v WriterDone (Some e) out).

(** A run, with what it shows. *)
Inductive runs : service R -> list event -> service R -> Prop :=
  | runs_nil v : runs v [] v
  | runs_step v trace v' e v'' : runs v trace v' -> step v' e v'' -> runs v (trace ++ [e]) v''.
End Serve.
