(* ===== verification/ServiceTheorems.v ===== *)
(** * What the service promises

    Requests are answered one by one in their order of arrival and the answers
    are written in that order; every run ends; a cancellation fires the context
    of the requests it names and of no other. *)

From S2P Require Import Prelude GoStd GoText GoBytes Model Modules CompactDemands Closure Protocol FactEqual Materialize Writer Stream Transition Session Arena Wire WireTheorems Service.
Open Scope Z_scope.

(** One case per step of the service. *)
Ltac step_cases Hs :=
  destruct Hs as [v f rest Hr Hf|v f v' acc Hm Hr Hf|v e Hm Hf|v re Hm Hw Hwr|v e Hm Hw Hwr
    |v j q Hw Hq|v q Hw Hq|v j r resp Hw Ha|v j resp Hw|v resp Hw|v resp q Hwr Hq|v q Hwr Hq|v resp out Hwr Hout|v resp out e Hwr Hout].

Section Serve.
Context {R : Type} `{DE : !Decoder} `{RE : !Responder R} `{CB : !CBOR} `{PI : !Pipe}.
Implicit Types v : service R.

(** ** What a run shows *)

Definition accepted_of (trace : list event) : list LifecycleRequest :=
  omap (fun e => match e with Accepted r => Some r | _ => None end) trace.
Definition answered_of (trace : list event) : list (LifecycleRequest * LifecycleResponse) :=
  omap (fun e => match e with AnsweredWith q r => Some (q, r) | _ => None end) trace.
Definition written_of (trace : list event) : list LifecycleResponse :=
  omap (fun e => match e with Wrote r => Some r | _ => None end) trace.

Lemma accepted_snoc trace e : accepted_of (trace ++ [e]) = accepted_of trace ++ match e with Accepted r => [r] | _ => [] end.
Proof. unfold accepted_of. rewrite omap_app. by destruct e. Qed.
Lemma answered_snoc trace e : answered_of (trace ++ [e]) = answered_of trace ++ match e with AnsweredWith q r => [(q, r)] | _ => [] end.
Proof. unfold answered_of. rewrite omap_app. by destruct e. Qed.
Lemma written_snoc trace e : written_of (trace ++ [e]) = written_of trace ++ match e with Wrote r => [r] | _ => [] end.
Proof. unfold written_of. rewrite omap_app. by destruct e. Qed.

(** An invariant of every run, by induction on it. *)
Lemma runs_invariant (P : list event -> service R -> Prop) v0 trace v :
  runs v0 trace v -> P [] v0 ->
  (forall trace v e v', P trace v -> step v e v' -> P (trace ++ [e]) v') -> P trace v.
Proof. induction 1 as [v|v trace v' e v'' _ IH Hs]; intros H0 Hstep; [done|]. eapply Hstep; [by apply IH|done]. Qed.

(** ** Who waits for what *)

(** The states of the goroutines and of the queues between them. *)
Record plumbed v : Prop := {
  pb_jobs : q_closed (jobs v) = true <-> sv_main v <> Selecting;
  pb_reader : sv_reader v = ReaderDone -> sv_main v <> Selecting;
  pb_worker : sv_worker v = WorkerDone -> items (jobs v) = [] /\ q_closed (jobs v) = true;
  pb_responses : q_closed (responses v) = true <-> sv_worker v = WorkerDone;
  pb_fatal : is_Some (fatal v) -> sv_writer v = WriterDone;
  pb_failing e : sv_main v = Failing e -> sv_writer v = WriterDone;
  pb_finished r : sv_main v = Finished r -> sv_worker v = WorkerDone /\ sv_writer v = WriterDone;
}.

Lemma serve_plumbed bytes out r : plumbed (serve bytes out r).
Proof. split; naive_solver. Qed.

Lemma pop_item {T} (q q' : queue T) x : pop q = Some (Some x, q') -> items q = x :: items q' /\ q_closed q' = q_closed q.
Proof. unfold pop. destruct (items q) as [|y l]; [by destruct (q_closed q)|]. by intros [= -> <-]. Qed.

Lemma pop_end {T} (q q' : queue T) : pop q = Some (None, q') -> items q = [] /\ q_closed q = true /\ q' = q.
Proof. unfold pop. destruct (items q) as [|y l]; [|done]. destruct (q_closed q); [|done]. by intros [= <-]. Qed.

Lemma push_open {T} (q : queue T) x : q_closed q = false -> items (push q x) = items q ++ [x] /\ q_closed (push q x) = false.
Proof. unfold push. by intros ->. Qed.

(** What taking a frame changes. *)
Inductive taken v : frame -> service R -> option LifecycleRequest -> Prop :=
  | taken_end e : taken v (Err e) (drain v (if error_is EOF e then None else Some e)) None
  | taken_bad payload e : Unmarshal payload = Err e -> taken v (Ok payload) (drain v (Some (ErrWrap "decode request" e))) None
  | taken_request payload request : Unmarshal payload = Ok request -> taken v (Ok payload) (accept v request) (Some request).

Lemma handle_frame_taken v f v' accepted : handle_frame v f = (v', accepted) -> taken v f v' accepted.
Proof.
  unfold handle_frame. destruct f as [payload|e]; [|intros [= <- <-]; constructor].
  destruct (Unmarshal payload) as [request|e] eqn:E; intros [= <- <-]; by constructor.
Qed.

(** Accepting a request only queues it. *)
Lemma accept_same v request :
  let v' := accept v request in
  input v' = input v /\ sv_reader v' = sv_reader v /\ sv_main v' = sv_main v /\ sv_worker v' = sv_worker v /\
  responses v' = responses v /\ sv_writer v' = sv_writer v /\ fatal v' = fatal v /\ output v' = output v /\
  respond_state v' = respond_state v /\ exists ctx, jobs v' = push (jobs v) (mkJob request ctx).
Proof.
  unfold accept. destruct (String.eqb _ _); [|cbv zeta; split_and!; try done; by eexists].
  destruct (cancels v !! _); cbv zeta; split_and!; try done; by eexists.
Qed.

Lemma release_same v j : let v' := release v j in
  input v' = input v /\ sv_reader v' = sv_reader v /\ sv_main v' = sv_main v /\ jobs v' = jobs v /\ sv_worker v' = sv_worker v /\
  responses v' = responses v /\ sv_writer v' = sv_writer v /\ fatal v' = fatal v /\ output v' = output v.
Proof. unfold release. by destruct (jb_ctx j). Qed.

Lemma step_plumbed v e v' : plumbed v -> step v e v' -> plumbed v'.
Proof.
  intros [H1 H2 H3 H4 H5 H6 H7] Hs. destruct Hs as [v f rest Hr _|v f v' acc Hm Hr Hf|v e Hm Hf|v re Hm Hw Ho|v e Hm Hw Ho
    |v j q Hw Hp|v q Hw Hp|v j r resp Hw _|v j resp Hw|v resp Hw|v resp q Ho Hp|v q Ho Hp|v resp out Ho _|v resp out e Ho _].
  - split; simpl; try done.
  - assert (q_closed (jobs v) = false) as Hopen by (destruct (q_closed (jobs v)); [by destruct (proj1 H1 eq_refl)|done]).
    remember (if is_ok f then Reading else ReaderDone) as rd eqn:Erd.
    apply handle_frame_taken in Hf. destruct Hf as [e|payload e Hu|payload request Hu].
    1-2: split; simpl; try done; intros Hx; destruct (H3 Hx); congruence.
    simpl in Erd. subst rd. destruct (accept_same (set_reader v (input v) Reading) request)
      as (_ & K2 & K3 & K4 & K5 & K6 & K7 & _ & _ & ctx & K8). simpl in *.
    destruct (push_open (jobs v) (mkJob request ctx) Hopen) as [P1 P2].
    split; rewrite ?K2, ?K3, ?K4, ?K5, ?K6, ?K7, ?K8, ?P1, ?P2, ?Hm; try done.
    all: intros Hx; destruct (H3 Hx); congruence.
  - split; simpl; try done; try naive_solver.
  - split; simpl; try done. split; [done|]. intros _. apply H1. by rewrite Hm.
  - split; simpl; try done. split; [done|]. intros _. apply H1. by rewrite Hm.
  - apply pop_item in Hp as [Hi Hc]. split; simpl; try done; rewrite ?Hc; try done.
    + rewrite H4, Hw. done.
    + intros r Hr. destruct (H7 r Hr). congruence.
  - apply pop_end in Hp as (Hi & Hc & ->). split; simpl; try done. intros r Hr. destruct (H7 r Hr). congruence.
  - split; simpl; try done; [rewrite H4, Hw; done|]. intros x Hx. destruct (H7 x Hx). congruence.
  - destruct (release_same v j) as (_ & K2 & K3 & K4 & K5 & K6 & K7 & K8 & _).
    split; cbn [sv_main sv_reader jobs sv_worker responses fatal sv_writer set_answer]; rewrite ?K2, ?K3, ?K4, ?K6, ?K7, ?K8; try done.
    + rewrite H4, Hw. done.
    + intros x Hx. destruct (H7 x Hx). congruence.
  - assert (q_closed (responses v) = false) as Hopen.
    { destruct (q_closed (responses v)); [|done]. rewrite (proj1 H4 eq_refl) in Hw. done. }
    destruct (push_open (responses v) resp Hopen) as [P1 P2]. split; simpl; rewrite ?P2; try done.
    intros x Hx. destruct (H7 x Hx). congruence.
  - apply pop_item in Hp as [Hi Hc]. split; simpl; rewrite ?Hc; try done.
    + intros Hx%H5. congruence.
    + intros x Hx%H6. congruence.
    + intros x Hx. destruct (H7 x Hx). congruence.
  - apply pop_end in Hp as (Hi & Hc & ->). split; simpl; try done; naive_solver.
  - split; simpl; try done; [intros Hx%H5; congruence|intros x Hx%H6; congruence|]. intros x Hx. destruct (H7 x Hx). congruence.
  - split; simpl; try done; naive_solver.
Qed.

(** ** Order *)

Definition in_work (w : worker_state) : list LifecycleRequest := match w with Busy j => [jb_request j] | _ => [] end.
Definition in_push (w : worker_state) : list LifecycleResponse := match w with Answered _ r | Pushing r => [r] | _ => [] end.
Definition in_write (o : writer_state) : list LifecycleResponse := match o with Writing r => [r] | _ => [] end.

(** The writer has stopped at an error. *)
Definition failed v : Prop :=
  is_Some (fatal v) \/ (exists e, sv_main v = Failing e) \/ exists e, sv_main v = Finished (Err e).

Definition held v : list Z := match sv_reader v with Holding (Ok payload) => frame_of payload | _ => [] end.

(** The input is the frames of the accepted requests, then what is left. *)
Definition spelled (bytes : list Z) (requests : list LifecycleRequest) (rest : list Z) : Prop :=
  exists payloads, bytes = concat (map frame_of payloads) ++ rest /\ Forall2 (fun p q => Unmarshal p = Ok q) payloads requests.

(** The output is the frames of the written responses. *)
Definition put_out (out out' : bufio_writer) (written : list LifecycleResponse) : Prop :=
  exists encs, Forall2 (fun r b => Marshal (PResponse r) = Ok b) written encs /\
    (broken out' = None -> sent out' = sent out ++ concat (map frame_of encs)).

Record ordered (v0 : service R) (trace : list event) v : Prop := {
  od_plumbed : plumbed v;
  od_requests : accepted_of trace = map fst (answered_of trace) ++ in_work (sv_worker v) ++ map jb_request (items (jobs v));
  od_responses : exists pending, map snd (answered_of trace) = written_of trace ++ pending /\
    (failed v \/ pending = in_write (sv_writer v) ++ items (responses v) ++ in_push (sv_worker v));
  od_output : put_out (output v0) (output v) (written_of trace);
  od_bytes : Forall is_byte (input v);
  od_held e : sv_reader v = Holding (Err e) -> readFrame (input v) = Err e;
  od_input : exists rest, spelled (input v0) (accepted_of trace) rest /\
    (sv_main v = Selecting -> rest = held v ++ input v) /\
    (sv_main v = Draining None \/ sv_main v = Finished (Ok tt) -> exists e, readFrame rest = Err e /\ error_is EOF e = true);
}.

Lemma spelled_nil bytes : spelled bytes [] bytes.
Proof. by exists []. Qed.

Lemma spelled_next bytes requests payload rest q : spelled bytes requests (frame_of payload ++ rest) -> Unmarshal payload = Ok q ->
  spelled bytes (requests ++ [q]) rest.
Proof.
  intros (ps & -> & Hf) Hq. exists (ps ++ [payload]). rewrite map_app, concat_app. simpl. rewrite app_nil_r, <- app_assoc.
  split; [done|]. apply Forall2_app; [done|]. by constructor.
Qed.

Lemma readFrame_rest bytes message rest : Forall is_byte bytes -> readFrame bytes = Ok (message, rest) ->
  bytes = frame_of message ++ rest /\ Forall is_byte rest.
Proof.
  intros Hb Hr. apply readFrame_shape in Hr as [-> _]; [|by apply Forall_take]. by apply Forall_app in Hb as [_ Hb].
Qed.

Lemma serve_ordered bytes out r : Forall is_byte bytes -> ordered (serve bytes out r) [] (serve bytes out r).
Proof.
  intros Hb. split; try done.
  - apply serve_plumbed.
  - exists []. split; [done|]. by right.
  - exists []. split; [done|]. simpl. by rewrite app_nil_r.
  - exists bytes. split; [apply spelled_nil|]. split; [done|]. by intros [?|?].
Qed.

Section Ordered.
Context (CD : core_deterministic) (v0 : service R).

(** A step of the reader or the main loop. *)
Lemma ordered_take trace v f v' accepted : ordered v0 trace v -> sv_main v = Selecting -> sv_reader v = Holding f ->
  handle_frame (set_reader v (input v) (if is_ok f then Reading else ReaderDone)) f = (v', accepted) -> plumbed v' ->
  ordered v0 (trace ++ [match accepted with Some request => Accepted request | None => Silent end]) v'.
Proof.
  intros [Hp Hrq (pending & Hrs & Hpend) Ho Hb Hh (rest & Hi & Hsel & _)] Hm Hr Hf Hp'.
  specialize (Hsel Hm). unfold held in Hsel. rewrite Hr in Hsel.
  assert (q_closed (jobs v) = false) as Hopen.
  { destruct (q_closed (jobs v)) eqn:E; [|done]. by destruct (proj1 (pb_jobs _ Hp) E). }
  assert (failed v -> is_Some (fatal v)) as Hfail.
  { intros [H|[[e H]|[e H]]]; [done|congruence..]. }
  remember (if is_ok f then Reading else ReaderDone) as rd eqn:Erd.
  apply handle_frame_taken in Hf. destruct Hf as [e|payload e Hu|payload request Hu].
  - simpl in Erd; subst rd. split; rewrite ?accepted_snoc, ?answered_snoc, ?written_snoc, ?app_nil_r; try done.
    + exists pending. split; [done|]. destruct Hpend as [H%Hfail|H]; [left; by left|by right].
    + exists rest. split; [done|]. split; [done|]. simpl. intros [Hd|Hd]; [|done]. exists e. subst rest. cbn [app].
      split; [by apply Hh|]. destruct (error_is EOF e); [done|]. by injection Hd.
  - simpl in Erd; subst rd. split; rewrite ?accepted_snoc, ?answered_snoc, ?written_snoc, ?app_nil_r; try done.
    + exists pending. split; [done|]. destruct Hpend as [H%Hfail|H]; [left; by left|by right].
    + exists rest. split; [done|]. split; [done|]. by intros [?|?].
  - simpl in Erd. subst rd. set (u := set_reader v (input v) Reading) in *. destruct (accept_same u request) as (K1 & K2 & K3 & K4 & K5 & K6 & K7 & K8 & _ & ctx & K9).
    destruct (push_open (jobs u) (mkJob request ctx) Hopen) as [P1 P2].
    split; rewrite ?accepted_snoc, ?answered_snoc, ?written_snoc, ?app_nil_r; rewrite ?K1, ?K2, ?K3, ?K4, ?K5, ?K6, ?K8, ?K9, ?P1; try done.
    + rewrite Hrq, map_app. cbn [map jb_request]. by rewrite <- !app_assoc.
    + exists pending. split; [done|]. destruct Hpend as [H%Hfail|H]; [left; left; by rewrite K7|by right].
    + exists (input v). split; [eapply spelled_next; [|done]; by rewrite <- Hsel|]. unfold held. rewrite K2. split; [done|].
      simpl. rewrite Hm. by intros [?|?].
Qed.

(** What is left of the input does not change once the main loop stops
    reading. *)
Lemma input_same trace v v' : (exists rest, spelled (input v0) (accepted_of trace) rest /\
    (sv_main v = Selecting -> rest = held v ++ input v) /\
    (sv_main v = Draining None \/ sv_main v = Finished (Ok tt) -> exists e, readFrame rest = Err e /\ error_is EOF e = true)) ->
  (sv_main v' = Selecting -> sv_main v = Selecting /\ held v' ++ input v' = held v ++ input v) ->
  (sv_main v' = Draining None \/ sv_main v' = Finished (Ok tt) -> sv_main v = Draining None \/ sv_main v = Finished (Ok tt)) ->
  exists rest, spelled (input v0) (accepted_of trace) rest /\
    (sv_main v' = Selecting -> rest = held v' ++ input v') /\
    (sv_main v' = Draining None \/ sv_main v' = Finished (Ok tt) -> exists e, readFrame rest = Err e /\ error_is EOF e = true).
Proof.
  intros (rest & H1 & H2 & H3) Hsel Hend. exists rest. split_and!; [done| |auto]. intros H. destruct (Hsel H) as [H' ->]. auto.
Qed.

Lemma put_out_next out out' written r : put_out out out' written -> broken out' = None ->
  forall out'', writeLifecycleResponse out' r = (out'', None) -> put_out out out'' (written ++ [r]).
Proof.
  intros (encs & Hf & Hs) Hb out'' Hw. pose proof (response_written CD out' r) as H. rewrite Hw in H.
  destruct H as (b & Hm & Hs' & _). exists (encs ++ [b]). split; [apply Forall2_app; [done|by constructor]|].
  intros _. rewrite Hs', (Hs Hb), map_app, concat_app, <- app_assoc. simpl. by rewrite app_nil_r.
Qed.

(** A successful write started from an unbroken writer. *)
Lemma write_unbroken out r out' : writeLifecycleResponse out r = (out', None) -> broken out = None.
Proof.
  unfold writeLifecycleResponse, writeFrame, writeFrameHeader, then_out, out_write. destruct (broken out); [|done].
  repeat (case_match; try done).
Qed.

(** The other steps, field by field. *)
Lemma step_requests trace v e v' : ordered v0 trace v -> step v e v' ->
  accepted_of (trace ++ [e]) = map fst (answered_of (trace ++ [e])) ++ in_work (sv_worker v') ++ map jb_request (items (jobs v')).
Proof.
  intros Hod Hs. pose proof (step_plumbed _ _ _ (od_plumbed _ _ _ Hod) Hs) as Hp'. pose proof (od_requests _ _ _ Hod) as Hrq.
  step_cases Hs; [|by eapply od_requests, ordered_take|..]; rewrite accepted_snoc, answered_snoc, ?app_nil_r; try exact Hrq.
  - rewrite Hrq, Hw. by apply pop_item in Hq as [-> _].
  - by rewrite Hrq, Hw.
  - rewrite Hrq, map_app, Hw. cbn [map fst in_work]. by rewrite <- app_assoc.
  - rewrite Hrq, Hw. destruct (release_same v j) as (_ & _ & _ & K4 & _). cbn [jobs sv_worker set_answer]. by rewrite K4.
  - by rewrite Hrq, Hw.
Qed.

(** While the writer has work, it has not failed. *)
Lemma writing_unfailed v : plumbed v -> sv_writer v <> WriterDone -> ~ failed v.
Proof.
  intros Hp Hw [H|[[x H]|[x H]]]; apply Hw; [by apply pb_fatal|by eapply pb_failing|by eapply pb_finished].
Qed.

(** What the worker and the writer hold of the answers not yet written. *)
Definition on_the_way v : list LifecycleResponse := in_write (sv_writer v) ++ items (responses v) ++ in_push (sv_worker v).

Lemma responses_open v : plumbed v -> sv_worker v <> WorkerDone -> q_closed (responses v) = false.
Proof. intros Hp Hw. destruct (q_closed (responses v)) eqn:E; [|done]. by destruct Hw; apply (pb_responses _ Hp). Qed.

Lemma step_responses trace v e v' : ordered v0 trace v -> step v e v' ->
  exists pending, map snd (answered_of (trace ++ [e])) = written_of (trace ++ [e]) ++ pending /\ (failed v' \/ pending = on_the_way v').
Proof.
  intros Hod Hs. pose proof (od_plumbed _ _ _ Hod) as Hp. pose proof (step_plumbed _ _ _ Hp Hs) as Hp'.
  destruct (od_responses _ _ _ Hod) as (pending & Hrs & Hpend). fold (on_the_way v) in Hpend. unfold on_the_way in *.
  step_cases Hs; [|by eapply od_responses, ordered_take|..]; rewrite answered_snoc, written_snoc, ?app_nil_r;
    try (exists pending; by split).
  - exists pending. split; [done|]. left. right. left. by exists e.
  - exists pending. split; [done|]. destruct Hpend as [[[x H]|[[x H]|[x H]]]|H]; [|congruence..|by right].
    left. right. right. exists x. simpl. unfold drained. by rewrite H.
  - exists pending. split; [done|]. left. right. right. by exists e.
  - exists pending. split; [done|]. destruct Hpend as [H|H]; [by left|right]. rewrite H, Hw. simpl. by rewrite ?app_nil_r.
  - exists pending. split; [done|]. destruct Hpend as [H|H]; [by left|right]. rewrite H, Hw. simpl. by rewrite ?app_nil_r.
  - exists (pending ++ [resp]). split; [rewrite map_app, Hrs; by rewrite <- app_assoc|]. destruct Hpend as [H|H]; [by left|right].
    rewrite H, Hw. simpl. by rewrite !app_nil_r, <- app_assoc.
  - destruct (release_same v j) as (K1 & K2 & K3 & K4 & K5 & K6 & K7 & K8 & K9). exists pending. split; [done|].
    unfold failed in *. cbn [fatal sv_main sv_writer responses sv_worker set_answer]. rewrite K3, K6, K7, K8.
    destruct Hpend as [H|H]; [by left|right]. rewrite H, Hw. simpl. by rewrite ?app_nil_r.
  - exists pending. split; [done|]. destruct Hpend as [H|H]; [by left|right]. rewrite H, Hw. simpl.
    by rewrite (proj1 (push_open (responses v) resp ltac:(apply responses_open; congruence))), ?app_nil_r.
  - exists pending. split; [done|]. destruct Hpend as [H|H]; [by left|right]. apply pop_item in Hq as [Hi _]. rewrite H, Hwr, Hi. simpl. by rewrite ?app_nil_r.
  - exists pending. split; [done|]. destruct Hpend as [H|H]; [by left|right]. apply pop_end in Hq as (Hi & _ & ->). rewrite H, Hwr. simpl. by rewrite ?app_nil_r.
  - destruct Hpend as [H|H]; [exfalso; eapply (writing_unfailed v); [done|congruence|done]|].
    rewrite H, Hwr in Hrs. exists (items (responses v) ++ in_push (sv_worker v)). split; [|by right]. rewrite Hrs. simpl. by rewrite <- app_assoc.
  - exists pending. split; [done|]. left. left. by eexists.
Qed.

Lemma write_fails_same out r out' e : writeLifecycleResponse out r = (out', Some e) -> broken out' = None ->
  broken out = None /\ sent out' = sent out.
Proof.
  intros Hw Hb. pose proof (response_written CD out r) as H. rewrite Hw in H. destruct H as [H|[H _]]; [done|]. split; [|done].
  revert Hw Hb. unfold writeLifecycleResponse, writeFrame, writeFrameHeader, then_out, out_write, out_flush. destruct (broken out) eqn:Eb; [|done].
  repeat (case_match; try done); intros; simplify_eq; congruence.
Qed.

Lemma step_output trace v e v' : ordered v0 trace v -> step v e v' -> put_out (output v0) (output v') (written_of (trace ++ [e])).
Proof.
  intros Hod Hs. pose proof (step_plumbed _ _ _ (od_plumbed _ _ _ Hod) Hs) as Hp'. pose proof (od_output _ _ _ Hod) as Ho.
  step_cases Hs; [|by eapply od_output, ordered_take|..]; rewrite written_snoc, ?app_nil_r; try exact Ho.
  - destruct (release_same v j) as (_ & _ & _ & _ & _ & _ & _ & _ & K9). cbn [output set_answer]. by rewrite K9.
  - apply put_out_next with (output v); [done|by eapply write_unbroken|done].
  - destruct Ho as (encs & Hf & Hsent). exists encs. split; [done|]. simpl. intros Hbr.
    destruct (write_fails_same _ _ _ _ Hout Hbr) as [Hb ->]. by apply Hsent.
Qed.

Lemma step_input trace v e v' : ordered v0 trace v -> step v e v' ->
  Forall is_byte (input v') /\ (forall x, sv_reader v' = Holding (Err x) -> readFrame (input v') = Err x) /\
  exists rest, spelled (input v0) (accepted_of (trace ++ [e])) rest /\
    (sv_main v' = Selecting -> rest = held v' ++ input v') /\
    (sv_main v' = Draining None \/ sv_main v' = Finished (Ok tt) -> exists e, readFrame rest = Err e /\ error_is EOF e = true).
Proof.
  intros Hod Hs. pose proof (step_plumbed _ _ _ (od_plumbed _ _ _ Hod) Hs) as Hp'. pose proof Hod as [_ _ _ _ Hb Hh Hin].
  step_cases Hs; [|destruct (ordered_take _ _ _ _ _ Hod Hm Hr Hf Hp'); by split_and!|..]; rewrite accepted_snoc, ?app_nil_r;
    try (split; [exact Hb|]; split; [exact Hh|]; eapply input_same; [exact Hin|try done|try done]).
  - destruct (readFrame (input v)) as [[payload rest']|x] eqn:E; destruct Hf as [-> ->].
    + apply readFrame_rest in E as [E Hb']; [|done]. split_and!; [done|done|]. eapply input_same; [exact Hin| |done].
      simpl. intros Hm. split; [done|]. unfold held. simpl. by rewrite Hr, E.
    + split_and!; [done|by intros y [= <-]|]. eapply input_same; [exact Hin| |done]. simpl. intros Hm. split; [done|]. unfold held. simpl. by rewrite Hr.
  - by intros [?|?].
  - simpl. intros [?|Hfin]; [done|]. injection Hfin as Hfin. left. rewrite Hm. f_equal.
    unfold drained in Hfin. destruct (fatal v); [done|]. by destruct re.
  - by intros [?|?].
  - destruct (release_same v j) as (K1 & K2 & K3 & _). unfold held. cbn [sv_main sv_reader input set_answer]. rewrite K1, K2, K3. by split_and!.
Qed.

Lemma ordered_step trace v e v' : ordered v0 trace v -> step v e v' -> ordered v0 (trace ++ [e]) v'.
Proof.
  intros Hod Hs. destruct (step_input _ _ _ _ Hod Hs) as (H1 & H2 & H3). split; try done.
  - eapply step_plumbed; [apply Hod|done].
  - by eapply step_requests.
  - by eapply step_responses.
  - by eapply step_output.
Qed.

Lemma runs_ordered trace v : Forall is_byte (input v0) -> ordered v0 [] v0 -> runs v0 trace v -> ordered v0 trace v.
Proof. intros Hb H0 Hr. eapply runs_invariant; [done|done|]. intros. by eapply ordered_step. Qed.
End Ordered.

(** Taking a frame leaves the worker and the writer alone. *)
Lemma accept_cases v rd f v' accepted : handle_frame (set_reader v (input v) rd) f = (v', accepted) ->
  sv_worker v' = sv_worker v /\ responses v' = responses v /\ sv_writer v' = sv_writer v /\ fatal v' = fatal v /\ output v' = output v.
Proof.
  intros Hf%handle_frame_taken. destruct Hf as [e|payload e Hu|payload request Hu]; try done.
  by destruct (accept_same (set_reader v (input v) rd) request) as (_ & _ & _ & K4 & K5 & K6 & K7 & K8 & _).
Qed.

(** A run that ends without an error has written all it was given. *)
Lemma writer_done_empty v0 trace v : runs v0 trace v -> plumbed v0 -> sv_writer v0 <> WriterDone -> ~ failed v0 ->
  sv_writer v = WriterDone -> failed v \/ items (responses v) = [] /\ sv_worker v = WorkerDone.
Proof.
  intros Hr Hp0 Hw0 Hf0. enough (plumbed v /\ (sv_writer v = WriterDone -> failed v \/ items (responses v) = [] /\ sv_worker v = WorkerDone)) as [_ ?] by done.
  eapply (runs_invariant (fun _ v => plumbed v /\ (sv_writer v = WriterDone -> failed v \/ items (responses v) = [] /\ sv_worker v = WorkerDone)));
    [exact Hr|by split|]. clear Hr Hp0 Hw0 Hf0 v0 trace v. intros _ v e v' [Hp IH] Hs. split; [by eapply step_plumbed|]. step_cases Hs; try exact IH; try done.
  - destruct (accept_cases _ _ _ _ _ Hf) as (K4 & K5 & K6 & K7 & _). rewrite K6. intros Hd. rewrite K5, K4.
    destruct (IH Hd) as [[H|[[x H]|[x H]]]|H]; [left; left; by rewrite K7|congruence..|by right].
  - intros _. left. right. left. by exists e.
  - intros Hd. destruct (IH Hd) as [[[x H]|[[x H]|[x H]]]|H]; [|congruence..|by right]. left. right. right. exists x. simpl. unfold drained. by rewrite H.
  - intros _. left. right. right. by exists e.
  - intros Hd. destruct (IH Hd) as [H|[_ H]]; [by left|congruence].
  - intros Hd. destruct (IH Hd) as [H|[_ H]]; [by left|congruence].
  - intros Hd. destruct (IH Hd) as [H|[_ H]]; [by left|congruence].
  - destruct (release_same v j) as (_ & _ & K3 & _ & _ & _ & K7 & K8 & _). cbn [sv_writer set_answer]. rewrite K7. intros Hd.
    destruct (IH Hd) as [H|[_ H]]; [left|congruence]. unfold failed. cbn [fatal sv_main set_answer]. by rewrite K3, K8.
  - intros Hd. destruct (IH Hd) as [H|[_ H]]; [by left|congruence].
  - intros _. apply pop_end in Hq as (Hi & Hc & ->). right. split; [done|]. by apply (pb_responses _ Hp).
  - intros _. left. left. by eexists.
Qed.

Lemma runs_finished bytes out r trace v : runs (serve bytes out r) trace v -> sv_main v = Finished (Ok tt) ->
  ~ failed v /\ broken (output v) = None /\ items (responses v) = [].
Proof.
  intros Hr Hm.
  assert (plumbed v /\ (sv_main v = Finished (Ok tt) -> fatal v = None /\ broken (output v) = None)) as [_ H].
  { eapply (runs_invariant (fun _ v => plumbed v /\ (sv_main v = Finished (Ok tt) -> fatal v = None /\ broken (output v) = None)));
      [exact Hr|split; [apply serve_plumbed|done]|]. clear. intros _ v e v' [Hp IH] Hs. split; [by eapply step_plumbed|].
    step_cases Hs; try exact IH; try done.
    - intros Hx. exfalso. assert (sv_main v' <> Finished (Ok tt)); [|done].
      remember (if is_ok f then Reading else ReaderDone) as rd. clear Hx IH. apply handle_frame_taken in Hf. destruct Hf as [e|payload e Hu|payload request Hu]; try done.
      destruct (accept_same (set_reader v (input v) rd) request) as (_ & _ & K3 & _). rewrite K3. simpl. by rewrite Hm.
    - simpl. intros [= Hd]. unfold drained, out_flush in Hd. destruct (fatal v); [done|]. destruct re; [done|]. by destruct (broken (output v)).
    - destruct (release_same v j) as (_ & _ & K3 & _ & _ & _ & _ & K8 & K9). cbn [sv_main fatal output set_answer]. by rewrite K3, K8, K9.
    - intros Hx. destruct (pb_finished _ Hp _ Hx). congruence.
    - intros Hx. destruct (pb_finished _ Hp _ Hx). congruence. }
  destruct (H Hm) as [Hf Hb]. assert (~ failed v) as Hnf.
  { intros [[x Hx]|[[x Hx]|[x Hx]]]; congruence. }
  assert (plumbed v) as Hp.
  { eapply (runs_invariant (fun _ v => plumbed v)); [exact Hr|apply serve_plumbed|]. intros. by eapply step_plumbed. }
  split_and!; [done|done|]. destruct (pb_finished _ Hp _ Hm) as [_ Hw].
  destruct (writer_done_empty _ _ _ Hr (serve_plumbed _ _ _)) as [?|[? _]]; [done| |done|done|done].
  intros [[x Hx]|[[x Hx]|[x Hx]]]; done.
Qed.

(** C5: In every interleaving of the reader, the main loop, the worker and the writer, the
    requests accepted are the frames of the input in order, the answers follow them one by one,
    the responses written follow the answers, and the output is their frames; a run that ends
    without an error ended at the end of the input with every request answered and written. *)
Theorem serve_in_order bytes out r trace v : core_deterministic -> Forall is_byte bytes -> runs (serve bytes out r) trace v ->
  (exists rest, spelled bytes (accepted_of trace) rest /\
     (sv_main v = Finished (Ok tt) -> exists e, readFrame rest = Err e /\ error_is EOF e = true)) /\
  map fst (answered_of trace) `prefix_of` accepted_of trace /\
  written_of trace `prefix_of` map snd (answered_of trace) /\
  put_out out (output v) (written_of trace) /\
  (sv_main v = Finished (Ok tt) ->
     map fst (answered_of trace) = accepted_of trace /\ written_of trace = map snd (answered_of trace) /\ broken (output v) = None).
Proof.
  intros CD Hb Hr. pose proof (runs_finished _ _ _ _ _ Hr) as Hfin.
  pose proof (runs_ordered CD (serve bytes out r) _ _ Hb (serve_ordered bytes out r Hb) Hr) as [Hp Hrq (pending & Hrs & Hpend) Ho _ _ (rest & Hi & _ & Hend)].
  split_and!; [exists rest; split; [exact Hi|]; auto|rewrite Hrq; by apply prefix_app_r|rewrite Hrs; by apply prefix_app_r|exact Ho|].
  intros Hm. destruct (pb_finished _ Hp _ Hm) as [Hw Hwr]. destruct (Hfin Hm) as (Hno & Hbr & Hq). destruct (pb_worker _ Hp Hw) as [Hj _].
  split_and!; [| |done].
  - by rewrite Hrq, Hw, Hj, app_nil_r.
  - destruct Hpend as [H|H]; [done|]. rewrite Hrs, H, Hwr, Hw, Hq. by rewrite app_nil_r.
Qed.

(** ** Every run ends *)

(** A bound on the steps that are left: a frame takes at least the four bytes
    of its length. *)
Definition reader_weight (r : reader_state) : nat :=
  match r with Reading => 1 | Holding (Ok _) => 15 | Holding (Err _) | ReaderDone => 0 end.
Definition main_weight (m : main_state) : nat := match m with Selecting => 3 | Draining _ | Failing _ => 2 | Finished _ => 0 end.
Definition worker_weight (w : worker_state) : nat :=
  match w with WorkerIdle => 1 | Busy _ => 8 | Answered _ _ => 7 | Pushing _ => 6 | WorkerDone => 0 end.
Definition writer_weight (o : writer_state) : nat := match o with WriterIdle => 1 | Writing _ => 3 | WriterDone => 0 end.

Definition weight v : nat :=
  20 * length (input v) + reader_weight (sv_reader v) + main_weight (sv_main v) + 9 * length (items (jobs v)) +
  worker_weight (sv_worker v) + 3 * length (items (responses v)) + writer_weight (sv_writer v).

Lemma readFrame_shorter bytes message rest : readFrame bytes = Ok (message, rest) -> (length rest + 4 <= length bytes)%nat.
Proof.
  unfold readFrame, ReadFull. destruct (Nat.leb_spec 4 (length bytes)) as [H|]; [|by destruct bytes]. cbn [result_bind].
  destruct (_ <? _); [done|]. destruct (Nat.leb _ _); [|by destruct (drop 4 bytes)]. intros [= <- <-]. rewrite !length_drop. lia.
Qed.

Lemma push_length {T} (q : queue T) x : (length (items (push q x)) <= S (length (items q)))%nat.
Proof. unfold push. destruct (q_closed q); simpl; [lia|]. rewrite length_app. simpl. lia. Qed.

Lemma step_weight v e v' : step v e v' -> (weight v' < weight v)%nat.
Proof.
  intros Hs. step_cases Hs; unfold weight; cbn [input sv_reader sv_main jobs sv_worker responses sv_writer set_reader set_main set_jobs
    set_responses set_output set_answer main_weight close items]; rewrite ?Hr, ?Hm, ?Hw, ?Hwr; cbn [reader_weight main_weight worker_weight writer_weight]; try lia.
  - destruct (readFrame (input v)) as [[payload rest']|x] eqn:E; destruct Hf as [-> ->]; cbn [reader_weight]; [|lia].
    apply readFrame_shorter in E. lia.
  - remember (if is_ok f then Reading else ReaderDone) as rd eqn:Erd. apply handle_frame_taken in Hf.
    destruct Hf as [e|payload e Hu|payload request Hu]; simpl in Erd; subst rd.
    1-2: cbn [drain set_main set_jobs set_reader input sv_reader sv_main jobs sv_worker responses sv_writer close items reader_weight main_weight]; lia.
    destruct (accept_same (set_reader v (input v) Reading) request) as (-> & -> & -> & -> & -> & -> & _ & _ & _ & ctx & ->).
    cbn [set_reader input sv_reader sv_main jobs sv_worker responses sv_writer reader_weight]. rewrite Hm. cbn [main_weight].
    pose proof (push_length (jobs v) (mkJob request ctx)). lia.
  - apply pop_item in Hq as [-> _]. simpl. lia.
  - destruct (release_same v j) as (-> & -> & -> & -> & _ & -> & -> & _). cbn [worker_weight]. lia.
  - pose proof (push_length (responses v) resp). lia.
  - apply pop_item in Hq as [-> _]. simpl. lia.
  - apply pop_end in Hq as (_ & _ & ->). lia.
Qed.

Lemma runs_weight v trace v' : runs v trace v' -> (length trace + weight v' <= weight v)%nat.
Proof.
  induction 1 as [v|v trace v' e v'' _ IH Hs]; [simpl; lia|]. apply step_weight in Hs. rewrite length_app. simpl. lia.
Qed.

(** A service that has not finished can go on. *)
Lemma step_possible v : (forall s q c, exists s' r, answers s q c s' r) -> plumbed v ->
  (forall r, sv_main v <> Finished r) -> exists e v', step v e v'.
Proof.
  intros Htot Hp Hnf. destruct (sv_main v) as [|re|e|r] eqn:Hm; [| | |by destruct (Hnf r)].
  { destruct (sv_reader v) as [|f|] eqn:Hr; [| |by destruct (pb_reader _ Hp Hr)].
    - destruct (readFrame (input v)) as [[payload rest]|e] eqn:E; [eexists _, _; eapply (step_read v (Ok payload) rest); [done|by rewrite E]|].
      eexists _, _. eapply (step_read v (Err e) (input v)); [done|by rewrite E].
    - destruct (handle_frame (set_reader v (input v) (if is_ok f then Reading else ReaderDone)) f) as [v' acc] eqn:E.
      eexists _, v'. by eapply step_take. }
  all: assert (q_closed (jobs v) = true) as Hjobs by (apply (pb_jobs _ Hp); congruence).
  all: destruct (sv_worker v) as [|j|j resp|resp|] eqn:Hw;
    [destruct (pop (jobs v)) as [[[j|] q]|] eqn:Hq; [eexists _, _; by eapply step_next|eexists _, _; by eapply step_no_more|]
    |destruct (Htot (respond_state v) (jb_request j) (is_fired v j)) as (s' & resp & Ha); eexists _, _; by eapply step_answer
    |eexists _, _; by eapply step_release|eexists _, _; by eapply step_push|];
    [unfold pop in Hq; rewrite Hjobs in Hq; by destruct (items (jobs v))|].
  all: assert (q_closed (responses v) = true) as Hresp by by apply (pb_responses _ Hp).
  all: destruct (sv_writer v) as [|resp|] eqn:Hwr;
    [destruct (pop (responses v)) as [[[resp|] q]|] eqn:Hq; [eexists _, _; by eapply step_dequeue|eexists _, _; by eapply step_all_written|]
    |destruct (writeLifecycleResponse (output v) resp) as [out [x|]] eqn:Ho; [eexists _, _; by eapply step_write_fails|eexists _, _; by eapply step_write]
    |]; [unfold pop in Hq; rewrite Hresp in Hq; by destruct (items (responses v))|].
  - eexists _, _. by eapply step_drained.
  - eexists _, _. by eapply step_failed.
Qed.

Lemma runs_app v trace v' trace' v'' : runs v trace v' -> runs v' trace' v'' -> runs v (trace ++ trace') v''.
Proof.
  intros H. induction 1 as [v'|v' t v1 e v2 _ IH Hs]; [by rewrite app_nil_r|]. rewrite app_assoc. econstructor; [by apply IH|done].
Qed.

Lemma runs_plumbed v0 trace v : plumbed v0 -> runs v0 trace v -> plumbed v.
Proof. intros H0 Hr. eapply (runs_invariant (fun _ v => plumbed v)); [done|done|]. intros. by eapply step_plumbed. Qed.

(** C6: If the responder answers, the service never blocks for good: from every reachable state
    the number of further steps is bounded, a state without a step has finished, and a finished
    state can be reached, whatever fails. *)
Theorem serve_finishes bytes out r trace v : (forall s q c, exists s' resp, answers s q c s' resp) ->
  runs (serve bytes out r) trace v ->
  (exists bound, forall trace' v', runs v trace' v' -> (length trace' <= bound)%nat) /\
  ((forall e v', ~ step v e v') -> exists res, sv_main v = Finished res) /\
  exists trace' v' res, runs v trace' v' /\ sv_main v' = Finished res.
Proof.
  intros Htot Hr. assert (plumbed v) as Hp by (eapply runs_plumbed; [apply serve_plumbed|done]). split_and!.
  - exists (weight v). intros trace' v' H%runs_weight. lia.
  - intros Hstuck. destruct (sv_main v) as [| | |res] eqn:Hm; [..|by exists res];
      (destruct (step_possible v Htot Hp) as (e' & v' & Hs); [congruence|by destruct (Hstuck e' v')]).
  - clear Hr trace. remember (weight v) as n eqn:Hn. revert v Hp Hn. induction n as [n IH] using (well_founded_induction lt_wf).
    intros v Hp ->. destruct (sv_main v) as [| | |res] eqn:Hm; [..|exists [], v, res; split; [apply runs_nil|done]];
      (destruct (step_possible v Htot Hp) as (e' & v' & Hs); [congruence|];
       destruct (IH (weight v') (step_weight _ _ _ Hs) v' (step_plumbed _ _ _ Hp Hs) eq_refl) as (t & v'' & res & Hr & Hfin);
       exists ([e'] ++ t), v'', res; split; [|done]; eapply runs_app; [|exact Hr]; by eapply (runs_step v []); [apply runs_nil|]).
Qed.

(** ** Cancellation *)

Definition is_cancel (q : LifecycleRequest) : Prop := Operation q = LifecycleCancel.

(** The requests that can be cancelled; the n-th of them has context n. *)
Definition targets (requests : list LifecycleRequest) : list LifecycleRequest := filter (fun q => ~ is_cancel q) requests.

(** The n-th target was named by a later cancel request. *)
Definition named (requests : list LifecycleRequest) (n : nat) : Prop :=
  exists before c after q, requests = before ++ c :: after /\ is_cancel c /\ targets before !! n = Some q /\
    RequestID q = CancelRequestID c.

Definition unreleased v : list job := match sv_worker v with Busy j | Answered j _ => [j] | _ => [] end ++ items (jobs v).

Record contexts_ok (requests : list LifecycleRequest) (k : nat) v : Prop := {
  cx_count : contexts v = length (targets requests);
  cx_least : (k <= contexts v)%nat;
  cx_pending : omap jb_ctx (unreleased v) = seq k (contexts v - k);
  cx_jobs j n : j ∈ unreleased v -> jb_ctx j = Some n -> targets requests !! n = Some (jb_request j);
  cx_cancels id n : cancels v !! id = Some n -> exists q, targets requests !! n = Some q /\ RequestID q = id;
  cx_fired n : n ∈ fired v -> (n < k)%nat \/ named requests n;
  cx_live n q : NoDup (map RequestID (targets requests)) -> (k <= n)%nat -> targets requests !! n = Some q ->
    cancels v !! RequestID q = Some n;
  cx_named n : NoDup (map RequestID (targets requests)) -> (k <= n)%nat -> named requests n -> n ∈ fired v;
}.

Lemma targets_app a b : targets (a ++ b) = targets a ++ targets b.
Proof. apply filter_app. Qed.

Lemma targets_cancel a c : is_cancel c -> targets (a ++ [c]) = targets a.
Proof. intros Hc. rewrite targets_app. unfold targets at 2. rewrite filter_cons_False by (intros H; by apply H). by rewrite filter_nil, app_nil_r. Qed.

Lemma targets_next a q : ~ is_cancel q -> targets (a ++ [q]) = targets a ++ [q].
Proof. intros Hq. rewrite targets_app. unfold targets at 2. by rewrite filter_cons_True. Qed.

Lemma named_weaken a b n : named a n -> named (a ++ b) n.
Proof. intros (before & c & after & q & -> & H). exists before, c, (after ++ b), q. by rewrite <- app_assoc. Qed.

Lemma snoc_split {A} (l before after : list A) x y : l ++ [x] = before ++ y :: after ->
  after = [] /\ x = y /\ l = before \/ exists after', after = after' ++ [x] /\ l = before ++ y :: after'.
Proof.
  destruct after as [|z after' _] using rev_ind.
  - intros H. apply app_inj_tail in H as [-> ->]. by left.
  - rewrite app_comm_cons, app_assoc. intros H. apply app_inj_tail in H as [-> ->]. right. by exists after'.
Qed.

Lemma named_snoc a x n : named (a ++ [x]) n -> named a n \/ is_cancel x /\ exists q, targets a !! n = Some q /\ RequestID q = CancelRequestID x.
Proof.
  intros (before & c & after & q & H & Hc & Hq & Hid). apply snoc_split in H as [(-> & -> & ->)|(after' & -> & ->)].
  - right. split; [done|]. by exists q.
  - left. by exists before, c, after', q.
Qed.

Lemma serve_contexts bytes out r : contexts_ok [] 0 (serve bytes out r).
Proof.
  split; simpl; try done; [set_solver|]. intros n _ _ (before & c & after & q & H & _). by destruct before.
Qed.

(** A request is accepted. *)
Lemma accept_contexts requests k v request : q_closed (jobs v) = false -> contexts_ok requests k v ->
  contexts_ok (requests ++ [request]) k (accept v request).
Proof.
  intros Hopen [H1 H2 H3 H4 H5 H6 H7 H8]. unfold accept. destruct (String.eqb_spec (Operation request) LifecycleCancel) as [Hc|Hc].
  - pose proof (targets_cancel requests request Hc) as Ht.
    set (u := match cancels v !! CancelRequestID request with Some ctx => _ | None => v end).
    assert (cancels u = cancels v /\ contexts u = contexts v /\ jobs u = jobs v /\ sv_worker u = sv_worker v /\
      (forall n, n ∈ fired u <-> n ∈ fired v \/ cancels v !! CancelRequestID request = Some n)) as (U1 & U2 & U3 & U4 & U5).
    { unfold u. destruct (cancels v !! CancelRequestID request) as [ctx|]; split_and!; try done; simpl; intros n; [|naive_solver].
      rewrite elem_of_union, elem_of_singleton. naive_solver. }
    clearbody u. destruct (push_open (jobs v) (mkJob request None) Hopen) as [P1 _].
    assert (unreleased (set_jobs u (push (jobs u) (mkJob request None)) (sv_worker u)) = unreleased v ++ [mkJob request None]) as Hu.
    { unfold unreleased. simpl. by rewrite U3, U4, P1, app_assoc. }
    split; cbn [contexts cancels fired set_jobs]; rewrite ?Hu, ?Ht, ?U1, ?U2; try done.
    + rewrite omap_app, H3. by rewrite app_nil_r.
    + intros j n [Hj|Hj%list_elem_of_singleton]%elem_of_app Hn; [by eapply H4|by subst].
    + intros n [Hn|Hn]%U5; [destruct (H6 n Hn); [by left|right; by apply named_weaken]|]. right.
      destruct (H5 _ _ Hn) as (q & Hq & Hid). exists requests, request, [], q. done.
    + intros n Hnd Hk [Hn|(_ & q & Hq & Hid)]%named_snoc; apply U5; [left; by apply H8|right]. rewrite <- Hid. by apply H7.
  - pose proof (targets_next requests request Hc) as Ht. cbv zeta.
    set (u := set_cancels v _ _ _). destruct (push_open (jobs v) (mkJob request (Some (contexts v))) Hopen) as [P1 _].
    assert (unreleased (set_jobs u (push (jobs u) (mkJob request (Some (contexts v)))) (sv_worker u)) =
      unreleased v ++ [mkJob request (Some (contexts v))]) as Hu.
    { unfold unreleased. simpl. by rewrite P1, app_assoc. }
    assert (forall n q, targets requests !! n = Some q -> n <> contexts v) as Hold.
    { intros n q Hn%lookup_lt_Some. lia. }
    assert ((targets requests ++ [request]) !! contexts v = Some request) as Hnew by (rewrite H1; apply list_lookup_middle; done).
    assert (forall n q, (targets requests ++ [request]) !! n = Some q -> targets requests !! n = Some q \/ n = contexts v /\ q = request) as Hcase.
    { intros n q Hn. apply lookup_app_Some in Hn as [?|[Hn Hq]]; [by left|right]. apply list_lookup_singleton_Some in Hq as [Hq ->].
      split; [lia|done]. }
    assert (NoDup (map RequestID (targets requests ++ [request])) ->
      NoDup (map RequestID (targets requests)) /\ forall n q, targets requests !! n = Some q -> RequestID q <> RequestID request) as Hnd.
    { rewrite map_app. intros (Hn1 & Hn2 & _)%NoDup_app. split; [done|]. intros n q Hq He. apply (Hn2 (RequestID q)).
      - apply list_elem_of_fmap_2. by eapply list_elem_of_lookup_2.
      - rewrite He. by left. }
    split; cbn [contexts cancels fired set_jobs]; rewrite ?Hu, ?Ht; unfold u; cbn [contexts cancels fired set_cancels]; try done.
    + rewrite H1, length_app. simpl. lia.
    + lia.
    + rewrite omap_app, H3. simpl. rewrite Nat.sub_succ_l, seq_S by lia. do 2 f_equal. lia.
    + intros j n [Hj|Hj%list_elem_of_singleton]%elem_of_app Hn; [apply lookup_app_l_Some; by eapply H4|].
      subst j. injection Hn as <-. done.
    + intros id n. rewrite lookup_insert_Some. intros [[<- <-]|[_ Hn]]; [by exists request|].
      destruct (H5 _ _ Hn) as (q & Hq & Hid). exists q. split; [by apply lookup_app_l_Some|done].
    + intros n Hn. destruct (H6 n Hn); [by left|right; by apply named_weaken].
    + intros n q [Hn1 Hn2]%Hnd Hk [Hq|[-> ->]]%Hcase; [|by rewrite lookup_insert_eq].
      rewrite lookup_insert_ne; [by apply H7|]. intros He. by apply (Hn2 n q).
    + intros n [Hn1 _]%Hnd Hk [Hn|(Hcan & _)]%named_snoc; [by apply H8|done].
Qed.

(** A job is released. *)
Lemma release_contexts requests k v j response : sv_worker v = Answered j response -> contexts_ok requests k v ->
  exists k', contexts_ok requests k' (set_answer (release v j) (Pushing response) (respond_state v)).
Proof.
  intros Hw [H1 H2 H3 H4 H5 H6 H7 H8]. unfold release, unreleased in *. rewrite Hw in *. cbn [app] in *.
  destruct (jb_ctx j) as [n|] eqn:Hj.
  - exists (S k). simpl in H3. rewrite Hj in H3. destruct (contexts v - k)%nat as [|m] eqn:Em; [done|]. simpl in H3. injection H3 as -> H3.
    change (omap jb_ctx (items (jobs v)) = seq (S k) m) in H3.
    pose proof (H4 j k ltac:(by left) Hj) as Hk. split; cbn [contexts cancels fired set_answer set_cancels sv_worker jobs]; try done.
    + lia.
    + unfold unreleased. cbn [sv_worker jobs set_answer set_cancels app]. rewrite H3. f_equal. lia.
    + intros j' n' Hj'. apply H4. by right.
    + intros id n' [_ Hn]%lookup_delete_Some. by apply H5.
    + intros n' [Hn%elem_of_singleton|Hn]%elem_of_union; [left; lia|]. destruct (H6 n' Hn); [left; lia|by right].
    + intros n' q Hnd Hn Hq. rewrite lookup_delete_ne; [apply H7; [done|lia|done]|]. intros He.
      assert (k = n'); [|lia]. eapply (NoDup_lookup (map RequestID (targets requests))); [done|..]; rewrite list_lookup_fmap; [by rewrite Hk|].
      by rewrite Hq, He.
    + intros n' Hnd Hn Hx. apply elem_of_union. right. apply H8; [done|lia|done].
  - exists k. simpl in H3. rewrite Hj in H3. split; try done. intros j' n' Hj'. apply H4. by right.
Qed.

Lemma contexts_same requests k v v' : contexts_ok requests k v -> unreleased v' = unreleased v ->
  contexts v' = contexts v -> cancels v' = cancels v -> fired v' = fired v -> contexts_ok requests k v'.
Proof. intros [H1 H2 H3 H4 H5 H6 H7 H8] Hu Hc Hm Hf. split; rewrite ?Hu, ?Hc, ?Hm, ?Hf; done. Qed.

Lemma step_contexts requests k v e v' : plumbed v -> contexts_ok requests k v -> step v e v' ->
  exists k', contexts_ok (requests ++ accepted_of [e]) k' v'.
Proof.
  intros Hp H Hs. step_cases Hs; [|destruct acc as [request|]|..]; unfold accepted_of; cbn [omap list_omap]; rewrite ?app_nil_r;
    try (exists k; by eapply contexts_same).
  - exists k. remember (if is_ok f then Reading else ReaderDone) as rd. apply handle_frame_taken in Hf.
    inversion Hf as [| |payload q Hu]; subst. apply accept_contexts; [|by eapply contexts_same].
    simpl. destruct (q_closed (jobs v)) eqn:E; [|done]. by destruct (proj1 (pb_jobs _ Hp) E).
  - exists k. apply handle_frame_taken in Hf. inversion Hf; subst; by eapply contexts_same.
  - exists k. eapply contexts_same; try done. unfold unreleased. simpl. by rewrite Hw; apply pop_item in Hq as [-> _].
  - exists k. eapply contexts_same; try done. unfold unreleased. simpl. by rewrite Hw.
  - exists k. eapply contexts_same; try done. unfold unreleased. simpl. by rewrite Hw.
  - by eapply release_contexts.
  - exists k. eapply contexts_same; try done. unfold unreleased. simpl. by rewrite Hw.
Qed.

Lemma runs_contexts bytes out r trace v : runs (serve bytes out r) trace v -> exists k, contexts_ok (accepted_of trace) k v.
Proof.
  intros Hr. assert (plumbed v /\ exists k, contexts_ok (accepted_of trace) k v) as [_ ?]; [|done].
  eapply (runs_invariant (fun t v => plumbed v /\ exists k, contexts_ok (accepted_of t) k v)); [exact Hr| |].
  - split; [apply serve_plumbed|exists 0%nat; apply serve_contexts].
  - intros t v1 e v2 (Hp & k & Hk) Hs. split; [by eapply step_plumbed|].
    unfold accepted_of in *. rewrite omap_app. by eapply step_contexts.
Qed.

(** A cancel request for [q] arrived after it. *)
Definition cancelled_after (requests : list LifecycleRequest) (q : LifecycleRequest) : Prop :=
  exists before c after, requests = before ++ c :: after /\ is_cancel c /\ CancelRequestID c = RequestID q /\ q ∈ targets before.

(** C7: The context of the request the worker is busy with is fired only if a cancel request
    naming it was accepted after it; and if no two cancellable requests share an identity, every
    such cancel request fires it. *)
Theorem cancel_hits_target bytes out r trace v j n : runs (serve bytes out r) trace v -> sv_worker v = Busy j -> jb_ctx j = Some n ->
  (is_fired v j = true -> cancelled_after (accepted_of trace) (jb_request j)) /\
  (NoDup (map RequestID (targets (accepted_of trace))) -> cancelled_after (accepted_of trace) (jb_request j) -> is_fired v j = true).
Proof.
  intros Hr Hw Hj. destruct (runs_contexts _ _ _ _ _ Hr) as (k & Hk). set (A := accepted_of trace) in *.
  assert (j ∈ unreleased v) as Hin by (unfold unreleased; rewrite Hw; by left).
  pose proof (cx_jobs _ _ _ Hk j n Hin Hj) as Hn. unfold is_fired. rewrite Hj, bool_decide_eq_true.
  assert (k <= n)%nat as Hkn.
  { assert (n ∈ omap jb_ctx (unreleased v)) as Hs by (apply list_elem_of_omap; by exists j).
    rewrite (cx_pending _ _ _ Hk), elem_of_seq in Hs. lia. }
  split.
  - intros Hf. destruct (cx_fired _ _ _ Hk n Hf) as [|(before & c & after & q & He & Hc & Hq & Hid)]; [lia|].
    exists before, c, after. split_and!; [done..| |].
    + rewrite <- Hid. f_equal. rewrite He, targets_app in Hn. rewrite (lookup_app_l_Some _ _ _ _ Hq) in Hn. by injection Hn.
    + rewrite He, targets_app in Hn. rewrite (lookup_app_l_Some _ _ _ _ Hq) in Hn. injection Hn as <-. by eapply list_elem_of_lookup_2.
  - intros Hnd (before & c & after & He & Hc & Hid & Hq). apply (cx_named _ _ _ Hk); [done..|].
    apply list_elem_of_lookup in Hq as [m Hm]. exists before, c, after, (jb_request j). split_and!; try done.
    assert (m = n) as <-; [|done]. eapply (NoDup_lookup (map RequestID (targets A))); [done|..]; rewrite list_lookup_fmap; [|by rewrite Hn].
    rewrite He, targets_app. by rewrite (lookup_app_l_Some _ _ _ _ Hm).
Qed.
End Serve.
