(* ===== verification/SampleService.v ===== *)
(** * A concrete service

    A small codec, decoder and responder, and a scheduler that picks one step
    of the service: the witnesses of the service's theorems run on it. *)

From S2P Require Import Prelude GoStd GoText GoBytes Model Modules CompactDemands Closure Protocol FactEqual Materialize Writer Stream Transition Session Arena Wire WireTheorems Service ServiceTheorems.
Open Scope Z_scope.

(** ** A codec *)

Definition text_item (s : string) : list Z := cbor_head 3 (Z.of_nat (String.length s)) ++ string_bytes s.

(** What the library does to the values of a small response. *)
Definition item_Marshal (p : payload) : result (list Z) :=
  match p with
  | PText s => Ok (text_item s)
  | PUint n => Ok (cbor_head 0 n)
  | PBool b => Ok [if b then 245 else 244]
  | PBytes b => Ok (cbor_head 2 (len b) ++ b)
  | PTexts l => Ok (cbor_head 4 (len l) ++ concat (map text_item l))
  | PUints l => Ok (cbor_head 4 (len l) ++ concat (map (cbor_head 0) l))
  | _ => Err (ErrText "not a small value")
  end.

Definition item_cbor : CBOR := {| cbor_Marshal := item_Marshal |}.

#[export] Instance sample_cbor : CBOR := {|
  cbor_Marshal p := match p with PResponse r => @marshal_map item_cbor (response_fields r) | _ => item_Marshal p end;
|}.

Definition is_response (p : payload) : bool := match p with PResponse _ => true | _ => false end.

Lemma sample_fields fields : forallb (fun f => negb (is_response (snd f))) fields = true ->
  @encode_fields sample_cbor fields = @encode_fields item_cbor fields.
Proof.
  induction fields as [|[k f] fields IH]; [done|]. cbn [forallb snd encode_fields]. intros [Hf Hr]%andb_prop.
  rewrite IH by done. by destruct f.
Qed.

Lemma present_plain {A} b key (wrap : A -> payload) v : is_response (wrap v) = false ->
  forallb (fun f => negb (is_response (snd f))) (present b key wrap v) = true.
Proof. intros H. destruct b; simpl; [by rewrite H|done]. Qed.

Lemma present_option_plain {A} key (wrap : A -> payload) v : (forall a, is_response (wrap a) = false) ->
  forallb (fun f => negb (is_response (snd f))) (present_option key wrap v) = true.
Proof. intros H. destruct v; simpl; [by rewrite H|done]. Qed.

Lemma sample_deterministic : core_deterministic.
Proof.
  split; [done..|]. intros r. cbn [cbor_Marshal sample_cbor]. unfold marshal_map. f_equal. symmetry. apply sample_fields.
  unfold response_fields. rewrite !forallb_app. cbn [required_fields forallb snd is_response negb andb].
  repeat first [rewrite present_plain by done|rewrite present_option_plain by done]. done.
Qed.

#[export] Instance open_pipe : Pipe := {| pipe_err _ := None |}.

Definition small_response (id : Z) (ok : bool) (transition : list Z) : LifecycleResponse :=
  mkResponse 1 id "p" 1 ok transition [] [] [] false "7" [] [] "" [] None None [] [] [].

Definition no_output : bufio_writer := mkBufio [] None.

Lemma response_bytes_witness :
  let out := fst (writeLifecycleResponse no_output (small_response 9 true [1; 2; 3])) in
  exists encoded, Marshal (PResponse (small_response 9 true [1; 2; 3])) = Ok encoded /\ sent out = frame_of encoded.
Proof.
  cbv zeta. pose proof (response_bytes sample_deterministic no_output (small_response 9 true [1; 2; 3])) as H.
  destruct (writeLifecycleResponse no_output (small_response 9 true [1; 2; 3])) as [out [e|]] eqn:E; [vm_compute in E; discriminate E|].
  destruct H as (encoded & H1 & H2). exists encoded. split; [exact H1|exact H2].
Defined.

(** The pieces of the same response, put together. *)
Example small_chunks :
  exists chunks n, lifecycleResponseChunks (small_response 9 true [1; 2; 3]) = Ok (chunks, n) /\
    Marshal (PResponse (small_response 9 true [1; 2; 3])) = Ok (concat chunks).
Proof. eexists _, _. split; vm_compute; reflexivity. Qed.

(** A stream that ends right after a length prefix ends like a complete one. *)
Example cut_after_prefix : readFrame (little_endian 4 5) = Err EOF /\ readFrame (little_endian 4 5 ++ [1]) = Err ErrUnexpectedEOF.
Proof. split; vm_compute; reflexivity. Qed.

(** ** A service *)

Definition small_request (operation : LifecycleOperation) (id target : Z) : LifecycleRequest :=
  mkRequest 1 id operation "p" 1 [] [] None "" false [] [] false false [] target None.

(** [[id]] asks for the sources, [[id; target]] cancels. *)
#[export] Instance small_decoder : Decoder := {|
  cbor_Unmarshal b :=
    match b with
    | [id] => Ok (small_request LifecycleSources id 0)
    | [id; target] => Ok (small_request LifecycleCancel id target)
    | _ => Err (ErrText "malformed")
    end;
|}.

(** A responder that fails a request whose context was fired. *)
Definition respond (q : LifecycleRequest) (cancelled : bool) : LifecycleResponse := small_response (RequestID q) (negb cancelled) [].
#[export] Instance small_responder : Responder unit := {| answers _ q c _ r := r = respond q c |}.

(** One step: the reader and the main loop first, then the worker, then the
    writer. *)
Definition pick (v : service unit) : option (event * service unit) :=
  match sv_reader v, sv_main v with
  | Reading, _ =>
      match readFrame (input v) with
      | Ok (message, rest) => Some (Silent, set_reader v rest (Holding (Ok message)))
      | Err e => Some (Silent, set_reader v (input v) (Holding (Err e)))
      end
  | Holding f, Selecting =>
      let '(v', accepted) := handle_frame (set_reader v (input v) (if is_ok f then Reading else ReaderDone)) f in
      Some (match accepted with Some request => Accepted request | None => Silent end, v')
  | _, _ =>
      match sv_worker v with
      | WorkerIdle =>
          match pop (jobs v) with
          | Some (Some j, q) => Some (Silent, set_jobs v q (Busy j))
          | Some (None, q) => Some (Silent, set_responses v WorkerDone (close (responses v)) (sv_writer v))
          | None => None
          end
      | Busy j => let r := respond (jb_request j) (is_fired v j) in Some (AnsweredWith (jb_request j) r, set_answer v (Answered j r) tt)
      | Answered j r => Some (Silent, set_answer (release v j) (Pushing r) (respond_state v))
      | Pushing r => Some (Silent, set_responses v WorkerIdle (push (responses v) r) (sv_writer v))
      | WorkerDone =>
          match sv_writer v with
          | WriterIdle =>
              match pop (responses v) with
              | Some (Some r, q) => Some (Silent, set_responses v (sv_worker v) q (Writing r))
              | Some (None, q) => Some (Silent, set_responses v (sv_worker v) q WriterDone)
              | None => None
              end
          | Writing r =>
              match writeLifecycleResponse (output v) r with
              | (out, None) => Some (Wrote r, set_output v WriterIdle (fatal v) out)
              | (out, Some e) => Some (Silent, set_output v WriterDone (Some e) out)
              end
          | WriterDone =>
              match sv_main v with
              | Draining readErr => Some (Silent, set_main v (Finished (drained v readErr)))
              | Failing e => Some (Silent, set_main v (Finished (Err e)))
              | _ => None
              end
          end
      end
  end.

Lemma pick_step v e v' : pick v = Some (e, v') -> step v e v'.
Proof.
  unfold pick. intros H. destruct (sv_reader v) as [|f|] eqn:Hr.
  { destruct (readFrame (input v)) as [[message rest]|x] eqn:E; injection H as <- <-; (eapply step_read; [done|by rewrite E]). }
  { destruct (sv_main v) eqn:Hm.
    { destruct (handle_frame _ f) as [v1 accepted] eqn:E. injection H as <- <-. by eapply step_take. }
    all: revert H; destruct (sv_worker v) as [|j|j y|y|] eqn:Hw; [destruct (pop (jobs v)) as [[[j|] q]|] eqn:Hq|..|
      destruct (sv_writer v) as [|y|] eqn:Hwr; [destruct (pop (responses v)) as [[[y|] q]|] eqn:Hq|
        destruct (writeLifecycleResponse (output v) y) as [out [x|]] eqn:Ho|]]; intros [= <- <-]; rewrite <- ?Hw; try (by econstructor). }
  destruct (sv_main v) eqn:Hm.
  all: revert H; destruct (sv_worker v) as [|j|j y|y|] eqn:Hw; [destruct (pop (jobs v)) as [[[j|] q]|] eqn:Hq|..|
      destruct (sv_writer v) as [|y|] eqn:Hwr; [destruct (pop (responses v)) as [[[y|] q]|] eqn:Hq|
        destruct (writeLifecycleResponse (output v) y) as [out [x|]] eqn:Ho|]]; try done; intros [= <- <-]; rewrite <- ?Hw; try (by econstructor).
Qed.

Fixpoint run_steps (n : nat) (v : service unit) : list event * service unit :=
  match n with
  | O => ([], v)
  | S n =>
      let '(trace, v') := run_steps n v in
      match pick v' with Some (e, v'') => (trace ++ [e], v'') | None => (trace, v') end
  end.

Lemma run_steps_runs n v : runs v (fst (run_steps n v)) (snd (run_steps n v)).
Proof.
  induction n as [|n IH]; [apply runs_nil|]. simpl. destruct (run_steps n v) as [trace v'] eqn:E. simpl in IH.
  destruct (pick v') as [[e v'']|] eqn:Ep; [|done]. simpl. eapply runs_step; [exact IH|by apply pick_step].
Qed.

(** Request 5, and a request to cancel it. *)
Definition small_input : list Z := frame_of [5] ++ frame_of [6; 5].
Definition small_start : service unit := serve small_input no_output tt.

Lemma small_input_bytes : Forall is_byte small_input.
Proof. unfold small_input, is_byte. vm_compute. repeat constructor; discriminate. Qed.

Lemma serve_in_order_witness :
  sv_main (snd (run_steps 40 small_start)) = Finished (Ok tt) /\
  written_of (fst (run_steps 40 small_start)) = [small_response 5 false []; small_response 6 true []] /\
  map fst (answered_of (fst (run_steps 40 small_start))) = accepted_of (fst (run_steps 40 small_start)).
Proof.
  assert (sv_main (snd (run_steps 40 small_start)) = Finished (Ok tt)) as Hm by (vm_compute; reflexivity).
  destruct (serve_in_order small_input no_output tt _ _ sample_deterministic small_input_bytes (run_steps_runs 40 small_start))
    as (_ & _ & _ & _ & H). destruct (H Hm) as (H1 & H2 & _).
  split; [exact Hm|]. split; [vm_compute; reflexivity|exact H1].
Defined.

Lemma serve_finishes_witness : exists trace v res, runs small_start trace v /\ sv_main v = Finished res.
Proof.
  apply (serve_finishes small_input no_output tt [] small_start); [|apply runs_nil].
  intros s q c. exists tt, (respond q c). reflexivity.
Defined.

Definition cancelled_job : job := mkJob (small_request LifecycleSources 5 0) (Some 0%nat).

Lemma cancel_hits_target_witness :
  sv_worker (snd (run_steps 7 small_start)) = Busy cancelled_job /\ is_fired (snd (run_steps 7 small_start)) cancelled_job = true /\
  cancelled_after (accepted_of (fst (run_steps 7 small_start))) (jb_request cancelled_job).
Proof.
  assert (sv_worker (snd (run_steps 7 small_start)) = Busy cancelled_job) as Hw by (vm_compute; reflexivity).
  assert (is_fired (snd (run_steps 7 small_start)) cancelled_job = true) as Hf by (vm_compute; reflexivity).
  destruct (cancel_hits_target small_input no_output tt _ _ cancelled_job 0 (run_steps_runs 7 small_start) Hw eq_refl) as [H _].
  split; [exact Hw|]. split; [exact Hf|exact (H Hf)].
Defined.
